(* ===== verification/_CoqProject ===== *)
-Q . S2P
Prelude.v
InputEvent.v
Proto.v
Codec.v
Wire.v
Transport.v
Caches.v
Text.v
Http3.v
Session.v
Geometry.v
Net.v
Clients.v
Scancode.v
InputCapture.v
CaptureTask.v
KeyBalance.v
Config.v
Toml.v
Service.v
Registry.v
Sync.v
Daemon.v
Emulation.v
Listen.v
Pair.v
EmulationLoop.v
Connect.v
Tls.v
Identity.v
ConfigFile.v
Dial.v
Files.v
Clipboard.v
ClipboardOs.v
Formats.v
Doubles.v
Monitors.v
Wide.v
LinuxClipboard.v
MacPasteboard.v
WinClipboard.v
Backend.v
Pixels.v
MacCapture.v
WinCapture.v
LayerShell.v
LibeiCapture.v
WinEmulation.v
MacEmulation.v
LinuxEmulation.v
IpcSocket.v
Cli.v
Dns.v
Power.v
Choice.v
Web.v
