(* ===== verification/Prelude.v ===== *)
(** * A verification development of lan-mouse

    lan-mouse shares one mouse and keyboard between machines.  A daemon runs on
    every machine.  On the sending side, input capture watches the edges of the
    screens; when the cursor crosses an edge that a client is bound to, the
    capture task greets the peer, and from then on sends it the input instead
    of handing it to the local system, until the peer or the release chord
    gives the cursor back.  On the receiving side the events are emulated.  The
    two daemons talk over QUIC: datagrams for what may be lost, streams for
    what may not, and a second codec for the clipboard.

    ** Files, in dependency order

    - Prelude (this file): outcomes of Rust calls ([Ok], [Err], [Panic],
      [Diverge]), readers over byte lists, big-endian numbers, UTF-8, the state
      monad [ST] of stateful calls, the predicates [preserves] and [wp] on its
      calls with their rules, the hint databases [lm] and [wp].
    - InputEvent: the events of input-event/src/lib.rs.
    - Proto: the wire events and their well-formedness
      (lan-mouse-proto/src/lib.rs).
    - Codec: both codecs of lan-mouse-proto/src/codec.rs; a class [VarCodec]
      mirrors the trait of the same name.
    - Wire: the contract of the codecs: round trips, totality on any bytes,
      strictness, and where the fixed decoder panics.
    - Transport: src/quic_transport/ protocol.rs and streams.rs with the hello
      part of session.rs: frames, routing, handshake, stream readers.
    - Caches: the two clipboard caches (src/clipboard/cache.rs, file_cache.rs)
      and the loopback fingerprints of service.rs.
    - Text: decimal and hexadecimal text, splitting, trimming, and
      [String::from_utf8_lossy].
    - Http3: src/quic_transport/http3.rs: requests and responses on a stream,
      the router and its routes over the caches, ranges, the client.
    - Session: src/quic_transport/session.rs: sending on the three streams and
      by datagram over what quinn answers, and the main loop.
    - Geometry: barrier detection (input-capture/src/geometry/mod.rs) in IEEE
      double arithmetic.
    - Net: addresses and text functions of Rust's standard library.
    - Clients: the client table (src/client.rs) over the class [Slab], whose
      laws are the documented behaviour of the slab crate.
    - Scancode: the key code tables (input-event/src/scancode.rs).
    - InputCapture: the capture multiplexer (input-capture/src/lib.rs) over the
      class [Capture], the trait of that name.
    - CaptureTask: the state machine of src/capture.rs.
    - KeyBalance: the keys that a run of the capture task leaves down at a
      client.
    - Config: the configuration tree of src/config.rs.
    - Toml: the text of a tree, as the class [TomlText], and which trees have one.
    - Service: the handlers of src/service.rs; a save is there whether it panics,
      and ConfigFile has what it does to the file.
    - Registry: what the requests of the service do to the registered barriers,
      and that the capture task refines it.
    - Sync: every handler of the service keeps the barriers in step.
    - Daemon: the reachable states, and the theorems about service and capture
      task together.
    - Emulation: the receiving side: input-emulation/src/lib.rs, and the listen
      task and the emulation task of src/emulation.rs.
    - Listen: src/listen.rs: the listener, the supervisor of a connection, the
      dispatcher of accepted streams and the readers it starts.
    - Pair: two daemons, a capture task and an emulation task with a session
      between them whose lanes interleave in any way.
    - Connect: src/connect.rs: the connection manager with its retries and
      supervisors, heartbeat and watchdog, the dispatcher of the dialling side.
    - Tls: src/quic_transport/tls.rs and src/crypto.rs: fingerprints, the pin
      store, both verifiers, and the way from a refused certificate to the list
      of authorized ones.
    - Identity: the files of the certificate and the key (src/crypto.rs), over a
      file system on which a start can be killed between any two of its calls.
    - ConfigFile: the file store and the watcher of src/config.rs, over the class
      of Toml.
    - Dial: [dial_any] of src/quic_transport/endpoint.rs and what the manager
      of Connect registers after it.
    - Files: src/clipboard/file_meta.rs and the tasks of service.rs that collect
      a selection of files and that receive one.
    - Clipboard: the pipeline of service.rs and src/clipboard/mod.rs: the
      poller, the dispatch of texts, images and files, the handling of what
      peers announce, over the class [Backend], the trait [ClipboardBackend].
    - ClipboardOs: what the clipboard backends share (src/clipboard/mod.rs): their
      errors, the programs they start and the image library, as classes.
    - Formats: what the backends under src/clipboard/ hand to their systems:
      lists of URIs (linux.rs), the header of a bitmap (macos.rs), lists of
      dropped files (windows.rs).
    - EmulationLoop: the life of the emulation task (src/emulation.rs) over its
      sessions, from the proxy to the backend.
    - Doubles: the conversions of Rust between integers and IEEE doubles.
    - Monitors: the lists of monitors of every capture backend.
    - Wide: UTF-16, and what Rust makes of an ill-formed one.
    - LinuxClipboard, MacPasteboard, WinClipboard: the clipboard backends
      (src/clipboard/linux.rs, macos.rs, windows.rs), over the programs, the
      pasteboard and the Win32 functions that they call.
    - Backend: what a capture backend promises to the capture task, as a
      specification over the requests it got and the events it emits.
    - Pixels: barrier detection on whole pixels, as a plain definition over
      integers and its equivalence with Geometry.
    - MacCapture, WinCapture, LayerShell, LibeiCapture: the capture backends
      (input-capture/src/macos.rs, windows.rs with windows/event_thread.rs,
      layer_shell.rs, libei.rs with input-event/src/libei.rs): their state, the
      handlers of what the system reports and of the requests of the capture
      task, and the tasks and loops around them.
    - WinEmulation, MacEmulation, LinuxEmulation: the emulation backends
      (input-emulation/src/windows.rs, macos.rs, and a module each for
      wlroots.rs, x11.rs, xdg_desktop_portal.rs, libei.rs and dummy.rs).
    - IpcSocket: the socket of the frontends (lan-mouse-ipc/src/listen.rs,
      connect_async.rs, connect.rs), over the class [Json] of texts that are
      read back.
    - Cli: the commands (lan-mouse-cli/src/lib.rs), composed with the handlers of
      Service.
    - Dns: the resolver task (src/dns.rs), composed with its handler in Service.
    - Power: the observer of sleep and wake (src/macos_power.rs).
    - Choice: which backend a build takes (input-capture/src/lib.rs, dummy.rs,
      error.rs and input-emulation/src/lib.rs, error.rs).
    - Web: the bridge, the event bus and the WebSockets of src/web.rs.

    ** How state and calls are modelled

    A handler is a function from the state to an outcome and a state.  [Panic]
    is an outcome, so that the absence of panics is a theorem; [Diverge] is the
    outcome of a loop that runs out of fuel, and the theorems exclude it: the
    fuel of a reader is the number of bytes left plus one (every turn consumes
    a byte or ends), that of the item loop of a variable-length list the length
    of its body.  What a handler sends to another task is appended to a log in
    its state; the requests of the service are the input of the capture task,
    and Registry and Daemon replay them there.  An asynchronous loop is a
    function of the sequence of picks of its [select!].  The clock, the success
    of sends, the order in which a hash set is drained, the network and the
    operating system's backends are arguments.  A scale or a coordinate is an
    IEEE double; wire integers are [Z] with their width in the codec; client
    handles are [N], those of incoming devices start at 2^63.

    ** What is shown

    - Codecs (Wire): encoding then decoding is the identity for every event in
      range; decoding any bytes returns; the clipboard frames are strict, the
      fixed frames lenient; the fixed decoder panics on the type bytes of the
      clipboard events.
    - Transport: frames are read back, the stream readers deliver what was
      written and survive anything on the clipboard stream, routing follows the
      table, and the handshake of two builds succeeds on both sides and refuses
      a wrong peer.
    - Http3: a body fetched by its hash, whole or as a range, is the cached one
      or the answer is 404 or 416, and on failing writes nothing in between; the
      two request decoders agree; what tells a request from a clipboard frame.
    - Session and Listen: however quinn answers, no stream of a session but
      stream A holds a torn frame before a whole one; stream A, which is kept after
      a failed write, may, and then the peer reads an event that nobody sent;
      without failures, and with clipboard frames below 196608 bytes, each event
      that one daemon sends is delivered by the other, on its lane, once and in
      order; a fetch through the dispatcher is a fetch from the server; and three
      ways in which events or later streams are lost.
    - KeyBalance and Pair: over any run of the capture task, any interleaving of
      the lanes and whatever else the peer's tasks do, no key stays down at the
      peer once the client is released; a [Leave] that overtakes keys included.
    - Connect: the backoff, one dial at a time as long as no supervisor redials,
      when it redials, when the watchdog fires, and two races between the
      supervisor and the manager.
    - Tls and Dial: a certificate that is pinned for a peer stays the one that is
      accepted; an unknown incoming one is refused until the user authorizes it
      and accepted until that is taken back; a dial registers the peer that answered at one
      of its own addresses.
    - Identity and ConfigFile: the certificate of the first complete start is the
      one of every later start, whichever starts are killed in between; the
      configuration in memory follows the file, except when a save fails, after
      which the watcher hears nothing.
    - Files: a file appears at its name only with the content that was
      announced, and keeps it, over any interleaving of the tasks that receive
      files; it arrives when the server has it; and when one of two files with the same content or the
      same name is lost.
    - Clipboard: a text that is copied arrives, and the poller does not send it
      back, but the push to a dialled peer that becomes active does; the files
      of one announcement are put on the clipboard together; and four orders of
      events in which an image is echoed, a stale text is sent, a text copied
      again is not sent, and a text is announced before it can be fetched.
    - Formats: a list of dropped files is read back, the header of a bitmap is
      right, and a list of URIs loses the leading slash of every path.
    - LinuxClipboard, MacPasteboard, WinClipboard: the Windows clipboard is opened,
      emptied and closed in order, no block of memory is freed twice, and the only
      ones that are lost are those that SetClipboardData refuses and the one of a
      text that cannot be locked; texts, images and files that are set are what is got; and the image cache
      of the pasteboard never answers anything but what a read would.
    - Caches: budgets, accounting, lookups after inserts, the loopback window,
      and the order in which stale keys upset eviction.
    - Geometry: when a barrier fires, what the query answers on every branch,
      and what the clamp does.
    - Clients, Config, Scancode: the addresses of a client, lookups, the stable
      name of a peer, round trips through the configuration and between the
      key code tables, and what is lost there.
    - InputCapture and CaptureTask: registration and fan-out of the
      multiplexer, the Enter/Ack handshake, the timeout of a pending crossing,
      release, the watchdogs, and the event queue of a removed client.
    - Daemon: over any sequence of events that leaves the bound monitors
      connected and whose numbers TOML can hold (a wider one panics the daemon when
      it is saved), nothing panics and the capture task watches exactly the
      barriers of the active clients and incoming devices; monitors that come
      and go take exactly their barriers with them; and two sequences in which
      the capture task does panic, one when a client is turned off while its
      monitor is away and one when its monitor first appears after activation.
    - Emulation: whatever the peers send, a peer that left, was disconnected or
      fell silent holds no key down; the tick gives up exactly the silent peers;
      a session that is told to terminate leaves nothing behind, and a request
      to terminate that comes while the known handles are created is lost.
    - EmulationLoop: over any life of the task its reports alternate and nothing
      is held outside of a session; a task that is told to exit ends; and the
      peers whose removal is lost.
    - MacCapture, WinCapture: each refines the specification of Backend: events
      come only under a crossing that was granted, and nothing panics; when an
      input is swallowed, when a modifier or a movement is reported, and what is
      lost when a channel is full or a call is refused.
    - LayerShell: one window for every barrier and every output at its edge, and
      what happens when outputs go or a grabbed client is destroyed.
    - LibeiCapture: a run never panics while the identifiers last, every input
      is at the barrier of the last crossing, and what a session selects.
    - Monitors, Pixels: the lists are usable and their identifiers differ; on
      whole pixels the arithmetic in doubles is that over integers.
    - WinEmulation, MacEmulation, LinuxEmulation: what each event becomes; which
      key is down and which repeats; which Wayland objects are alive; on what
      the backends of Linux agree; what one machine captures another of its
      kind injects; and the events of a peer that panic or hang a backend.
    - Choice: the emulation has a backend unless the user declined one; the
      capture never falls back to the dummy one, whose motions add up.
    - IpcSocket, Web: the requests of each frontend arrive whole and in order,
      so do the events when the writes are whole, and how long a frontend waits
      for the daemon; what a browser gets of the events.
    - Cli, Dns: a client that is added from the command line is set up and saved
      but for its hook; a client ends with the addresses of the name it asked
      for last, but for a name that is taken away.

    ** What is not modelled

    The calls into operating systems, which are logs and arguments of the
    backends: making the taps, hooks, surfaces and devices, permissions, and the
    tokens of the portals; the capture backend of X11 beyond that it
    cannot be made.
    The third-party crates (quinn, rustls, h3, slab, toml, serde, axum, clap, the
    resolver, the file watcher, the image codecs), the popup window, the process
    set-up of main.rs, the test commands, and log text.  quinn's answers are
    arguments of Session, Listen and Connect, those of the file system arguments
    of Files, Identity and ConfigFile. *)

From Stdlib Require Export ZArith Lia.
From Stdlib Require Export Strings.Byte.
From stdpp Require Export base option list gmap sets strings.

#[export] Set Default Goal Selector "!".

(** The rewriting database of the development. *)
Create Rewrite HintDb lm.

(** * Outcomes

    A Rust function of the program ends in one of four ways: it returns
    [Ok], it returns [Err], it panics ([unreachable!], a slice index out of
    range, [f64::clamp] with a bad interval, ...), or it never returns.  The
    last case appears only in loops that are modelled with fuel, as the value
    of the loop on empty fuel. *)

Inductive outcome (E A : Type) : Type :=
| Ok (a : A)
| Err (e : E)
| Panic
| Diverge.
Arguments Ok {E A} a.
Arguments Err {E A} e.
Arguments Panic {E A}.
Arguments Diverge {E A}.

#[export] Instance outcome_ret E : MRet (outcome E) := fun A a => Ok a.
#[export] Instance outcome_bind E : MBind (outcome E) := fun A B f m =>
  match m with
  | Ok a => f a
  | Err e => Err e
  | Panic => Panic
  | Diverge => Diverge
  end.
#[export] Instance outcome_fmap E : FMap (outcome E) := fun A B f m =>
  match m with
  | Ok a => Ok (f a)
  | Err e => Err e
  | Panic => Panic
  | Diverge => Diverge
  end.

(** [map_err]: change the error, keep everything else. *)
Definition map_err {E F A} (f : E → F) (m : outcome E A) : outcome F A :=
  match m with
  | Ok a => Ok a
  | Err e => Err (f e)
  | Panic => Panic
  | Diverge => Diverge
  end.

(** [Option::ok_or]. *)
Definition ok_or {E A} (o : option A) (e : E) : outcome E A :=
  match o with Some a => Ok a | None => Err e end.

(** A call that returns normally, with a value or with an error. *)
Definition returns {E A} (m : outcome E A) : Prop :=
  match m with Ok _ | Err _ => True | Panic | Diverge => False end.

Lemma outcome_bind_ok {E A B} (m : outcome E A) (f : A → outcome E B) b :
  m ≫= f = Ok b ↔ ∃ a, m = Ok a ∧ f a = Ok b.
Proof. destruct m; cbn; naive_solver. Qed.

Lemma returns_bind {E A B} (m : outcome E A) (f : A → outcome E B) :
  returns m → (∀ a, m = Ok a → returns (f a)) → returns (m ≫= f).
Proof. destruct m; cbn; naive_solver. Qed.

(** * Machine integers

    A [w]-bit unsigned integer is a [Z] in [[0, 2^w)].  [wrapU] and [wrapS]
    are the casts [as uw] and [as iw]. *)

Definition inU (w z : Z) : Prop := (0 ≤ z < 2 ^ w)%Z.
Definition inS (w z : Z) : Prop := (- 2 ^ (w - 1) ≤ z < 2 ^ (w - 1))%Z.
Definition wrapU (w z : Z) : Z := (z mod 2 ^ w)%Z.
Definition wrapS (w z : Z) : Z :=
  ((z + 2 ^ (w - 1)) mod 2 ^ w - 2 ^ (w - 1))%Z.

#[export] Instance inU_dec w z : Decision (inU w z).
Proof. unfold inU; apply _. Defined.
#[export] Instance inS_dec w z : Decision (inS w z).
Proof. unfold inS; apply _. Defined.

Lemma wrapU_small w z : inU w z → wrapU w z = z.
Proof. apply Z.mod_small. Qed.

Lemma wrapU_in w z : (0 ≤ w)%Z → inU w (wrapU w z).
Proof. intros. apply Z.mod_pos_bound. lia. Qed.

Lemma wrapS_id w z : (0 < w)%Z → inS w z → wrapS w z = z.
Proof.
  unfold wrapS, inS. intros Hw Hz. assert (2 ^ w = 2 * 2 ^ (w - 1))%Z as E by (rewrite <- Z.pow_succ_r by lia; f_equal; lia).
  rewrite Z.mod_small by lia. lia.
Qed.
Lemma wrapS_wrapU w z : (0 < w)%Z → inS w z → wrapS w (wrapU w z) = z.
Proof.
  intros Hw Hz. unfold wrapS, wrapU, inS in *.
  rewrite Zplus_mod_idemp_l.
  assert (2 ^ w = 2 * 2 ^ (w - 1))%Z as E.
  { rewrite <- Z.pow_succ_r by lia. f_equal. lia. }
  rewrite Z.mod_small; lia.
Qed.

(** * Bytes *)

#[export] Instance byte_eq_dec : EqDecision byte := Byte.byte_eq_dec.
#[export] Instance byte_countable : Countable byte.
Proof.
  refine (inj_countable Byte.to_N Byte.of_N _).
  intros b. apply Byte.of_to_N.
Defined.

Definition Z_of_byte (b : byte) : Z := Z.of_N (Byte.to_N b).
Definition byte_of_Z (z : Z) : byte :=
  default x00 (Byte.of_N (Z.to_N (z mod 256))).

Lemma Z_of_byte_bound b : (0 ≤ Z_of_byte b < 256)%Z.
Proof. unfold Z_of_byte. pose proof (Byte.to_N_bounded b). lia. Qed.

Lemma Z_of_byte_of_Z z : Z_of_byte (byte_of_Z z) = (z mod 256)%Z.
Proof.
  unfold Z_of_byte, byte_of_Z.
  pose proof (Z.mod_pos_bound z 256 eq_refl) as Hb.
  destruct (Byte.of_N (Z.to_N (z mod 256))) as [b|] eqn:E; cbn.
  - apply Byte.to_of_N in E. rewrite E. lia.
  - apply Byte.of_N_None_iff in E. lia.
Qed.

Lemma byte_of_Z_of_byte b : byte_of_Z (Z_of_byte b) = b.
Proof.
  unfold byte_of_Z. rewrite Z.mod_small by apply Z_of_byte_bound.
  unfold Z_of_byte. rewrite N2Z.id, Byte.of_to_N. done.
Qed.

Lemma Z_of_byte_inj b1 b2 : Z_of_byte b1 = Z_of_byte b2 → b1 = b2.
Proof.
  intros H. rewrite <- (byte_of_Z_of_byte b1), H. apply byte_of_Z_of_byte.
Qed.

(** [to_be_bytes] of an [8 n]-bit integer, and [from_be_bytes]. *)
Fixpoint be_bytes (n : nat) (z : Z) : list byte :=
  match n with
  | O => []
  | S k => byte_of_Z (Z.shiftr z (8 * Z.of_nat k)) :: be_bytes k z
  end.

Fixpoint be_val (bs : list byte) : Z :=
  match bs with
  | [] => 0
  | b :: bs' => Z_of_byte b * 2 ^ (8 * Z.of_nat (length bs')) + be_val bs'
  end%Z.

Lemma length_be_bytes n z : length (be_bytes n z) = n.
Proof. induction n; cbn; congruence. Qed.

Lemma be_val_bound bs : (0 ≤ be_val bs < 2 ^ (8 * Z.of_nat (length bs)))%Z.
Proof.
  induction bs as [|b bs IH]; cbn [be_val length]; [lia|].
  pose proof (Z_of_byte_bound b).
  replace (8 * Z.of_nat (S (length bs)))%Z
    with (8 + 8 * Z.of_nat (length bs))%Z by lia.
  rewrite Z.pow_add_r by lia. change (2 ^ 8)%Z with 256%Z. nia.
Qed.

Lemma be_val_be_bytes_mod n z :
  be_val (be_bytes n z) = (z mod 2 ^ (8 * Z.of_nat n))%Z.
Proof.
  induction n as [|n IH]; cbn [be_bytes be_val]; [by rewrite Z.mod_1_r|].
  rewrite IH, length_be_bytes, Z_of_byte_of_Z, Z.shiftr_div_pow2 by lia.
  replace (8 * Z.of_nat (S n))%Z with (8 * Z.of_nat n + 8)%Z by lia.
  rewrite Z.pow_add_r by lia. change (2 ^ 8)%Z with 256%Z.
  rewrite Z.rem_mul_r by lia. lia.
Qed.

Lemma be_val_be_bytes n z :
  inU (8 * Z.of_nat n) z → be_val (be_bytes n z) = z.
Proof. intros. rewrite be_val_be_bytes_mod. by apply Z.mod_small. Qed.

Lemma be_bytes_mod n m z :
  (8 * Z.of_nat n ≤ m)%Z → be_bytes n (z mod 2 ^ m) = be_bytes n z.
Proof.
  intros Hm. induction n as [|n IH]; cbn [be_bytes]; [done|].
  rewrite IH by lia. f_equal. apply Z_of_byte_inj.
  rewrite !Z_of_byte_of_Z. change 256%Z with (2 ^ 8)%Z.
  rewrite <- !Z.land_ones, !Z.shiftr_land by lia.
  apply Z.bits_inj'. intros i Hi.
  rewrite !Z.land_spec, Z.shiftr_spec, !Z.testbit_ones by lia.
  rewrite Z.shiftr_spec, Z.testbit_ones by lia.
  destruct (Z.testbit z _); cbn; [|done]. lia.
Qed.

Lemma be_bytes_be_val bs : be_bytes (length bs) (be_val bs) = bs.
Proof.
  induction bs as [|b bs IH]; cbn [be_val length be_bytes]; [done|].
  pose proof (be_val_bound bs) as Hb. f_equal.
  - rewrite Z.shiftr_div_pow2, Z.div_add_l, Z.div_small by lia.
    rewrite Z.add_0_r. apply byte_of_Z_of_byte.
  - rewrite <- (be_bytes_mod _ (8 * Z.of_nat (length bs))) by lia.
    rewrite Z.add_comm, Z.mod_add by lia.
    by rewrite Z.mod_small by lia.
Qed.

(** * Readers

    A decoder of the program takes [&mut &[u8]] and advances the slice past
    what it consumed: a state-passing function over the bytes that remain.
    After an error no caller looks at the slice again, so [Err] carries no
    rest. *)

Definition reader (E A : Type) : Type := list byte → outcome E (A * list byte).

#[export] Instance reader_ret E : MRet (reader E) := fun A a bs => Ok (a, bs).
#[export] Instance reader_bind E : MBind (reader E) := fun A B f m bs =>
  match m bs with
  | Ok (a, rest) => f a rest
  | Err e => Err e
  | Panic => Panic
  | Diverge => Diverge
  end.

(** [framed short P k r]: the reader [r] never panics and always returns; a
    value it returns satisfies [P], was read from at least [k] bytes, does not
    depend on what follows these bytes, and cannot be read from any proper
    prefix of them: there [r] answers [short]. *)
Definition framed {E A} (short : E) (P : A → Prop) (k : nat) (r : reader E A) : Prop :=
  ∀ bs, match r bs with
        | Ok (x, rest) =>
            P x ∧ ∃ c, bs = c ++ rest ∧ k ≤ length c ∧
              (∀ tl, r (c ++ tl) = Ok (x, tl)) ∧
              (∀ c' d, c = c' ++ d → d ≠ [] → r c' = Err short)
        | Err _ => True
        | Panic | Diverge => False
        end.

Lemma framed_ret {E A} (short : E) (P : A → Prop) x :
  P x → framed short P 0 (mret x).
Proof.
  intros HP bs. cbn. split; [done|]. exists []. repeat split; [cbn; lia|].
  intros c' d Hc Hd. symmetry in Hc. apply app_eq_nil in Hc. naive_solver.
Qed.

Lemma framed_bind {E A B} (short : E) (P : A → Prop) (Q : B → Prop) k1 k2
    (r : reader E A) (f : A → reader E B) :
  framed short P k1 r →
  (∀ x, P x → framed short Q k2 (f x)) →
  framed short Q (k1 + k2) (r ≫= f).
Proof.
  intros Hr Hf bs. unfold mbind, reader_bind. specialize (Hr bs).
  destruct (r bs) as [[x rest]| | |]; try done.
  destruct Hr as (HP & c & -> & Hk & Hloc & Hpre). specialize (Hf x HP).
  pose proof (Hf rest) as Hfr.
  destruct (f x rest) as [[y rest']| | |] eqn:Efx; try done.
  destruct Hfr as (HQ & c2 & -> & Hk2 & Hloc2 & Hpre2).
  split; [done|]. exists (c ++ c2). repeat split.
  - by rewrite app_assoc.
  - rewrite length_app. lia.
  - intros tl. rewrite <- app_assoc, Hloc. apply Hloc2.
  - intros c' d Heq Hd. apply app_eq_app in Heq as [l [[-> ->]|[-> ->]]].
    + destruct l as [|b l].
      * rewrite app_nil_r in *.
        pose proof (Hloc []) as Hl. rewrite app_nil_r in Hl. rewrite Hl.
        by apply (Hpre2 [] c2).
      * by rewrite (Hpre c' (b :: l)).
    + rewrite Hloc. by apply (Hpre2 l d).
Qed.

Lemma framed_weaken {E A} (short : E) (P Q : A → Prop) k k' (r : reader E A) :
  (∀ x, P x → Q x) → k' ≤ k → framed short P k r → framed short Q k' r.
Proof.
  intros HPQ Hk Hr bs. specialize (Hr bs). destruct (r bs) as [[x rest]| | |]; try done.
  destruct Hr as (HP & c & ? & ? & ? & ?). split; [auto|]. exists c. split_and!; auto. lia.
Qed.

(** [split_at(n)] after the length guard the decoders write out. *)
Definition read_exactly {E} (short : E) (n : nat) : reader E (list byte) := fun bs =>
  if decide (length bs < n) then Err short else Ok (take n bs, drop n bs).

Lemma read_exactly_app {E} (short : E) n bs rest :
  length bs = n → read_exactly short n (bs ++ rest) = Ok (bs, rest).
Proof.
  intros <-. unfold read_exactly. rewrite decide_False by (rewrite length_app; lia).
  by rewrite take_app_length, drop_app_length.
Qed.

Lemma framed_read_exactly {E} (short : E) n :
  framed short (λ bs, length bs = n) n (read_exactly short n).
Proof.
  intros bs. unfold read_exactly. case_decide; [done|].
  split; [rewrite length_take; lia|].
  exists (take n bs). split_and!.
  - by rewrite take_drop.
  - rewrite length_take. lia.
  - intros tl. apply read_exactly_app. rewrite length_take. lia.
  - intros c' d Heq Hd. rewrite decide_True; [done|].
    apply (f_equal length) in Heq. rewrite length_take, length_app in Heq.
    destruct d; [done|]. cbn in Heq. lia.
Qed.

(** * Strings

    A Rust [String] is a [string] whose bytes are valid UTF-8.  [utf8_valid]
    is the acceptance condition of [String::from_utf8] (the Unicode table of
    well-formed byte sequences). *)

Definition is_cont (b : byte) : bool :=
  ((0x80 <=? Z_of_byte b) && (Z_of_byte b <=? 0xBF))%Z.

(** The second byte of a three-byte and of a four-byte sequence. *)
Definition second3_ok (z0 : Z) (b1 : byte) : bool :=
  (let z1 := Z_of_byte b1 in
   if z0 =? 0xE0 then (0xA0 <=? z1) && (z1 <=? 0xBF)
   else if z0 =? 0xED then (0x80 <=? z1) && (z1 <=? 0x9F)
   else is_cont b1)%Z.
Definition second4_ok (z0 : Z) (b1 : byte) : bool :=
  (let z1 := Z_of_byte b1 in
   if z0 =? 0xF0 then (0x90 <=? z1) && (z1 <=? 0xBF)
   else if z0 =? 0xF4 then (0x80 <=? z1) && (z1 <=? 0x8F)
   else is_cont b1)%Z.

Fixpoint utf8_valid (bs : list byte) : bool :=
  match bs with
  | [] => true
  | b0 :: r0 =>
      let z0 := Z_of_byte b0 in
      if (z0 <? 0x80)%Z then utf8_valid r0
      else if ((0xC2 <=? z0) && (z0 <=? 0xDF))%Z then
        match r0 with
        | b1 :: r1 => is_cont b1 && utf8_valid r1
        | _ => false
        end
      else if ((0xE0 <=? z0) && (z0 <=? 0xEF))%Z then
        match r0 with
        | b1 :: b2 :: r2 => second3_ok z0 b1 && is_cont b2 && utf8_valid r2
        | _ => false
        end
      else if ((0xF0 <=? z0) && (z0 <=? 0xF4))%Z then
        match r0 with
        | b1 :: b2 :: b3 :: r3 =>
            second4_ok z0 b1 && is_cont b2 && is_cont b3 && utf8_valid r3
        | _ => false
        end
      else false
  end.

Definition as_bytes (s : string) : list byte := String.list_byte_of_string s.
Definition of_bytes (bs : list byte) : string := String.string_of_list_byte bs.

Lemma as_bytes_of_bytes bs : as_bytes (of_bytes bs) = bs.
Proof. apply String.list_byte_of_string_of_list_byte. Qed.
Lemma of_bytes_as_bytes s : of_bytes (as_bytes s) = s.
Proof. apply String.string_of_list_byte_of_string. Qed.

(** [String::from_utf8]. *)
Definition from_utf8 (bs : list byte) : option string :=
  if utf8_valid bs then Some (of_bytes bs) else None.

#[export] Hint Rewrite length_be_bytes as_bytes_of_bytes of_bytes_as_bytes
  byte_of_Z_of_byte Z_of_byte_of_Z : lm.

#[global] Arguments be_bytes : simpl never.
#[global] Arguments be_val : simpl never.
#[global] Arguments as_bytes : simpl never.
#[global] Arguments of_bytes : simpl never.

(** * Stateful calls

    A call on a mutable state that may fail: the outcome and the state it
    leaves, also when it fails. *)

Definition ST (S E A : Type) : Type := S → outcome E A * S.
#[export] Instance ST_ret S E : MRet (ST S E) := λ A a s, (Ok a, s).
#[export] Instance ST_bind S E : MBind (ST S E) := λ A B f m s,
  match m s with
  | (Ok a, s) => f a s
  | (Err e, s) => (Err e, s)
  | (Panic, s) => (Panic, s)
  | (Diverge, s) => (Diverge, s)
  end.
Definition get_st {S E} : ST S E S := λ s, (Ok s, s).
Definition modify_st {S E} (f : S → S) : ST S E unit := λ s, (Ok tt, f s).
Definition gets {S E A} (f : S → A) : ST S E A := λ s, (Ok (f s), s).
Definition raise {S E A} (e : E) : ST S E A := λ s, (Err e, s).
Definition panic {S E A} : ST S E A := λ s, (Panic, s).
(** The call's [Result] as a value: [let res = call], [if let Err(e) = call
    { log }], [let _ = call].  A panic stays a panic. *)
Definition attempt {S E A} (m : ST S E A) : ST S E (E + A) := λ s,
  match m s with
  | (Ok a, s) => (Ok (inr a), s)
  | (Err e, s) => (Ok (inl e), s)
  | (Panic, s) => (Panic, s)
  | (Diverge, s) => (Diverge, s)
  end.
(** A [Result] returned. *)
Definition reply {S E A} (r : E + A) : ST S E A :=
  match r with inr a => λ s, (Ok a, s) | inl e => λ s, (Err e, s) end.
(** [if c { m }]. *)
Definition when {S E} (c : bool) (m : ST S E unit) : ST S E unit :=
  if c then m else mret tt.
Fixpoint for_each {S E A} (f : A → ST S E unit) (l : list A) : ST S E unit :=
  match l with
  | [] => mret tt
  | x :: l => f x ≫= λ _, for_each f l
  end.

(** What a call guarantees of the state it leaves, whatever its outcome. *)
Definition preserves {S E A} (I : S → Prop) (m : ST S E A) : Prop :=
  ∀ s, I s → I (snd (m s)).

Section preserves.
Context {S E : Type} (I : S → Prop).

Lemma preserves_ret {A} (a : A) : preserves (E := E) I (mret a).
Proof. by intros s. Qed.
Lemma preserves_bind {A B} (m : ST S E A) (f : A → ST S E B) :
  preserves I m → (∀ a, preserves I (f a)) → preserves I (m ≫= f).
Proof.
  intros Hm Hf s Hs. unfold mbind, ST_bind. specialize (Hm s Hs).
  destruct (m s) as [[a|e| |] s']; try done. by apply Hf.
Qed.
Lemma preserves_modify f : (∀ s, I s → I (f s)) → preserves (E := E) I (modify_st f).
Proof. intros Hf s Hs. by apply Hf. Qed.
Lemma preserves_gets {A} (f : S → A) : preserves (E := E) I (gets f).
Proof. by intros s. Qed.
Lemma preserves_raise {A} (e : E) : preserves I (raise (A := A) e).
Proof. by intros s. Qed.
Lemma preserves_panic {A} : preserves (E := E) I (panic (A := A)).
Proof. by intros s. Qed.
Lemma preserves_attempt {A} (m : ST S E A) : preserves I m → preserves I (attempt m).
Proof.
  intros Hm s Hs. specialize (Hm s Hs). unfold attempt. by destruct (m s) as [[] ?].
Qed.
Lemma preserves_reply {A} (r : E + A) : preserves I (reply r).
Proof. destruct r; by intros s. Qed.
Lemma preserves_when c (m : ST S E unit) : preserves I m → preserves I (when c m).
Proof. intros Hm. destruct c; [done|apply preserves_ret]. Qed.
Lemma preserves_for_each {A} (f : A → ST S E unit) l :
  (∀ x, preserves I (f x)) → preserves I (for_each f l).
Proof.
  intros Hf. induction l; cbn; [apply preserves_ret|]. apply preserves_bind; auto.
Qed.
End preserves.

(** ** Weakest preconditions

    [wp m Q s]: the call [m] succeeds from [s], and its result and the state
    it leaves satisfy [Q].  In particular it neither fails nor panics. *)

Definition wp {S E A} (m : ST S E A) (Q : A → S → Prop) (s : S) : Prop :=
  match m s with (Ok a, s') => Q a s' | _ => False end.

Section wp.
Context {S E : Type}.
Implicit Types (s : S).

Lemma wp_ret {A} (a : A) (Q : A → S → Prop) s : wp (E := E) (mret a) Q s ↔ Q a s.
Proof. done. Qed.
Lemma wp_bind {A B} (m : ST S E A) (f : A → ST S E B) Q s :
  wp (m ≫= f) Q s ↔ wp m (λ a, wp (f a) Q) s.
Proof. unfold wp, mbind, ST_bind. by destruct (m s) as [[] ?]. Qed.
Lemma wp_gets {A} (f : S → A) Q s : wp (E := E) (gets f) Q s ↔ Q (f s) s.
Proof. done. Qed.
Lemma wp_get Q s : wp (E := E) get_st Q s ↔ Q s s.
Proof. done. Qed.
Lemma wp_modify f Q s : wp (E := E) (modify_st f) Q s ↔ Q tt (f s).
Proof. done. Qed.
Lemma wp_when (c : bool) (m : ST S E unit) Q s :
  wp (when c m) Q s ↔ if c then wp m Q s else Q tt s.
Proof. by destruct c. Qed.
Lemma wp_mono {A} (m : ST S E A) (P Q : A → S → Prop) s :
  wp m P s → (∀ a s', P a s' → Q a s') → wp m Q s.
Proof. unfold wp. intros Hm HQ. destruct (m s) as [[] ?]; auto. Qed.
Lemma wp_conj {A} (m : ST S E A) (P Q : A → S → Prop) s :
  wp m P s → wp m Q s → wp m (λ a s', P a s' ∧ Q a s') s.
Proof. unfold wp. by destruct (m s) as [[] ?]. Qed.
Lemma wp_attempt {A} (m : ST S E A) Q s :
  wp m (λ a, Q (inr a)) s → wp (attempt m) Q s.
Proof. unfold wp, attempt. by destruct (m s) as [[] ?]. Qed.
Lemma wp_Ok {A} (m : ST S E A) Q s :
  wp m Q s ↔ ∃ a s', m s = (Ok a, s') ∧ Q a s'.
Proof.
  unfold wp. destruct (m s) as [[] ?]; naive_solver.
Qed.

Lemma wp_eq {A} (m : ST S E A) (Q : A → S → Prop) s a s' : wp m Q s → m s = (Ok a, s') → Q a s'.
Proof. unfold wp. intros Hm E'. by rewrite E' in Hm. Qed.

Lemma wp_preserves {A} (I : S → Prop) (m : ST S E A) Q s :
  wp m Q s → preserves I m → I s → wp m (λ a s', Q a s' ∧ I s') s.
Proof. unfold wp. intros Hm Hk Hs. specialize (Hk s Hs). by destruct (m s) as [[] ?]. Qed.

(** A loop: [I] holds of the elements still to come. *)
Lemma wp_for_each {A} (f : A → ST S E unit) (I : list A → S → Prop) l s :
  (∀ x l s, I (x :: l) s → wp (f x) (λ _, I l) s) → I l s →
  wp (for_each f l) (λ _, I []) s.
Proof.
  intros Hf. revert s. induction l as [|x l IH]; intros s Hs; cbn; [done|].
  apply wp_bind. eapply wp_mono; [by apply Hf|]. intros a s' Hs'. by apply IH.
Qed.
End wp.

Create Rewrite HintDb wp.
#[export] Hint Rewrite @wp_ret @wp_bind @wp_gets @wp_get @wp_modify @wp_when : wp.
Ltac wp := autorewrite with wp.
