(* ===== verification/InputEvent.v ===== *)
(** The input events that travel between machines
    (input-event/src/lib.rs): pointer and keyboard events, with integers at
    their width and [f64] values as their 64-bit IEEE pattern, which is what
    the wire codec moves. *)

From S2P Require Import Prelude.

(** An [f64] as [f64::to_bits]. *)
Record f64 : Type := F64 { f64_bits : Z }.

#[export] Instance f64_eq_dec : EqDecision f64.
Proof. solve_decision. Defined.

Inductive PointerEvent : Type :=
| Motion (time : Z) (dx dy : f64)
| Button (time button state : Z)
| Axis (time axis : Z) (value : f64)
| AxisDiscrete120 (axis value : Z).

Inductive KeyboardEvent : Type :=
| Key (time key state : Z)
| Modifiers (depressed latched locked group : Z).

Inductive Event : Type :=
| Pointer (p : PointerEvent)
| Keyboard (k : KeyboardEvent).

Definition BTN_LEFT : Z := 0x110.
Definition BTN_RIGHT : Z := 0x111.
Definition BTN_MIDDLE : Z := 0x112.
Definition BTN_BACK : Z := 0x113.
Definition BTN_FORWARD : Z := 0x114.

#[export] Instance PointerEvent_eq_dec : EqDecision PointerEvent.
Proof. solve_decision. Defined.
#[export] Instance KeyboardEvent_eq_dec : EqDecision KeyboardEvent.
Proof. solve_decision. Defined.
#[export] Instance Event_eq_dec : EqDecision Event.
Proof. solve_decision. Defined.

(** The values of the Rust types: every field in the range of its type. *)
Definition pointer_wf (p : PointerEvent) : Prop :=
  match p with
  | Motion t dx dy => inU 32 t ∧ inU 64 (f64_bits dx) ∧ inU 64 (f64_bits dy)
  | Button t b s => inU 32 t ∧ inU 32 b ∧ inU 32 s
  | Axis t a v => inU 32 t ∧ inU 8 a ∧ inU 64 (f64_bits v)
  | AxisDiscrete120 a v => inU 8 a ∧ inS 32 v
  end.

Definition keyboard_wf (k : KeyboardEvent) : Prop :=
  match k with
  | Key t k s => inU 32 t ∧ inU 32 k ∧ inU 8 s
  | Modifiers d la lo g => inU 32 d ∧ inU 32 la ∧ inU 32 lo ∧ inU 32 g
  end.

Definition event_wf (e : Event) : Prop :=
  match e with Pointer p => pointer_wf p | Keyboard k => keyboard_wf k end.
