(* ===== verification/Proto.v ===== *)
(** The wire events of the protocol (lan-mouse-proto/src/lib.rs): positions,
    event types, payload structs, [ProtoEvent], the errors of the decoder and
    the well-formedness of the values of these types. *)

From S2P Require Import Prelude InputEvent.

(** The constants of lib.rs. *)
Definition MAX_EVENT_SIZE : nat := 1 + 4 + 2 * 8.
Definition MAX_FRAME_SIZE : nat := 16 * 1024.
Definition CLIPBOARD_TEXT_INLINE_LIMIT : nat := 1024.
Definition PROTOCOL_MAGIC : list byte := as_bytes "LANMOUSE".

(** * Positions and event types *)

Module Pos.
Inductive Position : Type := Left | Right | Top | Bottom.

#[global] Instance Position_eq_dec : EqDecision Position.
Proof. solve_decision. Defined.

(** [pos as u8]. *)
Definition to_u8 (p : Position) : Z :=
  match p with Left => 0 | Right => 1 | Top => 2 | Bottom => 3 end.

(** The derived [TryFromPrimitive]. *)
Definition try_from (n : Z) : option Position :=
  match n with
  | 0 => Some Left | 1 => Some Right | 2 => Some Top | 3 => Some Bottom
  | _ => None
  end%Z.

Lemma pos_try_from p : try_from (to_u8 p) = Some p.
Proof. by destruct p. Qed.
End Pos.

Module EventType.
Inductive EventType : Type :=
| PointerMotion | PointerButton | PointerAxis | PointerAxisValue120
| KeyboardKey | KeyboardModifiers
| Ping | Pong | Enter | Leave | Ack | Hello
| ClipboardText | ClipboardImage | ClipboardFiles
| FileTransferOffer | FileTransferResponse | FileTransferCancel
| ClipboardRequest.

#[global] Instance EventType_eq_dec : EqDecision EventType.
Proof. solve_decision. Defined.

(** The variants in declaration order: [#[repr(u8)]] numbers them from 0. *)
Definition all : list EventType :=
  [PointerMotion; PointerButton; PointerAxis; PointerAxisValue120;
   KeyboardKey; KeyboardModifiers; Ping; Pong; Enter; Leave; Ack; Hello;
   ClipboardText; ClipboardImage; ClipboardFiles; FileTransferOffer;
   FileTransferResponse; FileTransferCancel; ClipboardRequest].

Definition to_u8 (t : EventType) : Z :=
  match t with
  | PointerMotion => 0 | PointerButton => 1 | PointerAxis => 2
  | PointerAxisValue120 => 3 | KeyboardKey => 4 | KeyboardModifiers => 5
  | Ping => 6 | Pong => 7 | Enter => 8 | Leave => 9 | Ack => 10 | Hello => 11
  | ClipboardText => 12 | ClipboardImage => 13 | ClipboardFiles => 14
  | FileTransferOffer => 15 | FileTransferResponse => 16
  | FileTransferCancel => 17 | ClipboardRequest => 18
  end.

Definition try_from (n : Z) : option EventType :=
  if (n <? 0)%Z then None else all !! Z.to_nat n.

Definition is_fixed (t : EventType) : bool :=
  match t with
  | PointerMotion | PointerButton | PointerAxis | PointerAxisValue120
  | KeyboardKey | KeyboardModifiers
  | Ping | Pong | Enter | Leave | Ack | Hello => true
  | _ => false
  end.

Lemma try_from_to_u8 t : try_from (to_u8 t) = Some t.
Proof. by destruct t. Qed.

Lemma all_lookup m t : all !! m = Some t → m = Z.to_nat (to_u8 t).
Proof.
  intros H. do 19 (destruct m as [|m]; [cbn in H; by simplify_eq|]).
  done.
Qed.

Lemma try_from_inv n t : try_from n = Some t → n = to_u8 t.
Proof.
  unfold try_from. destruct (n <? 0)%Z eqn:E; [done|]. apply Z.ltb_ge in E.
  intros Ht%all_lookup. destruct t; cbn in *; lia.
Qed.

Lemma to_u8_range t : (0 ≤ to_u8 t < 19)%Z.
Proof. destruct t; cbn; lia. Qed.
End EventType.

(** * Payloads *)

Record FileEntry : Type := mkFileEntry {
  fe_name : string;
  fe_size : Z;
  fe_mime : string;
  fe_sha256 : list byte
}.

Record ClipboardText : Type := mkClipboardText {
  ct_fingerprint : list byte;
  ct_sha256 : list byte;
  ct_size : Z;
  ct_content_inline : option (list byte)
}.

(** [ClipboardText::from_content] and [is_inline]. *)
Definition from_content (fingerprint sha256 content : list byte) : ClipboardText :=
  let size := Z.of_nat (length content) in
  let content_inline :=
    if decide (length content ≤ CLIPBOARD_TEXT_INLINE_LIMIT)
    then Some content else None in
  mkClipboardText fingerprint sha256 size content_inline.

Definition is_inline (ct : ClipboardText) : bool :=
  match ct_content_inline ct with Some _ => true | None => false end.

Record ClipboardImage : Type := mkClipboardImage {
  ci_fingerprint : list byte;
  ci_mime : string;
  ci_sha256 : list byte;
  ci_size : Z
}.

Record ClipboardFiles : Type := mkClipboardFiles {
  cf_fingerprint : list byte;
  cf_entries : list FileEntry
}.

Record FileTransferOffer : Type := mkFileTransferOffer {
  fo_sha256 : list byte;
  fo_name : string;
  fo_size : Z;
  fo_mime : string
}.

Record FileTransferResponse : Type := mkFileTransferResponse {
  fr_sha256 : list byte;
  fr_accept : bool
}.

Record FileTransferCancel : Type := mkFileTransferCancel { fc_sha256 : list byte }.
Record ClipboardRequest : Type := mkClipboardRequest { cr_sha256 : list byte }.

#[export] Instance FileEntry_eq_dec : EqDecision FileEntry.
Proof. solve_decision. Defined.
#[export] Instance ClipboardText_eq_dec : EqDecision ClipboardText.
Proof. solve_decision. Defined.
#[export] Instance ClipboardImage_eq_dec : EqDecision ClipboardImage.
Proof. solve_decision. Defined.
#[export] Instance ClipboardFiles_eq_dec : EqDecision ClipboardFiles.
Proof. solve_decision. Defined.
#[export] Instance FileTransferOffer_eq_dec : EqDecision FileTransferOffer.
Proof. solve_decision. Defined.
#[export] Instance FileTransferResponse_eq_dec : EqDecision FileTransferResponse.
Proof. solve_decision. Defined.
#[export] Instance FileTransferCancel_eq_dec : EqDecision FileTransferCancel.
Proof. solve_decision. Defined.
#[export] Instance ClipboardRequest_eq_dec : EqDecision ClipboardRequest.
Proof. solve_decision. Defined.

(** * Events *)

Module ProtoEvent.
Inductive ProtoEvent : Type :=
| Enter (pos : Pos.Position)
| Leave (serial : Z)
| Ack (serial : Z)
| Input (e : Event)
| Ping
| Pong (alive : bool)
| Hello (magic commit : list byte)
| ClipboardText (ct : Proto.ClipboardText)
| ClipboardImage (ci : Proto.ClipboardImage)
| ClipboardFiles (cf : Proto.ClipboardFiles)
| FileTransferOffer (o : Proto.FileTransferOffer)
| FileTransferResponse (r : Proto.FileTransferResponse)
| FileTransferCancel (c : Proto.FileTransferCancel)
| ClipboardRequest (r : Proto.ClipboardRequest).

#[global] Instance ProtoEvent_eq_dec : EqDecision ProtoEvent.
Proof. solve_decision. Defined.

(** [ProtoEvent::hello]. *)
Definition hello (commit : list byte) : ProtoEvent := Hello PROTOCOL_MAGIC commit.

Definition event_type (e : ProtoEvent) : EventType.EventType :=
  match e with
  | Input (Pointer (Motion _ _ _)) => EventType.PointerMotion
  | Input (Pointer (Button _ _ _)) => EventType.PointerButton
  | Input (Pointer (Axis _ _ _)) => EventType.PointerAxis
  | Input (Pointer (AxisDiscrete120 _ _)) => EventType.PointerAxisValue120
  | Input (Keyboard (Key _ _ _)) => EventType.KeyboardKey
  | Input (Keyboard (Modifiers _ _ _ _)) => EventType.KeyboardModifiers
  | Ping => EventType.Ping
  | Pong _ => EventType.Pong
  | Enter _ => EventType.Enter
  | Leave _ => EventType.Leave
  | Ack _ => EventType.Ack
  | Hello _ _ => EventType.Hello
  | ClipboardText _ => EventType.ClipboardText
  | ClipboardImage _ => EventType.ClipboardImage
  | ClipboardFiles _ => EventType.ClipboardFiles
  | FileTransferOffer _ => EventType.FileTransferOffer
  | FileTransferResponse _ => EventType.FileTransferResponse
  | FileTransferCancel _ => EventType.FileTransferCancel
  | ClipboardRequest _ => EventType.ClipboardRequest
  end.
End ProtoEvent.
Abbreviation ProtoEvent := ProtoEvent.ProtoEvent.

(** [ProtocolError]. *)
Inductive ProtocolError : Type :=
| InvalidEventId (n : Z)
| InvalidPosition (n : Z)
| FrameTooShort
| EmptyInput.

#[export] Instance ProtocolError_eq_dec : EqDecision ProtocolError.
Proof. solve_decision. Defined.

(** * Well-formed values

    What the Rust types enforce ([[u8; 32]], [u64], UTF-8 strings), and the
    one bound they do not: a length travels as a [u32], so a field, or the
    block of all file entries, of 4 GiB or more is written with a truncated
    length. *)

Definition hash_wf (h : list byte) : Prop := length h = 32.
Definition bytes_wf (bs : list byte) : Prop := inU 32 (Z.of_nat (length bs)).
Definition string_wf (s : string) : Prop :=
  utf8_valid (as_bytes s) = true ∧ bytes_wf (as_bytes s).

Definition file_entry_wf (f : FileEntry) : Prop :=
  string_wf (fe_name f) ∧ inU 64 (fe_size f) ∧ string_wf (fe_mime f) ∧
  hash_wf (fe_sha256 f).

Definition clipboard_text_wf (ct : ClipboardText) : Prop :=
  hash_wf (ct_fingerprint ct) ∧ hash_wf (ct_sha256 ct) ∧ inU 64 (ct_size ct) ∧
  match ct_content_inline ct with Some bs => bytes_wf bs | None => True end.

Definition clipboard_image_wf (ci : ClipboardImage) : Prop :=
  hash_wf (ci_fingerprint ci) ∧ string_wf (ci_mime ci) ∧
  hash_wf (ci_sha256 ci) ∧ inU 64 (ci_size ci).

Definition offer_wf (o : FileTransferOffer) : Prop :=
  hash_wf (fo_sha256 o) ∧ string_wf (fo_name o) ∧ inU 64 (fo_size o) ∧
  string_wf (fo_mime o).

(** Bounds of an inline payload built by the one constructor that applies the
    inline policy. *)
Lemma from_content_inline fp sha content :
  is_inline (from_content fp sha content) = true ↔
  length content ≤ CLIPBOARD_TEXT_INLINE_LIMIT.
Proof. unfold is_inline, from_content. cbn. case_decide; naive_solver. Qed.
