(* ===== verification/Codec.v ===== *)
(** The wire codecs: lan-mouse-proto/src/codec.rs and the conversions of
    lan-mouse-proto/src/lib.rs.  [Fixed] is the 21-byte codec of the input and
    control events, [Var] the length-prefixed codec of the clipboard events,
    and the rest of the file the dispatchers between bytes and [ProtoEvent]. *)

From S2P Require Import Prelude InputEvent Proto.

Abbreviation res := (outcome ProtocolError).

(** * The fixed codec *)

Module Fixed.

(** [encode_fixed_body] writes at [buf[len..]] and moves [len]; a write past
    the end of the slice panics. *)
Definition write_at (bs : list byte) (st : list byte * nat) : res (list byte * nat) :=
  let '(buf, len) := st in
  if decide (len + length bs ≤ length buf)
  then Ok (take len buf ++ bs ++ drop (len + length bs) buf, len + length bs)
  else Panic.

Definition w_u8 (n : Z) : list byte * nat → res (list byte * nat) := write_at (be_bytes 1 n).
Definition w_u32 (n : Z) : list byte * nat → res (list byte * nat) := write_at (be_bytes 4 n).
Definition w_i32 (n : Z) : list byte * nat → res (list byte * nat) := write_at (be_bytes 4 n).
Definition w_f64 (x : f64) : list byte * nat → res (list byte * nat) := write_at (be_bytes 8 (f64_bits x)).

Definition encode_fixed_body (e : Event) (buf : list byte) : res (list byte * nat) :=
  match e with
  | Pointer (Motion time dx dy) =>
      st ← w_u32 time (buf, 0); st ← w_f64 dx st; w_f64 dy st
  | Pointer (Button time button state) =>
      st ← w_u32 time (buf, 0); st ← w_u32 button st; w_u32 state st
  | Pointer (Axis time axis value) =>
      st ← w_u32 time (buf, 0); st ← w_u8 axis st; w_f64 value st
  | Pointer (AxisDiscrete120 axis value) =>
      st ← w_u8 axis (buf, 0); w_i32 value st
  | Keyboard (Key time key state) =>
      st ← w_u32 time (buf, 0); st ← w_u32 key st; w_u8 state st
  | Keyboard (Modifiers depressed latched locked group) =>
      st ← w_u32 depressed (buf, 0); st ← w_u32 latched st; st ← w_u32 locked st; w_u32 group st
  end.

(** The [&mut &mut [u8]] cursor of [encode_u8] and [encode_u32]: the part of
    the buffer already written, the part left, and [amt]. *)
Record cursor : Type := mkCursor {
  cur_done : list byte;
  cur_rest : list byte;
  cur_amt : nat
}.

Definition encode_int (n : nat) (z : Z) (c : cursor) : res cursor :=
  if decide (length (cur_rest c) < n) then Panic
  else Ok (mkCursor (cur_done c ++ be_bytes n z) (drop n (cur_rest c)) (cur_amt c + n)).
Definition encode_u8 := encode_int 1.
Definition encode_u32 := encode_int 4.

Fixpoint encode_u8s (bs : list byte) (c : cursor) : res cursor :=
  match bs with
  | [] => Ok c
  | b :: bs' => encode_u8 (Z_of_byte b) c ≫= encode_u8s bs'
  end.

(** [From<ProtoEvent> for ([u8; MAX_EVENT_SIZE], usize)]. *)
Definition encode (event : ProtoEvent) : res (list byte * nat) :=
  let start := mkCursor [] (replicate MAX_EVENT_SIZE x00) 0 in
  c ← encode_u8 (EventType.to_u8 (ProtoEvent.event_type event)) start;
  let finish (c : cursor) := (cur_done c ++ cur_rest c, cur_amt c) in
  match event with
  | ProtoEvent.Input e =>
      '(rest, body_len) ← encode_fixed_body e (cur_rest c);
      Ok (cur_done c ++ rest, cur_amt c + body_len)
  | ProtoEvent.Ping => Ok (finish c)
  | ProtoEvent.Pong alive => finish <$> encode_u8 (if alive then 1 else 0)%Z c
  | ProtoEvent.Enter pos => finish <$> encode_u8 (Pos.to_u8 pos) c
  | ProtoEvent.Leave serial => finish <$> encode_u32 serial c
  | ProtoEvent.Ack serial => finish <$> encode_u32 serial c
  | ProtoEvent.Hello magic commit =>
      finish <$> (encode_u8s magic c ≫= encode_u8s commit)
  | ProtoEvent.ClipboardText _ | ProtoEvent.ClipboardImage _
  | ProtoEvent.ClipboardFiles _ | ProtoEvent.FileTransferOffer _
  | ProtoEvent.FileTransferResponse _ | ProtoEvent.FileTransferCancel _
  | ProtoEvent.ClipboardRequest _ => Panic
  end.

(** [decode_impl!]: [split_at] panics on a short slice. *)
Definition decode_int (n : nat) : reader ProtocolError Z := fun data =>
  if decide (length data < n) then Panic
  else Ok (be_val (take n data), drop n data).
Definition decode_u8 := decode_int 1.
Definition decode_u32 := decode_int 4.
Definition decode_i32 : reader ProtocolError Z :=
  n ← decode_int 4; mret (wrapS 32 n).
Definition decode_f64 : reader ProtocolError f64 :=
  n ← decode_int 8; mret (F64 n).

Fixpoint decode_u8s (n : nat) : reader ProtocolError (list byte) :=
  match n with
  | O => mret []
  | S k => b ← decode_u8; bs ← decode_u8s k; mret (byte_of_Z b :: bs)
  end.

Definition fail {A} (e : ProtocolError) : reader ProtocolError A := fun _ => Err e.

Definition decode_position : reader ProtocolError Pos.Position :=
  n ← decode_u8;
  match Pos.try_from n with Some p => mret p | None => fail (InvalidPosition n) end.

(** The match of [TryFrom<[u8; MAX_EVENT_SIZE]>], on the bytes after the type
    byte. *)
Definition decode_body (t : EventType.EventType) : reader ProtocolError ProtoEvent :=
  match t with
  | EventType.PointerMotion =>
      time ← decode_u32; dx ← decode_f64; dy ← decode_f64;
      mret (ProtoEvent.Input (Pointer (Motion time dx dy)))
  | EventType.PointerButton =>
      time ← decode_u32; button ← decode_u32; state ← decode_u32;
      mret (ProtoEvent.Input (Pointer (Button time button state)))
  | EventType.PointerAxis =>
      time ← decode_u32; axis ← decode_u8; value ← decode_f64;
      mret (ProtoEvent.Input (Pointer (Axis time axis value)))
  | EventType.PointerAxisValue120 =>
      axis ← decode_u8; value ← decode_i32;
      mret (ProtoEvent.Input (Pointer (AxisDiscrete120 axis value)))
  | EventType.KeyboardKey =>
      time ← decode_u32; key ← decode_u32; state ← decode_u8;
      mret (ProtoEvent.Input (Keyboard (Key time key state)))
  | EventType.KeyboardModifiers =>
      d ← decode_u32; la ← decode_u32; lo ← decode_u32; g ← decode_u32;
      mret (ProtoEvent.Input (Keyboard (Modifiers d la lo g)))
  | EventType.Ping => mret ProtoEvent.Ping
  | EventType.Pong => n ← decode_u8; mret (ProtoEvent.Pong (negb (n =? 0)%Z))
  | EventType.Enter => p ← decode_position; mret (ProtoEvent.Enter p)
  | EventType.Leave => n ← decode_u32; mret (ProtoEvent.Leave n)
  | EventType.Ack => n ← decode_u32; mret (ProtoEvent.Ack n)
  | EventType.Hello =>
      magic ← decode_u8s 8; commit ← decode_u8s 8;
      mret (ProtoEvent.Hello magic commit)
  | EventType.ClipboardText | EventType.ClipboardImage
  | EventType.ClipboardFiles | EventType.FileTransferOffer
  | EventType.FileTransferResponse | EventType.FileTransferCancel
  | EventType.ClipboardRequest => fun _ => Panic
  end.

(** [TryFrom<[u8; MAX_EVENT_SIZE]> for ProtoEvent]. *)
Definition decode (buf : list byte) : res ProtoEvent :=
  '(event_type, rest) ← decode_u8 buf;
  match EventType.try_from event_type with
  | None => Err (InvalidEventId event_type)
  | Some t => fst <$> decode_body t rest
  end.

(** ** What the encoder writes *)

(** The values of the fixed variants. *)
Definition wf (e : ProtoEvent) : Prop :=
  match e with
  | ProtoEvent.Input e => event_wf e
  | ProtoEvent.Ping | ProtoEvent.Pong _ | ProtoEvent.Enter _ => True
  | ProtoEvent.Leave n | ProtoEvent.Ack n => inU 32 n
  | ProtoEvent.Hello magic commit => length magic = 8 ∧ length commit = 8
  | _ => False
  end.

(** The body bytes of an event, as the documentation lays them out. *)
Definition body (e : ProtoEvent) : list byte :=
  match e with
  | ProtoEvent.Input (Pointer (Motion t dx dy)) =>
      be_bytes 4 t ++ be_bytes 8 (f64_bits dx) ++ be_bytes 8 (f64_bits dy)
  | ProtoEvent.Input (Pointer (Button t b s)) =>
      be_bytes 4 t ++ be_bytes 4 b ++ be_bytes 4 s
  | ProtoEvent.Input (Pointer (Axis t a v)) =>
      be_bytes 4 t ++ be_bytes 1 a ++ be_bytes 8 (f64_bits v)
  | ProtoEvent.Input (Pointer (AxisDiscrete120 a v)) =>
      be_bytes 1 a ++ be_bytes 4 v
  | ProtoEvent.Input (Keyboard (Key t k s)) =>
      be_bytes 4 t ++ be_bytes 4 k ++ be_bytes 1 s
  | ProtoEvent.Input (Keyboard (Modifiers d la lo g)) =>
      be_bytes 4 d ++ be_bytes 4 la ++ be_bytes 4 lo ++ be_bytes 4 g
  | ProtoEvent.Pong alive => be_bytes 1 (if alive then 1 else 0)
  | ProtoEvent.Enter pos => be_bytes 1 (Pos.to_u8 pos)
  | ProtoEvent.Leave n | ProtoEvent.Ack n => be_bytes 4 n
  | ProtoEvent.Hello magic commit => magic ++ commit
  | _ => []
  end.

Definition type_byte (e : ProtoEvent) : byte :=
  byte_of_Z (EventType.to_u8 (ProtoEvent.event_type e)).

(** Twenty bytes are enough for every body. *)
Lemma body_length e : wf e → length (body e) ≤ 20.
Proof.
  destruct e as [| | |[[]|[]]| | |m c| | | | | | |]; cbn; intros Hwf; try done;
    rewrite ?length_app, ?length_be_bytes; lia.
Qed.

Lemma be_bytes_1_byte b : be_bytes 1 (Z_of_byte b) = [b].
Proof. unfold be_bytes. cbn. by rewrite Z.shiftr_0_r, byte_of_Z_of_byte. Qed.

Lemma encode_u8s_spec bs c :
  length bs ≤ length (cur_rest c) →
  encode_u8s bs c =
    Ok (mkCursor (cur_done c ++ bs) (drop (length bs) (cur_rest c))
          (cur_amt c + length bs)).
Proof.
  revert c. induction bs as [|b bs IH]; intros [dn rs am] Hlen; cbn in *.
  - rewrite app_nil_r, drop_0, Nat.add_0_r. done.
  - unfold encode_u8, encode_int. cbn -[be_bytes].
    rewrite decide_False by lia. cbn -[be_bytes].
    rewrite IH by (cbn; rewrite length_drop; lia). cbn -[be_bytes].
    rewrite be_bytes_1_byte, <- app_assoc, drop_drop.
    f_equal. f_equal. lia.
Qed.

Lemma encode_spec e :
  wf e →
  encode e = Ok (type_byte e :: body e ++ replicate (20 - length (body e)) x00,
                 S (length (body e))).
Proof.
  destruct e as [| | |[[]|[]]| | |magic commit| | | | | | |]; try done; intros Hwf;
    try reflexivity.
  destruct Hwf as [Hm Hc]. unfold encode.
  change (encode_u8 _ _) with
    (Ok (E := ProtocolError) (mkCursor [byte_of_Z 11] (replicate 20 x00) 1)).
  cbn -[replicate encode_u8s].
  rewrite encode_u8s_spec by (cbn -[replicate]; rewrite length_replicate; lia).
  cbn -[replicate encode_u8s].
  rewrite encode_u8s_spec
    by (cbn -[replicate]; rewrite length_drop, length_replicate; lia).
  cbn -[replicate]. rewrite length_app, Hm, Hc. cbn -[replicate].
  reflexivity.
Qed.

(** ** Decoding what was written *)

Lemma decode_int_be n z tl :
  inU (8 * Z.of_nat n) z → decode_int n (be_bytes n z ++ tl) = Ok (z, tl).
Proof.
  intros Hz. unfold decode_int.
  rewrite decide_False by (rewrite length_app, length_be_bytes; lia).
  rewrite take_app_length', drop_app_length' by (by rewrite length_be_bytes).
  by rewrite be_val_be_bytes.
Qed.

Lemma decode_f64_be x tl :
  inU 64 (f64_bits x) → decode_f64 (be_bytes 8 (f64_bits x) ++ tl) = Ok (x, tl).
Proof.
  intros Hx. unfold decode_f64, mbind, reader_bind.
  rewrite (decode_int_be 8) by done. by destruct x.
Qed.

Lemma be_bytes_wrapU z : be_bytes 4 (wrapU 32 z) = be_bytes 4 z.
Proof. apply (be_bytes_mod 4 32). done. Qed.

Lemma decode_i32_be z tl :
  inS 32 z → decode_i32 (be_bytes 4 z ++ tl) = Ok (z, tl).
Proof.
  intros Hz. unfold decode_i32, mbind, reader_bind.
  rewrite <- be_bytes_wrapU, (decode_int_be 4) by by apply wrapU_in.
  cbn. by rewrite wrapS_wrapU.
Qed.

(** Reading one field off the front of a body. *)
Lemma decode_bind {A B} (r : reader ProtocolError A) (f : A → reader ProtocolError B)
    bs rest x :
  r bs = Ok (x, rest) → (r ≫= f) bs = f x rest.
Proof. unfold mbind, reader_bind. by intros ->. Qed.

Lemma decode_u8_cons b tl : decode_u8 (b :: tl) = Ok (Z_of_byte b, tl).
Proof.
  unfold decode_u8, decode_int. rewrite decide_False by (cbn; lia).
  replace (be_val (take 1 (b :: tl))) with (Z_of_byte b); [done|].
  cbn [take]. rewrite take_0. unfold be_val. cbn [length].
  change (2 ^ (8 * Z.of_nat 0))%Z with 1%Z. lia.
Qed.

Lemma decode_u8s_app bs tl :
  decode_u8s (length bs) (bs ++ tl) = Ok (bs, tl).
Proof.
  induction bs as [|b bs IH]; [done|].
  cbn [decode_u8s length app].
  rewrite (decode_bind _ _ _ _ _ (decode_u8_cons b _)).
  rewrite (decode_bind _ _ _ _ _ IH). cbn. by rewrite byte_of_Z_of_byte.
Qed.

Lemma decode_type_byte e rest :
  decode (type_byte e :: rest) = fst <$> decode_body (ProtoEvent.event_type e) rest.
Proof.
  unfold decode, type_byte.
  pose proof (EventType.to_u8_range (ProtoEvent.event_type e)) as Hr.
  rewrite decode_u8_cons. cbn [mbind outcome_bind].
  rewrite Z_of_byte_of_Z, Z.mod_small by lia.
  by rewrite EventType.try_from_to_u8.
Qed.

Ltac decode_field :=
  match goal with
  | |- context [(decode_u8 ≫= ?f) (be_bytes 1 ?z ++ ?tl)] =>
      rewrite (decode_bind decode_u8 f _ tl z) by (apply (decode_int_be 1); easy)
  | |- context [(decode_u32 ≫= ?f) (be_bytes 4 ?z ++ ?tl)] =>
      rewrite (decode_bind decode_u32 f _ tl z) by (apply (decode_int_be 4); easy)
  | |- context [(decode_i32 ≫= ?f) (be_bytes 4 ?z ++ ?tl)] =>
      rewrite (decode_bind decode_i32 f _ tl z) by (apply decode_i32_be; easy)
  | |- context [(decode_f64 ≫= ?f) (be_bytes 8 (f64_bits ?x) ++ ?tl)] =>
      rewrite (decode_bind decode_f64 f _ tl x) by (apply decode_f64_be; easy)
  end.

Lemma decode_body_body e tl :
  wf e → decode_body (ProtoEvent.event_type e) (body e ++ tl) = Ok (e, tl).
Proof.
  destruct e as [p| | |[[]|[]]| |[]|m c| | | | | | |]; cbn [wf event_wf pointer_wf keyboard_wf];
    intros Hwf; try done; destruct_and?; cbn [ProtoEvent.event_type decode_body body];
    rewrite <- ?app_assoc.
  all: try by (repeat decode_field).
  - destruct p; reflexivity.
  - erewrite decode_bind by (replace 8 with (length m) by done; apply decode_u8s_app).
    by erewrite decode_bind by (replace 8 with (length c) by done; apply decode_u8s_app).
Qed.

(** ** Bodies of arbitrary bytes *)

Lemma decode_int_ok n bs :
  n ≤ length bs → decode_int n bs = Ok (be_val (take n bs), drop n bs).
Proof. intros. unfold decode_int. by rewrite decide_False by lia. Qed.

(** Every reader of the fixed codec used on a slice of [k] bytes or more
    returns, with a value satisfying [P], and consumes exactly [k] bytes when
    it succeeds. *)
Definition sized {A} (P : A → Prop) (k : nat) (r : reader ProtocolError A) : Prop :=
  ∀ bs, k ≤ length bs →
    match r bs with
    | Ok (x, rest) => P x ∧ rest = drop k bs
    | Err _ => True
    | _ => False
    end.

Lemma sized_ret {A} (P : A → Prop) x : P x → sized P 0 (mret x).
Proof. intros HP bs _. split; [done|]. by rewrite drop_0. Qed.

Lemma sized_bind {A B} (P : A → Prop) (Q : B → Prop) k1 k2 r f :
  sized P k1 r → (∀ x, P x → sized Q k2 (f x)) → sized Q (k1 + k2) (r ≫= f).
Proof.
  intros Hr Hf bs Hlen. unfold mbind, reader_bind.
  specialize (Hr bs ltac:(lia)). destruct (r bs) as [[x rest]| | |]; try done.
  destruct Hr as [HP ->].
  specialize (Hf x HP (drop k1 bs) ltac:(rewrite length_drop; lia)).
  destruct (f x _) as [[y rest']| | |]; try done. by rewrite <- drop_drop.
Qed.

Lemma sized_eq {A} k k' (P : A → Prop) r : k = k' → sized P k r → sized P k' r.
Proof. by intros ->. Qed.

Lemma sized_int n : sized (inU (8 * Z.of_nat n)) n (decode_int n).
Proof.
  intros bs Hlen. rewrite decode_int_ok by done. split; [|done].
  pose proof (be_val_bound (take n bs)) as Hb.
  rewrite length_take, Nat.min_l in Hb by lia. exact Hb.
Qed.

Lemma sized_u8 : sized (inU 8) 1 decode_u8. Proof. apply (sized_int 1). Qed.
Lemma sized_u32 : sized (inU 32) 4 decode_u32. Proof. apply (sized_int 4). Qed.

Lemma sized_i32 : sized (inS 32) 4 decode_i32.
Proof.
  apply (sized_bind (inU 32) _ 4 0); [apply (sized_int 4)|].
  intros x _. apply sized_ret. unfold wrapS, inS.
  pose proof (Z.mod_pos_bound (x + 2 ^ (32 - 1)) (2 ^ 32) eq_refl).
  change (2 ^ 32)%Z with (2 * 2 ^ (32 - 1))%Z in *. lia.
Qed.

Lemma sized_f64 : sized (λ x, inU 64 (f64_bits x)) 8 decode_f64.
Proof.
  apply (sized_bind (inU 64) _ 8 0); [apply (sized_int 8)|].
  intros x ?. by apply sized_ret.
Qed.

Lemma sized_u8s n : sized (λ bs, length bs = n) n (decode_u8s n).
Proof.
  induction n as [|n IH]; [by apply sized_ret|].
  apply (sized_bind (inU 8) _ 1 n); [apply sized_u8|]. intros b _.
  apply (sized_eq (n + 0)); [lia|]. eapply sized_bind; [apply IH|].
  intros bs Hbs. apply sized_ret. cbn. congruence.
Qed.

Lemma sized_position : sized (λ _, True) 1 decode_position.
Proof.
  apply (sized_bind (inU 8) _ 1 0); [apply sized_u8|]. intros n _.
  destruct (Pos.try_from n); [by apply sized_ret|]. by intros bs _.
Qed.

Lemma decode_body_sized t :
  EventType.is_fixed t = true → ∃ k, k ≤ 20 ∧ sized wf k (decode_body t).
Proof.
  intros Ht. destruct t; try discriminate Ht; eexists.
  all: split; cycle 1;
    [cbn [decode_body];
     repeat first
       [ apply sized_ret
       | eapply sized_bind;
         [first [apply sized_u8 | apply sized_u32 | apply sized_i32
                | apply sized_f64 | apply sized_u8s | apply sized_position]
         | intros ? ?]]
    | cbn; lia].
  all: cbn; auto.
Qed.
End Fixed.

(** * The variable-length codec *)

(** [trait VarCodec]: an encoder that appends to a buffer and a decoder that
    advances a slice. *)
Class VarCodec (A : Type) := {
  encode_var_body : A → list byte → list byte;
  decode_var_body : reader ProtocolError A
}.

(** What an implementation of the trait promises to its callers: it only
    appends; decoding undoes encoding whatever follows; on arbitrary bytes the
    decoder returns without panicking, makes progress, and yields well-formed
    values only. *)
Class VarCodecLaws (A : Type) `{VarCodec A} := {
  var_wf : A → Prop;
  encode_appends : ∀ x buf, encode_var_body x buf = buf ++ encode_var_body x [];
  decode_encode : ∀ x tl, var_wf x →
    decode_var_body (encode_var_body x [] ++ tl) = Ok (x, tl);
  decode_framed : framed FrameTooShort var_wf 1 decode_var_body
}.

Module Var.

Definition write_hash (h buf : list byte) : list byte := buf ++ h.
Definition write_u64_be (n : Z) (buf : list byte) : list byte := buf ++ be_bytes 8 n.
Definition write_bool (b : bool) (buf : list byte) : list byte :=
  buf ++ be_bytes 1 (if b then 1 else 0).
(** [(len as u32).to_be_bytes()]: the cast truncates, as [be_bytes] does. *)
Definition write_bytes (bs buf : list byte) : list byte :=
  (buf ++ be_bytes 4 (Z.of_nat (length bs))) ++ bs.
Definition write_string (s : string) (buf : list byte) : list byte :=
  let bytes := as_bytes s in
  (buf ++ be_bytes 4 (Z.of_nat (length bytes))) ++ bytes.

Definition read_hash : reader ProtocolError (list byte) :=
  read_exactly FrameTooShort 32.
Definition read_u64_be : reader ProtocolError Z :=
  n ← read_exactly FrameTooShort 8; mret (be_val n).
Definition read_bool : reader ProtocolError bool :=
  b ← read_exactly FrameTooShort 1; mret (negb (be_val b =? 0)%Z).
Definition read_bytes : reader ProtocolError (list byte) :=
  len_bytes ← read_exactly FrameTooShort 4;
  let len := Z.to_nat (be_val len_bytes) in
  read_exactly FrameTooShort len.
Definition lift {A} (m : res A) : reader ProtocolError A := fun bs => (., bs) <$> m.
Definition read_string : reader ProtocolError string :=
  len_bytes ← read_exactly FrameTooShort 4;
  let len := Z.to_nat (be_val len_bytes) in
  s_bytes ← read_exactly FrameTooShort len;
  lift (ok_or (from_utf8 s_bytes) FrameTooShort).

Section items.
Context {A : Type} `{VarCodec A}.

(** The length prefix is written as a placeholder and patched afterwards. *)
Definition write_vec_var (items : list A) (buf : list byte) : list byte :=
  let len_pos := length buf in
  let buf := buf ++ replicate 4 x00 in
  let body_start := length buf in
  let buf := foldl (λ buf item, encode_var_body item buf) buf items in
  let body_len := Z.of_nat (length buf - body_start) in
  take len_pos buf ++ be_bytes 4 body_len ++ drop (len_pos + 4) buf.

(** [while !body.is_empty()]: at most [length body] turns, since an item takes
    at least one byte. *)
Fixpoint read_items (fuel : nat) (body : list byte) : res (list A) :=
  match body with
  | [] => Ok []
  | _ =>
      match fuel with
      | O => Diverge
      | S fuel =>
          '(item, body) ← decode_var_body body;
          items ← read_items fuel body;
          Ok (item :: items)
      end
  end.

Definition read_vec_var : reader ProtocolError (list A) :=
  len_bytes ← read_exactly FrameTooShort 4;
  let total_len := Z.to_nat (be_val len_bytes) in
  body ← read_exactly FrameTooShort total_len;
  lift (read_items (length body) body).
End items.

#[global] Instance text_codec : VarCodec ClipboardText := {
  encode_var_body ct buf :=
    let buf := write_hash (ct_fingerprint ct) buf in
    let buf := write_hash (ct_sha256 ct) buf in
    let buf := write_u64_be (ct_size ct) buf in
    match ct_content_inline ct with
    | Some bytes => write_bytes bytes (buf ++ [x01])
    | None => buf ++ [x00]
    end;
  decode_var_body :=
    fingerprint ← read_hash;
    sha256 ← read_hash;
    size ← read_u64_be;
    has_inline ← read_bool;
    content_inline ← (if has_inline : bool
                      then bs ← read_bytes; mret (Some bs) else mret None);
    mret (mkClipboardText fingerprint sha256 size content_inline)
}.

#[global] Instance image_codec : VarCodec ClipboardImage := {
  encode_var_body ci buf :=
    let buf := write_hash (ci_fingerprint ci) buf in
    let buf := write_string (ci_mime ci) buf in
    let buf := write_hash (ci_sha256 ci) buf in
    write_u64_be (ci_size ci) buf;
  decode_var_body :=
    fingerprint ← read_hash;
    mime ← read_string;
    sha256 ← read_hash;
    size ← read_u64_be;
    mret (mkClipboardImage fingerprint mime sha256 size)
}.

#[global] Instance entry_codec : VarCodec FileEntry := {
  encode_var_body fe buf :=
    let buf := write_string (fe_name fe) buf in
    let buf := write_u64_be (fe_size fe) buf in
    let buf := write_string (fe_mime fe) buf in
    write_hash (fe_sha256 fe) buf;
  decode_var_body :=
    name ← read_string;
    size ← read_u64_be;
    mime ← read_string;
    sha256 ← read_hash;
    mret (mkFileEntry name size mime sha256)
}.

#[global] Instance files_codec : VarCodec ClipboardFiles := {
  encode_var_body cf buf :=
    let buf := write_hash (cf_fingerprint cf) buf in
    write_vec_var (cf_entries cf) buf;
  decode_var_body :=
    fingerprint ← read_hash;
    entries ← read_vec_var;
    mret (mkClipboardFiles fingerprint entries)
}.

#[global] Instance offer_codec : VarCodec FileTransferOffer := {
  encode_var_body o buf :=
    let buf := write_hash (fo_sha256 o) buf in
    let buf := write_string (fo_name o) buf in
    let buf := write_u64_be (fo_size o) buf in
    write_string (fo_mime o) buf;
  decode_var_body :=
    sha256 ← read_hash;
    name ← read_string;
    size ← read_u64_be;
    mime ← read_string;
    mret (mkFileTransferOffer sha256 name size mime)
}.

#[global] Instance response_codec : VarCodec FileTransferResponse := {
  encode_var_body r buf := write_bool (fr_accept r) (write_hash (fr_sha256 r) buf);
  decode_var_body :=
    sha256 ← read_hash;
    accept ← read_bool;
    mret (mkFileTransferResponse sha256 accept)
}.

#[global] Instance cancel_codec : VarCodec FileTransferCancel := {
  encode_var_body c buf := write_hash (fc_sha256 c) buf;
  decode_var_body := sha256 ← read_hash; mret (mkFileTransferCancel sha256)
}.

#[global] Instance request_codec : VarCodec ClipboardRequest := {
  encode_var_body r buf := write_hash (cr_sha256 r) buf;
  decode_var_body := sha256 ← read_hash; mret (mkClipboardRequest sha256)
}.

(** ** Laws of the fields *)

Lemma framed_lift {A} (P : A → Prop) (m : res A) :
  match m with Ok x => P x | Err _ => True | _ => False end →
  framed FrameTooShort P 0 (lift m).
Proof.
  destruct m as [x|e| |]; try done. apply (framed_ret FrameTooShort P x).
Qed.

Lemma framed_hash : framed FrameTooShort hash_wf 32 read_hash.
Proof. apply framed_read_exactly. Qed.

Lemma framed_u64 : framed FrameTooShort (inU 64) 8 read_u64_be.
Proof.
  apply (framed_bind _ (λ bs, length bs = 8) _ 8 0); [apply framed_read_exactly|].
  intros bs Hbs. apply framed_ret. pose proof (be_val_bound bs). by rewrite Hbs in *.
Qed.

Lemma framed_bool : framed FrameTooShort (λ _, True) 1 read_bool.
Proof.
  apply (framed_bind _ (λ bs, length bs = 1) _ 1 0); [apply framed_read_exactly|].
  intros bs Hbs. by apply framed_ret.
Qed.

(** The length read is a [u32], so a field read is a field that can be
    written. *)
Lemma framed_lp :
  framed FrameTooShort bytes_wf 4
    (len_bytes ← read_exactly FrameTooShort 4;
     read_exactly FrameTooShort (Z.to_nat (be_val len_bytes))).
Proof.
  apply (framed_bind _ (λ bs, length bs = 4) _ 4 0); [apply framed_read_exactly|].
  intros l Hl. eapply framed_weaken; [| |apply framed_read_exactly]; [|lia].
  intros bs Hbs. cbn in Hbs. pose proof (be_val_bound l) as Hb. rewrite Hl in Hb.
  unfold bytes_wf, inU. rewrite Hbs, Z2Nat.id by lia. exact Hb.
Qed.

Lemma framed_bytes : framed FrameTooShort bytes_wf 4 read_bytes.
Proof. apply framed_lp. Qed.

Lemma reader_bind_assoc {A B C} (r : reader ProtocolError A)
    (f : A → reader ProtocolError B) (g : B → reader ProtocolError C) bs :
  (r ≫= (λ x, f x ≫= g)) bs = ((r ≫= f) ≫= g) bs.
Proof. unfold mbind, reader_bind. by destruct (r bs) as [[]| | |]. Qed.

Lemma framed_ext {A} (P : A → Prop) k (r r' : reader ProtocolError A) :
  (∀ bs, r bs = r' bs) → framed FrameTooShort P k r → framed FrameTooShort P k r'.
Proof.
  intros Heq Hr bs. rewrite <- Heq. specialize (Hr bs).
  destruct (r bs) as [[x rest]| | |]; try done.
  destruct Hr as (? & c & ? & ? & Hloc & Hpre). split; [done|]. exists c.
  split_and!; [done|done| |]; intros; rewrite <- Heq; eauto.
Qed.

Lemma framed_string : framed FrameTooShort string_wf 4 read_string.
Proof.
  eapply framed_ext; [intros bs; symmetry; apply reader_bind_assoc|].
  apply (framed_bind _ bytes_wf _ 4 0); [apply framed_lp|].
  intros bs Hbs. apply framed_lift. unfold from_utf8.
  destruct (utf8_valid bs) eqn:E; cbn; [|done].
  unfold string_wf. by rewrite as_bytes_of_bytes.
Qed.

Lemma read_hash_app h tl : hash_wf h → read_hash (h ++ tl) = Ok (h, tl).
Proof. apply read_exactly_app. Qed.

Lemma read_u64_app n tl : inU 64 n → read_u64_be (be_bytes 8 n ++ tl) = Ok (n, tl).
Proof.
  intros Hn. unfold read_u64_be, mbind, reader_bind.
  rewrite read_exactly_app by apply length_be_bytes. by rewrite be_val_be_bytes.
Qed.

Lemma read_bool_app (b : bool) tl :
  read_bool (be_bytes 1 (if b then 1 else 0) ++ tl) = Ok (b, tl).
Proof. by destruct b. Qed.

Lemma read_true tl : read_bool (x01 :: tl) = Ok (true, tl).
Proof. done. Qed.
Lemma read_false tl : read_bool (x00 :: tl) = Ok (false, tl).
Proof. done. Qed.

Lemma read_lp_app {B} (f : list byte → reader ProtocolError B) bs tl :
  bytes_wf bs →
  (len_bytes ← read_exactly FrameTooShort 4;
   read_exactly FrameTooShort (Z.to_nat (be_val len_bytes)) ≫= f)
    (be_bytes 4 (Z.of_nat (length bs)) ++ bs ++ tl) = f bs tl.
Proof.
  intros Hbs. unfold mbind, reader_bind.
  rewrite read_exactly_app by apply length_be_bytes.
  rewrite be_val_be_bytes by done. rewrite Nat2Z.id.
  by rewrite read_exactly_app by done.
Qed.

Lemma read_bytes_app bs tl :
  bytes_wf bs →
  read_bytes (be_bytes 4 (Z.of_nat (length bs)) ++ bs ++ tl) = Ok (bs, tl).
Proof.
  intros Hbs. unfold read_bytes, mbind, reader_bind.
  rewrite read_exactly_app by apply length_be_bytes.
  rewrite be_val_be_bytes by done. rewrite Nat2Z.id.
  by rewrite read_exactly_app by done.
Qed.

Lemma read_string_app s tl :
  string_wf s →
  read_string (be_bytes 4 (Z.of_nat (length (as_bytes s))) ++ as_bytes s ++ tl) = Ok (s, tl).
Proof.
  intros [Hu Hl]. unfold read_string. rewrite read_lp_app by done.
  unfold lift, from_utf8. rewrite Hu. cbn. by rewrite of_bytes_as_bytes.
Qed.

Create HintDb framed.
Create Rewrite HintDb codec.
#[export] Hint Resolve framed_hash framed_u64 framed_bool framed_bytes
  framed_string : framed.
#[export] Hint Rewrite @read_hash_app @read_u64_app @read_bool_app read_true read_false
  @read_bytes_app @read_string_app using done : codec.

(** ** Laws of the payloads *)

Ltac framed_steps :=
  repeat first
    [ apply framed_ret
    | eapply framed_bind; [solve [eauto with framed]|intros ? ?] ].
Ltac solve_framed P :=
  eapply (framed_weaken _ P P _ 1);
    [done|shelve|cbn [decode_var_body]; framed_steps]; unfold P; cbn; auto.
Ltac unfold_encoder :=
  cbn; unfold write_hash, write_u64_be, write_bool, write_bytes, write_string;
  rewrite <- ?app_assoc.
Ltac solve_appends := by unfold_encoder.
Ltac solve_roundtrip :=
  unfold_encoder; unfold mbind, reader_bind;
  repeat (autorewrite with codec; cbn); done.

#[global] Program Instance entry_laws : VarCodecLaws FileEntry := {
  var_wf := file_entry_wf
}.
Next Obligation. intros [] buf. solve_appends. Qed.
Next Obligation.
  intros [] tl (? & ? & ? & ?). cbn in *. solve_roundtrip.
Qed.
Next Obligation.
  unshelve solve_framed file_entry_wf. cbn. lia.
Qed.

#[global] Program Instance text_laws : VarCodecLaws ClipboardText := {
  var_wf := clipboard_text_wf
}.
Next Obligation. intros [?? ? []] buf; solve_appends. Qed.
Next Obligation.
  intros [fp sha size inline] tl (? & ? & ? & ?). cbn in *.
  destruct inline as [bs|]; solve_roundtrip.
Qed.
Next Obligation.
  apply (framed_weaken _ clipboard_text_wf _ (32 + (32 + (8 + (1 + (0 + 0))))) 1);
    [done|lia|cbn [decode_var_body text_codec]; framed_steps].
  eapply (framed_bind _ (λ o, match o with Some bs => bytes_wf bs | None => True end)).
  - destruct x2.
    + eapply (framed_weaken _ (λ o, match o with Some bs => bytes_wf bs | None => True end)
                _ (4 + 0)); [done|lia|].
      eapply framed_bind; [apply framed_bytes|]. intros bs Hbs. by apply framed_ret.
    + by apply framed_ret.
  - intros o Ho. by apply framed_ret.
Qed.

#[global] Program Instance image_laws : VarCodecLaws ClipboardImage := {
  var_wf := clipboard_image_wf
}.
Next Obligation. intros [] buf. solve_appends. Qed.
Next Obligation. intros [] tl (? & ? & ? & ?). cbn in *. solve_roundtrip. Qed.
Next Obligation. unshelve solve_framed clipboard_image_wf. cbn. lia. Qed.

#[global] Program Instance offer_laws : VarCodecLaws FileTransferOffer := {
  var_wf := offer_wf
}.
Next Obligation. intros [] buf. solve_appends. Qed.
Next Obligation. intros [] tl (? & ? & ? & ?). cbn in *. solve_roundtrip. Qed.
Next Obligation. unshelve solve_framed offer_wf. cbn. lia. Qed.

Definition response_wf (r : FileTransferResponse) : Prop := hash_wf (fr_sha256 r).
Definition cancel_wf (c : FileTransferCancel) : Prop := hash_wf (fc_sha256 c).
Definition request_wf (r : ClipboardRequest) : Prop := hash_wf (cr_sha256 r).

#[global] Program Instance response_laws : VarCodecLaws FileTransferResponse := {
  var_wf := response_wf
}.
Next Obligation. intros [] buf. solve_appends. Qed.
Next Obligation. intros [] tl ?. cbn in *. solve_roundtrip. Qed.
Next Obligation. unshelve solve_framed response_wf. cbn. lia. Qed.

#[global] Program Instance cancel_laws : VarCodecLaws FileTransferCancel := {
  var_wf := cancel_wf
}.
Next Obligation. done. Qed.
Next Obligation. intros [] tl ?. cbn in *. solve_roundtrip. Qed.
Next Obligation. unshelve solve_framed cancel_wf. cbn. lia. Qed.

#[global] Program Instance request_laws : VarCodecLaws ClipboardRequest := {
  var_wf := request_wf
}.
Next Obligation. done. Qed.
Next Obligation. intros [] tl ?. cbn in *. solve_roundtrip. Qed.
Next Obligation. unshelve solve_framed request_wf. cbn. lia. Qed.

(** ** Sequences of items *)

Section items_laws.
Context {A : Type} `{VarCodecLaws A}.

Definition enc_items (items : list A) : list byte :=
  concat ((λ x, encode_var_body x []) <$> items).

Lemma foldl_encode items buf :
  foldl (λ buf item, encode_var_body item buf) buf items = buf ++ enc_items items.
Proof.
  revert buf. induction items as [|x items IH]; intros buf; cbn.
  - by rewrite app_nil_r.
  - by rewrite IH, (encode_appends x buf), <- app_assoc.
Qed.

Lemma write_vec_var_spec items buf :
  write_vec_var items buf =
    buf ++ be_bytes 4 (Z.of_nat (length (enc_items items))) ++ enc_items items.
Proof.
  unfold write_vec_var. rewrite foldl_encode, <- app_assoc.
  rewrite take_app_length. f_equal.
  rewrite !length_app, length_replicate.
  replace (length buf + (4 + length (enc_items items)) - (length buf + 4))
    with (length (enc_items items)) by lia. f_equal.
  rewrite drop_app. replace (length buf + 4 - length buf) with 4 by lia.
  rewrite drop_ge by lia. done.
Qed.

Lemma encode_nonempty (x : A) : var_wf x → 1 ≤ length (encode_var_body x []).
Proof.
  intros Hx. pose proof (decode_framed (encode_var_body x [])) as Hf.
  pose proof (decode_encode x [] Hx) as He. rewrite app_nil_r in He. rewrite He in Hf.
  destruct Hf as (_ & c & Hc & Hk & _). rewrite app_nil_r in Hc. by rewrite Hc.
Qed.

Lemma read_items_enc items fuel :
  Forall var_wf items → length (enc_items items) ≤ fuel →
  read_items fuel (enc_items items) = Ok items.
Proof.
  intros Hwf. revert fuel. induction Hwf as [|x items Hx Hwf IH]; intros fuel Hf.
  { by destruct fuel. }
  change (enc_items (x :: items)) with (encode_var_body x [] ++ enc_items items) in *.
  pose proof (encode_nonempty x Hx) as Hne. rewrite length_app in Hf.
  destruct fuel as [|fuel]; [lia|].
  pose proof (decode_encode x (enc_items items) Hx) as Hd.
  destruct (encode_var_body x []) as [|b bs]; [cbn in Hne; lia|].
  cbn [app read_items]. cbn [app] in Hd. rewrite Hd. cbn.
  rewrite IH; [done|]. cbn in Hf. lia.
Qed.

(** Enough fuel: the loop returns, and its items are well-formed. *)
Lemma read_items_returns fuel body :
  length body ≤ fuel →
  match read_items fuel body with
  | Ok items => Forall var_wf items
  | Err _ => True
  | _ => False
  end.
Proof.
  revert body. induction fuel as [|fuel IH]; intros body Hf.
  { destruct body; [constructor|cbn in Hf; lia]. }
  destruct body as [|b body]; [constructor|]. cbn [read_items].
  pose proof (decode_framed (b :: body)) as Hd.
  destruct (decode_var_body (b :: body)) as [[x rest]| | |]; try done.
  destruct Hd as (Hx & c & Hc & Hk & _). cbn.
  assert (length rest ≤ fuel) as Hl.
  { apply (f_equal length) in Hc. rewrite length_app in Hc. cbn in *. lia. }
  specialize (IH rest Hl). destruct (read_items fuel rest); try done. by constructor.
Qed.

(** A decoder that accepts only what the encoder writes: its blocks too. *)
Definition canonical : Prop :=
  ∀ bs (x : A) rest, decode_var_body bs = Ok (x, rest) →
    bs = encode_var_body x [] ++ rest.

Lemma read_items_canonical fuel body items :
  canonical → read_items fuel body = Ok items → body = enc_items items.
Proof.
  intros Hc. revert body items. induction fuel as [|fuel IH]; intros body items Hr.
  { destruct body; [|done]. by injection Hr as <-. }
  destruct body as [|b body]; [by injection Hr as <-|]. cbn [read_items] in Hr.
  destruct (decode_var_body (b :: body)) as [[x rest]| | |] eqn:E; try done. cbn in Hr.
  destruct (read_items fuel rest) as [xs| | |] eqn:E2; try done. cbn in Hr.
  injection Hr as <-. rewrite (Hc _ _ _ E). by rewrite (IH _ _ E2).
Qed.

Definition items_wf (items : list A) : Prop :=
  Forall var_wf items ∧ bytes_wf (enc_items items).

Lemma framed_vec : canonical → framed FrameTooShort items_wf 4 read_vec_var.
Proof.
  intros Hc. unfold read_vec_var.
  eapply framed_ext; [intros bs; symmetry; apply reader_bind_assoc|].
  apply (framed_bind _ bytes_wf _ 4 0); [apply framed_lp|]. intros body Hb.
  apply framed_lift.
  pose proof (read_items_returns (length body) body (Nat.le_refl _)) as Hr.
  destruct (read_items _ body) as [items| | |] eqn:E; try done.
  split; [done|]. by rewrite <- (read_items_canonical _ _ _ Hc E).
Qed.

Lemma read_vec_app items tl :
  items_wf items →
  read_vec_var
    (be_bytes 4 (Z.of_nat (length (enc_items items))) ++ enc_items items ++ tl)
  = Ok (items, tl).
Proof.
  intros [Hwf Hb]. unfold read_vec_var. rewrite read_lp_app by done.
  unfold lift. by rewrite read_items_enc by (done || lia).
Qed.
End items_laws.

(** ** File entries are canonical *)

Lemma reader_bind_inv {A B} (r : reader ProtocolError A) (f : A → reader ProtocolError B)
    bs y rest :
  (r ≫= f) bs = Ok (y, rest) → ∃ x mid, r bs = Ok (x, mid) ∧ f x mid = Ok (y, rest).
Proof.
  unfold mbind, reader_bind. destruct (r bs) as [[x mid]| | |]; naive_solver.
Qed.

Lemma read_exactly_inv n bs x rest :
  read_exactly FrameTooShort n bs = Ok (x, rest) → bs = x ++ rest ∧ length x = n.
Proof.
  unfold read_exactly. case_decide; [done|]. intros [= <- <-].
  rewrite take_drop, length_take. split; [done|lia].
Qed.

Lemma read_u64_inv bs n rest :
  read_u64_be bs = Ok (n, rest) → bs = be_bytes 8 n ++ rest.
Proof.
  intros (x & mid & [-> Hx]%read_exactly_inv & [= <- <-])%reader_bind_inv.
  by rewrite <- Hx, be_bytes_be_val.
Qed.

Lemma read_string_inv bs s rest :
  read_string bs = Ok (s, rest) →
  bs = be_bytes 4 (Z.of_nat (length (as_bytes s))) ++ as_bytes s ++ rest.
Proof.
  intros (l & mid & [-> Hl]%read_exactly_inv & Hs)%reader_bind_inv.
  apply reader_bind_inv in Hs as (x & mid' & [-> Hx]%read_exactly_inv & Hs).
  unfold lift, from_utf8 in Hs. destruct (utf8_valid x); [|done]. cbn in Hs.
  injection Hs as <- <-. rewrite as_bytes_of_bytes, Hx.
  pose proof (be_val_bound l). rewrite Z2Nat.id by lia. by rewrite <- Hl, be_bytes_be_val.
Qed.

Lemma entry_canonical : canonical (A := FileEntry).
Proof.
  intros bs x rest Hd. cbn in Hd.
  apply reader_bind_inv in Hd as (name & m1 & ->%read_string_inv & Hd).
  apply reader_bind_inv in Hd as (size & m2 & ->%read_u64_inv & Hd).
  apply reader_bind_inv in Hd as (mime & m3 & ->%read_string_inv & Hd).
  apply reader_bind_inv in Hd as (sha & m4 & [-> Hs]%read_exactly_inv & [= <- <-]).
  by unfold_encoder.
Qed.

Definition files_wf (cf : ClipboardFiles) : Prop :=
  hash_wf (cf_fingerprint cf) ∧ items_wf (cf_entries cf).

#[global] Program Instance files_laws : VarCodecLaws ClipboardFiles := {
  var_wf := files_wf
}.
Next Obligation.
  intros [fp entries] buf. cbn [encode_var_body files_codec].
  rewrite !write_vec_var_spec. unfold write_hash. by rewrite <- !app_assoc.
Qed.
Next Obligation.
  intros [fp entries] tl [Hfp He]. cbn [encode_var_body decode_var_body files_codec].
  cbn in Hfp, He. rewrite write_vec_var_spec.
  unfold write_hash. rewrite <- !app_assoc. cbn [app].
  unfold mbind, reader_bind. rewrite read_hash_app by done.
  by rewrite read_vec_app by done.
Qed.
Next Obligation.
  apply (framed_weaken _ files_wf _ (32 + (4 + 0)) 1); [done|lia|].
  cbn [decode_var_body files_codec].
  eapply framed_bind; [apply framed_hash|]. intros fp Hfp.
  eapply framed_bind; [apply framed_vec, entry_canonical|]. intros es Hes.
  by apply framed_ret.
Qed.
End Var.

(** * The dispatchers *)

(** [From<ProtoEvent> for Vec<u8>]. *)
Definition encode_vec (event : ProtoEvent) : res (list byte) :=
  let buf := be_bytes 1 (EventType.to_u8 (ProtoEvent.event_type event)) in
  match event with
  | ProtoEvent.ClipboardText ct => Ok (encode_var_body ct buf)
  | ProtoEvent.ClipboardImage ci => Ok (encode_var_body ci buf)
  | ProtoEvent.ClipboardFiles cf => Ok (encode_var_body cf buf)
  | ProtoEvent.FileTransferOffer o => Ok (encode_var_body o buf)
  | ProtoEvent.FileTransferResponse r => Ok (encode_var_body r buf)
  | ProtoEvent.FileTransferCancel c => Ok (encode_var_body c buf)
  | ProtoEvent.ClipboardRequest r => Ok (encode_var_body r buf)
  | fixed =>
      '(arr, len) ← Fixed.encode fixed;
      Ok (buf ++ drop 1 (take len arr))
  end.

(** The var branch of [TryFrom<&[u8]>], on the bytes after the type byte. *)
Definition decode_var (t : EventType.EventType) : reader ProtocolError ProtoEvent :=
  match t with
  | EventType.ClipboardText =>
      x ← decode_var_body; mret (ProtoEvent.ClipboardText x)
  | EventType.ClipboardImage =>
      x ← decode_var_body; mret (ProtoEvent.ClipboardImage x)
  | EventType.ClipboardFiles =>
      x ← decode_var_body; mret (ProtoEvent.ClipboardFiles x)
  | EventType.FileTransferOffer =>
      x ← decode_var_body; mret (ProtoEvent.FileTransferOffer x)
  | EventType.FileTransferResponse =>
      x ← decode_var_body; mret (ProtoEvent.FileTransferResponse x)
  | EventType.FileTransferCancel =>
      x ← decode_var_body; mret (ProtoEvent.FileTransferCancel x)
  | EventType.ClipboardRequest =>
      x ← decode_var_body; mret (ProtoEvent.ClipboardRequest x)
  | _ => fun _ => Panic
  end.

(** [TryFrom<&[u8]> for ProtoEvent]. *)
Definition decode_slice (buf : list byte) : res ProtoEvent :=
  match buf with
  | [] => Err EmptyInput
  | b0 :: body =>
      match EventType.try_from (Z_of_byte b0) with
      | None => Err (InvalidEventId (Z_of_byte b0))
      | Some event_type =>
          if EventType.is_fixed event_type then
            let copy_len := length body `min` (MAX_EVENT_SIZE - 1) in
            let tmp := b0 :: take copy_len body ++
                       replicate (MAX_EVENT_SIZE - 1 - copy_len) x00 in
            Fixed.decode tmp
          else
            '(result, body_slice) ← decode_var event_type body;
            match body_slice with [] => Ok result | _ => Err FrameTooShort end
      end
  end.

(** The values of [ProtoEvent]. *)
Definition event_wf (e : ProtoEvent) : Prop :=
  match e with
  | ProtoEvent.ClipboardText x => var_wf x
  | ProtoEvent.ClipboardImage x => var_wf x
  | ProtoEvent.ClipboardFiles x => var_wf x
  | ProtoEvent.FileTransferOffer x => var_wf x
  | ProtoEvent.FileTransferResponse x => var_wf x
  | ProtoEvent.FileTransferCancel x => var_wf x
  | ProtoEvent.ClipboardRequest x => var_wf x
  | e => Fixed.wf e
  end.

Definition is_fixed_event (e : ProtoEvent) : bool :=
  EventType.is_fixed (ProtoEvent.event_type e).
