(* ===== verification/Wire.v ===== *)
(** The contract of the wire codecs (lan-mouse-proto): round trips, totality
    on arbitrary bytes, strictness of the variable-length frames, and the
    inputs on which the fixed-size decoder panics. *)

From S2P Require Import Prelude InputEvent Proto Codec.

(** ** Helper lemmas *)

Lemma encode_vec_fixed e :
  Fixed.wf e → encode_vec e = Ok (Fixed.type_byte e :: Fixed.body e).
Proof.
  intros Hwf.
  assert (encode_vec e =
    ('(arr, len) ← Fixed.encode e;
     Ok (be_bytes 1 (EventType.to_u8 (ProtoEvent.event_type e)) ++ drop 1 (take len arr))))
    as -> by by destruct e.
  rewrite (Fixed.encode_spec _ Hwf). cbn.
  rewrite take_app_le by lia. rewrite take_ge by lia.
  unfold be_bytes. cbn. by rewrite Z.shiftr_0_r.
Qed.

Lemma fixed_wf_is_fixed e : Fixed.wf e → is_fixed_event e = true.
Proof. by destruct e as [| | |[[]|[]]| | | | | | | | | |]. Qed.

Lemma decode_fixed_app e tl :
  Fixed.wf e → Fixed.decode (Fixed.type_byte e :: Fixed.body e ++ tl) = Ok e.
Proof.
  intros Hwf. rewrite Fixed.decode_type_byte, Fixed.decode_body_body by done. done.
Qed.

Lemma type_byte_Z e :
  Z_of_byte (Fixed.type_byte e) = EventType.to_u8 (ProtoEvent.event_type e).
Proof.
  unfold Fixed.type_byte. rewrite Z_of_byte_of_Z.
  pose proof (EventType.to_u8_range (ProtoEvent.event_type e)).
  apply Z.mod_small. lia.
Qed.

(** [decode_slice] on a slice whose first byte is the type of [e]. *)
Lemma decode_slice_type e body :
  decode_slice (Fixed.type_byte e :: body) =
    if is_fixed_event e then
      Fixed.decode (Fixed.type_byte e ::
        take (length body `min` 20) body ++ replicate (20 - length body `min` 20) x00)
    else
      '(result, body_slice) ← decode_var (ProtoEvent.event_type e) body;
      match body_slice with [] => Ok result | _ => Err FrameTooShort end.
Proof.
  unfold decode_slice. by rewrite type_byte_Z, EventType.try_from_to_u8.
Qed.

Lemma decode_slice_fixed e tl :
  Fixed.wf e → decode_slice (Fixed.type_byte e :: Fixed.body e ++ tl) = Ok e.
Proof.
  intros Hwf. rewrite decode_slice_type, fixed_wf_is_fixed by done.
  pose proof (Fixed.body_length e Hwf) as Hl.
  rewrite length_app, take_app_ge, <- app_assoc by lia. by apply decode_fixed_app.
Qed.

(** The body of a var event, and the reader that parses it. *)
Definition var_body (e : ProtoEvent) : list byte :=
  match e with
  | ProtoEvent.ClipboardText x => encode_var_body x []
  | ProtoEvent.ClipboardImage x => encode_var_body x []
  | ProtoEvent.ClipboardFiles x => encode_var_body x []
  | ProtoEvent.FileTransferOffer x => encode_var_body x []
  | ProtoEvent.FileTransferResponse x => encode_var_body x []
  | ProtoEvent.FileTransferCancel x => encode_var_body x []
  | ProtoEvent.ClipboardRequest x => encode_var_body x []
  | _ => []
  end.

Lemma be_bytes_type e :
  be_bytes 1 (EventType.to_u8 (ProtoEvent.event_type e)) = [Fixed.type_byte e].
Proof. unfold be_bytes. cbn. by rewrite Z.shiftr_0_r. Qed.

Lemma encode_vec_var e :
  is_fixed_event e = false → encode_vec e = Ok (Fixed.type_byte e :: var_body e).
Proof.
  destruct e as [| | |[[]|[]]| | | | | | | | | |]; try done; intros _;
    unfold encode_vec; rewrite be_bytes_type, encode_appends; done.
Qed.

Lemma decode_var_framed t :
  EventType.is_fixed t = false → framed FrameTooShort event_wf (1 + 0) (decode_var t).
Proof.
  destruct t; try done; intros _; cbn [decode_var];
    (eapply framed_bind; [apply decode_framed|intros x Hx; by apply framed_ret]).
Qed.

Lemma decode_var_body_app e tl :
  event_wf e → is_fixed_event e = false →
  decode_var (ProtoEvent.event_type e) (var_body e ++ tl) = Ok (e, tl).
Proof.
  destruct e as [| | |[[]|[]]| | | | | | | | | |]; try done; intros Hwf _;
    cbn [decode_var ProtoEvent.event_type var_body]; unfold mbind, reader_bind;
    by rewrite decode_encode.
Qed.

Lemma event_wf_fixed e : event_wf e → is_fixed_event e = true → Fixed.wf e.
Proof. by destruct e. Qed.

(** Both codecs together. *)
Definition frame_body (e : ProtoEvent) : list byte :=
  if is_fixed_event e then Fixed.body e else var_body e.

Lemma encode_vec_ok e :
  event_wf e → encode_vec e = Ok (Fixed.type_byte e :: frame_body e).
Proof.
  intros Hwf. unfold frame_body. destruct (is_fixed_event e) eqn:Hf.
  - apply encode_vec_fixed. by apply event_wf_fixed.
  - by apply encode_vec_var.
Qed.

Lemma decode_slice_ok e :
  event_wf e → decode_slice (Fixed.type_byte e :: frame_body e) = Ok e.
Proof.
  intros Hwf. unfold frame_body. destruct (is_fixed_event e) eqn:Hf.
  - rewrite <- (app_nil_r (Fixed.body e)). by apply decode_slice_fixed, event_wf_fixed.
  - rewrite decode_slice_type, Hf, <- (app_nil_r (var_body e)).
    by rewrite decode_var_body_app.
Qed.

(** The two ways a 21-byte buffer decodes. *)
Lemma fixed_decode_cases b0 rest :
  20 ≤ length rest →
  match EventType.try_from (Z_of_byte b0) with
  | Some t =>
      if EventType.is_fixed t then returns (Fixed.decode (b0 :: rest))
      else Fixed.decode (b0 :: rest) = Panic
  | None => Fixed.decode (b0 :: rest) = Err (InvalidEventId (Z_of_byte b0))
  end.
Proof.
  intros Hlen. unfold Fixed.decode. rewrite Fixed.decode_u8_cons. cbn [mbind outcome_bind].
  destruct (EventType.try_from (Z_of_byte b0)) as [t|]; [|done].
  destruct (EventType.is_fixed t) eqn:Hf; [|by destruct t].
  destruct (Fixed.decode_body_sized t Hf) as (k & Hk & Hs).
  specialize (Hs rest ltac:(lia)). by destruct (Fixed.decode_body t rest) as [[]| | |].
Qed.

Lemma decode_slice_safe bs : returns (decode_slice bs).
Proof.
  destruct bs as [|b0 body]; [done|]. unfold decode_slice.
  destruct (EventType.try_from (Z_of_byte b0)) as [t|] eqn:Ht; [|done].
  destruct (EventType.is_fixed t) eqn:Hf.
  - pose proof (fixed_decode_cases b0 (take (length body `min` 20) body ++
      replicate (20 - length body `min` 20) x00)) as Hc.
    rewrite Ht, Hf, length_app, length_take, length_replicate in Hc. apply Hc. lia.
  - pose proof (decode_var_framed t Hf body) as Hv.
    by destruct (decode_var t body) as [[e [|]]| | |].
Qed.

Lemma decode_slice_wf bs e : decode_slice bs = Ok e → event_wf e.
Proof.
  destruct bs as [|b0 body]; [done|]. unfold decode_slice.
  destruct (EventType.try_from (Z_of_byte b0)) as [t|] eqn:Ht; [|done].
  destruct (EventType.is_fixed t) eqn:Hf.
  - unfold Fixed.decode. rewrite Fixed.decode_u8_cons. cbn [mbind outcome_bind].
    rewrite Ht. destruct (Fixed.decode_body_sized t Hf) as (k & Hk & Hs).
    specialize (Hs (take (length body `min` 20) body ++
                    replicate (20 - length body `min` 20) x00)).
    rewrite length_app, length_take, length_replicate in Hs.
    specialize (Hs ltac:(lia)). cbn [MAX_EVENT_SIZE Nat.add Nat.mul Nat.sub] in *.
    destruct (Fixed.decode_body t _) as [[e' rest]| | |]; try done.
    intros [= <-]. destruct Hs as [Hwf _]. by destruct e'.
  - pose proof (decode_var_framed t Hf body) as Hv.
    destruct (decode_var t body) as [[e' [|]]| | |]; try done. cbn.
    intros [= <-]. by destruct Hv.
Qed.

(** ** Properties *)

(** C4. Every event, fixed or variable-length, whose fields are in the range
    of their types and whose lengths fit in a [u32] survives the wire: the
    encoder returns bytes, and the decoder maps them back to the event. *)
Theorem wire_roundtrip e :
  event_wf e → ∃ bs, encode_vec e = Ok bs ∧ decode_slice bs = Ok e.
Proof.
  intros Hwf. eexists. split; [by apply encode_vec_ok|by apply decode_slice_ok].
Qed.

Definition sample_files : ProtoEvent :=
  ProtoEvent.ClipboardFiles (mkClipboardFiles (replicate 32 x01)
    [mkFileEntry "a.txt" 3 "text/plain" (replicate 32 x02);
     mkFileEntry "b" 0 "" (replicate 32 x03)]).

Lemma wire_roundtrip_witness :
  event_wf sample_files ∧
  ∃ bs, encode_vec sample_files = Ok bs ∧ decode_slice bs = Ok sample_files.
Proof.
  assert (event_wf sample_files) as Hwf.
  { repeat split; repeat constructor; try done; vm_compute; repeat split; congruence. }
  split; [exact Hwf|]. exact (wire_roundtrip sample_files Hwf).
Defined.

(** C23. The universal decoder is total on hostile input: on any bytes at all it
    returns an event or an error, never panics and never loops, and an event
    it returns is well-formed. *)
Theorem decode_slice_total bs :
  match decode_slice bs with
  | Ok e => event_wf e
  | Err _ => True
  | Panic | Diverge => False
  end.
Proof.
  pose proof (decode_slice_safe bs) as Hs. pose proof (decode_slice_wf bs) as Hw.
  destruct (decode_slice bs); naive_solver.
Qed.

(** The frames of the clipboard events are strict: no byte may follow a
    frame, and no proper non-empty prefix of a frame is accepted; both are
    [FrameTooShort]. *)
Theorem var_frames_strict e bs :
  event_wf e → is_fixed_event e = false → encode_vec e = Ok bs →
  (∀ tl, tl ≠ [] → decode_slice (bs ++ tl) = Err FrameTooShort) ∧
  (∀ c d, bs = c ++ d → c ≠ [] → d ≠ [] → decode_slice c = Err FrameTooShort).
Proof.
  intros Hwf Hf. rewrite encode_vec_var by done. intros [= <-]. split.
  - intros tl Htl. cbn [app]. rewrite decode_slice_type, Hf, decode_var_body_app by done.
    by destruct tl.
  - intros c d Hc Hcne Hd. destruct c as [|b c]; [done|]. injection Hc as <- Hc.
    rewrite decode_slice_type, Hf.
    pose proof (decode_var_framed (ProtoEvent.event_type e) Hf (var_body e)) as Hv.
    pose proof (decode_var_body_app e [] Hwf Hf) as He. rewrite app_nil_r in He.
    rewrite He in Hv. destruct Hv as (_ & c0 & Hc0 & _ & _ & Hpre).
    rewrite app_nil_r in Hc0. subst c0. by rewrite (Hpre c d).
Qed.

Definition sample_cancel : ProtoEvent :=
  ProtoEvent.FileTransferCancel (mkFileTransferCancel (replicate 32 x07)).

Lemma var_frames_strict_witness :
  decode_slice (x11 :: replicate 31 x07) = Err FrameTooShort.
Proof.
  refine (proj2 (var_frames_strict sample_cancel (x11 :: replicate 32 x07) _ _ _)
            (x11 :: replicate 31 x07) [x07] _ _ _); by vm_compute.
Defined.

(** The fixed-size codec of the input and control events: the encoder
    fills a 21-byte buffer, reports a length within it, leaves the tail zero,
    and the decoder reads the event back from the buffer. *)
Theorem fixed_roundtrip e :
  Fixed.wf e →
  ∃ buf len, Fixed.encode e = Ok (buf, len) ∧ length buf = MAX_EVENT_SIZE ∧
    1 ≤ len ≤ MAX_EVENT_SIZE ∧ drop len buf = replicate (MAX_EVENT_SIZE - len) x00 ∧
    Fixed.decode buf = Ok e.
Proof.
  intros Hwf. pose proof (Fixed.body_length e Hwf) as Hl.
  eexists _, _. split; [by apply Fixed.encode_spec|]. split_and!.
  - cbn. rewrite length_app, length_replicate. lia.
  - lia.
  - cbn. lia.
  - cbn. by rewrite drop_app_length.
  - by apply decode_fixed_app.
Qed.

Definition sample_axis : ProtoEvent :=
  ProtoEvent.Input (Pointer (AxisDiscrete120 1 (-120))).

Lemma fixed_roundtrip_witness :
  Fixed.wf sample_axis ∧
  ∃ buf len, Fixed.encode sample_axis = Ok (buf, len) ∧ length buf = MAX_EVENT_SIZE ∧
    1 ≤ len ≤ MAX_EVENT_SIZE ∧ drop len buf = replicate (MAX_EVENT_SIZE - len) x00 ∧
    Fixed.decode buf = Ok sample_axis.
Proof.
  assert (Fixed.wf sample_axis) as Hwf by (split; vm_compute; split; congruence).
  split; [exact Hwf|]. exact (fixed_roundtrip sample_axis Hwf).
Defined.

(** The fixed-size decoder panics on exactly the 21-byte buffers whose
    type byte names a clipboard event (its [unreachable!] arm); on every other
    buffer it returns. *)
Theorem fixed_decode_panics buf :
  length buf = MAX_EVENT_SIZE →
  (Fixed.decode buf = Panic ↔
   ∃ b0 rest t, buf = b0 :: rest ∧ EventType.try_from (Z_of_byte b0) = Some t ∧
     EventType.is_fixed t = false) ∧
  Fixed.decode buf ≠ Diverge.
Proof.
  intros Hlen. destruct buf as [|b0 rest]; [done|]. cbn in Hlen.
  pose proof (fixed_decode_cases b0 rest ltac:(lia)) as Hc.
  destruct (EventType.try_from (Z_of_byte b0)) as [t|] eqn:Ht.
  2: { rewrite Hc. split; [split; [done|]|done]. intros (? & ? & ? & [= <- <-] & ? & ?). congruence. }
  destruct (EventType.is_fixed t) eqn:Hf.
  - split; [split|]; [by intros E; rewrite E in Hc| |by intros E; rewrite E in Hc].
    intros (? & ? & ? & [= <- <-] & ? & ?). congruence.
  - rewrite Hc. split; [split; [|done]|done]. intros _. by exists b0, rest, t.
Qed.

Lemma fixed_decode_panics_witness :
  Fixed.decode (x0c :: replicate 20 x00) = Panic.
Proof.
  apply (fixed_decode_panics (x0c :: replicate 20 x00)); [done|].
  exists x0c, (replicate 20 x00), EventType.ClipboardText. done.
Defined.

(** Unlike the clipboard frames, the frames of the fixed events are lenient
    on the universal decoder: bytes after a complete frame are ignored, and a
    truncated frame decodes as if it were padded with zeros. *)
Theorem fixed_frames_lenient e bs :
  Fixed.wf e → encode_vec e = Ok bs →
  (∀ tl, decode_slice (bs ++ tl) = Ok e) ∧
  (∀ c n, c ≠ [] → length c + n ≤ MAX_EVENT_SIZE → take (length c) bs = c →
     decode_slice c = decode_slice (c ++ replicate n x00)).
Proof.
  intros Hwf. rewrite encode_vec_fixed by done. intros [= <-]. split.
  - intros tl. cbn [app]. by apply decode_slice_fixed.
  - intros [|b c] n Hne Hlen Hc; [done|]. cbn [length take] in Hc.
    injection Hc as <- Hc. change MAX_EVENT_SIZE with 21 in Hlen.
    cbn [length] in Hlen. cbn [app].
    rewrite !decode_slice_type, fixed_wf_is_fixed by done.
    rewrite length_app, length_replicate.
    rewrite (Nat.min_l (length c) 20), (Nat.min_l (length c + n) 20) by lia.
    rewrite !take_ge by (rewrite ?length_app, ?length_replicate; lia).
    rewrite <- app_assoc, <- replicate_add. do 4 f_equal. lia.
Qed.

(** A [Leave] frame cut after its type byte is the event [Leave(0)]. *)
Lemma fixed_frames_lenient_witness :
  decode_slice [x09] = Ok (ProtoEvent.Leave 0).
Proof.
  rewrite (proj2 (fixed_frames_lenient (ProtoEvent.Leave 5) [x09; x00; x00; x00; x05]
             ltac:(vm_compute; split; congruence) ltac:(done)) [x09] 4); done || (cbn; lia).
Defined.
