(* ===== verification/Transport.v ===== *)
(** The application protocol over QUIC: frames, routing, the Hello handshake
    and the stream readers (src/quic_transport/protocol.rs, streams.rs and the
    error type of mod.rs).  A receive stream is the bytes that will arrive and
    the way it ends; what quinn decides (whether a stream opens, whether a
    write succeeds, whether the timer fires) is an argument. *)

From S2P Require Import Prelude InputEvent Proto Codec Wire.

(** * Errors and streams *)

(** The variants of [quic_transport::Error] that the modelled code produces.  A
    message is its text before the interpolated detail. *)
Inductive Error : Type :=
| HelloFailed (msg : string)
| HelloTimeout
| FrameTooLarge (len : nat)
| Truncated
| StreamB (msg : string)
| Datagram
| Handshake
| EndpointSetup (msg : string)
| Connect.

#[export] Instance Error_eq_dec : EqDecision Error.
Proof. solve_decision. Defined.

Inductive io_error : Type := UnexpectedEof | OtherIo.
#[export] Instance io_error_eq_dec : EqDecision io_error.
Proof. solve_decision. Defined.

Record RecvStream : Type := mkRecv { r_bytes : list byte; r_end : io_error }.

(** [read_exact] of [n] bytes; a failed read leaves nothing to read. *)
Definition read_exact (n : nat) (r : RecvStream) : (list byte + io_error) * RecvStream :=
  if decide (length (r_bytes r) < n) then (inr (r_end r), mkRecv [] (r_end r))
  else (inl (take n (r_bytes r)), mkRecv (drop n (r_bytes r)) (r_end r)).

Definition read_u32 (r : RecvStream) : (Z + io_error) * RecvStream :=
  match read_exact 4 r with
  | (inl bs, r') => (inl (be_val bs), r')
  | (inr e, r') => (inr e, r')
  end.

(** The bytes [write_u32(len)] and [write_all(bytes)] put on a stream. *)
Definition frame_of (bytes : list byte) : list byte :=
  be_bytes 4 (Z.of_nat (length bytes)) ++ bytes.

(** * Frames *)

(** [write_frame] and [write_hello_frame]: the bytes written. *)
Definition write_frame (event : ProtoEvent) : outcome Error (list byte) :=
  '(buf, len) ← map_err (λ _, HelloFailed "encode") (Fixed.encode event);
  Ok (frame_of (take len buf)).

Definition write_stream_c_frame (event : ProtoEvent) : outcome Error (list byte) :=
  body ← map_err (λ _, HelloFailed "encode") (encode_vec event);
  Ok (frame_of body).

Definition zero_padded (body : list byte) : list byte :=
  body ++ replicate (MAX_EVENT_SIZE - length body) x00.

Definition read_frame (r : RecvStream) : outcome Error ProtoEvent * RecvStream :=
  match read_u32 r with
  | (inr _, r) => (Err (HelloFailed "read frame length: "), r)
  | (inl n, r) =>
      let len := Z.to_nat n in
      if decide (MAX_EVENT_SIZE < len) then (Err (FrameTooLarge len), r)
      else match read_exact len r with
           | (inr UnexpectedEof, r) => (Err Truncated, r)
           | (inr _, r) => (Err (HelloFailed "read frame body "), r)
           | (inl body, r) =>
               (map_err (λ _, HelloFailed "decode frame: ")
                  (Fixed.decode (zero_padded body)), r)
           end
  end.

Definition read_hello_frame (r : RecvStream) : outcome Error ProtoEvent * RecvStream :=
  match read_u32 r with
  | (inr _, r) => (Err (HelloFailed "read Hello frame length: "), r)
  | (inl n, r) =>
      let len := Z.to_nat n in
      if decide (MAX_EVENT_SIZE < len)
      then (Err (HelloFailed "Hello frame too large: "), r)
      else match read_exact len r with
           | (inr _, r) => (Err (HelloFailed "read Hello frame body "), r)
           | (inl body, r) =>
               (map_err (λ _, HelloFailed "decode Hello frame: ")
                  (Fixed.decode (zero_padded body)), r)
           end
  end.

Definition read_stream_c_frame (r : RecvStream) : outcome Error ProtoEvent * RecvStream :=
  match read_u32 r with
  | (inr _, r) => (Err (HelloFailed "read stream C length: "), r)
  | (inl n, r) =>
      let len := Z.to_nat n in
      match read_exact len r with
      | (inr UnexpectedEof, r) => (Err Truncated, r)
      | (inr _, r) => (Err (HelloFailed "read stream C body "), r)
      | (inl body, r) =>
          (map_err (λ _, HelloFailed "decode stream C frame: ") (decode_slice body), r)
      end
  end.

(** * Routing *)

Inductive ChannelMode : Type := Stream | DatagramMode.
Record InputChannelConfig : Type := mkChannels {
  mouse_button : ChannelMode;
  keyboard : ChannelMode
}.
#[export] Instance ChannelMode_eq_dec : EqDecision ChannelMode.
Proof. solve_decision. Defined.
#[export] Instance InputChannelConfig_eq_dec : EqDecision InputChannelConfig.
Proof. solve_decision. Defined.

Definition default_channels : InputChannelConfig := mkChannels DatagramMode Stream.

Module Channel.
Inductive Channel : Type := Datagram | StreamA | StreamB | StreamC.
#[global] Instance Channel_eq_dec : EqDecision Channel.
Proof. solve_decision. Defined.
End Channel.
Abbreviation Channel := Channel.Channel.

Definition channel_of_mode (m : ChannelMode) : Channel :=
  match m with DatagramMode => Channel.Datagram | Stream => Channel.StreamB end.

Definition route_input (cfg : InputChannelConfig) (event : ProtoEvent) : Channel :=
  match event with
  | ProtoEvent.Input (Pointer (Motion _ _ _ | Axis _ _ _ | AxisDiscrete120 _ _)) =>
      Channel.Datagram
  | ProtoEvent.Input (Pointer (Button _ _ _)) => channel_of_mode (mouse_button cfg)
  | ProtoEvent.Input (Keyboard (Key _ _ _))
  | ProtoEvent.Input (Keyboard (Modifiers _ _ _ _)) => channel_of_mode (keyboard cfg)
  | ProtoEvent.Enter _ | ProtoEvent.Leave _ | ProtoEvent.Ack _
  | ProtoEvent.Hello _ _ | ProtoEvent.Ping | ProtoEvent.Pong _ => Channel.StreamA
  | ProtoEvent.ClipboardText _ | ProtoEvent.ClipboardImage _
  | ProtoEvent.ClipboardFiles _ | ProtoEvent.FileTransferOffer _
  | ProtoEvent.FileTransferResponse _ | ProtoEvent.FileTransferCancel _
  | ProtoEvent.ClipboardRequest _ => Channel.StreamC
  end.

(** * The stream readers *)

Inductive StreamEvent : Type :=
| Control (e : ProtoEvent)
| Reliable (e : ProtoEvent)
| DatagramEvent (e : ProtoEvent)
| ClipboardMeta (e : ProtoEvent).

(** [msg.starts_with(p)]. *)
Definition starts_with (p msg : string) : bool := String.prefix p msg.

Section reader_loop.
(** [read_stream_b_loop] and [read_stream_c_loop] differ in the frame reader,
    the wrapper of the event and the message of a skipped frame.  [accept n]
    says whether the consumer still holds the receiver when the [n]-th event
    is sent. *)
Variable read : RecvStream → outcome Error ProtoEvent * RecvStream.
Variable wrap : ProtoEvent → StreamEvent.
Variable skip : string.
Variable accept : nat → bool.

(** One turn of the [loop]: an exit, or the stream after the frame and the
    event sent, if any. *)
Definition reader_turn (n : nat) (r : RecvStream)
    : outcome Error unit + RecvStream * option StreamEvent :=
  match read r with
  | (Ok event, r) => if accept n then inr (r, Some (wrap event)) else inl (Ok tt)
  | (Err (FrameTooLarge len), _) => inl (Err (FrameTooLarge len))
  | (Err (HelloFailed msg), r) =>
      if starts_with skip msg then inr (r, None) else inl (Err (HelloFailed msg))
  | (Err e, _) => inl (Err e)
  | (Panic, _) => inl Panic
  | (Diverge, _) => inl Diverge
  end.

(** The loop, with the events sent so far in front. *)
Fixpoint reader_loop (fuel : nat) (n : nat) (r : RecvStream)
    : list StreamEvent * outcome Error unit :=
  match fuel with
  | O => ([], Diverge)
  | S fuel =>
      match reader_turn n r with
      | inl res => ([], res)
      | inr (r, None) => reader_loop fuel n r
      | inr (r, Some ev) =>
          let '(evs, res) := reader_loop fuel (S n) r in (ev :: evs, res)
      end
  end.
End reader_loop.

(** Every turn that goes on consumes the four bytes of a length, so one turn
    per byte and one for the exit are enough. *)
Definition read_stream_b_loop (accept : nat → bool) (r : RecvStream) :=
  reader_loop read_frame Reliable "decode frame" accept (S (length (r_bytes r))) 0 r.
Definition read_stream_c_loop (accept : nat → bool) (r : RecvStream) :=
  reader_loop read_stream_c_frame ClipboardMeta "decode stream C frame" accept
    (S (length (r_bytes r))) 0 r.

(** [datagram_reader_task] on the datagrams that arrive before the connection
    ends: [ready n] is the state of the queue at the [n]-th [try_send]. *)
Inductive queue_state : Type := QueueOk | QueueFull | QueueClosed.

Fixpoint datagram_reader_task (ready : nat → queue_state) (n : nat)
    (dgrams : list (list byte)) : list StreamEvent * outcome Error unit :=
  match dgrams with
  | [] => ([], Ok tt)
  | bytes :: rest =>
      if decide (length bytes = MAX_EVENT_SIZE) then
        match Fixed.decode bytes with
        | Ok event =>
            match ready n with
            | QueueOk =>
                let '(evs, res) := datagram_reader_task ready (S n) rest in
                (DatagramEvent event :: evs, res)
            | QueueFull => datagram_reader_task ready (S n) rest
            | QueueClosed => ([], Ok tt)
            end
        | Err _ => datagram_reader_task ready n rest
        | Panic => ([], Panic)
        | Diverge => ([], Diverge)
        end
      else datagram_reader_task ready n rest
  end.

(** * The Hello handshake *)

(** [StreamPair]: the two halves are taken independently.  A send half is
    named by the number of its stream. *)
Record StreamPair : Type := mkPair {
  sp_send : option nat;
  sp_recv : option RecvStream
}.

(** The fields of [PeerSession] that the handshake writes, and the reason the
    connection was closed with, if this side closed it. *)
Record Peer : Type := mkPeer {
  hello_ok : bool;
  stream_a_cache : option StreamPair;
  cached_send_a : option nat;
  closed : option string
}.

Definition from_connection : Peer := mkPeer false None None None.

Definition close (why : string) (p : Peer) : Peer :=
  mkPeer (hello_ok p) (stream_a_cache p) (cached_send_a p) (Some why).

Definition take_stream_a_send (p : Peer) : option nat * Peer :=
  match stream_a_cache p with
  | Some pr =>
      (sp_send pr,
       mkPeer (hello_ok p) (Some (mkPair None (sp_recv pr))) (cached_send_a p) (closed p))
  | None => (None, p)
  end.

Definition take_stream_a_recv (p : Peer) : option RecvStream * Peer :=
  match stream_a_cache p with
  | Some pr =>
      (sp_recv pr,
       mkPeer (hello_ok p) (Some (mkPair (sp_send pr) None)) (cached_send_a p) (closed p))
  | None => (None, p)
  end.

Definition take_stream_a_cache (p : Peer) : option (nat * RecvStream) * Peer :=
  (match stream_a_cache p with
   | Some (mkPair (Some s) (Some r)) => Some (s, r)
   | _ => None
   end,
   mkPeer (hello_ok p) None (cached_send_a p) (closed p)).

(** What quinn and the clock answer during a handshake: the stream that
    [open_bi] or [accept_bi] yields, whether the two writes succeed, whether
    the timer fires first, and what the peer's half carries. *)
Record HelloEnv : Type := mkHelloEnv {
  he_stream : option nat;
  he_write_len : bool;
  he_write_body : bool;
  he_elapsed : bool;
  he_recv : RecvStream
}.

(** [write_hello_frame]: the bytes written and the result. *)
Definition write_hello_frame (env : HelloEnv) (event : ProtoEvent)
    : list byte * outcome Error unit :=
  match Fixed.encode event with
  | Ok (buf, len) =>
      if he_write_len env then
        if he_write_body env then (frame_of (take len buf), Ok tt)
        else (be_bytes 4 (Z.of_nat len), Err (HelloFailed "write Hello frame body: "))
      else ([], Err (HelloFailed "write Hello frame length: "))
  | Err _ | Panic => ([], Panic)
  | Diverge => ([], Diverge)
  end.

(** Both sides end in the same way: cache the pair, take the send half back
    out of the cache ([expect] panics when it is not there), keep it, raise
    the flag. *)
Definition finish_hello (send : nat) (recv : RecvStream) (p : Peer)
    : outcome Error unit * Peer :=
  let p := mkPeer (hello_ok p) (Some (mkPair (Some send) (Some recv)))
             (cached_send_a p) (closed p) in
  match take_stream_a_send p with
  | (Some send_a, p) => (Ok tt, mkPeer true (stream_a_cache p) (Some send_a) (closed p))
  | (None, p) => (Panic, p)
  end.

(** The answer to the frame the peer sent as its Hello; [what] is the word the
    messages use for it. *)
Definition check_hello (what : string) (event : ProtoEvent) (p : Peer)
    (accepted : outcome Error unit * Peer) : outcome Error unit * Peer :=
  match event with
  | ProtoEvent.Hello magic _ =>
      if decide (magic = PROTOCOL_MAGIC) then accepted
      else (Err (HelloFailed "wrong magic: "), close "hello failed (wrong magic)" p)
  | _ => (Err (HelloFailed ("non-Hello " +:+ what)),
          close ("hello failed (non-hello " +:+ what +:+ ")") p)
  end.

Definition client_hello (commit : list byte) (env : HelloEnv) (p : Peer)
    : list byte * (outcome Error unit * Peer) :=
  match he_stream env with
  | None => ([], (Err Handshake, p))
  | Some send =>
      let '(out, wres) := write_hello_frame env (ProtoEvent.hello commit) in
      if he_elapsed env then (out, (Err HelloTimeout, close "hello failed (timeout)" p))
      else match wres with
           | Ok _ =>
               match read_hello_frame (he_recv env) with
               | (Ok event, recv) => (out, check_hello "response" event p (finish_hello send recv p))
               | (Err e, _) => (out, (Err e, p))
               | (Panic, _) => (out, (Panic, p))
               | (Diverge, _) => (out, (Diverge, p))
               end
           | Err e => (out, (Err e, p))
           | Panic => (out, (Panic, p))
           | Diverge => (out, (Diverge, p))
           end
  end.

Definition server_hello (commit : list byte) (env : HelloEnv) (p : Peer)
    : list byte * (outcome Error unit * Peer) :=
  match he_stream env with
  | None => ([], (Err (HelloFailed "accept_bi: "), p))
  | Some send =>
      if he_elapsed env then ([], (Err HelloTimeout, close "hello failed (timeout)" p))
      else match read_hello_frame (he_recv env) with
           | (Ok event, recv) =>
               let '(out, wres) := write_hello_frame env (ProtoEvent.hello commit) in
               let accepted :=
                 match wres with
                 | Ok _ => finish_hello send recv p
                 | Err e => (Err e, p)
                 | Panic => (Panic, p)
                 | Diverge => (Diverge, p)
                 end in
               match event with
               | ProtoEvent.Hello magic _ =>
                   if decide (magic = PROTOCOL_MAGIC) then (out, accepted)
                   else ([], check_hello "frame" event p accepted)
               | _ => ([], check_hello "frame" event p accepted)
               end
           | (Err e, _) => ([], (Err e, p))
           | (Panic, _) => ([], (Panic, p))
           | (Diverge, _) => ([], (Diverge, p))
           end
  end.

(** [hello_watchdog], when its sleep ends. *)
Definition hello_watchdog (p : Peer) : Peer :=
  if hello_ok p then p else close "hello timeout (watchdog)" p.

(** * Lemmas *)

Lemma read_exact_app bs tl e :
  read_exact (length bs) (mkRecv (bs ++ tl) e) = (inl bs, mkRecv tl e).
Proof.
  unfold read_exact. cbn. rewrite decide_False by (rewrite length_app; lia).
  by rewrite take_app_length, drop_app_length.
Qed.

Lemma read_u32_app n tl e :
  inU 32 n → read_u32 (mkRecv (be_bytes 4 n ++ tl) e) = (inl n, mkRecv tl e).
Proof.
  intros Hn. unfold read_u32.
  pose proof (read_exact_app (be_bytes 4 n) tl e) as Hr.
  rewrite length_be_bytes in Hr. rewrite Hr. by rewrite be_val_be_bytes.
Qed.

(** A failed [read_exact] is one byte short; a successful one splits. *)
Lemma read_exact_cases n r :
  (∃ bs tl, r = mkRecv (bs ++ tl) (r_end r) ∧ length bs = n ∧
     read_exact n r = (inl bs, mkRecv tl (r_end r))) ∨
  (length (r_bytes r) < n ∧ read_exact n r = (inr (r_end r), mkRecv [] (r_end r))).
Proof.
  unfold read_exact. destruct r as [bs e]. cbn. case_decide; [by right|]. left.
  exists (take n bs), (drop n bs). rewrite take_drop, length_take. split_and!; [done|lia|done].
Qed.

Lemma read_u32_cases r :
  (∃ n tl, r = mkRecv (be_bytes 4 n ++ tl) (r_end r) ∧ inU 32 n ∧
     read_u32 r = (inl n, mkRecv tl (r_end r))) ∨
  (length (r_bytes r) < 4 ∧ read_u32 r = (inr (r_end r), mkRecv [] (r_end r))).
Proof.
  unfold read_u32. destruct (read_exact_cases 4 r) as [(bs & tl & Hr & Hl & ->)|[Hl ->]].
  - left. exists (be_val bs), tl. rewrite <- Hl, be_bytes_be_val. split_and!; [done| |done].
    pose proof (be_val_bound bs) as Hb. rewrite Hl in Hb. exact Hb.
  - by right.
Qed.

Lemma encode_take e :
  Fixed.wf e →
  ∃ buf, Fixed.encode e = Ok (buf, S (length (Fixed.body e))) ∧
    take (S (length (Fixed.body e))) buf = Fixed.type_byte e :: Fixed.body e.
Proof.
  intros Hwf. eexists. rewrite Fixed.encode_spec by done. split; [done|].
  cbn. by rewrite take_app_length.
Qed.

Lemma write_frame_ok e :
  Fixed.wf e → write_frame e = Ok (frame_of (Fixed.type_byte e :: Fixed.body e)).
Proof.
  intros Hwf. unfold write_frame. destruct (encode_take e Hwf) as (buf & -> & Ht).
  cbn [map_err mbind outcome_bind]. by rewrite Ht.
Qed.

Lemma decode_padded e :
  Fixed.wf e → Fixed.decode (zero_padded (Fixed.type_byte e :: Fixed.body e)) = Ok e.
Proof. intros. unfold zero_padded. cbn [app]. by apply decode_fixed_app. Qed.

(** Reading a frame whose body is [body]. *)
Lemma read_frame_body body tl e :
  length body ≤ MAX_EVENT_SIZE →
  read_frame (mkRecv (frame_of body ++ tl) e) =
    (map_err (λ _, HelloFailed "decode frame: ") (Fixed.decode (zero_padded body)),
     mkRecv tl e).
Proof.
  intros Hl. unfold read_frame, frame_of. rewrite <- app_assoc.
  change MAX_EVENT_SIZE with 21 in *.
  rewrite read_u32_app by (unfold inU; lia). rewrite Nat2Z.id.
  rewrite decide_False by lia. by rewrite read_exact_app.
Qed.

Lemma read_hello_frame_body body tl e :
  length body ≤ MAX_EVENT_SIZE →
  read_hello_frame (mkRecv (frame_of body ++ tl) e) =
    (map_err (λ _, HelloFailed "decode Hello frame: ") (Fixed.decode (zero_padded body)),
     mkRecv tl e).
Proof.
  intros Hl. unfold read_hello_frame, frame_of. rewrite <- app_assoc.
  change MAX_EVENT_SIZE with 21 in *.
  rewrite read_u32_app by (unfold inU; lia). rewrite Nat2Z.id.
  rewrite decide_False by lia. by rewrite read_exact_app.
Qed.

Lemma read_stream_c_frame_body body tl e :
  bytes_wf body →
  read_stream_c_frame (mkRecv (frame_of body ++ tl) e) =
    (map_err (λ _, HelloFailed "decode stream C frame: ") (decode_slice body), mkRecv tl e).
Proof.
  intros Hl. unfold read_stream_c_frame, frame_of. rewrite <- app_assoc.
  rewrite read_u32_app by done. rewrite Nat2Z.id. by rewrite read_exact_app.
Qed.

Lemma fixed_frame_short e :
  Fixed.wf e → length (Fixed.type_byte e :: Fixed.body e) ≤ MAX_EVENT_SIZE.
Proof. intros Hwf. pose proof (Fixed.body_length e Hwf). cbn. lia. Qed.

Lemma hello_wf commit : length commit = 8 → Fixed.wf (ProtoEvent.hello commit).
Proof. done. Qed.

Lemma write_hello_ok env commit :
  length commit = 8 → he_write_len env = true → he_write_body env = true →
  write_hello_frame env (ProtoEvent.hello commit) =
    (frame_of (Fixed.type_byte (ProtoEvent.hello commit) ::
               Fixed.body (ProtoEvent.hello commit)), Ok tt).
Proof.
  intros Hc H1 H2. unfold write_hello_frame.
  destruct (encode_take _ (hello_wf commit Hc)) as (buf & -> & Ht).
  by rewrite H1, H2, Ht.
Qed.

Section reader_loop_lemmas.
Context (read : RecvStream → outcome Error ProtoEvent * RecvStream).
Context (wrap : ProtoEvent → StreamEvent) (skip : string) (accept : nat → bool).
(** The reader takes at least one byte from the stream when it does not meet
    its end. *)
Hypothesis read_shrinks : ∀ r, match read r with
  | (Ok _, r') | (Err (HelloFailed _), r') =>
      length (r_bytes r') < length (r_bytes r) ∨
      (∃ m, fst (read r) = Err (HelloFailed m) ∧ starts_with skip m = false)
  | _ => True
  end.

Lemma reader_turn_shrinks n r r' o :
  reader_turn read wrap skip accept n r = inr (r', o) →
  length (r_bytes r') < length (r_bytes r).
Proof.
  unfold reader_turn. pose proof (read_shrinks r) as Hs.
  destruct (read r) as [[ev|[m| | | | | | | |]| |] r1]; try done; cbn in *.
  - destruct Hs as [Hs|(m & ? & ?)]; [|done]. destruct (accept n); naive_solver.
  - destruct (starts_with skip m) eqn:E; [|done].
    destruct Hs as [Hs|(m' & [= <-] & ?)]; [|congruence]. naive_solver.
Qed.

(** Enough fuel: the loop ends as its last turn says, never by running out. *)
Lemma reader_loop_ends (P : outcome Error unit → Prop) fuel n r :
  (∀ n r res, reader_turn read wrap skip accept n r = inl res → P res) →
  length (r_bytes r) < fuel →
  P (snd (reader_loop read wrap skip accept fuel n r)).
Proof.
  intros HP. revert n r. induction fuel as [|fuel IH]; intros n r Hf; [lia|].
  cbn [reader_loop]. destruct (reader_turn _ _ _ _ n r) as [res|[r' [ev|]]] eqn:E.
  - by apply (HP n r).
  - apply reader_turn_shrinks in E. specialize (IH (S n) r' ltac:(lia)).
    by destruct (reader_loop _ _ _ _ fuel (S n) r').
  - apply reader_turn_shrinks in E. apply IH. lia.
Qed.
End reader_loop_lemmas.

Lemma read_exact_shrinks n r x r' :
  read_exact n r = (x, r') → length (r_bytes r') ≤ length (r_bytes r).
Proof.
  unfold read_exact. case_decide; intros [= <- <-]; cbn; [lia|]. rewrite length_drop. lia.
Qed.

Lemma read_u32_shrinks r n r' :
  read_u32 r = (inl n, r') → length (r_bytes r') < length (r_bytes r).
Proof.
  unfold read_u32, read_exact. case_decide; intros [= <- <-]. cbn.
  rewrite length_drop. lia.
Qed.

(** The length in front determines where the frame ends. *)
Lemma be_bytes_inj n z z' :
  inU (8 * Z.of_nat n) z → inU (8 * Z.of_nat n) z' → be_bytes n z = be_bytes n z' → z = z'.
Proof.
  intros Hz Hz' Heq. by rewrite <- (be_val_be_bytes n z), Heq, be_val_be_bytes.
Qed.

Lemma frame_prefix n tl body tl' :
  inU 32 n → length body ≤ 21 → be_bytes 4 n ++ tl = frame_of body ++ tl' →
  n = Z.of_nat (length body) ∧ tl = body ++ tl'.
Proof.
  intros Hn Hl. unfold frame_of. rewrite <- app_assoc.
  intros [Heq ->]%app_inj_1; [|by rewrite !length_be_bytes]. split; [|done].
  apply (be_bytes_inj 4); [done|unfold inU; lia|done].
Qed.

(** A body of at most 21 bytes panics the decoder iff it starts with the type
    of a clipboard event. *)
Lemma padded_panics body :
  length body ≤ 21 →
  Fixed.decode (zero_padded body) ≠ Diverge ∧
  (Fixed.decode (zero_padded body) = Panic ↔
   ∃ b0 rest t, body = b0 :: rest ∧ EventType.try_from (Z_of_byte b0) = Some t ∧
     EventType.is_fixed t = false).
Proof.
  intros Hl. destruct body as [|b0 rest].
  { split; [done|]. split; [by vm_compute|naive_solver]. }
  pose proof (fixed_decode_cases b0 (rest ++ replicate (20 - length rest) x00)) as Hc.
  rewrite length_app, length_replicate in Hc. specialize (Hc ltac:(cbn in Hl; lia)).
  change (b0 :: rest ++ replicate (20 - length rest) x00)
    with (zero_padded (b0 :: rest)) in Hc.
  destruct (EventType.try_from (Z_of_byte b0)) as [t|] eqn:Ht.
  - destruct (EventType.is_fixed t) eqn:Hf.
    + destruct (Fixed.decode _); try done; (split; [done|split; [done|]]);
        intros (? & ? & ? & [= <- <-] & ? & ?); congruence.
    + rewrite Hc. split; [done|]. split; [|done]. intros _. by exists b0, rest, t.
  - rewrite Hc. split; [done|]. split; [done|].
    intros (? & ? & ? & [= <- <-] & ? & ?). congruence.
Qed.

Ltac shrink_cases :=
  repeat match goal with
  | |- context [read_u32 ?r] => let E := fresh "E" in destruct (read_u32 r) as [[?|?] ?] eqn:E
  | |- context [read_exact ?n ?r] =>
      let E := fresh "E" in destruct (read_exact n r) as [[?|[]] ?] eqn:E
  | |- context [decide ?P] => destruct (decide P)
  | H : read_u32 _ = (inl _, _) |- _ => apply read_u32_shrinks in H
  | H : read_exact _ _ = (_, _) |- _ => apply read_exact_shrinks in H
  end.

Lemma read_frame_shrinks r : match read_frame r with
  | (Ok _, r') | (Err (HelloFailed _), r') =>
      length (r_bytes r') < length (r_bytes r) ∨
      (∃ m, fst (read_frame r) = Err (HelloFailed m) ∧
            starts_with "decode frame" m = false)
  | _ => True
  end.
Proof.
  unfold read_frame. shrink_cases; cbn; try naive_solver.
  destruct (Fixed.decode _); cbn; auto; left; lia.
Qed.

Lemma read_stream_c_frame_shrinks r : match read_stream_c_frame r with
  | (Ok _, r') | (Err (HelloFailed _), r') =>
      length (r_bytes r') < length (r_bytes r) ∨
      (∃ m, fst (read_stream_c_frame r) = Err (HelloFailed m) ∧
            starts_with "decode stream C frame" m = false)
  | _ => True
  end.
Proof.
  unfold read_stream_c_frame. shrink_cases; cbn; try naive_solver.
  destruct (decode_slice _); cbn; auto; left; lia.
Qed.

(** * Properties *)

(** A frame written with [write_frame] is read back as the same event, and
    the stream is left exactly after it; so is a clipboard frame written with
    [write_stream_c_frame]. *)
Theorem frame_roundtrip e :
  event_wf e →
  (is_fixed_event e = true → ∃ bs, write_frame e = Ok bs ∧
     ∀ tl ending, read_frame (mkRecv (bs ++ tl) ending) = (Ok e, mkRecv tl ending)) ∧
  (∀ body, encode_vec e = Ok body → bytes_wf body → ∃ bs, write_stream_c_frame e = Ok bs ∧
     ∀ tl ending, read_stream_c_frame (mkRecv (bs ++ tl) ending) = (Ok e, mkRecv tl ending)).
Proof.
  intros Hwf. split.
  - intros Hf. apply event_wf_fixed in Hwf; [|done]. eexists. split.
    + by apply write_frame_ok.
    + intros tl ending. rewrite read_frame_body by by apply fixed_frame_short.
      by rewrite decode_padded.
  - intros body Hb Hlen. unfold write_stream_c_frame. rewrite Hb. eexists. split; [done|].
    intros tl ending. rewrite read_stream_c_frame_body by done.
    rewrite encode_vec_ok in Hb by done. injection Hb as <-. by rewrite decode_slice_ok.
Qed.

Lemma frame_roundtrip_witness :
  fst (read_frame (mkRecv [x00; x00; x00; x01; x06; x2a] OtherIo)) = Ok ProtoEvent.Ping.
Proof.
  destruct (proj1 (frame_roundtrip ProtoEvent.Ping I) eq_refl) as (bs & Hb & Hr).
  assert (bs = [x00; x00; x00; x01; x06]) as -> by (vm_compute in Hb; congruence).
  apply (f_equal fst (Hr [x2a] OtherIo)).
Defined.

(** What [read_frame] does with any stream: it never loops; the length
    guard answers [FrameTooLarge] before a byte of the body is read; and it
    panics on exactly the frames whose first byte names a clipboard event,
    which a peer is free to send. *)
Theorem read_frame_outcomes r :
  fst (read_frame r) ≠ Diverge ∧
  (∀ n tl, r_bytes r = be_bytes 4 n ++ tl → inU 32 n → (21 < n)%Z →
     read_frame r = (Err (FrameTooLarge (Z.to_nat n)), mkRecv tl (r_end r))) ∧
  (fst (read_frame r) = Panic ↔
     ∃ b0 rest tl t, r_bytes r = frame_of (b0 :: rest) ++ tl ∧ length rest ≤ 20 ∧
       EventType.try_from (Z_of_byte b0) = Some t ∧ EventType.is_fixed t = false).
Proof.
  destruct (read_u32_cases r) as [(n & tl & Hr & Hn & Hu)|[Hl Hu]].
  2: { unfold read_frame. rewrite Hu. split_and!; [done| |split; [done|]].
    - intros n tl Hr _ _. rewrite Hr, length_app, length_be_bytes in Hl. lia.
    - intros (b0 & rest & tl & t & Hr & _). unfold frame_of in Hr.
      rewrite Hr, !length_app, length_be_bytes in Hl. lia. }
  rewrite Hr in *. cbn [r_bytes r_end] in *. unfold read_frame. rewrite Hu.
  change MAX_EVENT_SIZE with 21. case_decide as Hbig.
  { cbn. split_and!; [done| |split; [done|]].
    - intros n' tl' [Heq ->]%app_inj_1 Hn' _; [|by rewrite !length_be_bytes].
      by rewrite (be_bytes_inj 4 n n').
    - intros (b0 & rest & tl' & t & Heq & Hlen & _).
      apply frame_prefix in Heq as [-> _]; [|done|cbn; lia].
      rewrite Nat2Z.id in Hbig. cbn in Hbig. lia. }
  destruct (read_exact_cases (Z.to_nat n) (mkRecv tl (r_end r)))
    as [(body & tl2 & [= ->] & Hlen & He)|[Hlen He]]; rewrite He; cbn [r_end r_bytes] in *.
  - assert (n = Z.of_nat (length body)) as -> by (unfold inU in Hn; lia).
    assert (length body ≤ 21) as Hb by lia.
    destruct (padded_panics body Hb) as [Hd Hp].
    split_and!.
    + by destruct (Fixed.decode _).
    + intros n' tl' Heq Hn' Hbig'. exfalso.
      apply app_inj_1 in Heq as [Heq _]; [|by rewrite !length_be_bytes].
      apply (be_bytes_inj 4) in Heq; [lia|done|done].
    + cbn. trans (Fixed.decode (zero_padded body) = Panic).
      { by destruct (Fixed.decode _). }
      rewrite Hp. split.
      * intros (b0 & rest & t & -> & Ht & Hf). exists b0, rest, tl2, t.
        unfold frame_of. rewrite <- app_assoc. split_and!; try done. cbn in Hb. lia.
      * intros (b0 & rest & tl' & t & Heq & Hl & Ht & Hf).
        apply frame_prefix in Heq as [Hbl Heq]; [|done|cbn; lia].
        apply app_inj_1 in Heq as [-> _]; [|lia]. by exists b0, rest, t.
  - assert (fst (match r_end r with
       | UnexpectedEof => (Err Truncated, mkRecv [] (r_end r))
       | OtherIo => (Err (HelloFailed "read frame body "), mkRecv [] (r_end r))
       end) ≠ (Panic : outcome Error ProtoEvent)) as Hnp by by destruct (r_end r).
    split_and!; [by destruct (r_end r)| |split; [done|]].
    + intros n' tl' Heq Hn' Hbig'. exfalso.
      apply app_inj_1 in Heq as [Heq _]; [|by rewrite !length_be_bytes].
      apply (be_bytes_inj 4) in Heq; [lia|done|done].
    + intros (b0 & rest & tl' & t & Heq & Hl & _). exfalso.
      apply frame_prefix in Heq as [-> ->]; [|done|cbn; lia].
      rewrite length_app in Hlen. cbn in Hlen. lia.
Qed.

Lemma read_frame_outcomes_witness :
  fst (read_frame (mkRecv [x00; x00; x00; x01; x0c] UnexpectedEof)) = Panic.
Proof.
  apply (read_frame_outcomes (mkRecv [x00; x00; x00; x01; x0c] UnexpectedEof)).
  exists x0c, [], [], EventType.ClipboardText. repeat split. cbn. lia.
Defined.

(** Routing: an event goes to stream C exactly when it is a clipboard
    event, so the fixed-size encoder, which panics on those, accepts every
    event the router sends elsewhere; pointer motion and scrolling always ride
    datagrams, control events stream A, and key and modifier events share one
    channel. *)
Theorem route_input_spec cfg e :
  event_wf e →
  (route_input cfg e = Channel.StreamC ↔ is_fixed_event e = false) ∧
  (route_input cfg e ≠ Channel.StreamC → ∃ buf len, Fixed.encode e = Ok (buf, len)) ∧
  (route_input cfg e = Channel.StreamC → Fixed.encode e = Panic) ∧
  match e with
  | ProtoEvent.Input (Pointer (Motion _ _ _ | Axis _ _ _ | AxisDiscrete120 _ _)) =>
      route_input cfg e = Channel.Datagram
  | ProtoEvent.Input (Keyboard _) => ∀ d la lo g, route_input cfg e =
      route_input cfg (ProtoEvent.Input (Keyboard (Modifiers d la lo g)))
  | ProtoEvent.Input _ => route_input cfg e ∈ [Channel.Datagram; Channel.StreamB]
  | _ => route_input cfg e ∈ [Channel.StreamA; Channel.StreamC]
  end.
Proof.
  intros Hwf.
  assert (route_input cfg e = Channel.StreamC ↔ is_fixed_event e = false) as Hiff.
  { destruct cfg as [[] []], e as [| | |[[]|[]]| | | | | | | | | |]; done. }
  split_and!; [done|..].
  - intros Hne. destruct (is_fixed_event e) eqn:Hf; [|by destruct Hne; apply Hiff].
    destruct (encode_take e) as (buf & -> & _); [by apply event_wf_fixed|eauto].
  - intros Hc%Hiff. by destruct e as [| | |[[]|[]]| | | | | | | | | |].
  - destruct cfg as [[] []], e as [| | |[[]|[]]| | | | | | | | | |]; cbn; set_solver.
Qed.

Lemma route_input_spec_witness :
  Fixed.encode sample_cancel = Panic.
Proof.
  by apply (route_input_spec default_channels sample_cancel).
Defined.

(** One element of what a peer writes on stream B: an event, or a body that
    does not decode. *)
Inductive traffic : Type := Good (e : ProtoEvent) | Corrupt (body : list byte).

Definition traffic_wf (t : traffic) : Prop :=
  match t with
  | Good e => Fixed.wf e
  | Corrupt body => length body ≤ MAX_EVENT_SIZE ∧
      ∃ err, Fixed.decode (zero_padded body) = Err err
  end.
Definition traffic_body (t : traffic) : list byte :=
  match t with
  | Good e => Fixed.type_byte e :: Fixed.body e
  | Corrupt body => body
  end.
Definition traffic_bytes (ts : list traffic) : list byte :=
  concat ((λ t, frame_of (traffic_body t)) <$> ts).
Definition delivered (ts : list traffic) : list StreamEvent :=
  omap (λ t, match t with Good e => Some (Reliable e) | Corrupt _ => None end) ts.

Lemma read_traffic t tl ending :
  traffic_wf t →
  read_frame (mkRecv (frame_of (traffic_body t) ++ tl) ending) =
    (match t with Good e => Ok e | Corrupt _ => Err (HelloFailed "decode frame: ") end,
     mkRecv tl ending).
Proof.
  destruct t as [e|body]; cbn [traffic_wf traffic_body].
  - intros Hwf. rewrite read_frame_body by by apply fixed_frame_short.
    by rewrite decode_padded.
  - intros [Hl [err He]]. rewrite read_frame_body by done. by rewrite He.
Qed.

(** The stream B reader delivers every well-formed event of the peer, once
    and in order, skipping frames that do not decode, and ends when the stream
    does. *)
Theorem stream_b_delivers ts ending :
  Forall traffic_wf ts →
  read_stream_b_loop (λ _, true) (mkRecv (traffic_bytes ts) ending) =
    (delivered ts, Err (HelloFailed "read frame length: ")).
Proof.
  intros Hwf. unfold read_stream_b_loop.
  enough (∀ n fuel, length ts < fuel →
    reader_loop read_frame Reliable "decode frame" (λ _, true) fuel n
      (mkRecv (traffic_bytes ts) ending) =
    (delivered ts, Err (HelloFailed "read frame length: "))) as Hgen.
  { apply Hgen. clear. induction ts as [|t ts IH]; cbn; [lia|].
    unfold traffic_bytes in IH. rewrite length_app.
    unfold frame_of at 1. rewrite length_app, length_be_bytes. cbn in *. lia. }
  induction Hwf as [|t ts Ht Hwf IH]; intros n [|fuel] Hf; try (cbn in Hf; lia); [done|].
  cbn in Hf. change (traffic_bytes (t :: ts))
    with (frame_of (traffic_body t) ++ traffic_bytes ts).
  cbn [reader_loop]. unfold reader_turn. rewrite read_traffic by done.
  destruct t as [e|body]; cbn; rewrite IH by lia; done.
Qed.

Lemma stream_b_delivers_witness :
  read_stream_b_loop (λ _, true)
    (mkRecv (traffic_bytes [Good ProtoEvent.Ping; Corrupt [x13]; Good sample_axis])
       UnexpectedEof) =
  ([Reliable ProtoEvent.Ping; Reliable sample_axis],
   Err (HelloFailed "read frame length: ")).
Proof.
  apply (stream_b_delivers [Good ProtoEvent.Ping; Corrupt [x13]; Good sample_axis]).
  repeat constructor; try (vm_compute; lia); [by eexists|..]; by vm_compute.
Defined.

(** The clipboard stream reader survives anything the peer writes: on any
    bytes, and whatever the consumer does, the task ends by returning; it
    neither panics nor spins. *)
Theorem stream_c_reader_total accept r :
  returns (snd (read_stream_c_loop accept r)).
Proof.
  apply (reader_loop_ends _ _ _ _ read_stream_c_frame_shrinks returns); [|lia].
  intros n r' res. unfold reader_turn.
  destruct (read_stream_c_frame r') as [[ev|[]| |] r1] eqn:E.
  all: try (destruct (accept n); naive_solver).
  all: try (destruct (starts_with _ _); naive_solver).
  all: exfalso; revert E; unfold read_stream_c_frame; shrink_cases; try done.
  all: match goal with |- context [decode_slice ?l] =>
         pose proof (decode_slice_safe l); by destruct (decode_slice l) end.
Qed.

Lemma stream_c_reader_total_witness :
  returns (snd (read_stream_c_loop (λ _, true) (mkRecv (replicate 40 xff) OtherIo))).
Proof. exact (stream_c_reader_total (λ _, true) (mkRecv (replicate 40 xff) OtherIo)). Defined.

(** What a handshake needs to succeed, on either side. *)
Definition hello_conditions (env : HelloEnv) : Prop :=
  is_Some (he_stream env) ∧ he_elapsed env = false ∧
  he_write_len env = true ∧ he_write_body env = true ∧
  ∃ commit, fst (read_hello_frame (he_recv env)) = Ok (ProtoEvent.Hello PROTOCOL_MAGIC commit).

(** What it leaves behind: the flag, the send half kept for control frames, the
    receive half in the cache for the read loop, the connection open. *)
Definition hello_done (env : HelloEnv) (p p' : Peer) : Prop :=
  hello_ok p' = true ∧ cached_send_a p' = he_stream env ∧ closed p' = closed p ∧
  ∃ recv, stream_a_cache p' = Some (mkPair None (Some recv)) ∧
    recv = snd (read_hello_frame (he_recv env)).

(** A handshake that is refused changes nothing but the close reason. *)
Definition hello_refused (p p' : Peer) : Prop :=
  hello_ok p' = hello_ok p ∧ cached_send_a p' = cached_send_a p ∧
  stream_a_cache p' = stream_a_cache p.

Definition hello_result (env : HelloEnv) (p : Peer) (rp : outcome Error unit * Peer) : Prop :=
  (fst rp = Ok tt ∧ hello_conditions env ∧ hello_done env p (snd rp)) ∨
  (fst rp ≠ Ok tt ∧ ¬ hello_conditions env ∧ hello_refused p (snd rp)).

Lemma check_hello_result what env event p send recv :
  he_stream env = Some send → he_elapsed env = false →
  he_write_len env = true → he_write_body env = true →
  read_hello_frame (he_recv env) = (Ok event, recv) →
  hello_result env p (check_hello what event p (finish_hello send recv p)).
Proof.
  intros Hs He Hl Hb Hr. unfold check_hello.
  destruct event as [| | | | | |magic c| | | | | | |].
  7: case_decide as Hm.
  7: { left. subst magic. split_and!; [done| |].
       - unfold hello_conditions. rewrite Hs, Hr. split_and!; eauto.
       - unfold hello_done. cbn. rewrite Hr, Hs. split_and!; eauto. }
  all: right; split_and!; [done| |done];
    intros (_ & _ & _ & _ & commit & Hc); rewrite Hr in Hc; cbn in Hc; congruence.
Qed.

(** C37. The handshake of the dialing side succeeds exactly when the stream
    opens, the timer does not fire, both writes succeed and the peer answers
    with a Hello that carries the protocol magic; then the session is marked
    and keeps both halves of stream A.  Otherwise the session is not marked.
    A frame that cannot be read or decoded leaves the connection open. *)
Theorem client_hello_spec commit env p :
  length commit = 8 →
  hello_result env p (snd (client_hello commit env p)) ∧
  (∀ e, fst (read_hello_frame (he_recv env)) = Err e → he_elapsed env = false →
     closed (snd (snd (client_hello commit env p))) = closed p).
Proof.
  intros Hc. unfold client_hello.
  assert (∀ q : outcome Error unit, q ≠ Ok tt → ¬ hello_conditions env →
    hello_result env p (q, p)) as Hbad by (intros; by right).
  destruct (he_stream env) as [send|] eqn:Hs.
  2: { split; [|done]. apply Hbad; [done|]. intros ([] & _). congruence. }
  destruct (he_write_len env) eqn:Hl, (he_write_body env) eqn:Hb;
    [rewrite write_hello_ok by done|..];
    [|unfold write_hello_frame; destruct (encode_take _ (hello_wf commit Hc)) as (buf & -> & _);
      rewrite Hl, ?Hb..].
  all: destruct (he_elapsed env) eqn:He;
    [split; [right; split_and!; [done| |done]; intros (_ & ? & _); congruence|done]|].
  2-4: split; [apply Hbad; [done|]; intros (_ & _ & ? & ? & _); congruence|done].
  destruct (read_hello_frame (he_recv env)) as [[event|e| |] recv] eqn:Hr.
  all: try (split; [apply Hbad; [done|]; intros (_ & _ & _ & _ & c & Hc'); rewrite Hr in Hc';
    cbn in Hc'; congruence|done]).
  split; [by apply check_hello_result|done].
Qed.

Definition quiet_env (bytes : list byte) : HelloEnv :=
  mkHelloEnv (Some 0) true true false (mkRecv bytes UnexpectedEof).

(** A peer that answers with an unknown event type: an error, and no close. *)
Lemma client_hello_spec_witness :
  closed (snd (snd (client_hello (replicate 8 x61)
    (quiet_env (frame_of [xff])) from_connection))) = None.
Proof.
  exact (proj2 (client_hello_spec (replicate 8 x61) (quiet_env (frame_of [xff]))
    from_connection eq_refl) (HelloFailed "decode Hello frame: ") eq_refl eq_refl).
Defined.

(** Two builds of the program agree: when the network works, the server
    accepts what the client writes, the client accepts the server's echo, and
    both sessions end marked and open. *)
Theorem handshake_agrees cc sc ce se pc ps :
  length cc = 8 → length sc = 8 →
  is_Some (he_stream ce) → is_Some (he_stream se) →
  he_elapsed ce = false → he_elapsed se = false →
  he_write_len ce = true → he_write_body ce = true →
  he_write_len se = true → he_write_body se = true →
  r_bytes (he_recv se) = fst (client_hello cc ce pc) →
  r_bytes (he_recv ce) = fst (server_hello sc se ps) →
  (fst (snd (client_hello cc ce pc)) = Ok tt ∧
   hello_done ce pc (snd (snd (client_hello cc ce pc)))) ∧
  (fst (snd (server_hello sc se ps)) = Ok tt ∧
   hello_done se ps (snd (snd (server_hello sc se ps)))).
Proof.
  intros Hcc Hsc [cs Hcs] [ss Hss] Hec Hes Hl1 Hb1 Hl2 Hb2 Hrs Hrc.
  assert (∀ env commit tl, length commit = 8 →
    r_bytes (he_recv env) = frame_of (Fixed.type_byte (ProtoEvent.hello commit) ::
               Fixed.body (ProtoEvent.hello commit)) ++ tl →
    read_hello_frame (he_recv env) =
      (Ok (ProtoEvent.hello commit), mkRecv tl (r_end (he_recv env)))) as Hread.
  { intros env commit tl Hcm Hr. destruct (he_recv env) as [bs ending]. cbn in Hr. subst bs.
    rewrite read_hello_frame_body by by apply fixed_frame_short, hello_wf.
    by rewrite decode_padded by by apply hello_wf. }
  assert (fst (client_hello cc ce pc) = frame_of (Fixed.type_byte (ProtoEvent.hello cc) ::
               Fixed.body (ProtoEvent.hello cc))) as Hout.
  { unfold client_hello. rewrite Hcs, write_hello_ok, Hec by done.
    by destruct (read_hello_frame (he_recv ce)) as [[]]. }
  rewrite Hout, <- (app_nil_r (frame_of _)) in Hrs. apply Hread in Hrs; [|done].
  assert (server_hello sc se ps = (frame_of (Fixed.type_byte (ProtoEvent.hello sc) ::
               Fixed.body (ProtoEvent.hello sc)),
            check_hello "frame" (ProtoEvent.hello cc) ps
              (finish_hello ss (mkRecv [] (r_end (he_recv se))) ps))) as Hserver.
  { unfold server_hello. by rewrite Hss, Hes, Hrs, write_hello_ok. }
  rewrite Hserver in *. rewrite <- (app_nil_r (frame_of _)) in Hrc. cbn [fst] in Hrc.
  apply Hread in Hrc; [|done].
  unfold client_hello. rewrite Hcs, Hec, write_hello_ok, Hrc by done.
  pose proof (check_hello_result "response" ce _ pc cs _ Hcs Hec Hl1 Hb1 Hrc) as [Hr1|Hr1].
  2: by destruct Hr1.
  pose proof (check_hello_result "frame" se _ ps ss _ Hss Hes Hl2 Hb2 Hrs) as [Hr2|Hr2].
  2: by destruct Hr2.
  cbn [snd fst]. naive_solver.
Qed.

Lemma handshake_agrees_witness :
  let cc := replicate 8 x61 in let sc := replicate 8 x62 in
  let se := quiet_env (fst (client_hello cc (quiet_env []) from_connection)) in
  let ce := quiet_env (fst (server_hello sc se from_connection)) in
  fst (snd (client_hello cc ce from_connection)) = Ok tt.
Proof.
  intros cc sc se ce.
  exact (proj1 (proj1 (handshake_agrees cc sc ce se from_connection from_connection
    eq_refl eq_refl (ex_intro _ 0 eq_refl) (ex_intro _ 0 eq_refl) eq_refl eq_refl eq_refl eq_refl
    eq_refl eq_refl ltac:(by vm_compute) ltac:(by vm_compute)))).
Defined.

(** The datagram reader forwards, in order, the events of the datagrams it
    can decode while the queue has room, and skips the others; the first
    datagram of 21 bytes whose type byte names a clipboard event panics the
    task, and nothing after it is read. *)
Theorem datagram_reader_spec n ds :
  (∀ d, d ∈ ds → length d = MAX_EVENT_SIZE → Fixed.decode d ≠ Panic) →
  datagram_reader_task (λ _, QueueOk) n ds =
    (omap (λ d, if decide (length d = MAX_EVENT_SIZE)
                then match Fixed.decode d with Ok e => Some (DatagramEvent e) | _ => None end
                else None) ds, Ok tt) ∧
  (∀ body rest, length body = 20 →
     datagram_reader_task (λ _, QueueOk) n (ds ++ (x0c :: body) :: rest) =
       (fst (datagram_reader_task (λ _, QueueOk) n ds), Panic)).
Proof.
  revert n. induction ds as [|d ds IH]; intros n Hd.
  - split; [done|]. intros body rest Hb.
    assert (Fixed.decode (x0c :: body) = Panic) as Hp
      by apply (fixed_decode_cases x0c body ltac:(lia)).
    cbn -[decide Fixed.decode MAX_EVENT_SIZE].
    case_decide as Hl; [by rewrite Hp|]. destruct Hl. by rewrite Hb.
  - assert (∀ n, _) as IH' by (intros m; apply (IH m); intros; apply Hd; set_solver).
    cbn -[decide Fixed.decode MAX_EVENT_SIZE].
    case_decide as Hl; [|apply IH'].
    assert (Fixed.decode d ≠ Panic) as Hp by (apply Hd; set_solver).
    assert (Fixed.decode d ≠ Diverge) as Hdiv.
    { destruct d as [|b0 d]; [done|]. cbn in Hl.
      pose proof (fixed_decode_cases b0 d ltac:(lia)) as Hc.
      intros E. rewrite E in Hc. by repeat case_match. }
    destruct (Fixed.decode d) as [e|err| |]; try done; try apply IH'.
    destruct (IH' (S n)) as [H1 H2]. split.
    + by rewrite H1.
    + intros body rest Hb. rewrite (H2 body rest Hb). by destruct (datagram_reader_task _ _ ds).
Qed.

Lemma datagram_reader_spec_witness :
  datagram_reader_task (λ _, QueueOk) 0 ([x06 :: replicate 20 x00] ++
    (x0c :: replicate 20 x00) :: [x06 :: replicate 20 x00]) =
  ([DatagramEvent ProtoEvent.Ping], Panic).
Proof.
  refine (proj2 (datagram_reader_spec 0 [x06 :: replicate 20 x00] _) (replicate 20 x00)
    [x06 :: replicate 20 x00] eq_refl).
  intros d Hd _. apply list_elem_of_singleton in Hd. subst d. by vm_compute.
Defined.
