(* ===== verification/Caches.v ===== *)
(** The content-addressed byte caches (src/clipboard/cache.rs and
    src/clipboard/file_cache.rs) and the loopback fingerprints
    (src/service.rs, [LruFingerprints]).  The two caches share one structure,
    modelled once in [ByteCache]; instants and durations are [Z]. *)

From S2P Require Import Prelude.

(** [Instant::duration_since]: zero when the instant lies in the future. *)
Definition duration_since (now t : Z) : Z := Z.max 0 (now - t).

Abbreviation key := (list byte).

(** * The common structure *)

Module ByteCache.

Record CacheEntry : Type := mkEntry { ce_bytes : list byte; ce_inserted_at : Z }.

Record ByteCache : Type := mkCache {
  byte_budget : Z;
  ttl : Z;
  entries : gmap key CacheEntry;
  lru : list key;
  bytes_used : Z
}.

Definition size_of (e : CacheEntry) : Z := Z.of_nat (length (ce_bytes e)).

Definition with_byte_budget_and_ttl (budget ttl : Z) : ByteCache :=
  mkCache budget ttl ∅ [] 0.

(** [while self.bytes_used > self.byte_budget]: pop the front of [lru] and drop
    its entry if it still has one. *)
Fixpoint evict (budget : Z) (lru : list key) (entries : gmap key CacheEntry) (used : Z)
    : list key * gmap key CacheEntry * Z :=
  if (used <=? budget)%Z then (lru, entries, used)
  else match lru with
       | [] => ([], entries, used)
       | oldest :: lru =>
           match entries !! oldest with
           | Some removed => evict budget lru (delete oldest entries) (used - size_of removed)
           | None => evict budget lru entries used
           end
       end.

(** [insert]: the previous bytes of the key, and the cache after it. *)
Definition insert (now : Z) (sha256 : key) (bytes : list byte) (c : ByteCache)
    : option (list byte) * ByteCache :=
  let new_size := Z.of_nat (length bytes) in
  if (byte_budget c <? new_size)%Z then (None, c)
  else
    let previous_entry := entries c !! sha256 in
    let entries1 := <[sha256 := mkEntry bytes now]> (entries c) in
    let '(used1, lru1) :=
      match previous_entry with
      | Some prev => (bytes_used c - size_of prev, lru c)%Z
      | None => (bytes_used c, lru c ++ [sha256])
      end in
    let '(lru2, entries2, used2) :=
      evict (byte_budget c) lru1 entries1 (used1 + new_size) in
    (ce_bytes <$> previous_entry, mkCache (byte_budget c) (ttl c) entries2 lru2 used2).

(** [lookup], with lazy eviction of an expired entry. *)
Definition lookup (now : Z) (sha256 : key) (c : ByteCache) : option (list byte) * ByteCache :=
  match entries c !! sha256 with
  | Some entry =>
      if (duration_since now (ce_inserted_at entry) <? ttl c)%Z
      then (Some (ce_bytes entry), c)
      else (None, mkCache (byte_budget c) (ttl c) (delete sha256 (entries c)) (lru c)
                    (bytes_used c - size_of entry))
  | None => (None, c)
  end.

Definition remove (sha256 : key) (c : ByteCache) : bool * ByteCache :=
  match entries c !! sha256 with
  | Some entry =>
      (true, mkCache (byte_budget c) (ttl c) (delete sha256 (entries c)) (lru c)
               (bytes_used c - size_of entry))
  | None => (false, c)
  end.

(** ** Accounting *)

Definition total (m : gmap key CacheEntry) : Z :=
  map_fold (λ _ e acc, size_of e + acc)%Z 0%Z m.

Lemma total_insert k e m :
  m !! k = None → total (<[k := e]> m) = (size_of e + total m)%Z.
Proof.
  intros Hk. unfold total. rewrite map_fold_insert_L; [done| |done].
  intros. lia.
Qed.

Lemma total_delete k e m : m !! k = Some e → total (delete k m) = (total m - size_of e)%Z.
Proof.
  intros Hk. rewrite <- (insert_delete_id m k e Hk) at 2.
  rewrite total_insert by apply lookup_delete_eq. lia.
Qed.

Lemma total_replace k e e' m :
  m !! k = Some e → total (<[k := e']> m) = (total m - size_of e + size_of e')%Z.
Proof.
  intros Hk. rewrite <- insert_delete_eq, total_insert by apply lookup_delete_eq.
  rewrite (total_delete k e) by done. lia.
Qed.

Lemma total_nonneg m : (0 ≤ total m)%Z.
Proof.
  induction m as [|k e m Hk IH] using map_ind; [done|].
  rewrite total_insert by done. unfold size_of. lia.
Qed.

Lemma total_lookup k e m : m !! k = Some e → (size_of e ≤ total m)%Z.
Proof.
  intros Hk. pose proof (total_nonneg (delete k m)). rewrite (total_delete k e) in H by done.
  lia.
Qed.

(** The eviction loop keeps the accounting exact, keeps every cached key in the
    deque, only removes entries, and ends within the budget. *)
Lemma evict_spec budget l m used l' m' used' :
  evict budget l m used = (l', m', used') →
  used = total m → (∀ k, is_Some (m !! k) → k ∈ l) → (0 ≤ budget)%Z →
  used' = total m' ∧ (∀ k, is_Some (m' !! k) → k ∈ l') ∧ m' ⊆ m ∧ (used' ≤ budget)%Z.
Proof.
  revert m used. induction l as [|o l IH]; intros m used He Hu Hl Hb; cbn in He.
  - assert (m = ∅) as ->.
    { apply map_empty. intros k. destruct (m !! k) eqn:E; [|done].
      destruct (not_elem_of_nil k). apply Hl. by eexists. }
    rewrite Hu in He. cbn in He. case_match; simplify_eq; cbn; naive_solver lia.
  - destruct (Z.leb_spec used budget); [naive_solver|].
    destruct (m !! o) as [e|] eqn:Eo.
    + apply IH in He as (? & ? & Hsub & ?); [..|done].
      * split_and!; try done. etrans; [done|]. apply delete_subseteq.
      * rewrite (total_delete o e) by done. lia.
      * intros k Hk. destruct (decide (k = o)) as [->|Hne].
        { rewrite lookup_delete_eq in Hk. by destruct Hk. }
        rewrite lookup_delete_ne in Hk by done. apply Hl in Hk. set_solver.
    + apply IH in He; try done. intros k Hk. destruct (decide (k = o)) as [->|Hne].
      { rewrite Eo in Hk. by destruct Hk. }
      apply Hl in Hk. set_solver.
Qed.

(** The invariant of a cache: the counter is the sum of the cached sizes, every
    cached key is in the deque, and the budget holds. *)
Definition inv (c : ByteCache) : Prop :=
  bytes_used c = total (entries c) ∧
  (∀ k, is_Some (entries c !! k) → k ∈ lru c) ∧
  (0 ≤ byte_budget c)%Z ∧ (bytes_used c ≤ byte_budget c)%Z.

Lemma inv_new budget t : (0 ≤ budget)%Z → inv (with_byte_budget_and_ttl budget t).
Proof.
  intros Hb. split_and!; cbn; try done. intros k [? Hk]. by rewrite lookup_empty in Hk.
Qed.

Lemma inv_insert now k bytes c : inv c → inv (snd (insert now k bytes c)).
Proof.
  intros (Hu & Hl & Hb & Hle). unfold insert. case_match; [done|].
  set (e := mkEntry bytes now).
  destruct (entries c !! k) as [prev|] eqn:Ek.
  all: destruct (evict _ _ _ _) as [[l2 m2] u2] eqn:He; cbn.
  all: apply evict_spec in He as (? & ? & ? & ?);
    [unfold inv; cbn; naive_solver| | |done].
  - rewrite (total_replace k prev) by done. unfold size_of; cbn. lia.
  - intros k' Hk'. apply Hl. destruct (decide (k' = k)) as [->|]; [by eexists|].
    by rewrite lookup_insert_ne in Hk'.
  - rewrite total_insert by done. unfold size_of; cbn. lia.
  - intros k' Hk'. destruct (decide (k' = k)) as [->|]; [set_solver|].
    rewrite lookup_insert_ne in Hk' by done. apply Hl in Hk'. set_solver.
Qed.

Lemma inv_delete k e c :
  inv c → entries c !! k = Some e →
  inv (mkCache (byte_budget c) (ttl c) (delete k (entries c)) (lru c) (bytes_used c - size_of e)).
Proof.
  intros (Hu & Hl & Hb & Hle) Ek. split_and!; cbn; [| |done|unfold size_of; lia].
  - rewrite (total_delete k e) by done. lia.
  - intros k' [x Hk']. apply Hl. apply lookup_delete_Some in Hk' as [_ Hk']. by eexists.
Qed.

Lemma inv_lookup now k c : inv c → inv (snd (lookup now k c)).
Proof.
  intros Hi. unfold lookup. destruct (entries c !! k) eqn:Ek; [|done].
  case_match; [done|]. by apply inv_delete.
Qed.

Lemma inv_remove k c : inv c → inv (snd (remove k c)).
Proof.
  intros Hi. unfold remove. destruct (entries c !! k) eqn:Ek; [|done]. by apply inv_delete.
Qed.

(** ** A fresh insert *)

(** A key that stands only at the back of the deque is evicted last, and by
    then the budget holds. *)
Lemma evict_keeps_last budget l m used k e :
  m !! k = Some e → k ∉ l → used = total m → (size_of e ≤ budget)%Z →
  (∀ k', is_Some (m !! k') → k' ∈ l ++ [k]) →
  let '(_, m', _) := evict budget (l ++ [k]) m used in m' !! k = Some e.
Proof.
  revert m used. induction l as [|o l IH]; intros m used Hk Hn Hu Hs Hd; cbn.
  - assert (total m = size_of e) as Ht.
    { assert (m = {[k := e]}) as ->.
      { apply map_eq. intros k'. destruct (decide (k' = k)) as [->|Hne].
        { by rewrite lookup_singleton_eq. }
        rewrite lookup_singleton_ne by done. destruct (m !! k') eqn:E; [|done].
        destruct Hne. apply list_elem_of_singleton, Hd. by eexists. }
      rewrite <- insert_empty, total_insert by apply lookup_empty. change (total ∅) with 0%Z. lia. }
    destruct (Z.leb_spec used budget); [done|lia].
  - destruct (Z.leb_spec used budget); [done|]. apply not_elem_of_cons in Hn as [Hne Hn].
    destruct (m !! o) as [eo|] eqn:Eo.
    + apply IH; try done.
      * by rewrite lookup_delete_ne.
      * rewrite (total_delete o eo) by done. lia.
      * intros k' [x Hk']. apply lookup_delete_Some in Hk' as [? Hk'].
        specialize (Hd k' ltac:(by eexists)). set_solver.
    + apply IH; try done. intros k' Hk'. specialize (Hd k' Hk').
      destruct Hk' as [x Hx]. assert (k' ≠ o) by congruence. set_solver.
Qed.
End ByteCache.

(** * The two caches *)

Module ClipboardCache.
Definition CLIPBOARD_CACHE_BYTE_BUDGET : Z := 200 * 1024 * 1024.
(** Durations are in nanoseconds. *)
Definition CLIPBOARD_CACHE_TTL : Z := 5 * 60 * 1000000000.
Abbreviation t := ByteCache.ByteCache.
Definition new : t :=
  ByteCache.with_byte_budget_and_ttl CLIPBOARD_CACHE_BYTE_BUDGET CLIPBOARD_CACHE_TTL.
Definition insert (now : Z) (sha256 : key) (bytes : list byte) (c : t)
    : option (list byte) * t := ByteCache.insert now sha256 bytes c.
Definition lookup (now : Z) (sha256 : key) (c : t) : option (list byte) * t :=
  ByteCache.lookup now sha256 c.
Definition remove (sha256 : key) (c : t) : bool * t := ByteCache.remove sha256 c.
Definition bytes (c : t) : Z := ByteCache.bytes_used c.
End ClipboardCache.

Module FileCache.
Definition FILE_CACHE_BYTE_BUDGET : Z := 1024 * 1024 * 1024.
Definition FILE_CACHE_TTL : Z := 5 * 60 * 1000000000.
Abbreviation t := ByteCache.ByteCache.
Definition new : t :=
  ByteCache.with_byte_budget_and_ttl FILE_CACHE_BYTE_BUDGET FILE_CACHE_TTL.
(** The variant that returns nothing. *)
Definition insert_owned (now : Z) (sha256 : key) (bytes : list byte) (c : t) : t :=
  snd (ByteCache.insert now sha256 bytes c).
Definition insert_returning_prev (now : Z) (sha256 : key) (bytes : list byte) (c : t)
    : option (list byte) * t := ByteCache.insert now sha256 bytes c.
Definition lookup (now : Z) (sha256 : key) (c : t) : option (list byte) * t :=
  ByteCache.lookup now sha256 c.
Definition remove (sha256 : key) (c : t) : bool * t := ByteCache.remove sha256 c.
Definition bytes (c : t) : Z := ByteCache.bytes_used c.
End FileCache.

(** The operations the program performs on a cache, in any order and at any
    instants. *)
Inductive cache_op : Type :=
| OpInsert (now : Z) (sha256 : key) (bytes : list byte)
| OpLookup (now : Z) (sha256 : key)
| OpRemove (sha256 : key).

Definition clipboard_step (c : ByteCache.ByteCache) (o : cache_op) : ByteCache.ByteCache :=
  match o with
  | OpInsert now k bs => snd (ClipboardCache.insert now k bs c)
  | OpLookup now k => snd (ClipboardCache.lookup now k c)
  | OpRemove k => snd (ClipboardCache.remove k c)
  end.
Definition file_step (c : ByteCache.ByteCache) (o : cache_op) : ByteCache.ByteCache :=
  match o with
  | OpInsert now k bs => FileCache.insert_owned now k bs c
  | OpLookup now k => snd (FileCache.lookup now k c)
  | OpRemove k => snd (FileCache.remove k c)
  end.

Lemma step_inv o c : ByteCache.inv c →
  ByteCache.inv (clipboard_step c o) ∧ ByteCache.inv (file_step c o).
Proof.
  destruct o; cbn; split;
    by (apply ByteCache.inv_insert || apply ByteCache.inv_lookup || apply ByteCache.inv_remove).
Qed.

Lemma foldl_inv (step : ByteCache.ByteCache → cache_op → ByteCache.ByteCache) ops c :
  (∀ o c, ByteCache.inv c → ByteCache.inv (step c o)) →
  ByteCache.inv c → ByteCache.inv (foldl step c ops).
Proof. intros Hs. revert c. induction ops as [|o ops IH]; intros c Hc; cbn; auto. Qed.

Lemma foldl_budget (step : ByteCache.ByteCache → cache_op → ByteCache.ByteCache) ops c :
  (∀ o c, ByteCache.byte_budget (step c o) = ByteCache.byte_budget c) →
  ByteCache.byte_budget (foldl step c ops) = ByteCache.byte_budget c.
Proof.
  intros Hs. revert c. induction ops as [|o ops IH]; intros c; cbn; [done|].
  by rewrite IH, Hs.
Qed.

Lemma step_budget o c :
  ByteCache.byte_budget (clipboard_step c o) = ByteCache.byte_budget c ∧
  ByteCache.byte_budget (file_step c o) = ByteCache.byte_budget c.
Proof.
  assert (∀ now k bs, ByteCache.byte_budget (snd (ByteCache.insert now k bs c)) =
    ByteCache.byte_budget c) as Hi.
  { intros. unfold ByteCache.insert. repeat case_match; by simplify_eq/=. }
  destruct o; cbn; [by split; apply Hi|..]; unfold ClipboardCache.lookup, FileCache.lookup,
    ClipboardCache.remove, FileCache.remove, ByteCache.lookup, ByteCache.remove;
    repeat case_match; done.
Qed.

(** Whatever sequence of inserts, lookups and removals runs, the byte
    counter of a cache is exactly the sum of the sizes it holds (so its
    unsigned subtractions never underflow) and stays within the budget: 200
    MiB for the clipboard cache, 1 GiB for the file cache. *)
Theorem caches_bounded ops :
  let c := foldl clipboard_step ClipboardCache.new ops in
  let f := foldl file_step FileCache.new ops in
  (ClipboardCache.bytes c = ByteCache.total (ByteCache.entries c) ∧
   0 ≤ ClipboardCache.bytes c ≤ ClipboardCache.CLIPBOARD_CACHE_BYTE_BUDGET ∧
   FileCache.bytes f = ByteCache.total (ByteCache.entries f) ∧
   0 ≤ FileCache.bytes f ≤ FileCache.FILE_CACHE_BYTE_BUDGET)%Z.
Proof.
  intros c f.
  assert (ByteCache.inv c) as (Hc1 & _ & _ & Hc2).
  { apply foldl_inv; [intros o c' H; apply (step_inv o c' H)|by apply ByteCache.inv_new]. }
  assert (ByteCache.inv f) as (Hf1 & _ & _ & Hf2).
  { apply foldl_inv; [intros o c' H; apply (step_inv o c' H)|by apply ByteCache.inv_new]. }
  unfold c in Hc2. rewrite foldl_budget in Hc2 by (intros; apply step_budget).
  unfold f in Hf2. rewrite foldl_budget in Hf2 by (intros; apply step_budget).
  unfold ClipboardCache.bytes, FileCache.bytes. fold c in Hc2. fold f in Hf2.
  pose proof (ByteCache.total_nonneg (ByteCache.entries c)).
  pose proof (ByteCache.total_nonneg (ByteCache.entries f)).
  cbn in Hc2, Hf2. unfold ClipboardCache.CLIPBOARD_CACHE_BYTE_BUDGET,
    FileCache.FILE_CACHE_BYTE_BUDGET in *. lia.
Qed.

(** A payload inserted under a key that the deque does not mention, and
    that fits the budget, is cached: until it expires, and whatever was
    evicted to make room, a lookup returns its bytes. *)
Theorem insert_then_lookup now now' k bytes c :
  ByteCache.inv c → k ∉ ByteCache.lru c →
  (Z.of_nat (length bytes) ≤ ByteCache.byte_budget c)%Z →
  (duration_since now' now < ByteCache.ttl c)%Z →
  fst (ClipboardCache.insert now k bytes c) = None ∧
  fst (ClipboardCache.lookup now' k (snd (ClipboardCache.insert now k bytes c))) = Some bytes.
Proof.
  intros (Hu & Hl & Hb & Hle) Hk Hsize Httl.
  assert (ByteCache.entries c !! k = None) as Hnone.
  { destruct (ByteCache.entries c !! k) eqn:E; [|done]. destruct Hk. apply Hl. by eexists. }
  unfold ClipboardCache.insert, ClipboardCache.lookup, ByteCache.insert. rewrite Hnone.
  destruct (Z.ltb_spec (ByteCache.byte_budget c) (Z.of_nat (length bytes))); [lia|].
  set (e := ByteCache.mkEntry bytes now).
  pose proof (ByteCache.evict_keeps_last (ByteCache.byte_budget c) (ByteCache.lru c)
    (<[k:=e]> (ByteCache.entries c))
    (ByteCache.bytes_used c + Z.of_nat (length bytes)) k e) as Hkeep.
  destruct (ByteCache.evict _ _ _ _) as [[l2 m2] u2]. split; [done|]. cbn.
  unfold ByteCache.lookup. cbn. rewrite Hkeep; cycle 1.
  - by rewrite lookup_insert_eq.
  - done.
  - rewrite ByteCache.total_insert by done. unfold ByteCache.size_of; cbn. lia.
  - done.
  - intros k' Hk'. destruct (decide (k' = k)) as [->|]; [set_solver|].
    rewrite lookup_insert_ne in Hk' by done. apply Hl in Hk'. set_solver.
  - cbn. destruct (Z.ltb_spec (duration_since now' now) (ByteCache.ttl c)); [done|lia].
Qed.

Lemma insert_then_lookup_witness :
  fst (ClipboardCache.lookup 7 [x01]
    (snd (ClipboardCache.insert 5 [x01] [x61; x62] ClipboardCache.new))) = Some [x61; x62].
Proof.
  apply (insert_then_lookup 5 7 [x01] [x61; x62] ClipboardCache.new).
  - by apply ByteCache.inv_new.
  - apply not_elem_of_nil.
  - by vm_compute.
  - by vm_compute.
Defined.

(** Reads of a cache: a hit is an entry younger than the time to live; an
    expired entry is gone after the read that finds it; a removed key misses
    at every later instant (the sender's eviction before a new push). *)
Theorem lookup_spec now k c :
  let '(r, c') := FileCache.lookup now k c in
  (∀ bs, r = Some bs ↔ ∃ e, ByteCache.entries c !! k = Some e ∧ ByteCache.ce_bytes e = bs ∧
     (duration_since now (ByteCache.ce_inserted_at e) < ByteCache.ttl c)%Z) ∧
  (is_Some r → c' = c) ∧
  (r = None → ByteCache.entries c' = delete k (ByteCache.entries c)) ∧
  (∀ now', fst (FileCache.lookup now' k (snd (FileCache.remove k c))) = None).
Proof.
  unfold FileCache.lookup, FileCache.remove, ByteCache.lookup, ByteCache.remove.
  destruct (ByteCache.entries c !! k) as [e|] eqn:Ek.
  - destruct (Z.ltb_spec (duration_since now (ByteCache.ce_inserted_at e)) (ByteCache.ttl c));
      split_and!; try done; cbn; try (intros; by rewrite lookup_delete_eq).
    + intros bs. naive_solver.
    + intros bs. split; [done|]. intros (e' & [= <-] & _ & ?). lia.
  - split_and!; [naive_solver|by intros []| |].
    + intros _. by rewrite delete_id.
    + intros now'. cbn. by rewrite Ek.
Qed.

(** The deque keeps the keys of removed entries, so it is not the insertion
    order of the cache.  A payload inserted again after its removal can be
    evicted by its own insertion although it fits the budget; and the deque
    grows without bound under insert-remove pairs while the cache is empty. *)
Theorem stale_keys_misorder :
  (∃ budget k1 k2 b1 b2,
    let c0 := ByteCache.with_byte_budget_and_ttl budget 100 in
    let c1 := foldl clipboard_step c0 [OpInsert 0 k1 b1; OpRemove k1; OpInsert 1 k2 b2] in
    (Z.of_nat (length b1) ≤ budget)%Z ∧
    fst (ClipboardCache.lookup 2 k1 (snd (ClipboardCache.insert 2 k1 b1 c1))) = None ∧
    fst (ClipboardCache.lookup 2 k2 (snd (ClipboardCache.insert 2 k1 b1 c1))) = Some b2) ∧
  (∀ n, let c := foldl clipboard_step ClipboardCache.new
          (concat (replicate n [OpInsert 0 [x01] [x61]; OpRemove [x01]])) in
    ByteCache.entries c = ∅ ∧ length (ByteCache.lru c) = n).
Proof.
  split.
  - exists 10%Z, [x01], [x02], (replicate 6 x61), (replicate 6 x62). by vm_compute.
  - assert (∀ n l, foldl clipboard_step (ByteCache.mkCache
        ClipboardCache.CLIPBOARD_CACHE_BYTE_BUDGET ClipboardCache.CLIPBOARD_CACHE_TTL ∅ l 0)
        (concat (replicate n [OpInsert 0 [x01] [x61]; OpRemove [x01]])) =
      ByteCache.mkCache ClipboardCache.CLIPBOARD_CACHE_BYTE_BUDGET
        ClipboardCache.CLIPBOARD_CACHE_TTL ∅ (l ++ replicate n [x01]) 0) as Hgen.
    { induction n as [|n IH]; intros l; [by rewrite app_nil_r|].
      change (concat (replicate (S n) ?x)) with (x ++ concat (replicate n x)).
      rewrite foldl_app.
      assert (foldl clipboard_step (ByteCache.mkCache
        ClipboardCache.CLIPBOARD_CACHE_BYTE_BUDGET ClipboardCache.CLIPBOARD_CACHE_TTL ∅ l 0)
        [OpInsert 0 [x01] [x61]; OpRemove [x01]] = ByteCache.mkCache
        ClipboardCache.CLIPBOARD_CACHE_BYTE_BUDGET ClipboardCache.CLIPBOARD_CACHE_TTL ∅
        (l ++ [[x01]]) 0) as ->.
      { by destruct l. }
      by rewrite IH, <- app_assoc. }
    intros n c. unfold c, ClipboardCache.new, ByteCache.with_byte_budget_and_ttl.
    rewrite Hgen. split; [done|]. apply length_replicate.
Qed.

(** * Loopback fingerprints *)

Module Loopback.

Record LruFingerprints : Type := mkLru {
  capacity : nat;
  ttl : Z;
  items : list (Z * key)
}.

Definition IMAGE_LOOPBACK_CAPACITY : nat := 32.
Definition FILE_LOOPBACK_CAPACITY : nat := 64.
Definition DEFAULT_CAPACITY : nat := 128.
Definition DEFAULT_TTL : Z := 60 * 1000000000.

Definition with_capacity_and_ttl (capacity : nat) (ttl : Z) : LruFingerprints :=
  mkLru capacity ttl [].
Definition new : LruFingerprints := with_capacity_and_ttl DEFAULT_CAPACITY DEFAULT_TTL.

(** The loop of [contains]: pop expired items off the front. *)
Fixpoint drop_expired (now ttl : Z) (items : list (Z * key)) : list (Z * key) :=
  match items with
  | (ts, fp) :: rest =>
      if (ttl <=? duration_since now ts)%Z then drop_expired now ttl rest else items
  | [] => []
  end.

Definition contains (now : Z) (fp : key) (l : LruFingerprints) : bool * LruFingerprints :=
  let items := drop_expired now (ttl l) (items l) in
  (existsb (λ it, bool_decide (snd it = fp)) items, mkLru (capacity l) (ttl l) items).

Definition push (now : Z) (fp : key) (l : LruFingerprints) : LruFingerprints :=
  let items1 := if decide (capacity l ≤ length (items l)) then drop 1 (items l) else items l in
  mkLru (capacity l) (ttl l) (items1 ++ [(now, fp)]).

Definition mark_local_write := push.

(** What the daemon does with the fingerprints while time passes. *)
Inductive op : Type := Push (now : Z) (fp : key) | Contains (now : Z) (fp : key).
Definition op_time (o : op) : Z := match o with Push t _ | Contains t _ => t end.
Definition is_push (o : op) : bool := match o with Push _ _ => true | _ => false end.
Definition step (l : LruFingerprints) (o : op) : LruFingerprints :=
  match o with
  | Push now fp => push now fp l
  | Contains now fp => snd (contains now fp l)
  end.

(** The item pushed at [t] is present, with [n] items behind it. *)
Definition holds (t : Z) (fp : key) (n : nat) (l : LruFingerprints) : Prop :=
  ∃ pre post, items l = pre ++ (t, fp) :: post ∧ length post = n.

Lemma drop_expired_keeps now ttl t fp pre post :
  (duration_since now t < ttl)%Z →
  ∃ pre', drop_expired now ttl (pre ++ (t, fp) :: post) = pre' ++ (t, fp) :: post.
Proof.
  intros Ht. induction pre as [|[ts f] pre IH]; cbn.
  - exists []. destruct (Z.leb_spec ttl (duration_since now t)); [lia|done].
  - case_match; [done|]. by exists ((ts, f) :: pre).
Qed.

Lemma holds_push t fp n now f l :
  holds t fp n l → S n < capacity l → holds t fp (S n) (push now f l).
Proof.
  intros (pre & post & Hi & Hn) Hc. unfold holds, push. cbn.
  exists (if decide (capacity l ≤ length (items l)) then drop 1 pre else pre), (post ++ [(now, f)]).
  rewrite length_app, Hn. split; [|cbn; lia]. rewrite Hi. case_decide as Hd.
  - destruct pre as [|x pre]; [cbn in Hd; lia|]. cbn. by rewrite drop_0, <- app_assoc.
  - by rewrite <- app_assoc.
Qed.

Lemma holds_contains t fp n now f l :
  (duration_since now t < ttl l)%Z → holds t fp n l → holds t fp n (snd (contains now f l)).
Proof.
  intros Ht (pre & post & Hi & Hn). unfold holds, contains. cbn. rewrite Hi.
  destruct (drop_expired_keeps now (ttl l) t fp pre post Ht) as [pre' ->]. eauto.
Qed.

(** Loopback suppression: a fingerprint marked as written locally is
    recognised at every later instant within the time to live, as long as
    fewer other fingerprints than the capacity were pushed since, whatever
    lookups happened in between. *)
Theorem loopback_window t fp ops now l :
  length (filter (λ o, is_push o = true) ops) < capacity l →
  (∀ o, o ∈ ops → (duration_since (op_time o) t < ttl l)%Z) →
  (duration_since now t < ttl l)%Z →
  fst (contains now fp (foldl step (mark_local_write t fp l) ops)) = true.
Proof.
  intros Hcap Htimes Hnow.
  assert (∀ ops n l', capacity l' = capacity l → ttl l' = ttl l → holds t fp n l' →
    n + length (filter (λ o, is_push o = true) ops) < capacity l →
    (∀ o, o ∈ ops → (duration_since (op_time o) t < ttl l)%Z) →
    ∃ m, holds t fp m (foldl step l' ops) ∧ ttl (foldl step l' ops) = ttl l) as Hgen.
  { clear. induction ops as [|o ops IH]; intros n l' Hc Ht Hh Hn Htm; cbn; [eauto|].
    destruct o as [now f|now f]; cbn [foldl step].
    - rewrite filter_cons_True in Hn by done. cbn [length] in Hn.
      apply (IH (S n)); try done; [|lia|set_solver]. apply holds_push; [done|lia].
    - rewrite filter_cons_False in Hn by done.
      apply (IH n); try done; [|set_solver]. apply holds_contains; [|done].
      rewrite Ht. apply (Htm (Contains now f)). set_solver. }
  destruct (Hgen ops 0 (mark_local_write t fp l)) as (m & (pre & post & Hi & _) & Ht); try done.
  { unfold holds, mark_local_write, push. cbn. eexists _, []. done. }
  unfold contains. rewrite Hi, Ht.
  destruct (drop_expired_keeps now (ttl l) t fp pre post Hnow) as [pre' ->].
  cbn. apply existsb_exists. exists (t, fp). split; [|by apply bool_decide_eq_true].
  apply in_or_app. right. by left.
Qed.

Lemma loopback_window_witness :
  fst (contains 30 [x01] (foldl step (mark_local_write 0 [x01] new)
    [Push 10 [x02]; Contains 20 [x03]])) = true.
Proof.
  apply (loopback_window 0 [x01] [Push 10 [x02]; Contains 20 [x03]] 30 new).
  - vm_compute. lia.
  - intros o Ho. apply list_elem_of_In in Ho. cbn in Ho.
    destruct Ho as [<-|[<-|[]]]; by vm_compute.
  - by vm_compute.
Defined.
End Loopback.
