(* ===== verification/Text.v ===== *)
(** The functions of Rust's [str] that the program uses on paths, queries, file
    names and fingerprints: prefixes and suffixes, splitting, decimal and
    hexadecimal numbers.  A string is its UTF-8 bytes; the separators are
    ASCII, so that splitting at a byte is splitting at the character. *)

From Stdlib Require Import Strings.Ascii.
From stdpp Require Import pretty.
From S2P Require Import Prelude.
#[local] Open Scope N_scope.

Module Str.

(** [str::strip_prefix] and [str::starts_with]. *)
Fixpoint strip_prefix (p s : string) : option string :=
  match p, s with
  | EmptyString, _ => Some s
  | String _ _, EmptyString => None
  | String x p, String y s => if decide (x = y) then strip_prefix p s else None
  end.
Definition starts_with (p s : string) : bool :=
  match strip_prefix p s with Some _ => true | None => false end.

(** [str::strip_suffix] of one character. *)
Fixpoint strip_suffix_char (c : ascii) (s : string) : option string :=
  match s with
  | EmptyString => None
  | String x EmptyString => if decide (x = c) then Some EmptyString else None
  | String x s => String x <$> strip_suffix_char c s
  end.

(** [str::split_once] at a character; [find] finds the same place. *)
Fixpoint split_once (c : ascii) (s : string) : option (string * string) :=
  match s with
  | EmptyString => None
  | String x s =>
      if decide (x = c) then Some (EmptyString, s)
      else '(a, b) ← split_once c s; Some (String x a, b)
  end.

(** [str::split] at a character: one piece more than separators. *)
Fixpoint split (c : ascii) (s : string) : list string :=
  match s with
  | EmptyString => [EmptyString]
  | String x s =>
      if decide (x = c) then EmptyString :: split c s
      else match split c s with
           | [] => [String x EmptyString]
           | piece :: pieces => String x piece :: pieces
           end
  end.

(** The character occurs nowhere in the string. *)
Fixpoint no_char (c : ascii) (s : string) : Prop :=
  match s with EmptyString => True | String x s => x ≠ c ∧ no_char c s end.

(** [s.bytes().all(p)]. *)
Fixpoint all (p : ascii → bool) (s : string) : bool :=
  match s with EmptyString => true | String x s => p x && all p s end.

(** ** Numbers *)

Definition digit (c : ascii) : option N :=
  let n := N_of_ascii c in if (48 <=? n) && (n <=? 57) then Some (n - 48) else None.

Fixpoint parse_digits (acc : N) (s : string) : option N :=
  match s with
  | EmptyString => Some acc
  | String c s => d ← digit c; parse_digits (10 * acc + d) s
  end.

(** [str::parse::<usize>] on a 64-bit machine: an optional plus sign, at least
    one digit, no overflow. *)
Definition parse_usize (s : string) : option N :=
  let s := match s with
           | String "+" (String _ _ as s) => s
           | _ => s
           end in
  match s with
  | EmptyString => None
  | _ => n ← parse_digits 0 s; if n <? 2 ^ 64 then Some n else None
  end.

(** [str::to_lowercase] on ASCII text. *)
Definition lower (c : ascii) : ascii :=
  let n := N_of_ascii c in if (65 <=? n) && (n <=? 90) then ascii_of_N (n + 32) else c.
Fixpoint to_lowercase (s : string) : string :=
  match s with EmptyString => EmptyString | String c s => String (lower c) (to_lowercase s) end.

Definition is_ascii_alphabetic (c : ascii) : bool :=
  let n := N_of_ascii c in ((65 <=? n) && (n <=? 90)) || ((97 <=? n) && (n <=? 122)).
Definition is_ascii_alphanumeric (c : ascii) : bool :=
  is_ascii_alphabetic c || bool_decide (is_Some (digit c)).
Definition is_ascii_hexdigit (c : ascii) : bool :=
  let n := N_of_ascii c in
  ((48 <=? n) && (n <=? 57)) || ((65 <=? n) && (n <=? 70)) || ((97 <=? n) && (n <=? 102)).
End Str.

(** ** Lemmas *)

#[local] Arguments String.append : simpl nomatch.

Lemma app_cons a s t : String a s +:+ t = String a (s +:+ t).
Proof. done. Qed.
Lemma app_empty_r s : s +:+ "" = s.
Proof. induction s as [|a s IH]; [done|]. by rewrite app_cons, IH. Qed.
Lemma app_assoc_str a b c : (a +:+ b) +:+ c = a +:+ b +:+ c.
Proof. induction a as [|x a IH]; [done|]. by rewrite !app_cons, IH. Qed.
Lemma length_app_str a b : String.length (a +:+ b) = (String.length a + String.length b)%nat.
Proof. induction a as [|x a IH]; [done|]. rewrite app_cons. cbn. by rewrite IH. Qed.

Lemma strip_prefix_Some p s t : Str.strip_prefix p s = Some t ↔ s = p +:+ t.
Proof.
  revert s. induction p as [|x p IH]; intros s.
  - change ("" +:+ t) with t. cbn. split; congruence.
  - rewrite app_cons. destruct s as [|y s]; cbn; [split; congruence|].
    case_decide; [rewrite IH|]; split; congruence.
Qed.
Lemma strip_prefix_app p t : Str.strip_prefix p (p +:+ t) = Some t.
Proof. by apply strip_prefix_Some. Qed.
Lemma starts_with_app p t : Str.starts_with p (p +:+ t) = true.
Proof. unfold Str.starts_with. by rewrite strip_prefix_app. Qed.
Lemma starts_with_true p s : Str.starts_with p s = true ↔ ∃ t, s = p +:+ t.
Proof.
  unfold Str.starts_with. setoid_rewrite <- strip_prefix_Some.
  destruct (Str.strip_prefix p s); split; naive_solver.
Qed.

Lemma split_once_Some c s a b :
  Str.split_once c s = Some (a, b) ↔ s = a +:+ String c b ∧ Str.no_char c a.
Proof.
  revert a. induction s as [|x s IH]; intros a; cbn.
  { split; [done|]. intros [E _]. by destruct a. }
  case_decide as Hx.
  - subst x. destruct a as [|y a]; cbn; split; naive_solver.
  - destruct a as [|y a]; cbn.
    { destruct (Str.split_once c s) as [[a' b']|]; cbn; split; naive_solver. }
    specialize (IH a). destruct (Str.split_once c s) as [[a' b']|]; cbn; naive_solver.
Qed.
Lemma split_once_app c a b : Str.no_char c a → Str.split_once c (a +:+ String c b) = Some (a, b).
Proof. intros Ha. by apply split_once_Some. Qed.
Lemma split_once_None c s : Str.split_once c s = None ↔ Str.no_char c s.
Proof.
  induction s as [|x s IH]; cbn; [done|]. case_decide; [naive_solver|].
  destruct (Str.split_once c s) as [[]|]; cbn; naive_solver.
Qed.
Lemma split_no_char c s : Str.no_char c s → Str.split c s = [s].
Proof.
  induction s as [|x s IH]; cbn; [done|]. intros [Hx Hs]. rewrite decide_False by done.
  by rewrite IH.
Qed.

Lemma strip_suffix_char_Some c s t :
  Str.strip_suffix_char c s = Some t ↔ s = t +:+ String c "".
Proof.
  revert t. induction s as [|x [|y s] IH]; intros t.
  - split; [done|]. by destruct t.
  - cbn. destruct t as [|z [|? ?]]; cbn; case_decide; naive_solver.
  - change (Str.strip_suffix_char c (String x (String y s)))
      with (String x <$> Str.strip_suffix_char c (String y s)).
    destruct (Str.strip_suffix_char c (String y s)) as [u|];
      (destruct t as [|z t]; [cbn; split; congruence|specialize (IH t)]); cbn.
    + split; [intros [= -> ->]|intros [= -> E]]; f_equal.
      * by apply IH.
      * apply IH in E. congruence.
    + split; [done|]. intros [= -> E]. apply IH in E. congruence.
Qed.

Lemma no_char_app c a b : Str.no_char c (a +:+ b) ↔ Str.no_char c a ∧ Str.no_char c b.
Proof. induction a as [|x a IH]; [naive_solver|]. rewrite app_cons. cbn. rewrite IH. tauto. Qed.
Lemma all_app p a b : Str.all p (a +:+ b) = Str.all p a && Str.all p b.
Proof. induction a as [|x a IH]; [done|]. rewrite app_cons. cbn. by rewrite IH, andb_assoc. Qed.

(** ** Numbers *)

Lemma digit_char d : d < 10 → Str.digit (pretty_N_char d) = Some d.
Proof.
  intros Hd.
  assert (d = 0 ∨ d = 1 ∨ d = 2 ∨ d = 3 ∨ d = 4 ∨ d = 5 ∨ d = 6 ∨ d = 7 ∨ d = 8 ∨ d = 9)
    as H by lia.
  repeat (destruct H as [->|H]; [done|]). by subst.
Qed.

Lemma parse_digits_go x s : Str.parse_digits 0 (pretty_N_go x s) = Str.parse_digits x s.
Proof.
  revert s. induction (N.lt_wf_0 x) as [x _ IH]; intros s.
  destruct (decide (x = 0)) as [->|Hx]; [done|].
  rewrite pretty_N_go_step by lia. rewrite IH by (apply N.div_lt; lia).
  cbn [Str.parse_digits]. rewrite digit_char by (apply N.mod_lt; lia). cbn [mbind option_bind].
  f_equal. pose proof (N.div_mod x 10). lia.
Qed.

(** What [format!("{n}")] writes, [parse] reads. *)
Lemma parse_digits_pretty n : Str.parse_digits 0 (pretty n) = Some n.
Proof.
  unfold pretty, pretty_N. case_decide as Hn; [by subst|]. by rewrite parse_digits_go.
Qed.

(** Every character of a decimal number is a digit. *)
Definition is_digit (c : ascii) : bool := bool_decide (is_Some (Str.digit c)).
Lemma parse_digits_all acc s n : Str.parse_digits acc s = Some n → Str.all is_digit s = true.
Proof.
  revert acc. induction s as [|c s IH]; intros acc; cbn; [done|]. unfold is_digit at 1.
  destruct (Str.digit c); cbn; [apply IH|done].
Qed.
Lemma all_digits_pretty (n : N) : Str.all is_digit (pretty n) = true.
Proof. eapply parse_digits_all, parse_digits_pretty. Qed.
Lemma all_digits_no_char c s : is_digit c = false → Str.all is_digit s = true → Str.no_char c s.
Proof.
  intros Hc. induction s as [|x s IH]; cbn; [done|].
  intros [Hx Hs]%andb_true_iff. split; [congruence|by apply IH].
Qed.

Lemma pretty_not_empty (n : N) : pretty n ≠ "".
Proof.
  unfold pretty, pretty_N. case_decide; [done|]. intros E.
  pose proof (parse_digits_go n "") as Hg. rewrite E in Hg. cbn in Hg. congruence.
Qed.

Lemma parse_usize_pretty n : n < 2 ^ 64 → Str.parse_usize (pretty n) = Some n.
Proof.
  intros Hn. pose proof (all_digits_pretty n) as Hd. pose proof (parse_digits_pretty n) as Hp.
  unfold Str.parse_usize. destruct (pretty n) as [|c s] eqn:E.
  { by destruct (pretty_not_empty n). }
  cbn in Hd. apply andb_true_iff in Hd as [Hc _].
  assert (c ≠ "+"%char) as Hplus by (by intros ->).
  assert (match String c s with String "+" (String _ _ as s0) => s0 | _ => String c s end
          = String c s) as ->.
  { destruct c as [[] [] [] [] [] [] [] []], s; try reflexivity; by destruct Hplus. }
  rewrite Hp. cbn. by rewrite (proj2 (N.ltb_lt _ _) Hn).
Qed.

(** A decimal number is short. *)
Lemma length_pretty_go k x s :
  x < 10 ^ N.of_nat k → (String.length (pretty_N_go x s) ≤ k + String.length s)%nat.
Proof.
  revert x s. induction k as [|k IH]; intros x s Hx.
  - apply N.lt_1_r in Hx as ->. done.
  - destruct (decide (x = 0)) as [->|Hn]; [change (pretty_N_go 0 s) with s; lia|]. rewrite pretty_N_go_step by lia.
    etrans; [apply IH|cbn [String.length]; lia].
    apply N.Div0.div_lt_upper_bound. by rewrite Nat2N.inj_succ, N.pow_succ_r in Hx by lia.
Qed.
Lemma length_pretty k (n : N) : n < 10 ^ N.of_nat (S k) → (String.length (pretty n) ≤ S k)%nat.
Proof.
  intros Hn. unfold pretty, pretty_N. case_decide; [cbn [String.length]; lia|].
  etrans; [by apply length_pretty_go|cbn [String.length]; lia].
Qed.
(** A string that ends in other characters does not end in [c]. *)
Lemma strip_suffix_char_not c s d :
  d ≠ "" → Str.no_char c d → Str.strip_suffix_char c (s +:+ d) = None.
Proof.
  intros Hd Hc. destruct (Str.strip_suffix_char c (s +:+ d)) as [t|] eqn:E; [|done]. exfalso.
  apply strip_suffix_char_Some in E. revert t E. induction s as [|x s IH]; intros t E.
  - change ("" +:+ d) with d in E. subst d. apply no_char_app in Hc as [_ [Hc _]]. done.
  - rewrite app_cons in E. destruct t as [|y t].
    + injection E as _ E. destruct s; [change ("" +:+ d) with d in E; done|done].
    + rewrite app_cons in E. injection E as _ E. by apply IH in E.
Qed.

(** ASCII strings are valid UTF-8. *)
Definition is_ascii (c : ascii) : bool := N_of_ascii c <? 128.
Lemma ascii_utf8 s : Str.all is_ascii s = true → utf8_valid (as_bytes s) = true.
Proof.
  induction s as [|c s IH]; [done|]. cbn [Str.all]. intros [Hc Hs]%andb_true_iff.
  change (as_bytes (String c s)) with (byte_of_ascii c :: as_bytes s). cbn [utf8_valid].
  replace (Z_of_byte (byte_of_ascii c)) with (Z.of_N (N_of_ascii c)).
  - apply N.ltb_lt in Hc. rewrite (proj2 (Z.ltb_lt _ _)) by lia. by apply IH.
  - unfold Z_of_byte. by destruct c as [[] [] [] [] [] [] [] []].
Qed.
Lemma all_impl (p q : ascii → bool) s :
  (∀ c, p c = true → q c = true) → Str.all p s = true → Str.all q s = true.
Proof.
  intros Hpq. induction s as [|c s IH]; [done|]. cbn. intros [Hc Hs]%andb_true_iff.
  by rewrite (Hpq c Hc), IH.
Qed.
Lemma digit_is_ascii c : is_digit c = true → is_ascii c = true.
Proof. by destruct c as [[] [] [] [] [] [] [] []]. Qed.

(** * Invalid text *)

Module Utf8.

(** [String::from_utf8_lossy]: every maximal invalid part is replaced. *)
Definition REPLACEMENT : list byte := [xef; xbf; xbd].
Fixpoint lossy (bs : list byte) : list byte :=
  match bs with
  | [] => []
  | b0 :: r0 =>
      let z0 := Z_of_byte b0 in
      if (z0 <? 0x80)%Z then b0 :: lossy r0
      else if ((0xC2 <=? z0) && (z0 <=? 0xDF))%Z then
        match r0 with
        | b1 :: r1 => if is_cont b1 then b0 :: b1 :: lossy r1 else REPLACEMENT ++ lossy r0
        | [] => REPLACEMENT
        end
      else if ((0xE0 <=? z0) && (z0 <=? 0xEF))%Z then
        match r0 with
        | b1 :: r1 =>
            if second3_ok z0 b1 then
              match r1 with
              | b2 :: r2 => if is_cont b2 then b0 :: b1 :: b2 :: lossy r2 else REPLACEMENT ++ lossy r1
              | [] => REPLACEMENT
              end
            else REPLACEMENT ++ lossy r0
        | [] => REPLACEMENT
        end
      else if ((0xF0 <=? z0) && (z0 <=? 0xF4))%Z then
        match r0 with
        | b1 :: r1 =>
            if second4_ok z0 b1 then
              match r1 with
              | b2 :: r2 =>
                  if is_cont b2 then
                    match r2 with
                    | b3 :: r3 => if is_cont b3 then b0 :: b1 :: b2 :: b3 :: lossy r3 else REPLACEMENT ++ lossy r2
                    | [] => REPLACEMENT
                    end
                  else REPLACEMENT ++ lossy r1
              | [] => REPLACEMENT
              end
            else REPLACEMENT ++ lossy r0
        | [] => REPLACEMENT
        end
      else REPLACEMENT ++ lossy r0
  end.

Lemma lossy_valid bs : utf8_valid bs = true → lossy bs = bs.
Proof.
  remember (length bs) as n eqn:Hn. revert bs Hn. induction (lt_wf n) as [n _ IH]. intros bs -> H.
  destruct bs as [|b0 r0]; [done|]. cbn [utf8_valid lossy] in *.
  assert (∀ r, (length r < length (b0 :: r0))%nat → utf8_valid r = true → lossy r = r) as IH'
    by (intros r Hr; by apply (IH (length r))).
  case_match; [rewrite IH'; [done|cbn; lia|done]|].
  case_match. { destruct r0 as [|b1 r1]; [done|]. apply andb_true_iff in H as [-> ?]. rewrite IH'; [done|cbn; lia|done]. }
  case_match.
  { destruct r0 as [|b1 [|b2 r2]]; [done..|]. apply andb_true_iff in H as [[-> ->]%andb_true_iff ?].
    rewrite IH'; [done|cbn; lia|done]. }
  case_match; [|done]. destruct r0 as [|b1 [|b2 [|b3 r3]]]; [done..|].
  apply andb_true_iff in H as [[[-> ->]%andb_true_iff ->]%andb_true_iff ?]. rewrite IH'; [done|cbn; lia|done].
Qed.
End Utf8.
