(* ===== verification/Http3.v ===== *)
(** The HTTP/3-lite byte pipe (src/quic_transport/http3.rs): requests and
    responses on a stream, the router with the clipboard and file routes, and
    the client that fetches from it.

    A receive stream is that of [Transport].  A send stream is the bytes written
    so far and the number of writes; [accept n] says how the [n]-th [write_all]
    ends: whole, or after some bytes with an error.  The caches are shared by
    the routes, so a handler takes the instant and the caches and leaves the
    caches changed (a lookup evicts an expired entry).  The locks are never
    poisoned: no holder panics in this model. *)

From Stdlib Require Import Strings.Ascii.
From stdpp Require Import pretty.
From S2P Require Import Prelude Text Caches Transport.

Definition CHUNK_SIZE : Z := 64 * 1024.

(** * Requests and responses *)

Record Request : Type := mkRequest { method : string; path : string; req_body : list byte }.
Record Response : Type := mkResponse { status : Z; body : list byte }.

Module Response.
Definition ok (body : list byte) : Response := mkResponse 200 body.
Definition not_found : Response := mkResponse 404 (as_bytes "not found").
Definition with_status (status : Z) (body : list byte) : Response := mkResponse status body.
End Response.

(** The kinds of [std::io::Error] that arise. *)
Inductive ErrorKind : Type := UnexpectedEof | InvalidData | ConnectionAborted | OtherKind.
#[export] Instance ErrorKind_eq_dec : EqDecision ErrorKind.
Proof. solve_decision. Defined.

(** ** Single buffers *)

Definition encode_request (method path : string) (body : list byte) : list byte :=
  be_bytes 2 (Z.of_nat (String.length method)) ++ as_bytes method ++
  be_bytes 2 (Z.of_nat (String.length path)) ++ as_bytes path ++
  be_bytes 4 (Z.of_nat (length body)) ++ body.

Definition HEADER_LEN_BYTES : nat := 2 + 2 + 4.
Definition RESPONSE_HEADER_LEN_BYTES : nat := 2 + 4.

(** [&buf[a..b]] within the bounds that the guards establish. *)
Definition slice (a b : nat) (buf : list byte) : list byte := take (b - a) (drop a buf).

Definition decode_request (buf : list byte) : outcome ErrorKind (Request * nat) :=
  if decide (length buf < HEADER_LEN_BYTES) then Err UnexpectedEof
  else
    let method_len := Z.to_nat (be_val (slice 0 2 buf)) in
    let path_start := 2 + method_len in
    if decide (length buf < path_start + 2) then Err UnexpectedEof
    else
      let path_len := Z.to_nat (be_val (slice path_start (path_start + 2) buf)) in
      let body_len_start := path_start + 2 + path_len in
      if decide (length buf < body_len_start + 4) then Err UnexpectedEof
      else
        let body_len := Z.to_nat (be_val (slice body_len_start (body_len_start + 4) buf)) in
        let body_start := body_len_start + 4 in
        let total := body_start + body_len in
        if decide (length buf < total) then Err UnexpectedEof
        else
          method ← ok_or (from_utf8 (slice 2 path_start buf)) InvalidData;
          path ← ok_or (from_utf8 (slice (path_start + 2) body_len_start buf)) InvalidData;
          Ok (mkRequest method path (slice body_start total buf), total).

Definition encode_response (status : Z) (body : list byte) : list byte :=
  be_bytes 2 status ++ be_bytes 4 (Z.of_nat (length body)) ++ body.

Definition decode_response (buf : list byte) : outcome ErrorKind (Response * nat) :=
  if decide (length buf < RESPONSE_HEADER_LEN_BYTES) then Err UnexpectedEof
  else
    let status := be_val (slice 0 2 buf) in
    let body_len := Z.to_nat (be_val (slice 2 6 buf)) in
    let total := RESPONSE_HEADER_LEN_BYTES + body_len in
    if decide (length buf < total) then Err UnexpectedEof
    else Ok (mkResponse status (slice RESPONSE_HEADER_LEN_BYTES total buf), total).

(** ** Reading from a stream *)

Abbreviation R := (ST RecvStream ErrorKind).

(** [read_exact] of an [AsyncRead], and the one of quinn through
    [read_exact_err]. *)
Definition io_err (e : io_error) : ErrorKind :=
  match e with Transport.UnexpectedEof => UnexpectedEof | OtherIo => OtherKind end.
Definition read_exact_err (e : io_error) : ErrorKind :=
  match e with Transport.UnexpectedEof => UnexpectedEof | OtherIo => ConnectionAborted end.

Definition read_exact_with (err : io_error → ErrorKind) (n : nat) : R (list byte) := λ r,
  match read_exact n r with
  | (inl bs, r) => (Ok bs, r)
  | (inr e, r) => (Err (err e), r)
  end.

Definition read_u16 : R Z := bs ← read_exact_with io_err 2; mret (be_val bs).
Definition read_u32 : R Z := bs ← read_exact_with io_err 4; mret (be_val bs).

(** The loop over chunks: [out] holds what was read, [remaining] what is still
    to come. *)
Fixpoint read_chunks (err : io_error → ErrorKind) (fuel : nat) (remaining : Z) (out : list byte)
    : R (list byte) :=
  match fuel with
  | O => λ r, (Diverge, r)
  | S fuel =>
      if (0 <? remaining)%Z then
        let want := Z.min remaining CHUNK_SIZE in
        chunk ← read_exact_with err (Z.to_nat want);
        read_chunks err fuel (remaining - want) (out ++ chunk)
      else mret out
  end.

Definition read_bytes (len : Z) : R (list byte) := read_chunks io_err (S (Z.to_nat len)) len [].

(** [String::from_utf8] with its error. *)
Definition from_utf8_io (bs : list byte) : R string := λ r, (ok_or (from_utf8 bs) InvalidData, r).

Definition read_request : R Request :=
  method_len ← read_u16;
  method ← read_bytes method_len;
  method ← from_utf8_io method;
  path_len ← read_u16;
  path ← read_bytes path_len;
  path ← from_utf8_io path;
  body_len ← read_u32;
  body ← read_bytes body_len;
  mret (mkRequest method path body).

Definition read_response_header : R (Z * Z) :=
  status ← read_u16; body_len ← read_u32; mret (status, body_len).
Definition read_body (len : Z) : R (list byte) := read_bytes len.

(** The rest of [Http3Client::get_bytes] and of [ClientConn::request_streaming]
    after the request: the sink grows by every chunk. *)
Definition read_response : R (Z * list byte) :=
  '(status, body_len) ← read_response_header;
  out ← read_chunks read_exact_err (S (Z.to_nat body_len)) body_len [];
  mret (status, out).

(** [ClientConn::request] after the request. *)
Definition read_response_buffered : R Response :=
  '(status, body_len) ← read_response_header;
  body ← read_body body_len;
  mret (mkResponse status body).

(** ** Writing to a stream *)

Record SendStream : Type := mkSend { s_bytes : list byte; s_writes : nat; s_finished : bool }.
Definition new_send : SendStream := mkSend [] 0 false.

Section write.
Variable accept : nat → option nat.
Abbreviation W := (ST SendStream ErrorKind).

(** [write_all], with [write_err_to_io]: every [WriteError] is
    [ConnectionAborted]. *)
Definition write_all (bs : list byte) : W unit := λ s,
  match accept (s_writes s) with
  | None => (Ok tt, mkSend (s_bytes s ++ bs) (S (s_writes s)) (s_finished s))
  | Some k => (Err ConnectionAborted, mkSend (s_bytes s ++ take k bs) (S (s_writes s)) (s_finished s))
  end.
Definition finish : W unit := modify_st (λ s, mkSend (s_bytes s) (s_writes s) true).

Definition write_request (method path : string) (body : list byte) : W unit :=
  write_all (be_bytes 2 (Z.of_nat (String.length method))) ≫= λ _,
  write_all (as_bytes method) ≫= λ _,
  write_all (be_bytes 2 (Z.of_nat (String.length path))) ≫= λ _,
  write_all (as_bytes path) ≫= λ _,
  write_all (be_bytes 4 (Z.of_nat (length body))) ≫= λ _,
  when (negb (bool_decide (body = []))) (write_all body).

Definition write_response_header (status : Z) (body_len : Z) : W unit :=
  write_all (be_bytes 2 status) ≫= λ _, write_all (be_bytes 4 body_len).

(** [while offset < resp.body.len()]. *)
Fixpoint write_chunks (fuel : nat) (offset : Z) (body : list byte) : W unit :=
  match fuel with
  | O => λ s, (Diverge, s)
  | S fuel =>
      if (offset <? Z.of_nat (length body))%Z then
        let end_ := Z.min (offset + CHUNK_SIZE) (Z.of_nat (length body)) in
        write_all (slice (Z.to_nat offset) (Z.to_nat end_) body) ≫= λ _,
        write_chunks fuel end_ body
      else mret tt
  end.

Definition write_response_streaming (resp : Response) : W unit :=
  write_response_header (status resp) (Z.of_nat (length (body resp))) ≫= λ _,
  if bool_decide (body resp = []) then mret tt
  else write_chunks (S (length (body resp))) 0 (body resp).
End write.

(** * Hexadecimal keys *)

(** [format!("{:02x}")] of every byte, as in [full_hex] of src/service.rs. *)
Definition hex_char (n : Z) : ascii :=
  ascii_of_N (Z.to_N (if (n <? 10)%Z then 48 + n else 87 + n)).
Definition full_hex (b : list byte) : string :=
  foldr (λ x s, String (hex_char (Z.shiftr (Z_of_byte x) 4))
                  (String (hex_char (Z.land (Z_of_byte x) 15)) s)) "" b.

Definition hex_nibble (c : ascii) : option Z :=
  let b := Z.of_N (N_of_ascii c) in
  if ((48 <=? b) && (b <=? 57))%Z then Some (b - 48)%Z
  else if ((97 <=? b) && (b <=? 102))%Z then Some (b - 97 + 10)%Z
  else if ((65 <=? b) && (b <=? 70))%Z then Some (b - 65 + 10)%Z
  else None.

(** The loop of [decode_hex_32] over the pairs. *)
Fixpoint decode_hex (s : string) : option (list byte) :=
  match s with
  | EmptyString => Some []
  | String c (String d s) =>
      hi ← hex_nibble c; lo ← hex_nibble d;
      out ← decode_hex s; Some (byte_of_Z (Z.lor (Z.shiftl hi 4) lo) :: out)
  | String _ EmptyString => None
  end.
Definition decode_hex_32 (s : string) : option (list byte) :=
  if decide (String.length s ≠ 64) then None else decode_hex s.

(** * Routes *)

Record Caches : Type := mkCaches {
  clipboard_cache : ClipboardCache.t;
  file_cache : FileCache.t
}.

(** A handler, called at an instant. *)
Abbreviation Handler := (Z → Request → Caches → Response * Caches).

Definition hit_or_404 (found : option (list byte)) : Response :=
  match found with Some content => Response.ok content | None => Response.not_found end.

(** A key of 64 hexadecimal digits, of either case. *)
Definition sha_of (s : string) : option (list byte) :=
  if bool_decide (String.length s = 64) && Str.all Str.is_ascii_hexdigit s
  then decode_hex_32 s else None.

Definition cache_lookup_route (prefix : string) : Handler := λ now req cs,
  match Str.strip_prefix prefix (path req) with
  | None => (Response.not_found, cs)
  | Some suffix =>
      match sha_of suffix with
      | None => (Response.not_found, cs)
      | Some sha =>
          let '(found, cache) := ClipboardCache.lookup now sha (clipboard_cache cs) in
          (hit_or_404 found, mkCaches cache (file_cache cs))
      end
  end.

Definition clipboard_text_route : Handler := cache_lookup_route "/clipboard/text/".
Definition clipboard_image_route : Handler := cache_lookup_route "/clipboard/image/".

(** ** Ranges *)

Definition usize_MAX : N := 2 ^ 64 - 1.

Module RangeParse.
Inductive RangeParse : Type := None | Valid (start end_ : N) | Invalid.
End RangeParse.

(** The last [range=] of the query. *)
Definition find_range (query : string) : option string :=
  foldl (λ found pair,
      match Str.split_once "=" pair with
      | Some (k, v) => if decide (k = "range") then Some v else found
      | None => found
      end) None (Str.split "&" query).

Definition parse_range_value (value : string) : RangeParse.RangeParse :=
  if decide (value = "") then RangeParse.Invalid
  else match Str.strip_suffix_char "-" value with
       | Some stripped =>
           let stripped := default stripped (Str.strip_suffix_char "-" stripped) in
           if decide (stripped = "") then RangeParse.Invalid
           else match Str.parse_usize stripped with
                | Some start => RangeParse.Valid start usize_MAX
                | None => RangeParse.Invalid
                end
       | None =>
           match Str.split_once "-" value with
           | None => RangeParse.Invalid
           | Some (start_s, end_s) =>
               match Str.parse_usize start_s, Str.parse_usize end_s with
               | Some start, Some end_ =>
                   if (end_ <? start)%N then RangeParse.Invalid else RangeParse.Valid start end_
               | _, _ => RangeParse.Invalid
               end
           end
       end.

Definition parse_range_query (query : string) : RangeParse.RangeParse :=
  match find_range query with
  | None => RangeParse.None
  | Some value => parse_range_value value
  end.

Definition range_not_satisfiable : Response :=
  Response.with_status 416 (as_bytes "range not satisfiable").

(** The body for a range: [full_body[start..=end]] after the clamp. *)
Definition serve_range (full_body : list byte) (start end_ : N) : Response :=
  let len := N.of_nat (length full_body) in
  if (len <=? start)%N then range_not_satisfiable
  else
    let end_ := N.min end_ (len - 1) in
    if (end_ <? start)%N then range_not_satisfiable
    else Response.ok (slice (N.to_nat start) (N.to_nat end_ + 1) full_body).

Definition file_cache_lookup_route : Handler := λ now req cs,
  match Str.strip_prefix "/clipboard/file/" (path req) with
  | None => (Response.not_found, cs)
  | Some suffix =>
      let '(sha_hex, query) :=
        match Str.split_once "?" suffix with
        | Some (sha_hex, query) => (sha_hex, Some query)
        | None => (suffix, None)
        end in
      match sha_of sha_hex with
      | None => (Response.not_found, cs)
      | Some sha =>
          let '(found, cache) := FileCache.lookup now sha (file_cache cs) in
          let cs := mkCaches (clipboard_cache cs) cache in
          match found with
          | None => (Response.not_found, cs)
          | Some full_body =>
              (match query with
               | None => Response.ok full_body
               | Some q =>
                   match parse_range_query q with
                   | RangeParse.None => Response.ok full_body
                   | RangeParse.Invalid => range_not_satisfiable
                   | RangeParse.Valid start end_ => serve_range full_body start end_
                   end
               end, cs)
          end
      end
  end.

(** ** The router *)

Record Router : Type := mkRouter {
  routes : gmap string Handler;
  prefix_routes : gmap string Handler
}.
Definition new_router : Router := mkRouter ∅ ∅.
Definition get (path : string) (handler : Handler) (r : Router) : Router :=
  mkRouter (<[path := handler]> (routes r)) (prefix_routes r).
Definition get_prefix (prefix : string) (handler : Handler) (r : Router) : Router :=
  mkRouter (routes r) (<[prefix := handler]> (prefix_routes r)).

(** The loop over the prefixes, in the order in which the map yields them. *)
Fixpoint first_prefix (path : string) (l : list (string * Handler)) : option Handler :=
  match l with
  | [] => None
  | (prefix, h) :: l => if Str.starts_with prefix path then Some h else first_prefix path l
  end.

Section router.
Variable order : gmap string Handler → list (string * Handler).

Definition handle (r : Router) : Handler := λ now req cs,
  if decide (method req ≠ "GET")
  then (Response.with_status 405 (as_bytes "method not allowed"), cs)
  else match routes r !! path req with
       | Some h => h now req cs
       | None =>
           match first_prefix (path req) (order (prefix_routes r)) with
           | Some h => h now req cs
           | None => (Response.not_found, cs)
           end
       end.
End router.

Definition healthz : Handler := λ _ _ cs, (Response.ok (as_bytes "ok"), cs).
Definition stub : Handler := λ _ _ cs, (Response.not_found, cs).

Definition default_router : Router :=
  get_prefix "/clipboard/file/" stub
    (get_prefix "/clipboard/image/" stub
       (get_prefix "/clipboard/text/" stub (get "/healthz" healthz new_router))).

Definition default_router_with_cache : Router :=
  get_prefix "/clipboard/file/" stub
    (get_prefix "/clipboard/image/" (cache_lookup_route "/clipboard/image/")
       (get_prefix "/clipboard/text/" (cache_lookup_route "/clipboard/text/")
          (get "/healthz" healthz new_router))).

Definition default_router_with_caches : Router :=
  get_prefix "/clipboard/file/" file_cache_lookup_route
    (get_prefix "/clipboard/image/" (cache_lookup_route "/clipboard/image/")
       (get_prefix "/clipboard/text/" (cache_lookup_route "/clipboard/text/")
          (get "/healthz" healthz new_router))).

(** * Server and client *)

(** [handle_http3_stream]: the stream after the answer, and the caches. *)
Definition handle_http3_stream (accept : nat → option nat)
    (order : gmap string Handler → list (string * Handler)) (router : Router) (now : Z)
    (recv : RecvStream) (cs : Caches) : SendStream * Caches :=
  match read_request recv with
  | (Ok req, _) =>
      let '(resp, cs) := handle order router now req cs in
      let '(_, send) := write_response_streaming accept resp new_send in
      (snd (finish send), cs)
  | _ => (new_send, cs)
  end.

(** The request half of [get_bytes] and [request]: the stream with the request,
    finished. *)
Definition send_request (accept : nat → option nat) (path : string) : outcome ErrorKind unit * SendStream :=
  (write_request accept "GET" path [] ≫= λ _, finish) new_send.

(** A request on a stream of its own and what [read] makes of the answer:
    [opened] says whether the stream opens, and [server] is what comes back for
    the bytes of the request. *)
Definition exchange {A} (read : R A) (opened : bool) (accept : nat → option nat)
    (server : list byte → RecvStream) (path : string) : outcome ErrorKind A :=
  if opened then
    match send_request accept path with
    | (Ok _, send) => fst (read (server (s_bytes send)))
    | (Err e, _) => Err e
    | (Panic, _) => Panic
    | (Diverge, _) => Diverge
    end
  else Err ConnectionAborted.

(** [Http3Client::get_bytes] and [ClientConn::request]. *)
Definition get_bytes := exchange read_response.
Definition request := exchange read_response_buffered.

Definition text_path (sha256 : string) : string := "/clipboard/text/" +:+ sha256.
Definition image_path (sha256 : string) : string := "/clipboard/image/" +:+ sha256.
Definition file_path (sha256 : string) (range : option string) : string :=
  match range with
  | Some r => "/clipboard/file/" +:+ sha256 +:+ "?range=" +:+ r
  | None => "/clipboard/file/" +:+ sha256
  end.

Section client.
Variable opened : bool.
Variable accept : nat → option nat.
Variable server : list byte → RecvStream.
Definition client_healthz := get_bytes opened accept server "/healthz".
Definition get_text (sha256 : string) := get_bytes opened accept server (text_path sha256).
Definition get_image (sha256 : string) := get_bytes opened accept server (image_path sha256).
Definition get_file (sha256 : string) (range : option string) :=
  get_bytes opened accept server (file_path sha256 range).
End client.

(** [looks_like_http3_request], on the first four bytes of a stream. *)
Definition looks_like_http3_request (first4 : list byte) : bool :=
  match first4 with
  | [a; b; c; d] =>
      (Z_of_byte a =? 0)%Z && ((3 <=? Z_of_byte b) && (Z_of_byte b <=? 7))%Z &&
      Str.is_ascii_alphabetic (ascii_of_byte c) && Str.is_ascii_alphabetic (ascii_of_byte d)
  | _ => false
  end.

(** [slice::chunks] of [CHUNK_SIZE]. *)
Fixpoint chunks (fuel : nat) (bytes : list byte) : list (list byte) :=
  match fuel, bytes with
  | O, _ | _, [] => []
  | S fuel, _ =>
      take (Z.to_nat CHUNK_SIZE) bytes :: chunks fuel (drop (Z.to_nat CHUNK_SIZE) bytes)
  end.
Definition chunk_bytes (bytes : list byte) : list (list byte) := chunks (length bytes) bytes.

(** * Lemmas on streams *)

Lemma length_as_bytes s : length (as_bytes s) = String.length s.
Proof.
  unfold as_bytes, String.list_byte_of_string. rewrite length_map.
  induction s as [|c s IH]; cbn; [done|]. by rewrite IH.
Qed.
Lemma as_bytes_app a b : as_bytes (a +:+ b) = as_bytes a ++ as_bytes b.
Proof.
  unfold as_bytes, String.list_byte_of_string. rewrite <- map_app. f_equal.
  induction a as [|c a IH]; [done|]. rewrite app_cons. cbn. by rewrite IH.
Qed.
Lemma utf8_ok s : utf8_valid (as_bytes s) = true → from_utf8 (as_bytes s) = Some s.
Proof. intros Hs. unfold from_utf8. by rewrite Hs, of_bytes_as_bytes. Qed.

(** Reading in chunks is one read. *)
Lemma read_chunks_spec err fuel remaining out r :
  (0 ≤ remaining)%Z → Z.to_nat remaining < fuel →
  read_chunks err fuel remaining out r =
    match read_exact (Z.to_nat remaining) r with
    | (inl bs, r) => (Ok (out ++ bs), r)
    | (inr e, r) => (Err (err e), r)
    end.
Proof.
  revert remaining out r. induction fuel as [|fuel IH]; intros remaining out r H0 Hf; [lia|].
  cbn [read_chunks]. destruct (Z.ltb_spec 0 remaining) as [Hpos|Hz].
  2: { replace (Z.to_nat remaining) with 0 by lia. unfold read_exact.
       rewrite decide_False by lia. rewrite take_0, drop_0, app_nil_r. by destruct r. }
  set (want := Z.min remaining CHUNK_SIZE).
  assert (0 < want ≤ remaining)%Z as Hw by (unfold want, CHUNK_SIZE; lia).
  unfold mbind, ST_bind, read_exact_with at 1, read_exact. destruct r as [bs e]. cbn [r_bytes r_end].
  case_decide as Hd; [rewrite decide_True by lia; done|].
  rewrite IH by lia. unfold read_exact. cbn [r_bytes r_end]. rewrite length_drop.
  destruct (decide (length bs < Z.to_nat remaining)) as [Hlt|Hge].
  - rewrite decide_True by lia. done.
  - rewrite decide_False by lia. f_equal; [f_equal|f_equal].
    + rewrite <- app_assoc. f_equal.
      replace (Z.to_nat remaining) with (Z.to_nat want + Z.to_nat (remaining - want)) by lia.
      by rewrite take_take_drop.
    + rewrite drop_drop. f_equal. lia.
Qed.

Lemma read_exact_with_app err bs tl e :
  read_exact_with err (length bs) (mkRecv (bs ++ tl) e) = (Ok bs, mkRecv tl e).
Proof. unfold read_exact_with. by rewrite read_exact_app. Qed.

Lemma read_chunks_app err bs tl e :
  read_chunks err (S (Z.to_nat (Z.of_nat (length bs)))) (Z.of_nat (length bs)) [] (mkRecv (bs ++ tl) e)
  = (Ok bs, mkRecv tl e).
Proof. rewrite read_chunks_spec by lia. by rewrite Nat2Z.id, read_exact_app. Qed.
Lemma read_field_app bs tl e :
  read_bytes (Z.of_nat (length bs)) (mkRecv (bs ++ tl) e) = (Ok bs, mkRecv tl e).
Proof. apply read_chunks_app. Qed.

Lemma read_u16_app n tl e :
  inU 16 n → read_u16 (mkRecv (be_bytes 2 n ++ tl) e) = (Ok n, mkRecv tl e).
Proof.
  intros Hn. unfold read_u16, mbind, ST_bind.
  pose proof (read_exact_with_app io_err (be_bytes 2 n) tl e) as Hr.
  rewrite length_be_bytes in Hr. rewrite Hr. by rewrite be_val_be_bytes.
Qed.
Lemma read_length_app n tl e :
  inU 32 n → read_u32 (mkRecv (be_bytes 4 n ++ tl) e) = (Ok n, mkRecv tl e).
Proof.
  intros Hn. unfold read_u32, mbind, ST_bind.
  pose proof (read_exact_with_app io_err (be_bytes 4 n) tl e) as Hr.
  rewrite length_be_bytes in Hr. rewrite Hr. by rewrite be_val_be_bytes.
Qed.

(** ** Writes *)

(** A call on a send stream that appends a prefix of [bs], all of it on success. *)
Definition writes (accept : nat → option nat) (bs : list byte) (m : ST SendStream ErrorKind unit) : Prop :=
  ∀ s, ∃ out r n, m s = (r, mkSend (s_bytes s ++ out) n (s_finished s)) ∧ out `prefix_of` bs ∧
    s_writes s ≤ n ∧
    (r = Ok tt ∧ out = bs ∨ r = Err ConnectionAborted) ∧
    ((∀ k, accept k = None) → r = Ok tt).

Lemma writes_all accept bs : writes accept bs (write_all accept bs).
Proof.
  intros s. unfold write_all. destruct (accept (s_writes s)) as [k|] eqn:E.
  - exists (take k bs), (Err ConnectionAborted), (S (s_writes s)).
    split_and!; [done|apply prefix_take|lia|by right|]. intros H. by rewrite H in E.
  - exists bs, (Ok tt), (S (s_writes s)). split_and!; [done|done|lia|by left|done].
Qed.
Lemma writes_nil accept : writes accept [] (mret tt).
Proof.
  intros s. exists [], (Ok tt), (s_writes s). rewrite app_nil_r.
  split_and!; [by destruct s|done|lia|by left|done].
Qed.
Lemma writes_app accept bs cs m k :
  writes accept bs m → writes accept cs k → writes accept (bs ++ cs) (m ≫= λ _, k).
Proof.
  intros Hm Hk s. destruct (Hm s) as (out & r & n & E & Hp & Hn & [[-> ->]| ->] & Hok).
  - destruct (Hk (mkSend (s_bytes s ++ bs) n (s_finished s)))
      as (out' & r' & n' & E' & Hp' & Hn' & Hr' & Hok'). cbn in E', Hn'.
    exists (bs ++ out'), r', n'. unfold mbind, ST_bind. rewrite E, E'.
    split_and!; [by rewrite app_assoc|by apply prefix_app|lia| |done].
    destruct Hr' as [[-> ->]|]; auto.
  - exists out, (Err ConnectionAborted), n. unfold mbind, ST_bind. rewrite E.
    split_and!; [done|by apply prefix_app_r|lia|by right|].
    intros H. by discriminate (Hok H).
Qed.
Lemma writes_ok accept bs m s :
  writes accept bs m → (∀ k, accept k = None) →
  ∃ n, m s = (Ok tt, mkSend (s_bytes s ++ bs) n (s_finished s)).
Proof.
  intros Hm Hacc. destruct (Hm s) as (out & r & n & E & _ & _ & [[-> ->]| ->] & Hok); [by exists n|].
  by discriminate (Hok Hacc).
Qed.

Lemma writes_chunks accept fuel offset body :
  (0 ≤ offset ≤ Z.of_nat (length body))%Z → length body - Z.to_nat offset < fuel →
  writes accept (drop (Z.to_nat offset) body) (write_chunks accept fuel offset body).
Proof.
  revert offset. induction fuel as [|fuel IH]; intros offset Ho Hf; [lia|]. cbn [write_chunks].
  destruct (Z.ltb_spec offset (Z.of_nat (length body))).
  2: { rewrite drop_ge by lia. apply writes_nil. }
  set (end_ := Z.min (offset + CHUNK_SIZE) (Z.of_nat (length body))).
  assert (offset < end_ ≤ Z.of_nat (length body))%Z as He by (unfold end_, CHUNK_SIZE; lia).
  replace (drop (Z.to_nat offset) body)
    with (slice (Z.to_nat offset) (Z.to_nat end_) body ++ drop (Z.to_nat end_) body).
  - apply writes_app; [apply writes_all|]. apply IH; lia.
  - unfold slice. rewrite <- (take_drop (Z.to_nat end_ - Z.to_nat offset) (drop (Z.to_nat offset) body)) at 2.
    rewrite drop_drop. do 2 f_equal. lia.
Qed.

Lemma writes_request accept m p body : writes accept (encode_request m p body) (write_request accept m p body).
Proof.
  unfold encode_request, write_request.
  do 5 (apply writes_app; [apply writes_all|]). case_bool_decide; cbn; subst; [apply writes_nil|apply writes_all].
Qed.
Lemma writes_response accept resp :
  writes accept (encode_response (status resp) (body resp)) (write_response_streaming accept resp).
Proof.
  unfold encode_response, write_response_streaming. rewrite app_assoc. apply writes_app.
  - apply writes_app; apply writes_all.
  - case_bool_decide as Hb; [rewrite Hb; apply writes_nil|].
    apply (writes_chunks accept _ 0); lia.
Qed.

(** ** Reads at a position of a buffer *)

Lemma bind_Ok {S E A B} (m : ST S E A) (f : A → ST S E B) s b s' :
  (m ≫= f) s = (Ok b, s') ↔ ∃ a s1, m s = (Ok a, s1) ∧ f a s1 = (Ok b, s').
Proof.
  unfold mbind, ST_bind. destruct (m s) as [[a| | |] s1]; [naive_solver|..]; split; naive_solver.
Qed.

(** What a read at position [a] of [n] bytes does. *)
Definition reads_at (buf : list byte) (e : io_error) {A} (m : R A) (a n : nat) (v : list byte → A) : Prop :=
  a ≤ length buf →
  (a + n ≤ length buf → m (mkRecv (drop a buf) e) = (Ok (v (slice a (a + n) buf)), mkRecv (drop (a + n) buf) e)) ∧
  (length buf < a + n → ∃ k r, m (mkRecv (drop a buf) e) = (Err k, r)).

Lemma read_exact_at err buf e a n : reads_at buf e (read_exact_with err n) a n id.
Proof.
  intros Ha. unfold read_exact_with, read_exact. cbn [r_bytes r_end]. rewrite length_drop.
  split; intros Hn.
  - rewrite decide_False by lia. unfold slice. rewrite drop_drop. cbn.
    by replace (a + n - a) with n by lia.
  - rewrite decide_True by lia. eauto.
Qed.
Lemma read_u16_at buf e a : reads_at buf e read_u16 a 2 be_val.
Proof.
  intros Ha. destruct (read_exact_at io_err buf e a 2 Ha) as [H1 H2]. unfold read_u16, mbind, ST_bind.
  split; intros Hn; [by rewrite (H1 Hn)|]. destruct (H2 Hn) as (k & r & ->). eauto.
Qed.
Lemma read_u32_at buf e a : reads_at buf e read_u32 a 4 be_val.
Proof.
  intros Ha. destruct (read_exact_at io_err buf e a 4 Ha) as [H1 H2]. unfold read_u32, mbind, ST_bind.
  split; intros Hn; [by rewrite (H1 Hn)|]. destruct (H2 Hn) as (k & r & ->). eauto.
Qed.
Lemma read_bytes_at buf e a len : (0 ≤ len)%Z → reads_at buf e (read_bytes len) a (Z.to_nat len) id.
Proof.
  intros Hl Ha. destruct (read_exact_at io_err buf e a (Z.to_nat len) Ha) as [H1 H2].
  unfold read_bytes. rewrite read_chunks_spec by lia. unfold read_exact_with in H1, H2.
  destruct (read_exact _ _) as [[bs|err] r]; cbn in *.
  - split; [intros Hn; by apply H1|]. intros Hn. by destruct (H2 Hn) as (k & r' & ?).
  - split; [intros Hn; by specialize (H1 Hn)|]. intros _. eauto.
Qed.

(** A read succeeds exactly within the buffer. *)
Lemma reads_at_Ok buf e {A} (m : R A) a n v x r :
  reads_at buf e m a n v → a ≤ length buf → m (mkRecv (drop a buf) e) = (Ok x, r) →
  a + n ≤ length buf ∧ x = v (slice a (a + n) buf) ∧ r = mkRecv (drop (a + n) buf) e.
Proof.
  intros Hm Ha Ex. destruct (Hm Ha) as [H1 H2].
  destruct (decide (a + n ≤ length buf)) as [Hn|Hn].
  - rewrite (H1 Hn) in Ex. by injection Ex as <- <-.
  - destruct (H2 ltac:(lia)) as (k & r' & E). congruence.
Qed.

Lemma reads_at_bind buf e {A B} (m : R A) a n v (f : A → R B) :
  reads_at buf e m a n v → a + n ≤ length buf →
  (m ≫= f) (mkRecv (drop a buf) e) = f (v (slice a (a + n) buf)) (mkRecv (drop (a + n) buf) e).
Proof.
  intros Hm Hn. destruct (Hm ltac:(lia)) as [H1 _]. unfold mbind, ST_bind. by rewrite (H1 Hn).
Qed.

Lemma from_utf8_io_Ok bs s r r' : from_utf8_io bs r = (Ok s, r') ↔ from_utf8 bs = Some s ∧ r' = r.
Proof. unfold from_utf8_io, ok_or. destruct (from_utf8 bs); split; naive_solver. Qed.

Lemma be_val_slice a n buf : (0 ≤ be_val (slice a n buf))%Z.
Proof. apply be_val_bound. Qed.

(** The fields of a request that lies in [buf]. *)
Definition request_at (buf : list byte) (req : Request) (total : nat) : Prop :=
  let ml := Z.to_nat (be_val (slice 0 2 buf)) in
  let pl := Z.to_nat (be_val (slice (2 + ml) (2 + ml + 2) buf)) in
  let bs := 2 + ml + 2 + pl in
  let bl := Z.to_nat (be_val (slice bs (bs + 4) buf)) in
  total = bs + 4 + bl ∧ total ≤ length buf ∧
  from_utf8 (slice 2 (2 + ml) buf) = Some (method req) ∧
  from_utf8 (slice (2 + ml + 2) bs buf) = Some (path req) ∧
  req_body req = slice (bs + 4) total buf.

Lemma decode_request_Ok buf req total :
  decode_request buf = Ok (req, total) ↔ request_at buf req total.
Proof.
  unfold decode_request, request_at, HEADER_LEN_BYTES. cbn zeta.
  set (ml := Z.to_nat _). set (pl := Z.to_nat (be_val (slice (2 + ml) _ _))).
  set (bl := Z.to_nat (be_val (slice (2 + ml + 2 + pl) _ _))).
  split.
  - repeat case_decide; try done. intros (m & Em & (p & Ep & E)%outcome_bind_ok)%outcome_bind_ok.
    injection E as <- <-. unfold ok_or in *.
    destruct (from_utf8 (slice 2 _ _)) eqn:E1; [|done]. injection Em as <-.
    destruct (from_utf8 (slice (2 + ml + 2) _ _)) eqn:E2; [|done]. injection Ep as <-.
    split_and!; [done|lia|done|done|done].
  - intros (-> & Hle & E1 & E2 & E3). rewrite !decide_False by lia. rewrite E1, E2.
    cbn [ok_or mbind outcome_bind]. rewrite <- E3. by destruct req.
Qed.

Lemma read_request_Ok buf e req r :
  read_request (mkRecv buf e) = (Ok req, r) ↔
  ∃ total, request_at buf req total ∧ r = mkRecv (drop total buf) e.
Proof.
  unfold read_request, request_at. cbn zeta.
  set (ml := Z.to_nat _). set (pl := Z.to_nat (be_val (slice (2 + ml) _ _))).
  set (bs := 2 + ml + 2 + pl). set (bl := Z.to_nat (be_val (slice bs _ _))).
  rewrite <- (drop_0 buf) at 1. split.
  - rewrite !bind_Ok. intros (x & r1 & E & H).
    apply (reads_at_Ok _ _ _ _ _ _ _ _ (read_u16_at _ _ _)) in E as (H2 & -> & ->); [|lia].
    rewrite bind_Ok in H. destruct H as (x & r2 & E & H).
    apply (reads_at_Ok _ _ _ _ _ _ _ _ (read_bytes_at _ _ _ _ (be_val_slice _ _ _))) in E as (H3 & -> & ->); [|lia].
    rewrite bind_Ok in H. destruct H as (m & r3 & (Em & ->)%from_utf8_io_Ok & H).
    rewrite bind_Ok in H. destruct H as (x & r4 & E & H).
    apply (reads_at_Ok _ _ _ _ _ _ _ _ (read_u16_at _ _ _)) in E as (H4 & -> & ->); [|lia].
    rewrite bind_Ok in H. destruct H as (x & r5 & E & H).
    apply (reads_at_Ok _ _ _ _ _ _ _ _ (read_bytes_at _ _ _ _ (be_val_slice _ _ _))) in E as (H5 & -> & ->); [|lia].
    rewrite bind_Ok in H. destruct H as (p & r6 & (Ep & ->)%from_utf8_io_Ok & H).
    rewrite bind_Ok in H. destruct H as (x & r7 & E & H).
    apply (reads_at_Ok _ _ _ _ _ _ _ _ (read_u32_at _ _ _)) in E as (H6 & -> & ->); [|lia].
    rewrite bind_Ok in H. destruct H as (x & r8 & E & H).
    apply (reads_at_Ok _ _ _ _ _ _ _ _ (read_bytes_at _ _ _ _ (be_val_slice _ _ _))) in E as (H7 & -> & ->); [|lia].
    injection H as <- <-. eexists. split; [split_and!; [reflexivity|exact H7|exact Em|exact Ep|reflexivity]|done].
  - intros (total & (-> & Hle & E1 & E2 & E3) & ->).
    assert (∀ b s r (f : string → R Request), from_utf8 b = Some s → (from_utf8_io b ≫= f) r = f s r)
      as Hutf by (intros b s r f E; unfold from_utf8_io, mbind, ST_bind; by rewrite E).
    pose proof (be_val_slice) as Hnn.
    assert (2 ≤ length buf ∧ 2 + ml ≤ length buf ∧ 2 + ml + 2 ≤ length buf ∧ bs ≤ length buf ∧
      bs + 4 ≤ length buf) as (H1 & H2 & H3 & H4 & H5) by lia.
    rewrite (reads_at_bind _ _ _ _ _ _ _ (read_u16_at buf e 0)) by exact H1.
    rewrite (reads_at_bind _ _ _ _ _ _ _ (read_bytes_at buf e _ _ (Hnn _ _ _))) by exact H2.
    rewrite (Hutf _ _ _ _ E1).
    rewrite (reads_at_bind _ _ _ _ _ _ _ (read_u16_at buf e _)) by exact H3.
    rewrite (reads_at_bind _ _ _ _ _ _ _ (read_bytes_at buf e _ _ (Hnn _ _ _))) by exact H4.
    rewrite (Hutf _ _ _ _ E2).
    rewrite (reads_at_bind _ _ _ _ _ _ _ (read_u32_at buf e _)) by exact H5.
    rewrite (reads_at_bind _ _ _ _ _ _ _ (read_bytes_at buf e _ _ (Hnn _ _ _))) by exact Hle.
    unfold mret, ST_ret. f_equal. f_equal. destruct req. cbn in *. by rewrite E3.
Qed.

(** A read that answers or fails, and always returns. *)
Definition answers {A} (m : R A) : Prop :=
  ∀ r, (∃ a r', m r = (Ok a, r')) ∨ (∃ k r', m r = (Err k, r')).

Lemma answers_bind {A B} (m : R A) (f : A → R B) :
  answers m → (∀ a, answers (f a)) → answers (m ≫= f).
Proof.
  intros Hm Hf r. unfold mbind, ST_bind. destruct (Hm r) as [(a & r' & ->)|(k & r' & ->)].
  - apply Hf.
  - right. eauto.
Qed.
Lemma answers_ret {A} (a : A) : answers (mret a).
Proof. intros r. left. by exists a, r. Qed.
Lemma answers_read_exact err n : answers (read_exact_with err n).
Proof. intros r. unfold read_exact_with. destruct (read_exact n r) as [[] ?]; eauto. Qed.
Lemma answers_chunks err len : (0 ≤ len)%Z → answers (read_chunks err (S (Z.to_nat len)) len []).
Proof.
  intros Hl r. rewrite read_chunks_spec by lia. destruct (read_exact _ r) as [[] ?]; eauto.
Qed.
Lemma answers_utf8 bs : answers (from_utf8_io bs).
Proof. intros r. unfold from_utf8_io, ok_or. destruct (from_utf8 bs); eauto. Qed.

(** A number read off the stream is not negative. *)
Lemma answers_u16_bind {B} (f : Z → R B) :
  (∀ n, (0 ≤ n)%Z → answers (f n)) → answers (read_u16 ≫= f).
Proof.
  intros Hf r. unfold read_u16, mbind, ST_bind.
  destruct (answers_read_exact io_err 2 r) as [(a & r' & ->)|(k & r' & ->)]; [|eauto].
  apply Hf, be_val_bound.
Qed.
Lemma answers_u32_bind {B} (f : Z → R B) :
  (∀ n, (0 ≤ n)%Z → answers (f n)) → answers (read_u32 ≫= f).
Proof.
  intros Hf r. unfold read_u32, mbind, ST_bind.
  destruct (answers_read_exact io_err 4 r) as [(a & r' & ->)|(k & r' & ->)]; [|eauto].
  apply Hf, be_val_bound.
Qed.

Lemma answers_read_request : answers read_request.
Proof.
  apply answers_u16_bind. intros ml Hml. apply answers_bind; [by apply answers_chunks|]. intros m.
  apply answers_bind; [apply answers_utf8|]. intros m'.
  apply answers_u16_bind. intros pl Hpl. apply answers_bind; [by apply answers_chunks|]. intros p.
  apply answers_bind; [apply answers_utf8|]. intros p'.
  apply answers_u32_bind. intros bl Hbl. apply answers_bind; [by apply answers_chunks|]. intros b.
  apply answers_ret.
Qed.

Lemma read_request_encode m p b tl e :
  utf8_valid (as_bytes m) = true → utf8_valid (as_bytes p) = true →
  inU 16 (Z.of_nat (String.length m)) → inU 16 (Z.of_nat (String.length p)) →
  inU 32 (Z.of_nat (length b)) →
  read_request (mkRecv (encode_request m p b ++ tl) e) = (Ok (mkRequest m p b), mkRecv tl e).
Proof.
  intros Hm Hp Hlm Hlp Hlb. unfold encode_request, read_request. rewrite <- !app_assoc.
  rewrite <- (length_as_bytes m) in *. rewrite <- (length_as_bytes p) in *.
  assert (∀ s r (f : string → R Request), utf8_valid (as_bytes s) = true →
    (from_utf8_io (as_bytes s) ≫= f) r = f s r) as Hutf.
  { intros s r f Hs. unfold from_utf8_io, mbind, ST_bind. by rewrite utf8_ok. }
  assert (∀ A B (k : R A) a r r' (f : A → R B), k r = (Ok a, r') → (k ≫= f) r = f a r') as Hbind.
  { intros A B k a r r' f E. unfold mbind, ST_bind. by rewrite E. }
  rewrite (Hbind _ _ _ _ _ _ _ (read_u16_app _ _ _ Hlm)).
  rewrite (Hbind _ _ _ _ _ _ _ (read_field_app _ _ _)), Hutf by done.
  rewrite (Hbind _ _ _ _ _ _ _ (read_u16_app _ _ _ Hlp)).
  rewrite (Hbind _ _ _ _ _ _ _ (read_field_app _ _ _)), Hutf by done.
  rewrite (Hbind _ _ _ _ _ _ _ (read_length_app _ _ _ Hlb)).
  by rewrite (Hbind _ _ _ _ _ _ _ (read_field_app _ _ _)).
Qed.

Lemma read_response_encode st b tl e :
  inU 16 st → inU 32 (Z.of_nat (length b)) →
  read_response (mkRecv (encode_response st b ++ tl) e) = (Ok (st, b), mkRecv tl e) ∧
  read_response_buffered (mkRecv (encode_response st b ++ tl) e) = (Ok (mkResponse st b), mkRecv tl e).
Proof.
  intros Hst Hb. unfold encode_response. rewrite <- !app_assoc.
  assert (read_response_header (mkRecv (be_bytes 2 st ++ be_bytes 4 (Z.of_nat (length b)) ++ b ++ tl) e)
    = (Ok (st, Z.of_nat (length b)), mkRecv (b ++ tl) e)) as Hh.
  { unfold read_response_header, mbind, ST_bind. rewrite read_u16_app by done.
    by rewrite read_length_app. }
  unfold read_response, read_response_buffered, read_body, mbind, ST_bind. rewrite Hh.
  rewrite read_field_app. by rewrite read_chunks_app.
Qed.

(** * The wire *)

(** A request survives the wire.  Whatever writes fail, the bytes on the
    stream are a prefix of the encoded request, and all of it when the call
    succeeds; reading the encoded request back from a stream, or decoding it
    from a buffer, gives the request and leaves what follows. *)
Theorem request_roundtrip accept m p b tl e :
  utf8_valid (as_bytes m) = true → utf8_valid (as_bytes p) = true →
  inU 16 (Z.of_nat (String.length m)) → inU 16 (Z.of_nat (String.length p)) →
  inU 32 (Z.of_nat (length b)) →
  let wire := encode_request m p b in
  (∃ r send, write_request accept m p b new_send = (r, send) ∧
     s_bytes send `prefix_of` wire ∧ (r = Ok tt → s_bytes send = wire) ∧
     ((∀ n, accept n = None) → r = Ok tt)) ∧
  read_request (mkRecv (wire ++ tl) e) = (Ok (mkRequest m p b), mkRecv tl e) ∧
  decode_request (wire ++ tl) = Ok (mkRequest m p b, length wire).
Proof.
  intros Hm Hp Hlm Hlp Hlb wire. split_and!.
  - destruct (writes_request accept m p b new_send) as (out & r & n & E & Hout & _ & Hr & Hok).
    exists r, (mkSend out n false). split_and!; [done|done| |done].
    intros ->. by destruct Hr as [[_ ->]|].
  - by apply read_request_encode.
  - apply decode_request_Ok.
    pose proof (read_request_encode m p b tl e Hm Hp Hlm Hlp Hlb) as E.
    apply read_request_Ok in E as (total & Ht & E).
    assert (total = length wire) as <-; [|done].
    apply (f_equal (λ r, length (r_bytes r))) in E. cbn [r_bytes] in E.
    destruct Ht as (_ & Hle & _). fold wire in E, Hle. rewrite length_drop in E.
    rewrite length_app in E, Hle. lia.
Qed.

Lemma request_roundtrip_witness :
  decode_request (encode_request "GET" "/healthz" [] ++ [x01]) = Ok (mkRequest "GET" "/healthz" [], 19).
Proof.
  destruct (request_roundtrip (λ _, None) "GET" "/healthz" [] [x01] Transport.UnexpectedEof)
    as (_ & _ & H); [reflexivity|reflexivity|done|done|done|exact H].
Defined.

(** The decoder of a buffer and the reader of a stream agree on every
    sequence of bytes: they accept the same requests, with the same length, and
    what one refuses the other refuses, in whatever chunks the bodies are
    read. *)
Theorem decode_reads buf e :
  match decode_request buf with
  | Ok (req, total) =>
      total ≤ length buf ∧ read_request (mkRecv buf e) = (Ok req, mkRecv (drop total buf) e)
  | Err _ => ∃ k r, read_request (mkRecv buf e) = (Err k, r)
  | _ => False
  end.
Proof.
  destruct (answers_read_request (mkRecv buf e)) as [(req & r & E)|(k & r & E)].
  - pose proof E as (total & Ht & ->)%read_request_Ok. rewrite (proj2 (decode_request_Ok _ _ _) Ht).
    split; [apply Ht|done].
  - destruct (decode_request buf) as [[req total]| | |] eqn:Ed.
    + apply decode_request_Ok in Ed.
      rewrite (proj2 (read_request_Ok _ _ _ _)) in E by eauto. done.
    + eauto.
    + exfalso. revert Ed. unfold decode_request, ok_or. repeat case_match; naive_solver.
    + exfalso. revert Ed. unfold decode_request, ok_or. repeat case_match; naive_solver.
Qed.

(** * Keys *)

Lemma hex_byte x :
  let hi := hex_char (Z.shiftr (Z_of_byte x) 4) in let lo := hex_char (Z.land (Z_of_byte x) 15) in
  hex_nibble hi = Some (Z.shiftr (Z_of_byte x) 4) ∧ hex_nibble lo = Some (Z.land (Z_of_byte x) 15) ∧
  byte_of_Z (Z.lor (Z.shiftl (Z.shiftr (Z_of_byte x) 4) 4) (Z.land (Z_of_byte x) 15)) = x ∧
  Str.is_ascii_hexdigit hi && Str.is_ascii_hexdigit lo = true ∧ hi ≠ "?"%char ∧ lo ≠ "?"%char ∧
  Str.is_ascii_alphanumeric hi && Str.is_ascii_alphanumeric lo = true ∧
  (N_of_ascii hi < 128)%N ∧ (N_of_ascii lo < 128)%N.
Proof. destruct x; repeat split; discriminate || reflexivity. Qed.

Lemma full_hex_cons x b :
  full_hex (x :: b) = String (hex_char (Z.shiftr (Z_of_byte x) 4))
                        (String (hex_char (Z.land (Z_of_byte x) 15)) (full_hex b)).
Proof. done. Qed.

Lemma decode_full_hex b : decode_hex (full_hex b) = Some b.
Proof.
  induction b as [|x b IH]; [done|]. rewrite full_hex_cons. cbn [decode_hex].
  destruct (hex_byte x) as (-> & -> & E & _). cbn [mbind option_bind]. rewrite IH. cbn. by rewrite E.
Qed.
Lemma full_hex_props b :
  String.length (full_hex b) = 2 * length b ∧ Str.all Str.is_ascii_hexdigit (full_hex b) = true ∧
  Str.no_char "?" (full_hex b) ∧ Str.all is_ascii (full_hex b) = true.
Proof.
  induction b as [|x b (Hl & Ha & Hq & Hu)]; [done|]. rewrite full_hex_cons.
  destruct (hex_byte x) as (_ & _ & _ & Hd & Hh & Hlo & _ & H1 & H2).
  split_and!; [cbn [String.length length]; lia| | |].
  - cbn [Str.all]. by rewrite Ha, andb_true_r.
  - by cbn.
  - cbn [Str.all]. unfold is_ascii at 1 2. by rewrite !(proj2 (N.ltb_lt _ _)).
Qed.

Lemma sha_of_full_hex b : length b = 32 → sha_of (full_hex b) = Some b.
Proof.
  intros Hb. destruct (full_hex_props b) as (Hl & Ha & _). unfold sha_of.
  rewrite bool_decide_eq_true_2 by lia. rewrite Ha. unfold decode_hex_32.
  rewrite decide_False by lia. apply decode_full_hex.
Qed.

(** * The router *)

(** What the production router answers. *)
Definition answer : Handler := λ now req cs,
  if decide (method req ≠ "GET")
  then (Response.with_status 405 (as_bytes "method not allowed"), cs)
  else if decide (path req = "/healthz") then (Response.ok (as_bytes "ok"), cs)
  else if Str.starts_with "/clipboard/text/" (path req) then clipboard_text_route now req cs
  else if Str.starts_with "/clipboard/image/" (path req) then clipboard_image_route now req cs
  else if Str.starts_with "/clipboard/file/" (path req) then file_cache_lookup_route now req cs
  else (Response.not_found, cs).

Lemma first_prefix_match path l p h :
  (p, h) ∈ l → Str.starts_with p path = true →
  (∀ p' h', (p', h') ∈ l → Str.starts_with p' path = true → h' = h) →
  first_prefix path l = Some h.
Proof.
  intros Hin Hp Hu. induction l as [|[q k] l IH]; [by apply elem_of_nil in Hin|]. cbn.
  destruct (Str.starts_with q path) eqn:Eq.
  - f_equal. apply (Hu q); [by left|done].
  - apply elem_of_cons in Hin as [[= <- <-]|Hin]; [congruence|].
    apply IH; [done|]. intros p' h' H. apply Hu. by right.
Qed.
Lemma first_prefix_none path l :
  (∀ p h, (p, h) ∈ l → Str.starts_with p path = false) → first_prefix path l = None.
Proof.
  intros Hl. induction l as [|[q k] l IH]; [done|]. cbn. rewrite (Hl q k) by left.
  apply IH. intros p h H. apply Hl with h. by right.
Qed.

Lemma prefix_routes_elem order p h :
  (∀ m, order m ≡ₚ map_to_list m) →
  (p, h) ∈ order (prefix_routes default_router_with_caches) ↔
  (p = "/clipboard/file/" ∧ h = file_cache_lookup_route) ∨
  (p = "/clipboard/image/" ∧ h = clipboard_image_route) ∨
  (p = "/clipboard/text/" ∧ h = clipboard_text_route).
Proof.
  intros Ho. rewrite Ho, elem_of_map_to_list. cbn.
  rewrite !lookup_insert. repeat case_decide; subst; naive_solver.
Qed.

(** The router answers by the path alone, whatever order the map of its
    prefixes is searched in: [405] for anything but [GET], [200] for the health
    check, the text, image and file routes for their prefixes, and [404] for
    every other path. *)
Theorem router_answers order now req cs :
  (∀ m, order m ≡ₚ map_to_list m) →
  handle order default_router_with_caches now req cs = answer now req cs.
Proof.
  intros Ho. unfold handle, answer. case_decide; [done|]. cbn [routes default_router_with_caches get get_prefix new_router].
  destruct (decide (path req = "/healthz")) as [->|Hh]; [by rewrite lookup_insert_eq|].
  rewrite lookup_insert_ne, lookup_empty by done.
  pose proof (λ p h, prefix_routes_elem order p h Ho) as Hin.
  assert (∀ p h, Str.starts_with p (path req) = true →
    (p, h) ∈ order (prefix_routes default_router_with_caches) →
    first_prefix (path req) (order (prefix_routes default_router_with_caches)) = Some h) as Hmatch.
  { intros p h Hp Hl. eapply first_prefix_match; [exact Hl|done|].
    intros p' h' Hl' Hp'. apply Hin in Hl, Hl'. apply starts_with_true in Hp as [t Et].
    rewrite Et in Hp'. destruct_or! Hl; destruct_or! Hl'; destruct Hl as [-> ->], Hl' as [-> ->];
      done || discriminate. }
  destruct (Str.starts_with "/clipboard/text/" (path req)) eqn:Et.
  { rewrite (Hmatch _ clipboard_text_route Et); [done|]. apply Hin. tauto. }
  destruct (Str.starts_with "/clipboard/image/" (path req)) eqn:Ei.
  { rewrite (Hmatch _ clipboard_image_route Ei); [done|]. apply Hin. tauto. }
  destruct (Str.starts_with "/clipboard/file/" (path req)) eqn:Ef.
  { rewrite (Hmatch _ file_cache_lookup_route Ef); [done|]. apply Hin. tauto. }
  rewrite first_prefix_none; [done|]. intros p h Hl. apply Hin in Hl.
  destruct_or! Hl; by destruct Hl as [-> ->].
Qed.

Lemma router_answers_witness :
  handle map_to_list default_router_with_caches 7 (mkRequest "POST" "/healthz" [])
    (mkCaches ClipboardCache.new FileCache.new) =
  (Response.with_status 405 (as_bytes "method not allowed"), mkCaches ClipboardCache.new FileCache.new).
Proof. apply (router_answers map_to_list 7 (mkRequest "POST" "/healthz" [])). done. Defined.

(** * Fetching *)

(** A read that succeeds on the beginning of a stream succeeds on all of it. *)
Definition extends {A} (m : R A) : Prop := ∀ bs more e a r,
  m (mkRecv bs e) = (Ok a, r) → m (mkRecv (bs ++ more) e) = (Ok a, mkRecv (r_bytes r ++ more) (r_end r)).

Lemma extends_bind {A B} (m : R A) (f : A → R B) :
  extends m → (∀ a, extends (f a)) → extends (m ≫= f).
Proof.
  intros Hm Hf bs more e b r (a & [bs1 e1] & E1 & E2)%bind_Ok. apply bind_Ok.
  exists a, (mkRecv (bs1 ++ more) e1). split; [apply (Hm _ more) in E1; exact E1|by apply Hf].
Qed.
Lemma extends_ret {A} (a : A) : extends (mret a).
Proof. intros bs more e b r [= <- <-]. done. Qed.
Lemma extends_read_exact err n : extends (read_exact_with err n).
Proof.
  intros bs more e a r. unfold read_exact_with, read_exact. cbn [r_bytes r_end].
  case_decide; [done|]. intros [= <- <-]. rewrite length_app, decide_False by lia. cbn.
  by rewrite take_app_le, drop_app_le by lia.
Qed.
Lemma extends_chunks err fuel remaining out : extends (read_chunks err fuel remaining out).
Proof.
  revert remaining out. induction fuel as [|fuel IH]; intros remaining out; [done|]. cbn [read_chunks].
  destruct (0 <? remaining)%Z; [|apply extends_ret].
  apply extends_bind; [apply extends_read_exact|]. intros chunk. apply IH.
Qed.
Lemma extends_read_response : extends read_response.
Proof.
  apply extends_bind.
  - repeat (apply extends_bind; [|intros ?]); try apply extends_read_exact; apply extends_ret.
  - intros [st len]. apply extends_bind; [apply extends_chunks|intros out; apply extends_ret].
Qed.

Lemma answers_read_response : answers read_response.
Proof.
  intros r. unfold read_response, read_response_header.
  assert (answers (read_u16 ≫= λ st, read_u32 ≫= λ len,
    read_chunks read_exact_err (S (Z.to_nat len)) len [] ≫= λ out, mret (st, out))) as H.
  { apply answers_u16_bind. intros st _. apply answers_u32_bind. intros len Hl.
    apply answers_bind; [by apply answers_chunks|intros; apply answers_ret]. }
  specialize (H r). revert H. unfold mbind, ST_bind, mret, ST_ret.
  destruct (read_u16 r) as [[st| | |] r1]; try done.
  destruct (read_u32 r1) as [[len| | |] r2]; done.
Qed.

(** What a client receives from a server that runs [handle_http3_stream] on the
    bytes of its request. *)
Section served.
Variables (accept accept' : nat → option nat) (e : io_error).
Variable order : gmap string Handler → list (string * Handler).
Variables (now : Z) (cs : Caches).

Definition served (bytes : list byte) : RecvStream :=
  mkRecv (s_bytes (fst (handle_http3_stream accept' order default_router_with_caches now
    (mkRecv bytes Transport.UnexpectedEof) cs))) e.

Hypothesis Horder : ∀ m, order m ≡ₚ map_to_list m.

Definition answer_to (path : string) : Response := fst (answer now (mkRequest "GET" path []) cs).

Lemma fetch_wire path :
  utf8_valid (as_bytes path) = true → inU 16 (Z.of_nat (String.length path)) →
  let wire := encode_response (status (answer_to path)) (body (answer_to path)) in
  (∃ k, get_bytes true accept served path = Err k ∧ ¬ (∀ n, accept n = None)) ∨
  ∃ out, get_bytes true accept served path = fst (read_response (mkRecv out e)) ∧
    out `prefix_of` wire ∧ ((∀ n, accept' n = None) → out = wire).
Proof.
  intros Hu Hl wire. unfold get_bytes, exchange, send_request.
  pose proof (read_request_encode "GET" path [] [] Transport.UnexpectedEof eq_refl Hu ltac:(done) Hl ltac:(done)) as Er.
  rewrite app_nil_r in Er. unfold mbind at 1 2, ST_bind at 1 2.
  destruct (writes_request accept "GET" path [] new_send) as (out & r & n & -> & _ & _ & [[-> ->]| ->] & Hok).
  2: { left. eexists. split; [done|]. intros H. by discriminate (Hok H). }
  right. cbn [finish modify_st fst snd s_bytes new_send app]. unfold served, handle_http3_stream.
  rewrite Er, router_answers by done. unfold wire, answer_to in *.
  destruct (answer now (mkRequest "GET" path []) cs) as [resp cs']. cbn [fst] in *.
  destruct (writes_response accept' resp new_send) as (out & r & n' & -> & Hp & _ & Hr & Hok').
  exists out. split_and!; [done|done|].
  intros Ha. destruct Hr as [[_ ->]| ->]; [done|]. by discriminate (Hok' Ha).
Qed.

(** A fetch gives the answer of the router or an error, and the answer when no
    write fails. *)
Lemma fetch path :
  utf8_valid (as_bytes path) = true → inU 16 (Z.of_nat (String.length path)) →
  inU 16 (status (answer_to path)) → inU 32 (Z.of_nat (length (body (answer_to path)))) →
  let got := get_bytes true accept served path in
  (got = Ok (status (answer_to path), body (answer_to path)) ∨ ∃ k, got = Err k) ∧
  ((∀ n, accept n = None) → (∀ n, accept' n = None) →
   got = Ok (status (answer_to path), body (answer_to path))).
Proof.
  intros Hu Hl Hs Hb got.
  destruct (fetch_wire path Hu Hl) as [(k & Ek & Hk)|(out & Ew & [rest Er] & Hout)].
  { unfold got. rewrite Ek. split; [eauto|]. intros Ha. by destruct (Hk Ha). }
  unfold got. rewrite Ew.
  destruct (read_response_encode _ _ [] e Hs Hb) as [Eresp _]. rewrite app_nil_r in Eresp. split.
  - destruct (answers_read_response (mkRecv out e)) as [(x & r' & E)|(k & r' & E)]; rewrite E; [|right; eauto].
    left. apply (extends_read_response _ rest) in E. rewrite <- Er, Eresp in E. cbn. congruence.
  - intros _ Ha. by rewrite (Hout Ha), Eresp.
Qed.
End served.

(** ** What the routes answer for a key *)

Section keys.
Variables (sha : list byte) (now : Z) (cs : Caches).
Hypothesis Hsha : length sha = 32.

Let text := ClipboardCache.lookup now sha (clipboard_cache cs).
Let file := FileCache.lookup now sha (file_cache cs).

Lemma text_answer :
  answer now (mkRequest "GET" (text_path (full_hex sha)) []) cs =
  (hit_or_404 (fst text), mkCaches (snd text) (file_cache cs)).
Proof.
  unfold answer, clipboard_text_route, cache_lookup_route, text_path. cbn [method path].
  rewrite starts_with_app, strip_prefix_app, sha_of_full_hex by done. fold text. by destruct text.
Qed.
Lemma image_answer :
  answer now (mkRequest "GET" (image_path (full_hex sha)) []) cs =
  (hit_or_404 (fst text), mkCaches (snd text) (file_cache cs)).
Proof.
  unfold answer, clipboard_image_route, cache_lookup_route, image_path. cbn [method path].
  rewrite starts_with_app, strip_prefix_app, sha_of_full_hex by done. fold text. by destruct text.
Qed.
Lemma file_answer :
  answer now (mkRequest "GET" (file_path (full_hex sha) None) []) cs =
  (hit_or_404 (fst file), mkCaches (clipboard_cache cs) (snd file)).
Proof.
  destruct (full_hex_props sha) as (_ & _ & Hq & _).
  unfold answer, file_cache_lookup_route, file_path. cbn [method path].
  rewrite starts_with_app, strip_prefix_app, (proj2 (split_once_None _ _) Hq), sha_of_full_hex by done.
  fold file. by destruct file as [[] ?].
Qed.
Lemma file_range_answer r :
  Str.no_char "&" r →
  answer now (mkRequest "GET" (file_path (full_hex sha) (Some r)) []) cs =
  (match fst file with
   | None => Response.not_found
   | Some content =>
       match parse_range_value r with
       | RangeParse.Valid start end_ => serve_range content start end_
       | RangeParse.Invalid => range_not_satisfiable
       | RangeParse.None => Response.ok content
       end
   end, mkCaches (clipboard_cache cs) (snd file)).
Proof.
  intros Hr. destruct (full_hex_props sha) as (_ & _ & Hq & _).
  unfold answer, file_cache_lookup_route, file_path. cbn [method path].
  rewrite starts_with_app, strip_prefix_app.
  change ("?range=" +:+ r) with (String "?" ("range=" +:+ r)).
  rewrite split_once_app, sha_of_full_hex by done. fold file.
  destruct file as [[content|] c]; [|done]. cbn [fst snd]. f_equal.
  unfold parse_range_query, find_range. rewrite split_no_char by (by apply no_char_app).
  cbn [foldl]. by change (Str.split_once "=" ("range=" +:+ r)) with (Some ("range", r)).
Qed.
End keys.

Lemma lookup_length now k c bs c' :
  ByteCache.inv c → ByteCache.lookup now k c = (Some bs, c') →
  (Z.of_nat (length bs) ≤ ByteCache.byte_budget c)%Z.
Proof.
  intros (Hu & _ & _ & Hb) E. unfold ByteCache.lookup in E.
  destruct (ByteCache.entries c !! k) as [en|] eqn:Ek; [|done]. case_match; [|done].
  injection E as <- _. pose proof (ByteCache.total_lookup k en _ Ek) as Ht.
  unfold ByteCache.size_of in Ht. lia.
Qed.

(** The status and the length of an answer fit their fields. *)
Definition fits (resp : Response) : Prop :=
  inU 16 (status resp) ∧ inU 32 (Z.of_nat (length (body resp))).
Lemma fits_hit now k c :
  ByteCache.inv c → (ByteCache.byte_budget c < 2 ^ 32)%Z →
  fits (hit_or_404 (fst (ByteCache.lookup now k c))).
Proof.
  intros Hi Hb. destruct (ByteCache.lookup now k c) as [[bs|] c'] eqn:E; [|done].
  split; [done|]. cbn. apply lookup_length in E; [|done]. unfold inU. lia.
Qed.

Lemma ascii_path p h :
  Str.all is_ascii p = true → Str.all is_ascii h = true →
  utf8_valid (as_bytes (p +:+ h)) = true.
Proof. intros Hp Hh. apply ascii_utf8. by rewrite all_app, Hp, Hh. Qed.

(** What a fetch may give, and what it gives when no write fails. *)
Definition gives (accept accept' : nat → option nat) (got : outcome ErrorKind (Z * list byte))
    (resp : Response) : Prop :=
  (got = Ok (status resp, body resp) ∨ ∃ k, got = Err k) ∧
  ((∀ n, accept n = None) → (∀ n, accept' n = None) → got = Ok (status resp, body resp)).

(** Fetching by the hash of the content, client and server together over
    the wire: the client gets [200] and exactly the cached bytes, or [404] when
    the cache has none that is fresh; if writes fail on either side it gets that
    or an error, never a part of the content as a success. *)
Theorem fetch_content accept accept' e order now cs sha :
  (∀ m, order m ≡ₚ map_to_list m) → length sha = 32 →
  ByteCache.inv (clipboard_cache cs) → (ByteCache.byte_budget (clipboard_cache cs) < 2 ^ 32)%Z →
  ByteCache.inv (file_cache cs) → (ByteCache.byte_budget (file_cache cs) < 2 ^ 32)%Z →
  let srv := served accept' e order now cs in
  let text := hit_or_404 (fst (ClipboardCache.lookup now sha (clipboard_cache cs))) in
  let file := hit_or_404 (fst (FileCache.lookup now sha (file_cache cs))) in
  gives accept accept' (get_text true accept srv (full_hex sha)) text ∧
  gives accept accept' (get_image true accept srv (full_hex sha)) text ∧
  gives accept accept' (get_file true accept srv (full_hex sha) None) file.
Proof.
  intros Ho Hs Hi Hb Hi' Hb' srv text file.
  destruct (full_hex_props sha) as (Hl & _ & _ & Ha).
  destruct (fits_hit now sha (clipboard_cache cs) Hi Hb) as [Ht1 Ht2].
  destruct (fits_hit now sha (file_cache cs) Hi' Hb') as [Hf1 Hf2].
  assert (∀ p resp, Str.all is_ascii p = true → String.length p ≤ 100 →
    answer_to now cs (p +:+ full_hex sha) = resp → fits resp →
    gives accept accept' (get_bytes true accept srv (p +:+ full_hex sha)) resp) as Hfetch.
  { intros p resp Hp Hlp <- [H1 H2]. apply (fetch accept accept' e order now cs Ho); [by apply ascii_path| |done..].
    rewrite length_app_str. unfold inU. lia. }
  split_and!; apply Hfetch; try done; try (cbn; lia); unfold answer_to.
  - pose proof (text_answer sha now cs Hs) as E. unfold text_path in E. by rewrite E.
  - pose proof (image_answer sha now cs Hs) as E. unfold image_path in E. by rewrite E.
  - pose proof (file_answer sha now cs Hs) as E. unfold file_path in E. by rewrite E.
Qed.

Definition demo_sha : list byte := replicate 32 xab.
Definition demo_caches : Caches :=
  mkCaches (snd (ClipboardCache.insert 0 demo_sha [x68; x69] ClipboardCache.new))
           (FileCache.insert_owned 0 demo_sha [x61; x62; x63; x64] FileCache.new).
Lemma demo_caches_inv :
  ByteCache.inv (clipboard_cache demo_caches) ∧ ByteCache.inv (file_cache demo_caches).
Proof. split; apply ByteCache.inv_insert; by apply ByteCache.inv_new. Qed.

Lemma fetch_content_witness :
  get_text true (λ _, None)
    (served (λ _, None) Transport.UnexpectedEof map_to_list 7 demo_caches) (full_hex demo_sha)
  = Ok (200%Z, [x68; x69]).
Proof.
  destruct (fetch_content (λ _, None) (λ _, None) Transport.UnexpectedEof map_to_list 7 demo_caches demo_sha)
    as ([_ H] & _); [done|done|apply demo_caches_inv|done|apply demo_caches_inv|done|].
  rewrite H by done. vm_compute. reflexivity.
Defined.

(** ** Ranges *)

Lemma parse_range_closed n m :
  (n < 2 ^ 64)%N → (m < 2 ^ 64)%N →
  parse_range_value (pretty n +:+ "-" +:+ pretty m) =
  if (m <? n)%N then RangeParse.Invalid else RangeParse.Valid n m.
Proof.
  intros Hn Hm. unfold parse_range_value.
  assert (Str.no_char "-" (pretty n) ∧ Str.no_char "-" (pretty m)) as [Hdn Hdm]
    by (split; apply all_digits_no_char; (done || apply all_digits_pretty)).
  rewrite decide_False.
  2: { intros E. apply (f_equal String.length) in E. rewrite !length_app_str in E. cbn in E. lia. }
  rewrite <- app_assoc_str, strip_suffix_char_not; [|apply pretty_not_empty|done].
  rewrite app_assoc_str. change ("-" +:+ pretty m) with (String "-" (pretty m)).
  rewrite split_once_app by done. by rewrite !parse_usize_pretty.
Qed.
Lemma parse_range_open n :
  (n < 2 ^ 64)%N → parse_range_value (pretty n +:+ "-") = RangeParse.Valid n usize_MAX.
Proof.
  intros Hn. unfold parse_range_value. rewrite decide_False.
  2: { intros E. apply (f_equal String.length) in E. rewrite length_app_str in E. cbn in E. lia. }
  rewrite (proj2 (strip_suffix_char_Some "-" _ (pretty n)) eq_refl).
  assert (Str.strip_suffix_char "-" (pretty n) = None) as ->.
  { apply (strip_suffix_char_not "-" ""); [apply pretty_not_empty|].
    apply all_digits_no_char; [done|apply all_digits_pretty]. }
  cbn [default]. rewrite decide_False by apply pretty_not_empty. by rewrite parse_usize_pretty.
Qed.

(** The bytes [start..=end_] of the content, as far as it goes. *)
Definition range_of (content : list byte) (start end_ : N) : Response :=
  if ((end_ <? start) || (N.of_nat (length content) <=? start))%N then range_not_satisfiable
  else Response.ok (take (S (N.to_nat (end_ - start))) (drop (N.to_nat start) content)).

Lemma serve_range_spec content start end_ :
  (start ≤ end_)%N → serve_range content start end_ = range_of content start end_.
Proof.
  intros Hle. unfold serve_range, range_of. rewrite (proj2 (N.ltb_ge end_ start)) by done. cbn [orb].
  destruct (N.leb_spec (N.of_nat (length content)) start); [done|].
  rewrite (proj2 (N.ltb_ge _ _)) by lia. f_equal. unfold slice.
  destruct (decide (end_ ≤ N.of_nat (length content) - 1)%N).
  - rewrite N.min_l by done. f_equal. lia.
  - rewrite N.min_r by lia. rewrite !take_ge; [done|rewrite length_drop; lia..].
Qed.

Lemma fits_range content start end_ :
  (Z.of_nat (length content) < 2 ^ 32)%Z → fits (range_of content start end_).
Proof.
  intros Hl. unfold range_of. case_match; [done|]. split; [done|]. cbn [body Response.ok].
  rewrite length_take, length_drop. unfold inU. lia.
Qed.

Lemma range_path r n m :
  (n < 2 ^ 64)%N → (m < 2 ^ 64)%N → r = pretty n +:+ "-" +:+ pretty m ∨ r = pretty n +:+ "-" →
  String.length r ≤ 100 ∧ Str.all is_ascii r = true ∧ Str.no_char "&" r.
Proof.
  intros Hn Hm Hr.
  assert (∀ k : N, (k < 2 ^ 64)%N → String.length (pretty k) ≤ 20 ∧
    Str.all is_ascii (pretty k) = true ∧ Str.no_char "&" (pretty k)) as Hp.
  { intros k Hk. split_and!; [apply (length_pretty 19); by transitivity (2 ^ 64)%N| |].
    - eapply all_impl; [apply digit_is_ascii|apply all_digits_pretty].
    - apply all_digits_no_char; [done|apply all_digits_pretty]. }
  destruct (Hp n Hn) as (Hl1 & Ha1 & Hc1), (Hp m Hm) as (Hl2 & Ha2 & Hc2).
  destruct Hr as [-> | ->]; rewrite ?length_app_str, ?all_app, ?Ha1, ?Ha2; cbn [String.length];
    (split_and!; [lia|done|]); rewrite ?no_char_app; cbn; naive_solver.
Qed.

(** Fetching a part of a file: the range [n-m] gives the bytes from [n] to
    [m] inclusive, cut at the end of the file, and [n-] those from [n] on, with
    [200]; a range that starts after the file or after its own end gives [416],
    and a hash without a fresh file [404].  On failing writes the client gets
    that or an error. *)
Theorem fetch_range accept accept' e order now cs sha n m :
  (∀ m, order m ≡ₚ map_to_list m) → length sha = 32 →
  ByteCache.inv (file_cache cs) → (ByteCache.byte_budget (file_cache cs) < 2 ^ 32)%Z →
  (n < 2 ^ 64)%N → (m < 2 ^ 64)%N →
  let srv := served accept' e order now cs in
  let part end_ :=
    match fst (FileCache.lookup now sha (file_cache cs)) with
    | None => Response.not_found
    | Some content => range_of content n end_
    end in
  gives accept accept'
    (get_file true accept srv (full_hex sha) (Some (pretty n +:+ "-" +:+ pretty m))) (part m) ∧
  gives accept accept'
    (get_file true accept srv (full_hex sha) (Some (pretty n +:+ "-"))) (part usize_MAX).
Proof.
  intros Ho Hs Hi Hb Hn Hm srv part.
  destruct (full_hex_props sha) as (Hl & _ & _ & Ha).
  assert (∀ end_, fits (part end_)) as Hfits.
  { intros end_. unfold part. destruct (FileCache.lookup _ _ _) as [[bs|] c] eqn:E; [|done].
    apply fits_range. apply lookup_length in E; [|done]. lia. }
  assert (∀ r end_, r = pretty n +:+ "-" +:+ pretty m ∨ r = pretty n +:+ "-" →
    answer_to now cs (file_path (full_hex sha) (Some r)) = part end_ →
    gives accept accept' (get_file true accept srv (full_hex sha) (Some r)) (part end_)) as Hfetch.
  { intros r end_ Hr E. destruct (range_path r n m Hn Hm Hr) as (Hlr & Har & _). rewrite <- E.
    apply (fetch accept accept' e order now cs Ho); [| |rewrite E; apply Hfits..].
    - unfold file_path. apply ascii_path; [done|]. by rewrite !all_app, Ha, Har.
    - unfold file_path. rewrite !length_app_str. cbn [String.length]. unfold inU. lia. }
  assert (∀ r, r = pretty n +:+ "-" +:+ pretty m ∨ r = pretty n +:+ "-" → Str.no_char "&" r) as Hamp
    by (intros r Hr; by apply (range_path r n m Hn Hm)).
  split; apply Hfetch; [by left| |by right|]; unfold answer_to, part;
    rewrite file_range_answer by auto;
    destruct (fst (FileCache.lookup now sha (file_cache cs))) as [content|]; try done; cbn [fst].
  - rewrite parse_range_closed by done. destruct (N.ltb_spec m n).
    + unfold range_of. by rewrite (proj2 (N.ltb_lt m n)).
    + by apply serve_range_spec.
  - rewrite parse_range_open by done. apply serve_range_spec. unfold usize_MAX. lia.
Qed.

Lemma fetch_range_witness :
  get_file true (λ _, None)
    (served (λ _, None) Transport.UnexpectedEof map_to_list 7 demo_caches) (full_hex demo_sha)
    (Some (pretty 1%N +:+ "-" +:+ pretty 2%N)) = Ok (200%Z, [x62; x63]).
Proof.
  destruct (fetch_range (λ _, None) (λ _, None) Transport.UnexpectedEof map_to_list 7 demo_caches demo_sha 1 2)
    as ([_ H] & _); [done|done|apply demo_caches_inv|done|done|done|].
  rewrite H by done. vm_compute. reflexivity.
Defined.

(** * Telling requests from clipboard frames *)

Lemma looks_like_length z :
  (0 ≤ z < 2 ^ 32)%Z → looks_like_http3_request (be_bytes 4 z) = true → (196608 ≤ z < 524288)%Z.
Proof.
  intros [Hz Hb].
  unfold be_bytes, looks_like_http3_request. rewrite !Z_of_byte_of_Z.
  intros [[[H1%Z.eqb_eq [H2%Z.leb_le H3%Z.leb_le]%andb_true_iff]%andb_true_iff _]%andb_true_iff _]%andb_true_iff.
  rewrite Z.shiftr_div_pow2 in H1, H2, H3 by lia.
  change (2 ^ (8 * Z.of_nat 3))%Z with 16777216%Z in H1. change (2 ^ (8 * Z.of_nat 2))%Z with 65536%Z in H2, H3.
  change (2 ^ 32)%Z with 4294967296%Z in Hb.
  assert (z / 16777216 = 0)%Z as H0 by (rewrite Z.mod_small in H1; [done|split; [apply Z.div_pos; lia|apply Z.div_lt_upper_bound; lia]]).
  apply Z.div_small_iff in H0; [|lia].
  rewrite Z.mod_small in H2, H3 by (split; [apply Z.div_pos; lia|apply Z.div_lt_upper_bound; lia]).
  pose proof (Z.div_mod z 65536 ltac:(lia)). pose proof (Z.mod_pos_bound z 65536 eq_refl). lia.
Qed.

(** Every [GET] is taken for a request.  A clipboard frame on the same kind
    of stream is taken for one only if its length is at least 196608
    and below 524288, and some of those are: a frame of 214853 bytes starts like
    a request with a method of three bytes. *)
Theorem discriminator p b :
  looks_like_http3_request (take 4 (encode_request "GET" p b)) = true ∧
  (∀ body, (Z.of_nat (length body) < 2 ^ 32)%Z →
     looks_like_http3_request (take 4 (frame_of body)) = true →
     (196608 ≤ Z.of_nat (length body) < 524288)%Z) ∧
  (∀ body, Z.of_nat (length body) = 214853%Z →
     looks_like_http3_request (take 4 (frame_of body)) = true).
Proof.
  split; [done|].
  assert (∀ body, take 4 (frame_of body) = be_bytes 4 (Z.of_nat (length body))) as Htake.
  { intros body. unfold frame_of. by rewrite take_app_length' by (by rewrite length_be_bytes). }
  split; intros body Hb; rewrite Htake; [apply looks_like_length; lia|by rewrite Hb].
Qed.
