(* ===== verification/Session.v ===== *)
(** The session with one peer (src/quic_transport/session.rs): sending on its
    channels, and the main loop [run] of the dialing side.

    quinn is a set of answers: whether the [n]-th call opens a stream, how much
    of a write it takes, whether it takes a datagram.  What this side wrote is
    kept for every stream it opened.  The handshake is that of [Transport];
    [recv_a] is the rest of stream A after it. *)

From S2P Require Import Prelude InputEvent Proto Codec Wire Transport.

(** * The session *)

(** [quinn::ConnectionError], with the application's close code. *)
Inductive ConnectionError : Type :=
| VersionMismatch | TransportError | ConnectionClosed | ApplicationClosed (error_code : Z)
| Reset | TimedOut | LocallyClosed | CidsExhausted.
#[export] Instance ConnectionError_eq_dec : EqDecision ConnectionError.
Proof. solve_decision. Defined.

Inductive PeerRole : Type := Client | Server.
#[export] Instance PeerRole_eq_dec : EqDecision PeerRole.
Proof. solve_decision. Defined.

Definition WAKE_CLOSE_CODE : Z := 51966. (* 0xCAFE *)

(** [error_code.into_inner() as u32]: codes have 62 bits. *)
Definition should_retry_after_close (reason : ConnectionError) : bool :=
  match reason with
  | TimedOut => true
  | ApplicationClosed code => bool_decide (wrapU 32 code = WAKE_CLOSE_CODE)
  | _ => false
  end.

(** What this side wrote: for every stream it opened, in order, the bytes and
    whether it was finished; the datagrams; and the number of calls to quinn. *)
Record Net : Type := mkNet {
  streams : list (list byte * bool);
  dgrams : list (list byte);
  calls : nat
}.

(** The sending half of a channel inside the process: whether the receiver is
    still there, and what was sent. *)
Record Chan : Type := mkChan { rx_alive : bool; sent : list ProtoEvent }.
Definition chan_send (e : ProtoEvent) (c : Chan) : Chan :=
  if rx_alive c then mkChan true (sent c ++ [e]) else c.

Record Session : Type := mkSession {
  peer : Peer;
  cached_send_b : option nat;
  cached_send_c : option nat;
  outgoing_events : option Chan;
  clipboard_inbox : option Chan;
  stream_bunch : option (list nat);
  net : Net
}.

Definition set_peer (p : Peer) (s : Session) : Session :=
  mkSession p (cached_send_b s) (cached_send_c s) (outgoing_events s) (clipboard_inbox s)
    (stream_bunch s) (net s).
Definition set_send_b (b : option nat) (s : Session) : Session :=
  mkSession (peer s) b (cached_send_c s) (outgoing_events s) (clipboard_inbox s)
    (stream_bunch s) (net s).
Definition set_send_c (c : option nat) (s : Session) : Session :=
  mkSession (peer s) (cached_send_b s) c (outgoing_events s) (clipboard_inbox s)
    (stream_bunch s) (net s).
Definition set_outgoing_events (tx : option Chan) (s : Session) : Session :=
  mkSession (peer s) (cached_send_b s) (cached_send_c s) tx (clipboard_inbox s)
    (stream_bunch s) (net s).
Definition set_clipboard_inbox (tx : option Chan) (s : Session) : Session :=
  mkSession (peer s) (cached_send_b s) (cached_send_c s) (outgoing_events s) tx
    (stream_bunch s) (net s).
Definition set_bunch (b : option (list nat)) (s : Session) : Session :=
  mkSession (peer s) (cached_send_b s) (cached_send_c s) (outgoing_events s) (clipboard_inbox s)
    b (net s).
Definition set_net (n : Net) (s : Session) : Session :=
  mkSession (peer s) (cached_send_b s) (cached_send_c s) (outgoing_events s) (clipboard_inbox s)
    (stream_bunch s) n.

Definition new_session : Session :=
  mkSession Transport.from_connection None None None None None (mkNet [] [] 0).

(** * Sending *)

Definition MAX_SAFE_DATAGRAM : nat := 1162.

Inductive DatagramAnswer : Type := Sent | ConnectionLost | Refused.

Abbreviation M := (ST Session Error).

Section quinn.
(** The answers of quinn to the [n]-th call. *)
Variable open_ok : nat → bool.
Variable write_ok : nat → option nat.
Variable finish_ok : nat → bool.
Variable max_datagram_size : nat → option nat.
Variable datagram_ok : nat → DatagramAnswer.

Definition call (s : Session) : nat := calls (net s).
Definition count_call (s : Session) : Session :=
  set_net (mkNet (streams (net s)) (dgrams (net s)) (S (calls (net s)))) s.

(** [open_bi]: the number of the new stream. *)
Definition open_bi (err : Error) : M nat := λ s,
  if open_ok (call s)
  then (Ok (length (streams (net s))),
        set_net (mkNet (streams (net s) ++ [([], false)]) (dgrams (net s)) (S (calls (net s)))) s)
  else (Err err, count_call s).

Definition append_to (i : nat) (bs : list byte) (s : Session) : Session :=
  set_net (mkNet (alter (λ w, (w.1 ++ bs, w.2)) i (streams (net s))) (dgrams (net s))
             (S (calls (net s)))) s.

(** A write on a stream: all of it, or [k] bytes and an error. *)
Definition write (err : Error) (i : nat) (bs : list byte) : M unit := λ s,
  match write_ok (call s) with
  | None => (Ok tt, append_to i bs s)
  | Some k => (Err err, append_to i (take k bs) s)
  end.

Definition finish_stream (err : Error) (i : nat) : M unit := λ s,
  if finish_ok (call s)
  then (Ok tt, set_net (mkNet (alter (λ w, (w.1, true)) i (streams (net s))) (dgrams (net s))
                          (S (calls (net s)))) s)
  else (Err err, count_call s).

Definition write_u32 (err : Error) (i : nat) (n : nat) : M unit :=
  write err i (be_bytes 4 (Z.of_nat n)).

(** The cached stream, or a new one that is cached. *)
Definition cached_or_open (get : Session → option nat) (set : option nat → Session → Session)
    (err : Error) : M nat :=
  g ← gets get;
  match g with
  | Some i => mret i
  | None => i ← open_bi err; modify_st (set (Some i)) ≫= λ _, mret i
  end.

(** Run the writes; on a failure forget the stream and return the error. *)
Definition or_forget (set : option nat → Session → Session) (m : M unit) : M unit :=
  res ← attempt m;
  when (match res with inl _ => true | inr _ => false end) (modify_st (set None)) ≫= λ _,
  reply res.

Definition send_stream_b (bytes : list byte) : M unit :=
  i ← cached_or_open cached_send_b set_send_b (StreamB "open_bi: ");
  or_forget set_send_b
    (write_u32 (StreamB "write frame length: ") i (length bytes) ≫= λ _,
     write (StreamB "write frame body: ") i bytes).

Definition send_datagram_or_stream_b (bytes : list byte) : M unit :=
  limit ← gets (λ s, (λ m, m `min` MAX_SAFE_DATAGRAM) <$> max_datagram_size (call s));
  match limit with
  | Some limit =>
      if decide (length bytes ≤ limit) then
        answer ← gets (λ s, datagram_ok (call s));
        match answer with
        | Sent =>
            modify_st (λ s, set_net (mkNet (streams (net s)) (dgrams (net s) ++ [bytes])
                                       (S (calls (net s)))) s)
        | ConnectionLost => modify_st count_call ≫= λ _, raise Datagram
        | Refused => modify_st count_call ≫= λ _, send_stream_b bytes
        end
      else send_stream_b bytes
  | None => send_stream_b bytes
  end.

(** [event.clone().into()]: it panics on a clipboard event. *)
Definition encode_fixed (event : ProtoEvent) : M (list byte * nat) := λ s,
  (match Fixed.encode event with
   | Ok x => Ok x
   | Err _ | Panic => Panic
   | Diverge => Diverge
   end, s).

Definition send_motion (event : ProtoEvent) : M unit :=
  ok ← gets (λ s, hello_ok (peer s));
  if negb ok then raise (HelloFailed "hello not complete")
  else '(buf, _) ← encode_fixed event; send_datagram_or_stream_b buf.

(** Writing a frame of [protocol.rs]: [None] is an event that does not encode. *)
Definition write_stream_c (i : nat) (event : ProtoEvent) : M unit :=
  match encode_vec event with
  | Ok body =>
      write_u32 (HelloFailed "write_stream_c_frame: ") i (length body) ≫= λ _,
      when (negb (bool_decide (body = []))) (write (HelloFailed "write_stream_c_frame: ") i body)
  | Err _ => raise (HelloFailed "write_stream_c_frame: ")
  | Panic => panic
  | Diverge => λ s, (Diverge, s)
  end.

Definition send_stream_c (event : ProtoEvent) : M unit :=
  i ← cached_or_open cached_send_c set_send_c (HelloFailed "open stream C: ");
  or_forget set_send_c (write_stream_c i event).

Definition send_stream_a (bytes : list byte) : M unit :=
  g ← gets (λ s, cached_send_a (peer s));
  match g with
  | Some i =>
      write_u32 (HelloFailed "send_stream_a cached length: ") i (length bytes) ≫= λ _,
      write (HelloFailed "send_stream_a cached body: ") i bytes
  | None =>
      i ← open_bi (HelloFailed "send_stream_a open_bi: ");
      write_u32 (HelloFailed "send_stream_a length: ") i (length bytes) ≫= λ _,
      write (HelloFailed "send_stream_a body: ") i bytes ≫= λ _,
      finish_stream (HelloFailed "send_stream_a finish: ") i
  end.

Definition send_input (event : ProtoEvent) (cfg : InputChannelConfig) : M unit :=
  match route_input cfg event with
  | Channel.Datagram => send_motion event
  | Channel.StreamA => '(buf, len) ← encode_fixed event; send_stream_a (take len buf)
  | Channel.StreamB => '(buf, len) ← encode_fixed event; send_stream_b (take len buf)
  | Channel.StreamC => send_stream_c event
  end.
End quinn.

(** * The main loop *)

Definition send_chan (get : Session → option Chan) (set : option Chan → Session → Session)
    (event : ProtoEvent) (s : Session) : Session := set (chan_send event <$> get s) s.
Definition send_outgoing_event := send_chan outgoing_events set_outgoing_events.
Definition send_clipboard_inbox := send_chan clipboard_inbox set_clipboard_inbox.

Definition conn_close (why : string) (s : Session) : Session := set_peer (close why (peer s)) s.

(** The branch of the [select!] that is taken.  [lost] is the number of bytes
    of stream A that the abandoned [read_frame] of the other branch had already
    taken: that future is dropped with them. *)
Inductive Pick : Type :=
| PickA
| PickB (lost : nat) (evt : option StreamEvent)
| PickD (lost : nat) (evt : option StreamEvent)
| PickC (lost : nat) (evt : option StreamEvent)
| PickClosed.

Inductive Loop : Type := Continue | Break | Return (e : Error) | Panicked.

Definition lose (k : nat) (r : RecvStream) : RecvStream := mkRecv (drop k (r_bytes r)) (r_end r).

Definition run_turn (pick : Pick) (recv_a : RecvStream) (s : Session) : Loop * RecvStream * Session :=
  match pick with
  | PickA =>
      match read_frame recv_a with
      | (Ok event, recv_a) => (Continue, recv_a, send_outgoing_event event s)
      | (Err (FrameTooLarge len), recv_a) => (Return (FrameTooLarge len), recv_a, s)
      | (Err Truncated, recv_a) =>
          (Break, recv_a, send_outgoing_event (ProtoEvent.Leave 0) (conn_close "peer closed stream" s))
      | (Err (HelloFailed msg), recv_a) =>
          if starts_with "read frame" msg
          then (Break, recv_a,
                send_outgoing_event (ProtoEvent.Leave 0) (conn_close "peer read IO error" s))
          else (Continue, recv_a, s)
      | (Err _, recv_a) => (Continue, recv_a, s)
      | (Panic, recv_a) | (Diverge, recv_a) => (Panicked, recv_a, s)
      end
  | PickB lost evt | PickD lost evt =>
      (match evt with Some _ => Continue | None => Break end, lose lost recv_a, s)
  | PickC lost evt =>
      match evt with
      | Some (ClipboardMeta event) => (Continue, lose lost recv_a, send_clipboard_inbox event s)
      | Some _ => (Continue, lose lost recv_a, s)
      | None => (Break, lose lost recv_a, s)
      end
  | PickClosed => (Break, recv_a, send_outgoing_event (ProtoEvent.Leave 0) s)
  end.

Fixpoint run_loop (picks : list Pick) (recv_a : RecvStream) (s : Session)
    : Loop * RecvStream * Session :=
  match picks with
  | [] => (Continue, recv_a, s)
  | p :: picks =>
      match run_turn p recv_a s with
      | (Continue, recv_a, s) => run_loop picks recv_a s
      | res => res
      end
  end.

Inductive RunResult : Type :=
| Running | Failed (e : Error) | Closed (reason : ConnectionError) | RunPanicked.

(** [close_reason]: [remote] is the reason the connection had when the loop was
    left; without one, and when this side closed it, the answer is
    [LocallyClosed]. *)
Definition exit_reason (remote : option ConnectionError) : ConnectionError :=
  default LocallyClosed remote.

(** [run]: [hello] are the answers to the handshake; [bidis n] says whether the
    [n]-th call opens or accepts a stream. *)
Definition run (commit : list byte) (hello : HelloEnv) (bidis : nat → bool) (picks : list Pick)
    (remote : option ConnectionError) (role : PeerRole) (s : Session) : RunResult * Session :=
  let '(res, p) :=
    if hello_ok (peer s) then (Ok tt, peer s)
    else match role with
         | Client => snd (client_hello commit hello (peer s))
         | Server => snd (server_hello commit hello (peer s))
         end in
  let s := set_peer p s in
  match res with
  | Err e => (Failed e, s)
  | Panic | Diverge => (RunPanicked, s)
  | Ok _ =>
      let '(recv_a, p) := take_stream_a_recv (peer s) in
      let s := set_peer p s in
      match recv_a with
      | None => (Failed (HelloFailed "stream A recv missing after hello"), s)
      | Some recv_a =>
          let '(pairs, s) :=
            match role with
            | Client =>
                (i ← open_bi bidis (HelloFailed "open_bi #"); j ← open_bi bidis (HelloFailed "open_bi #");
                 k ← open_bi bidis (HelloFailed "open_bi #"); mret [i; j; k]) s
            | Server =>
                (if bidis 0 && bidis 1 && bidis 2 then Ok [0; 1; 2]
                 else Err (HelloFailed "accept_bi #"), s)
            end in
          match pairs with
          | Err e => (Failed e, s)
          | Panic | Diverge => (RunPanicked, s)
          | Ok pairs =>
              (* [read_loop] takes the bunch that was just set. *)
              let s := set_bunch None (set_bunch (Some pairs) s) in
              match run_loop picks recv_a s with
              | (Continue, _, s) => (Running, s)
              | (Break, _, s) => (Closed (exit_reason remote), s)
              | (Return e, _, s) => (Failed e, s)
              | (Panicked, _, s) => (RunPanicked, s)
              end
          end
      end
  end.

(** * Sending in order *)

(** What a stream carries. *)
Definition bytes_on (s : Session) (o : option nat) : list byte :=
  match o with Some i => default [] (fst <$> streams (net s) !! i) | None => [] end.

(** After the handshake, while nothing fails: stream A is cached, and the
    cached streams are different and all the streams that this side opened. *)
Definition established (s : Session) : Prop :=
  hello_ok (peer s) = true ∧
  ∃ a, cached_send_a (peer s) = Some a ∧ a < length (streams (net s)) ∧
    (∀ b, cached_send_b s = Some b → b < length (streams (net s)) ∧ b ≠ a) ∧
    (∀ c, cached_send_c s = Some c → c < length (streams (net s)) ∧ c ≠ a ∧ cached_send_b s ≠ Some c) ∧
    ∀ i, i < length (streams (net s)) → i = a ∨ cached_send_b s = Some i ∨ cached_send_c s = Some i.

(** What reaches the peer: the bytes of the three streams and the datagrams. *)
Record View : Type := mkView { on_a : list byte; on_b : list byte; on_c : list byte; by_dgram : list (list byte) }.
Definition view (s : Session) : View :=
  mkView (bytes_on s (cached_send_a (peer s))) (bytes_on s (cached_send_b s))
    (bytes_on s (cached_send_c s)) (dgrams (net s)).

(** The bodies of the frames of an event: cut to its length, or in full. *)
Definition short_body (e : ProtoEvent) : list byte := Fixed.type_byte e :: Fixed.body e.
Definition full_body (e : ProtoEvent) : list byte := zero_padded (short_body e).

(** What sending one event adds; [dg] says whether datagrams work. *)
Definition add_event (dg : bool) (cfg : InputChannelConfig) (v : View) (e : ProtoEvent) : View :=
  match route_input cfg e with
  | Channel.Datagram =>
      if dg then mkView (on_a v) (on_b v) (on_c v) (by_dgram v ++ [full_body e])
      else mkView (on_a v) (on_b v ++ frame_of (full_body e)) (on_c v) (by_dgram v)
  | Channel.StreamA => mkView (on_a v ++ frame_of (short_body e)) (on_b v) (on_c v) (by_dgram v)
  | Channel.StreamB => mkView (on_a v) (on_b v ++ frame_of (short_body e)) (on_c v) (by_dgram v)
  | Channel.StreamC =>
      mkView (on_a v) (on_b v) (on_c v ++ frame_of (Fixed.type_byte e :: frame_body e)) (by_dgram v)
  end.

(** What does not go to stream C is a fixed event, and encodes. *)
Lemma fixed_sent e : event_wf e → ∀ cfg, route_input cfg e ≠ Channel.StreamC →
  Fixed.wf e ∧ ∃ buf, Fixed.encode e = Ok (buf, S (length (Fixed.body e))) ∧
    take (S (length (Fixed.body e))) buf = short_body e.
Proof.
  intros Hwf cfg Hr. assert (Fixed.wf e) as Hf.
  { apply event_wf_fixed; [done|]. destruct e as [| | |[[]|[]]| | | | | | | | | |]; done || by destruct Hr. }
  split; [done|]. by apply encode_take.
Qed.

(** The session after a frame on stream [i]. *)
Definition wrote (i : nat) (bs : list byte) (s s' : Session) : Prop :=
  peer s' = peer s ∧ cached_send_b s' = cached_send_b s ∧ cached_send_c s' = cached_send_c s ∧
  dgrams (net s') = dgrams (net s) ∧
  streams (net s') = alter (λ w, (w.1 ++ bs, w.2)) i (streams (net s)).

(** What a frame leaves on its stream. *)
Lemma frame_any write_ok e1 e2 i bs s :
  ∃ r s' out, (write_u32 write_ok e1 i (length bs) ≫= λ _, write write_ok e2 i bs) s = (r, s') ∧
    wrote i out s s' ∧ out `prefix_of` frame_of bs ∧
    ((r = Ok tt ∧ out = frame_of bs) ∨ ∃ e, r = Err e) ∧ ((∀ n, write_ok n = None) → r = Ok tt).
Proof.
  unfold mbind, ST_bind, write_u32, write.
  destruct (write_ok (call s)) as [k|] eqn:E1.
  { exists (Err e1), (append_to i (take k (be_bytes 4 (Z.of_nat (length bs)))) s),
      (take k (be_bytes 4 (Z.of_nat (length bs)))).
    split_and!; [done|done|apply prefix_app_r, prefix_take|eauto|congruence]. }
  destruct (write_ok (call (append_to i (be_bytes 4 (Z.of_nat (length bs))) s))) as [k|] eqn:E2.
  - exists (Err e2). eexists. exists (be_bytes 4 (Z.of_nat (length bs)) ++ take k bs).
    split_and!; [reflexivity| |apply prefix_app, prefix_take|eauto|congruence].
    unfold wrote, append_to. cbn. split_and!; try done.
    rewrite list_alter_alter_eq. apply list_alter_ext; [|done]. intros w _. cbn. by rewrite app_assoc.
  - exists (Ok tt). eexists. exists (frame_of bs).
    split_and!; [reflexivity| |done|by left|done].
    unfold wrote, append_to. cbn. split_and!; try done.
    rewrite list_alter_alter_eq. apply list_alter_ext; [|done]. intros w _. cbn.
    unfold frame_of. by rewrite app_assoc.
Qed.
Section perfect.
(** quinn does everything that is asked; datagrams work or they do not. *)
Context (open_ok : nat → bool) (write_ok : nat → option nat) (finish_ok : nat → bool).
Context (max_datagram_size : nat → option nat) (datagram_ok : nat → DatagramAnswer).
Hypothesis Hopen : ∀ n, open_ok n = true.
Hypothesis Hwrite : ∀ n, write_ok n = None.

Lemma established_caches s :
  established s →
  ∃ a, cached_send_a (peer s) = Some a ∧ a < length (streams (net s)).
Proof. intros (_ & a & Ha & Hl & _). eauto. Qed.

Lemma frame_ok e1 e2 i bs s :
  ∃ s', (write_u32 write_ok e1 i (length bs) ≫= λ _, write write_ok e2 i bs) s = (Ok tt, s') ∧
    wrote i (frame_of bs) s s'.
Proof.
  destruct (frame_any write_ok e1 e2 i bs s) as (r & s' & out & E & Hw & _ & Hr & Hok).
  rewrite (Hok Hwrite) in *. destruct Hr as [[_ ->]|[? [=]]]. eauto.
Qed.

Lemma bytes_on_alter (l : list (list byte * bool)) i j bs :
  i < length l →
  default [] (fst <$> alter (λ w, (w.1 ++ bs, w.2)) i l !! j) =
  default [] (fst <$> l !! j) ++ (if decide (i = j) then bs else []).
Proof.
  intros Hi. case_decide as Hij; [subst j|].
  - rewrite list_lookup_alter. destruct (lookup_lt_is_Some_2 l i Hi) as [w E]. rewrite E. cbn. by rewrite decide_True.
  - rewrite list_lookup_alter, decide_False by done. destruct (l !! j); by rewrite app_nil_r.
Qed.
Lemma wrote_bytes i bs s s' o :
  wrote i bs s s' → i < length (streams (net s)) →
  bytes_on s' o = bytes_on s o ++ (if decide (o = Some i) then bs else []).
Proof.
  intros (_ & _ & _ & _ & Hs) Hi. destruct o as [j|]; [|done]. unfold bytes_on.
  rewrite Hs, bytes_on_alter by done. repeat case_decide; naive_solver.
Qed.
Lemma wrote_established i bs s s' : wrote i bs s s' → established s → established s'.
Proof.
  intros (Hp & Hb & Hc & _ & Hs) (Hh & a & Ha & Hl & HB & HC). unfold established.
  rewrite Hp, Hb, Hc, Hs, length_alter. split; [done|]. by exists a.
Qed.

(** A stream that is opened carries nothing yet. *)
Lemma open_b_ok s :
  established s → cached_send_b s = None →
  ∃ s', cached_or_open open_ok cached_send_b set_send_b (StreamB "open_bi: ") s
        = (Ok (length (streams (net s))), s') ∧
    established s' ∧ view s' = view s ∧ cached_send_b s' = Some (length (streams (net s))).
Proof.
  intros Hs Hb. eexists. unfold cached_or_open, mbind, ST_bind, gets, open_bi. rewrite Hb, Hopen.
  split; [done|]. destruct Hs as (Hh & a & Ha & Hl & HB & HC & HI). split_and!; [|unfold view|done].
  - split; [done|]. exists a. cbn. rewrite length_app. cbn.
    split_and!; [done|lia|intros b [= <-]; lia|intros c Hcc|intros i Hi].
    + destruct (HC c Hcc) as (? & ? & ?). split_and!; [lia|done|intros [= E]; lia].
    + destruct (decide (i = length (streams (net s)))) as [->|]; [by right; left|].
      destruct (HI i ltac:(lia)) as [|[E|]]; [by left|by rewrite Hb in E|by right; right].
  - cbn. rewrite Hb, Ha. cbn. rewrite lookup_app_l by done.
    rewrite lookup_app_r, Nat.sub_diag by lia. cbn.
    destruct (cached_send_c s) as [c|] eqn:Ec; [|done]. cbn.
    destruct (HC c eq_refl) as (? & ? & ?). by rewrite lookup_app_l by lia.
Qed.
Lemma open_c_ok s :
  established s → cached_send_c s = None →
  ∃ s', cached_or_open open_ok cached_send_c set_send_c (HelloFailed "open stream C: ") s
        = (Ok (length (streams (net s))), s') ∧
    established s' ∧ view s' = view s ∧ cached_send_c s' = Some (length (streams (net s))).
Proof.
  intros Hs Hb. eexists. unfold cached_or_open, mbind, ST_bind, gets, open_bi. rewrite Hb, Hopen.
  split; [done|]. destruct Hs as (Hh & a & Ha & Hl & HB & HC & HI). split_and!; [|unfold view|done].
  - split; [done|]. exists a. cbn. rewrite length_app. cbn.
    split_and!; [done|lia|intros b Hbb; destruct (HB b Hbb); lia|intros c [= <-]|intros i Hi].
    + split_and!; [lia|lia|]. intros E. destruct (HB _ E). lia.
    + destruct (decide (i = length (streams (net s)))) as [->|]; [by right; right|].
      destruct (HI i ltac:(lia)) as [|[|E]]; [by left|by right; left|by rewrite Hb in E].
  - cbn. rewrite Hb, Ha. cbn. rewrite lookup_app_l by done.
    rewrite lookup_app_r, Nat.sub_diag by lia. cbn.
    destruct (cached_send_b s) as [c|] eqn:Ec; [|done]. cbn.
    destruct (HB c eq_refl) as (? & ?). by rewrite lookup_app_l by lia.
Qed.

(** Writing a frame on a stream of [s] and keeping the stream cached. *)
Lemma kept set e1 e2 i bs s :
  ∃ s', or_forget set (write_u32 write_ok e1 i (length bs) ≫= λ _, write write_ok e2 i bs) s
        = (Ok tt, s') ∧ wrote i (frame_of bs) s s'.
Proof.
  destruct (frame_ok e1 e2 i bs s) as (s' & E & Hw). exists s'. split; [|done].
  unfold or_forget, attempt, mbind at 1, ST_bind at 1. rewrite E. done.
Qed.

Lemma add_to_view i bs s s' :
  established s → wrote i bs s s' → i < length (streams (net s)) →
  established s' ∧
  view s' = mkView (on_a (view s) ++ (if decide (cached_send_a (peer s) = Some i) then bs else []))
                   (on_b (view s) ++ (if decide (cached_send_b s = Some i) then bs else []))
                   (on_c (view s) ++ (if decide (cached_send_c s = Some i) then bs else []))
                   (by_dgram (view s)).
Proof.
  intros He Hw Hi. split; [by eapply wrote_established|]. pose proof Hw as (Hp & Hb & Hc & Hd & _).
  unfold view. cbn [on_a on_b on_c by_dgram]. rewrite Hp, Hb, Hc, Hd.
  by rewrite !(wrote_bytes i bs s s' _ Hw Hi).
Qed.

Lemma send_b_ok bs s :
  established s →
  ∃ s', send_stream_b open_ok write_ok bs s = (Ok tt, s') ∧ established s' ∧
    view s' = mkView (on_a (view s)) (on_b (view s) ++ frame_of bs) (on_c (view s)) (by_dgram (view s)).
Proof.
  intros He.
  assert (∃ i s1, cached_or_open open_ok cached_send_b set_send_b (StreamB "open_bi: ") s = (Ok i, s1) ∧
    established s1 ∧ view s1 = view s ∧ cached_send_b s1 = Some i) as (i & s1 & E1 & He1 & Hv1 & Hb1).
  { destruct (cached_send_b s) as [i|] eqn:Eb.
    - exists i, s. unfold cached_or_open, mbind, ST_bind, gets. by rewrite Eb.
    - destruct (open_b_ok s He Eb) as (s1 & ? & ? & ? & ?). eauto 10. }
  destruct (kept set_send_b (StreamB "write frame length: ") (StreamB "write frame body: ") i bs s1)
    as (s2 & E2 & Hw).
  pose proof He1 as (_ & a & Ha & _ & HB & HC & _). destruct (HB i Hb1) as [Hi Hne].
  destruct (add_to_view i _ s1 s2 He1 Hw Hi) as [He2 Hv2].
  exists s2. unfold send_stream_b, mbind at 1, ST_bind at 1. rewrite E1. split_and!; [exact E2|done|].
  rewrite Hv2, Hv1. rewrite decide_False by congruence. rewrite (decide_True (P := _ = Some i)) by done.
  rewrite decide_False by (intros Ec; destruct (HC i Ec) as (_ & _ & []); done). by rewrite !app_nil_r.
Qed.
Lemma send_c_ok e s :
  established s → event_wf e →
  ∃ s', send_stream_c open_ok write_ok e s = (Ok tt, s') ∧ established s' ∧
    view s' = mkView (on_a (view s)) (on_b (view s))
                (on_c (view s) ++ frame_of (Fixed.type_byte e :: frame_body e)) (by_dgram (view s)).
Proof.
  intros He Hwf.
  assert (∃ i s1, cached_or_open open_ok cached_send_c set_send_c (HelloFailed "open stream C: ") s = (Ok i, s1) ∧
    established s1 ∧ view s1 = view s ∧ cached_send_c s1 = Some i) as (i & s1 & E1 & He1 & Hv1 & Hb1).
  { destruct (cached_send_c s) as [i|] eqn:Eb.
    - exists i, s. unfold cached_or_open, mbind, ST_bind, gets. by rewrite Eb.
    - destruct (open_c_ok s He Eb) as (s1 & ? & ? & ? & ?). eauto 10. }
  destruct (kept set_send_c (HelloFailed "write_stream_c_frame: ") (HelloFailed "write_stream_c_frame: ")
    i (Fixed.type_byte e :: frame_body e) s1) as (s2 & E2 & Hw).
  pose proof He1 as (_ & a & Ha & _ & HB & HC & _). destruct (HC i Hb1) as (Hi & Hne & Hneb).
  destruct (add_to_view i _ s1 s2 He1 Hw Hi) as [He2 Hv2].
  exists s2. unfold send_stream_c, mbind at 1, ST_bind at 1. rewrite E1. split_and!; [|done|].
  - unfold write_stream_c. rewrite encode_vec_ok by done. exact E2.
  - rewrite Hv2, Hv1. rewrite decide_False by congruence. rewrite decide_False by done.
    rewrite decide_True by done. by rewrite !app_nil_r.
Qed.
Lemma send_a_ok bs s :
  established s →
  ∃ s', send_stream_a open_ok write_ok finish_ok bs s = (Ok tt, s') ∧ established s' ∧
    view s' = mkView (on_a (view s) ++ frame_of bs) (on_b (view s)) (on_c (view s)) (by_dgram (view s)).
Proof.
  intros He. pose proof He as (_ & a & Ha & Hi & HB & HC & _).
  destruct (frame_ok (HelloFailed "send_stream_a cached length: ") (HelloFailed "send_stream_a cached body: ")
    a bs s) as (s' & E & Hw).
  destruct (add_to_view a _ s s' He Hw Hi) as [He' Hv']. exists s'. split_and!; [|done|].
  - unfold send_stream_a, mbind at 1, ST_bind at 1, gets. rewrite Ha. exact E.
  - rewrite Hv', decide_True by done. rewrite !decide_False; [by rewrite !app_nil_r| |].
    + intros Ec. by destruct (HC a Ec) as (_ & [] & _).
    + intros Eb. by destruct (HB a Eb) as (_ & []).
Qed.

(** Whether datagrams work. *)
Variable dg : bool.
Hypothesis Hdg : if dg
  then (∀ n, ∃ m, max_datagram_size n = Some m ∧ MAX_EVENT_SIZE ≤ m) ∧ (∀ n, datagram_ok n = Sent)
  else ∀ n, max_datagram_size n = None.

Lemma send_input_ok e cfg s :
  established s → event_wf e →
  ∃ s', send_input open_ok write_ok finish_ok max_datagram_size datagram_ok e cfg s = (Ok tt, s') ∧
    established s' ∧ view s' = add_event dg cfg (view s) e.
Proof.
  intros He Hwf. unfold send_input, add_event.
  destruct (route_input cfg e) eqn:Er.
  - assert (Fixed.wf e) as Hf.
    { apply event_wf_fixed; [done|]. by destruct e as [| | |[[]|[]]| | | | | | | | | |]. }
    unfold send_motion, mbind at 1, ST_bind at 1, gets. rewrite (proj1 He). cbn [negb].
    unfold encode_fixed, mbind at 1, ST_bind at 1. rewrite Fixed.encode_spec by done.
    change (Fixed.type_byte e :: Fixed.body e ++ replicate (20 - length (Fixed.body e)) x00)
      with (full_body e).
    unfold send_datagram_or_stream_b, mbind at 1, ST_bind at 1, gets. destruct dg.
    + destruct Hdg as [Hmax Hsent]. destruct (Hmax (call s)) as (m & -> & Hm). cbn [fmap option_fmap option_map].
      rewrite decide_True.
      2: { unfold full_body, zero_padded, short_body. rewrite length_app, length_replicate.
           pose proof (Fixed.body_length e Hf). unfold MAX_SAFE_DATAGRAM. change MAX_EVENT_SIZE with 21 in *.
           cbn [length]. lia. }
      unfold mbind at 1, ST_bind at 1. rewrite Hsent. eexists. split; [done|]. split; [|done].
      destruct He as (Hh & a & Ha & Hl & HB & HC). split; [done|]. by exists a.
    + rewrite Hdg. by apply send_b_ok.
  - destruct (fixed_sent e Hwf cfg) as [Hf (buf & Ee & Et)]; [by rewrite Er|].
    unfold encode_fixed, mbind at 1, ST_bind at 1. rewrite Ee, Et. by apply send_a_ok.
  - destruct (fixed_sent e Hwf cfg) as [Hf (buf & Ee & Et)]; [by rewrite Er|].
    unfold encode_fixed, mbind at 1, ST_bind at 1. rewrite Ee, Et. by apply send_b_ok.
  - by apply send_c_ok.
Qed.
End perfect.

(** The events of [es], one after the other; a failed one is given up. *)
Section send_all.
Context (open_ok : nat → bool) (write_ok : nat → option nat) (finish_ok : nat → bool).
Context (max_datagram_size : nat → option nat) (datagram_ok : nat → DatagramAnswer).

Definition send_all (cfg : InputChannelConfig) (es : list ProtoEvent) : M unit :=
  for_each (λ e, attempt (send_input open_ok write_ok finish_ok max_datagram_size datagram_ok e cfg)
                   ≫= λ _, mret tt) es.

Lemma send_all_ok dg cfg es s :
  (∀ n, open_ok n = true) → (∀ n, write_ok n = None) →
  (if dg : bool
   then (∀ n, ∃ m, max_datagram_size n = Some m ∧ MAX_EVENT_SIZE ≤ m) ∧ (∀ n, datagram_ok n = Sent)
   else ∀ n, max_datagram_size n = None) →
  established s → Forall event_wf es →
  ∃ s', send_all cfg es s = (Ok tt, s') ∧ established s' ∧
    view s' = foldl (add_event dg cfg) (view s) es.
Proof.
  intros Ho Hw Hd He Hes. revert s He. induction Hes as [|e es Hwf Hes IH]; intros s He.
  { by exists s. }
  destruct (send_input_ok open_ok write_ok finish_ok max_datagram_size datagram_ok Ho Hw dg Hd e cfg s He Hwf)
    as (s1 & E1 & He1 & Hv1).
  destruct (IH s1 He1) as (s2 & E2 & He2 & Hv2). exists s2. split_and!; [|done|].
  - unfold send_all. cbn [for_each]. unfold mbind at 1, ST_bind at 1, attempt, mbind at 1, ST_bind at 1.
    rewrite E1. exact E2.
  - rewrite Hv2, Hv1. done.
Qed.

(** Sending leaves the handshake's part of the session alone. *)
Lemma send_input_peer e cfg p :
  preserves (λ s, peer s = p)
    (send_input open_ok write_ok finish_ok max_datagram_size datagram_ok e cfg).
Proof.
  assert (∀ err i bs, preserves (λ s, peer s = p) (write write_ok err i bs)) as Hw.
  { intros err i bs s Hs. unfold write. by destruct (write_ok (call s)). }
  assert (∀ err, preserves (λ s, peer s = p) (open_bi open_ok err)) as Ho.
  { intros err s Hs. unfold open_bi. by destruct (open_ok (call s)). }
  assert (∀ err i, preserves (λ s, peer s = p) (finish_stream finish_ok err i)) as Hf.
  { intros err i s Hs. unfold finish_stream. by destruct (finish_ok (call s)). }
  assert (∀ bytes, preserves (λ s, peer s = p) (send_stream_b open_ok write_ok bytes)) as Hb.
  { intros bytes. apply preserves_bind.
    - apply preserves_bind; [apply preserves_gets|]. intros [i|]; [apply preserves_ret|].
      apply preserves_bind; [apply Ho|]. intros i. apply preserves_bind; [by apply preserves_modify|].
      intros _. apply preserves_ret.
    - intros i. apply preserves_bind; [apply preserves_attempt|intros res].
      + apply preserves_bind; [apply Hw|]. intros _. apply Hw.
      + apply preserves_bind; [apply preserves_when; by apply preserves_modify|]. intros _. apply preserves_reply. }
  assert (∀ e, preserves (λ s, peer s = p) (encode_fixed e)) as He by (intros e0 s Hs; done).
  unfold send_input. destruct (route_input cfg e).
  - apply preserves_bind; [apply preserves_gets|]. intros []; [|apply preserves_raise].
    apply preserves_bind; [apply He|]. intros [].
    apply preserves_bind; [apply preserves_gets|]. intros [limit|]; [|apply Hb].
    case_decide; [|apply Hb]. apply preserves_bind; [apply preserves_gets|]. intros [].
    + by apply preserves_modify.
    + apply preserves_bind; [by apply preserves_modify|]. intros _. apply preserves_raise.
    + apply preserves_bind; [by apply preserves_modify|]. intros _. apply Hb.
  - apply preserves_bind; [apply He|]. intros []. apply preserves_bind; [apply preserves_gets|]. intros [i|].
    + apply preserves_bind; [apply Hw|]. intros _. apply Hw.
    + apply preserves_bind; [apply Ho|]. intros i. apply preserves_bind; [apply Hw|]. intros _.
      apply preserves_bind; [apply Hw|]. intros _. apply Hf.
  - apply preserves_bind; [apply He|]. intros []. apply Hb.
  - apply preserves_bind.
    + apply preserves_bind; [apply preserves_gets|]. intros [i|]; [apply preserves_ret|].
      apply preserves_bind; [apply Ho|]. intros i. apply preserves_bind; [by apply preserves_modify|].
      intros _. apply preserves_ret.
    + intros i. apply preserves_bind; [apply preserves_attempt|intros res].
      * unfold write_stream_c. destruct (encode_vec e); [|apply preserves_raise|apply preserves_panic|by intros s].
        apply preserves_bind; [apply Hw|]. intros _. apply preserves_when, Hw.
      * apply preserves_bind; [apply preserves_when; by apply preserves_modify|]. intros _. apply preserves_reply.
Qed.
Lemma send_all_peer cfg es p : preserves (λ s, peer s = p) (send_all cfg es).
Proof.
  apply preserves_for_each. intros e.
  apply preserves_bind; [apply preserves_attempt, send_input_peer|intros; apply preserves_ret].
Qed.

(** ** Whatever quinn does *)

Lemma encode_vec_cons e body : encode_vec e = Ok body → body ≠ [].
Proof.
  destruct (is_fixed_event e) eqn:Ef.
  - assert (encode_vec e = '(arr, len) ← Fixed.encode e;
      Ok (be_bytes 1 (EventType.to_u8 (ProtoEvent.event_type e)) ++ drop 1 (take len arr))) as -> by by destruct e.
    intros ([arr len] & _ & [= <-])%outcome_bind_ok. done.
  - rewrite encode_vec_var by done. by intros [= <-].
Qed.

Definition whole (bs : list byte) : Prop := ∃ bodies, bs = concat (frame_of <$> bodies).
Definition torn (bs : list byte) : Prop :=
  ∃ bodies body tl, bs = concat (frame_of <$> bodies) ++ tl ∧ tl `prefix_of` frame_of body.

Lemma whole_torn bs : whole bs → torn bs.
Proof. intros [bodies ->]. exists bodies, [], []. rewrite app_nil_r. split; [done|apply prefix_nil]. Qed.
Lemma whole_frame bs body : whole bs → whole (bs ++ frame_of body).
Proof. intros [bodies ->]. exists (bodies ++ [body]). by rewrite fmap_app, concat_app, <- (app_nil_r (frame_of body)). Qed.

(** Every stream but the cached stream A carries whole frames and at most a
    part of one more, and a stream that is cached carries whole frames only. *)
Definition untorn (s : Session) : Prop :=
  ∃ a, cached_send_a (peer s) = Some a ∧ a < length (streams (net s)) ∧
    (∀ b, cached_send_b s = Some b → b < length (streams (net s)) ∧ b ≠ a) ∧
    (∀ c, cached_send_c s = Some c → c < length (streams (net s)) ∧ c ≠ a ∧ cached_send_b s ≠ Some c) ∧
    ∀ i w, streams (net s) !! i = Some w → i ≠ a → torn w.1 ∧
      (cached_send_b s = Some i ∨ cached_send_c s = Some i → whole w.1).


Lemma untorn_caches s s' :
  peer s' = peer s → net s' = net s →
  (∀ b, cached_send_b s' = Some b → cached_send_b s = Some b) →
  (∀ c, cached_send_c s' = Some c → cached_send_c s = Some c) →
  untorn s → untorn s'.
Proof.
  intros Hp Hn Hb Hc (a & Ha & Hl & HB & HC & HS). exists a. rewrite Hp, Hn. split_and!; [done|done|auto| |].
  - intros c Ec. destruct (HC c (Hc c Ec)) as (? & ? & Hne). split_and!; [done|done|]. intros E. by apply Hne, Hb.
  - intros i w Hi Hne. destruct (HS i w Hi Hne) as [? Hw]. split; [done|].
    intros [E|E]; apply Hw; auto.
Qed.

(** Writing [out] on stream [i] and, if that is not a whole frame, forgetting
    the stream. *)
Lemma untorn_wrote i out body s s1 :
  untorn s → wrote i out s s1 → out `prefix_of` frame_of body →
  cached_send_b s = Some i ∨ cached_send_c s = Some i →
  (out = frame_of body → untorn s1) ∧
  (∀ s2, peer s2 = peer s1 → net s2 = net s1 →
     (∀ b, cached_send_b s2 = Some b → cached_send_b s1 = Some b ∧ b ≠ i) →
     (∀ c, cached_send_c s2 = Some c → cached_send_c s1 = Some c ∧ c ≠ i) → untorn s2).
Proof.
  intros (a & Ha & Hl & HB & HC & HS) (Hp & Hb & Hc & _ & Hs) Hout Hi.
  assert (i ≠ a) as Hia by (destruct Hi as [E|E]; [by apply HB|by apply HC]).
  assert (∀ j w, streams (net s1) !! j = Some w → j ≠ a →
    (j = i ∧ ∃ w0, streams (net s) !! i = Some w0 ∧ w.1 = w0.1 ++ out ∧ whole w0.1) ∨
    (j ≠ i ∧ streams (net s) !! j = Some w)) as Hcase.
  { intros j w Hj Hja. rewrite Hs, list_lookup_alter in Hj. case_decide as Hij.
    - left. subst j. split; [done|]. destruct (streams (net s) !! i) as [w0|] eqn:E; [|done].
      injection Hj as <-. exists w0. split_and!; [done|done|]. by apply (HS i w0).
    - right. done. }
  split.
  - intros ->. exists a. rewrite Hp, Hb, Hc, Hs, length_alter. split_and!; [done..|].
    intros j w Hj Hja. rewrite <- Hs in Hj.
    destruct (Hcase j w Hj Hja) as [(-> & w0 & E0 & -> & Hw0)|[Hji E]]; [|by apply (HS j w)].
    split; [apply whole_torn|intros _]; by apply whole_frame.
  - intros s2 Hp2 Hn2 Hb2 Hc2. exists a. rewrite Hp2, Hn2, Hp, Hs, length_alter. split_and!; [done|done| | |].
    + intros b Eb. destruct (Hb2 b Eb) as [E _]. rewrite Hb in E. by apply HB.
    + intros c Ec. destruct (Hc2 c Ec) as [E _]. rewrite Hc in E. destruct (HC c E) as (? & ? & Hne).
      split_and!; [done|done|]. intros E'. destruct (Hb2 c E') as [E2 _]. rewrite Hb in E2. done.
    + intros j w Hj Hja. rewrite <- Hs in Hj.
      destruct (Hcase j w Hj Hja) as [(-> & w0 & E0 & -> & [bodies ->])|[Hji E]].
      * split; [by exists bodies, body, out|].
        intros [E|E]; [by destruct (Hb2 i E)|by destruct (Hc2 i E)].
      * destruct (HS j w E Hja) as [? Hw]. split; [done|].
        intros [E'|E']; apply Hw; [left; rewrite <- Hb; by apply Hb2|right; rewrite <- Hc; by apply Hc2].
Qed.

(** The two streams that are cached lazily, by their place in the session. *)
Definition lane (get : Session → option nat) (set : option nat → Session → Session) : Prop :=
  (get = cached_send_b ∧ set = set_send_b) ∨ (get = cached_send_c ∧ set = set_send_c).

Lemma untorn_open get set err s :
  lane get set → untorn s →
  match cached_or_open open_ok get set err s with
  | (Ok i, s1) => untorn s1 ∧ get s1 = Some i
  | (r, s1) => untorn s1 ∧ ∀ x, r ≠ Ok x
  end.
Proof.
  intros Hlane Hs. unfold cached_or_open, mbind, ST_bind, gets.
  destruct (get s) as [i|] eqn:Eg; [done|]. unfold open_bi. destruct (open_ok (call s)).
  2: { split; [|done]. destruct Hs as (a & Ha & Hl & HB & HC & HS). by exists a. }
  destruct Hs as (a & Ha & Hl & HB & HC & HS).
  assert (∀ j w, (streams (net s) ++ [([], false)]) !! j = Some w →
    streams (net s) !! j = Some w ∨ (j = length (streams (net s)) ∧ w = ([], false))) as Hlook.
  { intros j w Hj. destruct (decide (j < length (streams (net s)))).
    - left. by rewrite lookup_app_l in Hj.
    - right. rewrite lookup_app_r in Hj by lia. apply list_lookup_singleton_Some in Hj as [? <-]. split; [lia|done]. }
  assert (∀ w, streams (net s) !! length (streams (net s)) = Some w → False) as Hlast.
  { intros w Hw. apply lookup_lt_Some in Hw. lia. }
  cbn. split; [|by destruct Hlane as [[-> ->]|[-> ->]]].
  exists a. destruct Hlane as [[-> ->]|[-> ->]]; cbn; rewrite length_app; cbn.
  - split_and!; [done|lia|intros b [= <-]; lia| |].
    + intros c Ec. destruct (HC c Ec) as (? & ? & ?). split_and!; [lia|done|intros [= E]; lia].
    + intros j w Hj Hja. destruct (Hlook j w Hj) as [Hold|[-> ->]].
      * destruct (HS j w Hold Hja) as [? Hw]. split; [done|].
        intros [[= E]|E]; [subst j; by destruct (Hlast _ Hold)|auto].
      * split; [apply whole_torn|intros _]; by exists [].
  - split_and!; [done|lia|intros b Eb; destruct (HB b Eb); lia| |].
    + intros c [= <-]. split_and!; [lia|lia|]. intros E. destruct (HB _ E). lia.
    + intros j w Hj Hja. destruct (Hlook j w Hj) as [Hold|[-> ->]].
      * destruct (HS j w Hold Hja) as [? Hw]. split; [done|].
        intros [E|[= E]]; [auto|subst j; by destruct (Hlast _ Hold)].
      * split; [apply whole_torn|intros _]; by exists [].
Qed.

(** A frame on a cached stream: kept when it went out whole, forgotten
    otherwise. *)
Lemma untorn_frame get set e1 e2 i body s :
  lane get set → untorn s → get s = Some i →
  untorn (snd (or_forget set (write_u32 write_ok e1 i (length body) ≫= λ _, write write_ok e2 i body) s)).
Proof.
  intros Hlane Hs Hg. destruct (frame_any write_ok e1 e2 i body s) as (r & s1 & out & E & Hw & Hp & Hr & _).
  assert (cached_send_b s = Some i ∨ cached_send_c s = Some i) as Hi
    by (destruct Hlane as [[-> ->]|[-> ->]]; auto).
  destruct (untorn_wrote i out body s s1 Hs Hw Hp Hi) as [Hok Hko].
  unfold or_forget, attempt, mbind at 1, ST_bind at 1. rewrite E.
  destruct Hr as [[-> ->]|[e ->]]; [by apply Hok|].
  destruct Hs as (a & _ & _ & HB & HC & _). destruct Hw as (_ & Hb & Hc & _).
  destruct Hlane as [[-> ->]|[-> ->]];
    [change (untorn (set_send_b None s1))|change (untorn (set_send_c None s1))];
    (apply Hko; [done|done|..]); cbn; [done| | |done].
  - intros c Ec. split; [done|]. intros ->. rewrite Hc in Ec. by destruct (HC _ Ec) as (_ & _ & []).
  - intros b Eb. split; [done|]. intros ->. rewrite Hb in Eb. by destruct (HC _ Hg) as (_ & _ & []).
Qed.

Lemma untorn_send_b bytes : preserves untorn (send_stream_b open_ok write_ok bytes).
Proof.
  intros s Hs. unfold send_stream_b, mbind at 1, ST_bind at 1.
  pose proof (untorn_open cached_send_b set_send_b (StreamB "open_bi: ") s ltac:(by left) Hs) as Ho.
  destruct (cached_or_open _ _ _ _ s) as [[i|e| |] s1]; try apply Ho. destruct Ho as [Hs1 Hg].
  apply (untorn_frame cached_send_b); [by left|done|done].
Qed.
Lemma untorn_send_c event : preserves untorn (send_stream_c open_ok write_ok event).
Proof.
  intros s Hs. unfold send_stream_c, mbind at 1, ST_bind at 1.
  pose proof (untorn_open cached_send_c set_send_c (HelloFailed "open stream C: ") s ltac:(by right) Hs) as Ho.
  destruct (cached_or_open _ _ _ _ s) as [[i|e| |] s1]; try apply Ho. destruct Ho as [Hs1 Hg].
  unfold write_stream_c. destruct (encode_vec event) as [body|e| |] eqn:Ee.
  - apply encode_vec_cons in Ee. rewrite bool_decide_eq_false_2 by done. apply (untorn_frame cached_send_c); [by right|done|done].
  - unfold or_forget, attempt, mbind, ST_bind, raise. cbn.
    eapply untorn_caches; [..|exact Hs1]; done.
  - done.
  - done.
Qed.
Lemma untorn_send_a bytes : preserves untorn (send_stream_a open_ok write_ok finish_ok bytes).
Proof.
  intros s Hs. pose proof Hs as (a & Ha & Hl & HB & HC & HS).
  unfold send_stream_a, mbind at 1, ST_bind at 1, gets. rewrite Ha.
  destruct (frame_any write_ok (HelloFailed "send_stream_a cached length: ")
    (HelloFailed "send_stream_a cached body: ") a bytes s) as (r & s1 & out & E & Hw & _).
  rewrite E. destruct Hw as (Hp & Hb & Hc & _ & Hst). exists a. cbn [snd].
  rewrite Hp, Hb, Hc, Hst, length_alter. split_and!; [done..|].
  intros i w Hi Hne. rewrite list_lookup_alter_ne in Hi by done. by apply HS.
Qed.
Lemma untorn_count s : untorn s → untorn (count_call s).
Proof. intros (a & Ha & Hl & HB & HC & HS). by exists a. Qed.
Lemma untorn_send_datagram bytes :
  preserves untorn (send_datagram_or_stream_b open_ok write_ok max_datagram_size datagram_ok bytes).
Proof.
  apply preserves_bind; [apply preserves_gets|]. intros [limit|]; [|apply untorn_send_b].
  case_decide; [|apply untorn_send_b].
  apply preserves_bind; [apply preserves_gets|]. intros [].
  - apply preserves_modify. intros s (a & Ha & Hl & HB & HC & HS). by exists a.
  - apply preserves_bind; [apply preserves_modify, untorn_count|]. intros _. apply preserves_raise.
  - apply preserves_bind; [apply preserves_modify, untorn_count|]. intros _. apply untorn_send_b.
Qed.
Lemma untorn_encode event : preserves untorn (encode_fixed event).
Proof. by intros s. Qed.

Lemma untorn_send_input event cfg :
  preserves untorn
    (send_input open_ok write_ok finish_ok max_datagram_size datagram_ok event cfg).
Proof.
  unfold send_input. destruct (route_input cfg event).
  - apply preserves_bind; [apply preserves_gets|]. intros [].
    + apply preserves_bind; [apply untorn_encode|]. intros []. apply untorn_send_datagram.
    + apply preserves_raise.
  - apply preserves_bind; [apply untorn_encode|]. intros []. apply untorn_send_a.
  - apply preserves_bind; [apply untorn_encode|]. intros []. apply untorn_send_b.
  - apply untorn_send_c.
Qed.
End send_all.

(** ** Torn frames *)

(** C8. Whatever quinn refuses and wherever it cuts a write short, and whatever
    events are sent: every stream other than stream A, that is every stream that
    this side opened for input or clipboard events, carries whole frames and at
    most the beginning of one more, and one that is still cached for the next
    event carries whole frames only.  Stream A, which the handshake opened, is
    left out: it is never forgotten, and [stream_a_torn] says what it may carry. *)
Theorem no_torn_frames open_ok write_ok finish_ok max_datagram_size datagram_ok cfg es s :
  untorn s →
  let s' := snd (send_all open_ok write_ok finish_ok max_datagram_size datagram_ok cfg es s) in
  ∀ i w, streams (net s') !! i = Some w → cached_send_a (peer s') ≠ Some i →
    torn w.1 ∧ (cached_send_b s' = Some i ∨ cached_send_c s' = Some i → whole w.1).
Proof.
  intros Hs s' i w Hi Hne.
  assert (untorn s') as (a & Ha & _ & _ & _ & HS).
  { clear Hi Hne. unfold s'. clear s'. revert s Hs. induction es as [|e es IH]; intros s Hs; [done|].
    unfold send_all. cbn [for_each]. unfold mbind at 1, ST_bind at 1.
    assert (untorn (snd ((attempt (send_input open_ok write_ok finish_ok max_datagram_size
      datagram_ok e cfg) ≫= λ _, mret tt) s))) as H1.
    { apply preserves_bind; [apply preserves_attempt, untorn_send_input|intros; apply preserves_ret|done]. }
    destruct ((attempt _ ≫= λ _, mret tt) s) as [[[]|e'| |] s1]; [by apply IH|done..]. }
  apply (HS i w Hi). congruence.
Qed.

(** A session after its handshake: stream A holds what the handshake wrote. *)
Definition after_hello (hello : list byte) : Session :=
  mkSession (mkPeer true None (Some 0) None) None None (Some (mkChan true [])) None None
    (mkNet [(hello, false)] [] 0).
Lemma after_hello_untorn hello : untorn (after_hello hello).
Proof.
  exists 0. cbn. split_and!; [done|lia|done|done|]. intros [|[|i]] w; [done|intros [=]..].
Qed.
Lemma after_hello_established hello : established (after_hello hello).
Proof. split; [done|]. exists 0. cbn. split_and!; [done|lia|done|done|]. intros [|i] ?; [by left|lia]. Qed.

(** The second write of a key event on stream B fails after a byte: the next
    one goes to a new stream. *)
Definition a_key : ProtoEvent := ProtoEvent.Input (Keyboard (Key 0 30 1)).
Lemma no_torn_frames_witness :
  torn (take 19 (frame_of (short_body a_key) ++ frame_of (short_body a_key))).
Proof.
  apply (no_torn_frames (λ _, true) (λ n, if decide (n = 4) then Some 1 else None) (λ _, true)
    (λ _, None) (λ _, Refused) default_channels (replicate 3 a_key) (after_hello [])
    (after_hello_untorn []) 1 (take 19 (frame_of (short_body a_key) ++ frame_of (short_body a_key)), false));
    vm_compute; done.
Defined.

(** Sending a control event is writing its frame on stream A. *)
Lemma control_sent open_ok write_ok finish_ok max_datagram_size datagram_ok cfg e a s :
  event_wf e → route_input cfg e = Channel.StreamA → cached_send_a (peer s) = Some a →
  send_input open_ok write_ok finish_ok max_datagram_size datagram_ok e cfg s =
  (write_u32 write_ok (HelloFailed "send_stream_a cached length: ") a (length (short_body e)) ≫= λ _,
     write write_ok (HelloFailed "send_stream_a cached body: ") a (short_body e)) s.
Proof.
  intros Hwf R Ha. destruct (fixed_sent e Hwf cfg ltac:(by rewrite R)) as (_ & buf & Ee & Et).
  unfold send_input. rewrite R. unfold encode_fixed, mbind at 1, ST_bind at 1. rewrite Ee, Et.
  unfold send_stream_a, mbind at 1, ST_bind at 1, gets. by rewrite Ha.
Qed.
(** Stream A is kept when a write on it fails: an event that is written later
    goes behind the torn frame of the one before, on the same stream. *)
Theorem stream_a_torn open_ok write_ok finish_ok max_datagram_size datagram_ok cfg e1 e2 k a old fin s :
  event_wf e1 → event_wf e2 → route_input cfg e1 = Channel.StreamA → route_input cfg e2 = Channel.StreamA →
  cached_send_a (peer s) = Some a → streams (net s) !! a = Some (old, fin) →
  (∀ n, write_ok n = if decide (n = S (call s)) then Some k else None) →
  let s' := snd (send_all open_ok write_ok finish_ok max_datagram_size datagram_ok cfg [e1; e2] s) in
  fst (send_input open_ok write_ok finish_ok max_datagram_size datagram_ok e1 cfg s) = Err (HelloFailed "send_stream_a cached body: ") ∧
  cached_send_a (peer s') = Some a ∧
  streams (net s') !! a =
    Some (old ++ (be_bytes 4 (Z.of_nat (length (short_body e1))) ++ take k (short_body e1)) ++ frame_of (short_body e2), fin).
Proof.
  intros Hw1 Hw2 R1 R2 Ha Hold Hwr s'. set (b1 := short_body e1). set (b2 := short_body e2).
  set (s1 := append_to a (take k b1) (append_to a (be_bytes 4 (Z.of_nat (length b1))) s)).
  set (s2 := append_to a b2 (append_to a (be_bytes 4 (Z.of_nat (length b2))) s1)).
  assert (send_input open_ok write_ok finish_ok max_datagram_size datagram_ok e1 cfg s = (Err (HelloFailed "send_stream_a cached body: "), s1)) as E1.
  { rewrite (control_sent _ _ _ _ _ cfg e1 a s Hw1 R1 Ha). unfold write_u32, write, mbind, ST_bind.
    rewrite (Hwr (call s)), decide_False by lia. by rewrite Hwr, decide_True. }
  assert (send_input open_ok write_ok finish_ok max_datagram_size datagram_ok e2 cfg s1 = (Ok tt, s2)) as E2.
  { rewrite (control_sent _ _ _ _ _ cfg e2 a s1 Hw2 R2 Ha). unfold write_u32, write, mbind, ST_bind.
    rewrite Hwr, decide_False by (unfold call, s1; cbn; lia). by rewrite Hwr, decide_False by (unfold call, s1; cbn; lia). }
  assert (s' = s2) as ->.
  { unfold s', send_all. cbn [for_each]. unfold attempt, mbind, ST_bind. rewrite E1. cbn. by rewrite E2. }
  rewrite E1. split_and!; [done|exact Ha|]. unfold s2, s1, append_to. cbn. rewrite !list_lookup_alter_eq, Hold. cbn.
  unfold frame_of. by rewrite <- !app_assoc.
Qed.

(** A [Leave] goes out behind the length of a [Ping] whose body did not: the peer
    reads a motion that nobody sent, and then the length of a frame that is too
    long. *)
Lemma stream_a_torn_witness :
  let s := snd (send_all (λ _, true) (λ n, if decide (n = 1) then Some 0 else None) (λ _, true) (λ _, None) (λ _, Refused)
    default_channels [ProtoEvent.Ping; ProtoEvent.Leave 7] (after_hello [])) in
  let r := mkRecv (bytes_on s (Some 0)) Transport.UnexpectedEof in
  bytes_on s (Some 0) = be_bytes 4 1 ++ frame_of (short_body (ProtoEvent.Leave 7)) ∧
  fst (read_frame r) = Ok (ProtoEvent.Input (Pointer (Motion 0 (F64 0) (F64 0)))) ∧
  fst (read_frame (snd (read_frame r))) = Err (FrameTooLarge 1289).
Proof.
  intros s r. assert (bytes_on s (Some 0) = be_bytes 4 1 ++ frame_of (short_body (ProtoEvent.Leave 7))) as E.
  { destruct (stream_a_torn (λ _, true) (λ n, if decide (n = 1) then Some 0 else None) (λ _, true) (λ _, None) (λ _, Refused)
      default_channels ProtoEvent.Ping (ProtoEvent.Leave 7) 0 0 [] false (after_hello [])) as (_ & _ & Es); [done..|].
    unfold bytes_on. fold s in Es. by rewrite Es. }
  split; [exact E|]. unfold r. rewrite E. split_and!; vm_compute; done.
Defined.

(** ** The main loop *)

Definition is_pick_a (p : Pick) : bool := match p with PickA => true | _ => false end.

(** The other branches deliver something, and none of them falls into the
    middle of a frame of stream A. *)
Definition clean_pick (p : Pick) : Prop :=
  match p with
  | PickA => True
  | PickB lost evt | PickD lost evt | PickC lost evt => lost = 0 ∧ is_Some evt
  | PickClosed => False
  end.

Lemma lose_0 r : lose 0 r = r.
Proof. by destruct r. Qed.

Definition forwarded (s : Session) : list ProtoEvent := from_option sent [] (outgoing_events s).
Definition listening (s : Session) : Prop := from_option rx_alive false (outgoing_events s) = true.
Lemma forward_one e s :
  listening s → forwarded (send_outgoing_event e s) = forwarded s ++ [e] ∧ listening (send_outgoing_event e s).
Proof.
  unfold listening, forwarded, send_outgoing_event, send_chan. destruct (outgoing_events s) as [[[] l]|]; done.
Qed.
Lemma clean_other p r s :
  clean_pick p → is_pick_a p = false →
  ∃ s', run_turn p r s = (Continue, r, s') ∧ outgoing_events s' = outgoing_events s ∧ closed (peer s') = closed (peer s).
Proof.
  destruct p as [|lost evt|lost evt|lost evt|]; try done; intros [-> [ev ->]] _; cbn [run_turn]; rewrite lose_0;
    [eauto|eauto|]. destruct ev; eauto.
Qed.

Definition good_events (ts : list traffic) : list ProtoEvent :=
  omap (λ t, match t with Good e => Some e | Corrupt _ => None end) ts.

(** While the other branches of the loop deliver and none interrupts the
    reading of stream A inside a frame, the loop hands every well-formed frame
    of stream A to the capture side, once and in order, and skips what does not
    decode; when the stream ends between two frames it closes the connection and
    adds the [Leave] that releases the capture. *)
Theorem run_forwards picks ts ending s :
  Forall traffic_wf ts → Forall clean_pick picks → listening s →
  let n := length (filter (λ p, is_pick_a p = true) picks) in
  let '(res, _, s') := run_loop picks (mkRecv (traffic_bytes ts) ending) s in
  if decide (n ≤ length ts)
  then res = Continue ∧ forwarded s' = forwarded s ++ good_events (take n ts)
  else res = Break ∧ forwarded s' = forwarded s ++ good_events ts ++ [ProtoEvent.Leave 0] ∧
       closed (peer s') = Some "peer read IO error".
Proof.
  intros Hts Hp. revert ts s Hts. induction Hp as [|p picks Hp Hps IH]; intros ts s Hts Hl.
  { cbn. by rewrite app_nil_r. }
  cbn zeta. cbn [run_loop]. destruct (is_pick_a p) eqn:Ep.
  2: { destruct (clean_other p (mkRecv (traffic_bytes ts) ending) s Hp Ep) as (s1 & -> & Ho & _).
       rewrite filter_cons_False by congruence. specialize (IH ts s1 Hts).
       unfold listening, forwarded in *. rewrite Ho in IH. by apply IH. }
  destruct p; try done. rewrite filter_cons_True by done. cbn [length run_turn].
  destruct ts as [|t ts].
  - cbn [traffic_bytes fmap list_fmap concat]. change (read_frame (mkRecv [] ending))
      with (@Err Error ProtoEvent (HelloFailed "read frame length: "), mkRecv [] ending).
    cbn. rewrite decide_False by lia. split_and!; [done| |done].
    by apply forward_one.
  - apply Forall_cons in Hts as [Ht Hts].
    change (traffic_bytes (t :: ts)) with (frame_of (traffic_body t) ++ traffic_bytes ts).
    rewrite read_traffic by done. destruct t as [e|body]; cbn [length].
    + destruct (forward_one e s Hl) as [Hf Hl1]. specialize (IH ts _ Hts Hl1). cbn zeta in IH.
      destruct (run_loop picks _ _) as [[res r'] s']. rewrite Hf in IH.
      case_decide; case_decide; try lia; cbn [take]; unfold good_events in *; cbn;
        rewrite <- ?app_assoc in IH; exact IH.
    + cbn [starts_with]. specialize (IH ts _ Hts Hl). cbn zeta in IH.
      change (starts_with "read frame" "decode frame: ") with false. cbn match.
      destruct (run_loop picks _ _) as [[res r'] s'].
      case_decide; case_decide; try lia; exact IH.
Qed.

Lemma run_forwards_witness :
  let '(res, _, s') := run_loop [PickA; PickD 0 (Some (DatagramEvent a_key)); PickA]
    (mkRecv (traffic_bytes [Good (ProtoEvent.Ack 7)]) UnexpectedEof) (after_hello []) in
  res = Break ∧ forwarded s' = [ProtoEvent.Ack 7; ProtoEvent.Leave 0].
Proof.
  pose proof (run_forwards [PickA; PickD 0 (Some (DatagramEvent a_key)); PickA]
    [Good (ProtoEvent.Ack 7)] UnexpectedEof (after_hello [])) as H.
  destruct (run_loop _ _ _) as [[res r] s'].
  destruct H as (H1 & H2 & _); [by repeat constructor|repeat constructor; by eexists|done|].
  split; [exact H1|exact H2].
Defined.

(** The reading of stream A is not safe against the other branches: when a
    datagram is picked after the four bytes of a frame's length were taken, they
    are gone; the body of the next [Ack] or [Leave] is then read as a length, the
    loop fails with [FrameTooLarge], no [Leave] reaches the capture side, and
    the connection is not closed. *)
Theorem abandoned_read e ev n tl ending s :
  e = ProtoEvent.Ack n ∨ e = ProtoEvent.Leave n →
  ∃ len r, run_loop [PickD 4 (Some ev); PickA] (mkRecv (frame_of (short_body e) ++ tl) ending) s =
           (Return (FrameTooLarge len), r, s).
Proof.
  intros He. cbn [run_loop run_turn]. unfold lose, frame_of. cbn [r_bytes r_end].
  assert (∃ b x y z rest, short_body e = b :: x :: y :: z :: rest ∧ (1 ≤ Z_of_byte b)%Z)
    as (b & x & y & z & rest & -> & Hb).
  { destruct He as [-> | ->]; unfold short_body, Fixed.body; cbn [be_bytes];
      (do 5 eexists; split; [reflexivity|vm_compute; done]). }
  rewrite <- app_assoc, drop_app_length' by (by rewrite length_be_bytes).
  unfold read_frame, read_u32, read_exact. cbn [r_bytes r_end app].
  rewrite decide_False by (cbn; lia). cbn [take drop].
  change (take 0 (rest ++ tl)) with (@nil byte). unfold be_val. cbn [length]. rewrite decide_True; [eauto|].
  pose proof (Z_of_byte_bound x). pose proof (Z_of_byte_bound y). pose proof (Z_of_byte_bound z).
  change MAX_EVENT_SIZE with 21.
  change (2 ^ (8 * Z.of_nat 3))%Z with 16777216%Z. change (2 ^ (8 * Z.of_nat 2))%Z with 65536%Z.
  change (2 ^ (8 * Z.of_nat 1))%Z with 256%Z. change (2 ^ (8 * Z.of_nat 0))%Z with 1%Z. lia.
Qed.
Lemma abandoned_read_witness :
  ∃ len r, run_loop [PickD 4 (Some (DatagramEvent a_key)); PickA]
    (mkRecv (frame_of (short_body (ProtoEvent.Ack 7)) ++ []) UnexpectedEof) (after_hello []) =
  (Return (FrameTooLarge len), r, after_hello []).
Proof. apply (abandoned_read (ProtoEvent.Ack 7) _ 7). by left. Defined.
