(* ===== verification/Geometry.v ===== *)
(** Barrier detection (input-capture/src/geometry/mod.rs, and the capture
    [Position] of input-capture/src/lib.rs).  Coordinates are IEEE doubles,
    as the Standard Library's executable specification of binary64 has them,
    NaN and infinities included. *)

From Stdlib Require Import Floats.SpecFloat.
From S2P Require Import Prelude.

(** * Doubles *)

Abbreviation double := spec_float.
Definition f64_add : double → double → double := SFadd 53 1024.
Definition f64_sub : double → double → double := SFsub 53 1024.
Definition f64_lt (x y : double) : bool := SFltb x y.
Definition f64_le (x y : double) : bool := SFleb x y.
Definition f64_zero : double := S754_zero false.
Definition f64_one : double := S754_finite false 4503599627370496 (-52).
Definition is_nan (x : double) : bool := match x with S754_nan => true | _ => false end.

(** [f64::clamp]: panics unless [min <= max]. *)
Definition f64_clamp (x min max : double) : outcome Empty_set double :=
  if f64_le min max then
    let x := if f64_lt x min then min else x in
    let x := if f64_lt max x then max else x in
    Ok x
  else Panic.

Lemma SFcompare_antisym x y : SFcompare y x = CompOpp <$> SFcompare x y.
Proof.
  destruct x as [[]|[]| |[] m1 e1], y as [[]|[]| |[] m2 e2]; try done; cbn.
  all: rewrite (Z.compare_antisym e1 e2); destruct (Z.compare e1 e2); cbn; try done.
  all: change (Pos.compare_cont Eq ?a ?b) with (Pos.compare a b).
  all: by rewrite (Pos.compare_antisym m1 m2), ?CompOpp_involutive.
Qed.

Lemma SFcompare_nan x y : SFcompare x y = None ↔ is_nan x = true ∨ is_nan y = true.
Proof. destruct x as [[]|[]| |[] ??], y as [[]|[]| |[] ??]; cbn; naive_solver. Qed.

(** Off NaN the order is total. *)
Lemma f64_le_total x y :
  is_nan x = false → is_nan y = false → f64_le x y = negb (f64_lt y x).
Proof.
  intros Hx Hy. unfold f64_le, f64_lt, SFleb, SFltb. rewrite (SFcompare_antisym x y).
  destruct (SFcompare x y) as [[]|] eqn:E; try done.
  apply SFcompare_nan in E. destruct E; congruence.
Qed.

Lemma f64_lt_irrefl x : f64_lt x x = false.
Proof.
  unfold f64_lt, SFltb. pose proof (SFcompare_antisym x x) as H.
  destruct (SFcompare x x) as [[]|]; done.
Qed.

Lemma f64_lt_le x y : f64_lt x y = true → f64_le x y = true.
Proof. unfold f64_lt, f64_le, SFltb, SFleb. by destruct (SFcompare x y) as [[]|]. Qed.

Lemma f64_le_nan x y : f64_le x y = true → is_nan x = false ∧ is_nan y = false.
Proof.
  unfold f64_le, SFleb. intros H.
  destruct (is_nan x) eqn:Ex; [by destruct x|]. destruct (is_nan y) eqn:Ey; [|done].
  by destruct y, x.
Qed.

Lemma f64_clamp_panics x min max : f64_le min max = false → f64_clamp x min max = Panic.
Proof. intros H. unfold f64_clamp. by rewrite H. Qed.

Lemma f64_clamp_bounds x min max r :
  is_nan x = false → f64_clamp x min max = Ok r →
  f64_le min r = true ∧ f64_le r max = true ∧
  (f64_le min x = true → f64_le x max = true → r = x).
Proof.
  intros Hx. unfold f64_clamp. destruct (f64_le min max) eqn:Hmm; [|done].
  destruct (f64_le_nan _ _ Hmm) as [Hmin Hmax].
  assert (f64_lt max min = false) as Hlt.
  { rewrite f64_le_total in Hmm by done. by destruct (f64_lt max min). }
  destruct (f64_lt x min) eqn:E1.
  - rewrite Hlt. intros [= <-]. split_and!; [|done|].
    + rewrite f64_le_total, f64_lt_irrefl by done. done.
    + rewrite f64_le_total, E1 by done. done.
  - destruct (f64_lt max x) eqn:E2; intros [= <-].
    + split_and!; [done| |].
      * rewrite f64_le_total, f64_lt_irrefl by done. done.
      * intros _. rewrite f64_le_total, E2 by done. done.
    + rewrite !f64_le_total, E1, E2 by done. done.
Qed.

(** * Displays and barriers *)

Module Edge.
Inductive Position : Type := Left | Right | Top | Bottom.
#[global] Instance Position_eq_dec : EqDecision Position.
Proof. solve_decision. Defined.
Definition code (p : Position) : nat :=
  match p with Left => 0 | Right => 1 | Top => 2 | Bottom => 3 end.
Definition decode (n : nat) : Position :=
  match n with 0 => Left | 1 => Right | 2 => Top | _ => Bottom end.
#[global] Instance Position_countable : Countable Position.
Proof. refine (inj_countable' code decode _). by intros []. Defined.

Definition opposite (p : Position) : Position :=
  match p with Left => Right | Right => Left | Top => Bottom | Bottom => Top end.
End Edge.
Abbreviation Position := Edge.Position.

Record DisplayRect : Type := mkRect { rx : double; ry : double; rw : double; rh : double }.

Definition from_ltrb (left top right bottom : double) : DisplayRect :=
  mkRect left top (f64_sub right left) (f64_sub bottom top).
Definition left (d : DisplayRect) : double := rx d.
Definition top (d : DisplayRect) : double := ry d.
Definition right (d : DisplayRect) : double := f64_add (rx d) (rw d).
Definition bottom (d : DisplayRect) : double := f64_add (ry d) (rh d).

Abbreviation MonitorId := string.
Record DisplayBound : Type := mkBound { rect : DisplayRect; monitor_id : option MonitorId }.

Abbreviation point := (double * double)%type.

Definition is_within_dp_boundary (p : point) (d : DisplayRect) (pos : Position) : bool :=
  let '(x, y) := p in
  match pos with
  | Edge.Left => f64_le (left d) x
  | Edge.Right => f64_lt x (right d)
  | Edge.Top => f64_le (top d) y
  | Edge.Bottom => f64_lt y (bottom d)
  end.

Definition is_within_dp_region (p : point) (d : DisplayRect) : bool :=
  forallb (is_within_dp_boundary p d) [Edge.Left; Edge.Right; Edge.Top; Edge.Bottom].

Definition in_bounds (p : point) (ds : list DisplayRect) (pos : Position) : bool :=
  existsb (λ d, is_within_dp_boundary p d pos) ds.

Definition in_display_region (p : point) (ds : list DisplayRect) : bool :=
  existsb (is_within_dp_region p) ds.

(** [iter().find] and [iter().position]. *)
Fixpoint find {A} (f : A → bool) (l : list A) : option A :=
  match l with [] => None | x :: l => if f x then Some x else find f l end.
Fixpoint position {A} (f : A → bool) (l : list A) : option nat :=
  match l with [] => None | x :: l => if f x then Some 0 else S <$> position f l end.

(** The edges of the containing display that [curr] is past, in the order the
    code records them: the last one found and how many there are. *)
Definition record_crossings (curr : point) (d : DisplayRect) : option Position * nat :=
  foldl (λ st c, if snd c : bool then (Some (fst c), S (snd st)) else st) (None, 0)
    [(Edge.Left, f64_lt (fst curr) (left d));
     (Edge.Right, f64_le (right d) (fst curr));
     (Edge.Top, f64_lt (snd curr) (top d));
     (Edge.Bottom, f64_le (bottom d) (snd curr))].

Definition entered_barrier (prev curr : point) (ds : list DisplayRect) : option Position :=
  if negb (in_display_region prev ds) || in_display_region curr ds then None
  else
    containing ← find (is_within_dp_region prev) ds;
    let '(true_side, true_count) := record_crossings curr containing in
    if negb (true_count =? 1) then None
    else
      pos ← true_side;
      let dx := f64_sub (fst curr) (fst prev) in
      let dy := f64_sub (snd curr) (snd prev) in
      match pos with
      | Edge.Left => if f64_lt dx f64_zero then Some Edge.Left else None
      | Edge.Right => if f64_lt f64_zero dx then Some Edge.Right else None
      | Edge.Top => if f64_lt dy f64_zero then Some Edge.Top else None
      | Edge.Bottom => if f64_lt f64_zero dy then Some Edge.Bottom else None
      end.

Definition contains_point (p : point) (d : DisplayRect) : bool :=
  f64_le (left d) (fst p) && f64_lt (fst p) (right d) &&
  f64_le (top d) (snd p) && f64_lt (snd p) (bottom d).
Definition display_containing (ds : list DisplayRect) (p : point) : option DisplayRect :=
  find (contains_point p) ds.
Definition display_containing_idx (ds : list DisplayRect) (p : point) : option nat :=
  position (contains_point p) ds.
Definition display_containing_bound (ds : list DisplayBound) (p : point) : option DisplayBound :=
  find (λ b, contains_point p (rect b)) ds.

Definition cursor_within (p : point) (ds : list DisplayRect) (pos : Position) : bool :=
  in_display_region p ds && in_bounds p ds pos.

Definition clamp_to_display_bounds (ds : list DisplayRect) (prev p : point)
    : outcome Empty_set point :=
  match find (is_within_dp_region prev) ds with
  | None => Ok p
  | Some d =>
      x ← f64_clamp (fst p) (left d) (f64_sub (right d) f64_one);
      y ← f64_clamp (snd p) (top d) (f64_sub (bottom d) f64_one);
      Ok (x, y)
  end.

(** * Barrier keys *)

Record BarrierKey : Type := mkKey {
  key_pos : Position;
  key_monitor : option MonitorId;
  key_offset : Z;
  key_span : Z
}.
#[export] Instance BarrierKey_eq_dec : EqDecision BarrierKey.
Proof. solve_decision. Defined.
#[export] Instance BarrierKey_countable : Countable BarrierKey.
Proof.
  refine (inj_countable' (λ k, (key_pos k, key_monitor k, key_offset k, key_span k))
            (λ '(p, m, o, s), mkKey p m o s) _). by intros [].
Defined.

Definition from_pos (pos : Position) : BarrierKey := mkKey pos None 0 10000.
Definition default_key : BarrierKey := mkKey Edge.Left None 0 10000.

Definition query_pure (prev curr : point) (displays : list DisplayBound)
    (clients : gset BarrierKey) : option BarrierKey :=
  let rects := rect <$> displays in
  pos ← entered_barrier prev curr rects;
  idx ← display_containing_idx rects prev;
  d ← displays !! idx;
  let key := mkKey pos (monitor_id d) 0 10000 in
  if decide (key ∈ clients) then Some key
  else match key_monitor key with
       | Some _ =>
           let legacy_key := mkKey (key_pos key) None (key_offset key) (key_span key) in
           if decide (legacy_key ∈ clients) then Some legacy_key else None
       | None => None
       end.

Definition crossed_pure := query_pure.
Definition activation_pure := query_pure.

(** * Lemmas *)

Lemma find_Some {A} (f : A → bool) l x :
  find f l = Some x ↔ ∃ i, l !! i = Some x ∧ f x = true ∧
    ∀ j y, j < i → l !! j = Some y → f y = false.
Proof.
  induction l as [|y l IH]; cbn; [split; [done|by intros (? & ? & _)]|].
  destruct (f y) eqn:Ey.
  - split.
    + intros [= <-]. exists 0. split_and!; [done|done|]. intros; lia.
    + intros ([|i] & Hi & Hx & Hmin); [done|].
      rewrite (Hmin 0 y) in Ey; [done|lia|done].
  - rewrite IH. split.
    + intros (i & Hi & Hx & Hmin). exists (S i). split_and!; [done|done|].
      intros [|j] z Hj Hz; [by simplify_eq/=|]. apply (Hmin j z); [lia|done].
    + intros ([|i] & Hi & Hx & Hmin); [simplify_eq/=; congruence|].
      exists i. split_and!; [done|done|]. intros j z Hj Hz. apply (Hmin (S j) z); [lia|done].
Qed.

Lemma find_position {A} (f : A → bool) l :
  find f l = (position f l ≫= λ i, l !! i).
Proof.
  induction l as [|x l IH]; cbn; [done|]. destruct (f x); [done|].
  rewrite IH. by destruct (position f l).
Qed.

Lemma position_lookup {A} (f : A → bool) l i :
  position f l = Some i → ∃ x, l !! i = Some x ∧ find f l = Some x.
Proof.
  intros Hp. rewrite find_position, Hp. cbn. revert i Hp.
  induction l as [|x l IH]; intros i; cbn; [done|].
  destruct (f x); [intros [= <-]; by exists x|].
  destruct (position f l) as [j|]; [|done]. intros [= <-]. by apply (IH j).
Qed.

Lemma position_fmap {A B} (f : B → bool) (g : A → B) l :
  position f (g <$> l) = position (λ x, f (g x)) l.
Proof. induction l as [|x l IH]; cbn; [done|]. destruct (f (g x)); by rewrite ?IH. Qed.

(** The two containment tests of the file are the same function. *)
Lemma region_contains p d : is_within_dp_region p d = contains_point p d.
Proof.
  destruct p as [x y]. unfold is_within_dp_region, contains_point. cbn.
  by rewrite andb_true_r, !andb_assoc.
Qed.

Lemma find_region p ds : find (is_within_dp_region p) ds = display_containing ds p.
Proof.
  unfold display_containing. induction ds as [|d ds IH]; [done|].
  cbn [find]. by rewrite region_contains, IH.
Qed.

Lemma in_region_find p ds : in_display_region p ds = true ↔ is_Some (display_containing ds p).
Proof.
  rewrite <- find_region. unfold in_display_region.
  induction ds as [|d ds IH]; [split; [done|by intros []]|]. cbn [existsb find].
  destruct (is_within_dp_region p d); [split; eauto|apply IH].
Qed.

(** [curr] lies past the edge [pos] of [d]. *)
Definition past_edge (pos : Position) (curr : point) (d : DisplayRect) : bool :=
  match pos with
  | Edge.Left => f64_lt (fst curr) (left d)
  | Edge.Right => f64_le (right d) (fst curr)
  | Edge.Top => f64_lt (snd curr) (top d)
  | Edge.Bottom => f64_le (bottom d) (snd curr)
  end.

(** The motion points towards the edge [pos]. *)
Definition moves_towards (pos : Position) (prev curr : point) : bool :=
  let dx := f64_sub (fst curr) (fst prev) in
  let dy := f64_sub (snd curr) (snd prev) in
  match pos with
  | Edge.Left => f64_lt dx f64_zero
  | Edge.Right => f64_lt f64_zero dx
  | Edge.Top => f64_lt dy f64_zero
  | Edge.Bottom => f64_lt f64_zero dy
  end.

Definition only_edge (pos : Position) (curr : point) (d : DisplayRect) : Prop :=
  past_edge pos curr d = true ∧ ∀ pos', pos' ≠ pos → past_edge pos' curr d = false.

Lemma record_crossings_spec curr d pos :
  record_crossings curr d = (Some pos, 1) ↔ only_edge pos curr d.
Proof.
  unfold record_crossings, only_edge. cbn.
  change (f64_lt (fst curr) (left d)) with (past_edge Edge.Left curr d).
  change (f64_le (right d) (fst curr)) with (past_edge Edge.Right curr d).
  change (f64_lt (snd curr) (top d)) with (past_edge Edge.Top curr d).
  change (f64_le (bottom d) (snd curr)) with (past_edge Edge.Bottom curr d).
  split.
  - destruct (past_edge Edge.Left curr d) eqn:EL, (past_edge Edge.Right curr d) eqn:ER,
      (past_edge Edge.Top curr d) eqn:ET, (past_edge Edge.Bottom curr d) eqn:EB;
      cbn; intros Heq; try discriminate Heq; injection Heq as <-;
      (split; [assumption|intros [] Hne; (assumption || by destruct Hne)]).
  - intros [Hp Hn].
    destruct pos; rewrite Hp; rewrite !Hn by discriminate; done.
Qed.

Lemma record_crossings_one curr d o :
  record_crossings curr d = (o, 1) → is_Some o.
Proof.
  unfold record_crossings. cbn.
  destruct (f64_lt (fst curr) _), (f64_le (right d) _), (f64_lt (snd curr) _),
    (f64_le (bottom d) _); cbn; intros [= <-]; eauto.
Qed.

Lemma entered_barrier_iff prev curr ds pos :
  entered_barrier prev curr ds = Some pos ↔
  ∃ d, display_containing ds prev = Some d ∧ in_display_region curr ds = false ∧
    only_edge pos curr d ∧ moves_towards pos prev curr = true.
Proof.
  unfold entered_barrier. rewrite find_region. split.
  - destruct (in_display_region prev ds), (in_display_region curr ds) eqn:Ec; try done.
    destruct (display_containing ds prev) as [d|]; [|done]. cbn [negb orb mbind option_bind].
    destruct (record_crossings curr d) as [side n] eqn:Er.
    destruct (Nat.eqb_spec n 1) as [->|]; [|done].
    destruct (record_crossings_one _ _ _ Er) as [pos' ->]. apply record_crossings_spec in Er.
    cbn [negb mbind option_bind]. destruct pos'; case_match eqn:Em; intros [= <-];
      exists d; split_and!; first [done | exact Em].
  - intros (d & Hd & Hc & Ho & Hm).
    rewrite (proj2 (in_region_find prev ds)) by (by rewrite Hd). rewrite Hc, Hd.
    cbn [negb orb mbind option_bind].
    rewrite (proj2 (record_crossings_spec curr d pos) Ho). cbn.
    destruct pos; unfold moves_towards in Hm; by rewrite Hm.
Qed.

Lemma outside_past_edge curr d :
  is_nan (fst curr) = false → is_nan (snd curr) = false →
  is_nan (left d) = false → is_nan (right d) = false →
  is_nan (top d) = false → is_nan (bottom d) = false →
  contains_point curr d = false → ∃ pos, past_edge pos curr d = true.
Proof.
  intros Hx Hy Hl Hr Ht Hb. unfold contains_point.
  rewrite (f64_le_total (left d)), (f64_le_total (top d)) by done.
  destruct (f64_lt (fst curr) (left d)) eqn:E1; [by exists Edge.Left|].
  destruct (f64_lt (snd curr) (top d)) eqn:E2; [by exists Edge.Top|].
  destruct (f64_lt (fst curr) (right d)) eqn:E3.
  - destruct (f64_lt (snd curr) (bottom d)) eqn:E4; [done|]. intros _.
    exists Edge.Bottom. cbn. by rewrite f64_le_total, E4.
  - intros _. exists Edge.Right. cbn. by rewrite f64_le_total, E3.
Qed.

(** * Properties *)

(** A barrier fires exactly when the cursor was on a display, is now on
    none, is past one single edge of the display it came from, and moves
    towards that edge; a corner exit fires nothing.  With ordinary coordinates
    a cursor that left the display is past at least one of its edges. *)
Theorem entered_barrier_spec prev curr ds :
  (∀ pos, entered_barrier prev curr ds = Some pos ↔
     ∃ d, display_containing ds prev = Some d ∧ in_display_region curr ds = false ∧
       only_edge pos curr d ∧ moves_towards pos prev curr = true) ∧
  (∀ d, display_containing ds prev = Some d → in_display_region curr ds = false →
     is_nan (fst curr) = false → is_nan (snd curr) = false →
     is_nan (right d) = false → is_nan (bottom d) = false →
     ∃ pos, past_edge pos curr d = true).
Proof.
  split; [intros pos; apply entered_barrier_iff|].
  intros d Hd Hc Hx Hy Hr Hb. apply find_Some in Hd as (i & Hi & Hin & _).
  unfold contains_point in Hin. rewrite !andb_true_iff in Hin.
  destruct Hin as [[[Hl _] Ht] _].
  apply outside_past_edge; try done.
  - by apply f64_le_nan in Hl as [].
  - by apply f64_le_nan in Ht as [].
  - destruct (contains_point curr d) eqn:E; [|done].
    rewrite <- Hc. symmetry. unfold in_display_region. apply existsb_exists.
    exists d. rewrite region_contains. split; [|done].
    apply list_elem_of_In, list_elem_of_lookup. by exists i.
Qed.

(** 100, 1 and 2 as doubles; two displays side by side. *)
Definition d1 : double := f64_one.
Definition d2 : double := f64_add f64_one f64_one.
Definition d4 : double := f64_add d2 d2.
Definition screen : DisplayRect := mkRect f64_zero f64_zero d4 d4.

Lemma entered_barrier_spec_witness :
  entered_barrier (d1, d1) (S754_finite true 4503599627370496 (-52), d2) [screen] =
    Some Edge.Left.
Proof.
  apply (proj1 (entered_barrier_spec (d1, d1)
    (S754_finite true 4503599627370496 (-52), d2) [screen])).
  exists screen. split_and!; [by vm_compute|by vm_compute| |by vm_compute].
  split; [by vm_compute|]. intros [] Hne; by vm_compute.
Defined.

(** The backend query: a hit carries the edge that [entered_barrier]
    attributes and the monitor of the very display the cursor came from, or
    no monitor; the specific key is preferred to the legacy one; and the
    query misses exactly when no barrier fired or neither key is registered. *)
Theorem query_pure_spec prev curr displays clients :
  match entered_barrier prev curr (rect <$> displays) with
  | None => query_pure prev curr displays clients = None
  | Some pos =>
      ∃ b, display_containing_bound displays prev = Some b ∧
        display_containing (rect <$> displays) prev = Some (rect b) ∧
        let key := mkKey pos (monitor_id b) 0 10000 in
        query_pure prev curr displays clients =
          if decide (key ∈ clients) then Some key
          else if decide (from_pos pos ∈ clients) then Some (from_pos pos) else None
  end.
Proof.
  unfold query_pure. destruct (entered_barrier prev curr (rect <$> displays)) as [pos|] eqn:E;
    [|done]. cbn.
  apply entered_barrier_iff in E as (d & Hd & _).
  assert (∃ idx, display_containing_idx (rect <$> displays) prev = Some idx) as [idx Hidx].
  { unfold display_containing in Hd. rewrite find_position in Hd.
    unfold display_containing_idx. destruct (position _ _); [eauto|done]. }
  rewrite Hidx. cbn. pose proof (position_lookup _ _ _ Hidx) as (r & Hr & Hf).
  rewrite list_lookup_fmap in Hr. destruct (displays !! idx) as [b|] eqn:Eb; [|done].
  injection Hr as <-. exists b. split_and!; [|done|].
  - unfold display_containing_bound. rewrite find_position.
    unfold display_containing_idx in Hidx. by rewrite position_fmap, Hidx in *.
  - cbn. case_decide; [done|]. destruct (monitor_id b) as [m|]; cbn; [done|].
    unfold from_pos. by rewrite decide_False.
Qed.

Lemma query_pure_spec_witness :
  query_pure (d1, d1) (S754_finite true 4503599627370496 (-52), d2)
    [mkBound screen (Some "m0")] {[from_pos Edge.Left]} = Some (from_pos Edge.Left).
Proof.
  pose proof (query_pure_spec (d1, d1) (S754_finite true 4503599627370496 (-52), d2)
    [mkBound screen (Some "m0")] {[from_pos Edge.Left]}) as H.
  by vm_compute in H |- *.
Defined.

(** Clamping the cursor to the display it came from: nothing changes when
    it came from none; otherwise, if the display is at least a pixel wide and
    high, the call returns a point within the inclusive pixel range of the
    display, which is the given point when that lies in the range; a display
    narrower or lower than a pixel panics the call. *)
Theorem clamp_spec ds prev p :
  is_nan (fst p) = false → is_nan (snd p) = false →
  match display_containing ds prev with
  | None => clamp_to_display_bounds ds prev p = Ok p
  | Some d =>
      let max_x := f64_sub (right d) f64_one in
      let max_y := f64_sub (bottom d) f64_one in
      if f64_le (left d) max_x && f64_le (top d) max_y then
        ∃ x y, clamp_to_display_bounds ds prev p = Ok (x, y) ∧
          f64_le (left d) x = true ∧ f64_le x max_x = true ∧
          f64_le (top d) y = true ∧ f64_le y max_y = true ∧
          (f64_le (left d) (fst p) = true → f64_le (fst p) max_x = true → x = fst p) ∧
          (f64_le (top d) (snd p) = true → f64_le (snd p) max_y = true → y = snd p)
      else clamp_to_display_bounds ds prev p = Panic
  end.
Proof.
  intros Hx Hy. unfold clamp_to_display_bounds. rewrite find_region.
  destruct (display_containing ds prev) as [d|]; [|done]. cbn zeta.
  set (max_x := f64_sub (right d) f64_one). set (max_y := f64_sub (bottom d) f64_one).
  assert (∀ v lo hi, f64_le lo hi = true → ∃ r, f64_clamp v lo hi = Ok r) as Hok.
  { intros v lo hi Hle. unfold f64_clamp. rewrite Hle. eauto. }
  destruct (f64_le (left d) max_x) eqn:E1; cbn.
  2: { by rewrite (f64_clamp_panics _ _ _ E1). }
  destruct (Hok (fst p) _ _ E1) as [x Ex].
  destruct (f64_clamp_bounds _ _ _ _ Hx Ex) as (? & ? & ?). rewrite Ex. cbn.
  destruct (f64_le (top d) max_y) eqn:E2.
  2: { by rewrite (f64_clamp_panics _ _ _ E2). }
  destruct (Hok (snd p) _ _ E2) as [y Ey].
  destruct (f64_clamp_bounds _ _ _ _ Hy Ey) as (? & ? & ?). rewrite Ey. cbn.
  exists x, y. split_and!; done.
Qed.

Lemma clamp_spec_witness :
  clamp_to_display_bounds [screen] (d1, d1) (d1, d2) = Ok (d1, d2).
Proof.
  pose proof (clamp_spec [screen] (d1, d1) (d1, d2) eq_refl eq_refl) as H.
  rewrite (eq_refl : display_containing [screen] (d1, d1) = Some screen) in H. cbn zeta in H.
  rewrite (eq_refl : f64_le (left screen) (f64_sub (right screen) f64_one) &&
    f64_le (top screen) (f64_sub (bottom screen) f64_one) = true) in H.
  destruct H as (x & y & H & _ & _ & _ & _ & Hx & Hy).
  by rewrite H, (Hx eq_refl eq_refl), (Hy eq_refl eq_refl).
Defined.
