(* ===== verification/Net.v ===== *)
(** The parts of Rust's standard library that the client table uses: IP and
    socket addresses with their order and their text, [str::trim], and the
    decimal and hexadecimal text of numbers. *)

From Stdlib Require Import Strings.Ascii.
From stdpp Require Import pretty.
From S2P Require Import Prelude.
#[local] Open Scope N_scope.

(** * Addresses *)

(** [std::net::IpAddr]: a 32-bit or a 128-bit number, in network order. *)
Inductive IpAddr : Type := V4 (a : N) | V6 (a : N).
#[export] Instance IpAddr_eq_dec : EqDecision IpAddr.
Proof. solve_decision. Defined.
#[export] Instance IpAddr_countable : Countable IpAddr.
Proof.
  refine (inj_countable' (λ ip, match ip with V4 a => inl a | V6 a => inr a end)
    (λ s, match s with inl a => V4 a | inr a => V6 a end) _). by intros [].
Defined.

Record SocketAddr : Type := mkAddr {
  sa_ip : IpAddr;
  sa_port : Z;
  sa_flowinfo : Z;
  sa_scope_id : Z
}.
#[export] Instance SocketAddr_eq_dec : EqDecision SocketAddr.
Proof. solve_decision. Defined.
#[export] Instance SocketAddr_countable : Countable SocketAddr.
Proof.
  refine (inj_countable' (λ a, (sa_ip a, sa_port a, sa_flowinfo a, sa_scope_id a))
    (λ '(i, p, f, s), mkAddr i p f s) _). by intros [].
Defined.

(** [SocketAddr::new]: flow info and scope id are zero. *)
Definition socket_addr (ip : IpAddr) (port : Z) : SocketAddr := mkAddr ip port 0 0.

(** The derived order: every V4 address precedes every V6 address. *)
Definition ip_le (x y : IpAddr) : bool :=
  match x, y with
  | V4 a, V4 b | V6 a, V6 b => a <=? b
  | V4 _, V6 _ => true
  | V6 _, V4 _ => false
  end.

(** [iter().min()]: the first of the least elements. *)
Fixpoint ip_min (l : list IpAddr) : option IpAddr :=
  match l with
  | [] => None
  | x :: l =>
      match ip_min l with
      | None => Some x
      | Some y => Some (if ip_le x y then x else y)
      end
  end.

Lemma ip_le_total x y : ip_le x y = true ∨ ip_le y x = true.
Proof. destruct x, y; cbn; rewrite ?N.leb_le; auto; lia. Qed.

Lemma ip_le_antisym x y : ip_le x y = true → ip_le y x = true → x = y.
Proof. destruct x, y; cbn; rewrite ?N.leb_le; try done; intros; f_equal; lia. Qed.

Lemma ip_le_trans x y z : ip_le x y = true → ip_le y z = true → ip_le x z = true.
Proof. destruct x, y, z; cbn; rewrite ?N.leb_le; try done; lia. Qed.

Lemma ip_min_spec l m :
  ip_min l = Some m ↔ m ∈ l ∧ ∀ x, x ∈ l → ip_le m x = true.
Proof.
  revert m. induction l as [|y l IH]; intros m; cbn.
  { split; [done|]. intros [H _]. by apply elem_of_nil in H. }
  destruct (ip_min l) as [n|] eqn:E.
  - destruct (proj1 (IH n) eq_refl) as [Hn Hmin]. split.
    + intros [= <-]. destruct (ip_le y n) eqn:Hy.
      * split; [left|]. intros x [->|Hx]%elem_of_cons; [by destruct (ip_le_total y y)|].
        by eapply ip_le_trans, Hmin.
      * split; [by right|]. intros x [->|Hx]%elem_of_cons; [|auto].
        destruct (ip_le_total y n); congruence.
    + intros [[->|Hm]%elem_of_cons Hall]; f_equal.
      * by rewrite (Hall n (list_elem_of_further _ _ _ Hn)).
      * destruct (ip_le y n) eqn:Hy.
        -- apply ip_le_antisym; [|by apply Hall; left].
           eapply ip_le_trans; [exact Hy|]. by apply Hmin.
        -- apply ip_le_antisym; [by apply Hmin|]. apply Hall. by right.
  - assert (l = []) as ->.
    { destruct l as [|z l]; [done|]. cbn in E. by destruct (ip_min l). }
    split.
    + intros [= <-]. split; [left|]. intros x Hx%list_elem_of_singleton. subst x.
      by destruct (ip_le_total y y).
    + intros [Hm%list_elem_of_singleton _]. congruence.
Qed.

(** The minimum does not depend on the order of the list. *)
Lemma ip_min_perm l k : l ≡ₚ k → ip_min l = ip_min k.
Proof.
  intros Hp. apply option_eq. intros m. rewrite !ip_min_spec. by setoid_rewrite Hp.
Qed.

(** * Text *)

(** The decimal text of a number, as [Display] writes it. *)
Definition dec (n : N) : string := pretty n.

Definition hex_digit (n : N) : ascii :=
  if n <? 10 then ascii_of_N (48 + n) else ascii_of_N (87 + n).

(** [{:x}] of a number below 16^[fuel]: no leading zeros. *)
Fixpoint hex_go (fuel : nat) (n : N) (acc : string) : string :=
  match fuel with
  | O => acc
  | S fuel =>
      let acc := String (hex_digit (n mod 16)) acc in
      if n <? 16 then acc else hex_go fuel (n / 16) acc
  end.
Definition hex16 (n : N) : string := hex_go 4 n "".

Fixpoint join (sep : string) (l : list string) : string :=
  match l with
  | [] => ""
  | [s] => s
  | s :: l => (s ++ sep ++ join sep l)%string
  end.

Definition digits (base : N) (k : nat) (n : N) : list N :=
  (λ i, (n / base ^ N.of_nat i) mod base) <$> rev (seq 0 k).

Definition ipv4_to_string (a : N) : string := join "." (dec <$> digits 256 4 a).

(** The longest run of zero segments, the first one of that length: start and
    length.  [cur] is the run that ends at the position [i]. *)
Fixpoint longest_zeroes (i : nat) (cur best : nat * nat) (segs : list N) : nat * nat :=
  match segs with
  | [] => best
  | s :: segs =>
      if s =? 0 then
        let cur := if decide (snd cur = 0%nat) then (i, 1%nat) else (fst cur, S (snd cur)) in
        let best := if decide (snd best < snd cur)%nat then cur else best in
        longest_zeroes (S i) cur best segs
      else longest_zeroes (S i) (0, 0)%nat best segs
  end.

(** [Display for Ipv6Addr]. *)
Definition ipv6_to_string (a : N) : string :=
  let segs := digits 65536 8 a in
  if bool_decide (take 6 segs = [0; 0; 0; 0; 0; 65535]) then
    ("::ffff:" ++ ipv4_to_string (a mod 2 ^ 32))%string
  else
    let '(start, len) := longest_zeroes 0 (0, 0)%nat (0, 0)%nat segs in
    if decide (1 < len)%nat then
      (join ":" (hex16 <$> take start segs) ++ "::" ++
       join ":" (hex16 <$> drop (start + len) segs))%string
    else join ":" (hex16 <$> segs).

Definition ip_to_string (ip : IpAddr) : string :=
  match ip with V4 a => ipv4_to_string a | V6 a => ipv6_to_string a end.

Example ip_loopback : ip_to_string (V6 1) = "::1".
Proof. reflexivity. Qed.
Example ip_lan : ip_to_string (V4 3232235777) = "192.168.1.1".
Proof. reflexivity. Qed.
Example ip_link_local :
  ip_to_string (V6 (65152 * 2 ^ 112 + 1 * 2 ^ 32 + 2)) = "fe80::1:0:2".
Proof. reflexivity. Qed.

(** * [str::trim]

    A string is its UTF-8 bytes; the white space of Unicode is a set of 25
    scalar values, given here by their encodings. *)

Definition utf8_of (cps : list N) : string :=
  String.string_of_list_ascii (ascii_of_N <$> cps).

Definition white_space : list string :=
  (utf8_of ∘ (λ b, [b]) <$> [9; 10; 11; 12; 13; 32]) ++
  [utf8_of [194; 133]; utf8_of [194; 160]; utf8_of [225; 154; 128]] ++
  ((λ i, utf8_of [226; 128; 128 + i]) <$> [0; 1; 2; 3; 4; 5; 6; 7; 8; 9; 10]) ++
  [utf8_of [226; 128; 168]; utf8_of [226; 128; 169]; utf8_of [226; 128; 175];
   utf8_of [226; 129; 159]; utf8_of [227; 128; 128]].

(** Remove one of the given strings from the front. *)
Fixpoint strip_prefix (p s : list ascii) : option (list ascii) :=
  match p, s with
  | [], _ => Some s
  | _ :: _, [] => None
  | x :: p, y :: s => if decide (x = y) then strip_prefix p s else None
  end.
Fixpoint strip_any (ps : list (list ascii)) (s : list ascii) : option (list ascii) :=
  match ps with
  | [] => None
  | p :: ps => match strip_prefix p s with Some s' => Some s' | None => strip_any ps s end
  end.
Fixpoint strip_all (fuel : nat) (ps : list (list ascii)) (s : list ascii) : list ascii :=
  match fuel with
  | O => s
  | S fuel => match strip_any ps s with Some s' => strip_all fuel ps s' | None => s end
  end.

Definition trim (s : string) : string :=
  let ws := map String.list_ascii_of_string white_space in
  let l := String.list_ascii_of_string s in
  let l := strip_all (length l) ws l in
  let r := strip_all (length l) (map (rev (A:=ascii)) ws) (rev l) in
  String.string_of_list_ascii (rev r).

Example trim_both : trim "  host name " = "host name".
Proof. reflexivity. Qed.
Example trim_blank : trim "   " = "".
Proof. reflexivity. Qed.
