(* ===== verification/Clients.v ===== *)
(** The client table: [ClientConfig] and [ClientState] of
    lan-mouse-ipc/src/lib.rs and [ClientManager] of src/client.rs.

    The table is a [slab::Slab], a third-party container: it is the class
    [Slab] with the laws its documentation states, and the operations of
    [ClientManager] are written against it.  A [RefCell] borrow of the source
    ends with the statement that takes it, so the operations are plain state
    transformers. *)

From Stdlib Require Import Sorting.Sorted.
From S2P Require Import Prelude Transport Geometry Net.

(** * Data *)

Module Ipc.
Inductive Position : Type := Left | Right | Top | Bottom.
#[global] Instance Position_eq_dec : EqDecision Position.
Proof. solve_decision. Defined.
Definition default : Position := Left.
Definition opposite (p : Position) : Position :=
  match p with Left => Right | Right => Left | Top => Bottom | Bottom => Top end.
(** [FromStr], with the refused text as its error. *)
Definition from_str (s : string) : string + Position :=
  if decide (s = "left") then inr Left
  else if decide (s = "right") then inr Right
  else if decide (s = "top") then inr Top
  else if decide (s = "bottom") then inr Bottom
  else inl s.
(** [Display]. *)
Definition to_string (p : Position) : string :=
  match p with Left => "left" | Right => "right" | Top => "top" | Bottom => "bottom" end.
End Ipc.

(** The conversions at the capture boundary (src/capture.rs). *)
Definition to_capture_pos (p : Ipc.Position) : Edge.Position :=
  match p with
  | Ipc.Left => Edge.Left | Ipc.Right => Edge.Right
  | Ipc.Top => Edge.Top | Ipc.Bottom => Edge.Bottom
  end.
Definition to_ipc_pos (p : Edge.Position) : Ipc.Position :=
  match p with
  | Edge.Left => Ipc.Left | Edge.Right => Ipc.Right
  | Edge.Top => Ipc.Top | Edge.Bottom => Ipc.Bottom
  end.

Definition DEFAULT_PORT : Z := 2268.
Abbreviation ClientHandle := N.

Record ClientConfig : Type := mkConfig {
  hostname : option string;
  fix_ips : list IpAddr;
  port : Z;
  pos : Ipc.Position;
  cmd : option string;
  input_channels : InputChannelConfig;
  monitor : option string;
  enable_clipboard_to : bool
}.
#[export] Instance ClientConfig_eq_dec : EqDecision ClientConfig.
Proof. solve_decision. Defined.

Definition default_config : ClientConfig :=
  mkConfig None [] DEFAULT_PORT Ipc.default None default_channels None true.

Record ClientState : Type := mkState {
  active : bool;
  active_addr : option SocketAddr;
  dns_ips : list IpAddr;
  ips : gset IpAddr;
  has_pressed_keys : bool;
  resolving : bool;
  peer_commit : option (list byte)
}.
Definition default_state : ClientState := mkState false None [] ∅ false false None.

(** [ConfigClient] of src/config.rs: a client as the configuration has it. *)
Record ConfigClient : Type := mkConfigClient {
  cc_ips : gset IpAddr;
  cc_hostname : option string;
  cc_port : Z;
  cc_pos : Ipc.Position;
  cc_active : bool;
  cc_enter_hook : option string;
  cc_input_channels : InputChannelConfig;
  cc_monitor : option string;
  cc_enable_clipboard_to : bool
}.

(** Field updates. *)
Definition with_active (b : bool) (s : ClientState) : ClientState :=
  mkState b (active_addr s) (dns_ips s) (ips s) (has_pressed_keys s) (resolving s) (peer_commit s).
Definition with_active_addr (a : option SocketAddr) (s : ClientState) : ClientState :=
  mkState (active s) a (dns_ips s) (ips s) (has_pressed_keys s) (resolving s) (peer_commit s).
Definition with_dns_ips (l : list IpAddr) (s : ClientState) : ClientState :=
  mkState (active s) (active_addr s) l (ips s) (has_pressed_keys s) (resolving s) (peer_commit s).
Definition with_ips (l : gset IpAddr) (s : ClientState) : ClientState :=
  mkState (active s) (active_addr s) (dns_ips s) l (has_pressed_keys s) (resolving s)
    (peer_commit s).
Definition with_resolving (b : bool) (s : ClientState) : ClientState :=
  mkState (active s) (active_addr s) (dns_ips s) (ips s) (has_pressed_keys s) b (peer_commit s).
Definition with_peer_commit (c : option (list byte)) (s : ClientState) : ClientState :=
  mkState (active s) (active_addr s) (dns_ips s) (ips s) (has_pressed_keys s) (resolving s) c.

Definition with_hostname (h : option string) (c : ClientConfig) : ClientConfig :=
  mkConfig h (fix_ips c) (port c) (pos c) (cmd c) (input_channels c) (monitor c)
    (enable_clipboard_to c).
Definition with_fix_ips (l : list IpAddr) (c : ClientConfig) : ClientConfig :=
  mkConfig (hostname c) l (port c) (pos c) (cmd c) (input_channels c) (monitor c)
    (enable_clipboard_to c).
Definition with_port (p : Z) (c : ClientConfig) : ClientConfig :=
  mkConfig (hostname c) (fix_ips c) p (pos c) (cmd c) (input_channels c) (monitor c)
    (enable_clipboard_to c).
Definition with_pos (p : Ipc.Position) (c : ClientConfig) : ClientConfig :=
  mkConfig (hostname c) (fix_ips c) (port c) p (cmd c) (input_channels c) (monitor c)
    (enable_clipboard_to c).
Definition with_cmd (h : option string) (c : ClientConfig) : ClientConfig :=
  mkConfig (hostname c) (fix_ips c) (port c) (pos c) h (input_channels c) (monitor c)
    (enable_clipboard_to c).
Definition with_channels (i : InputChannelConfig) (c : ClientConfig) : ClientConfig :=
  mkConfig (hostname c) (fix_ips c) (port c) (pos c) (cmd c) i (monitor c)
    (enable_clipboard_to c).
Definition with_monitor (m : option string) (c : ClientConfig) : ClientConfig :=
  mkConfig (hostname c) (fix_ips c) (port c) (pos c) (cmd c) (input_channels c) m
    (enable_clipboard_to c).
Definition with_clipboard (b : bool) (c : ClientConfig) : ClientConfig :=
  mkConfig (hostname c) (fix_ips c) (port c) (pos c) (cmd c) (input_channels c) (monitor c) b.

Abbreviation entry := (ClientConfig * ClientState)%type.

(** * The slab *)

Class Slab (S : Type) := {
  slab_new : S;
  slab_insert : entry → S → N * S;
  slab_get : N → S → option entry;
  (** writing through [get_mut] at an occupied key *)
  slab_set : N → entry → S → S;
  slab_try_remove : N → S → option entry * S;
  slab_iter : S → list (N * entry)
}.

(** A slab that is not full hands out a vacant key; [get], [get_mut] and
    [try_remove] are those of a map; iteration goes through the occupied keys
    in ascending order. *)
Class SlabLaws (S : Type) `{Slab S} : Prop := {
  get_new k : slab_get k slab_new = None;
  insert_fresh v s :
    (N.of_nat (length (slab_iter s)) < 2 ^ 63)%N →
    slab_get (fst (slab_insert v s)) s = None ∧ (fst (slab_insert v s) < 2 ^ 63)%N;
  get_insert k v s :
    slab_get k (snd (slab_insert v s)) =
      if decide (k = fst (slab_insert v s)) then Some v else slab_get k s;
  get_set k i v s :
    is_Some (slab_get i s) →
    slab_get k (slab_set i v s) = if decide (k = i) then Some v else slab_get k s;
  remove_found k s : fst (slab_try_remove k s) = slab_get k s;
  get_remove k i s :
    slab_get k (snd (slab_try_remove i s)) = if decide (k = i) then None else slab_get k s;
  iter_get k v s : (k, v) ∈ slab_iter s ↔ slab_get k s = Some v;
  iter_sorted s : StronglySorted N.lt (fst <$> slab_iter s)
}.

(** * The operations of [ClientManager] *)

Section manager.
Context {S : Type} `{Slab S}.
Implicit Types (s : S) (h : ClientHandle).

(** [if let Some(e) = clients.get_mut(handle) { ... }]. *)
Definition modify h (f : entry → entry) s : S :=
  match slab_get h s with Some e => slab_set h (f e) s | None => s end.

(** The same with a guard: [true] when the entry was written. *)
Definition modify_if h (p : entry → bool) (f : entry → entry) s : bool * S :=
  match slab_get h s with
  | Some e => if p e then (true, slab_set h (f e) s) else (false, s)
  | None => (false, s)
  end.

Definition on_config (f : ClientConfig → ClientConfig) (e : entry) : entry := (f (fst e), snd e).
Definition on_state (f : ClientState → ClientState) (e : entry) : entry := (fst e, f (snd e)).

Definition clients s : list entry := snd <$> slab_iter s.
Definition add_client s : ClientHandle * S := slab_insert (default_config, default_state) s.
Definition set_config h (c : ClientConfig) s : S := modify h (on_config (λ _, c)) s.
Definition set_state h (st : ClientState) s : S := modify h (on_state (λ _, st)) s.

(** [add_with_config]; [order] is the order in which the [HashSet] of the
    configuration is drained into the vector of fix ips. *)
Definition config_of (order : gset IpAddr → list IpAddr) (cc : ConfigClient) : ClientConfig :=
  mkConfig (cc_hostname cc) (order (cc_ips cc)) (cc_port cc) (cc_pos cc) (cc_enter_hook cc)
    (cc_input_channels cc) (cc_monitor cc) (cc_enable_clipboard_to cc).
Definition state_of (config : ClientConfig) (is_active : bool) : ClientState :=
  mkState is_active None [] (list_to_set (fix_ips config)) false false None.
Definition add_with_config (order : gset IpAddr → list IpAddr) (cc : ConfigClient) s
    : ClientHandle * S :=
  let config := config_of order cc in
  let state := state_of config (cc_active cc) in
  let '(handle, s) := add_client s in
  let s := set_config handle config s in
  let s := set_state handle state s in
  (handle, s).

Definition activate_client h s : bool * S :=
  modify_if h (λ e, negb (active (snd e))) (on_state (with_active true)) s.
Definition deactivate_client h s : bool * S :=
  modify_if h (λ e, active (snd e)) (on_state (with_active false)) s.

(** [iter().find_map(...)] of a test on the entry. *)
Fixpoint find_key (p : entry → bool) (l : list (N * entry)) : option ClientHandle :=
  match l with
  | [] => None
  | (k, e) :: l => if p e then Some k else find_key p l
  end.

Definition get_client (addr : SocketAddr) s : option ClientHandle :=
  find_key (λ e, active (snd e) && bool_decide (sa_ip addr ∈ ips (snd e))) (slab_iter s).

Definition client_at (key : BarrierKey) s : option ClientHandle :=
  let pos' := to_ipc_pos (key_pos key) in
  find_key (λ e, active (snd e) && bool_decide (pos (fst e) = pos')
                 && bool_decide (monitor (fst e) = key_monitor key)) (slab_iter s).

Definition get_hostname h s : option string := e ← slab_get h s; hostname (fst e).
Definition key_of (c : ClientConfig) : BarrierKey :=
  mkKey (to_capture_pos (pos c)) (monitor c) 0 10000.
Definition get_key h s : option BarrierKey := e ← slab_get h s; Some (key_of (fst e)).
Definition remove_client h s : option entry * S := slab_try_remove h s.
Definition get_state h s : option entry := slab_get h s.
Definition get_client_states s : list (ClientHandle * ClientConfig * ClientState) :=
  (λ '(k, (c, st)), (k, c, st)) <$> slab_iter s.

Definition update_ips h s : S :=
  modify h (λ e, on_state
    (with_ips (list_to_set (fix_ips (fst e) ++ dns_ips (snd e)))) e) s.
Definition set_fix_ips h (l : list IpAddr) s : S :=
  update_ips h (modify h (on_config (with_fix_ips l)) s).
Definition set_dns_ips h (l : list IpAddr) s : S :=
  update_ips h (modify h (on_state (with_dns_ips l)) s).

Definition set_hostname h (name : option string) s : bool * S :=
  let '(changed, s) :=
    modify_if h (λ e, negb (bool_decide (hostname (fst e) = name)))
      (λ e, (with_hostname name (fst e), with_dns_ips [] (with_active_addr None (snd e)))) s in
  if changed then (true, update_ips h s) else (false, s).

Definition set_port h (p : Z) s : S :=
  snd (modify_if h (λ e, negb (bool_decide (port (fst e) = p)))
    (λ e, (with_port p (fst e),
           with_active_addr ((λ a, socket_addr (sa_ip a) p) <$> active_addr (snd e)) (snd e))) s).

(** The shape of [set_pos], [set_monitor] and [set_enable_clipboard_to]: write
    when the value differs, and then return whether the client is active. *)
Definition set_if_changed h (same : ClientConfig → bool) (f : ClientConfig → ClientConfig) s
    : bool * S :=
  match slab_get h s with
  | Some (c, st) =>
      if same c then (false, s) else (active st, slab_set h (f c, st) s)
  | None => (false, s)
  end.
Definition set_pos h (p : Ipc.Position) s : bool * S :=
  set_if_changed h (λ c, bool_decide (pos c = p)) (with_pos p) s.
Definition set_monitor h (m : option string) s : bool * S :=
  set_if_changed h (λ c, bool_decide (monitor c = m)) (with_monitor m) s.
Definition set_enable_clipboard_to h (b : bool) s : bool * S :=
  set_if_changed h (λ c, bool_decide (enable_clipboard_to c = b)) (with_clipboard b) s.

Definition set_enter_hook h (hook : option string) s : S :=
  modify h (on_config (with_cmd hook)) s.
Definition set_input_channels h (cfg : InputChannelConfig) s : bool * S :=
  modify_if h (λ e, negb (bool_decide (input_channels (fst e) = cfg)))
    (on_config (with_channels cfg)) s.
Definition set_resolving h (b : bool) s : S := modify h (on_state (with_resolving b)) s.
Definition get_enter_cmd h s : option string := e ← slab_get h s; cmd (fst e).
Definition registered_clients s : list ClientHandle := fst <$> slab_iter s.
Definition active_clients s : list ClientHandle :=
  fst <$> filter (λ ke, active (snd (snd ke)) = true) (slab_iter s).
Definition set_active_addr h (a : option SocketAddr) s : S :=
  modify h (on_state (with_active_addr a)) s.
Definition set_peer_commit h (c : option (list byte)) s : S :=
  modify h (on_state (with_peer_commit c)) s.
Definition get_active_addr h s : option SocketAddr := e ← slab_get h s; active_addr (snd e).
Definition get_port h s : option Z := port ∘ fst <$> slab_get h s.
Definition get_ips h s : option (gset IpAddr) := ips ∘ snd <$> slab_get h s.
Definition get_input_channels h s : option InputChannelConfig :=
  input_channels ∘ fst <$> slab_get h s.

(** [peer_key]: the trimmed host name, else the least fix ip, else the handle. *)
Definition peer_key_of h (c : ClientConfig) : string :=
  let name := n ← trim <$> hostname c; if bool_decide (n = "") then None else Some n in
  match name with
  | Some n => n
  | None => match ip_to_string <$> ip_min (fix_ips c) with
            | Some t => t
            | None => ("client-" ++ dec h)%string
            end
  end.
Definition peer_key h s : option string := e ← slab_get h s; Some (peer_key_of h (fst e)).
End manager.

(** Every way the daemon changes the table, apart from the two raw setters that
    only [add_with_config] calls. *)
Inductive client_op : Type :=
| AddClient
| AddWithConfig (cc : ConfigClient)
| ActivateClient (h : ClientHandle)
| DeactivateClient (h : ClientHandle)
| RemoveClient (h : ClientHandle)
| SetFixIps (h : ClientHandle) (l : list IpAddr)
| SetDnsIps (h : ClientHandle) (l : list IpAddr)
| SetHostname (h : ClientHandle) (name : option string)
| SetPort (h : ClientHandle) (p : Z)
| SetPos (h : ClientHandle) (p : Ipc.Position)
| SetMonitor (h : ClientHandle) (m : option string)
| SetEnableClipboardTo (h : ClientHandle) (b : bool)
| SetEnterHook (h : ClientHandle) (hook : option string)
| SetInputChannels (h : ClientHandle) (cfg : InputChannelConfig)
| SetResolving (h : ClientHandle) (b : bool)
| SetActiveAddr (h : ClientHandle) (a : option SocketAddr)
| SetPeerCommit (h : ClientHandle) (c : option (list byte)).

Definition client_step {S} `{Slab S} (order : gset IpAddr → list IpAddr) (s : S) (o : client_op)
    : S :=
  match o with
  | AddClient => snd (add_client s)
  | AddWithConfig cc => snd (add_with_config order cc s)
  | ActivateClient h => snd (activate_client h s)
  | DeactivateClient h => snd (deactivate_client h s)
  | RemoveClient h => snd (remove_client h s)
  | SetFixIps h l => set_fix_ips h l s
  | SetDnsIps h l => set_dns_ips h l s
  | SetHostname h n => snd (set_hostname h n s)
  | SetPort h p => set_port h p s
  | SetPos h p => snd (set_pos h p s)
  | SetMonitor h m => snd (set_monitor h m s)
  | SetEnableClipboardTo h b => snd (set_enable_clipboard_to h b s)
  | SetEnterHook h k => set_enter_hook h k s
  | SetInputChannels h c => snd (set_input_channels h c s)
  | SetResolving h b => set_resolving h b s
  | SetActiveAddr h a => set_active_addr h a s
  | SetPeerCommit h c => set_peer_commit h c s
  end.

(** * Lemmas *)

Section laws.
Context {S : Type} `{SlabLaws S}.
Implicit Types (s : S) (h k : ClientHandle).

Lemma get_modify k h f s :
  slab_get k (modify h f s) = if decide (k = h) then f <$> slab_get h s else slab_get k s.
Proof.
  unfold modify. destruct (slab_get h s) as [e|] eqn:E.
  - rewrite get_set by (by rewrite E). done.
  - case_decide; [by subst|done].
Qed.

Lemma get_modify_if k h p f s :
  slab_get k (snd (modify_if h p f s)) =
    if decide (k = h) then (λ e, if p e then f e else e) <$> slab_get h s else slab_get k s.
Proof.
  unfold modify_if. destruct (slab_get h s) as [e|] eqn:E; cbn.
  - destruct (p e); cbn.
    + rewrite get_set by (by rewrite E). done.
    + case_decide; [by subst|done].
  - case_decide; [by subst|done].
Qed.

Lemma modify_if_result h p f s :
  fst (modify_if h p f s) = match slab_get h s with Some e => p e | None => false end.
Proof. unfold modify_if. destruct (slab_get h s) as [e|]; [|done]. by destruct (p e). Qed.

Lemma get_set_if_changed k h same f s :
  slab_get k (snd (set_if_changed h same f s)) =
    if decide (k = h) then
      (λ e : entry, if same (fst e) then e else (f (fst e), snd e)) <$> slab_get h s
    else slab_get k s.
Proof.
  unfold set_if_changed. destruct (slab_get h s) as [[c st]|] eqn:E; cbn.
  - destruct (same c); cbn; [case_decide; [by subst|done]|].
    rewrite get_set by (by rewrite E). done.
  - case_decide; [by subst|done].
Qed.

Lemma set_if_changed_result h same f s :
  fst (set_if_changed h same f s) =
    match slab_get h s with
    | Some (c, st) => negb (same c) && active st
    | None => false
    end.
Proof. unfold set_if_changed. destruct (slab_get h s) as [[c st]|]; [|done]. by destruct (same c). Qed.

Lemma get_add_with_config order cc s k :
  slab_get k (snd (add_with_config order cc s)) =
    if decide (k = fst (add_client s)) then
      Some (config_of order cc, state_of (config_of order cc) (cc_active cc))
    else slab_get k s.
Proof.
  unfold add_with_config. destruct (add_client s) as [h s'] eqn:E. cbn.
  pose proof (get_insert k (default_config, default_state) s) as Hk.
  pose proof (get_insert h (default_config, default_state) s) as Hh.
  unfold add_client in E. rewrite E in Hk, Hh. cbn in Hk, Hh.
  rewrite decide_True in Hh by done.
  unfold set_state, set_config. rewrite !get_modify, Hk, Hh, (decide_True (P := h = h)) by done.
  by case_decide.
Qed.

Lemma add_with_config_handle order cc s :
  fst (add_with_config order cc s) = fst (add_client s).
Proof. unfold add_with_config. by destruct (add_client s). Qed.

Lemma find_key_Some p (l : list (N * entry)) k :
  StronglySorted N.lt (fst <$> l) →
  find_key p l = Some k ↔
    ∃ e, (k, e) ∈ l ∧ p e = true ∧ ∀ j e', (j, e') ∈ l → p e' = true → (k ≤ j)%N.
Proof.
  induction l as [|[i e] l IH]; cbn; intros Hs.
  { split; [done|]. intros (e & Hin & _). by apply elem_of_nil in Hin. }
  apply StronglySorted_inv in Hs as [Hs Hall]. rewrite Forall_forall in Hall.
  assert (∀ j e', (j, e') ∈ l → (i < j)%N) as Hlt.
  { intros j e' Hin. apply Hall. apply list_elem_of_fmap. by exists (j, e'). }
  destruct (p e) eqn:Ep.
  - split.
    + intros [= <-]. exists e. split_and!; [left|done|].
      intros j e' [[= -> ->]|Hin]%elem_of_cons _; [lia|]. apply Hlt in Hin. lia.
    + intros (e' & [[= -> ->]|Hin]%elem_of_cons & _ & Hmin); [done|].
      pose proof (Hmin i e (list_elem_of_here _ _) Ep). apply Hlt in Hin. lia.
  - rewrite (IH Hs). split.
    + intros (e' & Hin & Hp & Hmin). exists e'. split_and!; [by right|done|].
      intros j e'' [[= -> ->]|Hj]%elem_of_cons Hp'; [congruence|eauto].
    + intros (e' & [[= -> ->]|Hin]%elem_of_cons & Hp & Hmin); [congruence|].
      exists e'. split_and!; [done|done|]. intros j e'' Hj. apply Hmin. by right.
Qed.

Lemma find_key_iter p s k :
  find_key p (slab_iter s) = Some k ↔
    ∃ e, slab_get k s = Some e ∧ p e = true ∧
      ∀ j e', slab_get j s = Some e' → p e' = true → (k ≤ j)%N.
Proof.
  rewrite find_key_Some by apply iter_sorted.
  setoid_rewrite iter_get. done.
Qed.

Lemma find_key_iff (P : entry → Prop) p s k :
  (∀ e, p e = true ↔ P e) →
  find_key p (slab_iter s) = Some k ↔
    ∃ e, slab_get k s = Some e ∧ P e ∧ ∀ j e', slab_get j s = Some e' → P e' → (k ≤ j)%N.
Proof. intros Hp. rewrite find_key_iter. by setoid_rewrite Hp. Qed.

Lemma find_key_None p s :
  find_key p (slab_iter s) = None ↔ ∀ j e, slab_get j s = Some e → p e = false.
Proof.
  setoid_rewrite <- iter_get. induction (slab_iter s) as [|[i e] l IH]; cbn.
  { split; [|done]. intros _ j e Hin. by apply elem_of_nil in Hin. }
  destruct (p e) eqn:Ep.
  - split; [done|]. intros Hall. by rewrite (Hall i e (list_elem_of_here _ _)) in Ep.
  - rewrite IH. split.
    + intros Hall j e' [[= -> ->]|Hin]%elem_of_cons; eauto.
    + intros Hall j e' Hin. apply (Hall j). by right.
Qed.

Lemma elem_of_registered k s : k ∈ registered_clients s ↔ is_Some (slab_get k s).
Proof.
  unfold registered_clients. rewrite list_elem_of_fmap. split.
  - intros ([k' e] & -> & Hin). apply iter_get in Hin. cbn. by rewrite Hin.
  - intros [e He]. exists (k, e). split; [done|]. by apply iter_get.
Qed.

Definition is_active s k : Prop := ∃ e, slab_get k s = Some e ∧ active (snd e) = true.

Lemma elem_of_active k s : k ∈ active_clients s ↔ is_active s k.
Proof.
  unfold active_clients, is_active. rewrite list_elem_of_fmap. split.
  - intros ([k' e] & -> & [Ha Hin]%list_elem_of_filter). apply iter_get in Hin. eauto.
  - intros (e & He & Ha). exists (k, e). split; [done|]. apply list_elem_of_filter.
    split; [done|]. by apply iter_get.
Qed.
End laws.
#[export] Hint Rewrite @get_modify @get_modify_if @get_set_if_changed @get_add_with_config
  @get_remove using typeclasses eauto : lm.

(** * A slab

    A vector of slots with the first vacant slot reused: the instance the
    witnesses run on. *)

Module VecSlab.
Abbreviation t := (list (option entry)).

Fixpoint insert_at (v : entry) (s : t) : nat * t :=
  match s with
  | [] => (0, [Some v])
  | None :: s => (0, Some v :: s)
  | Some e :: s => let '(k, s) := insert_at v s in (S k, Some e :: s)
  end.
Fixpoint iter_from (i : N) (s : t) : list (N * entry) :=
  match s with
  | [] => []
  | None :: s => iter_from (N.succ i) s
  | Some e :: s => (i, e) :: iter_from (N.succ i) s
  end.

#[global] Instance slab : Slab t := {
  slab_new := [];
  slab_insert v s := let '(k, s) := insert_at v s in (N.of_nat k, s);
  slab_get k s := s !! N.to_nat k ≫= id;
  slab_set k v s := <[N.to_nat k := Some v]> s;
  slab_try_remove k s := (s !! N.to_nat k ≫= id, <[N.to_nat k := None]> s);
  slab_iter s := iter_from 0 s
}.

Lemma insert_at_lookup v s k :
  snd (insert_at v s) !! k ≫= id =
    if decide (k = fst (insert_at v s)) then Some v else s !! k ≫= id.
Proof.
  revert k. induction s as [|[e|] s IH]; intros [|k]; cbn; try done.
  - by destruct (insert_at v s) as [i s'].
  - destruct (insert_at v s) as [i s'] eqn:E. cbn. cbn in IH. rewrite IH.
    repeat case_decide; try done; lia.
Qed.

Lemma insert_at_vacant v s : s !! fst (insert_at v s) ≫= id = None.
Proof.
  induction s as [|[e|] s IH]; cbn; try done.
  by destruct (insert_at v s) as [i s'].
Qed.

Lemma iter_from_length v s i :
  (fst (insert_at v s) ≤ length (iter_from i s))%nat.
Proof.
  revert i. induction s as [|[e|] s IH]; intros i; cbn; [lia| |lia].
  specialize (IH (N.succ i)). destruct (insert_at v s). cbn in *. lia.
Qed.

Lemma iter_from_get i s k v :
  (k, v) ∈ iter_from i s ↔ (i ≤ k)%N ∧ s !! N.to_nat (k - i) ≫= id = Some v.
Proof.
  revert i. induction s as [|o s IH]; intros i; cbn.
  { split; [intros Hin; by apply elem_of_nil in Hin|by intros [_ ?]]. }
  assert ((k = i ∧ o = Some v ∨ (i < k)%N ∧ (k, v) ∈ iter_from (N.succ i) s) ↔
    (i ≤ k)%N ∧ (o :: s) !! N.to_nat (k - i) ≫= id = Some v) as Hx.
  { rewrite IH. destruct (decide (k = i)) as [->|Hne].
    - rewrite N.sub_diag. change ((o :: s) !! N.to_nat 0 ≫= id) with o.
      split; [intros [[_ ->]|[? _]]; [done|lia]|]. intros [_ ->]. by left.
    - split; [intros [[? _]|[_ [? Hl]]]; [done|]|intros [? Hl]].
      + split; [lia|]. replace (N.to_nat (k - i)) with (S (N.to_nat (k - N.succ i))) by lia. done.
      + right. replace (N.to_nat (k - i)) with (S (N.to_nat (k - N.succ i))) in Hl by lia.
        split_and!; [lia|lia|done]. }
  rewrite <- Hx. destruct o as [e|].
  - rewrite elem_of_cons. split.
    + intros [[= -> ->]|Hin]; [by left|right]. split; [|done]. apply IH in Hin. lia.
    + intros [[-> [= ->]]|[_ Hin]]; auto.
  - split; [|intros [[_ ?]|[_ ?]]; done]. intros Hin. right. split; [|done].
    apply IH in Hin. lia.
Qed.

Lemma iter_from_sorted i s : StronglySorted N.lt (fst <$> iter_from i s).
Proof.
  revert i. induction s as [|[e|] s IH]; intros i; cbn; [constructor| |apply IH].
  constructor; [apply IH|]. apply Forall_forall. intros k Hk.
  apply list_elem_of_fmap in Hk as ([k' e'] & -> & Hin). apply iter_from_get in Hin. cbn. lia.
Qed.

#[global] Instance laws : SlabLaws t.
Proof.
  split.
  - intros k. by cbn.
  - intros v s Hlen. cbn in *. pose proof (insert_at_vacant v s).
    pose proof (iter_from_length v s 0). destruct (insert_at v s) as [k s']. cbn in *.
    rewrite Nat2N.id. split; [done|lia].
  - intros k v s. cbn. pose proof (insert_at_lookup v s (N.to_nat k)).
    destruct (insert_at v s) as [i s']. cbn in *.
    repeat case_decide; subst; try done; rewrite ?Nat2N.id in *; try done; lia.
  - intros k i v s [e He]. cbn in *. destruct (s !! N.to_nat i) eqn:E; [|done].
    case_decide; [subst; by rewrite list_lookup_insert_eq by (by eapply lookup_lt_Some)|].
    by rewrite list_lookup_insert_ne by lia.
  - done.
  - intros k i s. cbn. case_decide; [subst|by rewrite list_lookup_insert_ne by lia].
    destruct (decide (N.to_nat i < length s)) as [Hlt|Hge].
    + by rewrite list_lookup_insert_eq.
    + by rewrite lookup_ge_None_2 by (rewrite length_insert; lia).
  - intros k v s. cbn. rewrite iter_from_get, N.sub_0_r. split; [by intros [_ ?]|].
    intros; split; [lia|done].
  - intros s. apply iter_from_sorted.
Qed.
End VecSlab.

(** * Invariants *)

(** The addresses of a client are the configured and the resolved ones. *)
Definition ips_ok (e : entry) : Prop :=
  ips (snd e) = list_to_set (fix_ips (fst e) ++ dns_ips (snd e)).

Section invariants.
Context {S : Type} `{SlabLaws S}.
Implicit Types (s : S) (h k : ClientHandle).

Definition all_ok s : Prop := ∀ k e, slab_get k s = Some e → ips_ok e.

Lemma all_ok_modify h f s :
  (∀ e, ips_ok e → ips_ok (f e)) → all_ok s → all_ok (modify h f s).
Proof.
  intros Hf Hs k e. rewrite get_modify. case_decide; [|apply Hs].
  intros (e' & He' & ->)%fmap_Some. eauto.
Qed.

Lemma all_ok_modify_if h p f s :
  (∀ e, ips_ok e → ips_ok (f e)) → all_ok s → all_ok (snd (modify_if h p f s)).
Proof.
  intros Hf Hs k e. rewrite get_modify_if. case_decide; [|apply Hs].
  intros (e' & He' & ->)%fmap_Some. destruct (p e'); eauto.
Qed.

Lemma all_ok_set_if_changed h same f s :
  (∀ c, fix_ips (f c) = fix_ips c) → all_ok s → all_ok (snd (set_if_changed h same f s)).
Proof.
  intros Hf Hs k e. rewrite get_set_if_changed. case_decide; [|apply Hs].
  intros (e' & He' & ->)%fmap_Some. destruct (same (fst e')); [eauto|].
  unfold ips_ok. cbn. rewrite Hf. by eapply Hs.
Qed.

(** [update_ips] repairs the one entry that may be stale. *)
Lemma all_ok_update h s :
  (∀ k e, k ≠ h → slab_get k s = Some e → ips_ok e) → all_ok (update_ips h s).
Proof.
  intros Hs k e. unfold update_ips. rewrite get_modify. case_decide; [|eauto].
  intros (e' & He' & ->)%fmap_Some. done.
Qed.

Lemma all_ok_update_after h f s : all_ok s → all_ok (update_ips h (modify h f s)).
Proof.
  intros Hs. apply all_ok_update. intros k e Hne. rewrite get_modify, decide_False by done. apply Hs.
Qed.

Lemma all_ok_step order s o :
  (∀ l, order l ≡ₚ elements l) → all_ok s → all_ok (client_step order s o).
Proof.
  intros Hord Hs. destruct o; cbn.
  - intros k e. unfold add_client. rewrite get_insert. case_decide; [intros [= <-]; done|apply Hs].
  - intros k e. rewrite get_add_with_config. case_decide; [intros [= <-]|apply Hs].
    unfold ips_ok. cbn. by rewrite app_nil_r.
  - by apply all_ok_modify_if.
  - by apply all_ok_modify_if.
  - intros k e. unfold remove_client. rewrite get_remove. case_decide; [done|apply Hs].
  - by apply all_ok_update_after.
  - by apply all_ok_update_after.
  - unfold set_hostname.
    destruct (modify_if h _ _ s) as [[] s'] eqn:E; cbn.
    + apply all_ok_update. intros k e Hne.
      replace s' with (snd (true, s')) by done. rewrite <- E, get_modify_if, decide_False by done.
      apply Hs.
    + unfold modify_if in E. destruct (slab_get h s) as [e|]; [|by injection E as <-].
      destruct (negb _); [done|by injection E as <-].
  - by apply all_ok_modify_if.
  - by apply all_ok_set_if_changed.
  - by apply all_ok_set_if_changed.
  - by apply all_ok_set_if_changed.
  - by apply all_ok_modify.
  - by apply all_ok_modify_if.
  - by apply all_ok_modify.
  - by apply all_ok_modify.
  - by apply all_ok_modify.
Qed.
End invariants.

(** * Properties *)

(** After any sequence of operations on an empty table, the addresses of
    every client, by which its packets are attributed to it, are exactly its
    configured addresses and the ones resolved for its host name. *)
Theorem client_ips_invariant {S} `{SlabLaws S} (order : gset IpAddr → list IpAddr) ops :
  (∀ l, order l ≡ₚ elements l) →
  ∀ h c st, slab_get h (foldl (client_step order) slab_new ops) = Some (c, st) →
    ips st = list_to_set (fix_ips c ++ dns_ips st).
Proof.
  intros Hord h c st Hg.
  assert (all_ok (foldl (client_step order) slab_new ops)) as Hall; [|exact (Hall h (c, st) Hg)].
  clear Hg. assert (all_ok slab_new) as Hnew by (intros k e; by rewrite get_new).
  revert Hnew. generalize (slab_new (S := S)).
  induction ops as [|o ops IH]; intros s Hs; cbn; [done|]. apply IH. by apply all_ok_step.
Qed.

Lemma client_ips_invariant_witness :
  ips (default default_state (snd <$> slab_get 0%N (foldl (client_step elements)
    (slab_new (S := VecSlab.t))
    [AddClient; SetFixIps 0 [V4 1]; SetDnsIps 0 [V4 2]; SetHostname 0 (Some "a")]))) =
  {[V4 1]}.
Proof.
  pose proof (client_ips_invariant (S := VecSlab.t) elements
    [AddClient; SetFixIps 0 [V4 1]; SetDnsIps 0 [V4 2]; SetHostname 0 (Some "a")]
    (λ l, Permutation_refl _) 0%N _ _ eq_refl) as H.
  by vm_compute in H |- *.
Defined.

(** The lookups: [get_client] answers with the lowest active handle that
    owns the address and [client_at] with the lowest active handle at the same
    edge and the same monitor; both answer nothing only when there is none. *)
Theorem client_lookups {S} `{SlabLaws S} (s : S) :
  (∀ addr h, get_client addr s = Some h ↔
     ∃ e, slab_get h s = Some e ∧ active (snd e) = true ∧ sa_ip addr ∈ ips (snd e) ∧
       ∀ j e', slab_get j s = Some e' → active (snd e') = true →
         sa_ip addr ∈ ips (snd e') → (h ≤ j)%N) ∧
  (∀ p m h, client_at (mkKey (to_capture_pos p) m 0 10000) s = Some h ↔
     ∃ e, slab_get h s = Some e ∧ active (snd e) = true ∧ pos (fst e) = p ∧
       monitor (fst e) = m ∧
       ∀ j e', slab_get j s = Some e' → active (snd e') = true → pos (fst e') = p →
         monitor (fst e') = m → (h ≤ j)%N).
Proof.
  split.
  - intros addr h. unfold get_client.
    rewrite (find_key_iff (λ e, active (snd e) = true ∧ sa_ip addr ∈ ips (snd e)))
      by (intros e; by rewrite andb_true_iff, bool_decide_eq_true).
    naive_solver.
  - intros p m h. unfold client_at.
    rewrite (find_key_iff (λ e, (active (snd e) = true ∧ pos (fst e) = p) ∧ monitor (fst e) = m)).
    + naive_solver.
    + intros e. cbn. rewrite !andb_true_iff, !bool_decide_eq_true. by destruct p.
Qed.

Lemma client_lookups_witness :
  client_at (mkKey Edge.Left None 0 10000) (foldl (client_step elements)
    (slab_new (S := VecSlab.t)) [AddClient; AddClient; ActivateClient 1]) = Some 1%N.
Proof.
  apply (proj2 (client_lookups (S := VecSlab.t) _) Ipc.Left None).
  eexists. split_and!; [by vm_compute|done|done|done|].
  intros j e' Hj Ha _ _. destruct j as [|p]; [by vm_compute in Hj; injection Hj as <-|lia].
Defined.

(** The identity that names a peer's pin file: the trimmed host name when
    there is one, else the least configured address, else the handle.  It does
    not change when the configured addresses are reordered, and not when the
    resolved addresses, the port or any other field changes. *)
Theorem peer_key_stable {S} `{Slab S} (s : S) h c st :
  slab_get h s = Some (c, st) →
  (∃ k, peer_key h s = Some k ∧
    match trim <$> hostname c, ip_min (fix_ips c) with
    | Some (String a t), _ => k = String a t
    | _, Some ip => k = ip_to_string ip ∧ ip ∈ fix_ips c ∧
                    ∀ x, x ∈ fix_ips c → ip_le ip x = true
    | _, None => k = ("client-" ++ dec h)%string
    end) ∧
  (∀ (s' : S) c' st', slab_get h s' = Some (c', st') →
    hostname c' = hostname c → fix_ips c' ≡ₚ fix_ips c → peer_key h s' = peer_key h s).
Proof.
  intros Hg. unfold peer_key. rewrite Hg. split.
  - eexists. split; [done|]. cbn. unfold peer_key_of.
    destruct (hostname c) as [n|]; cbn; [destruct (trim n) as [|a t]; cbn|].
    + destruct (ip_min (fix_ips c)) as [ip|] eqn:E; cbn; [|done].
      by apply ip_min_spec in E as [? ?].
    + done.
    + destruct (ip_min (fix_ips c)) as [ip|] eqn:E; cbn; [|done].
      by apply ip_min_spec in E as [? ?].
  - intros s' c' st' -> Hn Hp. cbn. unfold peer_key_of. by rewrite Hn, (ip_min_perm _ _ Hp).
Qed.

Lemma peer_key_stable_witness :
  peer_key 0%N (foldl (client_step elements) (slab_new (S := VecSlab.t))
    [AddClient; SetFixIps 0 [V4 3232235778; V4 3232235777]; SetHostname 0 (Some "  ")]) =
  Some "192.168.1.1".
Proof.
  set (t := foldl _ _ _).
  assert (slab_get 0%N t = Some (default (default_config, default_state) (slab_get 0%N t)))
    as Ht by (by vm_compute).
  destruct (slab_get 0%N t) as [[c st]|] eqn:E; [|done].
  destruct (peer_key_stable (S := VecSlab.t) t 0%N c st E) as [(k & Hk & Hm) _].
  rewrite Hk. vm_compute in E. injection E as <- <-. cbn in Hm.
  by destruct Hm as [-> _].
Defined.

(** The setters that drive a barrier rebuild: the entry gets the new
    value, every other client is untouched, and the answer says that the value
    changed and the client is active.  Changing the host name forgets the
    active and the resolved addresses; changing the port moves the active
    address to it. *)
Theorem client_setters {S} `{SlabLaws S} (s : S) h c st :
  slab_get h s = Some (c, st) →
  (∀ p, fst (set_pos h p s) = negb (bool_decide (pos c = p)) && active st ∧
     ∀ k, slab_get k (snd (set_pos h p s)) =
       if decide (k = h) then Some (with_pos p c, st) else slab_get k s) ∧
  (∀ m, fst (set_monitor h m s) = negb (bool_decide (monitor c = m)) && active st ∧
     ∀ k, slab_get k (snd (set_monitor h m s)) =
       if decide (k = h) then Some (with_monitor m c, st) else slab_get k s) ∧
  (∀ n, hostname c ≠ n → fst (set_hostname h n s) = true ∧
     ∀ k, slab_get k (snd (set_hostname h n s)) =
       if decide (k = h) then
         Some (with_hostname n c, mkState (active st) None [] (list_to_set (fix_ips c))
                 (has_pressed_keys st) (resolving st) (peer_commit st))
       else slab_get k s) ∧
  (∀ p, port c ≠ p → ∀ k, slab_get k (set_port h p s) =
     if decide (k = h) then
       Some (with_port p c,
             with_active_addr ((λ a, socket_addr (sa_ip a) p) <$> active_addr st) st)
     else slab_get k s).
Proof.
  intros Hg. split_and!.
  - intros p. split.
    + unfold set_pos. by rewrite set_if_changed_result, Hg.
    + intros k. unfold set_pos. rewrite get_set_if_changed, Hg. case_decide; [|done]. cbn.
      case_bool_decide as Hp; [|done]. subst p. by destruct c.
  - intros m. split.
    + unfold set_monitor. by rewrite set_if_changed_result, Hg.
    + intros k. unfold set_monitor. rewrite get_set_if_changed, Hg. case_decide; [|done]. cbn.
      case_bool_decide as Hp; [|done]. subst m. by destruct c.
  - intros n Hn. unfold set_hostname.
    pose proof (modify_if_result h (λ e, negb (bool_decide (hostname (fst e) = n)))
      (λ e, (with_hostname n (fst e), with_dns_ips [] (with_active_addr None (snd e)))) s) as E.
    pose proof (λ k, get_modify_if k h (λ e, negb (bool_decide (hostname (fst e) = n)))
      (λ e, (with_hostname n (fst e), with_dns_ips [] (with_active_addr None (snd e)))) s) as G.
    rewrite Hg in E. cbn in E. rewrite bool_decide_false in E by done.
    destruct (modify_if _ _ _ s) as [b s']. cbn in E. subst b. split; [done|]. intros k.
    cbn in *. unfold update_ips. rewrite get_modify, !G, Hg. cbn.
    rewrite (decide_True (P := h = h)), bool_decide_false by done. cbn. case_decide; [|done].
    cbn. by rewrite app_nil_r.
  - intros p Hp k. unfold set_port. rewrite get_modify_if, Hg. case_decide; [|done]. cbn.
    by rewrite bool_decide_false.
Qed.

Lemma client_setters_witness :
  fst (set_pos 0%N Ipc.Right (foldl (client_step elements) (slab_new (S := VecSlab.t))
    [AddClient; ActivateClient 0])) = true.
Proof.
  set (t := foldl _ _ _).
  assert (slab_get 0%N t = Some (default_config, with_active true default_state)) as Ht
    by reflexivity.
  destruct (client_setters t 0%N default_config (with_active true default_state) Ht) as (H & _).
  by rewrite (proj1 (H Ipc.Right)).
Defined.
