(* ===== verification/Scancode.v ===== *)
(** Key codes (input-event/src/scancode.rs): the Windows scan codes, the Linux
    key codes and the translations between them, table by table. *)

From S2P Require Import Prelude Geometry.

Module Windows.
Inductive Windows : Type :=
  | Shutdown | SystemSleep | SystemWakeUp | ErrorRollOver | KeyA | KeyB | KeyC | KeyD | KeyE
  | KeyF | KeyG | KeyH | KeyI | KeyJ | KeyK | KeyL | KeyM | KeyN | KeyO | KeyP | KeyQ | KeyR
  | KeyS | KeyT | KeyU | KeyV | KeyW | KeyX | KeyY | KeyZ | Key1 | Key2 | Key3 | Key4 | Key5
  | Key6 | Key7 | Key8 | Key9 | Key0 | KeyEnter | KeyEsc | KeyDelete | KeyTab | KeySpace
  | KeyMinus | KeyEqual | KeyLeftBrace | KeyRightBrace | KeyBackslash | KeySemiColon
  | KeyApostrophe | KeyGrave | KeyComma | KeyDot | KeySlash | KeyCapsLock | KeyF1 | KeyF2
  | KeyF3 | KeyF4 | KeyF5 | KeyF6 | KeyF7 | KeyF8 | KeyF9 | KeyF10 | KeyF11 | KeyF12
  | KeyPrintScreen | KeyScrollLock | KeyPause | KeyInsert | KeyHome | KeyPageUp
  | KeyDeleteForward | KeyEnd | KeyPageDown | KeyRight | KeyLeft | KeyDown | KeyUp
  | KeypadNumLock | KeypadSlash | KeypadStar | KeypadDash | KeypadPlus | KeypadEnter
  | Keypad1End | Keypad2DownArrow | Keypad3PageDn | Keypad4LeftArrow | Keypad5
  | Keypad6RightArrow | Keypad7Home | Keypad8UpArrow | Keypad9PageUp | Keypad0Insert
  | KeypadDot | KeyNonUSSlashBar | KeyApplication | KeypadEquals | KeyF13 | KeyF14 | KeyF15
  | KeyF16 | KeyF17 | KeyF18 | KeyF19 | KeyF20 | KeyF21 | KeyF22 | KeyF23 | KeyF24
  | KeypadComma | KeyInternational1 | KeyInternational2 | KeyInternational3 | KeyInternational4
  | KeyInternational5 | KeyLANG1 | KeyLANG2 | KeyLANG3 | KeyLANG4 | KeyLeftCtrl | KeyLeftShift
  | KeyLeftAlt | KeyLeftGUI | KeyRightCtrl | KeyRightShift | KeyFakeRightShift | KeyRightAlt
  | KeyRightGUI | KeyScanNextTrack | KeyScanPreviousTrack | KeyStop | KeyPlayPause | KeyMute
  | KeyVolumeUp | KeyVolumeDown | ALConsumerControlConfiguration | ALEmailReader | ALCalculator
  | ALLocalMachineBrowser | ACSearch | ACHome | ACBack | ACForward | ACStop | ACRefresh
  | ACBookmarks.

(** [as u32]. *)
Definition to_u32 (k : Windows) : Z :=
  match k with
  | Shutdown => 57438 | SystemSleep => 57439 | SystemWakeUp => 57443 | ErrorRollOver => 255
  | KeyA => 30 | KeyB => 48 | KeyC => 46 | KeyD => 32 | KeyE => 18 | KeyF => 33 | KeyG => 34
  | KeyH => 35 | KeyI => 23 | KeyJ => 36 | KeyK => 37 | KeyL => 38 | KeyM => 50 | KeyN => 49
  | KeyO => 24 | KeyP => 25 | KeyQ => 16 | KeyR => 19 | KeyS => 31 | KeyT => 20 | KeyU => 22
  | KeyV => 47 | KeyW => 17 | KeyX => 45 | KeyY => 21 | KeyZ => 44 | Key1 => 2 | Key2 => 3
  | Key3 => 4 | Key4 => 5 | Key5 => 6 | Key6 => 7 | Key7 => 8 | Key8 => 9 | Key9 => 10
  | Key0 => 11 | KeyEnter => 28 | KeyEsc => 1 | KeyDelete => 14 | KeyTab => 15 | KeySpace => 57
  | KeyMinus => 12 | KeyEqual => 13 | KeyLeftBrace => 26 | KeyRightBrace => 27
  | KeyBackslash => 43 | KeySemiColon => 39 | KeyApostrophe => 40 | KeyGrave => 41
  | KeyComma => 51 | KeyDot => 52 | KeySlash => 53 | KeyCapsLock => 58 | KeyF1 => 59
  | KeyF2 => 60 | KeyF3 => 61 | KeyF4 => 62 | KeyF5 => 63 | KeyF6 => 64 | KeyF7 => 65
  | KeyF8 => 66 | KeyF9 => 67 | KeyF10 => 68 | KeyF11 => 87 | KeyF12 => 88
  | KeyPrintScreen => 57399 | KeyScrollLock => 70 | KeyPause => 14753093 | KeyInsert => 57426
  | KeyHome => 57415 | KeyPageUp => 57417 | KeyDeleteForward => 57427 | KeyEnd => 57423
  | KeyPageDown => 57425 | KeyRight => 57421 | KeyLeft => 57419 | KeyDown => 57424
  | KeyUp => 57416 | KeypadNumLock => 69 | KeypadSlash => 57397 | KeypadStar => 55
  | KeypadDash => 74 | KeypadPlus => 78 | KeypadEnter => 57372 | Keypad1End => 79
  | Keypad2DownArrow => 80 | Keypad3PageDn => 81 | Keypad4LeftArrow => 75 | Keypad5 => 76
  | Keypad6RightArrow => 77 | Keypad7Home => 71 | Keypad8UpArrow => 72 | Keypad9PageUp => 73
  | Keypad0Insert => 82 | KeypadDot => 83 | KeyNonUSSlashBar => 86 | KeyApplication => 57437
  | KeypadEquals => 89 | KeyF13 => 100 | KeyF14 => 101 | KeyF15 => 102 | KeyF16 => 103
  | KeyF17 => 104 | KeyF18 => 105 | KeyF19 => 106 | KeyF20 => 107 | KeyF21 => 108
  | KeyF22 => 109 | KeyF23 => 110 | KeyF24 => 118 | KeypadComma => 126
  | KeyInternational1 => 115 | KeyInternational2 => 112 | KeyInternational3 => 125
  | KeyInternational4 => 121 | KeyInternational5 => 123 | KeyLANG1 => 114 | KeyLANG2 => 113
  | KeyLANG3 => 120 | KeyLANG4 => 119 | KeyLeftCtrl => 29 | KeyLeftShift => 42
  | KeyLeftAlt => 56 | KeyLeftGUI => 57435 | KeyRightCtrl => 57373 | KeyRightShift => 54
  | KeyFakeRightShift => 57398 | KeyRightAlt => 57400 | KeyRightGUI => 57436
  | KeyScanNextTrack => 57369 | KeyScanPreviousTrack => 57360 | KeyStop => 57380
  | KeyPlayPause => 57378 | KeyMute => 57376 | KeyVolumeUp => 57392 | KeyVolumeDown => 57390
  | ALConsumerControlConfiguration => 57453 | ALEmailReader => 57452 | ALCalculator => 57377
  | ALLocalMachineBrowser => 57451 | ACSearch => 57445 | ACHome => 57394 | ACBack => 57450
  | ACForward => 57449 | ACStop => 57448 | ACRefresh => 57447 | ACBookmarks => 57446
  end.

Definition all : list Windows :=
  [Shutdown; SystemSleep; SystemWakeUp; ErrorRollOver; KeyA; KeyB; KeyC; KeyD; KeyE; KeyF; KeyG;
  KeyH; KeyI; KeyJ; KeyK; KeyL; KeyM; KeyN; KeyO; KeyP; KeyQ; KeyR; KeyS; KeyT; KeyU; KeyV;
  KeyW; KeyX; KeyY; KeyZ; Key1; Key2; Key3; Key4; Key5; Key6; Key7; Key8; Key9; Key0; KeyEnter;
  KeyEsc; KeyDelete; KeyTab; KeySpace; KeyMinus; KeyEqual; KeyLeftBrace; KeyRightBrace;
  KeyBackslash; KeySemiColon; KeyApostrophe; KeyGrave; KeyComma; KeyDot; KeySlash; KeyCapsLock;
  KeyF1; KeyF2; KeyF3; KeyF4; KeyF5; KeyF6; KeyF7; KeyF8; KeyF9; KeyF10; KeyF11; KeyF12;
  KeyPrintScreen; KeyScrollLock; KeyPause; KeyInsert; KeyHome; KeyPageUp; KeyDeleteForward;
  KeyEnd; KeyPageDown; KeyRight; KeyLeft; KeyDown; KeyUp; KeypadNumLock; KeypadSlash;
  KeypadStar; KeypadDash; KeypadPlus; KeypadEnter; Keypad1End; Keypad2DownArrow; Keypad3PageDn;
  Keypad4LeftArrow; Keypad5; Keypad6RightArrow; Keypad7Home; Keypad8UpArrow; Keypad9PageUp;
  Keypad0Insert; KeypadDot; KeyNonUSSlashBar; KeyApplication; KeypadEquals; KeyF13; KeyF14;
  KeyF15; KeyF16; KeyF17; KeyF18; KeyF19; KeyF20; KeyF21; KeyF22; KeyF23; KeyF24; KeypadComma;
  KeyInternational1; KeyInternational2; KeyInternational3; KeyInternational4;
  KeyInternational5; KeyLANG1; KeyLANG2; KeyLANG3; KeyLANG4; KeyLeftCtrl; KeyLeftShift;
  KeyLeftAlt; KeyLeftGUI; KeyRightCtrl; KeyRightShift; KeyFakeRightShift; KeyRightAlt;
  KeyRightGUI; KeyScanNextTrack; KeyScanPreviousTrack; KeyStop; KeyPlayPause; KeyMute;
  KeyVolumeUp; KeyVolumeDown; ALConsumerControlConfiguration; ALEmailReader; ALCalculator;
  ALLocalMachineBrowser; ACSearch; ACHome; ACBack; ACForward; ACStop; ACRefresh; ACBookmarks].

(** The derived [TryFromPrimitive]. *)
Definition try_from_u32 (z : Z) : option Windows := find (λ k, to_u32 k =? z)%Z all.

Lemma win_try_from_to k : try_from_u32 (to_u32 k) = Some k.
Proof. by destruct k. Qed.

Lemma win_to_u32_inj k k' : to_u32 k = to_u32 k' → k = k'.
Proof. intros E. pose proof (win_try_from_to k) as H. rewrite E, win_try_from_to in H. congruence. Qed.

#[global] Instance Windows_eq_dec : EqDecision Windows.
Proof.
  refine (λ k k', cast_if (decide (to_u32 k = to_u32 k'))); [by apply win_to_u32_inj|congruence].
Defined.
#[global] Instance Windows_countable : Countable Windows.
Proof. exact (inj_countable to_u32 try_from_u32 win_try_from_to). Defined.

Lemma win_try_from_Some z k : try_from_u32 z = Some k ↔ z = to_u32 k.
Proof.
  split; [|intros ->; apply win_try_from_to]. unfold try_from_u32. intros H.
  apply find_Some in H as (_ & _ & H & _). apply Z.eqb_eq in H. done.
Qed.

Lemma win_elem_of_all k : k ∈ all.
Proof.
  pose proof (win_try_from_to k) as H. unfold try_from_u32 in H.
  apply find_Some in H as (i & Hi & _). by eapply list_elem_of_lookup_2.
Qed.
End Windows.

Module Linux.
Inductive Linux : Type :=
  | KeyReserved | KeyEsc | Key1 | Key2 | Key3 | Key4 | Key5 | Key6 | Key7 | Key8 | Key9 | Key0
  | KeyMinus | KeyEqual | KeyBackspace | KeyTab | KeyQ | KeyW | KeyE | KeyR | KeyT | KeyY
  | KeyU | KeyI | KeyO | KeyP | KeyLeftbrace | KeyRightbrace | KeyEnter | KeyLeftCtrl | KeyA
  | KeyS | KeyD | KeyF | KeyG | KeyH | KeyJ | KeyK | KeyL | KeySemicolon | KeyApostrophe
  | KeyGrave | KeyLeftShift | KeyBackslash | KeyZ | KeyX | KeyC | KeyV | KeyB | KeyN | KeyM
  | KeyComma | KeyDot | KeySlash | KeyRightShift | KeyKpAsterisk | KeyLeftAlt | KeySpace
  | KeyCapsLock | KeyF1 | KeyF2 | KeyF3 | KeyF4 | KeyF5 | KeyF6 | KeyF7 | KeyF8 | KeyF9
  | KeyF10 | KeyNumlock | KeyScrollLock | KeyKp7 | KeyKp8 | KeyKp9 | KeyKpMinus | KeyKp4
  | KeyKp5 | KeyKp6 | KeyKpplus | KeyKp1 | KeyKp2 | KeyKp3 | KeyKp0 | KeyKpDot | Invalid
  | KeyZenkakuhankaku | Key102nd | KeyF11 | KeyF12 | KeyRo | KeyKatakana | KeyHiragana
  | KeyHenkan | KeyKatakanahiragana | KeyMuhenkan | KeyKpJpComma | KeyKpEnter | KeyRightCtrl
  | KeyKpslash | KeySysrq | KeyRightalt | KeyLinefeed | KeyHome | KeyUp | KeyPageup | KeyLeft
  | KeyRight | KeyEnd | KeyDown | KeyPagedown | KeyInsert | KeyDelete | KeyMacro | KeyMute
  | KeyVolumeDown | KeyVolumeUp | KeyPower | KeyKpequal | KeyKpplusminus | KeyPause | KeyScale
  | KeyKpcomma | KeyHanguel | KeyHanja | KeyYen | KeyLeftMeta | KeyRightmeta | KeyCompose
  | KeyStop | KeyAgain | KeyProps | KeyUndo | KeyFront | KeyCopy | KeyOpen | KeyPaste | KeyFind
  | KeyCut | KeyHelp | KeyMenu | KeyCalc | KeySetup | KeySleep | KeyWakeup | KeyFile
  | KeySendfile | KeyDeletefile | KeyXfer | KeyProg1 | KeyProg2 | KeyWww | KeyMsdos | KeyCoffee
  | KeyRotateDisplay | KeyCyclewindows | KeyMail | KeyBookmarks | KeyComputer | KeyBack
  | KeyForward | KeyClosecd | KeyEjectcd | KeyEjectclosecd | KeyNextsong | KeyPlaypause
  | KeyPrevioussong | KeyStopcd | KeyRecord | KeyRewind | KeyPhone | KeyIso | KeyConfig
  | KeyHomepage | KeyRefresh | KeyExit | KeyMove | KeyEdit | KeyScrollup | KeyScrolldown
  | KeyKpleftparen | KeyKprightparen | KeyNew | KeyRedo | KeyF13 | KeyF14 | KeyF15 | KeyF16
  | KeyF17 | KeyF18 | KeyF19 | KeyF20 | KeyF21 | KeyF22 | KeyF23 | KeyF24 | Invalid1 | Invalid2
  | Invalid3 | Invalid4 | Invalid5 | KeyPlaycd | KeyPausecd | KeyProg3 | KeyProg4
  | KeyAllApplications | KeySuspend | KeyClose | KeyPlay | KeyFastforward | KeyBassboost
  | KeyPrint | KeyHp | KeyCamera | KeySound | KeyQuestion | KeyEmail | KeyChat | KeySearch
  | KeyConnect | KeyFinance | KeySport | KeyShop | KeyAlterase | KeyCancel | KeyBrightnessdown
  | KeyBrightnessup | KeyMedia | KeySwitchvideomode | KeyKbdillumtoggle | KeyKbdillumdown
  | KeyKbdillumup | KeySend | KeyReply | KeyForwardmail | KeySave | KeyDocuments | KeyBattery
  | KeyBluetooth | KeyWlan | KeyUwb | KeyUnknown | KeyVideoNext | KeyVideoPrev
  | KeyBrightnessCycle | KeyBrightnessAuto | KeyDisplayOff | KeyWwan | KeyRfkill | KeyMicmute
  | KeyCount.

(** [as u32]. *)
Definition to_u32 (k : Linux) : Z :=
  match k with
  | KeyReserved => 0 | KeyEsc => 1 | Key1 => 2 | Key2 => 3 | Key3 => 4 | Key4 => 5 | Key5 => 6
  | Key6 => 7 | Key7 => 8 | Key8 => 9 | Key9 => 10 | Key0 => 11 | KeyMinus => 12
  | KeyEqual => 13 | KeyBackspace => 14 | KeyTab => 15 | KeyQ => 16 | KeyW => 17 | KeyE => 18
  | KeyR => 19 | KeyT => 20 | KeyY => 21 | KeyU => 22 | KeyI => 23 | KeyO => 24 | KeyP => 25
  | KeyLeftbrace => 26 | KeyRightbrace => 27 | KeyEnter => 28 | KeyLeftCtrl => 29 | KeyA => 30
  | KeyS => 31 | KeyD => 32 | KeyF => 33 | KeyG => 34 | KeyH => 35 | KeyJ => 36 | KeyK => 37
  | KeyL => 38 | KeySemicolon => 39 | KeyApostrophe => 40 | KeyGrave => 41 | KeyLeftShift => 42
  | KeyBackslash => 43 | KeyZ => 44 | KeyX => 45 | KeyC => 46 | KeyV => 47 | KeyB => 48
  | KeyN => 49 | KeyM => 50 | KeyComma => 51 | KeyDot => 52 | KeySlash => 53
  | KeyRightShift => 54 | KeyKpAsterisk => 55 | KeyLeftAlt => 56 | KeySpace => 57
  | KeyCapsLock => 58 | KeyF1 => 59 | KeyF2 => 60 | KeyF3 => 61 | KeyF4 => 62 | KeyF5 => 63
  | KeyF6 => 64 | KeyF7 => 65 | KeyF8 => 66 | KeyF9 => 67 | KeyF10 => 68 | KeyNumlock => 69
  | KeyScrollLock => 70 | KeyKp7 => 71 | KeyKp8 => 72 | KeyKp9 => 73 | KeyKpMinus => 74
  | KeyKp4 => 75 | KeyKp5 => 76 | KeyKp6 => 77 | KeyKpplus => 78 | KeyKp1 => 79 | KeyKp2 => 80
  | KeyKp3 => 81 | KeyKp0 => 82 | KeyKpDot => 83 | Invalid => 84 | KeyZenkakuhankaku => 85
  | Key102nd => 86 | KeyF11 => 87 | KeyF12 => 88 | KeyRo => 89 | KeyKatakana => 90
  | KeyHiragana => 91 | KeyHenkan => 92 | KeyKatakanahiragana => 93 | KeyMuhenkan => 94
  | KeyKpJpComma => 95 | KeyKpEnter => 96 | KeyRightCtrl => 97 | KeyKpslash => 98
  | KeySysrq => 99 | KeyRightalt => 100 | KeyLinefeed => 101 | KeyHome => 102 | KeyUp => 103
  | KeyPageup => 104 | KeyLeft => 105 | KeyRight => 106 | KeyEnd => 107 | KeyDown => 108
  | KeyPagedown => 109 | KeyInsert => 110 | KeyDelete => 111 | KeyMacro => 112 | KeyMute => 113
  | KeyVolumeDown => 114 | KeyVolumeUp => 115 | KeyPower => 116 | KeyKpequal => 117
  | KeyKpplusminus => 118 | KeyPause => 119 | KeyScale => 120 | KeyKpcomma => 121
  | KeyHanguel => 122 | KeyHanja => 123 | KeyYen => 124 | KeyLeftMeta => 125
  | KeyRightmeta => 126 | KeyCompose => 127 | KeyStop => 128 | KeyAgain => 129
  | KeyProps => 130 | KeyUndo => 131 | KeyFront => 132 | KeyCopy => 133 | KeyOpen => 134
  | KeyPaste => 135 | KeyFind => 136 | KeyCut => 137 | KeyHelp => 138 | KeyMenu => 139
  | KeyCalc => 140 | KeySetup => 141 | KeySleep => 142 | KeyWakeup => 143 | KeyFile => 144
  | KeySendfile => 145 | KeyDeletefile => 146 | KeyXfer => 147 | KeyProg1 => 148
  | KeyProg2 => 149 | KeyWww => 150 | KeyMsdos => 151 | KeyCoffee => 152
  | KeyRotateDisplay => 153 | KeyCyclewindows => 154 | KeyMail => 155 | KeyBookmarks => 156
  | KeyComputer => 157 | KeyBack => 158 | KeyForward => 159 | KeyClosecd => 160
  | KeyEjectcd => 161 | KeyEjectclosecd => 162 | KeyNextsong => 163 | KeyPlaypause => 164
  | KeyPrevioussong => 165 | KeyStopcd => 166 | KeyRecord => 167 | KeyRewind => 168
  | KeyPhone => 169 | KeyIso => 170 | KeyConfig => 171 | KeyHomepage => 172 | KeyRefresh => 173
  | KeyExit => 174 | KeyMove => 175 | KeyEdit => 176 | KeyScrollup => 177
  | KeyScrolldown => 178 | KeyKpleftparen => 179 | KeyKprightparen => 180 | KeyNew => 181
  | KeyRedo => 182 | KeyF13 => 183 | KeyF14 => 184 | KeyF15 => 185 | KeyF16 => 186
  | KeyF17 => 187 | KeyF18 => 188 | KeyF19 => 189 | KeyF20 => 190 | KeyF21 => 191
  | KeyF22 => 192 | KeyF23 => 193 | KeyF24 => 194 | Invalid1 => 195 | Invalid2 => 196
  | Invalid3 => 197 | Invalid4 => 198 | Invalid5 => 199 | KeyPlaycd => 200 | KeyPausecd => 201
  | KeyProg3 => 202 | KeyProg4 => 203 | KeyAllApplications => 204 | KeySuspend => 205
  | KeyClose => 206 | KeyPlay => 207 | KeyFastforward => 208 | KeyBassboost => 209
  | KeyPrint => 210 | KeyHp => 211 | KeyCamera => 212 | KeySound => 213 | KeyQuestion => 214
  | KeyEmail => 215 | KeyChat => 216 | KeySearch => 217 | KeyConnect => 218 | KeyFinance => 219
  | KeySport => 220 | KeyShop => 221 | KeyAlterase => 222 | KeyCancel => 223
  | KeyBrightnessdown => 224 | KeyBrightnessup => 225 | KeyMedia => 226
  | KeySwitchvideomode => 227 | KeyKbdillumtoggle => 228 | KeyKbdillumdown => 229
  | KeyKbdillumup => 230 | KeySend => 231 | KeyReply => 232 | KeyForwardmail => 233
  | KeySave => 234 | KeyDocuments => 235 | KeyBattery => 236 | KeyBluetooth => 237
  | KeyWlan => 238 | KeyUwb => 239 | KeyUnknown => 240 | KeyVideoNext => 241
  | KeyVideoPrev => 242 | KeyBrightnessCycle => 243 | KeyBrightnessAuto => 244
  | KeyDisplayOff => 245 | KeyWwan => 246 | KeyRfkill => 247 | KeyMicmute => 248
  | KeyCount => 249
  end.

Definition all : list Linux :=
  [KeyReserved; KeyEsc; Key1; Key2; Key3; Key4; Key5; Key6; Key7; Key8; Key9; Key0; KeyMinus;
  KeyEqual; KeyBackspace; KeyTab; KeyQ; KeyW; KeyE; KeyR; KeyT; KeyY; KeyU; KeyI; KeyO; KeyP;
  KeyLeftbrace; KeyRightbrace; KeyEnter; KeyLeftCtrl; KeyA; KeyS; KeyD; KeyF; KeyG; KeyH; KeyJ;
  KeyK; KeyL; KeySemicolon; KeyApostrophe; KeyGrave; KeyLeftShift; KeyBackslash; KeyZ; KeyX;
  KeyC; KeyV; KeyB; KeyN; KeyM; KeyComma; KeyDot; KeySlash; KeyRightShift; KeyKpAsterisk;
  KeyLeftAlt; KeySpace; KeyCapsLock; KeyF1; KeyF2; KeyF3; KeyF4; KeyF5; KeyF6; KeyF7; KeyF8;
  KeyF9; KeyF10; KeyNumlock; KeyScrollLock; KeyKp7; KeyKp8; KeyKp9; KeyKpMinus; KeyKp4; KeyKp5;
  KeyKp6; KeyKpplus; KeyKp1; KeyKp2; KeyKp3; KeyKp0; KeyKpDot; Invalid; KeyZenkakuhankaku;
  Key102nd; KeyF11; KeyF12; KeyRo; KeyKatakana; KeyHiragana; KeyHenkan; KeyKatakanahiragana;
  KeyMuhenkan; KeyKpJpComma; KeyKpEnter; KeyRightCtrl; KeyKpslash; KeySysrq; KeyRightalt;
  KeyLinefeed; KeyHome; KeyUp; KeyPageup; KeyLeft; KeyRight; KeyEnd; KeyDown; KeyPagedown;
  KeyInsert; KeyDelete; KeyMacro; KeyMute; KeyVolumeDown; KeyVolumeUp; KeyPower; KeyKpequal;
  KeyKpplusminus; KeyPause; KeyScale; KeyKpcomma; KeyHanguel; KeyHanja; KeyYen; KeyLeftMeta;
  KeyRightmeta; KeyCompose; KeyStop; KeyAgain; KeyProps; KeyUndo; KeyFront; KeyCopy; KeyOpen;
  KeyPaste; KeyFind; KeyCut; KeyHelp; KeyMenu; KeyCalc; KeySetup; KeySleep; KeyWakeup; KeyFile;
  KeySendfile; KeyDeletefile; KeyXfer; KeyProg1; KeyProg2; KeyWww; KeyMsdos; KeyCoffee;
  KeyRotateDisplay; KeyCyclewindows; KeyMail; KeyBookmarks; KeyComputer; KeyBack; KeyForward;
  KeyClosecd; KeyEjectcd; KeyEjectclosecd; KeyNextsong; KeyPlaypause; KeyPrevioussong;
  KeyStopcd; KeyRecord; KeyRewind; KeyPhone; KeyIso; KeyConfig; KeyHomepage; KeyRefresh;
  KeyExit; KeyMove; KeyEdit; KeyScrollup; KeyScrolldown; KeyKpleftparen; KeyKprightparen;
  KeyNew; KeyRedo; KeyF13; KeyF14; KeyF15; KeyF16; KeyF17; KeyF18; KeyF19; KeyF20; KeyF21;
  KeyF22; KeyF23; KeyF24; Invalid1; Invalid2; Invalid3; Invalid4; Invalid5; KeyPlaycd;
  KeyPausecd; KeyProg3; KeyProg4; KeyAllApplications; KeySuspend; KeyClose; KeyPlay;
  KeyFastforward; KeyBassboost; KeyPrint; KeyHp; KeyCamera; KeySound; KeyQuestion; KeyEmail;
  KeyChat; KeySearch; KeyConnect; KeyFinance; KeySport; KeyShop; KeyAlterase; KeyCancel;
  KeyBrightnessdown; KeyBrightnessup; KeyMedia; KeySwitchvideomode; KeyKbdillumtoggle;
  KeyKbdillumdown; KeyKbdillumup; KeySend; KeyReply; KeyForwardmail; KeySave; KeyDocuments;
  KeyBattery; KeyBluetooth; KeyWlan; KeyUwb; KeyUnknown; KeyVideoNext; KeyVideoPrev;
  KeyBrightnessCycle; KeyBrightnessAuto; KeyDisplayOff; KeyWwan; KeyRfkill; KeyMicmute;
  KeyCount].

(** The derived [TryFromPrimitive]. *)
Definition try_from_u32 (z : Z) : option Linux := find (λ k, to_u32 k =? z)%Z all.

Lemma try_from_to k : try_from_u32 (to_u32 k) = Some k.
Proof. by destruct k. Qed.

Lemma to_u32_inj k k' : to_u32 k = to_u32 k' → k = k'.
Proof. intros E. pose proof (try_from_to k) as H. rewrite E, try_from_to in H. congruence. Qed.

#[global] Instance Linux_eq_dec : EqDecision Linux.
Proof.
  refine (λ k k', cast_if (decide (to_u32 k = to_u32 k'))); [by apply to_u32_inj|congruence].
Defined.
#[global] Instance Linux_countable : Countable Linux.
Proof. exact (inj_countable to_u32 try_from_u32 try_from_to). Defined.

Lemma try_from_Some z k : try_from_u32 z = Some k ↔ z = to_u32 k.
Proof.
  split; [|intros ->; apply try_from_to]. unfold try_from_u32. intros H.
  apply find_Some in H as (_ & _ & H & _). apply Z.eqb_eq in H. done.
Qed.

Lemma elem_of_all k : k ∈ all.
Proof.
  pose proof (try_from_to k) as H. unfold try_from_u32 in H.
  apply find_Some in H as (i & Hi & _). by eapply list_elem_of_lookup_2.
Qed.
End Linux.

(** [TryFrom<Linux> for Windows] and [TryFrom<Windows> for Linux]. *)
Definition windows_of_linux (k : Linux.Linux) : option Windows.Windows :=
  match k with
  | Linux.KeyReserved => None | Linux.KeyEsc => Some Windows.KeyEsc
  | Linux.Key1 => Some Windows.Key1 | Linux.Key2 => Some Windows.Key2
  | Linux.Key3 => Some Windows.Key3 | Linux.Key4 => Some Windows.Key4
  | Linux.Key5 => Some Windows.Key5 | Linux.Key6 => Some Windows.Key6
  | Linux.Key7 => Some Windows.Key7 | Linux.Key8 => Some Windows.Key8
  | Linux.Key9 => Some Windows.Key9 | Linux.Key0 => Some Windows.Key0
  | Linux.KeyMinus => Some Windows.KeyMinus | Linux.KeyEqual => Some Windows.KeyEqual
  | Linux.KeyBackspace => Some Windows.KeyDelete | Linux.KeyTab => Some Windows.KeyTab
  | Linux.KeyQ => Some Windows.KeyQ | Linux.KeyW => Some Windows.KeyW
  | Linux.KeyE => Some Windows.KeyE | Linux.KeyR => Some Windows.KeyR
  | Linux.KeyT => Some Windows.KeyT | Linux.KeyY => Some Windows.KeyY
  | Linux.KeyU => Some Windows.KeyU | Linux.KeyI => Some Windows.KeyI
  | Linux.KeyO => Some Windows.KeyO | Linux.KeyP => Some Windows.KeyP
  | Linux.KeyLeftbrace => Some Windows.KeyLeftBrace
  | Linux.KeyRightbrace => Some Windows.KeyRightBrace | Linux.KeyEnter => Some Windows.KeyEnter
  | Linux.KeyLeftCtrl => Some Windows.KeyLeftCtrl | Linux.KeyA => Some Windows.KeyA
  | Linux.KeyS => Some Windows.KeyS | Linux.KeyD => Some Windows.KeyD
  | Linux.KeyF => Some Windows.KeyF | Linux.KeyG => Some Windows.KeyG
  | Linux.KeyH => Some Windows.KeyH | Linux.KeyJ => Some Windows.KeyJ
  | Linux.KeyK => Some Windows.KeyK | Linux.KeyL => Some Windows.KeyL
  | Linux.KeySemicolon => Some Windows.KeySemiColon
  | Linux.KeyApostrophe => Some Windows.KeyApostrophe | Linux.KeyGrave => Some Windows.KeyGrave
  | Linux.KeyLeftShift => Some Windows.KeyLeftShift
  | Linux.KeyBackslash => Some Windows.KeyBackslash | Linux.KeyZ => Some Windows.KeyZ
  | Linux.KeyX => Some Windows.KeyX | Linux.KeyC => Some Windows.KeyC
  | Linux.KeyV => Some Windows.KeyV | Linux.KeyB => Some Windows.KeyB
  | Linux.KeyN => Some Windows.KeyN | Linux.KeyM => Some Windows.KeyM
  | Linux.KeyComma => Some Windows.KeyComma | Linux.KeyDot => Some Windows.KeyDot
  | Linux.KeySlash => Some Windows.KeySlash | Linux.KeyRightShift => Some Windows.KeyRightShift
  | Linux.KeyKpAsterisk => Some Windows.KeypadStar
  | Linux.KeyLeftAlt => Some Windows.KeyLeftAlt | Linux.KeySpace => Some Windows.KeySpace
  | Linux.KeyCapsLock => Some Windows.KeyCapsLock | Linux.KeyF1 => Some Windows.KeyF1
  | Linux.KeyF2 => Some Windows.KeyF2 | Linux.KeyF3 => Some Windows.KeyF3
  | Linux.KeyF4 => Some Windows.KeyF4 | Linux.KeyF5 => Some Windows.KeyF5
  | Linux.KeyF6 => Some Windows.KeyF6 | Linux.KeyF7 => Some Windows.KeyF7
  | Linux.KeyF8 => Some Windows.KeyF8 | Linux.KeyF9 => Some Windows.KeyF9
  | Linux.KeyF10 => Some Windows.KeyF10 | Linux.KeyNumlock => Some Windows.KeypadNumLock
  | Linux.KeyScrollLock => Some Windows.KeyScrollLock
  | Linux.KeyKp7 => Some Windows.Keypad7Home | Linux.KeyKp8 => Some Windows.Keypad8UpArrow
  | Linux.KeyKp9 => Some Windows.Keypad9PageUp | Linux.KeyKpMinus => Some Windows.KeypadDash
  | Linux.KeyKp4 => Some Windows.Keypad4LeftArrow | Linux.KeyKp5 => Some Windows.Keypad5
  | Linux.KeyKp6 => Some Windows.Keypad6RightArrow | Linux.KeyKpplus => Some Windows.KeypadPlus
  | Linux.KeyKp1 => Some Windows.Keypad1End | Linux.KeyKp2 => Some Windows.Keypad2DownArrow
  | Linux.KeyKp3 => Some Windows.Keypad3PageDn | Linux.KeyKp0 => Some Windows.Keypad0Insert
  | Linux.KeyKpDot => Some Windows.KeypadDot | Linux.KeyZenkakuhankaku => Some Windows.KeyF24
  | Linux.Key102nd => Some Windows.KeyNonUSSlashBar | Linux.KeyF11 => Some Windows.KeyF11
  | Linux.KeyF12 => Some Windows.KeyF12 | Linux.KeyRo => Some Windows.KeyInternational1
  | Linux.KeyKatakana => Some Windows.KeyLANG3 | Linux.KeyHiragana => Some Windows.KeyLANG4
  | Linux.KeyHenkan => Some Windows.KeyInternational4
  | Linux.KeyKatakanahiragana => Some Windows.KeyInternational2
  | Linux.KeyMuhenkan => Some Windows.KeyInternational5
  | Linux.KeyKpJpComma => Some Windows.KeypadComma
  | Linux.KeyKpEnter => Some Windows.KeypadEnter
  | Linux.KeyRightCtrl => Some Windows.KeyRightCtrl
  | Linux.KeyKpslash => Some Windows.KeypadSlash
  | Linux.KeySysrq => Some Windows.KeyPrintScreen
  | Linux.KeyRightalt => Some Windows.KeyRightAlt | Linux.KeyLinefeed => Some Windows.KeyEnter
  | Linux.KeyHome => Some Windows.KeyHome | Linux.KeyUp => Some Windows.KeyUp
  | Linux.KeyPageup => Some Windows.KeyPageUp | Linux.KeyLeft => Some Windows.KeyLeft
  | Linux.KeyRight => Some Windows.KeyRight | Linux.KeyEnd => Some Windows.KeyEnd
  | Linux.KeyDown => Some Windows.KeyDown | Linux.KeyPagedown => Some Windows.KeyPageDown
  | Linux.KeyInsert => Some Windows.KeyInsert
  | Linux.KeyDelete => Some Windows.KeyDeleteForward | Linux.KeyMacro => None
  | Linux.KeyMute => Some Windows.KeyMute | Linux.KeyVolumeDown => Some Windows.KeyVolumeDown
  | Linux.KeyVolumeUp => Some Windows.KeyVolumeUp | Linux.KeyPower => Some Windows.Shutdown
  | Linux.KeyKpequal => Some Windows.KeypadEquals
  | Linux.KeyKpplusminus => Some Windows.KeypadPlus | Linux.KeyPause => Some Windows.KeyPause
  | Linux.KeyScale => None | Linux.KeyKpcomma => Some Windows.KeypadComma
  | Linux.KeyHanguel => Some Windows.KeyLANG1 | Linux.KeyHanja => Some Windows.KeyLANG2
  | Linux.KeyYen => Some Windows.KeyInternational3
  | Linux.KeyLeftMeta => Some Windows.KeyLeftGUI
  | Linux.KeyRightmeta => Some Windows.KeyRightGUI
  | Linux.KeyCompose => Some Windows.KeyApplication | Linux.KeyStop => Some Windows.ACStop
  | Linux.KeyAgain => None | Linux.KeyProps => None | Linux.KeyUndo => None
  | Linux.KeyFront => None | Linux.KeyCopy => None | Linux.KeyOpen => None
  | Linux.KeyPaste => None | Linux.KeyFind => Some Windows.ACSearch | Linux.KeyCut => None
  | Linux.KeyHelp => Some Windows.KeyF1 | Linux.KeyMenu => Some Windows.KeyApplication
  | Linux.KeyCalc => Some Windows.ALCalculator | Linux.KeySetup => None
  | Linux.KeySleep => Some Windows.SystemSleep | Linux.KeyWakeup => Some Windows.SystemWakeUp
  | Linux.KeyFile => Some Windows.ALLocalMachineBrowser | Linux.KeySendfile => None
  | Linux.KeyDeletefile => None | Linux.KeyXfer => None | Linux.KeyProg1 => None
  | Linux.KeyProg2 => None | Linux.KeyWww => Some Windows.ACSearch | Linux.KeyMsdos => None
  | Linux.KeyCoffee => None | Linux.KeyRotateDisplay => None | Linux.KeyCyclewindows => None
  | Linux.KeyMail => Some Windows.ALEmailReader
  | Linux.KeyBookmarks => Some Windows.ACBookmarks | Linux.KeyComputer => Some Windows.ACHome
  | Linux.KeyBack => Some Windows.ACBack | Linux.KeyForward => Some Windows.ACForward
  | Linux.KeyClosecd => None | Linux.KeyEjectcd => None | Linux.KeyEjectclosecd => None
  | Linux.KeyNextsong => Some Windows.KeyScanNextTrack
  | Linux.KeyPlaypause => Some Windows.KeyPlayPause
  | Linux.KeyPrevioussong => Some Windows.KeyScanPreviousTrack
  | Linux.KeyStopcd => Some Windows.KeyStop | Linux.KeyRecord => None | Linux.KeyRewind => None
  | Linux.KeyPhone => None | Linux.KeyIso => None | Linux.KeyConfig => None
  | Linux.KeyHomepage => Some Windows.ACHome | Linux.KeyRefresh => Some Windows.ACRefresh
  | Linux.KeyExit => None | Linux.KeyMove => None | Linux.KeyEdit => None
  | Linux.KeyScrollup => None | Linux.KeyScrolldown => None | Linux.KeyKpleftparen => None
  | Linux.KeyKprightparen => None | Linux.KeyNew => None | Linux.KeyRedo => None
  | Linux.KeyF13 => Some Windows.KeyF13 | Linux.KeyF14 => Some Windows.KeyF14
  | Linux.KeyF15 => Some Windows.KeyF15 | Linux.KeyF16 => Some Windows.KeyF16
  | Linux.KeyF17 => Some Windows.KeyF17 | Linux.KeyF18 => Some Windows.KeyF18
  | Linux.KeyF19 => Some Windows.KeyF19 | Linux.KeyF20 => Some Windows.KeyF20
  | Linux.KeyF21 => Some Windows.KeyF21 | Linux.KeyF22 => Some Windows.KeyF22
  | Linux.KeyF23 => Some Windows.KeyF23 | Linux.KeyF24 => Some Windows.KeyF24
  | Linux.KeyPlaycd => None | Linux.KeyPausecd => None | Linux.KeyProg3 => None
  | Linux.KeyProg4 => None | Linux.KeyAllApplications => None | Linux.KeySuspend => None
  | Linux.KeyClose => None | Linux.KeyPlay => None | Linux.KeyFastforward => None
  | Linux.KeyBassboost => None | Linux.KeyPrint => None | Linux.KeyHp => None
  | Linux.KeyCamera => None | Linux.KeySound => None | Linux.KeyQuestion => None
  | Linux.KeyEmail => None | Linux.KeyChat => None | Linux.KeySearch => None
  | Linux.KeyConnect => None | Linux.KeyFinance => None | Linux.KeySport => None
  | Linux.KeyShop => None | Linux.KeyAlterase => None | Linux.KeyCancel => None
  | Linux.KeyBrightnessdown => None | Linux.KeyBrightnessup => None | Linux.KeyMedia => None
  | Linux.KeySwitchvideomode => None | Linux.KeyKbdillumtoggle => None
  | Linux.KeyKbdillumdown => None | Linux.KeyKbdillumup => None | Linux.KeySend => None
  | Linux.KeyReply => None | Linux.KeyForwardmail => None | Linux.KeySave => None
  | Linux.KeyDocuments => None | Linux.KeyBattery => None | Linux.KeyBluetooth => None
  | Linux.KeyWlan => None | Linux.KeyUwb => None | Linux.KeyUnknown => None
  | Linux.KeyVideoNext => None | Linux.KeyVideoPrev => None | Linux.KeyBrightnessCycle => None
  | Linux.KeyBrightnessAuto => None | Linux.KeyDisplayOff => None | Linux.KeyWwan => None
  | Linux.KeyRfkill => None | Linux.KeyMicmute => None | Linux.KeyCount => None
  | Linux.Invalid => None | Linux.Invalid1 => None | Linux.Invalid2 => None
  | Linux.Invalid3 => None | Linux.Invalid4 => None | Linux.Invalid5 => None
  end.

Definition linux_of_windows (k : Windows.Windows) : option Linux.Linux :=
  match k with
  | Windows.Shutdown => Some Linux.KeyPower | Windows.SystemSleep => Some Linux.KeySleep
  | Windows.SystemWakeUp => Some Linux.KeyWakeup | Windows.ErrorRollOver => Some Linux.KeyRo
  | Windows.KeyA => Some Linux.KeyA | Windows.KeyB => Some Linux.KeyB
  | Windows.KeyC => Some Linux.KeyC | Windows.KeyD => Some Linux.KeyD
  | Windows.KeyE => Some Linux.KeyE | Windows.KeyF => Some Linux.KeyF
  | Windows.KeyG => Some Linux.KeyG | Windows.KeyH => Some Linux.KeyH
  | Windows.KeyI => Some Linux.KeyI | Windows.KeyJ => Some Linux.KeyJ
  | Windows.KeyK => Some Linux.KeyK | Windows.KeyL => Some Linux.KeyL
  | Windows.KeyM => Some Linux.KeyM | Windows.KeyN => Some Linux.KeyN
  | Windows.KeyO => Some Linux.KeyO | Windows.KeyP => Some Linux.KeyP
  | Windows.KeyQ => Some Linux.KeyQ | Windows.KeyR => Some Linux.KeyR
  | Windows.KeyS => Some Linux.KeyS | Windows.KeyT => Some Linux.KeyT
  | Windows.KeyU => Some Linux.KeyU | Windows.KeyV => Some Linux.KeyV
  | Windows.KeyW => Some Linux.KeyW | Windows.KeyX => Some Linux.KeyX
  | Windows.KeyY => Some Linux.KeyY | Windows.KeyZ => Some Linux.KeyZ
  | Windows.Key1 => Some Linux.Key1 | Windows.Key2 => Some Linux.Key2
  | Windows.Key3 => Some Linux.Key3 | Windows.Key4 => Some Linux.Key4
  | Windows.Key5 => Some Linux.Key5 | Windows.Key6 => Some Linux.Key6
  | Windows.Key7 => Some Linux.Key7 | Windows.Key8 => Some Linux.Key8
  | Windows.Key9 => Some Linux.Key9 | Windows.Key0 => Some Linux.Key0
  | Windows.KeyEnter => Some Linux.KeyEnter | Windows.KeyEsc => Some Linux.KeyEsc
  | Windows.KeyDelete => Some Linux.KeyBackspace | Windows.KeyTab => Some Linux.KeyTab
  | Windows.KeySpace => Some Linux.KeySpace | Windows.KeyMinus => Some Linux.KeyMinus
  | Windows.KeyEqual => Some Linux.KeyEqual | Windows.KeyLeftBrace => Some Linux.KeyLeftbrace
  | Windows.KeyRightBrace => Some Linux.KeyRightbrace
  | Windows.KeyBackslash => Some Linux.KeyBackslash
  | Windows.KeySemiColon => Some Linux.KeySemicolon
  | Windows.KeyApostrophe => Some Linux.KeyApostrophe | Windows.KeyGrave => Some Linux.KeyGrave
  | Windows.KeyComma => Some Linux.KeyComma | Windows.KeyDot => Some Linux.KeyDot
  | Windows.KeySlash => Some Linux.KeySlash | Windows.KeyCapsLock => Some Linux.KeyCapsLock
  | Windows.KeyF1 => Some Linux.KeyF1 | Windows.KeyF2 => Some Linux.KeyF2
  | Windows.KeyF3 => Some Linux.KeyF3 | Windows.KeyF4 => Some Linux.KeyF4
  | Windows.KeyF5 => Some Linux.KeyF5 | Windows.KeyF6 => Some Linux.KeyF6
  | Windows.KeyF7 => Some Linux.KeyF7 | Windows.KeyF8 => Some Linux.KeyF8
  | Windows.KeyF9 => Some Linux.KeyF9 | Windows.KeyF10 => Some Linux.KeyF10
  | Windows.KeyF11 => Some Linux.KeyF11 | Windows.KeyF12 => Some Linux.KeyF12
  | Windows.KeyPrintScreen => Some Linux.KeySysrq
  | Windows.KeyScrollLock => Some Linux.KeyScrollLock | Windows.KeyPause => Some Linux.KeyPause
  | Windows.KeyInsert => Some Linux.KeyInsert | Windows.KeyHome => Some Linux.KeyHome
  | Windows.KeyPageUp => Some Linux.KeyPageup
  | Windows.KeyDeleteForward => Some Linux.KeyDelete | Windows.KeyEnd => Some Linux.KeyEnd
  | Windows.KeyPageDown => Some Linux.KeyPagedown | Windows.KeyRight => Some Linux.KeyRight
  | Windows.KeyLeft => Some Linux.KeyLeft | Windows.KeyDown => Some Linux.KeyDown
  | Windows.KeyUp => Some Linux.KeyUp | Windows.KeypadNumLock => Some Linux.KeyNumlock
  | Windows.KeypadSlash => Some Linux.KeyKpslash
  | Windows.KeypadStar => Some Linux.KeyKpAsterisk
  | Windows.KeypadDash => Some Linux.KeyKpMinus | Windows.KeypadPlus => Some Linux.KeyKpplus
  | Windows.KeypadEnter => Some Linux.KeyKpEnter | Windows.Keypad1End => Some Linux.KeyKp1
  | Windows.Keypad2DownArrow => Some Linux.KeyKp2 | Windows.Keypad3PageDn => Some Linux.KeyKp3
  | Windows.Keypad4LeftArrow => Some Linux.KeyKp4 | Windows.Keypad5 => Some Linux.KeyKp5
  | Windows.Keypad6RightArrow => Some Linux.KeyKp6 | Windows.Keypad7Home => Some Linux.KeyKp7
  | Windows.Keypad8UpArrow => Some Linux.KeyKp8 | Windows.Keypad9PageUp => Some Linux.KeyKp9
  | Windows.Keypad0Insert => Some Linux.KeyKp0 | Windows.KeypadDot => Some Linux.KeyKpDot
  | Windows.KeyNonUSSlashBar => Some Linux.Key102nd
  | Windows.KeyApplication => Some Linux.KeyMenu
  | Windows.KeypadEquals => Some Linux.KeyKpequal | Windows.KeyF13 => Some Linux.KeyF13
  | Windows.KeyF14 => Some Linux.KeyF14 | Windows.KeyF15 => Some Linux.KeyF15
  | Windows.KeyF16 => Some Linux.KeyF16 | Windows.KeyF17 => Some Linux.KeyF17
  | Windows.KeyF18 => Some Linux.KeyF18 | Windows.KeyF19 => Some Linux.KeyF19
  | Windows.KeyF20 => Some Linux.KeyF20 | Windows.KeyF21 => Some Linux.KeyF21
  | Windows.KeyF22 => Some Linux.KeyF22 | Windows.KeyF23 => Some Linux.KeyF23
  | Windows.KeyF24 => Some Linux.KeyF24 | Windows.KeypadComma => Some Linux.KeyKpcomma
  | Windows.KeyInternational1 => Some Linux.KeyRo
  | Windows.KeyInternational2 => Some Linux.KeyKatakanahiragana
  | Windows.KeyInternational3 => Some Linux.KeyYen
  | Windows.KeyInternational4 => Some Linux.KeyHenkan
  | Windows.KeyInternational5 => Some Linux.KeyMuhenkan
  | Windows.KeyLANG1 => Some Linux.KeyHanguel | Windows.KeyLANG2 => Some Linux.KeyHanja
  | Windows.KeyLANG3 => Some Linux.KeyKatakana | Windows.KeyLANG4 => Some Linux.KeyHiragana
  | Windows.KeyLeftCtrl => Some Linux.KeyLeftCtrl
  | Windows.KeyLeftShift => Some Linux.KeyLeftShift
  | Windows.KeyLeftAlt => Some Linux.KeyLeftAlt | Windows.KeyLeftGUI => Some Linux.KeyLeftMeta
  | Windows.KeyRightCtrl => Some Linux.KeyRightCtrl
  | Windows.KeyRightShift => Some Linux.KeyRightShift
  | Windows.KeyFakeRightShift => Some Linux.KeyRightShift
  | Windows.KeyRightAlt => Some Linux.KeyRightalt
  | Windows.KeyRightGUI => Some Linux.KeyRightmeta
  | Windows.KeyScanNextTrack => Some Linux.KeyNextsong
  | Windows.KeyScanPreviousTrack => Some Linux.KeyPrevioussong
  | Windows.KeyStop => Some Linux.KeyStopcd | Windows.KeyPlayPause => Some Linux.KeyPlaypause
  | Windows.KeyMute => Some Linux.KeyMute | Windows.KeyVolumeUp => Some Linux.KeyVolumeUp
  | Windows.KeyVolumeDown => Some Linux.KeyVolumeDown
  | Windows.ALConsumerControlConfiguration => None
  | Windows.ALEmailReader => Some Linux.KeyMail | Windows.ALCalculator => Some Linux.KeyCalc
  | Windows.ALLocalMachineBrowser => Some Linux.KeyFile | Windows.ACSearch => Some Linux.KeyWww
  | Windows.ACHome => Some Linux.KeyHomepage | Windows.ACBack => Some Linux.KeyBack
  | Windows.ACForward => Some Linux.KeyForward | Windows.ACStop => Some Linux.KeyStop
  | Windows.ACRefresh => Some Linux.KeyRefresh | Windows.ACBookmarks => Some Linux.KeyBookmarks
  end.

(** * Properties *)

(** The keys that share a code of the other side with another key. *)
Definition linux_aliases : list Linux.Linux :=
  [Linux.KeyZenkakuhankaku; Linux.KeyKpJpComma; Linux.KeyLinefeed; Linux.KeyKpplusminus;
  Linux.KeyCompose; Linux.KeyFind; Linux.KeyHelp; Linux.KeyComputer].
Definition windows_aliases : list Windows.Windows :=
  [Windows.ErrorRollOver; Windows.KeyFakeRightShift].

#[local] Instance match_option_dec {A} (o : option A) (P : A → Prop) `{∀ a, Decision (P a)} :
  Decision (match o with Some a => P a | None => True end).
Proof. destruct o; apply _. Defined.

(** Check a decidable statement on every key. *)
Lemma linux_forall (P : Linux.Linux → Prop) `{∀ k, Decision (P k)} :
  forallb (λ k, bool_decide (P k)) Linux.all = true → ∀ k, P k.
Proof.
  intros Hall k. rewrite forallb_forall in Hall.
  apply (bool_decide_eq_true (P k)), Hall, list_elem_of_In, Linux.elem_of_all.
Qed.
Lemma windows_forall (P : Windows.Windows → Prop) `{∀ k, Decision (P k)} :
  forallb (λ k, bool_decide (P k)) Windows.all = true → ∀ k, P k.
Proof.
  intros Hall k. rewrite forallb_forall in Hall.
  apply (bool_decide_eq_true (P k)), Hall, list_elem_of_In, Windows.win_elem_of_all.
Qed.

(** A key that can be translated to the other system comes back as the
    same key, unless it is one of the ten keys that share a code: then, and
    only then, it comes back as another key. *)
Theorem scancode_roundtrip :
  (∀ l w, windows_of_linux l = Some w →
     (linux_of_windows w = Some l ↔ l ∉ linux_aliases)) ∧
  (∀ w l, linux_of_windows w = Some l →
     (windows_of_linux l = Some w ↔ w ∉ windows_aliases)).
Proof.
  split.
  - assert (∀ l, match windows_of_linux l with
                 | Some w => linux_of_windows w = Some l ↔ l ∉ linux_aliases
                 | None => True
                 end) as Hall.
    { apply (linux_forall _).
      by vm_compute. }
    intros l w E. specialize (Hall l). by rewrite E in Hall.
  - assert (∀ w, match linux_of_windows w with
                 | Some l => windows_of_linux l = Some w ↔ w ∉ windows_aliases
                 | None => True
                 end) as Hall.
    { apply (windows_forall _).
      by vm_compute. }
    intros w l E. specialize (Hall w). by rewrite E in Hall.
Qed.

Lemma scancode_roundtrip_witness :
  linux_of_windows Windows.KeyA = Some Linux.KeyA ∧
  linux_of_windows Windows.ACSearch ≠ Some Linux.KeyFind.
Proof.
  split.
  - apply (proj1 scancode_roundtrip Linux.KeyA Windows.KeyA eq_refl).
    apply (bool_decide_eq_true_1 (Linux.KeyA ∉ linux_aliases)). by vm_compute.
  - intros E. apply (proj1 scancode_roundtrip Linux.KeyFind Windows.ACSearch eq_refl) in E.
    apply E. apply (bool_decide_eq_true_1 (Linux.KeyFind ∈ linux_aliases)). by vm_compute.
Defined.
