(* ===== verification/InputCapture.v ===== *)
(** The capture multiplexer (input-capture/src/lib.rs): several subscribers
    share one barrier of the operating-system backend, every backend event is
    fanned out to them, and the keys that are down are tracked.

    The backend, the [trait Capture] of that file, is the class [Capture]:
    its state and what its calls answer are parameters. *)

From S2P Require Import Prelude InputEvent Geometry Scancode.

(** * Data *)

Abbreviation CaptureHandle := N.

Inductive CaptureEvent : Type :=
| Begin
| BeginPending
| CancelPending
| Input (e : Event).
#[export] Instance CaptureEvent_eq_dec : EqDecision CaptureEvent.
Proof. solve_decision. Defined.

(** The platform-specific variants of [CaptureError] are one constructor. *)
Inductive CaptureError : Type := ActivationClosed | EndOfStream | Io | Platform (msg : string).

Record MonitorInfo : Type := mkMonitor {
  mon_id : MonitorId;
  mon_name : string;
  mon_position : Z * Z;
  mon_size : Z * Z;
  mon_primary : bool;
  mon_scale : double
}.

(** [core::task::Poll]. *)
Inductive poll (A : Type) : Type := Ready (a : A) | Pending.
Arguments Ready {A} a.
Arguments Pending {A}.

(** [trait Capture]: a stream of events at barrier keys, and the calls. *)
Class Capture (B : Type) := {
  bk_poll : B → poll (option (outcome CaptureError (BarrierKey * CaptureEvent))) * B;
  bk_create : BarrierKey → ST B CaptureError unit;
  bk_destroy : BarrierKey → ST B CaptureError unit;
  bk_release : ST B CaptureError unit;
  bk_terminate : ST B CaptureError unit;
  bk_start_capture : BarrierKey → ST B CaptureError unit;
  bk_cancel_pending : BarrierKey → ST B CaptureError unit;
  bk_monitors : B → list MonitorInfo
}.

Record InputCapture (B : Type) : Type := mkIC {
  capture : B;
  pressed_keys : gset Linux.Linux;
  position_map : gmap BarrierKey (list CaptureHandle);
  id_map : gmap CaptureHandle BarrierKey;
  pending : list (CaptureHandle * CaptureEvent)
}.
Arguments mkIC {B}.
Arguments capture {B}.
Arguments pressed_keys {B}.
Arguments position_map {B}.
Arguments id_map {B}.
Arguments pending {B}.

(** * Operations *)

Section operations.
Context {B : Type} `{Capture B}.
Abbreviation M := (ST (InputCapture B) CaptureError).

Definition set_capture (b : B) (c : InputCapture B) : InputCapture B :=
  mkIC b (pressed_keys c) (position_map c) (id_map c) (pending c).
Definition set_pressed (k : gset Linux.Linux) (c : InputCapture B) : InputCapture B :=
  mkIC (capture c) k (position_map c) (id_map c) (pending c).
Definition set_positions (p : gmap BarrierKey (list CaptureHandle)) (c : InputCapture B) :=
  mkIC (capture c) (pressed_keys c) p (id_map c) (pending c).
Definition set_ids (i : gmap CaptureHandle BarrierKey) (c : InputCapture B) :=
  mkIC (capture c) (pressed_keys c) (position_map c) i (pending c).
Definition set_pending (p : list (CaptureHandle * CaptureEvent)) (c : InputCapture B) :=
  mkIC (capture c) (pressed_keys c) (position_map c) (id_map c) p.

(** A call on the backend. *)
Definition backend {A} (m : ST B CaptureError A) : M A := λ c,
  let '(r, b) := m (capture c) in (r, set_capture b c).

Definition new (b : B) : InputCapture B := mkIC b ∅ ∅ ∅ [].

Definition create (id : CaptureHandle) (key : BarrierKey) : M unit :=
  ids ← gets id_map;
  if decide (is_Some (ids !! id)) then panic
  else
    modify_st (set_ids (<[id := key]> ids)) ≫= λ _,
    positions ← gets position_map;
    match positions !! key with
    | Some v => modify_st (set_positions (<[key := v ++ [id]]> positions))
    | None =>
        modify_st (set_positions (<[key := [id]]> positions)) ≫= λ _,
        backend (bk_create key)
    end.

Definition destroy (id : CaptureHandle) : M unit :=
  ids ← gets id_map;
  match ids !! id with
  | None => panic
  | Some key =>
      modify_st (set_ids (delete id ids)) ≫= λ _,
      positions ← gets position_map;
      match positions !! key with
      | None => panic
      | Some v =>
          let remaining := filter (λ i, i ≠ id) v in
          if decide (remaining = []) then
            modify_st (set_positions (delete key positions)) ≫= λ _,
            backend (bk_destroy key)
          else modify_st (set_positions (<[key := remaining]> positions))
      end
  end.

Definition release : M unit :=
  modify_st (set_pressed ∅) ≫= λ _, backend bk_release.
Definition start_capture (key : BarrierKey) : M unit := backend (bk_start_capture key).
Definition cancel_pending (key : BarrierKey) : M unit := backend (bk_cancel_pending key).
Definition take_pressed_keys : M (gset Linux.Linux) :=
  keys ← gets pressed_keys; modify_st (set_pressed ∅) ≫= λ _, mret keys.
Definition terminate : M unit := backend bk_terminate.
Definition monitors (c : InputCapture B) : list MonitorInfo := bk_monitors (capture c).
Definition keys_pressed (keys : list Linux.Linux) (c : InputCapture B) : bool :=
  forallb (λ k, bool_decide (k ∈ pressed_keys c)) keys.

Definition update_pressed (key state : Z) (keys : gset Linux.Linux) : gset Linux.Linux :=
  match Linux.try_from_u32 key with
  | Some k => if (state =? 1)%Z then {[k]} ∪ keys else keys ∖ {[k]}
  | None => keys
  end.
Definition update_pressed_keys (key state : Z) (c : InputCapture B) : InputCapture B :=
  set_pressed (update_pressed key state (pressed_keys c)) c.

Definition track (event : CaptureEvent) (c : InputCapture B) : InputCapture B :=
  match event with
  | Input (Keyboard (Key _ key state)) => update_pressed_keys key state c
  | _ => c
  end.

Definition subscribers (key : BarrierKey) (c : InputCapture B) : list CaptureHandle :=
  default [] (position_map c !! key).

(** [poll_next].  An item is the next event for a subscriber or the error of
    the backend; [Ready None] is the end of the stream. *)
Definition poll_next (c : InputCapture B)
    : poll (option (outcome CaptureError (CaptureHandle * CaptureEvent))) * InputCapture B :=
  match pending c with
  | e :: rest => (Ready (Some (Ok e)), set_pending rest c)
  | [] =>
      let '(r, b) := bk_poll (capture c) in
      let c := set_capture b c in
      match r with
      | Pending => (Pending, c)
      | Ready None => (Ready None, c)
      | Ready (Some (Ok (key, event))) =>
          let c := track event c in
          match subscribers key c with
          | [] => (Pending, c)
          | first :: others =>
              (Ready (Some (Ok (first, event))),
               set_pending (pending c ++ ((λ id, (id, event)) <$> others)) c)
          end
      | Ready (Some (Err e)) => (Ready (Some (Err e)), c)
      | Ready (Some Panic) => (Ready (Some Panic), c)
      | Ready (Some Diverge) => (Ready (Some Diverge), c)
      end
  end.
End operations.

(** * The registration invariant

    The two maps are the two directions of one relation, and no barrier is
    kept without a subscriber. *)

Record registered {B} (c : InputCapture B) : Prop := {
  reg_ids : ∀ id key, id_map c !! id = Some key ↔ id ∈ default [] (position_map c !! key);
  reg_nonempty : ∀ key v, position_map c !! key = Some v → v ≠ [];
  reg_nodup : ∀ key v, position_map c !! key = Some v → NoDup v
}.

Section lemmas.
Context {B : Type} `{Capture B}.
Implicit Types (c : InputCapture B) (id : CaptureHandle) (key : BarrierKey).

(** The calls of the backend leave the rest of the state alone. *)
Lemma backend_maps {A} (m : ST B CaptureError A) c :
  id_map (snd (backend m c)) = id_map c ∧ position_map (snd (backend m c)) = position_map c ∧
  pressed_keys (snd (backend m c)) = pressed_keys c ∧ pending (snd (backend m c)) = pending c ∧
  fst (backend m c) = fst (m (capture c)) ∧
  capture (snd (backend m c)) = snd (m (capture c)).
Proof. unfold backend. by destruct (m (capture c)). Qed.

Lemma registered_ext c c' :
  id_map c = id_map c' → position_map c = position_map c' → registered c → registered c'.
Proof. intros E1 E2 [Hi Hn Hd]. split; rewrite <- ?E1, <- ?E2; done. Qed.

Definition create_maps id key c : InputCapture B :=
  set_positions (<[key := default [] (position_map c !! key) ++ [id]]> (position_map c))
    (set_ids (<[id := key]> (id_map c)) c).

Lemma create_new id key c :
  id_map c !! id = None →
  create id key c =
    match position_map c !! key with
    | Some _ => (Ok tt, create_maps id key c)
    | None => backend (bk_create key) (create_maps id key c)
    end.
Proof.
  intros Hid. unfold create, create_maps, mbind, ST_bind, gets, modify_st.
  rewrite decide_False by (rewrite Hid; by intros []). cbn.
  by destruct (position_map c !! key).
Qed.

Lemma create_taken id key c : is_Some (id_map c !! id) → create id key c = (Panic, c).
Proof. intros Hid. unfold create, mbind, ST_bind, gets. by rewrite decide_True. Qed.

Lemma create_maps_registered id key c :
  id_map c !! id = None → registered c → registered (create_maps id key c).
Proof.
  intros Hid [Hi Hn Hd].
  assert (∀ k, id ∉ default [] (position_map c !! k)) as Hout.
  { intros k Hin. apply Hi in Hin. congruence. }
  split; cbn.
  - intros i k. destruct (decide (k = key)) as [->|Hk].
    + rewrite lookup_insert_eq. cbn. rewrite elem_of_app, list_elem_of_singleton.
      destruct (decide (i = id)) as [->|Hne]; [rewrite lookup_insert_eq; tauto|].
      rewrite lookup_insert_ne by done. rewrite Hi. naive_solver.
    + rewrite (lookup_insert_ne _ key k) by done.
      destruct (decide (i = id)) as [->|Hne].
      * rewrite lookup_insert_eq. split; [intros [= ->]; done|]. by intros ?%Hout.
      * by rewrite lookup_insert_ne.
  - intros k v. destruct (decide (k = key)) as [->|Hk].
    + rewrite lookup_insert_eq. intros [= <-]. by destruct (default [] _).
    + rewrite lookup_insert_ne by done. apply Hn.
  - intros k v. destruct (decide (k = key)) as [->|Hk].
    + rewrite lookup_insert_eq. intros [= <-]. apply NoDup_app. split_and!.
      * destruct (position_map c !! key) eqn:E; [by eapply Hd|constructor].
      * intros i Hin ->%list_elem_of_singleton. by apply Hout in Hin.
      * apply NoDup_singleton.
    + rewrite lookup_insert_ne by done. apply Hd.
Qed.

Definition destroy_maps id key c : InputCapture B :=
  let remaining := filter (λ i, i ≠ id) (default [] (position_map c !! key)) in
  set_positions (if decide (remaining = []) then delete key (position_map c)
                 else <[key := remaining]> (position_map c))
    (set_ids (delete id (id_map c)) c).

Lemma destroy_known id key c :
  registered c → id_map c !! id = Some key →
  destroy id c =
    if decide (default [] (position_map c !! key) = [id])
    then backend (bk_destroy key) (destroy_maps id key c)
    else (Ok tt, destroy_maps id key c).
Proof.
  intros [Hi Hn Hd] Hid. unfold destroy, destroy_maps, mbind, ST_bind, gets, modify_st.
  rewrite Hid. cbn. pose proof (proj1 (Hi id key) Hid) as Hin.
  destruct (position_map c !! key) as [v|] eqn:E; cbn in *; [|by apply elem_of_nil in Hin].
  pose proof (Hd _ _ E) as Hv.
  destruct (decide (filter (λ i, i ≠ id) v = [])) as [He|He].
  - rewrite decide_True; [done|].
    assert (∀ i, i ∈ v → i = id) as Hall.
    { intros i Hiv. destruct (decide (i = id)); [done|]. exfalso.
      assert (i ∈ filter (λ i, i ≠ id) v) as Hf by (by apply list_elem_of_filter).
      rewrite He in Hf. by apply elem_of_nil in Hf. }
    destruct v as [|a [|b v]]; [by apply elem_of_nil in Hin| |].
    + f_equal. apply Hall. left.
    + exfalso. apply NoDup_cons in Hv as [Ha _]. apply Ha.
      rewrite (Hall a) by left. rewrite (Hall b) by (right; left). left.
  - rewrite decide_False; [done|]. intros ->. apply He. rewrite filter_cons_False by tauto. done.
Qed.

Lemma destroy_unknown id c : id_map c !! id = None → fst (destroy id c) = Panic.
Proof. intros Hid. unfold destroy, mbind, ST_bind, gets. by rewrite Hid. Qed.

Lemma destroy_maps_registered id key c :
  id_map c !! id = Some key → registered c → registered (destroy_maps id key c).
Proof.
  intros Hid [Hi Hn Hd]. unfold destroy_maps.
  set (v := default [] (position_map c !! key)).
  set (p' := if decide _ then _ else _).
  assert (∀ k, default [] (p' !! k) =
    if decide (k = key) then filter (λ i, i ≠ id) v else default [] (position_map c !! k)) as Hp.
  { intros k. unfold p'. case_decide as He; (destruct (decide (k = key)) as [->|Hk];
      [rewrite ?lookup_delete_eq, ?lookup_insert_eq; done|
       rewrite ?lookup_delete_ne, ?lookup_insert_ne; done]). }
  assert (∀ k w, p' !! k = Some w → w ≠ [] ∧ NoDup w) as Hw.
  { intros k w. unfold p'. case_decide as He; (destruct (decide (k = key)) as [->|Hk];
      [rewrite ?lookup_delete_eq, ?lookup_insert_eq|
       rewrite ?lookup_delete_ne, ?lookup_insert_ne by done; by eauto]); [done|].
    intros [= <-]. split; [done|]. apply NoDup_filter. unfold v.
    destruct (position_map c !! key) eqn:E; [by eapply Hd|constructor]. }
  split; cbn.
  - intros i k. rewrite Hp. destruct (decide (i = id)) as [->|Hne].
    + rewrite lookup_delete_eq. split; [done|]. case_decide as Hk.
      * by intros [? _]%list_elem_of_filter.
      * intros Hin%Hi. congruence.
    + rewrite lookup_delete_ne, Hi by done. case_decide as Hk; [subst|done].
      rewrite list_elem_of_filter. naive_solver.
  - intros k w Hk. by apply Hw in Hk as [? _].
  - intros k w Hk. by apply Hw in Hk as [_ ?].
Qed.
End lemmas.

(** * A backend

    The instance the witnesses run on: it records the barriers it was asked to
    watch and has a script of events to deliver, like the [dummy] backend. *)

Record ScriptBackend : Type := mkScript {
  sb_barriers : gset BarrierKey;
  sb_released : nat;
  sb_events : list (BarrierKey * CaptureEvent)
}.
#[export] Instance script_backend : Capture ScriptBackend := {
  bk_poll b :=
    match sb_events b with
    | [] => (Pending, b)
    | e :: rest => (Ready (Some (Ok e)), mkScript (sb_barriers b) (sb_released b) rest)
    end;
  bk_create key b :=
    (Ok tt, mkScript ({[key]} ∪ sb_barriers b) (sb_released b) (sb_events b));
  bk_destroy key b :=
    (Ok tt, mkScript (sb_barriers b ∖ {[key]}) (sb_released b) (sb_events b));
  bk_release b := (Ok tt, mkScript (sb_barriers b) (S (sb_released b)) (sb_events b));
  bk_terminate b := (Ok tt, b);
  bk_start_capture key b := (Ok tt, b);
  bk_cancel_pending key b := (Ok tt, b);
  bk_monitors b := []
}.

(** * Properties *)

(** Registration.  A fresh handle is registered under its barrier and the
    backend is asked to watch that barrier exactly when nobody watched it; a
    known handle is taken out and the backend is asked to forget the barrier
    exactly when it was the last one.  Registering a known handle and
    destroying an unknown one panic. *)
Theorem registration_spec {B} `{Capture B} (c : InputCapture B) id :
  registered c →
  (∀ key, id_map c !! id = None →
     let r := create id key c in
     registered (snd r) ∧ id_map (snd r) = <[id := key]> (id_map c) ∧
     subscribers key (snd r) = subscribers key c ++ [id] ∧
     (fst r, capture (snd r)) =
       if decide (subscribers key c = []) then bk_create key (capture c)
       else (Ok tt, capture c)) ∧
  (∀ key, is_Some (id_map c !! id) → fst (create id key c) = Panic) ∧
  (∀ key, id_map c !! id = Some key →
     let r := destroy id c in
     registered (snd r) ∧ id_map (snd r) = delete id (id_map c) ∧
     subscribers key (snd r) = filter (λ i, i ≠ id) (subscribers key c) ∧
     (fst r, capture (snd r)) =
       if decide (subscribers key c = [id]) then bk_destroy key (capture c)
       else (Ok tt, capture c)) ∧
  (id_map c !! id = None → fst (destroy id c) = Panic).
Proof.
  intros Hreg. split_and!.
  - intros key Hid. cbn zeta. rewrite create_new by done.
    pose proof (create_maps_registered id key c Hid Hreg) as Hr.
    pose proof (reg_nonempty _ Hreg key) as Hne. unfold subscribers.
    destruct (position_map c !! key) as [v|] eqn:E; cbn.
    + rewrite lookup_insert_eq, E. cbn. rewrite decide_False by (by apply Hne).
      by split_and!.
    + destruct (backend_maps (bk_create key) (create_maps id key c)) as (E1 & E2 & _ & _ & E5 & E6).
      rewrite E1, E2, E5, E6. cbn. rewrite lookup_insert_eq, E. cbn.
      split_and!; [by eapply registered_ext|done|done|by destruct (bk_create key _)].
  - intros key Hid. by rewrite create_taken.
  - intros key Hid. cbn zeta. rewrite (destroy_known id key) by done. unfold subscribers.
    pose proof (destroy_maps_registered id key c Hid Hreg) as Hr.
    assert (default [] (position_map (destroy_maps id key c) !! key) =
            filter (λ i, i ≠ id) (default [] (position_map c !! key))) as Hp.
    { unfold destroy_maps. cbn. case_decide as Hf; rewrite ?lookup_delete_eq, ?lookup_insert_eq; done. }
    case_decide.
    + destruct (backend_maps (bk_destroy key) (destroy_maps id key c)) as (E1 & E2 & _ & _ & E5 & E6).
      rewrite E1, E2, E5, E6, Hp.
      split_and!; [by eapply registered_ext|done|done|].
      change (capture (destroy_maps id key c)) with (capture c). by destruct (bk_destroy key _).
    + cbn [fst snd]. by rewrite Hp.
  - intros Hid. by apply destroy_unknown.
Qed.

Lemma registration_spec_witness :
  fst (destroy 7%N (new (mkScript ∅ 0 []))) = Panic.
Proof.
  apply (registration_spec (new (mkScript ∅ 0 [])) 7%N); [|done].
  split; cbn.
  - intros id key. rewrite lookup_empty. cbn. rewrite elem_of_nil. by split.
  - intros key v. by rewrite lookup_empty.
  - intros key v. by rewrite lookup_empty.
Defined.

(** [n] polls in a row. *)
Fixpoint poll_n {B} `{Capture B} (n : nat) (c : InputCapture B) :=
  match n with
  | O => ([], c)
  | S n =>
      let '(r, c) := poll_next c in
      let '(rs, c) := poll_n n c in (r :: rs, c)
  end.

Lemma poll_pending {B} `{Capture B} (q : list (CaptureHandle * CaptureEvent)) c :
  pending c = q →
  poll_n (length q) c = ((λ e, Ready (Some (Ok e))) <$> q, set_pending [] c).
Proof.
  revert c. induction q as [|e q IH]; intros c Hq; cbn.
  { unfold set_pending. rewrite <- Hq. by destruct c. }
  unfold poll_next. rewrite Hq. rewrite (IH (set_pending q c)) by done. done.
Qed.

(** Fan-out.  When the backend delivers an event at a barrier, the next
    polls hand it to every subscriber of the barrier, each exactly once and in
    the order they subscribed, before the backend is asked again; an event
    without a subscriber is dropped and the poll stays pending.  A key event
    updates the pressed keys either way. *)
Theorem fan_out {B} `{Capture B} (c : InputCapture B) b key event :
  pending c = [] →
  bk_poll (capture c) = (Ready (Some (Ok (key, event))), b) →
  (subscribers key c = [] → poll_next c = (Pending, track event (set_capture b c))) ∧
  (subscribers key c ≠ [] →
   poll_n (length (subscribers key c)) c =
     ((λ id, Ready (Some (Ok (id, event)))) <$> subscribers key c,
      track event (set_capture b c))).
Proof.
  intros Hp Hb.
  assert (subscribers key (track event (set_capture b c)) = subscribers key c) as Hs
    by (destruct event as [| | |[|[]]]; done).
  assert (pending (track event (set_capture b c)) = []) as Hq
    by (destruct event as [| | |[|[]]]; done).
  split.
  - intros Hn. unfold poll_next. rewrite Hp, Hb, Hs, Hn. done.
  - intros Hn. destruct (subscribers key c) as [|first others] eqn:E; [done|]. cbn [length poll_n].
    unfold poll_next. rewrite Hp, Hb, Hs, Hq. cbn [app].
    set (q := (λ id, (id, event)) <$> others).
    replace (length others) with (length q) by (by unfold q; rewrite length_fmap).
    rewrite (poll_pending q) by done. cbn. f_equal.
    + unfold q. by rewrite <- list_fmap_compose.
    + rewrite <- Hq. by destruct (track event (set_capture b c)).
Qed.

Lemma fan_out_witness :
  fst (poll_n 2 (mkIC (mkScript ∅ 0 [(from_pos Edge.Left, Begin)]) ∅
    {[from_pos Edge.Left := [4%N; 9%N]]} ∅ [])) =
  [Ready (Some (Ok (4%N, Begin))); Ready (Some (Ok (9%N, Begin)))].
Proof.
  set (c := mkIC _ _ _ _ _).
  assert (bk_poll (capture c) =
    (Ready (Some (Ok (from_pos Edge.Left, Begin))), mkScript ∅ 0 [])) as Hb by done.
  assert (subscribers (from_pos Edge.Left) c = [4%N; 9%N]) as Hs by (by vm_compute).
  pose proof (proj2 (fan_out c _ _ _ eq_refl Hb)) as H. rewrite Hs in H.
  cbn [length] in H. by rewrite H.
Defined.

(** The pressed keys are exactly the keys whose last event was a press. *)
Theorem pressed_keys_spec (evs : list (Z * Z)) (k : Linux.Linux) :
  k ∈ foldl (λ keys e, update_pressed (fst e) (snd e) keys) ∅ evs ↔
  ∃ pre post, evs = pre ++ (Linux.to_u32 k, 1%Z) :: post ∧
    ∀ state, (Linux.to_u32 k, state) ∉ post.
Proof.
  induction evs as [|[key state] evs IH] using rev_ind.
  { cbn. split; [by intros ?%elem_of_empty|]. intros ([] & post & ? & _); done. }
  rewrite foldl_app. cbn. set (keys := foldl _ _ _) in *. unfold update_pressed.
  destruct (decide (key = Linux.to_u32 k)) as [->|Hne].
  - rewrite Linux.try_from_to. split.
    + intros Hin. exists evs, []. split; [|intros st Hst; by apply elem_of_nil in Hst].
      destruct (Z.eqb_spec state 1) as [->|Hs]; [done|]. set_solver.
    + intros (pre & post & E & Hpost).
      destruct post as [|e post _] using rev_ind.
      * apply app_inj_tail in E as [_ [= ->]]. rewrite Z.eqb_refl. set_solver.
      * rewrite app_comm_cons, app_assoc in E. apply app_inj_tail in E as [_ <-].
        exfalso. apply (Hpost state). set_solver.
  - assert (k ∈ match Linux.try_from_u32 key with
                | Some k' => if (state =? 1)%Z then {[k']} ∪ keys else keys ∖ {[k']}
                | None => keys
                end ↔ k ∈ keys) as ->.
    { destruct (Linux.try_from_u32 key) as [k'|] eqn:Ek; [|done].
      apply Linux.try_from_Some in Ek. assert (k' ≠ k) by (by intros ->).
      destruct (state =? 1)%Z; set_solver. }
    rewrite IH. split.
    + intros (pre & post & -> & Hpost). exists pre, (post ++ [(key, state)]).
      split; [by rewrite <- app_assoc|]. intros st Hin. apply elem_of_app in Hin as [Hin|Hin].
      * by eapply Hpost.
      * apply list_elem_of_singleton in Hin. congruence.
    + intros (pre & post & E & Hpost). destruct post as [|e post _] using rev_ind.
      * apply app_inj_tail in E as [_ [= ? ?]]. congruence.
      * rewrite app_comm_cons, app_assoc in E. apply app_inj_tail in E as [-> _].
        exists pre, post. split; [done|]. intros st Hin. apply (Hpost st). set_solver.
Qed.
