(* ===== verification/CaptureTask.v ===== *)
(** The capture task (src/capture.rs): the state machine that turns barrier
    crossings into the Enter/Ack handshake with a peer, forwards the input,
    and gives the cursor back.

    One call of a handler is a stateful call on [CState]: the fields of
    [CaptureTask], the multiplexer of InputCapture.v, and what was sent so far.
    The peer connection ([conn.send]) and the clock are oracles: [send_ok n]
    says whether the [n]-th send succeeds and [clock n] is the [n]-th reading,
    in nanoseconds.  [held_order] is the order in which the set of held keys
    is drained. *)

From S2P Require Import Prelude InputEvent Proto Geometry Scancode InputCapture.

(** * Data *)

Definition PENDING_ACK_TIMEOUT : Z := 500 * 1000000.
Definition WATCHDOG_LIGHT_INTERVAL : Z := 200 * 1000000.
Definition WATCHDOG_HEAVY_INTERVAL : Z := 3 * 1000000000.
Definition WATCHDOG_SEND_FAILURES_THRESHOLD : Z := 3.
Definition WATCHDOG_CROSSING_WINDOW : Z := 5 * 1000000000.
Definition WATCHDOG_CROSSING_STORM_THRESHOLD : nat := 5.
Definition WATCHDOG_NO_PROGRESS_TIMEOUT : Z := 8 * 1000000000.

Record WatchdogConfig : Type := mkWatchdogConfig {
  enabled : bool;
  ghost_active_check : bool;
  crossing_storm_check : bool;
  send_failures_check : bool;
  no_progress_check : bool;
  light_interval : Z;
  heavy_interval : Z;
  crossing_window : Z;
  crossing_storm_threshold : nat;
  send_failures_threshold : Z;
  no_progress_timeout : Z
}.
Definition default_watchdog : WatchdogConfig :=
  mkWatchdogConfig true true true true true WATCHDOG_LIGHT_INTERVAL WATCHDOG_HEAVY_INTERVAL
    WATCHDOG_CROSSING_WINDOW WATCHDOG_CROSSING_STORM_THRESHOLD
    WATCHDOG_SEND_FAILURES_THRESHOLD WATCHDOG_NO_PROGRESS_TIMEOUT.

Inductive CaptureType : Type := Default | EnterOnly.
#[export] Instance CaptureType_eq_dec : EqDecision CaptureType.
Proof. solve_decision. Defined.

Inductive State : Type :=
| Idle
| PendingAck (handle : CaptureHandle) (key : BarrierKey) (started : Z)
| Sending.

Inductive CaptureRequest : Type :=
| Release
| Create (h : CaptureHandle) (key : BarrierKey) (t : CaptureType)
| Destroy (h : CaptureHandle)
| Reenable
| SetReleaseBind (bind : list Linux.Linux)
| Dial (h : CaptureHandle)
| SendClip (event : ProtoEvent) (h : CaptureHandle).

Inductive ICaptureEvent : Type :=
| CaptureBegin (h : CaptureHandle)
| CaptureDisabled
| CaptureEnabled
| ClientEntered (h : CaptureHandle)
| MonitorsChanged (l : list MonitorInfo).

Record WatchdogState : Type := mkWatchdog {
  consecutive_send_failures : Z;
  recent_crossings : list Z;
  last_progress_at : Z
}.

Record CaptureTask : Type := mkTask {
  active_client : option CaptureHandle;
  captures : list (CaptureHandle * BarrierKey * CaptureType);
  release_bind : list Linux.Linux;
  state : State;
  release_bind_prev : bool;
  watchdog : WatchdogState;
  watchdog_config : WatchdogConfig;
  last_monitors : list MonitorInfo
}.

(** The task, the multiplexer, the clock readings taken, the sends attempted
    with their success, the events sent to the service and the dials. *)
Record CState (B : Type) : Type := mkC {
  task : CaptureTask;
  ic : InputCapture B;
  readings : nat;
  sent : list (ProtoEvent * CaptureHandle * bool);
  events : list ICaptureEvent;
  dials : list CaptureHandle
}.
Arguments mkC {B}.
Arguments task {B}.
Arguments ic {B}.
Arguments readings {B}.
Arguments sent {B}.
Arguments events {B}.
Arguments dials {B}.

Definition to_proto_pos (p : Edge.Position) : Pos.Position :=
  match p with
  | Edge.Left => Pos.Left | Edge.Right => Pos.Right
  | Edge.Top => Pos.Top | Edge.Bottom => Pos.Bottom
  end.

Definition should_skip_release (s : State) (active : option CaptureHandle) : bool :=
  match s, active with Idle, None => true | _, _ => false end.

(** Equality of monitors, with the floating-point equality on the scale. *)
Definition monitor_eqb (a b : MonitorInfo) : bool :=
  bool_decide (mon_id a = mon_id b) && bool_decide (mon_name a = mon_name b) &&
  bool_decide (mon_position a = mon_position b) && bool_decide (mon_size a = mon_size b) &&
  Bool.eqb (mon_primary a) (mon_primary b) && SpecFloat.SFeqb (mon_scale a) (mon_scale b).
Fixpoint monitors_eqb (l k : list MonitorInfo) : bool :=
  match l, k with
  | [], [] => true
  | a :: l, b :: k => monitor_eqb a b && monitors_eqb l k
  | _, _ => false
  end.

(** * The handlers *)

Section handlers.
Context {B : Type} `{Capture B}.
Variable send_ok : nat → bool.
Variable clock : nat → Z.
Variable held_order : gset Linux.Linux → list Linux.Linux.

Abbreviation M := (ST (CState B) CaptureError).

Definition on_task (f : CaptureTask → CaptureTask) (s : CState B) : CState B :=
  mkC (f (task s)) (ic s) (readings s) (sent s) (events s) (dials s).
Definition set_active (a : option CaptureHandle) (t : CaptureTask) : CaptureTask :=
  mkTask a (captures t) (release_bind t) (state t) (release_bind_prev t) (watchdog t)
    (watchdog_config t) (last_monitors t).
Definition set_captures (l : list (CaptureHandle * BarrierKey * CaptureType)) (t : CaptureTask) :=
  mkTask (active_client t) l (release_bind t) (state t) (release_bind_prev t) (watchdog t)
    (watchdog_config t) (last_monitors t).
Definition set_bind (b : list Linux.Linux) (t : CaptureTask) : CaptureTask :=
  mkTask (active_client t) (captures t) b (state t) (release_bind_prev t) (watchdog t)
    (watchdog_config t) (last_monitors t).
Definition set_state (s : State) (t : CaptureTask) : CaptureTask :=
  mkTask (active_client t) (captures t) (release_bind t) s (release_bind_prev t) (watchdog t)
    (watchdog_config t) (last_monitors t).
Definition set_bind_prev (b : bool) (t : CaptureTask) : CaptureTask :=
  mkTask (active_client t) (captures t) (release_bind t) (state t) b (watchdog t)
    (watchdog_config t) (last_monitors t).
Definition set_watchdog (w : WatchdogState) (t : CaptureTask) : CaptureTask :=
  mkTask (active_client t) (captures t) (release_bind t) (state t) (release_bind_prev t) w
    (watchdog_config t) (last_monitors t).
Definition set_last_monitors (l : list MonitorInfo) (t : CaptureTask) : CaptureTask :=
  mkTask (active_client t) (captures t) (release_bind t) (state t) (release_bind_prev t)
    (watchdog t) (watchdog_config t) l.

Definition upd (f : CaptureTask → CaptureTask) : M unit := modify_st (on_task f).
Definition the {A} (f : CaptureTask → A) : M A := gets (λ s, f (task s)).

(** [Instant::now()]. *)
Definition now : M Z :=
  n ← gets readings;
  modify_st (λ s, mkC (task s) (ic s) (S n) (sent s) (events s) (dials s)) ≫= λ _,
  mret (clock n).

(** [self.conn.send(event, handle)]: [true] when it succeeds. *)
Definition send (event : ProtoEvent) (h : CaptureHandle) : M bool :=
  l ← gets sent;
  let ok := send_ok (length l) in
  modify_st (λ s, mkC (task s) (ic s) (readings s) (sent s ++ [(event, h, ok)]) (events s)
                    (dials s)) ≫= λ _,
  mret ok.

(** [self.event_tx.send(event)]. *)
Definition emit (e : ICaptureEvent) : M unit :=
  modify_st (λ s, mkC (task s) (ic s) (readings s) (sent s) (events s ++ [e]) (dials s)).

(** A call on [capture], the multiplexer. *)
Definition call {A} (m : ST (InputCapture B) CaptureError A) : M A := λ s,
  let '(r, c) := m (ic s) in
  (r, mkC (task s) c (readings s) (sent s) (events s) (dials s)).

Definition wd (f : WatchdogState → WatchdogState) : M unit :=
  upd (λ t, set_watchdog (f (watchdog t)) t).
Definition count_failure (w : WatchdogState) : WatchdogState :=
  mkWatchdog (Z.min (consecutive_send_failures w + 1) (2 ^ 32 - 1)) (recent_crossings w)
    (last_progress_at w).
(** [consecutive_send_failures = 0; last_progress_at = Instant::now()]. *)
Definition progress : M unit :=
  t ← now; wd (λ w, mkWatchdog 0 (recent_crossings w) t).
(** The same, with the crossing window cleared. *)
Definition reset_watchdog : M unit :=
  t ← now; wd (λ w, mkWatchdog 0 [] t).

Definition add_capture (h : CaptureHandle) (key : BarrierKey) (t : CaptureType) : M unit :=
  upd (λ s, set_captures (captures s ++ [(h, key, t)]) s).
Definition remove_capture (h : CaptureHandle) : M unit :=
  upd (λ s, set_captures (filter (λ e, fst (fst e) ≠ h) (captures s)) s).

Definition is_default_capture_at (key : BarrierKey) (t : CaptureTask) : bool :=
  existsb (λ e, bool_decide (snd (fst e) = key) && bool_decide (snd e = Default)) (captures t).

(** [iter().find(...).expect("no such capture")]. *)
Definition find_capture (h : CaptureHandle) : M (CaptureHandle * BarrierKey * CaptureType) :=
  l ← the captures;
  match Geometry.find (λ e, bool_decide (fst (fst e) = h)) l with
  | Some e => mret e
  | None => panic
  end.
Definition get_key (h : CaptureHandle) : M BarrierKey := e ← find_capture h; mret (snd (fst e)).
Definition get_type (h : CaptureHandle) : M CaptureType := e ← find_capture h; mret (snd e).

Definition key_up (k : Linux.Linux) : ProtoEvent :=
  ProtoEvent.Input (Keyboard (Key 0 (Linux.to_u32 k) 0)).
Definition mods_zero : ProtoEvent := ProtoEvent.Input (Keyboard (Modifiers 0 0 0 0)).

(** The OS-level release at the end of [release_capture], and the reset of the
    watchdog whatever it answers. *)
Definition release_backend : M unit :=
  upd (set_state Idle) ≫= λ _,
  res ← attempt (call release);
  reset_watchdog ≫= λ _,
  reply res.

(** Its [Pending] path. *)
Definition release_pending_path (key : BarrierKey) : M unit :=
  attempt (call (cancel_pending key)) ≫= λ _, release_backend.

(** Its path for an active client. *)
Definition release_active_path (active : option CaptureHandle) : M unit :=
  upd (set_active None) ≫= λ _,
  match active with
  | Some h =>
      held ← call take_pressed_keys;
      for_each (λ k, send (key_up k) h ≫= λ _, mret tt) (held_order held) ≫= λ _,
      send mods_zero h ≫= λ _,
      send (ProtoEvent.Leave 0) h ≫= λ _, mret tt
  | None => mret tt
  end ≫= λ _,
  release_backend.

(** [release_capture]. *)
Definition release_capture : M unit :=
  st ← the state;
  active ← the active_client;
  if should_skip_release st active then reset_watchdog
  else match st with
       | PendingAck _ key _ => release_pending_path key
       | _ => release_active_path active
       end.

(** Enter a client: it becomes the active one, and the service hears of it
    when it was not. *)
Definition enter_client (h : CaptureHandle) : M unit :=
  active ← the active_client;
  when (negb (bool_decide (active = Some h)))
    (upd (set_active (Some h)) ≫= λ _, emit (ClientEntered h)).

Definition on_begin_pending (h : CaptureHandle) : M unit :=
  key ← get_key h;
  t ← now;
  upd (set_state (PendingAck h key t)) ≫= λ _,
  t ← now;
  wd (λ w, mkWatchdog (consecutive_send_failures w) (recent_crossings w ++ [t])
             (last_progress_at w)) ≫= λ _,
  ok ← send (ProtoEvent.Enter (to_proto_pos (Edge.opposite (key_pos key)))) h;
  if (ok : bool) then progress
  else
    attempt (call (cancel_pending key)) ≫= λ _,
    upd (set_state Idle) ≫= λ _,
    wd count_failure.

Definition on_cancel_pending (h : CaptureHandle) : M unit :=
  key ← get_key h;
  attempt (call (cancel_pending key)) ≫= λ _,
  st ← the state;
  match st with
  | PendingAck h' _ _ => when (bool_decide (h' = h)) (upd (set_state Idle))
  | _ => mret tt
  end.

Definition on_begin (h : CaptureHandle) : M unit :=
  st ← the state;
  let promoted := match st with PendingAck h' _ _ => bool_decide (h' = h) | _ => false end in
  if promoted then
    enter_client h ≫= λ _,
    upd (set_state Sending) ≫= λ _,
    progress
  else
    enter_client h ≫= λ _,
    upd (set_state Sending) ≫= λ _,
    key ← get_key h;
    ok ← send (ProtoEvent.Enter (to_proto_pos (Edge.opposite (key_pos key)))) h;
    if (ok : bool) then progress else wd count_failure ≫= λ _, call release.

Definition on_input (e : Event) (h : CaptureHandle) : M unit :=
  st ← the state;
  match st with
  | Sending =>
      ok ← send (ProtoEvent.Input e) h;
      if (ok : bool) then progress else wd count_failure ≫= λ _, call release
  | PendingAck _ _ _ | Idle => mret tt
  end.

(** [handle_capture_event]. *)
Definition handle_capture_event (h : CaptureHandle) (event : CaptureEvent) : M unit :=
  bind ← the release_bind;
  pressed ← gets (λ s, keys_pressed bind (ic s));
  upd (set_bind_prev pressed) ≫= λ _,
  if (pressed : bool) then release_capture
  else
    ty ← get_type h;
    if decide (ty = EnterOnly) then
      when (bool_decide (event = Begin) || bool_decide (event = BeginPending))
        (emit (CaptureBegin h)) ≫= λ _,
      key ← get_key h;
      def ← the (is_default_capture_at key);
      when (negb def) (call release)
    else
      when (bool_decide (event = Begin)) (emit (CaptureBegin h)) ≫= λ _,
      match event with
      | BeginPending => on_begin_pending h
      | CancelPending => on_cancel_pending h
      | Begin => on_begin h
      | Input e => on_input e h
      end.

(** The watchdog. *)
Definition run_watchdog_light : M unit :=
  cfg ← the watchdog_config;
  st ← the state;
  active ← the active_client;
  let ghost := match st, active with Sending, None => true | _, _ => false end in
  when (ghost_active_check cfg && ghost)
    (upd (set_state Idle) ≫= λ _,
     attempt (call release) ≫= λ _,
     progress).

(** Drop the crossings that left the window. *)
Fixpoint drop_old (now window : Z) (l : list Z) : list Z :=
  match l with
  | front :: rest => if (window <? now - front)%Z then drop_old now window rest else l
  | [] => []
  end.

Definition is_idle (s : State) : bool := match s with Idle => true | _ => false end.
Definition is_sending (s : State) : bool := match s with Sending => true | _ => false end.

Definition run_watchdog_heavy : M unit :=
  t ← now;
  cfg ← the watchdog_config;
  when (crossing_storm_check cfg)
    (wd (λ w, mkWatchdog (consecutive_send_failures w)
                (drop_old t (crossing_window cfg) (recent_crossings w)) (last_progress_at w))) ≫= λ _,
  st ← the state;
  active ← the active_client;
  w ← the watchdog;
  if crossing_storm_check cfg
     && (crossing_storm_threshold cfg <=? length (recent_crossings w))
     && is_idle st && bool_decide (active = None)
  then
    attempt release_capture ≫= λ _,
    wd (λ w, mkWatchdog (consecutive_send_failures w) [] t)
  else if send_failures_check cfg && is_sending st
          && (send_failures_threshold cfg <=? consecutive_send_failures w)%Z
  then
    wd (λ w, mkWatchdog 0 (recent_crossings w) (last_progress_at w)) ≫= λ _,
    attempt release_capture ≫= λ _,
    wd (λ w, mkWatchdog (consecutive_send_failures w) (recent_crossings w) t)
  else
    when (no_progress_check cfg && negb (is_idle st)
          && (no_progress_timeout cfg <? t - last_progress_at w)%Z)
      (attempt release_capture ≫= λ _,
       wd (λ w, mkWatchdog (consecutive_send_failures w) (recent_crossings w) t)).

(** Ask the backend to promote the pending capture. *)
Definition promote (key : BarrierKey) : M unit :=
  r ← attempt (call (start_capture key));
  match (r : CaptureError + unit) with
  | inr _ => mret tt
  | inl _ =>
      attempt (call (cancel_pending key)) ≫= λ _,
      upd (set_state Idle)
  end.

(** The [conn.recv] arm of the session: an event from a peer. *)
Definition on_ack (h : CaptureHandle) : M unit :=
  st ← the state;
  match st with
  | PendingAck pending_h key _ => when (bool_decide (pending_h = h)) (promote key)
  | _ =>
      active ← the active_client;
      when (bool_decide (is_Some active)) (upd (set_state Sending))
  end.

Definition on_recv (h : CaptureHandle) (event : ProtoEvent) : M unit :=
  active ← the active_client;
  let ignored := match active with Some a => negb (bool_decide (h = a)) | None => false end in
  if (ignored : bool) then mret tt
  else
    progress ≫= λ _,
    match event with
    | ProtoEvent.Ack _ => on_ack h
    | ProtoEvent.Leave _ => release_capture
    | _ => mret tt
    end.

(** The request arm. *)
Definition on_request (r : CaptureRequest) : M unit :=
  match r with
  | Reenable => mret tt
  | Release => release_capture
  | Create h key t => add_capture h key t ≫= λ _, call (create h key)
  | Destroy h => remove_capture h ≫= λ _, call (destroy h)
  | SetReleaseBind bind => upd (set_bind bind)
  | Dial h =>
      modify_st (λ s, mkC (task s) (ic s) (readings s) (sent s) (events s) (dials s ++ [h]))
  | SendClip event h => send event h ≫= λ _, mret tt
  end.

(** The pending tick: [started.elapsed()] is a clock reading. *)
Definition on_pending_tick : M unit :=
  st ← the state;
  match st with
  | PendingAck _ key started =>
      t ← now;
      when (PENDING_ACK_TIMEOUT <=? t - started)%Z
        (attempt (call (cancel_pending key)) ≫= λ _, upd (set_state Idle))
  | _ => mret tt
  end.

Definition on_peer_lost (lost : option CaptureHandle) : M unit :=
  active ← the active_client;
  match lost with
  | None => when (bool_decide (is_Some active)) release_capture
  | Some h => when (bool_decide (active = Some h)) release_capture
  end.

Definition on_monitor_tick : M unit :=
  current ← gets (λ s, monitors (ic s));
  last ← the last_monitors;
  when (negb (monitors_eqb current last))
    (upd (set_last_monitors current) ≫= λ _, emit (MonitorsChanged current)).

(** [capture.next()]: the multiplexer's stream, when it is ready. *)
Definition on_capture_ready : M bool :=
  item ← (λ s, let '(r, c) := poll_next (ic s) in
               (Ok r, mkC (task s) c (readings s) (sent s) (events s) (dials s)) : _ * CState B);
  match (item : poll (option (outcome CaptureError (CaptureHandle * CaptureEvent)))) with
  | InputCapture.Pending => mret true
  | Ready None => mret false
  | Ready (Some (Ok (h, event))) => handle_capture_event h event ≫= λ _, mret true
  | Ready (Some (Err e)) => raise e
  | Ready (Some Panic) => panic
  | Ready (Some Diverge) => λ s, (Diverge, s)
  end.

(** What the [select!] of [do_capture_session] can pick. *)
Inductive arm : Type :=
| CaptureNext
| ConnRecv (h : CaptureHandle) (event : ProtoEvent)
| RequestRecv (r : CaptureRequest)
| PendingTick
| LightTick
| HeavyTick
| PeerLost (lost : option CaptureHandle)
| MonitorTick.

(** One turn of the session loop: [false] ends the session normally. *)
Definition session_turn (a : arm) : M bool :=
  match a with
  | CaptureNext => on_capture_ready
  | ConnRecv h event => on_recv h event ≫= λ _, mret true
  | RequestRecv r => on_request r ≫= λ _, mret true
  | PendingTick => on_pending_tick ≫= λ _, mret true
  | LightTick => run_watchdog_light ≫= λ _, mret true
  | HeavyTick => run_watchdog_heavy ≫= λ _, mret true
  | PeerLost lost => on_peer_lost lost ≫= λ _, mret true
  | MonitorTick => on_monitor_tick ≫= λ _, mret true
  end.

(** The loop on a sequence of picks; cancellation is the end of the sequence. *)
Fixpoint do_capture_session (arms : list arm) : M unit :=
  match arms with
  | [] => mret tt
  | a :: arms =>
      continue ← session_turn a;
      if (continue : bool) then do_capture_session arms else mret tt
  end.

(** [create_captures]: register the known captures with a fresh multiplexer. *)
Definition create_captures : M unit :=
  l ← the captures;
  for_each (λ e, call (create (fst (fst e)) (snd (fst e)))) l.

(** [do_capture]: a session on a freshly created backend [b]. *)
Definition do_capture (b : B) (arms : list arm) : M unit :=
  modify_st (λ s, mkC (task s) (new b) (readings s) (sent s) (events s) (dials s)) ≫= λ _,
  initial ← gets (λ s, monitors (ic s));
  upd (set_last_monitors initial) ≫= λ _,
  emit (MonitorsChanged initial) ≫= λ _,
  emit CaptureEnabled ≫= λ _,
  r ← attempt create_captures;
  match (r : CaptureError + unit) with
  | inl e =>
      t ← attempt (call terminate); emit CaptureDisabled ≫= λ _,
      match (t : CaptureError + unit) with inl e => raise e | inr _ => raise e end
  | inr _ =>
      r ← attempt (do_capture_session arms);
      t ← attempt (call terminate); emit CaptureDisabled ≫= λ _,
      match (t : CaptureError + unit) with inl e => raise e | inr _ => reply r end
  end.

(** The requests served while no session runs. *)
Definition gap_request (r : CaptureRequest) : M unit :=
  match r with
  | Create h key t => add_capture h key t
  | Destroy h => remove_capture h
  | SetReleaseBind bind => upd (set_bind bind)
  | Dial h =>
      modify_st (λ s, mkC (task s) (ic s) (readings s) (sent s) (events s) (dials s ++ [h]))
  | SendClip event h => send event h ≫= λ _, mret tt
  | Reenable | Release => mret tt
  end.
End handlers.

(** * Lemmas *)

Section lemmas.
Context {B : Type} `{Capture B}.
Variable send_ok : nat → bool.
Variable clock : nat → Z.
Variable held_order : gset Linux.Linux → list Linux.Linux.
Implicit Types (s : CState B).

(** The log of a run of sends to [h] that starts with the [n]-th one. *)
Fixpoint send_log (n : nat) (evs : list ProtoEvent) (h : CaptureHandle)
    : list (ProtoEvent * CaptureHandle * bool) :=
  match evs with
  | [] => []
  | e :: evs => (e, h, send_ok n) :: send_log (S n) evs h
  end.

Definition log_sends (evs : list ProtoEvent) (h : CaptureHandle) s : CState B :=
  mkC (task s) (ic s) (readings s) (sent s ++ send_log (length (sent s)) evs h) (events s) (dials s).

Lemma send_log_app n evs evs' h :
  send_log n (evs ++ evs') h = send_log n evs h ++ send_log (n + length evs) evs' h.
Proof.
  revert n. induction evs as [|e evs IH]; intros n; cbn; [by rewrite Nat.add_0_r|].
  rewrite IH. do 3 f_equal. lia.
Qed.

Lemma length_send_log n evs h : length (send_log n evs h) = length evs.
Proof. revert n. induction evs; intros n; cbn; auto. Qed.

Lemma log_sends_app evs evs' h s :
  log_sends evs' h (log_sends evs h s) = log_sends (evs ++ evs') h s.
Proof.
  unfold log_sends. cbn. f_equal.
  by rewrite send_log_app, length_app, length_send_log, app_assoc.
Qed.

Lemma send_eq e h s :
  send (B := B) send_ok e h s = (Ok (send_ok (length (sent s))), log_sends [e] h s).
Proof. done. Qed.

Lemma for_each_send {A} (f : A → ProtoEvent) l h s :
  for_each (λ k, send send_ok (f k) h ≫= λ _, mret tt) l s = (Ok tt, log_sends (f <$> l) h s).
Proof.
  revert s. induction l as [|k l IH]; intros s; cbn.
  { unfold log_sends. cbn. rewrite app_nil_r. by destruct s. }
  unfold mbind, ST_bind in *. rewrite send_eq. cbn. rewrite IH. f_equal.
  change (f k :: (f <$> l)) with ([f k] ++ (f <$> l)). by rewrite <- log_sends_app.
Qed.

Definition idle_task (t : CaptureTask) (at_ : Z) : CaptureTask :=
  mkTask None (captures t) (release_bind t) Idle (release_bind_prev t) (mkWatchdog 0 [] at_)
    (watchdog_config t) (last_monitors t).

(** What a release with an active client does, in closed form. *)
Definition farewell (held : list Linux.Linux) : list ProtoEvent :=
  (key_up <$> held) ++ [mods_zero; ProtoEvent.Leave 0].

Lemma release_active s h :
  active_client (task s) = Some h → (∀ h' k t, state (task s) ≠ PendingAck h' k t) →
  let s1 := log_sends (farewell (held_order (pressed_keys (ic s)))) h s in
  let r := release (set_pressed ∅ (ic s)) in
  release_capture send_ok clock held_order s =
    match fst r with
    | Ok _ | Err _ =>
        (fst r, mkC (idle_task (task s) (clock (readings s))) (snd r) (S (readings s))
                  (sent s1) (events s) (dials s))
    | Panic | Diverge =>
        (fst r, mkC (set_state Idle (set_active None (task s))) (snd r) (readings s) (sent s1)
                  (events s) (dials s))
    end.
Proof.
  intros Ha Hp. cbn zeta.
  unfold release_capture, release_active_path, release_backend, the, gets, upd, modify_st,
    mbind, ST_bind. rewrite Ha. cbn [should_skip_release].
  replace (should_skip_release (state (task s)) (Some h)) with false
    by (by destruct (state (task s))).
  destruct (state (task s)) as [|h' k t|] eqn:Es; [|by destruct (Hp h' k t)|].
  all: unfold call at 1, take_pressed_keys, gets, modify_st, mbind, ST_bind; cbn [on_task ic].
  all: pose proof (for_each_send key_up (held_order (pressed_keys (ic s))) h) as Hsend.
  all: unfold mbind, ST_bind in Hsend; cbn [mret ST_ret]; rewrite Hsend; clear Hsend.
  all: rewrite !send_eq, !log_sends_app; cbn [mret ST_ret].
  all: unfold attempt, call, mbind, ST_bind; cbn [ic on_task log_sends].
  all: destruct (release (set_pressed ∅ (ic s))) as [[[]|e| |] c] eqn:Er; cbn.
  all: unfold farewell; rewrite <- ?app_assoc; done.
Qed.

Lemma release_skip s :
  state (task s) = Idle → active_client (task s) = None →
  release_capture send_ok clock held_order s =
    (Ok tt, mkC (idle_task (task s) (clock (readings s))) (ic s) (S (readings s)) (sent s)
              (events s) (dials s)).
Proof.
  intros Hs Ha. unfold release_capture, the, gets, mbind, ST_bind. rewrite Hs, Ha. cbn.
  unfold reset_watchdog, wd, upd, now, gets, modify_st, mbind, ST_bind, set_watchdog, on_task.
  cbn. by rewrite Ha, Hs.
Qed.

(** Leaving [PendingAck]: nothing is sent, the active client is kept. *)
Lemma release_pending s h key t :
  state (task s) = PendingAck h key t →
  let r1 := cancel_pending key (ic s) in
  let r2 := release (snd r1) in
  returns (fst r1) → returns (fst r2) →
  release_capture send_ok clock held_order s =
    (fst r2, mkC (set_watchdog (mkWatchdog 0 [] (clock (readings s))) (set_state Idle (task s)))
               (snd r2) (S (readings s)) (sent s) (events s) (dials s)).
Proof.
  intros Hs. cbn zeta. intros H1 H2.
  unfold release_capture, release_pending_path, release_backend, the, gets, upd, modify_st,
    attempt, call, mbind, ST_bind. rewrite Hs. replace (should_skip_release _ _) with false by done.
  destruct (cancel_pending key (ic s)) as [[[]|e| |] c] eqn:E1; try done; cbn in *.
  all: destruct (release c) as [[[]|e'| |] c'] eqn:E2; done.
Qed.
End lemmas.

(** * The state machine invariant *)

(** [Sending] is never left without a client to send to. *)
Definition active_ok {B} (s : CState B) : Prop :=
  state (task s) = Sending → is_Some (active_client (task s)).

Create HintDb pres.
Ltac pres_step :=
  first
    [ assumption
    | solve [eauto with pres]
    | lazymatch goal with
      | |- preserves _ (mret _) => apply preserves_ret
      | |- preserves _ (gets _) => apply preserves_gets
      | |- preserves _ (raise _) => apply preserves_raise
      | |- preserves _ panic => apply preserves_panic
      | |- preserves _ (reply _) => apply preserves_reply
      | |- preserves _ (attempt _) => apply preserves_attempt
      | |- preserves _ (when _ _) => apply preserves_when
      | |- preserves _ (for_each _ _) => apply preserves_for_each; intros ?
      | |- preserves _ (_ ≫= _) => apply preserves_bind; [|intros ?]
      end ].
Ltac pres := repeat first [pres_step | case_match].

Section invariant.
Context {B : Type} `{Capture B}.
Variable send_ok : nat → bool.
Variable clock : nat → Z.
Variable held_order : gset Linux.Linux → list Linux.Linux.
Implicit Types (s : CState B).
Abbreviation P := (preserves (E := CaptureError) active_ok).

Lemma P_same {A} (m : ST (CState B) CaptureError A) :
  (∀ s, state (task (snd (m s))) = state (task s) ∧
        active_client (task (snd (m s))) = active_client (task s)) → P m.
Proof. intros Hm s Hs. destruct (Hm s) as [E1 E2]. unfold active_ok in *. by rewrite E1, E2. Qed.

Lemma P_upd f :
  (∀ t, (state (f t) = Sending → state t = Sending) ∧ active_client (f t) = active_client t) →
  P (upd (B := B) f).
Proof. intros Hf. apply preserves_modify. unfold active_ok. intros s Hs E. cbn in *.
  destruct (Hf (task s)) as [H1 ->]. auto. Qed.

Lemma P_call {A} (m : ST (InputCapture B) CaptureError A) : P (call m).
Proof. apply P_same. intros s. unfold call. by destruct (m (ic s)). Qed.
Lemma P_now : P (now (B := B) clock). Proof. by apply P_same. Qed.
Lemma P_send e h : P (send (B := B) send_ok e h). Proof. by apply P_same. Qed.
Lemma P_emit e : P (emit (B := B) e). Proof. by apply P_same. Qed.
Lemma P_wd f : P (wd (B := B) f). Proof. by apply P_same. Qed.
Lemma P_idle : P (upd (B := B) (set_state Idle)).
Proof. by apply P_upd. Qed.
Lemma P_pending h k t : P (upd (B := B) (set_state (PendingAck h k t))).
Proof. by apply P_upd. Qed.
#[local] Hint Resolve P_call P_now P_send P_emit P_wd P_idle P_pending : pres.

Lemma P_progress : P (progress (B := B) clock).
Proof. unfold progress. pres. Qed.
Lemma P_find h : P (find_capture (B := B) h).
Proof. unfold find_capture, the. pres. Qed.
#[local] Hint Resolve P_progress P_find : pres.
Lemma P_get_key h : P (get_key (B := B) h). Proof. unfold get_key. pres. Qed.
Lemma P_get_type h : P (get_type (B := B) h). Proof. unfold get_type. pres. Qed.
#[local] Hint Resolve P_get_key P_get_type : pres.

Lemma P_release : P (release_capture send_ok clock held_order).
Proof.
  intros s Hs. destruct (state (task s)) as [|h key t|] eqn:Es.
  - destruct (active_client (task s)) as [h|] eqn:Ea.
    + rewrite (release_active _ _ _ _ h Ea) by (intros; by rewrite Es).
      by destruct (fst (release _)).
    + by rewrite release_skip.
  - assert (P (release_pending_path clock key)) as Hm.
    { unfold release_pending_path, release_backend, reset_watchdog. pres. }
    unfold release_capture, the, gets, mbind at 1, ST_bind at 1. rewrite Es. by apply Hm.
  - destruct (Hs Es) as [h Ea]. rewrite (release_active _ _ _ _ h Ea) by (intros; by rewrite Es).
    by destruct (fst (release _)).
Qed.
#[local] Hint Resolve P_release : pres.

(** Entering a client and switching to [Sending] go together. *)
Lemma enter_eq h s :
  enter_client (B := B) h s =
    (Ok tt, mkC (set_active (Some h) (task s)) (ic s) (readings s) (sent s)
              (events s ++ if decide (active_client (task s) = Some h) then []
                           else [ClientEntered h]) (dials s)).
Proof.
  unfold enter_client, the, gets, mbind, ST_bind.
  destruct (decide (active_client (task s) = Some h)) as [E|E].
  - rewrite bool_decide_true by done. cbn. rewrite app_nil_r, <- E.
    by destruct s as [[] ? ? ? ? ?].
  - by rewrite bool_decide_false.
Qed.

Lemma P_enter_sending {A} h (m : ST (CState B) CaptureError A) :
  P m → P (enter_client h ≫= λ _, upd (set_state Sending) ≫= λ _, m).
Proof.
  intros Hm s _. unfold mbind at 1, ST_bind at 1. rewrite enter_eq.
  apply Hm. unfold active_ok. cbn. eauto.
Qed.

Lemma P_on_begin h : P (on_begin send_ok clock h).
Proof.
  unfold on_begin, the. apply preserves_bind; [pres|intros st]. cbn zeta.
  destruct (match st with PendingAck _ _ _ => _ | _ => _ end); apply P_enter_sending; pres.
Qed.
Lemma P_on_begin_pending h : P (on_begin_pending send_ok clock h).
Proof. unfold on_begin_pending. pres. Qed.
Lemma P_on_cancel_pending h : P (on_cancel_pending (B := B) h).
Proof. unfold on_cancel_pending, the. pres. Qed.
Lemma P_on_input e h : P (on_input send_ok clock e h).
Proof. unfold on_input, the. pres. Qed.
#[local] Hint Resolve P_on_begin P_on_begin_pending P_on_cancel_pending P_on_input : pres.

Lemma P_handle_capture_event h ev :
  P (handle_capture_event send_ok clock held_order h ev).
Proof. unfold handle_capture_event, the. pres. Qed.
#[local] Hint Resolve P_handle_capture_event : pres.

Lemma P_light : P (run_watchdog_light (B := B) clock).
Proof. unfold run_watchdog_light, the. pres. Qed.
Lemma P_heavy : P (run_watchdog_heavy send_ok clock held_order).
Proof. unfold run_watchdog_heavy, the. pres. Qed.

Lemma P_on_ack h : P (on_ack (B := B) h).
Proof.
  assert (∀ key, P (promote (B := B) key)) as Hm by (intros key; unfold promote; pres).
  intros s Hs. unfold on_ack, the, gets, mbind, ST_bind.
  destruct (state (task s)) as [|h' key t|] eqn:Es; [|unfold when; case_match; [by apply Hm|done]|].
  all: unfold when, active_ok; destruct (active_client (task s)) eqn:Ea; cbn.
  all: try (intros; eauto; fail).
  all: intros E; rewrite Es in E; try discriminate E; destruct (Hs Es); congruence.
Qed.
Lemma P_on_recv h ev : P (on_recv send_ok clock held_order h ev).
Proof. pose proof P_on_ack. unfold on_recv, the. pres. Qed.

Lemma P_on_request r : P (on_request send_ok clock held_order r).
Proof.
  unfold on_request, add_capture, remove_capture. pres; try by apply P_same.
Qed.
Lemma P_turn a : P (session_turn send_ok clock held_order a).
Proof.
  pose proof P_light. pose proof P_heavy. pose proof P_on_recv. pose proof P_on_request.
  unfold session_turn, on_capture_ready, on_pending_tick, on_peer_lost, on_monitor_tick, the.
  pres; try by apply P_same.
  apply P_same. intros s. by destruct (poll_next (ic s)).
Qed.

Lemma P_session arms : P (do_capture_session send_ok clock held_order arms).
Proof. pose proof P_turn. induction arms as [|a arms IH]; cbn; pres. Qed.

(** The light watchdog has nothing to do in such a state. *)
Lemma light_noop s : active_ok s → run_watchdog_light clock s = (Ok tt, s).
Proof.
  intros Hs. unfold run_watchdog_light, the, gets, mbind, ST_bind.
  destruct (state (task s)) eqn:Es; rewrite ?andb_false_r; try done.
  destruct (Hs Es) as [h ->]. by rewrite andb_false_r.
Qed.
End invariant.

(** * Closed forms of the handlers *)

(** Run the stateful calls of a handler. *)
Ltac run :=
  unfold progress, now, wd, upd, emit, call, the, gets, modify_st, attempt, when, get_key, get_type,
    mbind, ST_bind; cbn [mret ST_ret fst snd].

Section closed_forms.
Context {B : Type} `{Capture B}.
Variable send_ok : nat → bool.
Variable clock : nat → Z.
Variable held_order : gset Linux.Linux → list Linux.Linux.
Implicit Types (s : CState B).

(** The capture registered for [h], and the chord is not held. *)
Definition registered_as s h key ty : Prop :=
  Geometry.find (λ e, bool_decide (fst (fst e) = h)) (captures (task s)) = Some (h, key, ty).
Definition chord_held s : bool := keys_pressed (release_bind (task s)) (ic s).

Lemma find_capture_eq h key ty s :
  registered_as s h key ty → find_capture h s = (Ok (h, key, ty), s).
Proof. intros Hf. unfold find_capture, the, gets, mbind, ST_bind. by rewrite Hf. Qed.

Lemma find_capture_none h s :
  Geometry.find (λ e, bool_decide (fst (fst e) = h)) (captures (task s)) = None →
  find_capture h s = (Panic, s).
Proof. intros Hf. unfold find_capture, the, gets, mbind, ST_bind. by rewrite Hf. Qed.

(** The state in which the event of a [Default] capture is dispatched. *)
Definition dispatch_state h ev s : CState B :=
  mkC (set_bind_prev false (task s)) (ic s) (readings s) (sent s)
    (events s ++ if decide (ev = Begin) then [CaptureBegin h] else []) (dials s).

Lemma handle_default h key ev s :
  registered_as s h key Default → chord_held s = false →
  handle_capture_event send_ok clock held_order h ev s =
    match ev with
    | BeginPending => on_begin_pending send_ok clock h (dispatch_state h ev s)
    | CancelPending => on_cancel_pending h (dispatch_state h ev s)
    | Begin => on_begin send_ok clock h (dispatch_state h ev s)
    | Input e => on_input send_ok clock e h (dispatch_state h ev s)
    end.
Proof.
  intros Hf Hc. unfold handle_capture_event, the, gets, upd, modify_st, mbind, ST_bind.
  unfold chord_held in Hc. rewrite Hc. unfold get_type, mbind, ST_bind.
  rewrite (find_capture_eq h key Default) by done. cbn [mret ST_ret snd].
  rewrite decide_False by done. unfold dispatch_state.
  destruct ev; cbn; rewrite ?app_nil_r; done.
Qed.

Lemma handle_unknown h ev s :
  Geometry.find (λ e, bool_decide (fst (fst e) = h)) (captures (task s)) = None →
  chord_held s = false →
  fst (handle_capture_event send_ok clock held_order h ev s) = Panic.
Proof.
  intros Hf Hc. unfold handle_capture_event, the, gets, upd, modify_st, mbind, ST_bind.
  unfold chord_held in Hc. rewrite Hc. unfold get_type, mbind, ST_bind.
  by rewrite find_capture_none.
Qed.

Definition enter_event (key : BarrierKey) : ProtoEvent :=
  ProtoEvent.Enter (to_proto_pos (Edge.opposite (key_pos key))).

Definition with_progress (t : Z) (task : CaptureTask) : CaptureTask :=
  set_watchdog (mkWatchdog 0 (recent_crossings (watchdog task)) t) task.

Lemma progress_eq s :
  progress clock s =
    (Ok tt, mkC (with_progress (clock (readings s)) (task s)) (ic s) (S (readings s)) (sent s)
              (events s) (dials s)).
Proof. done. Qed.

(** [BeginPending] with a successful send: one Enter, and the wait starts. *)
Lemma begin_pending_ok h key ty s :
  registered_as s h key ty → send_ok (length (sent s)) = true →
  ∃ s', on_begin_pending send_ok clock h s = (Ok tt, s') ∧
    state (task s') = PendingAck h key (clock (readings s)) ∧
    sent s' = sent s ++ [(enter_event key, h, true)] ∧ events s' = events s ∧ ic s' = ic s ∧
    active_client (task s') = active_client (task s) ∧
    captures (task s') = captures (task s) ∧ release_bind (task s') = release_bind (task s).
Proof.
  intros Hf Hs. unfold on_begin_pending. run. rewrite (find_capture_eq h key ty) by done. run.
  rewrite send_eq. cbn. rewrite Hs. eexists. split; [done|]. cbn. by rewrite Hs.
Qed.

(** ... and with a failed one: nothing is pending. *)
Lemma begin_pending_failed h key ty s :
  registered_as s h key ty → send_ok (length (sent s)) = false →
  returns (fst (cancel_pending key (ic s))) →
  ∃ s', on_begin_pending send_ok clock h s = (Ok tt, s') ∧ state (task s') = Idle ∧
    sent s' = sent s ++ [(enter_event key, h, false)] ∧ events s' = events s ∧
    active_client (task s') = active_client (task s).
Proof.
  intros Hf Hs Hc. unfold on_begin_pending. run. rewrite (find_capture_eq h key ty) by done. run.
  rewrite send_eq. cbn. rewrite Hs. cbn.
  destruct (cancel_pending key (ic s)) as [[[]|e| |] c]; try done;
    (eexists; split; [done|]; cbn; by rewrite Hs).
Qed.

(** [Begin] for the pending client: no second Enter. *)
Lemma begin_promoted h key t s :
  state (task s) = PendingAck h key t →
  ∃ s', on_begin send_ok clock h s = (Ok tt, s') ∧ state (task s') = Sending ∧
    active_client (task s') = Some h ∧ sent s' = sent s ∧ ic s' = ic s ∧
    events s' = events s ++ (if decide (active_client (task s) = Some h) then []
                             else [ClientEntered h]) ∧
    captures (task s') = captures (task s) ∧ release_bind (task s') = release_bind (task s).
Proof.
  intros Hs. unfold on_begin, the, gets. unfold mbind at 1, ST_bind at 1. rewrite Hs. cbn zeta.
  rewrite bool_decide_true by done. unfold mbind at 1, ST_bind at 1. rewrite enter_eq.
  eexists. split; [done|]. done.
Qed.

(** [Begin] without a handshake: the Enter is sent now. *)
Lemma begin_direct h key ty s :
  registered_as s h key ty → (∀ k t, state (task s) ≠ PendingAck h k t) →
  send_ok (length (sent s)) = true →
  ∃ s', on_begin send_ok clock h s = (Ok tt, s') ∧ state (task s') = Sending ∧
    active_client (task s') = Some h ∧ sent s' = sent s ++ [(enter_event key, h, true)].
Proof.
  intros Hf Hn Hs. unfold on_begin, the, gets. unfold mbind at 1, ST_bind at 1. cbn zeta.
  replace (match state (task s) with PendingAck h' _ _ => bool_decide (h' = h) | _ => false end)
    with false.
  2: { destruct (state (task s)) eqn:E; try done. symmetry. apply bool_decide_eq_false.
       intros ->. by eapply Hn. }
  unfold mbind at 1, ST_bind at 1. rewrite enter_eq.
  run. rewrite (find_capture_eq h key ty) by done. run. rewrite send_eq. cbn. rewrite Hs.
  eexists. split; [done|]. cbn. by rewrite Hs.
Qed.

(** Input is forwarded in [Sending] only. *)
Lemma input_sending e h s :
  state (task s) = Sending → send_ok (length (sent s)) = true →
  ∃ s', on_input send_ok clock e h s = (Ok tt, s') ∧ state (task s') = Sending ∧
    active_client (task s') = active_client (task s) ∧ ic s' = ic s ∧
    events s' = events s ∧ sent s' = sent s ++ [(ProtoEvent.Input e, h, true)].
Proof.
  intros Hs Ho. unfold on_input, the, gets, mbind, ST_bind. rewrite Hs, send_eq, Ho.
  eexists. split; [done|]. cbn. by rewrite Ho.
Qed.

Lemma input_dropped e h s :
  state (task s) ≠ Sending → on_input send_ok clock e h s = (Ok tt, s).
Proof.
  intros Hs. unfold on_input, the, gets, mbind, ST_bind. by destruct (state (task s)).
Qed.

(** An Ack of the pending client asks the backend to take over. *)
Lemma ack_pending h key t n s :
  state (task s) = PendingAck h key t → active_client (task s) = None ∨ active_client (task s) = Some h →
  fst (start_capture key (ic s)) = Ok tt →
  ∃ s', on_recv send_ok clock held_order h (ProtoEvent.Ack n) s = (Ok tt, s') ∧
    state (task s') = PendingAck h key t ∧ sent s' = sent s ∧ events s' = events s ∧
    ic s' = snd (start_capture key (ic s)) ∧ active_client (task s') = active_client (task s) ∧
    captures (task s') = captures (task s) ∧ release_bind (task s') = release_bind (task s).
Proof.
  intros Hs Ha Hc. unfold on_recv, the, gets. unfold mbind at 1, ST_bind at 1.
  replace (match active_client (task s) with Some a => _ | None => false end) with false.
  2: { destruct Ha as [->| ->]; [done|]. by rewrite bool_decide_true. }
  unfold mbind at 1, ST_bind at 1. rewrite progress_eq.
  unfold on_ack, the, gets, mbind, ST_bind. cbn. rewrite Hs, bool_decide_true by done. cbn.
  unfold promote, attempt, call, mbind, ST_bind. cbn.
  destruct (start_capture key (ic s)) as [r c] eqn:E. cbn in Hc. subst r.
  eexists. split; [done|]. done.
Qed.
End closed_forms.

(** * Properties *)

Section properties.
Context {B : Type} `{Capture B}.
Variable send_ok : nat → bool.
Variable clock : nat → Z.
Variable held_order : gset Linux.Linux → list Linux.Linux.
Implicit Types (s : CState B).

Abbreviation handle := (handle_capture_event send_ok clock held_order).
Abbreviation recv := (on_recv send_ok clock held_order).

(** C5. The handshake.  From rest, a crossing sends one Enter and forwards no
    input; the peer's Ack makes the backend take over; the backend's Begin
    makes the client active, without a second Enter; and from then on input
    goes to that client.  The service hears of the capture and of the client
    once each. *)
Theorem handshake s h key e n :
  registered_as s h key Default → state (task s) = Idle → active_client (task s) = None →
  chord_held s = false → (∀ i, send_ok i = true) →
  (∀ c, fst (start_capture key c) = Ok tt) →
  ∃ s1 s2 s3 s4,
    handle h BeginPending s = (Ok tt, s1) ∧
    (∀ e', ∃ s', handle h (Input e') s1 = (Ok tt, s') ∧ sent s' = sent s1) ∧
    recv h (ProtoEvent.Ack n) s1 = (Ok tt, s2) ∧
    handle h Begin s2 = (Ok tt, s3) ∧
    state (task s3) = Sending ∧ active_client (task s3) = Some h ∧
    handle h (Input e) s3 = (Ok tt, s4) ∧
    sent s4 = sent s ++ [(enter_event key, h, true); (ProtoEvent.Input e, h, true)] ∧
    events s4 = events s ++ [CaptureBegin h; ClientEntered h].
Proof.
  intros Hreg Hst Hact Hch Hok Hbk.
  destruct (begin_pending_ok send_ok clock h key Default (dispatch_state h BeginPending s))
    as (s1 & E1 & S1 & L1 & V1 & I1 & A1 & C1 & B1); [done|apply Hok|].
  cbn in I1, A1, C1, B1, V1, L1. rewrite app_nil_r in V1. rewrite Hact in A1.
  assert (registered_as s1 h key Default) as Hreg1 by (unfold registered_as; by rewrite C1).
  assert (chord_held s1 = false) as Hch1 by (unfold chord_held; by rewrite I1, B1).
  destruct (ack_pending send_ok clock held_order h key _ n s1 S1 (or_introl A1) (Hbk _))
    as (s2 & E2 & S2 & L2 & V2 & I2 & A2 & C2 & B2).
  assert (registered_as s2 h key Default) as Hreg2 by (unfold registered_as; by rewrite C2).
  assert (pressed_keys (ic s2) = pressed_keys (ic s1)) as Hk.
  { rewrite I2. apply (backend_maps (bk_start_capture key)). }
  assert (chord_held s2 = false) as Hch2.
  { unfold chord_held, keys_pressed in *. by rewrite Hk, B2. }
  destruct (begin_promoted send_ok clock h key _ (dispatch_state h Begin s2) S2)
    as (s3 & E3 & S3 & A3 & L3 & I3 & V3 & C3 & B3).
  cbn in L3, I3, V3, C3, B3. rewrite A2, A1 in V3. cbn in V3.
  assert (registered_as s3 h key Default) as Hreg3 by (unfold registered_as; by rewrite C3).
  assert (chord_held s3 = false) as Hch3 by (unfold chord_held; by rewrite I3, B3).
  destruct (input_sending send_ok clock e h (dispatch_state h (Input e) s3) S3 (Hok _))
    as (s4 & E4 & S4 & A4 & I4 & V4 & L4).
  cbn in V4, L4. rewrite app_nil_r in V4.
  exists s1, s2, s3, s4. split_and!.
  - by rewrite (handle_default send_ok clock held_order h key).
  - intros e'. rewrite (handle_default send_ok clock held_order h key) by done.
    rewrite input_dropped by (cbn; by rewrite S1). eexists. split; [done|]. done.
  - done.
  - by rewrite (handle_default send_ok clock held_order h key).
  - done.
  - done.
  - by rewrite (handle_default send_ok clock held_order h key).
  - by rewrite L4, L3, L2, L1, <- app_assoc.
  - by rewrite V4, V3, V2, V1, <- !app_assoc.
Qed.

(** A crossing that is not acknowledged within 500 ms is given up: the next
    pending tick returns to rest and sends nothing, an earlier tick changes
    nothing but the clock, and an Ack that arrives after the timeout does not
    start the capture. *)
Theorem pending_timeout s h key started :
  state (task s) = PendingAck h key started → active_client (task s) = None →
  returns (fst (cancel_pending key (ic s))) →
  ((clock (readings s) - started < PENDING_ACK_TIMEOUT)%Z →
     ∃ s', on_pending_tick clock s = (Ok tt, s') ∧ task s' = task s ∧ ic s' = ic s ∧
       sent s' = sent s) ∧
  ((PENDING_ACK_TIMEOUT ≤ clock (readings s) - started)%Z →
     ∃ s', on_pending_tick clock s = (Ok tt, s') ∧ state (task s') = Idle ∧ sent s' = sent s ∧
       ic s' = snd (cancel_pending key (ic s)) ∧
       ∀ h' n, ∃ s'', recv h' (ProtoEvent.Ack n) s' = (Ok tt, s'') ∧
         state (task s'') = Idle ∧ active_client (task s'') = None ∧ ic s'' = ic s' ∧
         sent s'' = sent s').
Proof.
  intros Hs Ha Hc. unfold on_pending_tick. run. rewrite Hs. split; intros Ht.
  - replace (PENDING_ACK_TIMEOUT <=? clock (readings s) - started)%Z with false
      by (symmetry; apply Z.leb_gt; done).
    eexists. split; [done|]. done.
  - replace (PENDING_ACK_TIMEOUT <=? clock (readings s) - started)%Z with true
      by (symmetry; apply Z.leb_le; done).
    cbn [ic task readings sent events dials].
    destruct (cancel_pending key (ic s)) as [[[]|e| |] c] eqn:E; try done.
    all: eexists; split; [done|]; split_and!; [done|done|done|].
    all: intros h' n; unfold on_recv; run; cbn; rewrite Ha; cbn.
    all: unfold on_ack; run; cbn; rewrite Ha; cbn; eexists; split; [done|].
    all: cbn; by rewrite Ha.
Qed.

(** The state machine invariant: whatever the session picks, it is never
    [Sending] without an active client, so the light watchdog that repairs
    this state never has anything to do. *)
Theorem sending_has_client s arms :
  active_ok s →
  let s' := snd (do_capture_session send_ok clock held_order arms s) in
  (state (task s') = Sending → is_Some (active_client (task s'))) ∧
  run_watchdog_light clock s' = (Ok tt, s').
Proof.
  intros Hs. cbn zeta. pose proof (P_session send_ok clock held_order arms s Hs) as Hp.
  split; [exact Hp|by apply light_noop].
Qed.

(** Releasing.  At rest, nothing is sent and the backend is not disturbed.
    While waiting for an Ack, nothing is sent.  With an active client, that
    client gets a key-up for every key that is still held, neutral modifiers
    and a Leave, in this order and whatever the sends answer; then the task is
    at rest without a client, and no key counts as held. *)
Theorem release_spec s :
  (state (task s) = Idle → active_client (task s) = None →
     let r := release_capture send_ok clock held_order s in
     fst r = Ok tt ∧ sent (snd r) = sent s ∧ ic (snd r) = ic s ∧ state (task (snd r)) = Idle) ∧
  (∀ h key t, state (task s) = PendingAck h key t →
     (∀ c, returns (fst (cancel_pending key c))) → (∀ c, returns (fst (release c))) →
     let r := release_capture send_ok clock held_order s in
     returns (fst r) ∧ sent (snd r) = sent s ∧ state (task (snd r)) = Idle ∧
     active_client (task (snd r)) = active_client (task s) ∧ pressed_keys (ic (snd r)) = ∅) ∧
  (∀ h, active_client (task s) = Some h → (∀ h' k t, state (task s) ≠ PendingAck h' k t) →
     let r := release_capture send_ok clock held_order s in
     let held := held_order (pressed_keys (ic s)) in
     sent (snd r) = sent s ++
       send_log send_ok (length (sent s))
         ((key_up <$> held) ++ [mods_zero; ProtoEvent.Leave 0]) h ∧
     state (task (snd r)) = Idle ∧ active_client (task (snd r)) = None ∧
     pressed_keys (ic (snd r)) = ∅).
Proof.
  assert (∀ c : InputCapture B, pressed_keys (snd (release c)) = ∅) as Hk.
  { intros c. unfold release, mbind, ST_bind, modify_st.
    apply (backend_maps bk_release (set_pressed ∅ c)). }
  split_and!.
  - intros Hs Ha. cbn zeta. by rewrite release_skip.
  - intros h key t Hs Hc Hr. cbn zeta.
    rewrite (release_pending send_ok clock held_order s h key t Hs (Hc _) (Hr _)).
    split_and!; [apply Hr|done|done|done|apply Hk].
  - intros h Ha Hn. cbn zeta. rewrite (release_active _ _ _ _ h Ha Hn).
    pose proof (Hk (set_pressed ∅ (ic s))) as Hk'. unfold farewell.
    destruct (release (set_pressed ∅ (ic s))) as [[[]|e| |] c]; by split_and!.
Qed.

(** C36. Self-healing.  A session that is not at rest and saw no progress for
    longer than the timeout is back at rest after the next heavy watchdog
    tick, whatever the peer does; the tick sends at most the farewell. *)
Theorem watchdog_recovers s :
  active_ok s → no_progress_check (watchdog_config (task s)) = true →
  state (task s) ≠ Idle →
  (no_progress_timeout (watchdog_config (task s)) <
     clock (readings s) - last_progress_at (watchdog (task s)))%Z →
  (∀ key c, returns (fst (cancel_pending (B := B) key c))) →
  (∀ c : InputCapture B, returns (fst (release c))) →
  let r := run_watchdog_heavy send_ok clock held_order s in
  fst r = Ok tt ∧ state (task (snd r)) = Idle.
Proof.
  intros Hok Hcfg Hst Ht Hc Hr. cbn zeta.
  assert (∀ s1, task s1 = set_watchdog (watchdog (task s1)) (task s) →
    ∃ r s', attempt (release_capture send_ok clock held_order) s1 = (Ok r, s') ∧
      state (task s') = Idle) as Hrel.
  { intros s1 Hs1. unfold attempt.
    destruct (state (task s)) as [|h key t|] eqn:Es; [done| |].
    - rewrite (release_pending send_ok clock held_order s1 h key t)
        by (try apply Hc; try apply Hr; by rewrite Hs1).
      specialize (Hr (snd (cancel_pending key (ic s1)))).
      destruct (release _) as [[[]|e| |] c]; try done; cbn; eauto.
    - destruct (Hok Es) as [h Ha].
      rewrite (release_active send_ok clock held_order s1 h) by (rewrite Hs1; cbn; congruence).
      specialize (Hr (set_pressed ∅ (ic s1))).
      destruct (release _) as [[[]|e| |] c]; try done; cbn; eauto. }
  unfold run_watchdog_heavy, now, wd, upd, the, gets, modify_st, when, mbind, ST_bind.
  cbn [mret ST_ret fst snd task on_task].
  set (cfg := watchdog_config (task s)) in *. unfold is_idle.
  replace (match state (task s) with Idle => true | _ => false end) with false
    by (by destruct (state (task s))).
  destruct (crossing_storm_check cfg); cbn.
  all: rewrite ?andb_false_r; cbn.
  all: replace (match state (task s) with Idle => true | _ => false end) with false
    by (by destruct (state (task s))); rewrite ?andb_false_r; cbn.
  all: match goal with |- context [if ?b then _ else _] => destruct b eqn:Eb end.
  all: rewrite ?Hcfg; cbn.
  all: rewrite ?(proj2 (Z.ltb_lt _ _) Ht).
  all: match goal with |- context [attempt (release_capture _ _ _) ?s1] =>
         destruct (Hrel s1) as (r & s' & E & Hi); [by destruct s as [[] ? ? ? ? ?]|] end.
  all: rewrite E; done.
Qed.
End properties.

Lemma find_removed h (l : list (CaptureHandle * BarrierKey * CaptureType)) :
  Geometry.find (λ e, bool_decide (fst (fst e) = h)) (filter (λ e, fst (fst e) ≠ h) l) = None.
Proof.
  destruct (Geometry.find _ _) as [e|] eqn:Ef; [|done]. exfalso.
  apply find_Some in Ef as (i & Hi & He & _). apply bool_decide_eq_true in He.
  apply list_elem_of_lookup_2, list_elem_of_filter in Hi as [Hi _]. done.
Qed.

Lemma destroy_turn {B} `{Capture B} send_ok clock held_order h (s : CState B) :
  session_turn send_ok clock held_order (RequestRecv (Destroy h)) s =
    let '(r, c) := destroy h (ic s) in
    ((λ _, true) <$> r,
     mkC (set_captures (filter (λ e, fst (fst e) ≠ h) (captures (task s))) (task s)) c
       (readings s) (sent s) (events s) (dials s)).
Proof.
  unfold session_turn, on_request, remove_capture. run. cbn [on_task ic].
  by destruct (destroy h (ic s)) as [[[]|e| |] c].
Qed.

(** Removing a client does not purge the fan-out queue of the multiplexer:
    when an event for it is still queued, the next poll delivers the event to
    the task, which does not know the client any more, and the task panics. *)
Theorem destroyed_client_in_queue {B} `{Capture B} send_ok clock held_order (s : CState B)
    h key ev q :
  registered (ic s) → id_map (ic s) !! h = Some key → pending (ic s) = (h, ev) :: q →
  chord_held s = false → fst (bk_destroy key (capture (ic s))) = Ok tt →
  let s1 := snd (session_turn send_ok clock held_order (RequestRecv (Destroy h)) s) in
  fst (session_turn send_ok clock held_order (RequestRecv (Destroy h)) s) = Ok true ∧
  fst (session_turn send_ok clock held_order CaptureNext s1) = Panic.
Proof.
  intros Hreg Hid Hq Hch Hbk. cbn zeta. rewrite destroy_turn, (destroy_known h key) by done.
  set (t := set_captures (filter (λ e, fst (fst e) ≠ h) (captures (task s))) (task s)).
  assert (∀ c, pending c = (h, ev) :: q → pressed_keys c = pressed_keys (ic s) →
    fst (session_turn send_ok clock held_order CaptureNext
           (mkC t c (readings s) (sent s) (events s) (dials s))) = Panic) as Hnext.
  { intros c Hp Hk. unfold session_turn, on_capture_ready, mbind at 1, ST_bind at 1. cbn.
    unfold poll_next. rewrite Hp. unfold mbind, ST_bind.
    match goal with |- context [handle_capture_event _ _ _ h ev ?s1] =>
      pose proof (handle_unknown send_ok clock held_order h ev s1) as Hu end.
    match type of Hu with _ → ?P → _ => assert P as Hch' end.
    { unfold chord_held, keys_pressed in *. cbn. by rewrite Hk. }
    specialize (Hu (find_removed h _) Hch').
    destruct (handle_capture_event _ _ _ h ev _) as [r s']. cbn in Hu. by subst r. }
  case_decide.
  - unfold backend. destruct (bk_destroy key (capture (destroy_maps h key (ic s)))) as [r b] eqn:E.
    change (capture (destroy_maps h key (ic s))) with (capture (ic s)) in E.
    rewrite E in Hbk. cbn in Hbk. subst r. split; [done|]. by apply Hnext.
  - split; [done|]. by apply Hnext.
Qed.

(** * Witnesses *)

Definition demo_key : BarrierKey := from_pos Edge.Right.
Definition demo_task (st : State) (active : option CaptureHandle) : CaptureTask :=
  mkTask active [(0%N, demo_key, Default)] [Linux.KeyLeftCtrl] st false (mkWatchdog 0 [] 0)
    default_watchdog [].
Definition demo (st : State) (active : option CaptureHandle) : CState ScriptBackend :=
  mkC (demo_task st active)
    (mkIC (mkScript {[demo_key]} 0 []) ∅ {[demo_key := [0%N]]} {[0%N := demo_key]} [])
    0 [] [] [].
Definition demo_clock (n : nat) : Z := 9 * 1000000000.
Definition demo_send (n : nat) : bool := true.

Lemma handshake_witness : ∃ s : CState ScriptBackend,
  sent s = [(ProtoEvent.Enter Pos.Left, 0%N, true); (ProtoEvent.Input (Pointer (AxisDiscrete120 0 120)), 0%N, true)].
Proof.
  destruct (handshake demo_send demo_clock elements (demo Idle None) 0%N demo_key
    (Pointer (AxisDiscrete120 0 120)) 0)
    as (s1 & s2 & s3 & s4 & _ & _ & _ & _ & _ & _ & _ & Hs & _); try done.
  exists s4. by rewrite Hs.
Defined.

Lemma pending_timeout_witness :
  ∃ s', on_pending_tick demo_clock (demo (PendingAck 0 demo_key 0) None) = (Ok tt, s') ∧
    state (task s') = Idle.
Proof.
  edestruct (pending_timeout demo_send demo_clock elements (demo (PendingAck 0 demo_key 0) None)
    0%N demo_key 0) as [_ H]; [done|done|done|].
  destruct H as (s' & E & Hs & _); [by vm_compute|]. by exists s'.
Defined.

Lemma sending_has_client_witness :
  run_watchdog_light demo_clock (snd (do_capture_session demo_send demo_clock elements
    [RequestRecv Release; HeavyTick] (demo Sending (Some 0%N)))) =
  (Ok tt, snd (do_capture_session demo_send demo_clock elements
    [RequestRecv Release; HeavyTick] (demo Sending (Some 0%N)))).
Proof.
  apply (sending_has_client demo_send demo_clock elements (demo Sending (Some 0%N))
    [RequestRecv Release; HeavyTick]). intros _. by eexists.
Defined.

Lemma release_spec_witness :
  sent (snd (release_capture demo_send demo_clock elements (demo Sending (Some 0%N)))) =
  [(mods_zero, 0%N, true); (ProtoEvent.Leave 0, 0%N, true)].
Proof.
  destruct (release_spec demo_send demo_clock elements (demo Sending (Some 0%N)))
    as (_ & _ & H).
  destruct (H 0%N eq_refl) as (Hs & _); [done|]. by rewrite Hs.
Defined.

Lemma watchdog_recovers_witness :
  state (task (snd (run_watchdog_heavy demo_send demo_clock elements (demo Sending (Some 0%N)))))
  = Idle.
Proof.
  apply (watchdog_recovers demo_send demo_clock elements (demo Sending (Some 0%N)));
    try done. intros _. by eexists.
Defined.

Lemma destroyed_client_in_queue_witness :
  let s := mkC (demo_task Sending (Some 0%N))
    (mkIC (mkScript {[demo_key]} 0 []) ∅ {[demo_key := [0%N]]} {[0%N := demo_key]} [(0%N, Begin)])
    0 [] [] [] in
  fst (session_turn demo_send demo_clock elements CaptureNext
    (snd (session_turn demo_send demo_clock elements (RequestRecv (Destroy 0)) s))) = Panic.
Proof.
  cbn zeta. set (s := mkC _ _ _ _ _ _).
  apply (destroyed_client_in_queue demo_send demo_clock elements s 0%N demo_key Begin []);
    try done.
  subst s. split; cbn [ic id_map position_map].
  - intros i k. destruct (decide (k = demo_key)) as [->|Hk].
    + rewrite (lookup_singleton_eq demo_key). cbn [from_option id]. rewrite list_elem_of_singleton.
      destruct (decide (i = 0%N)) as [->|Hi]; [by rewrite lookup_singleton_eq|].
      rewrite lookup_singleton_ne by done. by split.
    + rewrite (lookup_singleton_ne demo_key) by done. cbn [from_option id]. rewrite elem_of_nil.
      destruct (decide (i = 0%N)) as [->|Hi];
        [rewrite lookup_singleton_eq|rewrite lookup_singleton_ne by done]; naive_solver.
  - intros k v [_ <-]%lookup_singleton_Some. done.
  - intros k v [_ <-]%lookup_singleton_Some. apply NoDup_singleton.
Defined.
