(* ===== verification/KeyBalance.v ===== *)
(** The keys that the capture task leaves down at a client: over any run of the
    capture task, a key whose press was sent is one of the tracked keys, so that
    a release sends its key-up. *)

From S2P Require Import Prelude InputEvent Proto Geometry Scancode InputCapture CaptureTask.

(** * Keys that a sequence of events leaves down *)

Definition key_step (keys : gset Z) (e : Event) : gset Z :=
  match e with
  | Keyboard (Key _ key state) => if (state =? 0)%Z then keys ∖ {[key]} else {[key]} ∪ keys
  | _ => keys
  end.
Definition down (es : list Event) : gset Z := foldl key_step ∅ es.
Definition input_of (e : ProtoEvent) : option Event := match e with ProtoEvent.Input e => Some e | _ => None end.
Definition inputs_of (es : list ProtoEvent) : list Event := omap input_of es.

Lemma down_app es es' : down (es ++ es') = foldl key_step (down es) es'.
Proof. apply foldl_app. Qed.
Lemma inputs_app es es' : inputs_of (es ++ es') = inputs_of es ++ inputs_of es'.
Proof. apply omap_app. Qed.
Lemma key_step_mono keys keys' e : keys ⊆ keys' → key_step keys e ⊆ key_step keys' e.
Proof. destruct e as [|[t k v|]]; cbn; [done| |done]. destruct (v =? 0)%Z; set_solver. Qed.
Lemma down_ups keys ks : foldl key_step keys ((λ k, Keyboard (Key 0 (Linux.to_u32 k) 0)) <$> ks) = keys ∖ list_to_set (Linux.to_u32 <$> ks).
Proof. revert keys. induction ks as [|k ks IH]; intros keys; cbn; [set_solver|]. rewrite IH. cbn. set_solver. Qed.

(** * The sending side *)

Section sender.
Context {B : Type} `{Capture B}.
Variable send_ok : nat → bool.
Variable clock : nat → Z.
Variable held_order : gset Linux.Linux → list Linux.Linux.
Hypothesis Hsend : ∀ n, send_ok n = true.
Hypothesis Horder : ∀ ks, held_order ks ≡ₚ elements ks.
Variable h : CaptureHandle.
Variable key : BarrierKey.
Implicit Types (s : CState B).

(** What was sent to the client, and the keys that it leaves down there. *)
Definition sent_to (s : CState B) : list ProtoEvent :=
  omap (λ '(e, h', ok), if bool_decide (h' = h) && ok then Some e else None) (sent s).
Definition keys_left (s : CState B) : gset Z := down (inputs_of (sent_to s)).
Definition tracked (s : CState B) : gset Z := set_map Linux.to_u32 (pressed_keys (ic s)).

(** [h] is the one capture, and the multiplexer knows it at its barrier. *)
Definition alone (s : CState B) : Prop :=
  captures (task s) = [(h, key, Default)] ∧ position_map (ic s) = {[key := [h]]} ∧ pending (ic s) = [].
Definition at_rest (s : CState B) : Prop :=
  alone s ∧ active_client (task s) = None ∧ state (task s) ≠ Sending ∧ keys_left s = ∅.
Definition in_use (s : CState B) : Prop :=
  alone s ∧ active_client (task s) = Some h ∧ state (task s) = Sending ∧ keys_left s ⊆ tracked s.
Definition balanced (s : CState B) : Prop := at_rest s ∨ (in_use s ∧ chord_held s = false).

(** What the backend may hand out next: events of the barrier, no new crossing
    while the client is in use, and keys that the tracking knows, pressed or
    released. *)
Definition good_event (st : State) (ev : CaptureEvent) : Prop :=
  match ev with
  | BeginPending => st ≠ Sending
  | Input (Keyboard (Key _ k v)) => is_Some (Linux.try_from_u32 k) ∧ (v = 0 ∨ v = 1)%Z
  | _ => True
  end.
Definition permitted (a : arm) (s : CState B) : Prop :=
  match a with
  | CaptureNext => ∀ k ev b, bk_poll (capture (ic s)) = (Ready (Some (Ok (k, ev))), b) → k = key ∧ good_event (state (task s)) ev
  | RequestRecv (Create _ _ _) | RequestRecv (Destroy _) => False
  | RequestRecv (SetReleaseBind bind) => active_client (task s) = None ∨ keys_pressed bind (ic s) = false
  | RequestRecv (SendClip e _) => input_of e = None
  | _ => True
  end.

(** ** What does not touch the keys *)

Lemma sent_to_app s s' l : sent s' = sent s ++ l →
  sent_to s' = sent_to s ++ omap (λ '(e, h', ok), if bool_decide (h' = h) && ok then Some e else None) l.
Proof. intros E. unfold sent_to. by rewrite E, omap_app. Qed.
(** Only what is sent to [h], and an input, counts. *)
Lemma keys_left_send s s' e h' : sent s' = sent s ++ [(e, h', true)] →
  keys_left s' = match input_of e with Some i => if decide (h' = h) then key_step (keys_left s) i else keys_left s | None => keys_left s end.
Proof.
  intros E. unfold keys_left. rewrite (sent_to_app _ _ _ E), inputs_app, down_app. cbn.
  case_bool_decide; cbn; destruct (input_of e); cbn; try done; by case_decide.
Qed.

(** A call that leaves the multiplexer's tables, and one that leaves the tracked
    keys as well. *)
Definition keeps_tables {A} (m : ST (InputCapture B) CaptureError A) : Prop :=
  ∀ c, position_map (snd (m c)) = position_map c ∧ pending (snd (m c)) = pending c.
Definition keeps_pressed {A} (m : ST (InputCapture B) CaptureError A) : Prop :=
  ∀ c, pressed_keys (snd (m c)) = pressed_keys c.
Lemma backend_tables {A} (m : ST B CaptureError A) : keeps_tables (backend m) ∧ keeps_pressed (backend m).
Proof. split; intros c; pose proof (backend_maps m c); naive_solver. Qed.
Lemma release_tables : keeps_tables release.
Proof. intros c. unfold release, mbind, ST_bind, modify_st. apply (proj1 (backend_tables bk_release) (set_pressed ∅ c)). Qed.

(** *** At rest *)

Abbreviation R := (preserves (E := CaptureError) at_rest).
Lemma R_upd f : (∀ t, captures (f t) = captures t ∧ active_client (f t) = active_client t ∧ (state (f t) = Sending → state t = Sending)) →
  R (upd (B := B) f).
Proof.
  intros Hf s (Ha & Hn & Hs & Hk). destruct (Hf (task s)) as (E1 & E2 & E3). split_and!.
  - unfold alone in *. cbn. by rewrite E1.
  - cbn. by rewrite E2.
  - cbn. auto.
  - done.
Qed.
Lemma R_call {A} (m : ST (InputCapture B) CaptureError A) : keeps_tables m → R (call m).
Proof.
  intros Hm s (Ha & Hn & Hs & Hk). unfold call. destruct (Hm (ic s)) as [E1 E2]. destruct (m (ic s)) as [r c]. cbn in *.
  split_and!; try done. unfold alone in *. cbn. by rewrite E1, E2.
Qed.
Lemma R_now : R (now (B := B) clock).
Proof. by intros s Hs. Qed.
Lemma R_emit e : R (emit (B := B) e).
Proof. by intros s Hs. Qed.
Lemma R_send e h' : input_of e = None → R (send (B := B) send_ok e h').
Proof.
  intros He s (Ha & Hn & Hs & Hk). rewrite send_eq. cbn [snd]. split_and!; try done.
  rewrite (keys_left_send s _ e h') by (cbn; by rewrite Hsend). by rewrite He.
Qed.
Lemma R_wd f : R (wd (B := B) f).
Proof. by apply R_upd. Qed.
Lemma R_idle : R (upd (B := B) (set_state Idle)).
Proof. by apply R_upd. Qed.
Lemma R_pending h' k t : R (upd (B := B) (set_state (PendingAck h' k t))).
Proof. by apply R_upd. Qed.
Lemma R_find h' : R (find_capture (B := B) h').
Proof. intros s Hs. unfold find_capture, the, gets, mbind, ST_bind. by case_match. Qed.
Lemma R_cancel k : R (call (cancel_pending (B := B) k)).
Proof. apply R_call. apply backend_tables. Qed.
Lemma R_start k : R (call (start_capture (B := B) k)).
Proof. apply R_call. apply backend_tables. Qed.
Lemma R_call_release : R (call (release (B := B))).
Proof. apply R_call, release_tables. Qed.
#[local] Hint Resolve R_now R_emit R_wd R_idle R_pending R_find R_cancel R_start R_call_release : pres.
Lemma R_progress : R (progress (B := B) clock).
Proof. unfold progress. pres. Qed.
Lemma R_reset : R (reset_watchdog (B := B) clock).
Proof. unfold reset_watchdog. pres. Qed.
#[local] Hint Resolve R_progress R_reset : pres.

(** *** Releasing *)

Definition loose (s : CState B) : Prop := at_rest s ∨ in_use s.
Lemma balanced_loose s : balanced s → loose s.
Proof. intros [Hr|[Hu _]]; [by left|by right]. Qed.

Lemma farewell_keys ks : inputs_of (farewell ks) = ((λ k, Keyboard (Key 0 (Linux.to_u32 k) 0)) <$> ks) ++ [Keyboard (Modifiers 0 0 0 0)].
Proof. unfold farewell. rewrite inputs_app. f_equal. induction ks as [|k ks IH]; [done|]. cbn. by f_equal. Qed.
Lemma log_sends_left evs s : keys_left (log_sends send_ok evs h s) = foldl key_step (keys_left s) (inputs_of evs).
Proof.
  unfold keys_left. rewrite (sent_to_app s _ (send_log send_ok (length (sent s)) evs h)) by done. rewrite inputs_app, down_app. f_equal. f_equal.
  generalize (length (sent s)). induction evs as [|e evs IH]; intros n; [done|]. cbn. rewrite Hsend, bool_decide_true by done. cbn. f_equal. apply IH.
Qed.
(** A release sends the key-up of every key that is down. *)
Lemma farewell_left s : keys_left s ⊆ tracked s → keys_left (log_sends send_ok (farewell (held_order (pressed_keys (ic s)))) h s) = ∅.
Proof.
  intros Hk. rewrite log_sends_left, farewell_keys, foldl_app, down_ups. cbn. apply set_eq. intros k. split; [|set_solver].
  intros [Hin Hn]%elem_of_difference. destruct Hn. apply Hk in Hin. unfold tracked in Hin. apply elem_of_map in Hin as (l & -> & Hl).
  apply elem_of_list_to_set, list_elem_of_fmap. exists l. split; [done|]. by rewrite Horder, elem_of_elements.
Qed.
Lemma release_rests s : loose s → at_rest (snd (release_capture send_ok clock held_order s)).
Proof.
  intros [Hr|(Ha & Hh & Hs & Hk)].
  - pose proof Hr as (_ & Hn & Hs & _). destruct (state (task s)) as [|h' k t|] eqn:Es; [|clear Hs|done].
    + rewrite release_skip by done. destruct Hr as (Ha & _ & _ & Hk). by split_and!.
    + assert (R (release_pending_path clock k)) as Hp by (unfold release_pending_path, release_backend; pres).
      unfold release_capture, the, gets, mbind at 1 2, ST_bind. rewrite Es, Hn. cbn [should_skip_release]. by apply Hp.
  - rewrite (release_active send_ok clock held_order s h Hh) by (rewrite Hs; done).
    set (c := release (set_pressed ∅ (ic s))). destruct (release_tables (set_pressed ∅ (ic s))) as [E1 E2]. fold c in E1, E2.
    assert (∀ t n, captures t = captures (task s) → active_client t = None → state t ≠ Sending →
      at_rest (mkC t (snd c) n (sent (log_sends send_ok (farewell (held_order (pressed_keys (ic s)))) h s)) (events s) (dials s))) as Hx.
    { intros t n H1 H2 H3. split_and!; [|done|done|by apply farewell_left]. destruct Ha as (A1 & A2 & A3). split_and!; cbn; [by rewrite H1|by rewrite E1|by rewrite E2]. }
    destruct (fst c); cbn [snd]; by apply Hx.
Qed.

(** ** The arms of the session *)

Abbreviation Q := (preserves (E := CaptureError) balanced).
Lemma rest_balanced s : at_rest s → balanced s.
Proof. by left. Qed.
Lemma Q_same {A} (m : ST (CState B) CaptureError A) :
  (∀ s, let t := task (snd (m s)) in captures t = captures (task s) ∧ active_client t = active_client (task s) ∧
     state t = state (task s) ∧ release_bind t = release_bind (task s) ∧ keys_left (snd (m s)) = keys_left s ∧
     let c := ic (snd (m s)) in position_map c = position_map (ic s) ∧ pending c = pending (ic s) ∧ pressed_keys c = pressed_keys (ic s)) →
  Q m.
Proof.
  intros Hm s. destruct (Hm s) as (E1 & E2 & E3 & E4 & E5 & E6 & E7 & E8).
  unfold balanced, at_rest, in_use, alone, chord_held, tracked, keys_pressed. by rewrite E1, E2, E3, E4, E5, E6, E7, E8.
Qed.
Lemma Q_upd f : (∀ t, captures (f t) = captures t ∧ active_client (f t) = active_client t ∧ state (f t) = state t ∧ release_bind (f t) = release_bind t) →
  Q (upd (B := B) f).
Proof. intros Hf. apply Q_same. intros s. cbn. destruct (Hf (task s)) as (-> & -> & -> & ->). done. Qed.
Lemma Q_call {A} (m : ST (InputCapture B) CaptureError A) : keeps_tables m → keeps_pressed m → Q (call m).
Proof.
  intros Ht Hp. apply Q_same. intros s. unfold call. destruct (Ht (ic s)) as [E1 E2]. specialize (Hp (ic s)).
  by destruct (m (ic s)) as [r c].
Qed.
Lemma Q_now : Q (now (B := B) clock). Proof. by apply Q_same. Qed.
Lemma Q_emit e : Q (emit (B := B) e). Proof. by apply Q_same. Qed.
Lemma Q_wd f : Q (wd (B := B) f). Proof. by apply Q_upd. Qed.
Lemma Q_monitors l : Q (upd (B := B) (set_last_monitors l)). Proof. by apply Q_upd. Qed.
Lemma Q_cancel k : Q (call (cancel_pending (B := B) k)).
Proof. apply Q_call; apply backend_tables. Qed.
Lemma Q_send e h' : input_of e = None → Q (send (B := B) send_ok e h').
Proof.
  intros He. apply Q_same. intros s. rewrite send_eq. cbn [snd]. split_and!; try done.
  rewrite (keys_left_send s (log_sends send_ok [e] h' s) e h') by (cbn; by rewrite Hsend). by rewrite He.
Qed.
Lemma Q_release : Q (release_capture send_ok clock held_order).
Proof. intros s Hs. apply rest_balanced, release_rests, balanced_loose, Hs. Qed.
#[local] Hint Resolve Q_now Q_emit Q_wd Q_monitors Q_cancel Q_release : pres.
Lemma Q_progress : Q (progress (B := B) clock).
Proof. unfold progress. pres. Qed.
#[local] Hint Resolve Q_progress : pres.

Lemma not_in_use s : balanced s → state (task s) ≠ Sending → at_rest s.
Proof. intros [Hr|[(_ & _ & Hs & _) _]]; done. Qed.
Lemma Q_on_ack h' : Q (on_ack (B := B) h').
Proof.
  intros s Hs. unfold on_ack, the, gets, mbind, ST_bind. destruct (state (task s)) as [|h'' k t|] eqn:Es.
  - destruct (not_in_use s Hs) as (Ha & -> & _); [by rewrite Es|]. done.
  - apply rest_balanced. assert (R (when (bool_decide (h'' = h')) (promote (B := B) k))) as Hp.
    { unfold promote. pres. }
    apply Hp, not_in_use; [done|by rewrite Es].
  - destruct Hs as [(_ & _ & Hs & _)|[(Ha & Hh & Hst & Hk) Hc]]; [congruence|]. rewrite Hh. right. by split.
Qed.
#[local] Hint Resolve Q_on_ack : pres.
Lemma Q_on_recv h' ev : Q (on_recv send_ok clock held_order h' ev).
Proof. unfold on_recv, the. pres. Qed.
Lemma Q_on_request r s : balanced s → permitted (RequestRecv r) s → balanced (snd (on_request send_ok clock held_order r s)).
Proof.
  intros Hs Hp. destruct r as [|k ty|h'| |bind|h'|e h']; cbn [on_request]; try done.
  - by apply Q_release.
  - cbn in Hp. destruct Hs as [Hr|[(Ha & Hh & Hst & Hk) Hc]]; [by left|]. right. destruct Hp as [Hn|Hb]; [congruence|]. by split.
  - eapply (preserves_bind balanced); [by apply Q_send|intros; apply preserves_ret|done].
Qed.
Lemma Q_tick : Q (on_pending_tick (B := B) clock).
Proof.
  intros s Hs. unfold on_pending_tick, the, gets. unfold mbind at 1, ST_bind at 1.
  destruct (state (task s)) as [|h' k t|] eqn:Es; [done| |done]. apply rest_balanced.
  assert (R (t0 ← now clock; when (PENDING_ACK_TIMEOUT <=? t0 - t)%Z (attempt (call (cancel_pending (B := B) k)) ≫= λ _, upd (set_state Idle)))) as Hp by pres.
  apply Hp, not_in_use; [done|by rewrite Es].
Qed.
Lemma Q_heavy : Q (run_watchdog_heavy send_ok clock held_order).
Proof. unfold run_watchdog_heavy, the. pres. Qed.
Lemma Q_light s : balanced s → balanced (snd (run_watchdog_light clock s)).
Proof.
  intros Hs. rewrite light_noop; [done|]. intros Hst. destruct Hs as [(_ & _ & Hn & _)|[(_ & -> & _) _]]; [done|]. by eexists.
Qed.

(** ** What the backend hands out *)

(** The keys of the tracking after an event. *)
Lemma track_key t k v (c : InputCapture B) (b : B) : is_Some (Linux.try_from_u32 k) → (v = 0 ∨ v = 1)%Z →
  set_map (D := gset Z) Linux.to_u32 (pressed_keys (track (Input (Keyboard (Key t k v))) (set_capture b c))) =
    key_step (set_map Linux.to_u32 (pressed_keys c)) (Keyboard (Key t k v)).
Proof.
  intros [l Hl] Hv. cbn. unfold update_pressed. rewrite Hl. apply Linux.try_from_Some in Hl as ->.
  destruct Hv as [->| ->]; cbn.
  - apply set_eq. intros x. rewrite elem_of_map, elem_of_difference, elem_of_map, elem_of_singleton. split.
    + intros (y & -> & [Hy Hn]%elem_of_difference). split; [by exists y|]. intros E%Linux.to_u32_inj. subst. by destruct Hn; apply elem_of_singleton.
    + intros [(y & -> & Hy) Hn]. exists y. split; [done|]. apply elem_of_difference. split; [done|]. intros ->%elem_of_singleton. done.
  - by rewrite set_map_union_L, set_map_singleton_L.
Qed.
Lemma track_other ev (c : InputCapture B) (b : B) : (∀ t k v, ev ≠ Input (Keyboard (Key t k v))) →
  track ev (set_capture b c) = set_capture b c.
Proof. intros Hn. destruct ev as [| | |[|[t k v|]]]; try done. by destruct (Hn t k v). Qed.

(** The state in which the event is handled. *)
Definition polled (ev : CaptureEvent) (b : B) (s : CState B) : CState B :=
  mkC (task s) (track ev (set_capture b (ic s))) (readings s) (sent s) (events s) (dials s).
Lemma polled_alone ev b s : alone s → alone (polled ev b s).
Proof. intros (H1 & H2 & H3). unfold alone, polled. cbn. destruct ev as [| | |[|[]]]; done. Qed.
Lemma polled_left ev b s : keys_left (polled ev b s) = keys_left s.
Proof. done. Qed.

Lemma capture_ready s : alone s → on_capture_ready send_ok clock held_order s =
  match bk_poll (capture (ic s)) with
  | (Ready (Some (Ok (k, ev))), b) =>
      if decide (k = key) then (handle_capture_event send_ok clock held_order h ev ≫= λ _, mret true) (polled ev b s)
      else (Ok true, polled ev b s)
  | (Ready (Some (Err e)), b) => (Err e, mkC (task s) (set_capture b (ic s)) (readings s) (sent s) (events s) (dials s))
  | (Ready (Some Panic), b) => (Panic, mkC (task s) (set_capture b (ic s)) (readings s) (sent s) (events s) (dials s))
  | (Ready (Some Diverge), b) => (Diverge, mkC (task s) (set_capture b (ic s)) (readings s) (sent s) (events s) (dials s))
  | (Ready None, b) => (Ok false, mkC (task s) (set_capture b (ic s)) (readings s) (sent s) (events s) (dials s))
  | (InputCapture.Pending, b) => (Ok true, mkC (task s) (set_capture b (ic s)) (readings s) (sent s) (events s) (dials s))
  end.
Proof.
  intros (H1 & H2 & H3). unfold on_capture_ready, poll_next. unfold mbind at 1, ST_bind at 1. rewrite H3.
  destruct (bk_poll (capture (ic s))) as [[[[[k ev]|e| |]|]|] b]; try done.
  assert (pending (track ev (set_capture b (ic s))) = []) as Hp by (by destruct ev as [| | |[|[]]]).
  assert (subscribers k (track ev (set_capture b (ic s))) = if decide (k = key) then [h] else []) as ->.
  { unfold subscribers. replace (position_map _) with (position_map (ic s)) by (by destruct ev as [| | |[|[]]]). rewrite H2.
    case_decide as Hk; [subst; by rewrite lookup_singleton_eq|by rewrite lookup_singleton_ne]. }
  case_decide; [|done]. unfold polled. rewrite Hp. cbn. unfold mbind, ST_bind. f_equal.
  replace (set_pending [] (track ev (set_capture b (ic s)))) with (track ev (set_capture b (ic s))); [done|].
  unfold set_pending. rewrite <- Hp. by destruct (track ev _).
Qed.

Lemma chord_subset bind (c c' : InputCapture B) : pressed_keys c' ⊆ pressed_keys c → keys_pressed bind c = false → keys_pressed bind c' = false.
Proof.
  intros Hs. unfold keys_pressed. rewrite <- !not_true_iff_false, !forallb_forall. intros Hn Hc. apply Hn. intros k Hk.
  specialize (Hc k Hk). apply bool_decide_eq_true in Hc. apply bool_decide_eq_true. set_solver.
Qed.
(** A release that completes the chord is impossible, so the tracking is never
    behind when the client is released. *)
Lemma polled_loose ev b s : balanced s → good_event (state (task s)) ev → chord_held (polled ev b s) = true → loose (polled ev b s).
Proof.
  intros [(Ha & Hr)|[(Ha & Hh & Hst & Hk) Hc]] Hg Hch; [left; split; [by apply polled_alone|done]|].
  right. split_and!; [by apply polled_alone|done|done|]. rewrite polled_left.
  destruct ev as [| | |[p|[t k v|d l lo g]]]; try exact Hk. destruct Hg as [Hl Hv]. unfold tracked, polled. cbn [ic].
  rewrite track_key by done. cbn. destruct Hv as [->| ->]; cbn; [|by set_solver].
  exfalso. unfold chord_held in *. rewrite (chord_subset _ (ic s)) in Hch; [done| |done].
  unfold polled. cbn. unfold update_pressed. destruct (Linux.try_from_u32 k); cbn; [set_solver|done].
Qed.

Lemma alone_registered s : alone s → registered_as s h key Default.
Proof. intros (E & _). unfold registered_as. rewrite E. cbn. by rewrite bool_decide_true. Qed.

Lemma begin_balanced s : alone s → chord_held s = false →
  (active_client (task s) = None ∧ keys_left s = ∅) ∨ (active_client (task s) = Some h ∧ keys_left s ⊆ tracked s) →
  balanced (snd (on_begin send_ok clock h s)).
Proof.
  intros Ha Hc Hact. assert (keys_left s ⊆ tracked s) as Hk by (destruct Hact as [[_ ->]|[_ Hk]]; [set_solver|done]).
  assert (∀ e t n ev d l, input_of e = None → captures t = captures (task s) → release_bind t = release_bind (task s) → state t = Sending → active_client t = Some h →
    l = sent s ∨ l = sent s ++ [(e, h, true)] → balanced (mkC t (ic s) n l ev d)) as Hb.
  { intros e t n ev d l He H1 H2 H3 H4 Hl. right. split; [|unfold chord_held in *; cbn; by rewrite H2]. split_and!; [|done|done|].
    - destruct Ha as (A1 & A2 & A3). split_and!; [by rewrite <- A1|done|done].
    - destruct Hl as [->| ->]; [exact Hk|]. erewrite (keys_left_send s _ e h) by done. by rewrite He. }
  unfold on_begin, the, gets. unfold mbind at 1, ST_bind at 1. cbn zeta.
  destruct (match state (task s) with PendingAck h' _ _ => bool_decide (h' = h) | _ => false end).
  - unfold mbind at 1, ST_bind at 1. rewrite enter_eq. run. unfold on_task. cbn. eapply (Hb (ProtoEvent.Leave 0)); try done; by left.
  - unfold mbind at 1, ST_bind at 1. rewrite enter_eq. run. rewrite (find_capture_eq h key Default); [|by apply (alone_registered s)].
    run. rewrite send_eq. cbn. rewrite Hsend. unfold on_task. cbn. eapply (Hb (enter_event key)); try done; right; by rewrite ?Hsend.
Qed.

Lemma R_begin_pending : R (on_begin_pending send_ok clock h).
Proof.
  unfold on_begin_pending, get_key. pres; try (apply R_send; done).
Qed.
Lemma cancel_balanced s : balanced s → balanced (snd (on_cancel_pending h s)).
Proof.
  intros Hs. pose proof Hs as [Hr|[(Ha & Hh & Hst & Hk) Hc]].
  - apply rest_balanced. revert s Hs Hr. assert (R (on_cancel_pending (B := B) h)) as Hp; [|intros s _; apply Hp].
    unfold on_cancel_pending, get_key, the. pres.
  - unfold on_cancel_pending, get_key, mbind, ST_bind. rewrite (find_capture_eq h key Default) by (by apply alone_registered). cbn.
    pose proof (Q_cancel key s Hs) as Hq. unfold attempt, the, gets.
    assert (task (snd (call (cancel_pending key) s)) = task s) as Et by (unfold call; by destruct (cancel_pending key (ic s))).
    destruct (call (cancel_pending key) s) as [[[]|e| |] s1]; cbn in *; try done; by rewrite Et, Hst.
Qed.
Lemma input_balanced e s : (at_rest s ∨ (alone s ∧ active_client (task s) = Some h ∧ state (task s) = Sending ∧ chord_held s = false ∧
    key_step (keys_left s) e ⊆ tracked s)) → balanced (snd (on_input send_ok clock e h s)).
Proof.
  intros Hs. unfold on_input, the, gets, mbind, ST_bind. destruct Hs as [Hr|(Ha & Hh & Hst & Hc & Hk)].
  - left. pose proof Hr as (_ & _ & Hst & _). by destruct (state (task s)).
  - rewrite Hst, send_eq, Hsend. unfold progress, now, wd, upd, gets, modify_st, mbind, ST_bind, on_task. cbn. rewrite Hsend. right. split; [|done].
    split_and!; [done|done|done|]. erewrite (keys_left_send s _ (ProtoEvent.Input e) h) by done. cbn. rewrite decide_True by done. exact Hk.
Qed.
Lemma event_balanced ev b s : balanced s → good_event (state (task s)) ev →
  balanced (snd (handle_capture_event send_ok clock held_order h ev (polled ev b s))).
Proof.
  intros Hs Hg. destruct (chord_held (polled ev b s)) eqn:Hch.
  - pose proof (polled_loose ev b s Hs Hg Hch) as Hl. unfold handle_capture_event, the, gets, upd, modify_st, mbind, ST_bind.
    unfold chord_held in Hch. rewrite Hch. apply rest_balanced, release_rests. exact Hl.
  - assert (alone (polled ev b s)) as Ha by (apply polled_alone; destruct Hs as [[Ha _]|[[Ha _] _]]; exact Ha).
    rewrite (handle_default send_ok clock held_order h key ev (polled ev b s) (alone_registered _ Ha) Hch).
    set (s2 := dispatch_state h ev (polled ev b s)).
    assert (alone s2) as Ha2 by exact Ha. assert (chord_held s2 = false) as Hc2 by exact Hch.
    assert (at_rest s → at_rest s2) as Hr2 by (intros (_ & Hr); split; [done|exact Hr]).
    destruct ev as [| | |e].
    + apply begin_balanced; [done|done|]. destruct Hs as [(_ & H1 & _ & H2)|[(_ & H1 & _ & H2) _]]; [by left|by right].
    + apply rest_balanced, R_begin_pending, Hr2, not_in_use; done.
    + apply cancel_balanced. destruct Hs as [Hr|[(_ & Hu) _]]; [left; by apply Hr2|right]. split; [|done]. split; [done|exact Hu].
    + apply input_balanced. destruct Hs as [Hr|[(_ & H1 & H2 & H3) _]]; [left; by apply Hr2|right].
      split_and!; [done|exact H1|exact H2|done|]. change (keys_left s2) with (keys_left s).
      destruct e as [p|[t k v|]]; [exact H3| |exact H3]. destruct Hg as [Hl Hv]. unfold tracked, s2, dispatch_state, polled. cbn [ic].
      rewrite track_key by done. by apply key_step_mono.
Qed.
Lemma turn_balanced a s : balanced s → permitted a s → balanced (snd (session_turn send_ok clock held_order a s)).
Proof.
  intros Hs Hp. assert (∀ m : ST (CState B) CaptureError unit, balanced (snd (m s)) → balanced (snd ((m ≫= λ _, mret true) s))) as Hret.
  { intros m. unfold mbind, ST_bind. by destruct (m s) as [[] ?]. }
  destruct a; cbn [session_turn]; [|apply Hret..].
  - assert (alone s) as Ha by (destruct Hs as [[Ha _]|[[Ha _] _]]; exact Ha). rewrite capture_ready by done. cbn in Hp.
    assert (∀ b, balanced (mkC (task s) (set_capture b (ic s)) (readings s) (sent s) (events s) (dials s))) as Hb by (intros b; exact Hs).
    destruct (bk_poll (capture (ic s))) as [[[[[k ev]|e| |]|]|] b]; try apply Hb. destruct (Hp k ev b eq_refl) as [-> Hg].
    rewrite decide_True by done. pose proof (event_balanced ev b s Hs Hg) as He. unfold mbind, ST_bind. by destruct (handle_capture_event _ _ _ _ _ _) as [[] ?].
  - by apply Q_on_recv.
  - by apply Q_on_request.
  - by apply Q_tick.
  - by apply Q_light.
  - by apply Q_heavy.
  - unfold on_peer_lost, the. assert (Q (active ← gets (λ s, active_client (task s)); match lost with None => when (bool_decide (is_Some active)) (release_capture send_ok clock held_order) | Some h0 => when (bool_decide (active = Some h0)) (release_capture send_ok clock held_order) end)) as Hq by pres.
    by apply Hq.
  - unfold on_monitor_tick, the. assert (Q (on_monitor_tick (B := B))) as Hq by (unfold on_monitor_tick, the; pres). by apply Hq.
Qed.

(** A run whose every arm is permitted where it happens. *)
Fixpoint permitted_run (arms : list arm) (s : CState B) : Prop :=
  match arms with
  | [] => True
  | a :: arms => permitted a s ∧ permitted_run arms (snd (session_turn send_ok clock held_order a s))
  end.
Lemma session_balanced arms s : balanced s → permitted_run arms s → balanced (snd (do_capture_session send_ok clock held_order arms s)).
Proof.
  revert s. induction arms as [|a arms IH]; intros s Hs; [done|]. intros [Ha Hr]. cbn [do_capture_session]. unfold mbind, ST_bind.
  pose proof (turn_balanced a s Hs Ha) as Ht. destruct (session_turn send_ok clock held_order a s) as [[[]| | |] s1]; cbn in *; try done. by apply IH.
Qed.
(** Whenever the client is not in use, every key that went down there came up. *)
Lemma keys_sent_back arms s : balanced s → permitted_run arms s →
  active_client (task (snd (do_capture_session send_ok clock held_order arms s))) = None →
  keys_left (snd (do_capture_session send_ok clock held_order arms s)) = ∅.
Proof.
  intros Hs Hr Hn. destruct (session_balanced arms s Hs Hr) as [(_ & _ & _ & Hk)|[(_ & Hh & _) _]]; [done|congruence].
Qed.
End sender.
