(* ===== verification/Config.v ===== *)
(** The persistent configuration (src/config.rs): the TOML tree in memory, its
    defaults, and the conversions between a client of the table, a client of
    the configuration and a client on disk.

    Here is what the daemon puts into the tree and what it reads back from it;
    the file and its watcher are in ConfigFile.  The command line comes parsed.
    [default_accept_dir] is the directory the environment gives. *)

From S2P Require Import Prelude Transport Scancode Net Clients CaptureTask.
From stdpp Require Import sorting.

(** * The tree *)

Record TomlQuic : Type := mkQuic { idle_timeout_secs : option Z }.

Record TomlClipboard : Type := mkTomlClipboard {
  t_enabled : option bool;
  t_accept_dir : option string;
  t_ignore_text : option bool;
  t_ignore_images : option bool;
  t_ignore_files : option bool;
  t_max_file_size : option Z;
  t_keep_partial : option bool;
  t_inject_to_clipboard : option bool
}.
Definition empty_clipboard : TomlClipboard :=
  mkTomlClipboard None None None None None None None None.

Record TomlWatchdog : Type := mkTomlWatchdog {
  w_enabled : option bool;
  w_ghost_active_check : option bool;
  w_crossing_storm_check : option bool;
  w_send_failures_check : option bool;
  w_no_progress_check : option bool;
  w_light_interval_ms : option Z;
  w_heavy_interval_secs : option Z;
  w_crossing_window_secs : option Z;
  w_crossing_storm_threshold : option nat;
  w_send_failures_threshold : option Z;
  w_no_progress_timeout_secs : option Z
}.

Record TomlClient : Type := mkTomlClient {
  tc_hostname : option string;
  tc_host_name : option string;
  tc_ips : option (list IpAddr);
  tc_port : option Z;
  tc_position : option Ipc.Position;
  tc_activate_on_startup : option bool;
  tc_enter_hook : option string;
  tc_input_channels : option InputChannelConfig;
  tc_monitor : option string;
  tc_enable_clipboard_to : option bool
}.

Module CaptureBackend.
Inductive CaptureBackend : Type := InputCapturePortal | LayerShell | X11 | Windows | MacOs | Dummy.
#[global] Instance CaptureBackend_eq_dec : EqDecision CaptureBackend.
Proof. solve_decision. Defined.
End CaptureBackend.
Module EmulationBackend.
Inductive EmulationBackend : Type := Wlroots | Libei | Xdp | X11 | Windows | MacOs | Dummy.
#[global] Instance EmulationBackend_eq_dec : EqDecision EmulationBackend.
Proof. solve_decision. Defined.
End EmulationBackend.

(** [ConfigToml]; a path is the list of its components. *)
Record ConfigToml : Type := mkToml {
  t_capture_backend : option CaptureBackend.CaptureBackend;
  t_emulation_backend : option EmulationBackend.EmulationBackend;
  t_port : option Z;
  t_release_bind : option (list Linux.Linux);
  t_cert_path : option (list string);
  t_clients : option (list TomlClient);
  t_authorized_fingerprints : option (gmap string string);
  t_web_port : option Z;
  t_watchdog : option TomlWatchdog;
  t_quic : option TomlQuic;
  t_clipboard : option TomlClipboard
}.
Definition empty_toml : ConfigToml := mkToml None None None None None None None None None None None.

#[export] Instance TomlQuic_eq_dec : EqDecision TomlQuic.
Proof. solve_decision. Defined.
#[export] Instance TomlClipboard_eq_dec : EqDecision TomlClipboard.
Proof. solve_decision. Defined.
#[export] Instance TomlWatchdog_eq_dec : EqDecision TomlWatchdog.
Proof. solve_decision. Defined.
#[export] Instance TomlClient_eq_dec : EqDecision TomlClient.
Proof. solve_decision. Defined.
#[export] Instance ConfigToml_eq_dec : EqDecision ConfigToml.
Proof. solve_decision. Defined.

(** [Args], without the command. *)
Record Args : Type := mkArgs {
  arg_port : option Z;
  arg_config : option (list string);
  arg_capture_backend : option CaptureBackend.CaptureBackend;
  arg_emulation_backend : option EmulationBackend.EmulationBackend;
  arg_cert_path : option (list string)
}.
Definition no_args : Args := mkArgs None None None None None.

(** [Config]: the command line and the tree, if one loaded. *)
Record Config : Type := mkConfigFile {
  args : Args;
  config_toml : option ConfigToml
}.

Record ClipboardConfig : Type := mkClipboard {
  enabled : bool;
  accept_dir : string;
  ignore_text : bool;
  ignore_images : bool;
  ignore_files : bool;
  max_file_size : Z;
  keep_partial : bool;
  inject_to_clipboard : bool
}.

(** * Clients on disk *)

(** [ips.sort()]: the order of addresses. *)
#[export] Instance ip_le_dec : RelDecision (λ x y, ip_le x y = true).
Proof. intros x y. apply _. Defined.
Definition sort_ips (l : list IpAddr) : list IpAddr := merge_sort (λ x y, ip_le x y = true) l.

Definition of_toml (toml : TomlClient) : ConfigClient :=
  mkConfigClient
    (list_to_set (default [] (tc_ips toml)))
    (tc_hostname toml)
    (default DEFAULT_PORT (tc_port toml))
    (default Ipc.default (tc_position toml))
    (default false (tc_activate_on_startup toml))
    (tc_enter_hook toml)
    (default default_channels (tc_input_channels toml))
    (tc_monitor toml)
    (default true (tc_enable_clipboard_to toml)).

Definition to_toml (c : ConfigClient) : TomlClient :=
  mkTomlClient
    (cc_hostname c)
    None
    (Some (sort_ips (elements (cc_ips c))))
    (if (cc_port c =? DEFAULT_PORT)%Z then None else Some (cc_port c))
    (Some (cc_pos c))
    (if cc_active c then Some true else None)
    (cc_enter_hook c)
    (if decide (cc_input_channels c = default_channels) then None else Some (cc_input_channels c))
    (cc_monitor c)
    (if cc_enable_clipboard_to c then None else Some false).

(** * Reading and writing the tree *)

Definition DEFAULT_RELEASE_KEYS : list Linux.Linux :=
  [Linux.KeyLeftCtrl; Linux.KeyLeftShift; Linux.KeyLeftMeta; Linux.KeyLeftAlt].
Definition DEFAULT_MAX_FILE_SIZE : Z := 50 * 1024 * 1024.
Definition MIN_IDLE_SECS : Z := 5.

Definition authorized_fingerprints (c : Config) : gmap string string :=
  default ∅ (config_toml c ≫= t_authorized_fingerprints).
Definition port (c : Config) : Z :=
  default DEFAULT_PORT (union (arg_port (args c)) (config_toml c ≫= t_port)).
Definition capture_backend (c : Config) : option CaptureBackend.CaptureBackend :=
  union (arg_capture_backend (args c)) (config_toml c ≫= t_capture_backend).
Definition emulation_backend (c : Config) : option EmulationBackend.EmulationBackend :=
  union (arg_emulation_backend (args c)) (config_toml c ≫= t_emulation_backend).
Definition web_port (c : Config) : option Z := config_toml c ≫= t_web_port.
Definition clients (c : Config) : list ConfigClient :=
  of_toml <$> default [] (config_toml c ≫= t_clients).
Definition release_bind (c : Config) : list Linux.Linux :=
  default DEFAULT_RELEASE_KEYS (config_toml c ≫= t_release_bind).

Definition watchdog_config (c : Config) : WatchdogConfig :=
  let d := default_watchdog in
  match config_toml c ≫= t_watchdog with
  | None => d
  | Some w =>
      mkWatchdogConfig
        (default (CaptureTask.enabled d) (w_enabled w))
        (default (ghost_active_check d) (w_ghost_active_check w))
        (default (crossing_storm_check d) (w_crossing_storm_check w))
        (default (send_failures_check d) (w_send_failures_check w))
        (default (no_progress_check d) (w_no_progress_check w))
        (default (light_interval d) (Z.mul 1000000 <$> w_light_interval_ms w))
        (default (heavy_interval d) (Z.mul 1000000000 <$> w_heavy_interval_secs w))
        (default (crossing_window d) (Z.mul 1000000000 <$> w_crossing_window_secs w))
        (default (crossing_storm_threshold d) (w_crossing_storm_threshold w))
        (default (send_failures_threshold d) (w_send_failures_threshold w))
        (default (no_progress_timeout d) (Z.mul 1000000000 <$> w_no_progress_timeout_secs w))
  end.

(** [quic_idle_timeout], in seconds. *)
Definition quic_idle_timeout (c : Config) : Z :=
  let raw := default 5%Z ((config_toml c ≫= t_quic) ≫= idle_timeout_secs) in
  Z.max raw MIN_IDLE_SECS.

(** [self.config_toml.get_or_insert_default()], then an update. *)
Definition on_toml (f : ConfigToml → ConfigToml) (c : Config) : Config :=
  mkConfigFile (args c) (Some (f (default empty_toml (config_toml c)))).

(** [read_from_disk]: a file that parses replaces the tree; the command line
    stays. *)
Definition read_from_disk (file : option ConfigToml) (c : Config) : Config :=
  match file with
  | Some t => mkConfigFile (args c) (Some t)
  | None => c
  end.

Definition set_clients (l : list ConfigClient) (c : Config) : Config :=
  match l with
  | [] => c
  | _ =>
      on_toml (λ t, mkToml (t_capture_backend t) (t_emulation_backend t) (t_port t) (t_release_bind t) (t_cert_path t) (Some (to_toml <$> l))
        (t_authorized_fingerprints t) (t_web_port t) (t_watchdog t) (t_quic t) (t_clipboard t)) c
  end.

Definition set_authorized_keys (m : gmap string string) (c : Config) : Config :=
  on_toml (λ t, mkToml (t_capture_backend t) (t_emulation_backend t) (t_port t) (t_release_bind t) (t_cert_path t) (t_clients t) (Some m) (t_web_port t)
    (t_watchdog t) (t_quic t) (t_clipboard t)) c.

Definition set_quic_idle_timeout (secs : Z) (c : Config) : Config :=
  let secs := Z.max secs MIN_IDLE_SECS in
  on_toml (λ t, mkToml (t_capture_backend t) (t_emulation_backend t) (t_port t) (t_release_bind t) (t_cert_path t) (t_clients t) (t_authorized_fingerprints t)
    (t_web_port t) (t_watchdog t) (Some (mkQuic (Some secs))) (t_clipboard t)) c.

Section clipboard.
Variable default_accept_dir : string.

Definition default_clipboard : ClipboardConfig :=
  mkClipboard true default_accept_dir false false false (50 * 1024 * 1024) false true.

Definition clipboard_config (c : Config) : ClipboardConfig :=
  match config_toml c with
  | None => default_clipboard
  | Some toml =>
      match t_clipboard toml with
      | None => default_clipboard
      | Some cb =>
          mkClipboard
            (default true (t_enabled cb))
            (default default_accept_dir (t_accept_dir cb))
            (default false (t_ignore_text cb))
            (default false (t_ignore_images cb))
            (default false (t_ignore_files cb))
            (default DEFAULT_MAX_FILE_SIZE (t_max_file_size cb))
            (default false (t_keep_partial cb))
            (default true (t_inject_to_clipboard cb))
      end
  end.

Definition get_max_file_size (c : Config) : Z := max_file_size (clipboard_config c).
Definition clipboard_enabled (c : Config) : bool := enabled (clipboard_config c).
End clipboard.

Definition set_clipboard_config (cfg : ClipboardConfig) (c : Config) : Config :=
  let cb :=
    mkTomlClipboard
      (if enabled cfg then None else Some false)
      (Some (accept_dir cfg))
      (if ignore_text cfg then None else Some false)
      (if ignore_images cfg then None else Some false)
      (if ignore_files cfg then None else Some false)
      (if (max_file_size cfg =? DEFAULT_MAX_FILE_SIZE)%Z then None else Some (max_file_size cfg))
      (if keep_partial cfg then None else Some false)
      (if inject_to_clipboard cfg then None else Some false) in
  on_toml (λ t, mkToml (t_capture_backend t) (t_emulation_backend t) (t_port t) (t_release_bind t) (t_cert_path t) (t_clients t) (t_authorized_fingerprints t)
    (t_web_port t) (t_watchdog t) (t_quic t) (Some cb)) c.

(** * Lemmas *)

Lemma of_to_toml c : of_toml (to_toml c) = c.
Proof.
  destruct c as [ips host port pos active hook channels mon clip]. unfold of_toml, to_toml. cbn.
  f_equal.
  - apply set_eq. intros ip. rewrite elem_of_list_to_set. unfold sort_ips.
    rewrite merge_sort_Permutation. apply elem_of_elements.
  - by destruct (Z.eqb_spec port DEFAULT_PORT).
  - by destruct active.
  - by case_decide.
  - by destruct clip.
Qed.

Lemma clients_set l c : l ≠ [] → clients (set_clients l c) = l.
Proof.
  intros Hl. destruct l as [|x l]; [done|]. unfold clients, set_clients. cbn.
  rewrite of_to_toml. f_equal. rewrite <- list_fmap_compose.
  rewrite <- (list_fmap_id l) at 2. apply list_fmap_ext. intros i y _. apply of_to_toml.
Qed.

(** * Properties *)

(** Saving the clients.  A client survives the trip through the file: its
    addresses as a set, its port, edge, activation, hook, channels, monitor
    binding and clipboard flag, whether or not they are the defaults that are
    left out on disk.  A non-empty list of clients is read back as it was
    written; an empty list is not written at all, so the clients that were in
    the file stay there. *)
Theorem clients_roundtrip c l :
  (∀ cc, of_toml (to_toml cc) = cc) ∧
  (l ≠ [] → clients (set_clients l c) = l) ∧
  (l = [] → clients (set_clients l c) = clients c).
Proof.
  split_and!; [apply of_to_toml|apply clients_set|]. by intros ->.
Qed.

Definition demo_client : ConfigClient :=
  mkConfigClient {[V4 1]} (Some "peer") 4242 Ipc.Right true None default_channels None false.

Lemma clients_roundtrip_witness :
  clients (set_clients [demo_client] (mkConfigFile no_args None)) = [demo_client] ∧
  clients (set_clients [] (set_clients [demo_client] (mkConfigFile no_args None))) = [demo_client].
Proof.
  split.
  - by apply (clients_roundtrip (mkConfigFile no_args None) [demo_client]).
  - etrans; [by apply (clients_roundtrip (set_clients [demo_client] (mkConfigFile no_args None)) [])|].
    by apply (clients_roundtrip (mkConfigFile no_args None) [demo_client]).
Defined.

(** Storing the clipboard settings loses four of them: a setting that
    switches a kind of content off, or keeps partial files, is stored as
    "default", and the default is the opposite.  The settings are read back as
    written exactly when those four flags are off. *)
Theorem clipboard_settings_lost dir cfg c :
  clipboard_config dir (set_clipboard_config cfg c) =
    mkClipboard (enabled cfg) (accept_dir cfg) false false false (max_file_size cfg) false
      (inject_to_clipboard cfg) ∧
  (clipboard_config dir (set_clipboard_config cfg c) = cfg ↔
   ignore_text cfg = false ∧ ignore_images cfg = false ∧ ignore_files cfg = false ∧
   keep_partial cfg = false).
Proof.
  assert (clipboard_config dir (set_clipboard_config cfg c) =
    mkClipboard (enabled cfg) (accept_dir cfg) false false false (max_file_size cfg) false
      (inject_to_clipboard cfg)) as ->.
  { destruct cfg as [en ad it ii if_ mx kp ic]. unfold clipboard_config. cbn.
    f_equal; [by destruct en|by destruct it|by destruct ii|by destruct if_| |by destruct kp|
      by destruct ic].
    by destruct (Z.eqb_spec mx DEFAULT_MAX_FILE_SIZE). }
  split; [done|]. destruct cfg as [en ad it ii if_ mx kp ic]. cbn.
  split; [by intros [= <- <- <- <-]|]. by intros (-> & -> & -> & ->).
Qed.

(** The QUIC idle timeout in effect is never below five seconds, whatever
    the file says, and a value that is set is the one in effect after the
    floor is applied; the other settings are left alone. *)
Theorem idle_timeout_floor c secs :
  (5 ≤ quic_idle_timeout c)%Z ∧
  quic_idle_timeout (set_quic_idle_timeout secs c) = Z.max secs 5 ∧
  clients (set_quic_idle_timeout secs c) = clients c ∧
  authorized_fingerprints (set_quic_idle_timeout secs c) = authorized_fingerprints c ∧
  release_bind (set_quic_idle_timeout secs c) = release_bind c ∧
  port (set_quic_idle_timeout secs c) = port c.
Proof.
  unfold quic_idle_timeout, clients, authorized_fingerprints, release_bind, port.
  destruct c as [p [t|]]; cbn; unfold MIN_IDLE_SECS; split_and!; try done; lia.
Qed.
