(* ===== verification/Toml.v ===== *)
(** The text of a configuration tree (the toml_edit crate, as src/config.rs uses
    it), as a class with its laws, and an instance on which theorems are
    applied. *)

From Stdlib Require Import Ascii.
From S2P Require Import Prelude Text Transport Scancode Net Clients Config.

(** * The class *)

(** Serialization fails where TOML has no value: an integer beyond [i64::MAX]. *)
Class TomlText : Type := {
  from_str : string → option ConfigToml;
  DocumentMut : Type;
  parse_document : string → option DocumentMut;
  from_document : DocumentMut → option ConfigToml;
  to_string_pretty : ConfigToml → option string
}.

Definition i64_max : Z := 2 ^ 63 - 1.
Definition i64_fits (z : option Z) : bool := bool_decide (default 0 z ≤ i64_max)%Z.
(** The integers of a tree that are wider than those of TOML. *)
Definition wide_integers (t : ConfigToml) : list (option Z) :=
  [t_quic t ≫= idle_timeout_secs; t_clipboard t ≫= t_max_file_size; t_watchdog t ≫= w_light_interval_ms;
   t_watchdog t ≫= w_heavy_interval_secs; t_watchdog t ≫= w_crossing_window_secs;
   Z.of_nat <$> (t_watchdog t ≫= w_crossing_storm_threshold); t_watchdog t ≫= w_no_progress_timeout_secs].
Definition in_range (t : ConfigToml) : bool := forallb i64_fits (wide_integers t).

Class TomlLaws `{TomlText} : Prop := {
  written_in_range t : is_Some (to_string_pretty t) ↔ in_range t = true;
  written_utf8 t text : to_string_pretty t = Some text → utf8_valid (as_bytes text) = true;
  read_back t text : to_string_pretty t = Some text → from_str text = Some t;
  same_reader text : (parse_document text ≫= from_document) = from_str text;
  nothing_written : from_str "" = Some empty_toml
}.

Lemma print_in_range `{TomlLaws} t : match to_string_pretty t with Some _ => in_range t = true | None => in_range t = false end.
Proof.
  destruct (to_string_pretty t) eqn:E; [apply written_in_range; by rewrite E|].
  destruct (in_range t) eqn:Er; [|done]. apply written_in_range in Er as [? ?]. congruence.
Qed.

(** * An instance *)

Module TomlDemo.
(** A text that says what a tree is: its bits. *)
Class Bits (A : Type) : Type := {
  put : A → list bool → list bool;
  get : list bool → option (A * list bool);
  get_put a l : get (put a l) = Some (a, l)
}.
Lemma via_get_put {A B} (f : A → B) (g : B → A) (inv : ∀ a, g (f a) = a) `{Bits B} a l :
  ('(b, l) ← get (put (f a) l); Some (g b, l)) = Some (a, l).
Proof. rewrite get_put. cbn. by rewrite inv. Qed.
Definition via {A B} (f : A → B) (g : B → A) (inv : ∀ a, g (f a) = a) `{Bits B} : Bits A :=
  {| put a := put (f a); get l := '(b, l) ← get l; Some (g b, l); get_put := via_get_put f g inv |}.
#[export] Instance bool_bits : Bits bool := {| put b l := b :: l; get l := match l with [] => None | b :: l => Some (b, l) end; get_put _ _ := eq_refl |}.
Fixpoint put_positive (p : positive) (l : list bool) : list bool :=
  match p with xH => false :: l | xO p => true :: false :: put_positive p l | xI p => true :: true :: put_positive p l end.
Fixpoint get_positive (l : list bool) : option (positive * list bool) :=
  match l with
  | false :: l => Some (xH, l)
  | true :: b :: l => '(p, l) ← get_positive l; Some (if b : bool then xI p else xO p, l)
  | _ => None
  end.
Lemma get_put_positive p l : get_positive (put_positive p l) = Some (p, l).
Proof. revert l. induction p as [p IH|p IH|]; intros l; cbn; [by rewrite IH|by rewrite IH|done]. Qed.
#[export] Instance positive_bits : Bits positive := {| put := put_positive; get := get_positive; get_put := get_put_positive |}.
#[export] Instance nat_bits : Bits nat := via Pos.of_succ_nat (λ p, pred (Pos.to_nat p)) ltac:(intros a; apply SuccNat2Pos.pred_id).
#[export] Instance Z_bits : Bits Z := via (λ z, match z with Z0 => xH | Zpos p => xO p | Zneg p => xI p end)
  (λ p, match p with xH => Z0 | xO p => Zpos p | xI p => Zneg p end) ltac:(by intros []).
Lemma get_put_prod `{Bits A, Bits B} (x : A * B) l :
  ('(a, l) ← get (put (fst x) (put (snd x) l)); '(b, l) ← get l; Some ((a, b), l)) = Some (x, l).
Proof. destruct x. cbn. rewrite get_put. cbn. by rewrite get_put. Qed.
#[export] Instance prod_bits `{Bits A, Bits B} : Bits (A * B) :=
  {| put x l := put (fst x) (put (snd x) l); get l := '(a, l) ← get l; '(b, l) ← get l; Some ((a, b), l); get_put := get_put_prod |}.
Fixpoint get_times `{Bits A} (n : nat) (l : list bool) : option (list A * list bool) :=
  match n with O => Some ([], l) | S n => '(a, l) ← get l; '(x, l) ← get_times n l; Some (a :: x, l) end.
Lemma get_put_list `{Bits A} (x : list A) l : ('(n, l) ← get (put (length x) (foldr put l x)); get_times n l) = Some (x, l).
Proof.
  rewrite get_put. cbn. induction x as [|a x IH]; [done|]. cbn [foldr length get_times]. rewrite get_put. cbn. by rewrite IH.
Qed.
#[export] Instance list_bits `{Bits A} : Bits (list A) :=
  {| put x l := put (length x) (foldr put l x); get l := '(n, l) ← get l; get_times n l; get_put := get_put_list |}.
#[export] Instance option_bits `{Bits A} : Bits (option A) :=
  via (λ o, match o with Some a => [a] | None => [] end) (λ l, match l with a :: _ => Some a | [] => None end) ltac:(by intros []).
#[export] Instance ascii_bits : Bits ascii :=
  via (λ '(Ascii a b c d e f g h), (a, b, c, d, (e, f, g, h))) (λ '(a, b, c, d, (e, f, g, h)), Ascii a b c d e f g h) ltac:(by intros []).
#[export] Instance N_bits : Bits N := via Z.of_N Z.to_N N2Z.id.
#[export] Instance string_bits : Bits string :=
  via String.list_ascii_of_string String.string_of_list_ascii String.string_of_list_ascii_of_string.
#[export] Instance map_bits : Bits (gmap string string) := via map_to_list list_to_map list_to_map_to_list.
#[export] Instance key_bits : Bits Linux.Linux :=
  via Linux.to_u32 (λ z, default Linux.KeyEsc (Linux.try_from_u32 z)) ltac:(intros a; cbv beta; by rewrite Linux.try_from_to).
#[export] Instance ip_bits : Bits IpAddr :=
  via (λ x, match x with V4 a => (true, a) | V6 a => (false, a) end) (λ '(v, a), if v : bool then V4 a else V6 a) ltac:(by intros []).
#[export] Instance CaptureBackend_bits : Bits CaptureBackend.CaptureBackend :=
  via (λ b, match b with CaptureBackend.InputCapturePortal => 0 | CaptureBackend.LayerShell => 1 | CaptureBackend.X11 => 2 | CaptureBackend.Windows => 3 | CaptureBackend.MacOs => 4 | CaptureBackend.Dummy => 5 end)
    (λ n, match n with 0 => CaptureBackend.InputCapturePortal | 1 => CaptureBackend.LayerShell | 2 => CaptureBackend.X11 | 3 => CaptureBackend.Windows | 4 => CaptureBackend.MacOs | _ => CaptureBackend.Dummy end) ltac:(by intros []).
#[export] Instance EmulationBackend_bits : Bits EmulationBackend.EmulationBackend :=
  via (λ b, match b with EmulationBackend.Wlroots => 0 | EmulationBackend.Libei => 1 | EmulationBackend.Xdp => 2 | EmulationBackend.X11 => 3 | EmulationBackend.Windows => 4 | EmulationBackend.MacOs => 5 | EmulationBackend.Dummy => 6 end)
    (λ n, match n with 0 => EmulationBackend.Wlroots | 1 => EmulationBackend.Libei | 2 => EmulationBackend.Xdp | 3 => EmulationBackend.X11 | 4 => EmulationBackend.Windows | 5 => EmulationBackend.MacOs | _ => EmulationBackend.Dummy end) ltac:(by intros []).
#[export] Instance Position_bits : Bits Ipc.Position :=
  via (λ b, match b with Ipc.Left => 0 | Ipc.Right => 1 | Ipc.Top => 2 | Ipc.Bottom => 3 end)
    (λ n, match n with 0 => Ipc.Left | 1 => Ipc.Right | 2 => Ipc.Top | _ => Ipc.Bottom end) ltac:(by intros []).
#[export] Instance ChannelMode_bits : Bits ChannelMode :=
  via (λ b, match b with Stream => 0 | DatagramMode => 1 end)
    (λ n, match n with 0 => Stream | _ => DatagramMode end) ltac:(by intros []).
#[export] Instance InputChannelConfig_bits : Bits InputChannelConfig := via (λ x, (mouse_button x, keyboard x))
  (λ '(a0, a1), mkChannels a0 a1) ltac:(by intros []).
#[export] Instance TomlQuic_bits : Bits TomlQuic := via idle_timeout_secs mkQuic ltac:(by intros []).
#[export] Instance TomlClipboard_bits : Bits TomlClipboard := via (λ x, (t_enabled x, t_accept_dir x, t_ignore_text x, t_ignore_images x, t_ignore_files x, t_max_file_size x, t_keep_partial x, t_inject_to_clipboard x))
  (λ '(a0, a1, a2, a3, a4, a5, a6, a7), mkTomlClipboard a0 a1 a2 a3 a4 a5 a6 a7) ltac:(by intros []).
#[export] Instance TomlWatchdog_bits : Bits TomlWatchdog := via (λ x, (w_enabled x, w_ghost_active_check x, w_crossing_storm_check x, w_send_failures_check x, w_no_progress_check x, w_light_interval_ms x, w_heavy_interval_secs x, w_crossing_window_secs x, w_crossing_storm_threshold x, w_send_failures_threshold x, w_no_progress_timeout_secs x))
  (λ '(a0, a1, a2, a3, a4, a5, a6, a7, a8, a9, a10), mkTomlWatchdog a0 a1 a2 a3 a4 a5 a6 a7 a8 a9 a10) ltac:(by intros []).
#[export] Instance TomlClient_bits : Bits TomlClient := via (λ x, (tc_hostname x, tc_host_name x, tc_ips x, tc_port x, tc_position x, tc_activate_on_startup x, tc_enter_hook x, tc_input_channels x, tc_monitor x, tc_enable_clipboard_to x))
  (λ '(a0, a1, a2, a3, a4, a5, a6, a7, a8, a9), mkTomlClient a0 a1 a2 a3 a4 a5 a6 a7 a8 a9) ltac:(by intros []).
#[export] Instance ConfigToml_bits : Bits ConfigToml := via (λ x, (t_capture_backend x, t_emulation_backend x, t_port x, t_release_bind x, t_cert_path x, t_clients x, t_authorized_fingerprints x, t_web_port x, t_watchdog x, t_quic x, t_clipboard x))
  (λ '(a0, a1, a2, a3, a4, a5, a6, a7, a8, a9, a10), mkToml a0 a1 a2 a3 a4 a5 a6 a7 a8 a9 a10) ltac:(by intros []).

Fixpoint digits (l : list bool) : string :=
  match l with [] => "" | b :: l => String (if b : bool then "1"%char else "0"%char) (digits l) end.
Fixpoint bits (s : string) : option (list bool) :=
  match s with
  | "" => Some []
  | String "1"%char s => cons true <$> bits s
  | String "0"%char s => cons false <$> bits s
  | _ => None
  end.
Lemma bits_digits l : bits (digits l) = Some l.
Proof. induction l as [|[] l IH]; cbn [digits bits]; [done|by rewrite IH..]. Qed.
Lemma digits_ascii l : Str.all is_ascii (digits l) = true.
Proof. by induction l as [|[] l IH]. Qed.
Definition print (t : ConfigToml) : string := digits (put t []).
Definition parse_bits (s : string) : option ConfigToml :=
  if decide (s = "") then Some empty_toml else l ← bits s; fst <$> get l.
Lemma bits_parse_print t : parse_bits (print t) = Some t.
Proof.
  unfold parse_bits, print. rewrite bits_digits. destruct (decide _) as [E|_]; [|cbn [mbind option_bind]; by rewrite get_put].
  pose proof (get_put t []) as G. revert E G. generalize (put t []). by intros [|[] l].
Qed.
#[export] Instance demo_toml : TomlText := {
  from_str := parse_bits; DocumentMut := string; parse_document s := Some s; from_document := parse_bits;
  to_string_pretty t := if in_range t then Some (print t) else None
}.
#[export] Instance demo_laws : TomlLaws.
Proof.
  split; cbn -[in_range print parse_bits].
  - intros t. destruct (in_range t); split; [done|by eexists|by intros [? [=]]|done].
  - intros t text. destruct (in_range t); [|done]. intros [= <-]. apply ascii_utf8, digits_ascii.
  - intros t text. destruct (in_range t); [|done]. intros [= <-]. apply bits_parse_print.
  - done.
  - done.
Qed.
End TomlDemo.
