(* ===== verification/Service.v ===== *)
(** The daemon's control plane (src/service.rs): the handlers of frontend
    requests, of emulation, capture and resolver events, and of monitor
    changes, over the client table of Clients.v, the configuration of Config.v
    and the request channel of the capture task of CaptureTask.v.

    A handler is a stateful call that may panic.  What it sends to the other
    tasks is appended to the logs of the state: [requests] to the capture task,
    [frontend] to the frontends, [resolves] to the resolver, [leaves] and
    [ports] to the emulation task.  A save is a panic or not here; the file is in
    ConfigFile. *)

From S2P Require Import Prelude Transport Geometry Net Clients InputCapture CaptureTask.
From S2P Require Config.
From S2P Require Import Toml.

(** * Data *)

Record IpcMonitorInfo : Type := mkIpcMonitor {
  ipc_id : string; ipc_name : string; ipc_position : Z * Z; ipc_size : Z * Z;
  ipc_primary : bool; ipc_scale : double
}.

Record Incoming : Type := mkIncoming {
  in_fingerprint : string;
  in_addr : SocketAddr;
  in_pos : Ipc.Position
}.
Record IncomingClipboardState : Type := mkClipState {
  cs_fingerprint : string;
  cs_enable_clipboard_to : bool
}.

Inductive Status : Type := Disabled | Enabled.

(** [FrontendEvent], the variants these handlers send. *)
Inductive FrontendEvent : Type :=
| Created (h : ClientHandle) (c : ClientConfig) (s : ClientState)
| NoSuchClient (h : ClientHandle)
| ClientChanged (h : ClientHandle) (c : ClientConfig) (s : ClientState)
| Deleted (h : ClientHandle)
| PortChanged (port : Z) (error : option string)
| Enumerate (l : list (ClientHandle * ClientConfig * ClientState))
| CaptureStatus (s : Status)
| EmulationStatus (s : Status)
| AuthorizedUpdated (keys : gmap string string)
| PublicKeyFingerprint (fp : string)
| DeviceConnected (addr : SocketAddr) (fingerprint : string)
| DeviceEntered (fingerprint : string) (addr : SocketAddr) (pos : Ipc.Position)
| IncomingDisconnected (addr : SocketAddr)
| ConnectionAttempt (fingerprint : string)
| QuicConfig (secs : Z)
| MonitorsUpdated (l : list IpcMonitorInfo)
| BindingInvalid (h : ClientHandle) (reason : string)
| ClipboardConfigChanged (cfg : Config.ClipboardConfig).

Inductive FrontendRequest : Type :=
| Activate (h : ClientHandle) (active : bool)
| AuthorizeKey (desc fp : string)
| ChangePort (port : Z)
| CreateClient
| DeleteClient (h : ClientHandle)
| EnableCapture
| EnableEmulation
| RequestEnumerate
| UpdateFixIps (h : ClientHandle) (l : list IpAddr)
| UpdateHostname (h : ClientHandle) (name : option string)
| UpdatePort (h : ClientHandle) (port : Z)
| UpdatePosition (h : ClientHandle) (pos : Ipc.Position)
| UpdateMonitor (h : ClientHandle) (monitor : option string)
| ResolveDns (h : ClientHandle)
| SyncFrontend
| RemoveAuthorizedKey (fp : string)
| UpdateEnterHook (h : ClientHandle) (hook : option string)
| SetClientInputChannels (h : ClientHandle) (cfg : InputChannelConfig)
| SaveConfiguration
| SetQuicIdleTimeout (secs : Z)
| SetClipboardConfig (cfg : Config.ClipboardConfig)
| SetEnableClipboard (h : ClientHandle) (enable : bool).

Inductive EmulationEvent : Type :=
| EmConnectionAttempt (fingerprint : string)
| EmEntered (addr : SocketAddr) (pos : Ipc.Position) (fingerprint : string)
| EmDisconnected (addr : SocketAddr)
| EmPortChanged (result : string + Z)
| EmulationDisabled
| EmulationEnabled
| ReleaseNotify
| EmConnected (addr : SocketAddr) (fingerprint : string)
| PeerHello (addr : SocketAddr) (commit : list byte).

Inductive DnsEvent : Type :=
| Resolving (h : ClientHandle)
| Resolved (h : ClientHandle) (name : string) (ips : option (list IpAddr)).

Record Service (S : Type) : Type := mkService {
  manager : S;
  config : Config.Config;
  authorized_keys : gmap string string;
  incoming_conns : gset SocketAddr;
  incoming_conn_info : gmap ClientHandle Incoming;
  incoming_clipboard : gmap SocketAddr IncomingClipboardState;
  next_trigger_handle : N;
  svc_monitors : option (list MonitorInfo);
  svc_port : Z;
  quic_idle_timeout_secs : Z;
  capture_status : Status;
  emulation_status : Status;
  requests : list CaptureRequest;
  frontend : list FrontendEvent;
  resolves : list (ClientHandle * string);
  hooks : list ClientHandle;
  leaves : list SocketAddr;
  ports : list Z
}.
Arguments mkService {S}.
Arguments manager {S}.
Arguments config {S}.
Arguments authorized_keys {S}.
Arguments incoming_conns {S}.
Arguments incoming_conn_info {S}.
Arguments incoming_clipboard {S}.
Arguments next_trigger_handle {S}.
Arguments svc_monitors {S}.
Arguments svc_port {S}.
Arguments quic_idle_timeout_secs {S}.
Arguments capture_status {S}.
Arguments emulation_status {S}.
Arguments requests {S}.
Arguments frontend {S}.
Arguments resolves {S}.
Arguments hooks {S}.
Arguments leaves {S}.
Arguments ports {S}.

(** * Monitors *)

Definition geometry_to_ipc_monitor_info (m : MonitorInfo) : IpcMonitorInfo :=
  mkIpcMonitor (mon_id m) (mon_name m) (mon_position m) (mon_size m) (mon_primary m)
    (mon_scale m).

(** The double quote. *)
Definition dquote : string := String (Ascii.ascii_of_nat 34) "".

Definition present (id : string) (l : list MonitorInfo) : bool :=
  existsb (λ m, bool_decide (mon_id m = id)) l.
Definition find_monitor (id : string) (l : list MonitorInfo) : option MonitorInfo :=
  Geometry.find (λ m, bool_decide (mon_id m = id)) l.

(** [iter] with [continue] on a binding without a monitor. *)
Definition bound {A} (f : ClientHandle → BarrierKey → string → option A)
    (l : list (ClientHandle * BarrierKey)) : list A :=
  omap (λ '(h, key), id ← key_monitor key; f h key id) l.

Definition reconcile_monitors (active : list (ClientHandle * BarrierKey))
    (new_monitors old_monitors : list MonitorInfo) : list (ClientHandle * string) :=
  bound (λ h _ id,
    let was_present := present id old_monitors in
    let is_present := present id new_monitors in
    if was_present && negb is_present then
      Some (h, ("monitor " ++ dquote ++ id ++ dquote ++ " disconnected")%string)
    else None) active.

Definition monitor_geometry_changed (a b : MonitorInfo) : bool :=
  negb (bool_decide (mon_position a = mon_position b)) ||
  negb (bool_decide (mon_size a = mon_size b)).

Definition recreate_monitors (active : list (ClientHandle * BarrierKey))
    (new_monitors old_monitors : list MonitorInfo)
    : list (ClientHandle * BarrierKey * BarrierKey) :=
  bound (λ h key id,
    match find_monitor id old_monitors, find_monitor id new_monitors with
    | Some old, Some new =>
        if monitor_geometry_changed old new then Some (h, key, key) else None
    | _, _ => None
    end) active.

Definition recover_monitors (all : list (ClientHandle * BarrierKey))
    (new_monitors old_monitors : list MonitorInfo) : list ClientHandle :=
  bound (λ h _ id,
    let was_present := present id old_monitors in
    let is_present := present id new_monitors in
    if negb was_present && is_present then Some h else None) all.

(** * The handlers *)

Definition ENTER_HANDLE_BEGIN : N := 2 ^ 63.
Definition MIN_SECS : Z := 5.

Section handlers.
Context {S : Type} `{Slab S} `{TomlText}.
Variable order : gset IpAddr → list IpAddr.
Variable default_accept_dir : string.
Variable public_key_fingerprint : string.
Abbreviation M := (ST (Service S) Empty_set).

Definition set_manager (m : S) (s : Service S) : Service S :=
  mkService m (config s) (authorized_keys s) (incoming_conns s) (incoming_conn_info s)
    (incoming_clipboard s) (next_trigger_handle s) (svc_monitors s) (svc_port s)
    (quic_idle_timeout_secs s) (capture_status s) (emulation_status s) (requests s) (frontend s)
    (resolves s) (hooks s) (leaves s) (ports s).
Definition set_config (c : Config.Config) (s : Service S) : Service S :=
  mkService (manager s) c (authorized_keys s) (incoming_conns s) (incoming_conn_info s)
    (incoming_clipboard s) (next_trigger_handle s) (svc_monitors s) (svc_port s)
    (quic_idle_timeout_secs s) (capture_status s) (emulation_status s) (requests s) (frontend s)
    (resolves s) (hooks s) (leaves s) (ports s).
Definition set_keys (k : gmap string string) (s : Service S) : Service S :=
  mkService (manager s) (config s) k (incoming_conns s) (incoming_conn_info s)
    (incoming_clipboard s) (next_trigger_handle s) (svc_monitors s) (svc_port s)
    (quic_idle_timeout_secs s) (capture_status s) (emulation_status s) (requests s) (frontend s)
    (resolves s) (hooks s) (leaves s) (ports s).
Definition set_incoming (conns : gset SocketAddr) (info : gmap ClientHandle Incoming) (next : N)
    (s : Service S) : Service S :=
  mkService (manager s) (config s) (authorized_keys s) conns info
    (incoming_clipboard s) next (svc_monitors s) (svc_port s)
    (quic_idle_timeout_secs s) (capture_status s) (emulation_status s) (requests s) (frontend s)
    (resolves s) (hooks s) (leaves s) (ports s).
Definition set_clip (c : gmap SocketAddr IncomingClipboardState) (s : Service S) : Service S :=
  mkService (manager s) (config s) (authorized_keys s) (incoming_conns s) (incoming_conn_info s)
    c (next_trigger_handle s) (svc_monitors s) (svc_port s)
    (quic_idle_timeout_secs s) (capture_status s) (emulation_status s) (requests s) (frontend s)
    (resolves s) (hooks s) (leaves s) (ports s).
Definition set_monitors (l : list MonitorInfo) (s : Service S) : Service S :=
  mkService (manager s) (config s) (authorized_keys s) (incoming_conns s) (incoming_conn_info s)
    (incoming_clipboard s) (next_trigger_handle s) (Some l) (svc_port s)
    (quic_idle_timeout_secs s) (capture_status s) (emulation_status s) (requests s) (frontend s)
    (resolves s) (hooks s) (leaves s) (ports s).
Definition set_status (cap em : Status) (port secs : Z) (s : Service S) : Service S :=
  mkService (manager s) (config s) (authorized_keys s) (incoming_conns s) (incoming_conn_info s)
    (incoming_clipboard s) (next_trigger_handle s) (svc_monitors s) port
    secs cap em (requests s) (frontend s) (resolves s) (hooks s) (leaves s) (ports s).
Definition log (r : list CaptureRequest) (f : list FrontendEvent)
    (d : list (ClientHandle * string)) (k : list ClientHandle) (l : list SocketAddr)
    (p : list Z) (s : Service S) : Service S :=
  mkService (manager s) (config s) (authorized_keys s) (incoming_conns s) (incoming_conn_info s)
    (incoming_clipboard s) (next_trigger_handle s) (svc_monitors s) (svc_port s)
    (quic_idle_timeout_secs s) (capture_status s) (emulation_status s) (requests s ++ r)
    (frontend s ++ f) (resolves s ++ d) (hooks s ++ k) (leaves s ++ l) (ports s ++ p).

(** Calls on the client table. *)
Definition cm {A} (f : S → A) : M A := gets (λ s, f (manager s)).
Definition cm_do (f : S → S) : M unit := modify_st (λ s, set_manager (f (manager s)) s).
Definition cm_call {A} (f : S → A * S) : M A := λ s,
  let '(a, m) := f (manager s) in (Ok a, set_manager m s).

(** Messages to the other tasks. *)
Definition capture (r : CaptureRequest) : M unit := modify_st (log [r] [] [] [] [] []).
Definition notify_frontend (e : FrontendEvent) : M unit := modify_st (log [] [e] [] [] [] []).

Definition broadcast_client (h : ClientHandle) : M unit :=
  e ← cm (get_state h);
  notify_frontend (match e with
                   | Some (c, s) => ClientChanged h c s
                   | None => NoSuchClient h
                   end).

Definition resolve (h : ClientHandle) : M unit :=
  name ← cm (get_hostname h);
  match name with
  | Some n => modify_st (log [] [] [(h, n)] [] [] [])
  | None => mret tt
  end.

Definition deactivate_client (h : ClientHandle) : M unit :=
  done ← cm_call (Clients.deactivate_client h);
  when done (capture (Destroy h) ≫= λ _, broadcast_client h).

Definition activate_client (h : ClientHandle) : M unit :=
  resolve h ≫= λ _,
  k ← cm (Clients.get_key h);
  match k with
  | None => mret tt
  | Some key =>
      other ← cm (client_at key);
      match other with
      | Some o => when (negb (bool_decide (o = h))) (deactivate_client o)
      | None => mret tt
      end ≫= λ _,
      done ← cm_call (Clients.activate_client h);
      when done
        (capture (Create h key Default) ≫= λ _,
         broadcast_client h ≫= λ _,
         capture (Dial h))
  end.

Definition set_client_active (h : ClientHandle) (active : bool) : M unit :=
  if active then activate_client h else deactivate_client h.

Definition detach_capture (h : ClientHandle) (reason : string) : M unit :=
  capture (Destroy h) ≫= λ _, notify_frontend (BindingInvalid h reason).

Definition reattach_capture (h : ClientHandle) : M unit :=
  k ← cm (Clients.get_key h);
  match k with
  | None => mret tt
  | Some key => capture (Create h key Default) ≫= λ _, broadcast_client h
  end.

Definition remove_client (h : ClientHandle) : M unit :=
  removed ← cm_call (Clients.remove_client h);
  when (default false (active ∘ snd <$> removed)) (capture (Destroy h)) ≫= λ _,
  notify_frontend (Deleted h).

Definition add_client : M unit :=
  h ← cm_call Clients.add_client;
  e ← cm (get_state h);
  match e with
  | Some (c, s) => notify_frontend (Created h c s)
  | None => panic
  end.

Definition update_fix_ips (h : ClientHandle) (l : list IpAddr) : M unit :=
  cm_do (set_fix_ips h l) ≫= λ _, broadcast_client h.
Definition update_hostname (h : ClientHandle) (name : option string) : M unit :=
  changed ← cm_call (set_hostname h name);
  when changed (resolve h) ≫= λ _, broadcast_client h.
Definition update_port (h : ClientHandle) (port : Z) : M unit :=
  cm_do (set_port h port) ≫= λ _, broadcast_client h.
Definition rebuild (h : ClientHandle) : M unit :=
  deactivate_client h ≫= λ _, activate_client h.
Definition update_pos (h : ClientHandle) (pos : Ipc.Position) : M unit :=
  changed ← cm_call (set_pos h pos);
  when changed (rebuild h) ≫= λ _, broadcast_client h.
Definition update_monitor (h : ClientHandle) (m : option string) : M unit :=
  changed ← cm_call (set_monitor h m);
  when changed (rebuild h) ≫= λ _, broadcast_client h.
Definition update_enter_hook (h : ClientHandle) (hook : option string) : M unit :=
  cm_do (set_enter_hook h hook) ≫= λ _, broadcast_client h.
Definition update_input_channels (h : ClientHandle) (cfg : InputChannelConfig) : M unit :=
  changed ← cm_call (set_input_channels h cfg);
  when changed (broadcast_client h).
Definition set_enable_clipboard (h : ClientHandle) (enable : bool) : M unit :=
  changed ← cm_call (set_enable_clipboard_to h enable);
  when changed (broadcast_client h).

Definition add_authorized_key (desc fp : string) : M unit :=
  modify_st (λ s, set_keys (<[fp := desc]> (authorized_keys s)) s) ≫= λ _,
  keys ← gets authorized_keys;
  notify_frontend (AuthorizedUpdated keys).
Definition remove_authorized_key (fp : string) : M unit :=
  modify_st (λ s, set_keys (delete fp (authorized_keys s)) s) ≫= λ _,
  keys ← gets authorized_keys;
  notify_frontend (AuthorizedUpdated keys).

Definition enumerate : M unit :=
  l ← cm get_client_states; notify_frontend (Enumerate l).

Definition change_port (port : Z) : M unit :=
  p ← gets svc_port;
  if decide (p = port) then notify_frontend (PortChanged p None)
  else modify_st (log [] [] [] [] [] [port]).

(** [self.config.write_back()] as far as the service goes on after it: a tree
    that TOML cannot hold panics ([expect]); an error of the file is logged.  What
    it does to the file and to the watcher is [ConfigFile.write_back]. *)
Definition stored_tree (s : Service S) : Config.ConfigToml :=
  default Config.empty_toml (Config.config_toml (config s)).
Definition write_back : M unit :=
  new_config ← gets stored_tree;
  match to_string_pretty new_config with
  | None => panic
  | Some _ => mret tt
  end.

Definition set_quic_idle_timeout (secs : Z) : M unit :=
  let secs := Z.max secs MIN_SECS in
  cur ← gets quic_idle_timeout_secs;
  if decide (secs = cur) then notify_frontend (QuicConfig cur)
  else
    modify_st (λ s, set_config (Config.set_quic_idle_timeout secs (config s)) s) ≫= λ _,
    modify_st (λ s, set_status (capture_status s) (emulation_status s) (svc_port s) secs s) ≫= λ _,
    write_back ≫= λ _,
    notify_frontend (QuicConfig secs).

Definition set_clipboard_config (cfg : Config.ClipboardConfig) : M unit :=
  modify_st (λ s, set_config (Config.set_clipboard_config cfg (config s)) s) ≫= λ _,
  write_back ≫= λ _,
  notify_frontend (ClipboardConfigChanged cfg).

(** A client of the table as the configuration has it. *)
Definition to_config_client (e : entry) : ConfigClient :=
  let '(c, s) := e in
  mkConfigClient (list_to_set (fix_ips c)) (hostname c) (port c) (pos c) (active s) (cmd c)
    (input_channels c) (monitor c) (enable_clipboard_to c).

Definition save_config : M unit :=
  l ← cm clients;
  keys ← gets authorized_keys;
  modify_st (λ s, set_config (Config.set_authorized_keys keys
    (Config.set_clients (to_config_client <$> l) (config s))) s) ≫= λ _,
  write_back.

Definition sync_frontend : M unit :=
  enumerate ≫= λ _,
  s ← get_st;
  notify_frontend (EmulationStatus (emulation_status s)) ≫= λ _,
  notify_frontend (CaptureStatus (capture_status s)) ≫= λ _,
  notify_frontend (PortChanged (svc_port s) None) ≫= λ _,
  notify_frontend (PublicKeyFingerprint public_key_fingerprint) ≫= λ _,
  notify_frontend (QuicConfig (quic_idle_timeout_secs s)) ≫= λ _,
  notify_frontend (AuthorizedUpdated (authorized_keys s)) ≫= λ _,
  match svc_monitors s with
  | Some l => notify_frontend (MonitorsUpdated (geometry_to_ipc_monitor_info <$> l))
  | None => mret tt
  end ≫= λ _,
  notify_frontend (ClipboardConfigChanged
    (Config.clipboard_config default_accept_dir (config s))).

Definition and_save (m : M unit) : M unit := m ≫= λ _, save_config.

Definition handle_frontend_request (request : FrontendRequest) : M unit :=
  match request with
  | Activate h active => and_save (set_client_active h active)
  | AuthorizeKey desc fp => and_save (add_authorized_key desc fp)
  | ChangePort port => change_port port
  | CreateClient => and_save add_client
  | DeleteClient h => and_save (remove_client h)
  | EnableCapture => capture Reenable
  | EnableEmulation => mret tt
  | RequestEnumerate => enumerate
  | UpdateFixIps h l => and_save (update_fix_ips h l)
  | UpdateHostname h name => and_save (update_hostname h name)
  | UpdatePort h port => and_save (update_port h port)
  | UpdatePosition h pos => and_save (update_pos h pos)
  | UpdateMonitor h m => and_save (update_monitor h m)
  | ResolveDns h => resolve h
  | SyncFrontend => sync_frontend
  | RemoveAuthorizedKey fp => and_save (remove_authorized_key fp)
  | UpdateEnterHook h hook => update_enter_hook h hook
  | SetClientInputChannels h cfg => and_save (update_input_channels h cfg)
  | SaveConfiguration => save_config
  | SetQuicIdleTimeout secs => set_quic_idle_timeout secs
  | SetClipboardConfig cfg => set_clipboard_config cfg
  | SetEnableClipboard h enable => and_save (set_enable_clipboard h enable)
  end.

(** One client of a changed configuration. *)
Definition load_client (cc : ConfigClient) : M unit :=
  h ← cm_call (Clients.add_with_config order cc);
  e ← cm (get_state h);
  match e with
  | None => panic
  | Some (c, s) =>
      when (active s)
        (cm_call (Clients.deactivate_client h) ≫= λ _, activate_client h) ≫= λ _,
      notify_frontend (Created h c s)
  end.

Definition handle_config_change : M unit :=
  old ← cm registered_clients;
  for_each remove_client old ≫= λ _,
  cfg ← gets config;
  for_each load_client (Config.clients cfg) ≫= λ _,
  capture (SetReleaseBind (Config.release_bind cfg)) ≫= λ _,
  modify_st (set_keys (Config.authorized_fingerprints cfg)) ≫= λ _,
  sync_frontend.

(** The start of [run]: the clients that the configuration marks active are
    activated one after the other. *)
Definition run_start : M unit :=
  l ← cm active_clients;
  for_each (λ h, cm_call (Clients.deactivate_client h) ≫= λ _, mret tt) l ≫= λ _,
  for_each activate_client l.

(** * Incoming devices *)

Definition add_incoming (addr : SocketAddr) (pos : Ipc.Position) (fingerprint : string) : M unit :=
  n ← gets next_trigger_handle;
  let h := ((ENTER_HANDLE_BEGIN + n) mod 2 ^ 64)%N in
  let key := from_pos (to_capture_pos pos) in
  capture (Create h key EnterOnly) ≫= λ _,
  modify_st (λ s, set_incoming ({[addr]} ∪ incoming_conns s)
    (<[h := mkIncoming fingerprint addr pos]> (incoming_conn_info s))
    ((n + 1) mod 2 ^ 64)%N s).

(** [incoming_conn_info.iter().find(...)]. *)
Definition find_incoming (addr : SocketAddr) (info : gmap ClientHandle Incoming)
    : option (ClientHandle * Incoming) :=
  Geometry.find (λ hi, bool_decide (in_addr (snd hi) = addr)) (map_to_list info).

Definition remove_incoming (addr : SocketAddr) : M (option SocketAddr) :=
  info ← gets incoming_conn_info;
  match find_incoming addr info with
  | None => mret None
  | Some (h, i) =>
      capture (Destroy h) ≫= λ _,
      modify_st (λ s, set_incoming (incoming_conns s ∖ {[addr]})
        (delete h (incoming_conn_info s)) (next_trigger_handle s) s) ≫= λ _,
      mret (Some (in_addr i))
  end.

Definition update_incoming (addr : SocketAddr) (pos : Ipc.Position) (fingerprint : string)
    : M unit :=
  info ← gets incoming_conn_info;
  match find_incoming addr info with
  | None => panic
  | Some (h, i) =>
      let changed := negb (bool_decide (in_fingerprint i = fingerprint)) ||
                     negb (bool_decide (in_pos i = pos)) in
      modify_st (λ s, set_incoming (incoming_conns s)
        (<[h := mkIncoming fingerprint (in_addr i) pos]> (incoming_conn_info s))
        (next_trigger_handle s) s) ≫= λ _,
      when changed
        (remove_incoming addr ≫= λ _,
         add_incoming addr pos fingerprint ≫= λ _,
         notify_frontend (IncomingDisconnected addr) ≫= λ _,
         notify_frontend (DeviceEntered fingerprint addr pos))
  end.

Definition status_change (cap em : Status) : M unit :=
  modify_st (λ s, set_status cap em (svc_port s) (quic_idle_timeout_secs s) s).

Definition handle_emulation_event (event : EmulationEvent) : M unit :=
  match event with
  | EmConnectionAttempt fp => notify_frontend (ConnectionAttempt fp)
  | EmEntered addr pos fp =>
      conns ← gets incoming_conns;
      if decide (addr ∈ conns) then update_incoming addr pos fp
      else add_incoming addr pos fp ≫= λ _, notify_frontend (DeviceEntered fp addr pos)
  | EmDisconnected addr =>
      modify_st (λ s, set_clip (delete addr (incoming_clipboard s)) s) ≫= λ _,
      notify_frontend (IncomingDisconnected addr)
  | EmPortChanged (inr port) =>
      modify_st (λ s, set_status (capture_status s) (emulation_status s) port
        (quic_idle_timeout_secs s) s) ≫= λ _,
      notify_frontend (PortChanged port None)
  | EmPortChanged (inl e) =>
      p ← gets svc_port; notify_frontend (PortChanged p (Some e))
  | EmulationDisabled =>
      cap ← gets capture_status;
      status_change cap Disabled ≫= λ _, notify_frontend (EmulationStatus Disabled)
  | EmulationEnabled =>
      cap ← gets capture_status;
      status_change cap Enabled ≫= λ _, notify_frontend (EmulationStatus Enabled)
  | ReleaseNotify => capture Release
  | EmConnected addr fp =>
      modify_st (λ s, set_clip (<[addr := mkClipState fp true]> (incoming_clipboard s)) s) ≫= λ _,
      notify_frontend (DeviceConnected addr fp)
  | PeerHello addr commit =>
      client ← cm (get_client addr);
      match client with
      | Some h => cm_do (set_peer_commit h (Some commit)) ≫= λ _, broadcast_client h
      | None => mret tt
      end
  end.

(** * Capture events and monitor changes *)

Definition bindings (l : list ClientHandle) (m : S) : list (ClientHandle * BarrierKey) :=
  omap (λ h, (λ k, (h, k)) <$> Clients.get_key h m) l.

Definition reconcile_monitors_changed (new_monitors old_monitors : list MonitorInfo) : M unit :=
  m ← gets manager;
  let all_bindings := bindings (registered_clients m) m in
  let active_set : gset ClientHandle := list_to_set (active_clients m) in
  for_each (λ hr, when (bool_decide (fst hr ∈ active_set)) (detach_capture (fst hr) (snd hr)))
    (reconcile_monitors all_bindings new_monitors old_monitors) ≫= λ _,
  for_each (λ h, when (bool_decide (h ∈ active_set)) (reattach_capture h))
    (recover_monitors all_bindings new_monitors old_monitors) ≫= λ _,
  m ← gets manager;
  let active_bindings := bindings (active_clients m) m in
  for_each (λ hkk, rebuild (fst (fst hkk)))
    (recreate_monitors active_bindings new_monitors old_monitors).

Definition handle_capture_event (event : ICaptureEvent) : M unit :=
  match event with
  | CaptureBegin h =>
      info ← gets incoming_conn_info;
      match info !! h with
      | Some i => modify_st (log [] [] [] [] [in_addr i] [])
      | None => mret tt
      end
  | CaptureDisabled =>
      em ← gets emulation_status;
      status_change Disabled em ≫= λ _, notify_frontend (CaptureStatus Disabled)
  | CaptureEnabled =>
      em ← gets emulation_status;
      status_change Enabled em ≫= λ _, notify_frontend (CaptureStatus Enabled)
  | ClientEntered h =>
      cmd ← cm (get_enter_cmd h);
      match cmd with
      | Some _ => modify_st (log [] [] [] [h] [] [])
      | None => mret tt
      end
  | MonitorsChanged l =>
      old ← gets svc_monitors;
      modify_st (set_monitors l) ≫= λ _,
      notify_frontend (MonitorsUpdated (geometry_to_ipc_monitor_info <$> l)) ≫= λ _,
      match old with
      | Some old => reconcile_monitors_changed l old
      | None => mret tt
      end
  end.

Definition handle_resolver_event (event : DnsEvent) : M unit :=
  match event with
  | Resolving h => cm_do (set_resolving h true) ≫= λ _, broadcast_client h
  | Resolved h name ips =>
      cm_do (set_resolving h false) ≫= λ _,
      cm_do (set_dns_ips h (default [] ips)) ≫= λ _,
      broadcast_client h
  end.

(** What the main loop of [run] can pick. *)
Inductive service_event : Type :=
| FromFrontend (r : FrontendRequest)
| FromEmulation (e : EmulationEvent)
| FromCapture (e : ICaptureEvent)
| FromResolver (e : DnsEvent)
| ConfigChanged (file : option Config.ConfigToml).

Definition service_turn (e : service_event) : M unit :=
  match e with
  | FromFrontend r => handle_frontend_request r
  | FromEmulation e => handle_emulation_event e
  | FromCapture e => handle_capture_event e
  | FromResolver e => handle_resolver_event e
  | ConfigChanged file =>
      modify_st (λ s, set_config (Config.read_from_disk file (config s)) s) ≫= λ _,
      handle_config_change
  end.
End handlers.
