(* ===== verification/Registry.v ===== *)
(** The registered barriers: what the requests of the service do to them, that
    the capture task and its multiplexer refine this, and the invariant that
    ties them to the client table and the incoming devices. *)

From S2P Require Import Prelude Transport Geometry Net Clients Scancode InputCapture CaptureTask.
From S2P Require Config.
From S2P Require Import Service.

(** * What the requests do to the registered barriers

    The abstract state of the multiplexer is the map from handles to barriers.
    Registering a known handle and destroying an unknown one have no result:
    there the multiplexer panics. *)

Abbreviation registry := (gmap CaptureHandle BarrierKey).

Definition reg_step (r : registry) (q : CaptureRequest) : option registry :=
  match q with
  | Create h key _ => match r !! h with Some _ => None | None => Some (<[h := key]> r) end
  | Destroy h => match r !! h with Some _ => Some (delete h r) | None => None end
  | _ => Some r
  end.
Fixpoint reg_run (r : registry) (qs : list CaptureRequest) : option registry :=
  match qs with
  | [] => Some r
  | q :: qs => match reg_step r q with Some r => reg_run r qs | None => None end
  end.

Lemma reg_run_app r qs qs' :
  reg_run r (qs ++ qs') = r' ← reg_run r qs; reg_run r' qs'.
Proof.
  revert r. induction qs as [|q qs IH]; intros r; cbn; [done|].
  destruct (reg_step r q); [apply IH|done].
Qed.

(** A backend whose calls succeed. *)
Record quiet (B : Type) `{Capture B} : Prop := {
  ok_create key b : fst (bk_create key b) = Ok tt;
  ok_destroy key b : fst (bk_destroy key b) = Ok tt;
  ok_release b : fst (bk_release b) = Ok tt;
  ok_cancel key b : fst (bk_cancel_pending key b) = Ok tt
}.

Section refinement.
Context {B : Type} `{Capture B}.
Hypothesis Hquiet : quiet B.
Variable send_ok : nat → bool.
Variable clock : nat → Z.
Variable held_order : gset Linux.Linux → list Linux.Linux.
Implicit Types (c : InputCapture B) (s : CState B).

Lemma wp_call {A} (m : ST (InputCapture B) CaptureError A) Q s :
  wp m (λ a c, Q a (mkC (task s) c (readings s) (sent s) (events s) (dials s))) (ic s) →
  wp (call m) Q s.
Proof. unfold wp, call. by destruct (m (ic s)) as [[] ?]. Qed.

Lemma wp_backend {A} (m : ST B CaptureError A) Q c a :
  fst (m (InputCapture.capture c)) = Ok a →
  (∀ b, Q a (set_capture b c)) → wp (backend m) Q c.
Proof.
  unfold wp, backend. destruct (m _) as [r b]. cbn. by intros -> HQ.
Qed.

(** What [release_capture] leaves of the registration. *)
Definition regs_are (r : registry) (s : CState B) : Prop :=
  id_map (ic s) = r ∧ registered (ic s).

Lemma regs_are_ext r s s' :
  id_map (ic s') = id_map (ic s) → position_map (ic s') = position_map (ic s) →
  regs_are r s → regs_are r s'.
Proof.
  intros E1 E2 [Hr Hg]. split; [congruence|]. by eapply registered_ext.
Qed.

Lemma release_backend_regs r s :
  regs_are r s → wp (release_backend clock) (λ _, regs_are r) s.
Proof.
  intros Hr. unfold release_backend, reset_watchdog, now, wd, upd. wp. apply wp_attempt, wp_call.
  unfold release. wp. apply (wp_backend _ _ _ tt); [apply Hquiet|]. intros b. wp.
  unfold reply. unfold wp. by eapply regs_are_ext, Hr.
Qed.

Lemma release_capture_regs r s :
  regs_are r s → wp (release_capture send_ok clock held_order) (λ _, regs_are r) s.
Proof.
  intros Hr. unfold release_capture, the. wp.
  destruct (should_skip_release _ _).
  { unfold reset_watchdog, now, wd, upd. wp. by eapply regs_are_ext, Hr. }
  assert (wp (release_active_path send_ok clock held_order (active_client (task s)))
    (λ _, regs_are r) s) as Ha.
  { unfold release_active_path, upd. wp.
    destruct (active_client (task s)) as [h|]; wp; [|by apply release_backend_regs].
    apply wp_call. unfold take_pressed_keys. wp. unfold wp at 1. rewrite for_each_send.
    unfold send. wp. apply release_backend_regs. by eapply regs_are_ext, Hr. }
  destruct (state (task s)) as [|h key t|]; [done| |done].
  unfold release_pending_path. wp. apply wp_attempt, wp_call. unfold cancel_pending.
  apply (wp_backend _ _ _ tt); [apply Hquiet|]. intros b. apply release_backend_regs.
  by eapply regs_are_ext, Hr.
Qed.

(** One request refines [reg_step]. *)
Lemma request_refines q r s :
  regs_are r s →
  match reg_step r q with
  | Some r' => wp (on_request send_ok clock held_order q) (λ _, regs_are r') s
  | None => fst (on_request send_ok clock held_order q s) = Panic
  end.
Proof.
  intros [Hr Hg]. subst r.
  destruct q as [|h key t|h| |bind|h|e h]; cbn [reg_step on_request].
  - by apply release_capture_regs.
  - destruct (id_map (ic s) !! h) as [k|] eqn:E.
    + unfold add_capture, upd, modify_st, mbind, ST_bind, call. cbn [on_task ic].
      by rewrite create_taken by (by rewrite E).
    + unfold add_capture, upd. wp. apply wp_call. cbn [on_task ic].
      pose proof (create_maps_registered h key _ E Hg) as Hg'.
      unfold wp. rewrite create_new by done. destruct (position_map (ic s) !! key).
      * by split.
      * pose proof (ok_create _ Hquiet key (InputCapture.capture (create_maps h key (ic s)))) as Hb.
        pose proof (backend_maps (bk_create key) (create_maps h key (ic s)))
          as (E1 & E2 & _ & _ & E5 & _).
        destruct (backend _ _) as [o c']. cbn in *. rewrite E5, Hb. cbn. split; [done|].
        by apply (registered_ext (create_maps h key (ic s))).
  - destruct (id_map (ic s) !! h) as [k|] eqn:E.
    + unfold remove_capture, upd. wp. apply wp_call. cbn [on_task ic].
      pose proof (destroy_maps_registered h k _ E Hg) as Hg'.
      unfold wp. rewrite (destroy_known h k) by done. case_decide; [|by split].
      pose proof (ok_destroy _ Hquiet k (InputCapture.capture (destroy_maps h k (ic s)))) as Hb.
      pose proof (backend_maps (bk_destroy k) (destroy_maps h k (ic s)))
        as (E1 & E2 & _ & _ & E5 & _).
      destruct (backend _ _) as [o c']. cbn in *. rewrite E5, Hb. cbn. split; [done|].
      by apply (registered_ext (destroy_maps h k (ic s))).
    + pose proof (destroy_unknown h (ic s) E) as Hd.
      unfold remove_capture, upd, modify_st, mbind, ST_bind, call. cbn [on_task ic].
      destruct (destroy h (ic s)). cbn in *. by rewrite Hd.
  - done.
  - unfold upd. by wp.
  - by wp.
  - unfold send. by wp.
Qed.

(** A sequence of requests refines [reg_run]. *)
Lemma requests_refine qs r s :
  regs_are r s →
  match reg_run r qs with
  | Some r' => wp (for_each (on_request send_ok clock held_order) qs) (λ _, regs_are r') s
  | None => fst (for_each (on_request send_ok clock held_order) qs s) = Panic
  end.
Proof.
  revert r s. induction qs as [|q qs IH]; intros r s Hs; cbn; [done|].
  pose proof (request_refines q r s Hs) as Hq. destruct (reg_step r q) as [r'|].
  - apply wp_Ok in Hq as (a & s' & E & Hs'). specialize (IH r' s' Hs').
    unfold wp, mbind, ST_bind in *. rewrite E. done.
  - unfold mbind, ST_bind. destruct (on_request _ _ _ q s) as [o s']. cbn in Hq. by subst o.
Qed.
End refinement.

(** * The barriers the service means to have *)

Lemma sorted_NoDup (l : list N) : Sorted.StronglySorted N.lt l → NoDup l.
Proof.
  induction 1 as [|x l Hs IH Hx]; constructor; [|done].
  intros Hin. rewrite Forall_forall in Hx. apply Hx in Hin. lia.
Qed.

Section view.
Context {S : Type} `{SlabLaws S}.
Implicit Types (m : S) (s : Service S) (h : ClientHandle).

(** What matters of a client here: whether it is active, and its barrier. *)
Definition vw m h : option (bool * BarrierKey) :=
  (λ e, (active (snd e), key_of (fst e))) <$> slab_get h m.

(** The barrier of a handle: that of an active client, or of an incoming
    device. *)
Definition incoming_key (i : Incoming) : BarrierKey := from_pos (to_capture_pos (in_pos i)).
Definition barrier_of s h : option BarrierKey :=
  match vw (manager s) h with
  | Some (true, k) => Some k
  | Some (false, _) => None
  | None => incoming_key <$> incoming_conn_info s !! h
  end.

(** The registry [r] agrees with a barrier, up to the exceptions: in [X] the
    key may be out of date, in [D] the barrier is taken out. *)
Definition agrees (X D : Prop) (b r : option BarrierKey) : Prop :=
  match b with
  | None => r = None
  | Some k => (D → r = None) ∧ (¬ D → ∃ k', r = Some k' ∧ (¬ X → k' = k))
  end.
Definition regs_ok (X D : ClientHandle → Prop) s : Prop :=
  ∃ r, reg_run ∅ (requests s) = Some r ∧ ∀ h, agrees (X h) (D h) (barrier_of s h) (r !! h).

Record table_ok (n : nat) (X D : ClientHandle → Prop) m : Prop := {
  tab_unique a b k :
    ¬ X a → ¬ X b → vw m a = Some (true, k) → vw m b = Some (true, k) → a = b;
  tab_detached h : D h → ∃ k, vw m h = Some (true, k);
  tab_handles h : is_Some (vw m h) → (h < 2 ^ 63)%N;
  tab_size : (length (slab_iter m) ≤ n)%nat
}.

Record incoming_ok s : Prop := {
  inc_handles h : is_Some (incoming_conn_info s !! h) →
    (2 ^ 63 ≤ h < 2 ^ 63 + next_trigger_handle s)%N;
  inc_conns a : a ∈ incoming_conns s ↔ ∃ h i, incoming_conn_info s !! h = Some i ∧ in_addr i = a;
  inc_addr h1 h2 i1 i2 : incoming_conn_info s !! h1 = Some i1 → incoming_conn_info s !! h2 = Some i2 →
    in_addr i1 = in_addr i2 → h1 = h2
}.

Record inv (n : nat) (X D : ClientHandle → Prop) s : Prop := {
  inv_regs : regs_ok X D s;
  inv_table : table_ok n X D (manager s);
  inv_incoming : incoming_ok s
}.

Definition none (h : ClientHandle) : Prop := False.
Lemma not_none h : ¬ none h.
Proof. by intros []. Qed.

Lemma vw_is_Some m h : is_Some (vw m h) ↔ is_Some (slab_get h m).
Proof. unfold vw. by rewrite fmap_is_Some. Qed.

(** The number of clients is bounded by that of a table with at least the same
    handles. *)
Lemma size_incl m m' :
  (∀ h, is_Some (slab_get h m') → is_Some (slab_get h m)) →
  (length (slab_iter m') ≤ length (slab_iter m))%nat.
Proof.
  intros Hin. rewrite <- !(length_fmap fst). apply submseteq_length, NoDup_submseteq.
  - apply sorted_NoDup, iter_sorted.
  - intros h Hh. apply (elem_of_registered h m), Hin, (elem_of_registered h m'). exact Hh.
Qed.

(** ** How the pieces change *)

Lemma agrees_mono (X X' D D' : Prop) b r :
  (X → X') → (D ↔ D') → agrees X D b r → agrees X' D' b r.
Proof. destruct b; cbn; naive_solver. Qed.

(** A barrier is registered. *)
Lemma regs_create X D X' D' s s' h k t :
  regs_ok X D s → requests s' = requests s ++ [Create h k t] →
  (barrier_of s h = None ∨ D h) → barrier_of s' h = Some k → ¬ D' h →
  (∀ x, x ≠ h → barrier_of s' x = barrier_of s x ∧ (X x → X' x) ∧ (D x ↔ D' x)) →
  regs_ok X' D' s'.
Proof.
  intros (r & Hr & Hag) Hq Hb Hk Hd Hother. exists (<[h := k]> r).
  assert (r !! h = None) as Hnone.
  { specialize (Hag h). destruct (barrier_of s h); [|done]. destruct Hb; [done|]. by apply Hag. }
  split.
  - rewrite Hq, reg_run_app, Hr. cbn. by rewrite Hnone.
  - intros x. destruct (decide (x = h)) as [->|Hx].
    + rewrite lookup_insert_eq, Hk. cbn. split; [done|]. eauto.
    + rewrite lookup_insert_ne by done. destruct (Hother x Hx) as (-> & HX & HD).
      eapply agrees_mono; [exact HX|exact HD|done].
Qed.

(** A barrier is taken out. *)
Lemma regs_destroy X D X' D' s s' h :
  regs_ok X D s → requests s' = requests s ++ [Destroy h] →
  is_Some (barrier_of s h) → ¬ D h → (barrier_of s' h = None ∨ D' h) →
  (∀ x, x ≠ h → barrier_of s' x = barrier_of s x ∧ (X x → X' x) ∧ (D x ↔ D' x)) →
  regs_ok X' D' s'.
Proof.
  intros (r & Hr & Hag) Hq [k Hk] Hd Hb Hother. exists (delete h r).
  assert (is_Some (r !! h)) as [k' Hsome].
  { specialize (Hag h). rewrite Hk in Hag. destruct Hag as [_ Hag].
    destruct (Hag Hd) as (k' & -> & _). eauto. }
  split.
  - rewrite Hq, reg_run_app, Hr. cbn. by rewrite Hsome.
  - intros x. destruct (decide (x = h)) as [->|Hx].
    + rewrite lookup_delete_eq. destruct (barrier_of s' h); cbn; [|done].
      destruct Hb; [done|]. naive_solver.
    + rewrite lookup_delete_ne by done. destruct (Hother x Hx) as (-> & HX & HD).
      eapply agrees_mono; [exact HX|exact HD|done].
Qed.

(** Nothing is requested. *)
Lemma regs_same X D X' D' s s' :
  regs_ok X D s → requests s' = requests s →
  (∀ x r, agrees (X x) (D x) (barrier_of s x) r → agrees (X' x) (D' x) (barrier_of s' x) r) →
  regs_ok X' D' s'.
Proof. intros (r & Hr & Hag) Hq Hother. exists r. rewrite Hq. auto. Qed.

(** The table changes at one handle. *)
Lemma table_set n n' X D X' D' m m' h v :
  table_ok n X D m → (∀ x, vw m' x = if decide (x = h) then v else vw m x) →
  (is_Some v → (h < 2 ^ 63)%N) →
  (∀ k, v = Some (true, k) → ¬ X' h → ∀ x, x ≠ h → ¬ X' x → vw m x ≠ Some (true, k)) →
  (∀ x, x ≠ h → (X x → X' x) ∧ (D' x → D x)) → (D' h → ∃ k, v = Some (true, k)) →
  (length (slab_iter m') ≤ n')%nat →
  table_ok n' X' D' m'.
Proof.
  intros [Hu Hd Hh Hs] Hv Hlt Hnew Hother Hdh Hsize. split; [..|done].
  - intros a b k Ha Hb. rewrite !Hv. repeat case_decide; subst; try done.
    + intros Ea Eb. exfalso. by eapply (Hnew k Ea Ha b).
    + intros Ea Eb. exfalso. by eapply (Hnew k Eb Hb a).
    + intros Ea Eb. eapply Hu; try done; naive_solver.
  - intros x Hx. rewrite Hv. case_decide; subst; [by apply Hdh|]. apply Hd. naive_solver.
  - intros x. rewrite Hv. case_decide; subst; auto.
Qed.

Lemma size_set n m m' h v :
  (length (slab_iter m) ≤ n)%nat → (∀ x, vw m' x = if decide (x = h) then v else vw m x) →
  (is_Some v → is_Some (vw m h)) → (length (slab_iter m') ≤ n)%nat.
Proof.
  intros Hn Hv Hsome. etransitivity; [|exact Hn]. apply size_incl. intros x.
  rewrite <- !vw_is_Some, Hv. case_decide; subst; auto.
Qed.

(** ** Calls that leave the barriers alone *)

Record sim s s' : Prop := {
  sim_vw h : vw (manager s') h = vw (manager s) h;
  sim_conns : incoming_conns s' = incoming_conns s;
  sim_info : incoming_conn_info s' = incoming_conn_info s;
  sim_next : next_trigger_handle s' = next_trigger_handle s;
  sim_requests : requests s' = requests s;
  sim_monitors : svc_monitors s' = svc_monitors s
}.
#[global] Instance sim_preorder : PreOrder sim.
Proof.
  split; [by split|]. intros s s1 s2 [] []. split; intros; congruence.
Qed.

Lemma incoming_sim s s' :
  incoming_conns s' = incoming_conns s → incoming_conn_info s' = incoming_conn_info s →
  next_trigger_handle s' = next_trigger_handle s → incoming_ok s → incoming_ok s'.
Proof. intros E1 E2 E3 [Hh Hc Ha]. split; rewrite ?E1, ?E2, ?E3; done. Qed.

Lemma barrier_sim s s' : sim s s' → ∀ h, barrier_of s' h = barrier_of s h.
Proof. intros [Hv _ Hi _ _ _] h. unfold barrier_of. by rewrite Hv, Hi. Qed.

Lemma inv_sim n X D s s' : sim s s' → inv n X D s → inv n X D s'.
Proof.
  intros Hsim [Hr [Hu Hd Hh Hs] Hi]. pose proof (barrier_sim _ _ Hsim) as Hb.
  destruct Hsim as [Hv Hc Hf Hn Hq _]. split.
  - eapply regs_same; [done|done|]. intros x r. by rewrite Hb.
  - split; try setoid_rewrite Hv; try done. etransitivity; [|exact Hs]. apply size_incl.
    intros x. by rewrite <- !vw_is_Some, Hv.
  - by eapply incoming_sim.
Qed.

(** ** The view after the operations of the table *)

Lemma vw_modify h f m :
  (∀ e, active (snd (f e)) = active (snd e) ∧ key_of (fst (f e)) = key_of (fst e)) →
  ∀ x, vw (modify h f m) x = vw m x.
Proof.
  intros Hf x. unfold vw. rewrite get_modify. case_decide; [subst|done].
  destruct (slab_get h m) as [e|]; cbn; [|done]. by destruct (Hf e) as [-> ->].
Qed.

Lemma vw_modify_if h p f m :
  (∀ e, active (snd (f e)) = active (snd e) ∧ key_of (fst (f e)) = key_of (fst e)) →
  ∀ x, vw (snd (modify_if h p f m)) x = vw m x.
Proof.
  intros Hf x. unfold vw. rewrite get_modify_if. case_decide; [subst|done].
  destruct (slab_get h m) as [e|]; cbn; [|done]. destruct (p e); [|done].
  by destruct (Hf e) as [-> ->].
Qed.

Lemma vw_update_ips h m x : vw (update_ips h m) x = vw m x.
Proof. by apply vw_modify. Qed.

Lemma vw_set_hostname h name m x : vw (snd (set_hostname h name m)) x = vw m x.
Proof.
  unfold set_hostname.
  pose proof (vw_modify_if h (λ e, negb (bool_decide (hostname (fst e) = name)))
    (λ e, (with_hostname name (fst e), with_dns_ips [] (with_active_addr None (snd e)))) m) as Hv.
  destruct (modify_if _ _ _ m) as [[] m']; cbn in *; rewrite ?vw_update_ips; by apply Hv.
Qed.

Definition toggled (b : bool) (v : option (bool * BarrierKey)) : option (bool * BarrierKey) :=
  (λ p, (b, snd p)) <$> v.

Lemma vw_activate h m x :
  vw (snd (Clients.activate_client h m)) x =
    if decide (x = h) then toggled true (vw m h) else vw m x.
Proof.
  unfold vw, Clients.activate_client. rewrite get_modify_if. case_decide; [subst|done].
  destruct (slab_get h m) as [[c st]|]; cbn; [|done]. by destruct (active st) eqn:E; cbn; rewrite ?E.
Qed.
Lemma activate_result h m :
  fst (Clients.activate_client h m) = match vw m h with Some (false, _) => true | _ => false end.
Proof.
  unfold vw, Clients.activate_client. rewrite modify_if_result.
  destruct (slab_get h m) as [[c st]|]; cbn; [|done]. by destruct (active st).
Qed.
Lemma vw_deactivate h m x :
  vw (snd (Clients.deactivate_client h m)) x =
    if decide (x = h) then toggled false (vw m h) else vw m x.
Proof.
  unfold vw, Clients.deactivate_client. rewrite get_modify_if. case_decide; [subst|done].
  destruct (slab_get h m) as [[c st]|]; cbn; [|done]. by destruct (active st) eqn:E; cbn; rewrite ?E.
Qed.
Lemma deactivate_result h m :
  fst (Clients.deactivate_client h m) = match vw m h with Some (true, _) => true | _ => false end.
Proof.
  unfold vw, Clients.deactivate_client. rewrite modify_if_result.
  destruct (slab_get h m) as [[c st]|]; cbn; [|done]. by destruct (active st).
Qed.

Lemma key_of_inj c c' : key_of c = key_of c' ↔ pos c = pos c' ∧ monitor c = monitor c'.
Proof.
  unfold key_of. split; [|by intros [-> ->]]. intros [= Hp Hm]. split; [|done].
  by destruct (pos c), (pos c').
Qed.

Lemma client_at_vw c m :
  (∀ o, client_at (key_of c) m = Some o → vw m o = Some (true, key_of c)) ∧
  (client_at (key_of c) m = None → ∀ x, vw m x ≠ Some (true, key_of c)).
Proof.
  assert (∀ e : entry, active (snd e) && bool_decide (pos (fst e) = to_ipc_pos (key_pos (key_of c)))
    && bool_decide (monitor (fst e) = key_monitor (key_of c)) = true ↔
    (active (snd e), key_of (fst e)) = (true, key_of c)) as Hp.
  { intros e. rewrite !andb_true_iff, !bool_decide_eq_true, pair_equal_spec, key_of_inj. cbn.
    replace (to_ipc_pos (to_capture_pos (pos c))) with (pos c) by (by destruct (pos c)). tauto. }
  unfold client_at. split.
  - intros o Ho. apply find_key_iter in Ho as (e & He & Hpe & _). unfold vw. rewrite He. cbn.
    f_equal. by apply Hp.
  - intros Hn x Hx. unfold vw in Hx. apply fmap_Some in Hx as (e & He & E).
    apply (find_key_None (S := S)) with (j := x) (e := e) in Hn; [|done].
    symmetry in E. apply Hp in E. congruence.
Qed.

Lemma get_key_vw h m : Clients.get_key h m = snd <$> vw m h.
Proof. unfold Clients.get_key, vw. by destruct (slab_get h m) as [[c st]|]. Qed.
End view.
