(* ===== verification/Sync.v ===== *)
(** The handlers of the service keep the barriers in step: a weakest
    precondition lemma for every handler, against the invariant of Registry.v,
    and what the handlers leave of the configuration. *)

From S2P Require Import Prelude Transport Geometry Net Clients Scancode InputCapture CaptureTask.
From S2P Require Config.
From S2P Require Import Toml Service Registry.

(** * The handlers *)

Section handlers.
Context {S : Type} `{SlabLaws S} {TT : TomlText} {TL : TomlLaws}.
Variable order : gset IpAddr → list IpAddr.
Variable default_accept_dir : string.
Variable public_key_fingerprint : string.
Implicit Types (m : S) (s : Service S) (h : ClientHandle).
Abbreviation M := (ST (Service S) Empty_set).

Lemma wp_cm {A} (f : S → A) Q s : wp (cm f) Q s ↔ Q (f (manager s)) s.
Proof. done. Qed.
Lemma wp_cm_do (f : S → S) Q s : wp (cm_do f) Q s ↔ Q tt (set_manager (f (manager s)) s).
Proof. done. Qed.
Lemma wp_cm_call {A} (f : S → A * S) Q s :
  wp (cm_call f) Q s ↔ Q (fst (f (manager s))) (set_manager (snd (f (manager s))) s).
Proof. unfold wp, cm_call. by destruct (f (manager s)). Qed.
Lemma wp_capture r Q s : wp (Service.capture r) Q s ↔ Q tt (log [r] [] [] [] [] [] s).
Proof. done. Qed.
#[local] Hint Rewrite @wp_cm @wp_cm_do @wp_cm_call wp_capture : wp.

(** Handlers that leave the barriers alone. *)
Definition calm {A} (c : M A) : Prop := ∀ s, wp c (λ _, sim s) s.

Lemma calm_ret {A} (a : A) : calm (mret a).
Proof. by intros s. Qed.
Lemma calm_bind {A B} (c : M A) (f : A → M B) : calm c → (∀ a, calm (f a)) → calm (c ≫= f).
Proof.
  intros Hc Hf s. apply wp_bind. eapply wp_mono; [apply Hc|]. intros a s1 H1.
  eapply wp_mono; [apply Hf|]. intros b s2 H2. by transitivity s1.
Qed.
Lemma calm_gets {A} (f : Service S → A) : calm (gets f).
Proof. by intros s. Qed.
Lemma calm_get : calm get_st.
Proof. by intros s. Qed.
Lemma calm_when c (f : M unit) : calm f → calm (when c f).
Proof. destruct c; [done|]. intros _. apply calm_ret. Qed.
Lemma calm_modify f : (∀ s, sim s (f s)) → calm (modify_st f).
Proof. intros Hf s. apply Hf. Qed.
Lemma calm_log f d k l p : calm (modify_st (log [] f d k l p)).
Proof. apply calm_modify. intros s. split; try done. cbn. by rewrite app_nil_r. Qed.
Lemma calm_cm_do (f : S → S) : (∀ m x, vw (f m) x = vw m x) → calm (cm_do f).
Proof. intros Hf s. split; try done. intros h. apply Hf. Qed.
Lemma calm_cm_call {A} (f : S → A * S) : (∀ m x, vw (snd (f m)) x = vw m x) → calm (cm_call f).
Proof. intros Hf s. apply wp_cm_call. split; try done. intros h. apply Hf. Qed.

Lemma calm_wp n X D {A} (c : M A) s : calm c → inv n X D s → wp c (λ _, inv n X D) s.
Proof. intros Hc Hs. eapply wp_mono; [apply Hc|]. intros a s' Hsim. by apply (inv_sim _ _ _ s). Qed.

Lemma calm_notify e : calm (notify_frontend (S := S) e).
Proof. apply calm_log. Qed.
Lemma calm_broadcast h : calm (broadcast_client (S := S) h).
Proof. apply calm_bind; [apply calm_gets|]. intros a. apply calm_notify. Qed.
Lemma calm_resolve h : calm (resolve (S := S) h).
Proof. apply calm_bind; [apply calm_gets|]. intros [n|]; [apply calm_log|apply calm_ret]. Qed.

(** Requests that are not about barriers. *)
Lemma inv_request n X D q s :
  (∀ r, reg_step r q = Some r) →
  inv n X D s → inv n X D (log [q] [] [] [] [] [] s).
Proof.
  intros Hq [(r & Hr & Hag) Ht Hi]. split; [|done|by apply (incoming_sim s)].
  exists r. cbn. rewrite reg_run_app, Hr. cbn. rewrite Hq. by split.
Qed.

(** ** Deactivation *)

Lemma wp_deactivate_active n X D h k s :
  inv n X D s → vw (manager s) h = Some (true, k) → (∀ x, X x → x = h) → ¬ D h →
  wp (deactivate_client h)
    (λ _ s', inv n none D s' ∧
       ∀ x, vw (manager s') x = if decide (x = h) then Some (false, k) else vw (manager s) x) s.
Proof.
  intros [Hr Ht Hi] Hk HX HD. unfold deactivate_client. wp. rewrite deactivate_result, Hk. wp.
  set (s1 := log _ _ _ _ _ _ _).
  assert (∀ x, vw (manager s1) x = if decide (x = h) then Some (false, k) else vw (manager s) x)
    as Hv by (intros x; cbn; rewrite vw_deactivate, Hk; done).
  eapply wp_mono; [apply calm_broadcast|]. intros a s' Hsim.
  assert (inv n none D s1) as Hs1.
  { split; [| |by apply (incoming_sim s)].
    - eapply regs_destroy; [exact Hr|done|unfold barrier_of; by rewrite Hk|done|left|].
      + unfold barrier_of. by rewrite Hv, decide_True.
      + intros x Hx. unfold barrier_of. rewrite Hv, decide_False by done.
        split_and!; [done|intros ?%HX; done|done].
    - eapply table_set; [exact Ht|exact Hv|..]; try done.
      + intros _. apply (tab_handles _ _ _ _ Ht). by rewrite Hk.
      + intros x Hx. split; [intros ?%HX; done|done].
      + eapply size_set; [apply (tab_size _ _ _ _ Ht)|exact Hv|by rewrite Hk]. }
  split; [by apply (inv_sim _ _ _ s1)|]. intros x. by rewrite (sim_vw _ _ Hsim), Hv.
Qed.

Lemma wp_deactivate_inactive h s :
  (∀ k, vw (manager s) h ≠ Some (true, k)) → wp (deactivate_client h) (λ _, sim s) s.
Proof.
  intros Hk. unfold deactivate_client. wp. rewrite deactivate_result.
  assert (sim s (set_manager (snd (Clients.deactivate_client h (manager s))) s)) as Hsim.
  { split; try done. intros x. cbn. rewrite vw_deactivate. case_decide; [subst|done].
    destruct (vw (manager s) h) as [[[] k]|]; try done. by destruct (Hk k). }
  destruct (vw (manager s) h) as [[[] k]|]; try done. by destruct (Hk k).
Qed.

Lemma wp_deactivate n D h s :
  inv n none D s → ¬ D h → wp (deactivate_client h) (λ _, inv n none D) s.
Proof.
  intros Hs Hd. destruct (vw (manager s) h) as [[[] k]|] eqn:E.
  1: by eapply wp_mono; [by eapply wp_deactivate_active|]; intros a s' [? _].
  all: eapply wp_mono; [apply wp_deactivate_inactive; by rewrite E|].
  all: intros a s' Hsim; by apply (inv_sim _ _ _ s).
Qed.

(** ** Activation *)

Lemma vw_key_of m h b k : vw m h = Some (b, k) → ∃ c, k = key_of c.
Proof. unfold vw. intros (e & _ & [= -> ->])%fmap_Some. eauto. Qed.

(** The entry is activated and its barrier requested. *)
Lemma inv_create n D h k s :
  inv n none D s → vw (manager s) h = Some (false, k) →
  (∀ x, vw (manager s) x ≠ Some (true, k)) →
  inv n none D (log [Create h k Default] [] [] [] [] []
    (set_manager (snd (Clients.activate_client h (manager s))) s)).
Proof.
  intros [Hr Ht Hi] Hk Hfree. set (s1 := log _ _ _ _ _ _ _).
  assert (∀ x, vw (manager s1) x = if decide (x = h) then Some (true, k) else vw (manager s) x)
    as Hv by (intros x; cbn; rewrite vw_activate, Hk; done).
  assert (¬ D h) as Hd.
  { intros Hd. destruct (tab_detached _ _ _ _ Ht h Hd) as [k' Hk']. congruence. }
  split; [| |by apply (incoming_sim s)].
  - eapply regs_create; [exact Hr|done| | |exact Hd|].
    + left. unfold barrier_of. by rewrite Hk.
    + unfold barrier_of. by rewrite Hv, decide_True.
    + intros x Hx. unfold barrier_of. by rewrite Hv, decide_False.
  - eapply table_set; [exact Ht|exact Hv|..]; try done.
    + intros _. apply (tab_handles _ _ _ _ Ht). by rewrite Hk.
    + intros k' [= <-] _ x _ _. apply Hfree.
    + eapply size_set; [apply (tab_size _ _ _ _ Ht)|exact Hv|by rewrite Hk].
Qed.

Definition activated h k m x : option (bool * BarrierKey) :=
  if decide (x = h) then Some (true, k)
  else if decide (vw m x = Some (true, k)) then Some (false, k) else vw m x.

(** The part of [activate_client] after the other client is out of the way. *)
Lemma wp_activate_tail n D h k s :
  inv n none D s → vw (manager s) h = Some (false, k) →
  (∀ x, vw (manager s) x ≠ Some (true, k)) →
  wp (done ← cm_call (Clients.activate_client h);
      when done (Service.capture (Create h k Default) ≫= λ _,
                 broadcast_client h ≫= λ _, Service.capture (Dial h)))
    (λ _ s', inv n none D s' ∧ ∀ x, vw (manager s') x = activated h k (manager s) x) s.
Proof.
  intros Hs Hk Hfree. wp. rewrite activate_result, Hk. wp.
  pose proof (inv_create n D h k s Hs Hk Hfree) as H1. set (s1 := log _ _ _ _ _ _ _) in *.
  eapply wp_mono; [apply calm_broadcast|]. intros a s2 H2. wp. split.
  { apply inv_request; [done|]. by apply (inv_sim _ _ _ s1). }
  intros x. cbn. rewrite (sim_vw _ _ H2). cbn. rewrite vw_activate, Hk. unfold activated.
  case_decide; [done|]. by rewrite decide_False by apply Hfree.
Qed.

Lemma wp_activate_inactive n D h k s :
  inv n none D s → vw (manager s) h = Some (false, k) →
  (∀ x, vw (manager s) x = Some (true, k) → ¬ D x) →
  wp (activate_client h)
    (λ _ s', inv n none D s' ∧ ∀ x, vw (manager s') x = activated h k (manager s) x) s.
Proof.
  intros Hs Hk Hd. unfold activate_client. wp.
  eapply wp_mono; [apply calm_resolve|]. intros a1 s1 Hsim. wp.
  pose proof (inv_sim _ _ _ _ _ Hsim Hs) as Hs1. pose proof (sim_vw _ _ Hsim) as Hv.
  rewrite get_key_vw, Hv, Hk. cbn. wp.
  destruct (vw_key_of _ _ _ _ Hk) as [c ->].
  destruct (client_at_vw c (manager s1)) as [Hsome Hnone].
  destruct (client_at (key_of c) (manager s1)) as [o|].
  - specialize (Hsome o eq_refl). rewrite Hv in Hsome. assert (o ≠ h) as Hne by congruence.
    wp. rewrite bool_decide_false by done. cbn.
    eapply wp_mono; [apply (wp_deactivate_active n none D o (key_of c) s1 Hs1);
      [by rewrite Hv|done|by apply Hd]|].
    intros a2 s2 [Hs2 Hv2].
    assert (∀ x, vw (manager s2) x ≠ Some (true, key_of c)) as Hfree.
    { intros x. rewrite Hv2. case_decide; [done|]. rewrite Hv. intros Hx.
      by apply (tab_unique _ _ _ _ (inv_table _ _ _ _ Hs) x o (key_of c)) in Hx; [|auto..]. }
    eapply wp_mono; [apply (wp_activate_tail n D h (key_of c)); try done|].
    + by rewrite Hv2, decide_False, Hv.
    + intros a s' [Hs' Hv']. split; [done|]. intros x. rewrite Hv'. unfold activated.
      case_decide; [done|]. rewrite decide_False by apply Hfree. rewrite Hv2, Hv.
      case_decide as Ho; [subst; by rewrite decide_True|].
      rewrite decide_False; [done|]. intros Hx.
      by apply (tab_unique _ _ _ _ (inv_table _ _ _ _ Hs) x o (key_of c)) in Hx; [|auto..].
  - specialize (Hnone eq_refl). rewrite wp_ret.
    eapply wp_mono; [apply (wp_activate_tail n D h (key_of c)); try done; by rewrite Hv|].
    intros a s' [Hs' Hv']. split; [done|]. intros x. rewrite Hv'. unfold activated. by rewrite Hv.
Qed.

Lemma wp_activate_other n D h s :
  inv n none D s → (∀ k, vw (manager s) h ≠ Some (false, k)) →
  wp (activate_client h) (λ _, sim s) s.
Proof.
  intros Hs Hk. unfold activate_client. wp.
  eapply wp_mono; [apply calm_resolve|]. intros a1 s1 Hsim. wp. pose proof (sim_vw _ _ Hsim) as Hv.
  rewrite get_key_vw, Hv.
  destruct (vw (manager s) h) as [[[] k]|] eqn:E; [|by destruct (Hk k)|by wp]. cbn. wp.
  destruct (vw_key_of _ _ _ _ E) as [c ->].
  destruct (client_at_vw c (manager s1)) as [Hsome Hnone].
  destruct (client_at (key_of c) (manager s1)) as [o|].
  - specialize (Hsome o eq_refl). rewrite Hv in Hsome.
    assert (o = h) as -> by (apply (tab_unique _ _ _ _ (inv_table _ _ _ _ Hs) o h (key_of c)); auto).
    wp. rewrite bool_decide_true by done. cbn. wp. rewrite activate_result, Hv, E. wp.
    etransitivity; [exact Hsim|]. split; try done. intros x. cbn. rewrite vw_activate.
    case_decide; [subst; by rewrite Hv, E|done].
  - specialize (Hnone eq_refl h). rewrite Hv in Hnone. done.
Qed.

Lemma wp_activate n D h s :
  inv n none D s →
  (∀ x k b, D x → vw (manager s) x = Some (true, k) → vw (manager s) h ≠ Some (b, k)) →
  wp (activate_client h) (λ _, inv n none D) s.
Proof.
  intros Hs Hd. destruct (vw (manager s) h) as [[[] k]|] eqn:E.
  2: { eapply wp_mono; [eapply wp_activate_inactive; [done|exact E|]|by intros a s' [? _]].
       intros x Hx Hdx. by apply (Hd x k false Hdx Hx). }
  all: eapply wp_mono; [eapply wp_activate_other; [done|]; intros k'; by rewrite E|].
  all: intros a s' Hsim; by apply (inv_sim _ _ _ s).
Qed.

(** ** A change of barrier *)

Definition only h (x : ClientHandle) : Prop := x = h.

Lemma inv_retarget n h b k k' s m' :
  inv n none none s → vw (manager s) h = Some (b, k) →
  (∀ x, vw m' x = if decide (x = h) then Some (b, k') else vw (manager s) x) →
  inv n (if b then only h else none) none (set_manager m' s).
Proof.
  intros [Hr Ht Hi] Hk Hv. split; [| |by apply (incoming_sim s)].
  - eapply regs_same; [exact Hr|done|]. intros x r. unfold barrier_of. cbn. rewrite Hv.
    case_decide; subst.
    + rewrite Hk. destruct b; cbn; [|done]. intros [Hd Hn]. split; [done|]. intros _.
      destruct (Hn (λ f, f)) as (k0 & -> & _). exists k0. split; [done|]. intros Hx. by destruct Hx.
    + apply agrees_mono; [done|done].
  - eapply table_set; [exact Ht|exact Hv|..]; try done.
    + intros _. apply (tab_handles _ _ _ _ Ht). by rewrite Hk.
    + intros k0 [= -> ->] Hx. by destruct Hx.
    + eapply size_set; [apply (tab_size _ _ _ _ Ht)|exact Hv|by rewrite Hk].
Qed.

Lemma wp_rebuild n X D h k s :
  inv n X D s → vw (manager s) h = Some (true, k) → (∀ x, X x → x = h) → ¬ D h →
  (∀ x, vw (manager s) x = Some (true, k) → ¬ D x) →
  wp (rebuild h)
    (λ _ s', inv n none D s' ∧
       ((∀ x, vw (manager s) x = Some (true, k) → x = h) →
        ∀ x, vw (manager s') x = vw (manager s) x)) s.
Proof.
  intros Hs Hk HX Hd Hds. unfold rebuild. wp.
  eapply wp_mono; [by eapply wp_deactivate_active|]. intros a1 s1 [Hs1 Hv1].
  eapply wp_mono; [apply (wp_activate_inactive n D h k); [done|by rewrite Hv1, decide_True|]|].
  { intros x. rewrite Hv1. case_decide; [done|]. apply Hds. }
  intros a2 s2 [Hs2 Hv2]. split; [done|]. intros Hu x. rewrite Hv2. unfold activated. rewrite Hv1.
  case_decide; [subst; by rewrite Hk|]. rewrite decide_False; [done|].
  intros Hx. by apply Hu in Hx.
Qed.

(** [update_pos] and [update_monitor]. *)
Lemma wp_update n h same f s :
  inv n none none s →
  wp (changed ← cm_call (set_if_changed h same f);
      when changed (rebuild h) ≫= λ _, broadcast_client h) (λ _, inv n none none) s.
Proof.
  intros Hs. wp. rewrite set_if_changed_result.
  assert (∀ s1, inv n none none s1 → wp (broadcast_client h) (λ _, inv n none none) s1) as Hb
    by (intros s1; apply calm_wp, calm_broadcast).
  assert (∀ x, vw (snd (set_if_changed h same f (manager s))) x =
    if decide (x = h) then
      (λ e : entry, (active (snd e), key_of (if same (fst e) then fst e else f (fst e)))) <$>
        slab_get h (manager s)
    else vw (manager s) x) as Hv.
  { intros x. unfold vw. rewrite get_set_if_changed. case_decide; [|done].
    destruct (slab_get h (manager s)) as [[c st]|]; cbn; [|done]. by destruct (same c). }
  destruct (slab_get h (manager s)) as [[c st]|] eqn:E; cbn in Hv |- *.
  - assert (vw (manager s) h = Some (active st, key_of c)) as Hk by (unfold vw; by rewrite E).
    pose proof (inv_retarget n h _ _ _ s _ Hs Hk Hv) as Hs1.
    destruct (same c) eqn:Ec; cbn.
    + apply Hb, (inv_sim _ _ _ s); [|done]. split; try done. intros x. cbn. rewrite Hv.
      case_decide; [by subst|done].
    + destruct (active st) eqn:Ea; [|by apply Hb].
      eapply wp_mono; [eapply wp_rebuild; [exact Hs1|cbn; by rewrite Hv, decide_True|done|apply not_none|intros; apply not_none]|].
      intros a s2 [Hs2 _]. by apply Hb.
  - apply Hb, (inv_sim _ _ _ s); [|done]. split; try done. intros x. cbn. rewrite Hv.
    case_decide; [|done]. subst. unfold vw. by rewrite E.
Qed.

(** ** Clients come and go *)

Lemma info_None s h : incoming_ok s → (h < 2 ^ 63)%N → incoming_conn_info s !! h = None.
Proof.
  intros Hi Hlt. destruct (incoming_conn_info s !! h) eqn:E; [|done].
  pose proof (inc_handles _ Hi h ltac:(by rewrite E)). lia.
Qed.

Lemma wp_remove_client n h s :
  inv n none none s →
  wp (remove_client h)
    (λ _ s', inv n none none s' ∧
       ∀ x, vw (manager s') x = if decide (x = h) then None else vw (manager s) x) s.
Proof.
  intros [Hr Ht Hi]. unfold remove_client. wp. unfold Clients.remove_client. rewrite remove_found.
  set (m' := snd (slab_try_remove h (manager s))).
  assert (∀ x, vw m' x = if decide (x = h) then None else vw (manager s) x) as Hv.
  { intros x. unfold vw, m'. rewrite get_remove. by case_decide. }
  assert (table_ok n none none m') as Ht'.
  { eapply table_set; [exact Ht|exact Hv|..]; try done.
    eapply size_set; [apply (tab_size _ _ _ _ Ht)|exact Hv|done]. }
  assert (∀ s1, inv n none none s1 → (∀ x, vw (manager s1) x = vw m' x) →
    wp (notify_frontend (Deleted h)) (λ _ s', inv n none none s' ∧
      ∀ x, vw (manager s') x = if decide (x = h) then None else vw (manager s) x) s1) as Hend.
  { intros s1 Hs1 Hm. eapply wp_mono; [apply calm_notify|]. intros a s' Hsim.
    split; [by apply (inv_sim _ _ _ s1)|]. intros x. by rewrite (sim_vw _ _ Hsim), Hm. }
  assert (∀ s1, manager s1 = m' → incoming_conn_info s1 = incoming_conn_info s →
    ∀ x, barrier_of s1 x = if decide (x = h) then incoming_key <$> incoming_conn_info s !! h
                           else barrier_of s x) as Hb.
  { intros s1 E1 E2 x. unfold barrier_of. rewrite E1, E2, Hv. case_decide; by subst. }
  destruct (vw (manager s) h) as [[b k]|] eqn:E.
  - assert (incoming_conn_info s !! h = None) as Hinfo.
    { apply info_None; [done|]. apply (tab_handles _ _ _ _ Ht). by rewrite E. }
    assert (default false (active ∘ snd <$> slab_get h (manager s)) = b) as ->.
    { unfold vw in E. destruct (slab_get h (manager s)) as [[c st]|]; [|done].
      by injection E as <- <-. }
    destruct b; apply Hend; try done.
    + split; [|done|by apply (incoming_sim s)].
      eapply (regs_destroy none none none none s _ h); [exact Hr|reflexivity| |apply not_none|left|].
      * unfold barrier_of. by rewrite E.
      * by rewrite Hb, decide_True, Hinfo.
      * intros x Hx. by rewrite Hb, decide_False.
    + split; [|done|by apply (incoming_sim s)].
      eapply regs_same; [exact Hr|done|]. intros x r. rewrite (Hb (set_manager m' s)) by done.
      case_decide; [subst|done]. rewrite Hinfo. unfold barrier_of. by rewrite E.
  - assert (slab_get h (manager s) = None) as Hg.
    { unfold vw in E. by destruct (slab_get h (manager s)). }
    rewrite Hg. cbn. apply Hend; [|done]. apply (inv_sim _ _ _ s); [|done]. split; try done.
    intros x. cbn. fold m'. rewrite Hv. case_decide; [by subst|done].
Qed.

Lemma size_add m m' h :
  (∀ x, is_Some (slab_get x m') → x = h ∨ is_Some (slab_get x m)) →
  (length (slab_iter m') ≤ length (slab_iter m) + 1)%nat.
Proof.
  intros Hin. rewrite <- !(length_fmap fst). change 1%nat with (length [h]). rewrite <- length_app.
  apply submseteq_length, NoDup_submseteq.
  - apply sorted_NoDup, iter_sorted.
  - intros x Hx. apply elem_of_app. apply (elem_of_registered x m') in Hx.
    destruct (Hin x Hx) as [->|Hm]; [right; by left|left]. by apply (elem_of_registered x m).
Qed.

(** A new inactive client. *)
Lemma inv_new_client n h k s m' :
  inv n none none s → (h < 2 ^ 63)%N → vw (manager s) h = None →
  (∀ x, vw m' x = if decide (x = h) then Some (false, k) else vw (manager s) x) →
  inv (n + 1) none none (set_manager m' s).
Proof.
  intros [Hr Ht Hi] Hlt Hh Hv. split; [| |by apply (incoming_sim s)].
  - eapply regs_same; [exact Hr|done|]. intros x r. unfold barrier_of. cbn. rewrite Hv.
    case_decide; [subst|done]. by rewrite Hh, info_None.
  - eapply table_set; [exact Ht|exact Hv|..]; try done.
    pose proof (tab_size _ _ _ _ Ht) as Hs. etransitivity; [apply (size_add (manager s) m' h)|lia].
    intros x. rewrite <- !vw_is_Some, Hv. case_decide; auto.
Qed.

Lemma insert_handle n e s :
  inv n none none s → (N.of_nat n < 2 ^ 63)%N →
  let h := fst (slab_insert e (manager s)) in (h < 2 ^ 63)%N ∧ vw (manager s) h = None.
Proof.
  intros Hs Hn. pose proof (tab_size _ _ _ _ (inv_table _ _ _ _ Hs)) as Hsize.
  destruct (insert_fresh e (manager s)) as [Hg Hlt]; [lia|]. split; [done|]. unfold vw. by rewrite Hg.
Qed.

Lemma wp_add_client n s :
  inv n none none s → (N.of_nat n < 2 ^ 63)%N → wp add_client (λ _, inv (n + 1) none none) s.
Proof.
  intros Hs Hn. unfold add_client. wp. unfold Clients.add_client.
  destruct (insert_handle n (default_config, default_state) s Hs Hn) as [Hlt Hh].
  set (h := fst (slab_insert _ (manager s))) in *.
  assert (∀ x, slab_get x (snd (slab_insert (default_config, default_state) (manager s))) =
    if decide (x = h) then Some (default_config, default_state) else slab_get x (manager s)) as Hg
    by (intros x; apply get_insert).
  cbn. unfold get_state. rewrite Hg, decide_True by done. apply calm_wp; [apply calm_notify|].
  eapply (inv_new_client n h (key_of default_config)); [done|done|done|].
  intros x. unfold vw. rewrite Hg. by case_decide.
Qed.

(** A client of the configuration, whether or not it is marked active. *)
Lemma wp_load_client n cc s :
  inv n none none s → (N.of_nat n < 2 ^ 63)%N →
  wp (load_client order cc) (λ _, inv (n + 1) none none) s.
Proof.
  intros Hs Hn. unfold load_client. wp. rewrite add_with_config_handle. unfold Clients.add_client.
  destruct (insert_handle n (default_config, default_state) s Hs Hn) as [Hlt Hh].
  pose proof (get_add_with_config order cc (manager s)) as Hg. unfold Clients.add_client in Hg.
  set (h := fst (slab_insert _ (manager s))) in *.
  set (m1 := snd (Clients.add_with_config order cc (manager s))) in *.
  set (e := (config_of order cc, state_of (config_of order cc) (cc_active cc))) in *.
  assert (∀ x, vw m1 x = if decide (x = h) then Some (cc_active cc, key_of (fst e))
                         else vw (manager s) x) as Hv.
  { intros x. unfold vw. rewrite Hg. by case_decide. }
  unfold get_state. cbn. rewrite Hg, decide_True by done. unfold e at 1. cbn. wp.
  assert (∀ s1, inv (n + 1) none none s1 → wp (notify_frontend
    (Created h (config_of order cc) (state_of (config_of order cc) (cc_active cc))))
    (λ _, inv (n + 1) none none) s1) as Hb by (intros s1; apply calm_wp, calm_notify).
  destruct (cc_active cc) eqn:Ea; cbn.
  - wp. eapply wp_mono; [|intros a s2; apply Hb]. eapply wp_activate; [|by intros x k b []].
    change (set_manager ?a (set_manager ?b s)) with (set_manager a s).
    eapply (inv_new_client n h (key_of (fst e))); [done|done|done|].
    intros x. cbn. rewrite vw_deactivate, !Hv. case_decide; [|done]. by rewrite decide_True.
  - apply Hb. by eapply (inv_new_client n h (key_of (fst e))).
Qed.

Lemma inv_resize n n' s :
  inv n none none s → (length (slab_iter (manager s)) ≤ n')%nat → inv n' none none s.
Proof. intros [Hr [] Hi] Hn. split; [done|by split|done]. Qed.

(** ** Incoming devices *)

Lemma find_incoming_Some a info h i :
  find_incoming a info = Some (h, i) → info !! h = Some i ∧ in_addr i = a.
Proof.
  unfold find_incoming. rewrite find_Some. intros (j & Hj & Ha%bool_decide_eq_true & _).
  split; [|done]. apply elem_of_map_to_list. by eapply list_elem_of_lookup_2.
Qed.

Lemma find_incoming_is_Some a info :
  (∃ h i, info !! h = Some i ∧ in_addr i = a) → is_Some (find_incoming a info).
Proof.
  unfold find_incoming. intros (h & i & Hi & Ha). apply elem_of_map_to_list in Hi.
  induction (map_to_list info) as [|[h' i'] l IH]; [by apply elem_of_nil in Hi|]. cbn.
  case_bool_decide; [eauto|]. apply elem_of_cons in Hi as [[= -> ->]|Hi]; [done|auto].
Qed.

Lemma vw_high n X D s h : inv n X D s → (2 ^ 63 ≤ h)%N → vw (manager s) h = None.
Proof.
  intros Hs Hh. destruct (vw (manager s) h) eqn:E; [|done].
  pose proof (tab_handles _ _ _ _ (inv_table _ _ _ _ Hs) h ltac:(by rewrite E)). lia.
Qed.

Lemma wp_add_incoming n a p fp s :
  inv n none none s → a ∉ incoming_conns s → (next_trigger_handle s + 1 < 2 ^ 63)%N →
  wp (add_incoming a p fp) (λ _, inv n none none) s.
Proof.
  intros Hs Ha Hn. unfold add_incoming. wp. cbn.
  assert (ENTER_HANDLE_BEGIN + next_trigger_handle s < 2 ^ 64)%N as Hlt
    by (unfold ENTER_HANDLE_BEGIN; lia).
  rewrite !N.mod_small by lia. set (h := (ENTER_HANDLE_BEGIN + next_trigger_handle s)%N) in *.
  assert (2 ^ 63 ≤ h)%N as Hge by (unfold h, ENTER_HANDLE_BEGIN; lia).
  pose proof (vw_high n none none s h Hs Hge) as Hh. destruct Hs as [Hr Ht Hi].
  assert (incoming_conn_info s !! h = None) as Hnone.
  { destruct (incoming_conn_info s !! h) eqn:E; [|done].
    pose proof (inc_handles _ Hi h ltac:(by rewrite E)). unfold h, ENTER_HANDLE_BEGIN in *. lia. }
  split; [|done|].
  - eapply regs_create; [exact Hr|reflexivity| | |apply not_none|].
    + left. unfold barrier_of. by rewrite Hh, Hnone.
    + unfold barrier_of. cbn. by rewrite Hh, lookup_insert_eq.
    + intros x Hx. unfold barrier_of. cbn. by rewrite lookup_insert_ne by done.
  - destruct Hi as [H1 H2 H3]. split; cbn.
    + intros x. destruct (decide (x = h)) as [->|Hx].
      * intros _. unfold h, ENTER_HANDLE_BEGIN. lia.
      * rewrite lookup_insert_ne by done. intros Hin%H1. lia.
    + intros b. rewrite elem_of_union, elem_of_singleton, H2. split.
      * intros [->|(x & i & Hx & <-)].
        -- exists h. eexists. by rewrite lookup_insert_eq.
        -- exists x, i. rewrite lookup_insert_ne; [done|]. intros ->. congruence.
      * intros (x & i & Hx & <-). destruct (decide (x = h)) as [->|Hne].
        -- rewrite lookup_insert_eq in Hx. injection Hx as <-. by left.
        -- rewrite lookup_insert_ne in Hx by done. right. eauto.
    + intros x y i j Hx Hy E.
      rewrite lookup_insert in Hx, Hy. do 2 case_decide; subst; try done.
      * injection Hy as <-. cbn in E. destruct Ha. apply H2. by exists x, i.
      * injection Hx as <-. cbn in E. destruct Ha. apply H2. by exists y, j.
      * by eapply H3.
Qed.

Lemma inv_exceptions n X s : inv n X none s → (∀ x, ¬ X x) → inv n none none s.
Proof.
  intros [Hr [Hu Hd Hh Hs] Hi] HX. split; [| |done].
  - eapply regs_same; [exact Hr|done|]. intros x r. apply agrees_mono; [|done]. by intros ?%HX.
  - split; try done. intros x y k _ _. by apply Hu.
Qed.

Lemma wp_remove_incoming n X a s :
  inv n X none s → (∀ x, X x → ∃ i, incoming_conn_info s !! x = Some i ∧ in_addr i = a) →
  wp (remove_incoming a)
    (λ _ s', inv n none none s' ∧ (a ∉ incoming_conns s') ∧
             next_trigger_handle s' = next_trigger_handle s) s.
Proof.
  intros Hs HX. unfold remove_incoming. wp.
  destruct (find_incoming a (incoming_conn_info s)) as [[h i]|] eqn:E.
  - apply find_incoming_Some in E as [Hh Ha]. wp. cbn.
    destruct Hs as [Hr Ht Hi]. pose proof (inc_handles _ Hi h ltac:(by rewrite Hh)) as Hrange.
    assert (∀ x, X x → x = h) as Honly.
    { intros x (j & Hj & Hja)%HX. eapply (inc_addr _ Hi); [done|done|congruence]. }
    assert (vw (manager s) h = None) as Hv by (eapply vw_high; [by split|lia]).
    assert (∀ x, (¬ (∃ b, vw (manager s) x = Some b)) ∨ x ≠ h) as Hx.
    { intros x. destruct (decide (x = h)) as [->|]; [left|by right]. rewrite Hv. by intros []. }
    split_and!; [split|set_solver|done].
    + eapply regs_destroy; [exact Hr|reflexivity| |apply not_none|left|].
      * unfold barrier_of. by rewrite Hv, Hh.
      * unfold barrier_of. cbn. by rewrite Hv, lookup_delete_eq.
      * intros x Hne. unfold barrier_of. cbn. rewrite lookup_delete_ne by done.
        split_and!; [done|by intros ?%Honly|done].
    + destruct Ht as [Hu Hd Hl Hn]. split; try done. intros x y k _ _ Hxa Hya.
      destruct (Hx x) as [[]|Hxh]; [eauto|]. destruct (Hx y) as [[]|Hyh]; [eauto|].
      eapply Hu; [..|exact Hxa|exact Hya]; by intros ?%Honly.
    + destruct Hi as [H1 H2 H3]. split; cbn.
      * intros x Hin. apply H1. destruct (decide (h = x)) as [->|]; [by rewrite Hh|].
        by rewrite lookup_delete_ne in Hin.
      * intros b. rewrite elem_of_difference, elem_of_singleton, H2. split.
        -- intros [(x & j & Hj & <-) Hb]. exists x, j. split; [|done].
           rewrite lookup_delete_ne; [done|]. intros ->. congruence.
        -- intros (x & j & Hj & <-). apply lookup_delete_Some in Hj as [Hne Hj].
           split; [eauto|]. intros Hb. apply Hne. eapply H3; [done..|congruence].
      * intros x y j k [_ Hj]%lookup_delete_Some [_ Hk]%lookup_delete_Some. by apply (H3 x y j k).
  - wp. assert (¬ (∃ x i, incoming_conn_info s !! x = Some i ∧ in_addr i = a)) as Hno.
    { intros Hin%find_incoming_is_Some. rewrite E in Hin. by destruct Hin. }
    split_and!; [|by rewrite (inc_conns _ (inv_incoming _ _ _ _ Hs))|done].
    eapply inv_exceptions; [done|]. intros x (i & Hi)%HX. eauto.
Qed.

Lemma wp_update_incoming n a p fp s :
  inv n none none s → a ∈ incoming_conns s → (next_trigger_handle s + 1 < 2 ^ 63)%N →
  wp (update_incoming a p fp) (λ _, inv n none none) s.
Proof.
  intros Hs Ha Hn. unfold update_incoming. wp.
  apply (inc_conns _ (inv_incoming _ _ _ _ Hs)) in Ha. apply find_incoming_is_Some in Ha as [[h i] Hf].
  rewrite Hf. apply find_incoming_Some in Hf as [Hh Ha]. wp.
  set (s1 := set_incoming _ _ _ s).
  destruct (negb (bool_decide (in_fingerprint i = fp)) || negb (bool_decide (in_pos i = p))) eqn:Ec.
  - wp. destruct Hs as [Hr Ht Hi]. pose proof (inc_handles _ Hi h ltac:(by rewrite Hh)) as Hrange.
    assert (vw (manager s) h = None) as Hv by (eapply vw_high; [by split|lia]).
    assert (inv n (only h) none s1) as Hs1.
    { split.
      - eapply regs_same; [exact Hr|done|]. intros x r. unfold barrier_of. cbn.
        destruct (decide (h = x)) as [<-|Hx];
          [rewrite lookup_insert_eq|rewrite lookup_insert_ne by done; apply agrees_mono; [by intros []|done]].
        rewrite Hv, Hh. cbn. intros [_ Hag]. split; [intros []|]. intros Hnn.
        destruct (Hag Hnn) as (k & -> & _). exists k. split; [done|]. intros Hx. by destruct Hx.
      - destruct Ht as [Hu Hd Hl Hz]. split; try done. intros x y k _ _. apply Hu; apply not_none.
      - destruct Hi as [H1 H2 H3]. split; cbn.
        + intros x. destruct (decide (h = x)) as [<-|Hx]; [done|].
          rewrite lookup_insert_ne by done. apply H1.
        + intros b. rewrite H2. split; intros (x & j & Hj & Hb).
          * destruct (decide (h = x)) as [->|Hx].
            -- exists x. eexists. rewrite lookup_insert_eq. split; [done|]. cbn. congruence.
            -- exists x, j. by rewrite lookup_insert_ne.
          * destruct (decide (h = x)) as [<-|Hx]; [|rewrite lookup_insert_ne in Hj by done; eauto].
            rewrite lookup_insert_eq in Hj. injection Hj as <-. by exists h, i.
        + intros x y j k Hj Hk E. assert (∀ z l,
            <[h := mkIncoming fp (in_addr i) p]> (incoming_conn_info s) !! z = Some l →
            ∃ l', incoming_conn_info s !! z = Some l' ∧ in_addr l' = in_addr l) as Hz.
          { intros z l. destruct (decide (h = z)) as [<-|Hx].
            - rewrite lookup_insert_eq. intros [= <-]. eauto.
            - rewrite lookup_insert_ne by done. eauto. }
          destruct (Hz x j Hj) as (j' & Hj' & Ej), (Hz y k Hk) as (k' & Hk' & Ek).
          apply (H3 x y j' k'); congruence. }
    eapply wp_mono; [apply (wp_remove_incoming n (only h)); [exact Hs1|]|].
    { intros x ->. exists (mkIncoming fp (in_addr i) p). cbn. by rewrite lookup_insert_eq. }
    intros o s2 (Hs2 & Hout & Hnext). wp.
    eapply wp_mono; [apply wp_add_incoming; [exact Hs2|done|rewrite Hnext; exact Hn]|].
    intros b s3 Hs3. wp. eapply wp_mono; [apply calm_notify|]. intros c s4 H4.
    apply calm_wp; [apply calm_notify|]. by apply (inv_sim _ _ _ s3).
  - wp. apply orb_false_iff in Ec as [E1%negb_false_iff E2%negb_false_iff].
    apply bool_decide_eq_true in E1, E2. apply (inv_sim _ _ _ s); [|done]. split; try done. cbn.
    apply insert_id. rewrite Hh. subst. by destruct i.
Qed.

(** ** Monitors come and go *)

(** The active clients bound to a monitor that [l] does not list. *)
Definition absent (l : list MonitorInfo) m h : Prop :=
  ∃ k id, vw m h = Some (true, k) ∧ key_monitor k = Some id ∧ present id l = false.

Lemma absent_ext l m m' h : (∀ x, vw m' x = vw m x) → absent l m' h ↔ absent l m h.
Proof. intros Hv. unfold absent. by rewrite Hv. Qed.

Lemma inv_detached_iff n D D' s : (∀ h, D h ↔ D' h) → inv n none D s → inv n none D' s.
Proof.
  intros HD [Hr [Hu Hd Hh Hs] Hi]. split; [| |done].
  - eapply regs_same; [exact Hr|done|]. intros x r. by apply agrees_mono.
  - split; try done. intros x Hx. by apply Hd, HD.
Qed.

Lemma wp_detach n D h k reason s :
  inv n none D s → vw (manager s) h = Some (true, k) → ¬ D h →
  wp (detach_capture h reason)
    (λ _ s', inv n none (λ x, D x ∨ x = h) s' ∧ manager s' = manager s) s.
Proof.
  intros [Hr Ht Hi] Hk Hd. unfold detach_capture. wp. unfold notify_frontend. wp.
  split; [|done]. split; [| |by apply (incoming_sim s)].
  - eapply regs_destroy; [exact Hr|cbn; by rewrite app_nil_r| |exact Hd|by right; right|].
    + unfold barrier_of. by rewrite Hk.
    + intros x Hx. split_and!; [done|done|]. split; [by left|by intros [|]].
  - destruct Ht as [Hu Hdd Hh Hs]. split; try done. intros x [Hx| ->]; [by apply Hdd|eauto].
Qed.

Lemma wp_reattach n D h s :
  inv n none D s → D h →
  wp (reattach_capture h)
    (λ _ s', inv n none (λ x, D x ∧ x ≠ h) s' ∧ manager s' = manager s) s.
Proof.
  intros [Hr Ht Hi] Hd. unfold reattach_capture. wp. rewrite get_key_vw.
  destruct (tab_detached _ _ _ _ Ht h Hd) as [k Hk]. rewrite Hk. cbn. wp.
  unfold broadcast_client, notify_frontend. wp. split; [|done].
  split; [| |by apply (incoming_sim s)].
  - eapply regs_create; [exact Hr|cbn; by rewrite app_nil_r|by right| |by intros []|].
    + unfold barrier_of. cbn. by rewrite Hk.
    + intros x Hx. split_and!; [done|done|]. split; [done|by intros []].
  - destruct Ht as [Hu Hdd Hh Hs]. split; try done. intros x [Hx _]. by apply Hdd.
Qed.

Lemma present_find id l : present id l = true ↔ is_Some (find_monitor id l).
Proof.
  unfold present, find_monitor. induction l as [|x l IH]; cbn; [split; [done|by intros []]|].
  case_bool_decide; cbn; [split; eauto|exact IH].
Qed.

Lemma bindings_spec l m h k :
  (h, k) ∈ bindings l m ↔ h ∈ l ∧ ∃ b, vw m h = Some (b, k).
Proof.
  unfold bindings. rewrite list_elem_of_omap. setoid_rewrite get_key_vw. split.
  - intros (x & Hx & E). destruct (vw m x) as [[b k']|] eqn:Ev; [|done]. injection E as <- <-. eauto.
  - intros (Hh & b & Hv). exists h. by rewrite Hv.
Qed.

(** The handles of a list made from another one by dropping elements. *)
Lemma NoDup_omap_fst {A B C} (f : A * B → option (A * C)) l :
  (∀ a b r, f (a, b) = Some r → fst r = a) → NoDup (fst <$> l) → NoDup (fst <$> omap f l).
Proof.
  intros Hf. induction l as [|[a b] l IH]; cbn; [done|].
  intros [Ha Hl]%NoDup_cons. destruct (f (a, b)) as [r|] eqn:E; [|auto].
  cbn. apply NoDup_cons. split; [|auto]. rewrite (Hf _ _ _ E). intros Hin. apply Ha.
  apply list_elem_of_fmap in Hin as (r' & Er & Hin). apply list_elem_of_omap in Hin as ([a' b'] & Hx & E').
  apply Hf in E'. apply list_elem_of_fmap. exists (a', b'). split; [|done]. cbn. congruence.
Qed.

Lemma NoDup_bindings l m : NoDup l → NoDup (fst <$> bindings l m).
Proof.
  unfold bindings. induction l as [|h l IH]; cbn; [done|]. intros [Hh Hl]%NoDup_cons.
  destruct (Clients.get_key h m); cbn; [|auto]. apply NoDup_cons. split; [|auto].
  intros Hin. apply Hh. apply list_elem_of_fmap in Hin as ([x k] & -> & Hin).
  by apply bindings_spec in Hin as [? _].
Qed.

Lemma wp_detach_all n D (act : gset ClientHandle) l s :
  inv n none D s → NoDup (fst <$> l) →
  (∀ h, h ∈ fst <$> l → h ∈ act → (∃ k, vw (manager s) h = Some (true, k)) ∧ ¬ D h) →
  wp (for_each (λ hr : ClientHandle * string,
        when (bool_decide (fst hr ∈ act)) (detach_capture (fst hr) (snd hr))) l)
    (λ _ s', inv n none (λ h, D h ∨ (h ∈ act ∧ h ∈ fst <$> l)) s' ∧ manager s' = manager s) s.
Proof.
  revert s D. induction l as [|[h reason] l IH]; intros s D Hs Hnd Hl; cbn.
  { split; [|done]. eapply inv_detached_iff; [|exact Hs]. intros x.
    split; [by left|]. intros [?|[_ Hx]]; [done|]. by apply elem_of_nil in Hx. }
  apply NoDup_cons in Hnd as [Hh Hnd]. wp. case_bool_decide as Hact.
  - destruct (Hl h (list_elem_of_here _ _) Hact) as [[k Hk] Hd].
    eapply wp_mono; [by eapply wp_detach|]. intros a1 s1 [Hs1 E1].
    eapply wp_mono; [apply (IH s1 (λ x, D x ∨ x = h)); [done|done|]|].
    + intros x Hx Hxa. rewrite E1. destruct (Hl x (list_elem_of_further _ _ _ Hx) Hxa) as [? ?].
      split; [done|]. intros [?| ->]; done.
    + intros a2 s2 [Hs2 E2]. split; [|by rewrite E2]. eapply inv_detached_iff; [|exact Hs2].
      intros x. rewrite elem_of_cons. naive_solver.
  - eapply wp_mono; [apply (IH s D); [done|done|]|].
    + intros x Hx. apply Hl. by right.
    + intros a2 s2 [Hs2 E2]. split; [|by rewrite E2]. eapply inv_detached_iff; [|exact Hs2].
      intros x. rewrite elem_of_cons. naive_solver.
Qed.

Lemma wp_reattach_all n D (act : gset ClientHandle) l s :
  inv n none D s → NoDup l → (∀ h, h ∈ l → h ∈ act → D h) →
  wp (for_each (λ h, when (bool_decide (h ∈ act)) (reattach_capture h)) l)
    (λ _ s', inv n none (λ h, D h ∧ ¬ (h ∈ act ∧ h ∈ l)) s' ∧ manager s' = manager s) s.
Proof.
  revert s D. induction l as [|h l IH]; intros s D Hs Hnd Hl; cbn.
  { split; [|done]. eapply inv_detached_iff; [|exact Hs]. intros x.
    split; [|by intros []]. intros Hx. split; [done|]. intros [_ Hin]. by apply elem_of_nil in Hin. }
  apply NoDup_cons in Hnd as [Hh Hnd]. wp. case_bool_decide as Hact.
  - pose proof (Hl h (list_elem_of_here _ _) Hact) as Hd.
    eapply wp_mono; [by eapply wp_reattach|]. intros a1 s1 [Hs1 E1].
    eapply wp_mono; [apply (IH s1 (λ x, D x ∧ x ≠ h)); [done|done|]|].
    + intros x Hx Hxa. split; [apply Hl; [by right|done]|]. by intros ->.
    + intros a2 s2 [Hs2 E2]. split; [|by rewrite E2]. eapply inv_detached_iff; [|exact Hs2].
      intros x. rewrite elem_of_cons. destruct (decide (x = h)); naive_solver.
  - eapply wp_mono; [apply (IH s D); [done|done|]|].
    + intros x Hx. apply Hl. by right.
    + intros a2 s2 [Hs2 E2]. split; [|by rewrite E2]. eapply inv_detached_iff; [|exact Hs2].
      intros x. rewrite elem_of_cons. naive_solver.
Qed.

Lemma wp_rebuild_all n D (l : list (ClientHandle * BarrierKey * BarrierKey)) s :
  inv n none D s →
  (∀ e, e ∈ l → (∃ k, vw (manager s) (fst (fst e)) = Some (true, k)) ∧ ¬ D (fst (fst e))) →
  wp (for_each (λ e, rebuild (fst (fst e))) l)
    (λ _ s', inv n none D s' ∧ ∀ x, vw (manager s') x = vw (manager s) x) s.
Proof.
  revert s. induction l as [|[[h k1] k2] l IH]; intros s Hs Hl; cbn; [done|].
  destruct (Hl (h, k1, k2) (list_elem_of_here _ _)) as [[k Hk] Hd]. cbn in Hk, Hd. wp.
  assert (∀ x, vw (manager s) x = Some (true, k) → x = h) as Hu.
  { intros x Hx. apply (tab_unique _ _ _ _ (inv_table _ _ _ _ Hs) x h k); try done;
      apply not_none. }
  eapply wp_mono; [eapply (wp_rebuild n none D h k); [done|done|done|done|]|].
  { by intros x ->%Hu. }
  intros a1 s1 [Hs1 Hv1]. specialize (Hv1 Hu).
  eapply wp_mono; [apply IH; [done|]|].
  - intros e He. rewrite Hv1. apply Hl. by right.
  - intros a2 s2 [Hs2 Hv2]. split; [done|]. intros x. by rewrite Hv2.
Qed.

(** Which clients the three phases of the reconciliation concern. *)
Definition lost (old new : list MonitorInfo) m h : Prop :=
  ∃ b k id, vw m h = Some (b, k) ∧ key_monitor k = Some id ∧
    present id old = true ∧ present id new = false.

Lemma elem_of_reconcile old new m h :
  h ∈ fst <$> reconcile_monitors (bindings (registered_clients m) m) new old ↔ lost old new m h.
Proof.
  unfold reconcile_monitors, bound, lost. rewrite list_elem_of_fmap. split.
  - intros ([h' r] & -> & Hin). apply list_elem_of_omap in Hin as ([x k] & Hin & E).
    apply bindings_spec in Hin as [_ [b Hv]]. destruct (key_monitor k) as [id|] eqn:Ek; [|done].
    cbn in E. destruct (present id old) eqn:Eo; [|done]. destruct (present id new) eqn:En; [done|].
    cbn in E. injection E as <- <-. eauto 8.
  - intros (b & k & id & Hv & Hk & Ho & Hn). eexists (h, _). split; [done|].
    apply list_elem_of_omap. exists (h, k). split.
    + apply bindings_spec. split; [|eauto]. apply elem_of_registered, vw_is_Some. by rewrite Hv.
    + rewrite Hk. cbn. by rewrite Ho, Hn.
Qed.

Lemma elem_of_recover old new m h :
  h ∈ recover_monitors (bindings (registered_clients m) m) new old ↔ lost new old m h.
Proof.
  unfold recover_monitors, bound, lost. rewrite list_elem_of_omap. split.
  - intros ([x k] & Hin & E). apply bindings_spec in Hin as [_ [b Hv]].
    destruct (key_monitor k) as [id|] eqn:Ek; [|done]. cbn in E.
    destruct (present id old) eqn:Eo; [done|]. destruct (present id new) eqn:En; [|done].
    cbn in E. injection E as <-. eauto 8.
  - intros (b & k & id & Hv & Hk & Hn & Ho). exists (h, k). split.
    + apply bindings_spec. split; [|eauto]. apply elem_of_registered, vw_is_Some. by rewrite Hv.
    + rewrite Hk. cbn. by rewrite Ho, Hn.
Qed.

Lemma elem_of_recreate old new m l e :
  e ∈ recreate_monitors (bindings l m) new old →
  fst (fst e) ∈ l ∧ ∃ b k id, vw m (fst (fst e)) = Some (b, k) ∧ key_monitor k = Some id ∧
    present id old = true ∧ present id new = true.
Proof.
  unfold recreate_monitors, bound. intros ([x k] & Hin & E)%list_elem_of_omap.
  apply bindings_spec in Hin as [Hx [b Hv]]. destruct (key_monitor k) as [id|] eqn:Ek; [|done].
  cbn in E. destruct (find_monitor id old) eqn:Eo; [|done]. destruct (find_monitor id new) eqn:En; [|done].
  destruct (monitor_geometry_changed _ _); [|done]. injection E as <-. split; [done|].
  exists b, k, id. rewrite !present_find, Eo, En. eauto.
Qed.

Lemma elem_of_act m h :
  h ∈ (list_to_set (active_clients m) : gset ClientHandle) ↔ ∃ k, vw m h = Some (true, k).
Proof.
  rewrite elem_of_list_to_set, elem_of_active. unfold is_active, vw. split.
  - intros (e & -> & Ha). exists (key_of (fst e)). cbn. by rewrite Ha.
  - intros (k & (e & He & [= Ha _])%fmap_Some). eauto.
Qed.

Lemma NoDup_registered m : NoDup (registered_clients m).
Proof. apply sorted_NoDup, iter_sorted. Qed.

Lemma NoDup_reconcile (l : list (ClientHandle * BarrierKey)) old new :
  NoDup (fst <$> l) → NoDup (fst <$> reconcile_monitors l new old).
Proof.
  apply NoDup_omap_fst. intros h k r. destruct (key_monitor k); cbn; [|done].
  destruct (_ && _); [|done]. by intros [= <-].
Qed.

Lemma NoDup_recover (l : list (ClientHandle * BarrierKey)) old new :
  NoDup (fst <$> l) → NoDup (recover_monitors l new old).
Proof.
  induction l as [|[h k] l IH]; cbn; [constructor|].
  intros [Hh Hl]%NoDup_cons. unfold recover_monitors, bound in *. cbn.
  destruct (key_monitor k); cbn; [|auto]. destruct (_ && _); [|auto].
  apply NoDup_cons. split; [|auto]. intros ([h' k'] & Hin & E)%list_elem_of_omap. apply Hh.
  apply list_elem_of_fmap. exists (h', k'). split; [|done]. cbn.
  destruct (key_monitor k'); [|done]. cbn in E. destruct (_ && _); [|done]. by injection E.
Qed.

(** The taken-out barriers after the first two phases. *)
Lemma detached_after (D : ClientHandle → Prop) (a : Prop) old new m h :
  (a ↔ ∃ k, vw m h = Some (true, k)) → (D h → absent old m h) →
  (absent old m h → ¬ absent new m h → D h) →
  (D h ∨ a ∧ lost old new m h) ∧ ¬ (a ∧ lost new old m h) ↔
  absent new m h ∧ (D h ∨ ¬ absent old m h).
Proof.
  intros Ha Hold Hback.
  destruct (vw m h) as [[[] k]|] eqn:Ev; [destruct (key_monitor k) as [id|] eqn:Ek|..].
  2-4: split; [intros [[Hd|[(k' & Hk')%Ha (b & k0 & id & Hv & Hk & _)]] _]|
               intros [(k' & id & Hv & Hk & _) _]]; try congruence;
       destruct (Hold Hd) as (k1 & id1 & Hv1 & Hk1 & _); congruence.
  assert a as Hact by (apply Ha; eauto).
  assert (∀ l, absent l m h ↔ present id l = false) as Habs.
  { intros l. split; [intros (k' & id' & ? & ? & ?); congruence|]. intros. by exists k, id. }
  assert (∀ l l', lost l l' m h ↔ present id l = true ∧ present id l' = false) as Hlo.
  { intros l l'. split; [intros (b' & k' & id' & ? & ? & ? & ?); split; congruence|].
    intros []. by exists true, k, id. }
  rewrite !Habs, !Hlo. rewrite !Habs in Hold, Hback.
  destruct (present id old), (present id new); naive_solver.
Qed.

(** The three phases together.  No barrier is registered twice when the active
    clients whose monitor is missing have theirs taken out ([Hback]). *)
Lemma wp_reconcile n D old new s :
  inv n none D s → (∀ h, D h → absent old (manager s) h) →
  (∀ h, absent old (manager s) h → ¬ absent new (manager s) h → D h) →
  wp (reconcile_monitors_changed new old)
    (λ _ s', inv n none
       (λ h, absent new (manager s) h ∧ (D h ∨ ¬ absent old (manager s) h)) s' ∧
       ∀ x, vw (manager s') x = vw (manager s) x) s.
Proof.
  intros Hs Hold Hback. unfold reconcile_monitors_changed. wp. cbv zeta. wp.
  set (m := manager s) in *. set (act := list_to_set (active_clients m)).
  pose proof (elem_of_act m : ∀ h, h ∈ act ↔ _) as Hact.
  pose proof (NoDup_bindings _ m (NoDup_registered m)) as Hnd.
  eapply wp_mono; [eapply (wp_detach_all n D act); [exact Hs|by apply NoDup_reconcile|]|].
  { intros h (b & k & id & Hv & Hk & Ho & Hn)%elem_of_reconcile Ha. split; [by apply Hact|].
    intros (k' & id' & Hv' & Hk' & Ho')%Hold. fold m in Hv'. congruence. }
  intros a1 s1 [Hs1 E1]. wp.
  eapply wp_mono; [eapply (wp_reattach_all n _ act); [exact Hs1|by apply NoDup_recover|]|].
  { intros h (b & k & id & Hv & Hk & Hn & Ho)%elem_of_recover [k0 Hk0]%Hact. left.
    rewrite Hk0 in Hv. simplify_eq. apply Hback.
    - by exists k, id.
    - intros (k' & id' & Hv' & Hk' & Hn'). fold m in Hv'. congruence. }
  intros a2 s2 [Hs2 E2]. wp.
  assert (manager s2 = m) as Em by (by rewrite E2, E1). rewrite Em. clear E1 E2.
  apply (inv_detached_iff n _ (λ h, absent new m h ∧ (D h ∨ ¬ absent old m h))) in Hs2;
    [|intros h; cbv beta; rewrite elem_of_reconcile, elem_of_recover; apply detached_after;
      [apply Hact|apply Hold|apply Hback]].
  eapply wp_mono; [eapply wp_rebuild_all; [exact Hs2|]|].
  { intros e [Hin (b & k & id & Hv & Hk & Ho & Hn)]%elem_of_recreate. rewrite Em. split.
    - apply Hact. unfold act. by apply elem_of_list_to_set.
    - intros [(k' & id' & Hv' & Hk' & Hn') _]. fold m in Hv'. congruence. }
  intros a3 s3 [Hs3 Hv3]. split; [done|]. intros x. by rewrite Hv3, Em.
Qed.

(** ** Every event *)

(** The barriers are in step: those of the active clients and of the incoming
    devices, no more and no less. *)
Definition in_step s : Prop := ∃ n, inv n none none s.

Lemma in_step_size s : in_step s → inv (length (slab_iter (manager s))) none none s.
Proof. intros [n Hs]. by eapply inv_resize. Qed.

Lemma wp_in_step {A} (c : M A) n s :
  wp c (λ _, inv n none none) s → wp c (λ _, in_step) s.
Proof. intros Hc. eapply wp_mono; [exact Hc|]. intros a s' Hs'. by exists n. Qed.

Lemma calm_in_step {A} (c : M A) s : calm c → in_step s → wp c (λ _, in_step) s.
Proof. intros Hc [n Hs]. eapply wp_in_step. by apply calm_wp. Qed.

(** The tree in memory can be written: its numbers are those of TOML. *)
Definition storable s : Prop := in_range (stored_tree s) = true.
Lemma wp_write_back s : storable s → wp write_back (λ _ s', s' = s) s.
Proof.
  intros Hs. unfold write_back. wp. pose proof (print_in_range (stored_tree s)) as Hp.
  destruct (to_string_pretty _); [done|]. unfold storable in Hs. congruence.
Qed.
Lemma write_back_panics s : ¬ storable s → write_back (S := S) s = (Panic, s).
Proof.
  intros Hs. unfold write_back, mbind, ST_bind, gets. pose proof (print_in_range (stored_tree s)) as Hp.
  by destruct (to_string_pretty _).
Qed.
Lemma wp_save s :
  storable s → wp save_config (λ _ s', sim s s' ∧ storable s') s.
Proof.
  intros Hs. unfold save_config, cm. wp. set (s1 := set_config _ s).
  assert (storable s1) as H1 by (revert Hs; unfold storable, s1, stored_tree; cbn; by destruct (to_config_client <$> _)).
  eapply wp_mono; [by apply wp_write_back|]. intros [] s' ->. split; [by split|done].
Qed.
Lemma calm_enumerate : calm (enumerate (S := S)).
Proof. apply calm_bind; [apply calm_gets|]. intros l. apply calm_notify. Qed.
Lemma calm_sync : calm (sync_frontend (S := S) default_accept_dir public_key_fingerprint).
Proof.
  apply calm_bind; [apply calm_enumerate|]. intros _. apply calm_bind; [apply calm_get|]. intros s.
  do 6 (apply calm_bind; [apply calm_notify|]; intros _).
  apply calm_bind; [destruct (svc_monitors s); [apply calm_notify|apply calm_ret]|].
  intros _. apply calm_notify.
Qed.

Lemma calm_table {A} (f : S → A * S) (g : A → M unit) :
  (∀ m x, vw (snd (f m)) x = vw m x) → (∀ a, calm (g a)) → calm (a ← cm_call f; g a).
Proof. intros Hf Hg. apply calm_bind; [by apply calm_cm_call|done]. Qed.
Lemma calm_table_do (f : S → S) h :
  (∀ m x, vw (f m) x = vw m x) → calm (cm_do f ≫= λ _, broadcast_client h).
Proof. intros Hf. apply calm_bind; [by apply calm_cm_do|]. intros _. apply calm_broadcast. Qed.

Lemma vw_clipboard h b m x : vw (snd (set_enable_clipboard_to h b m)) x = vw m x.
Proof.
  unfold vw, set_enable_clipboard_to. rewrite get_set_if_changed. case_decide; [subst|done].
  destruct (slab_get h m) as [[c st]|]; cbn; [|done]. by destruct (bool_decide _).
Qed.

(** ** The configuration *)

(** The handlers leave it alone, but for the two setters and the saves. *)
Lemma keeps_modify f : (∀ s, config (f s) = config s) → preserves storable (modify_st (E := Empty_set) f).
Proof. intros Hf s. unfold storable, stored_tree. cbn. by rewrite Hf. Qed.
Lemma keeps_cm_call {A} (f : S → A * S) : preserves storable (cm_call f).
Proof. intros s Hs. unfold cm_call. by destruct (f (manager s)). Qed.
Ltac keeps_with known :=
  repeat lazymatch goal with
  | |- preserves _ (mret _) => apply preserves_ret
  | |- preserves _ (mbind _ _) => apply preserves_bind; [|intros ?]
  | |- preserves _ (gets _) => apply preserves_gets
  | |- preserves _ get_st => by intros ?
  | |- preserves _ panic => apply preserves_panic
  | |- preserves _ (modify_st _) => apply keeps_modify; by intros
  | |- preserves _ (cm_call _) => apply keeps_cm_call
  | |- preserves _ (when _ _) => apply preserves_when
  | |- preserves _ (for_each _ _) => apply preserves_for_each; intros ?
  | |- preserves _ (cm _) => apply preserves_gets
  | |- preserves _ (cm_do _) => unfold cm_do
  | |- preserves _ (notify_frontend _) => unfold notify_frontend
  | |- preserves _ (Service.capture _) => unfold Service.capture
  | |- preserves _ (match _ with _ => _ end) => case_match
  | |- _ => known
  end.
Lemma keeps_broadcast h : preserves storable (broadcast_client h).
Proof. unfold broadcast_client. keeps_with fail. Qed.
Lemma keeps_resolve h : preserves storable (resolve h).
Proof. unfold resolve. keeps_with fail. Qed.
Lemma keeps_deactivate h : preserves storable (deactivate_client h).
Proof. unfold deactivate_client. keeps_with ltac:(simple apply keeps_broadcast). Qed.
Lemma keeps_activate h : preserves storable (activate_client h).
Proof.
  unfold activate_client.
  keeps_with ltac:(first [simple apply keeps_broadcast|simple apply keeps_resolve|simple apply keeps_deactivate]).
Qed.
Lemma keeps_remove h : preserves storable (remove_client h).
Proof. unfold remove_client. keeps_with fail. Qed.
Lemma keeps_rebuild h : preserves storable (rebuild h).
Proof. unfold rebuild. keeps_with ltac:(first [simple apply keeps_activate|simple apply keeps_deactivate]). Qed.
Lemma keeps_enumerate : preserves storable (enumerate (S := S)).
Proof. unfold enumerate. keeps_with fail. Qed.
Lemma keeps_sync : preserves storable (sync_frontend (S := S) default_accept_dir public_key_fingerprint).
Proof. unfold sync_frontend. keeps_with ltac:(simple apply keeps_enumerate). Qed.
Ltac kept :=
  unfold set_client_active, add_authorized_key, remove_authorized_key, change_port, add_client, update_fix_ips, update_hostname,
    update_port, update_pos, update_monitor, update_enter_hook, update_input_channels, set_enable_clipboard;
  keeps_with ltac:(idtac; lazymatch goal with
    | |- preserves _ (broadcast_client _) => apply keeps_broadcast
    | |- preserves _ (resolve _) => apply keeps_resolve
    | |- preserves _ (deactivate_client _) => apply keeps_deactivate
    | |- preserves _ (activate_client _) => apply keeps_activate
    | |- preserves _ (remove_client _) => apply keeps_remove
    | |- preserves _ (rebuild _) => apply keeps_rebuild
    | |- preserves _ (enumerate _) => apply keeps_enumerate
    | |- preserves _ (sync_frontend _ _) => apply keeps_sync
    | |- preserves _ enumerate => apply keeps_enumerate
    end).

(** Barriers in step, and a configuration that can be saved. *)
Definition in_order s : Prop := in_step s ∧ storable s.
Lemma wp_in_order n (c : M unit) s :
  wp c (λ _, inv n none none) s → preserves storable c → storable s → wp c (λ _, in_order) s.
Proof.
  intros Hc Hk Hs. eapply wp_mono; [by apply (wp_preserves storable); [exact Hc|..]|]. intros a s' [H1 H2].
  split; [by exists n|done].
Qed.
Lemma calm_in_order (c : M unit) s : calm c → preserves storable c → in_order s → wp c (λ _, in_order) s.
Proof. intros Hc Hk [[n Hs] Hst]. apply (wp_in_order n); [by apply calm_wp|done..]. Qed.
Lemma sim_in_order (c : M unit) s : wp c (λ _ s', sim s s' ∧ storable s') s → in_order s → wp c (λ _, in_order) s.
Proof.
  intros Hc [[n Hs] _]. eapply wp_mono; [exact Hc|]. intros a s' [Hsim Hst]. split; [|done]. exists n. by apply (inv_sim _ _ _ s).
Qed.
(** [and_save] after a handler that keeps step. *)
Lemma wp_and_save n (c : M unit) s :
  wp c (λ _, inv n none none) s → preserves storable c → storable s → wp (and_save c) (λ _, in_order) s.
Proof.
  intros Hc Hk Hst. unfold and_save. wp. eapply wp_mono; [by apply (wp_in_order n)|].
  intros a s1 Hs1. apply sim_in_order; [|done]. apply wp_save, Hs1.
Qed.
Lemma wp_and_save_calm (c : M unit) s : calm c → preserves storable c → in_order s → wp (and_save c) (λ _, in_order) s.
Proof. intros Hc Hk [[n Hs] Hst]. apply (wp_and_save n); [by apply calm_wp|done..]. Qed.

(** What an event needs: room for a new client or device, and numbers that TOML
    can hold, as those of a file that was parsed are. *)
Definition fits s (e : service_event) : Prop :=
  match e with
  | FromFrontend CreateClient => (N.of_nat (length (slab_iter (manager s))) < 2 ^ 63)%N
  | FromFrontend (SetQuicIdleTimeout secs) => (secs ≤ i64_max)%Z
  | FromFrontend (SetClipboardConfig cfg) => (Config.max_file_size cfg ≤ i64_max)%Z
  | ConfigChanged file =>
      (N.of_nat (length (Config.clients (Config.read_from_disk file (config s)))) < 2 ^ 63)%N ∧
      ∀ t, file = Some t → in_range t = true
  | FromEmulation (EmEntered _ _ _) => (next_trigger_handle s + 1 < 2 ^ 63)%N
  | _ => True
  end.

(** No monitor of an active client appears or disappears. *)
Definition monitors_stay s (e : service_event) : Prop :=
  match e, svc_monitors s with
  | FromCapture (MonitorsChanged new), Some old =>
      ∀ h k id, vw (manager s) h = Some (true, k) → key_monitor k = Some id →
        present id new = present id old
  | _, _ => True
  end.

Lemma wp_set_idle secs s :
  storable s → (secs ≤ i64_max)%Z → wp (set_quic_idle_timeout secs) (λ _ s', sim s s' ∧ storable s') s.
Proof.
  intros Hs Hle. unfold set_quic_idle_timeout, notify_frontend. wp.
  case_decide; wp; [by split; [split; try done; cbn; by rewrite app_nil_r|]|].
  assert (∀ s', stored_tree s' = stored_tree (set_config (Config.set_quic_idle_timeout (Z.max secs MIN_SECS) (config s)) s) → storable s') as Hst.
  { intros s' E. unfold storable. rewrite E. revert Hs. unfold storable, in_range. cbn.
    intros [_ Hr]%andb_true_iff. apply andb_true_iff. split; [|exact Hr]. unfold i64_fits. cbn. apply bool_decide_eq_true.
    unfold MIN_SECS, Config.MIN_IDLE_SECS, i64_max in *. lia. }
  eapply wp_mono; [by apply wp_write_back, Hst|]. intros [] s' ->. wp.
  split; [split; try done; cbn; by rewrite app_nil_r|by apply Hst].
Qed.
Lemma wp_set_clipboard cfg s :
  storable s → (Config.max_file_size cfg ≤ i64_max)%Z → wp (set_clipboard_config cfg) (λ _ s', sim s s' ∧ storable s') s.
Proof.
  intros Hs Hle. unfold set_clipboard_config, notify_frontend. wp.
  assert (∀ s', stored_tree s' = stored_tree (set_config (Config.set_clipboard_config cfg (config s)) s) → storable s') as Hst.
  { intros s' E. unfold storable. rewrite E. revert Hs. unfold storable, in_range. cbn.
    intros [H1 [_ Hr]%andb_true_iff]%andb_true_iff. apply andb_true_iff. split; [exact H1|]. apply andb_true_iff. split; [|exact Hr].
    unfold i64_fits. apply bool_decide_eq_true. case_match; cbn; [unfold i64_max; lia|done]. }
  eapply wp_mono; [by apply wp_write_back, Hst|]. intros [] s' ->. wp.
  split; [split; try done; cbn; by rewrite app_nil_r|by apply Hst].
Qed.

Lemma wp_frontend n r s :
  n = length (slab_iter (manager s)) → inv n none none s → storable s → fits s (FromFrontend r) →
  wp (handle_frontend_request default_accept_dir public_key_fingerprint r) (λ _, in_order) s.
Proof.
  intros Hn Hs Hst Hfit. assert (in_order s) as Hin by (split; [by exists n|done]).
  destruct r; cbn [handle_frontend_request].
  - apply (wp_and_save n); [|kept|done]. destruct active; [apply wp_activate; [done|by intros x k b []]|].
    apply wp_deactivate; [done|apply not_none].
  - apply wp_and_save_calm; [|kept|done]. apply calm_bind; [by apply calm_modify|]. intros _.
    apply calm_bind; [apply calm_gets|]. intros k. apply calm_notify.
  - apply calm_in_order; [|kept|done]. apply calm_bind; [apply calm_gets|]. intros p.
    case_decide; [apply calm_notify|apply calm_log].
  - apply (wp_and_save (n + 1)); [|kept|done]. apply wp_add_client; [done|by subst].
  - apply (wp_and_save n); [|kept|done]. eapply wp_mono; [by apply wp_remove_client|]. by intros a s' [].
  - apply (wp_in_order n); [|kept|done]. wp. by apply inv_request.
  - by apply calm_in_order; [apply calm_ret|kept|].
  - by apply calm_in_order; [apply calm_enumerate|kept|].
  - apply wp_and_save_calm; [|kept|done]. apply calm_table_do. intros m x. unfold set_fix_ips.
    rewrite vw_update_ips. by apply vw_modify.
  - apply wp_and_save_calm; [|kept|done]. apply calm_table; [intros; apply vw_set_hostname|]. intros b.
    apply calm_bind; [apply calm_when, calm_resolve|]. intros _. apply calm_broadcast.
  - apply wp_and_save_calm; [|kept|done]. apply calm_table_do. intros m x. by apply vw_modify_if.
  - apply (wp_and_save n); [|kept|done]. by apply wp_update.
  - apply (wp_and_save n); [|kept|done]. by apply wp_update.
  - apply calm_in_order; [apply calm_resolve|kept|done].
  - apply calm_in_order; [apply calm_sync|kept|done].
  - apply wp_and_save_calm; [|kept|done]. apply calm_bind; [by apply calm_modify|]. intros _.
    apply calm_bind; [apply calm_gets|]. intros k. apply calm_notify.
  - apply calm_in_order; [|kept|done]. apply calm_table_do. intros m x. by apply vw_modify.
  - apply wp_and_save_calm; [|kept|done].
    apply calm_table; [intros m x; by apply vw_modify_if|]. intros b. apply calm_when, calm_broadcast.
  - apply sim_in_order; [by apply wp_save|done].
  - apply sim_in_order; [by apply wp_set_idle|done].
  - apply sim_in_order; [by apply wp_set_clipboard|done].
  - apply wp_and_save_calm; [|kept|done]. apply calm_table; [intros; apply vw_clipboard|].
    intros b. apply calm_when, calm_broadcast.
Qed.

Lemma wp_emulation e s :
  in_step s → fits s (FromEmulation e) → wp (handle_emulation_event e) (λ _, in_step) s.
Proof.
  intros Hin Hfit. destruct e as [fp|a p fp|a|[err|p]| | | |a fp|a commit];
    cbn [handle_emulation_event].
  - by apply calm_in_step; [apply calm_notify|].
  - wp. case_decide as Ha; destruct Hin as [n Hs]; apply (wp_in_step _ n).
    + by apply wp_update_incoming.
    + wp. eapply wp_mono; [by apply wp_add_incoming|]. intros b s1. apply calm_wp, calm_notify.
  - apply calm_in_step; [|done]. apply calm_bind; [by apply calm_modify|]. intros _. apply calm_notify.
  - apply calm_in_step; [|done]. apply calm_bind; [apply calm_gets|]. intros p. apply calm_notify.
  - apply calm_in_step; [|done]. apply calm_bind; [by apply calm_modify|]. intros _. apply calm_notify.
  - apply calm_in_step; [|done]. apply calm_bind; [apply calm_gets|]. intros c.
    apply calm_bind; [by apply calm_modify|]. intros _. apply calm_notify.
  - apply calm_in_step; [|done]. apply calm_bind; [apply calm_gets|]. intros c.
    apply calm_bind; [by apply calm_modify|]. intros _. apply calm_notify.
  - destruct Hin as [n Hs]. apply (wp_in_step _ n). wp. by apply inv_request.
  - apply calm_in_step; [|done]. apply calm_bind; [by apply calm_modify|]. intros _. apply calm_notify.
  - apply calm_in_step; [|done]. apply calm_bind; [apply calm_gets|]. intros [h|]; [|apply calm_ret].
    apply calm_table_do. intros m x. by apply vw_modify.
Qed.

Lemma wp_resolver e s : in_step s → wp (handle_resolver_event e) (λ _, in_step) s.
Proof.
  apply calm_in_step. destruct e as [h|h name ips]; cbn [handle_resolver_event].
  - apply calm_table_do. intros m x. by apply vw_modify.
  - apply calm_bind; [apply calm_cm_do; intros m x; by apply vw_modify|]. intros _.
    apply calm_table_do. intros m x. unfold set_dns_ips. rewrite vw_update_ips. by apply vw_modify.
Qed.

Lemma inv_monitors n X D l s : inv n X D s → inv n X D (set_monitors l s).
Proof. intros [Hr Ht Hi]. split; [done|done|by apply (incoming_sim s)]. Qed.

Lemma wp_capture_event e s :
  in_step s → monitors_stay s (FromCapture e) → wp (handle_capture_event e) (λ _, in_step) s.
Proof.
  intros Hin Hstay. destruct e as [h| | |h|l]; cbn [handle_capture_event].
  - apply calm_in_step; [|done]. apply calm_bind; [apply calm_gets|]. intros info.
    destruct (info !! h); [apply calm_log|apply calm_ret].
  - apply calm_in_step; [|done]. apply calm_bind; [apply calm_gets|]. intros c.
    apply calm_bind; [by apply calm_modify|]. intros _. apply calm_notify.
  - apply calm_in_step; [|done]. apply calm_bind; [apply calm_gets|]. intros c.
    apply calm_bind; [by apply calm_modify|]. intros _. apply calm_notify.
  - apply calm_in_step; [|done]. apply calm_bind; [apply calm_gets|]. intros [c|];
      [apply calm_log|apply calm_ret].
  - wp. cbn [monitors_stay] in Hstay. destruct Hin as [n Hs].
    eapply wp_mono; [apply calm_notify|]. intros a s1 Hsim.
    pose proof (inv_sim _ _ _ _ _ Hsim (inv_monitors _ _ _ l _ Hs)) as Hs1.
    pose proof (sim_vw _ _ Hsim) as Hv. cbn in Hv.
    destruct (svc_monitors s) as [old|]; [|by exists n].
    assert (∀ h, absent l (manager s1) h ↔ absent old (manager s1) h) as Habs.
    { intros h. unfold absent. setoid_rewrite Hv.
      split; intros (k & id & Hk & Hm & Hp); exists k, id; by rewrite (Hstay h k id) in *. }
    eapply wp_mono; [apply (wp_reconcile n none); [done|by intros h []|]|].
    { intros h Ho Hn. by rewrite Habs in Hn. }
    intros b s2 [Hs2 _]. exists n. eapply inv_detached_iff; [|exact Hs2]. intros h. cbv beta.
    rewrite Habs. unfold none. tauto.
Qed.

Lemma wp_config_change n s :
  inv n none none s → (N.of_nat (length (Config.clients (config s))) < 2 ^ 63)%N →
  wp (handle_config_change order default_accept_dir public_key_fingerprint) (λ _, in_step) s.
Proof.
  intros Hs Hfit. unfold handle_config_change. wp.
  set (N := length (Config.clients (config s))) in *.
  eapply wp_mono.
  { apply (wp_for_each _ (λ l s', (inv n none none s' ∧ config s' = config s) ∧
      ∀ h, is_Some (vw (manager s') h) → h ∈ l)).
    - intros h l s1 [[Hs1 Ec] Hl]. eapply wp_mono.
      { apply wp_conj; [by apply wp_remove_client|].
        instantiate (1 := λ _ s', config s' = config s). unfold remove_client. wp.
        unfold when, notify_frontend. case_match; wp; exact Ec. }
      intros a s2 [[Hs2 Hv] Ec2]. split; [done|]. intros x. rewrite Hv.
      case_decide; [by intros []|]. intros Hx%Hl. by apply elem_of_cons in Hx as [->|].
    - split; [done|]. intros h Hh. by apply elem_of_registered, vw_is_Some. }
  intros a s1 [[Hs1 Ec] Hempty]. wp. rewrite Ec.
  assert (inv 0 none none s1) as H0'.
  { eapply inv_resize; [exact Hs1|]. destruct (slab_iter (manager s1)) as [|[h e] l] eqn:E; [done|].
    exfalso. eapply (not_elem_of_nil h), Hempty, vw_is_Some. exists e. apply iter_get.
    rewrite E. by left. }
  eapply wp_mono.
  { apply (wp_for_each _ (λ l s', ∃ k, inv k none none s' ∧ k + length l ≤ N)).
    - intros cc l s2 (k & Hs2 & Hk). cbn in Hk. eapply wp_mono; [apply wp_load_client; [done|lia]|].
      intros b s3 Hs3. exists (k + 1). split; [done|lia].
    - by exists 0. }
  intros b s2 (k & Hs2 & _). wp. eapply calm_in_step; [apply calm_sync|].
  exists k. eapply (inv_sim _ _ _ (log [SetReleaseBind (Config.release_bind (config s))] [] [] [] [] [] s2));
    [by split|by apply inv_request].
Qed.

Lemma keeps_config_change : preserves storable (handle_config_change order default_accept_dir public_key_fingerprint).
Proof. unfold handle_config_change, load_client. kept. Qed.
Lemma keeps_emulation e : preserves storable (handle_emulation_event e).
Proof.
  unfold handle_emulation_event, update_incoming, add_incoming, remove_incoming, status_change. kept.
Qed.
Lemma keeps_capture_event e : preserves storable (handle_capture_event e).
Proof.
  unfold handle_capture_event, reconcile_monitors_changed, detach_capture, reattach_capture, status_change. kept.
Qed.
Lemma keeps_resolver e : preserves storable (handle_resolver_event e).
Proof. unfold handle_resolver_event. kept. Qed.
Lemma wp_also (c : M unit) s : wp c (λ _, in_step) s → preserves storable c → storable s → wp c (λ _, in_order) s.
Proof. intros Hc Hk Hs. by apply (wp_preserves storable _ (λ _, in_step)). Qed.

Lemma wp_turn s e :
  in_order s → fits s e → monitors_stay s e →
  wp (service_turn order default_accept_dir public_key_fingerprint e) (λ _, in_order) s.
Proof.
  intros [Hin Hst] Hfit Hstay. pose proof (in_step_size s Hin) as Hs.
  destruct e as [r|e|e|e|file]; cbn [service_turn].
  - by eapply wp_frontend.
  - apply wp_also; [by apply wp_emulation|apply keeps_emulation|done].
  - apply wp_also; [by apply wp_capture_event|apply keeps_capture_event|done].
  - apply wp_also; [by apply wp_resolver|apply keeps_resolver|done].
  - destruct Hfit as [Hfit Hr]. wp. apply wp_also; [|apply keeps_config_change|].
    + eapply wp_config_change; [|exact Hfit]. by apply (inv_sim _ _ _ s).
    + destruct file as [t|]; [by apply Hr|exact Hst].
Qed.

(** ** The start *)

(** The state [Service::new] leaves: the clients of the configuration are in
    the table, some marked active, nothing is requested yet, and the tree is one
    that was read from the file, or none. *)
Record fresh s : Prop := {
  fresh_requests : requests s = [];
  fresh_conns : incoming_conns s = ∅;
  fresh_info : incoming_conn_info s = ∅;
  fresh_next : next_trigger_handle s = 0%N;
  fresh_stored : storable s;
  fresh_handles h : is_Some (slab_get h (manager s)) → (h < 2 ^ 63)%N
}.

Lemma wp_run_start s : fresh s → wp run_start (λ _, in_order) s.
Proof.
  intros Hs. apply wp_also; [|unfold run_start; kept|apply Hs]. unfold run_start. wp. set (l := active_clients (manager s)).
  assert (∀ h k, vw (manager s) h = Some (true, k) → h ∈ l) as Hl.
  { intros h k (e & He & [= Ha _])%fmap_Some. apply elem_of_active. exists e. by rewrite Ha. }
  eapply wp_mono.
  { apply (wp_for_each _ (λ l s', fresh s' ∧ ∀ h k, vw (manager s') h = Some (true, k) → h ∈ l));
      [|by split].
    intros h l' s1 [[H1 H2 H3 H4 Hst H5] Hl']. wp. split.
    - split; try done. cbn. intros x. rewrite <- vw_is_Some, vw_deactivate. intros Hx.
      apply H5, vw_is_Some. revert Hx. case_decide; [subst|done].
      unfold toggled. by rewrite fmap_is_Some.
    - intros x k. cbn. rewrite vw_deactivate. case_decide as Hx.
      + unfold toggled. by destruct (vw (manager s1) h) as [[]|].
      + intros Hv%Hl'. by apply elem_of_cons in Hv as [|]. }
  intros a s1 [[H1 H2 H3 H4 Hst H5] Hnone]. set (n := length (slab_iter (manager s1))).
  assert (inv n none none s1) as Hs1.
  { split.
    - exists ∅. rewrite H1. split; [done|]. intros h. unfold barrier_of. rewrite H3, !lookup_empty.
      destruct (vw (manager s1) h) as [[[] k]|] eqn:E; try done.
      by apply Hnone, elem_of_nil in E.
    - split; [|by intros h []| |done].
      + intros x y k _ _ Hx. by apply Hnone, elem_of_nil in Hx.
      + intros h. rewrite vw_is_Some. apply H5.
    - split; rewrite ?H2, ?H3, ?H4; [intros h; by rewrite lookup_empty; intros []| |].
      + intros b. split; [by intros ?%elem_of_empty|]. intros (h & i & Hi & _).
        by rewrite lookup_empty in Hi.
      + intros x y i j Hx. by rewrite lookup_empty in Hx. }
  eapply wp_mono; [apply (wp_for_each _ (λ _ s', inv n none none s'))|].
  - intros h l' s2 Hs2. apply wp_activate; [done|by intros x k b []].
  - done.
  - intros b s2 Hs2. by exists n.
Qed.

(** ** Requests only accumulate *)

Definition grown s s' : Prop :=
  (∃ q, requests s' = requests s ++ q) ∧ svc_monitors s' = svc_monitors s.
Definition grows {A} (c : M A) : Prop := ∀ s, wp c (λ _, grown s) s.

Lemma grows_bind {A B} (c : M A) (f : A → M B) : grows c → (∀ a, grows (f a)) → grows (c ≫= f).
Proof.
  intros Hc Hf s. apply wp_bind. eapply wp_mono; [apply Hc|]. intros a s1 [[q1 E1] M1].
  eapply wp_mono; [apply Hf|]. intros b s2 [[q2 E2] M2]. split; [|congruence].
  exists (q1 ++ q2). by rewrite E2, E1, app_assoc.
Qed.
Lemma calm_grows {A} (c : M A) : calm c → grows c.
Proof.
  intros Hc s. eapply wp_mono; [apply Hc|]. intros a s' Hsim. split; [|apply Hsim]. exists [].
  by rewrite (sim_requests _ _ Hsim), app_nil_r.
Qed.
Lemma grows_when b (c : M unit) : grows c → grows (when b c).
Proof. destruct b; [done|]. intros _. apply calm_grows, calm_ret. Qed.
Lemma grows_capture q : grows (Service.capture q).
Proof. intros s. split; [by exists [q]|done]. Qed.
Lemma grows_cm_call {A} (f : S → A * S) : grows (cm_call f).
Proof. intros s. apply wp_cm_call. split; [|done]. exists []. cbn. by rewrite app_nil_r. Qed.
Lemma grows_deactivate h : grows (deactivate_client h).
Proof.
  apply grows_bind; [apply grows_cm_call|]. intros b. apply grows_when.
  apply grows_bind; [apply grows_capture|]. intros _. apply calm_grows, calm_broadcast.
Qed.
Lemma grows_activate h : grows (activate_client h).
Proof.
  apply grows_bind; [apply calm_grows, calm_resolve|]. intros _.
  apply grows_bind; [apply calm_grows, calm_gets|]. intros [k|]; [|apply calm_grows, calm_ret].
  apply grows_bind; [apply calm_grows, calm_gets|]. intros o.
  apply grows_bind.
  { destruct o; [apply grows_when, grows_deactivate|apply calm_grows, calm_ret]. }
  intros _. apply grows_bind; [apply grows_cm_call|]. intros b. apply grows_when.
  apply grows_bind; [apply grows_capture|]. intros _.
  apply grows_bind; [apply calm_grows, calm_broadcast|]. intros _. apply grows_capture.
Qed.
Lemma grows_for_each {A} (f : A → M unit) l : (∀ x, grows (f x)) → grows (for_each f l).
Proof.
  intros Hf. induction l as [|x l IH]; cbn; [apply calm_grows, calm_ret|]. by apply grows_bind.
Qed.

Lemma grows_detach h reason : grows (detach_capture h reason).
Proof. apply grows_bind; [apply grows_capture|]. intros _. apply calm_grows, calm_notify. Qed.
Lemma grows_reattach h : grows (reattach_capture h).
Proof.
  apply grows_bind; [apply calm_grows, calm_gets|]. intros [k|]; [|apply calm_grows, calm_ret].
  apply grows_bind; [apply grows_capture|]. intros _. apply calm_grows, calm_broadcast.
Qed.
Lemma grows_rebuild h : grows (rebuild h).
Proof. apply grows_bind; [apply grows_deactivate|]. intros _. apply grows_activate. Qed.
Lemma grows_reconcile old new : grows (reconcile_monitors_changed new old).
Proof.
  apply grows_bind; [apply calm_grows, calm_gets|]. intros m. cbv zeta.
  apply grows_bind; [apply grows_for_each; intros x; apply grows_when, grows_detach|]. intros _.
  apply grows_bind; [apply grows_for_each; intros x; apply grows_when, grows_reattach|]. intros _.
  apply grows_bind; [apply calm_grows, calm_gets|]. intros m'.
  apply grows_for_each. intros x. apply grows_rebuild.
Qed.

(** One monitor list after another, from a state in which exactly the clients
    whose monitor is missing have their barrier taken out. *)
Lemma wp_monitors_changed n old l s :
  svc_monitors s = Some old → inv n none (absent old (manager s)) s →
  wp (handle_capture_event (MonitorsChanged l))
    (λ _ s', svc_monitors s' = Some l ∧ inv n none (absent l (manager s)) s' ∧
             ∀ x, vw (manager s') x = vw (manager s) x) s.
Proof.
  intros Hold Hs. cbn [handle_capture_event]. wp. rewrite Hold.
  eapply wp_mono; [apply calm_notify|]. intros a s1 Hsim.
  pose proof (inv_sim _ _ _ _ _ Hsim (inv_monitors _ _ _ l _ Hs)) as Hs1.
  pose proof (sim_vw _ _ Hsim) as Hv. cbn in Hv.
  pose proof (λ l' h, absent_ext l' (manager s) (manager s1) h Hv) as Habs.
  eapply wp_mono; [eapply wp_conj; [apply grows_reconcile|apply (wp_reconcile n (absent old (manager s)))]|].
  - exact Hs1.
  - intros h. by rewrite Habs.
  - intros h. by rewrite !Habs.
  - intros b s2 [[_ Em] [Hs2 Hv2]]. split_and!.
    + rewrite Em, (sim_monitors _ _ Hsim). done.
    + eapply inv_detached_iff; [|exact Hs2]. intros h. cbv beta. rewrite !Habs.
      split; [by intros [? _]|]. intros Ha. split; [done|].
      destruct Ha as (k & id & Hk & Hid & _). destruct (present id old) eqn:Ep.
      * right. intros (k' & id' & Hk' & Hid' & Hp'). congruence.
      * left. by exists k, id.
    + intros x. by rewrite Hv2, Hv.
Qed.

Lemma wp_monitor_lists n old ls s :
  svc_monitors s = Some old → inv n none (absent old (manager s)) s →
  wp (for_each (λ l, handle_capture_event (MonitorsChanged l)) ls)
    (λ _ s', inv n none (absent (default old (last ls)) (manager s)) s' ∧
             ∀ x, vw (manager s') x = vw (manager s) x) s.
Proof.
  revert old s. induction ls as [|l ls IH]; intros old s Hold Hs; cbn [for_each]; [done|]. wp.
  eapply wp_mono; [by eapply wp_monitors_changed|]. intros a s1 (H1 & Hs1 & Hv1).
  eapply wp_mono; [apply (IH l); [done|]|].
  - eapply inv_detached_iff; [|exact Hs1]. intros h. symmetry. by apply absent_ext.
  - intros b s2 [Hs2 Hv2]. split; [|intros x; by rewrite Hv2].
    eapply inv_detached_iff; [|exact Hs2]. intros h. cbv beta. rewrite absent_ext by done.
    destruct ls as [|l' ls]; [done|]. by rewrite (last_cons_cons l l' ls); destruct (last (l' :: ls)) eqn:E; [|by apply last_None in E].
Qed.

(** The barriers that a round of [reattach_capture] registers. *)
Definition creates (act : gset ClientHandle) m (l : list ClientHandle) : list CaptureRequest :=
  omap (λ h, if decide (h ∈ act) then (λ k, Create h k Default) <$> Clients.get_key h m else None) l.

Lemma reattach_requests (act : gset ClientHandle) l s :
  wp (for_each (λ h, when (bool_decide (h ∈ act)) (reattach_capture h)) l)
    (λ _ s', requests s' = requests s ++ creates act (manager s) l) s.
Proof.
  revert s. induction l as [|h l IH]; intros s; cbn; [by rewrite app_nil_r|]. wp.
  case_bool_decide as Ha; [|rewrite decide_False by done; apply IH].
  rewrite decide_True by done. unfold reattach_capture. wp.
  destruct (Clients.get_key h (manager s)) as [k|]; cbn; wp; [|apply IH].
  unfold broadcast_client, notify_frontend. wp. eapply wp_mono; [apply IH|].
  intros a s' ->. cbn. by rewrite app_nil_r, <- app_assoc.
Qed.

Lemma creates_twice (act : gset ClientHandle) m l h r :
  h ∈ l → h ∈ act → is_Some (Clients.get_key h m) → is_Some (r !! h) →
  reg_run r (creates act m l) = None.
Proof.
  intros Hl Ha Hk. revert r. induction l as [|x l IH]; intros r Hr; [by apply elem_of_nil in Hl|].
  cbn. assert (∀ r', is_Some (r' !! h) → h ∈ l → reg_run r' (creates act m l) = None) as IH'
    by (intros; by apply IH).
  apply elem_of_cons in Hl as [<-|Hl].
  - destruct Hk as [k Hk], Hr as [k' Hr]. rewrite decide_True, Hk by done. cbn. by rewrite Hr.
  - destruct (if decide (x ∈ act) then _ else _) as [q|] eqn:E; [|by apply IH'].
    case_decide; [|done]. destruct (Clients.get_key x m) as [k|]; [|done]. injection E as <-. cbn.
    destruct (r !! x) eqn:Ex; [done|]. apply IH'; [|done].
    destruct Hr as [k' Hr]. rewrite lookup_insert_ne; [by exists k'|]. intros ->. congruence.
Qed.

(** A taken-out barrier is taken out again. *)
Lemma inv_destroy_twice n X D s s' h :
  inv n X D s → D h → requests s' = requests s ++ [Destroy h] → reg_run ∅ (requests s') = None.
Proof.
  intros [(r & Hr & Hag) Ht _] Hd Hq. rewrite Hq, reg_run_app, Hr. cbn.
  destruct (tab_detached _ _ _ _ Ht h Hd) as [k Hk]. specialize (Hag h).
  unfold barrier_of in Hag. rewrite Hk in Hag. destruct Hag as [Hnone _]. by rewrite Hnone.
Qed.

Lemma deactivate_requests h k s :
  vw (manager s) h = Some (true, k) →
  wp (deactivate_client h) (λ _ s', requests s' = requests s ++ [Destroy h]) s.
Proof.
  intros Hk. unfold deactivate_client. wp. rewrite deactivate_result, Hk. wp.
  eapply wp_mono; [apply calm_broadcast|]. intros a s' Hsim. by rewrite (sim_requests _ _ Hsim).
Qed.

Lemma remove_requests h k s :
  vw (manager s) h = Some (true, k) →
  wp (remove_client h) (λ _ s', requests s' = requests s ++ [Destroy h]) s.
Proof.
  intros Hk. unfold remove_client. wp. unfold Clients.remove_client. rewrite remove_found.
  unfold vw in Hk. apply fmap_Some in Hk as (e & He & [= Ha _]). rewrite He. cbn. rewrite <- Ha.
  unfold notify_frontend. wp. cbn. by rewrite app_nil_r.
Qed.

(** A barrier that is in place is registered again when the monitor shows up. *)
Lemma reconcile_twice n old new s h :
  inv n none none s → absent old (manager s) h → ¬ absent new (manager s) h →
  wp (reconcile_monitors_changed new old) (λ _ s', reg_run ∅ (requests s') = None) s.
Proof.
  intros Hs Hold Hnew. unfold reconcile_monitors_changed. wp. cbv zeta. wp.
  set (m := manager s) in *. set (act := list_to_set (active_clients m)).
  pose proof (λ x, proj1 (elem_of_act m x)) as Hact.
  pose proof (NoDup_bindings _ m (NoDup_registered m)) as Hnd.
  eapply wp_mono; [eapply (wp_detach_all n none act); [exact Hs|by apply NoDup_reconcile|]|].
  { intros x Hx Ha. split; [by apply Hact|apply not_none]. }
  intros a1 s1 [Hs1 E1]. wp.
  eapply wp_mono; [apply reattach_requests|]. intros a2 s2 E2. wp.
  eapply wp_mono; [apply grows_for_each; intros x; apply grows_rebuild|].
  intros a3 s3 [[q ->] _]. rewrite E2, E1, <- app_assoc.
  destruct Hs1 as [(r & Hr & Hag) _ _]. rewrite reg_run_app, Hr. cbn. rewrite reg_run_app.
  destruct Hold as (k & id & Hk & Hid & Hp). rewrite (creates_twice _ _ _ h); [done|..].
  - apply elem_of_recover. exists true, k, id. split_and!; try done.
    destruct (present id new) eqn:Ep; [done|]. destruct Hnew. by exists k, id.
  - apply elem_of_act. eauto.
  - rewrite get_key_vw. fold m. by rewrite Hk.
  - specialize (Hag h). unfold barrier_of in Hag. rewrite E1 in Hag; fold m in Hag; rewrite Hk in Hag. destruct Hag as [_ Hag].
    destruct Hag as (k' & -> & _); [|done]. intros [[]|[_ Hl]].
    apply elem_of_reconcile in Hl as (b & k' & id' & Hk' & Hid' & Hp' & _). congruence.
Qed.
End handlers.
