(* ===== verification/Daemon.v ===== *)
(** The control plane and the capture task together: the states the daemon
    reaches, and what the capture task makes of the requests sent so far. *)

From S2P Require Import Prelude Transport Geometry Net Clients Scancode InputCapture CaptureTask.
From S2P Require Config.
From S2P Require Import Toml Service Registry Sync.

(** * Reachable states *)

Inductive reachable {S} `{Slab S} `{TomlText} (order : gset IpAddr → list IpAddr) (dir fp : string)
    : Service S → Prop :=
| at_start s s' : fresh s → run_start s = (Ok tt, s') → reachable order dir fp s'
| after_event s e s' :
    reachable order dir fp s → fits s e → monitors_stay s e →
    service_turn order dir fp e s = (Ok tt, s') → reachable order dir fp s'.

Section reachable.
Context {S : Type} `{SlabLaws S} {TT : TomlText} {TL : TomlLaws} {B : Type} `{Capture B}.
Variable order : gset IpAddr → list IpAddr.
Variables dir fp : string.
Hypothesis Hquiet : quiet B.
Variable send_ok : nat → bool.
Variable clock : nat → Z.
Variable held_order : gset Linux.Linux → list Linux.Linux.
Implicit Types (s : Service S) (c : CState B).

Lemma reachable_in_order s : reachable order dir fp s → in_order s.
Proof.
  induction 1 as [s s' Hf E|s e s' Hr IH Hfit Hstay E].
  - by eapply (wp_eq _ _ _ _ _ (wp_run_start s Hf)).
  - by eapply (wp_eq _ _ _ _ _ (wp_turn order dir fp s e IH Hfit Hstay)).
Qed.

(** The capture task, on a fresh multiplexer, served the requests so far. *)
Definition replay s c : outcome CaptureError unit * CState B :=
  for_each (on_request send_ok clock held_order) (requests s) c.

Lemma new_regs b c : ic c = new b → regs_are ∅ c.
Proof.
  intros E. unfold regs_are. rewrite E. split; [done|]. split; cbn.
  - intros id key. rewrite !lookup_empty. cbn. by rewrite elem_of_nil.
  - intros key v. by rewrite lookup_empty.
  - intros key v. by rewrite lookup_empty.
Qed.

Lemma replay_ok n D s c b :
  inv n none D s → ic c = new b →
  ∃ c', replay s c = (Ok tt, c') ∧
    ∀ h, (D h → id_map (ic c') !! h = None) ∧
         (¬ D h → id_map (ic c') !! h = barrier_of s h).
Proof.
  intros [(r & Hr & Hag) _ _] Hc%new_regs.
  pose proof (requests_refine Hquiet send_ok clock held_order (requests s) ∅ c Hc) as Href.
  rewrite Hr in Href. apply wp_Ok in Href as ([] & c' & E & [Hid _]). exists c'. split; [done|].
  intros h. specialize (Hag h). rewrite Hid. destruct (barrier_of s h) as [k|]; cbn in Hag; [|done].
  destruct Hag as [Hout Hin]. split; [done|]. intros Hd. destruct (Hin Hd) as (k' & -> & Hk).
  f_equal. apply Hk. apply not_none.
Qed.

Lemma replay_panic s c b :
  reg_run ∅ (requests s) = None → ic c = new b → fst (replay s c) = Panic.
Proof.
  intros Hr Hc%new_regs.
  pose proof (requests_refine Hquiet send_ok clock held_order (requests s) ∅ c Hc) as Href.
  by rewrite Hr in Href.
Qed.
End reachable.

(** * A small system, on which the theorems are applied *)

#[local] Existing Instance TomlDemo.demo_toml.
#[local] Existing Instance TomlDemo.demo_laws.

Module Sample.
(** Two active clients at the left edge, the second one of the monitor HDMI-1. *)
Definition table : VecSlab.t :=
  foldl (client_step elements) (slab_new (S := VecSlab.t))
    [AddClient; AddClient; SetMonitor 1 (Some "HDMI-1"); ActivateClient 0; ActivateClient 1].
Definition service : Service VecSlab.t :=
  mkService table (Config.mkConfigFile Config.no_args None) ∅ ∅ ∅ ∅ 0%N None 4242 5 Disabled Disabled
    [] [] [] [] [] [].
Definition started : Service VecSlab.t := snd (run_start service).
Definition task : CState ScriptBackend :=
  mkC (mkTask None [] [] Idle false (mkWatchdog 0 [] 0) default_watchdog [])
    (InputCapture.new (mkScript ∅ 0 [])) 0 [] [] [].
Definition shows (l : list MonitorInfo) (s : Service VecSlab.t) : Service VecSlab.t :=
  snd (handle_capture_event (MonitorsChanged l) s).
Definition hdmi : MonitorInfo :=
  mkMonitor "HDMI-1" "HDMI-1" (0, 0)%Z (1920, 1080)%Z true (SpecFloat.S754_zero false).

Lemma quiet_script : quiet ScriptBackend.
Proof. by split. Qed.

Lemma get_lt (s : VecSlab.t) h : is_Some (slab_get h s) → (N.to_nat h < length s)%nat.
Proof.
  intros [e He]. apply lookup_lt_is_Some. change (s !! N.to_nat h ≫= id = Some e) in He.
  by destruct (s !! N.to_nat h).
Qed.

Lemma fresh_service : fresh service.
Proof.
  split; try done. intros h Hlt%get_lt.
  replace (length _) with 2 in Hlt by (by vm_compute). lia.
Qed.

Lemma reachable_started : reachable elements "" "" started.
Proof. apply (at_start _ _ _ service); [apply fresh_service|by vm_compute]. Qed.

(** The first list of monitors. *)
Lemma reachable_shows l :
  fst (handle_capture_event (MonitorsChanged l) started) = Ok tt →
  reachable elements "" "" (shows l started).
Proof.
  intros E. eapply (after_event _ _ _ started (FromCapture (MonitorsChanged l)));
    [apply reachable_started|done|by vm_compute|].
  cbn [service_turn]. unfold shows. destruct (handle_capture_event _ started) as [o s]. cbn in *.
  by subst o.
Qed.

Lemma active_1 : vw (manager started) 1%N = Some (true, mkKey Edge.Left (Some "HDMI-1") 0 10000).
Proof. by vm_compute. Qed.

(** With HDMI-1 connected nothing is absent. *)
Lemma none_absent h : ¬ absent [hdmi] (manager (shows [hdmi] started)) h.
Proof.
  intros (k & id & Hk & Hid & Hp).
  assert (N.to_nat h < 2)%nat as Hlt.
  { replace 2 with (length (manager (shows [hdmi] started))) by (by vm_compute).
    apply get_lt, vw_is_Some. by rewrite Hk. }
  assert (h = 0%N ∨ h = 1%N) as [-> | ->] by lia; vm_compute in Hk; injection Hk as <-; [done|].
  injection Hid as <-. done.
Qed.
End Sample.

(** * Properties *)

(** C1. The control plane and the capture task agree.  From the start and over
    any sequence of events that does not change the presence of a bound
    monitor and whose numbers TOML can hold (a timeout or a file size of a
    frontend is at most [i64::MAX]: beyond that the save panics,
    [wide_number_panics]): no handler panics, the saves included; replaying the
    requests sent so far, the capture task never registers a handle twice nor
    destroys an unknown one, and ends with exactly the barriers of the active
    clients and of the incoming devices; and no two active clients share an edge
    of a monitor. *)
Theorem barriers_in_step {S} `{SlabLaws S} `{TomlLaws} {B} `{Capture B} order dir fp send_ok clock held_order
    (s : Service S) (c : CState B) b :
  quiet B → reachable order dir fp s → ic c = new b →
  (∃ c', replay send_ok clock held_order s c = (Ok tt, c') ∧
     ∀ h, id_map (ic c') !! h = barrier_of s h) ∧
  (∀ x y k, vw (manager s) x = Some (true, k) → vw (manager s) y = Some (true, k) → x = y) ∧
  (∀ e, fits s e → monitors_stay s e → ∃ s', service_turn order dir fp e s = (Ok tt, s')).
Proof.
  intros Hq Hr Hc. apply reachable_in_order in Hr as Hin. destruct (Hin) as [[n Hs] _]. split_and!.
  - destruct (replay_ok Hq send_ok clock held_order n none s c b Hs Hc) as (c' & E & Hid).
    exists c'. split; [done|]. intros h. apply Hid, not_none.
  - intros x y k. apply (tab_unique _ _ _ _ (inv_table _ _ _ _ Hs)); apply not_none.
  - intros e Hfit Hstay. pose proof (wp_turn order dir fp s e Hin Hfit Hstay) as Hw.
    apply wp_Ok in Hw as ([] & s' & E & _). eauto.
Qed.

Lemma barriers_in_step_witness :
  ∃ c', replay (λ _, true) (λ _, 0%Z) elements Sample.started Sample.task = (Ok tt, c') ∧
    id_map (ic c') !! 1%N = Some (mkKey Edge.Left (Some "HDMI-1") 0 10000).
Proof.
  destruct (barriers_in_step elements "" "" (λ _, true) (λ _, 0%Z) elements Sample.started Sample.task
    (mkScript ∅ 0 []) Sample.quiet_script Sample.reachable_started eq_refl) as [(c' & E & Hid) _].
  exists c'. split; [exact E|]. rewrite Hid. by vm_compute.
Defined.

(** The numbers that are left out: a frontend that sets a timeout, other than the
    one in effect, or a largest file size beyond [i64::MAX] panics the daemon, in
    any state. *)
Theorem wide_number_panics {S} `{Slab S} `{TomlLaws} order dir fp (s : Service S) r :
  match r with
  | SetQuicIdleTimeout secs => (i64_max < secs)%Z ∧ quic_idle_timeout_secs s ≠ secs
  | SetClipboardConfig cfg => (i64_max < Config.max_file_size cfg)%Z
  | _ => False
  end →
  fst (service_turn order dir fp (FromFrontend r) s) = Panic.
Proof.
  assert (∀ (s1 : Service S) (k : ST (Service S) Empty_set unit),
    ¬ storable s1 → fst ((write_back ≫= λ _, k) s1) = Panic) as Hw.
  { intros s1 k Hn. unfold mbind, ST_bind. by rewrite write_back_panics. }
  destruct r as [| | | | | | | | | | | | | | | | | | |secs|cfg|]; try done; cbn [service_turn handle_frontend_request].
  - intros [Hlt Hne]. unfold set_quic_idle_timeout, mbind at 1, ST_bind at 1, gets.
    rewrite decide_False by (unfold MIN_SECS, i64_max in *; lia).
    apply Hw. unfold storable, in_range. cbn. unfold i64_fits. cbn.
    rewrite bool_decide_eq_false_2; [done|]. unfold Config.MIN_IDLE_SECS, MIN_SECS, i64_max in *. lia.
  - intros Hlt. apply Hw. unfold storable, in_range. cbn.
    rewrite (proj2 (Z.eqb_neq _ _)) by (unfold Config.DEFAULT_MAX_FILE_SIZE, i64_max in *; lia).
    unfold i64_fits at 2. cbn. rewrite bool_decide_eq_false_2 by lia. by rewrite andb_false_r.
Qed.

Lemma wide_number_panics_witness :
  fst (service_turn elements "" "" (FromFrontend (SetQuicIdleTimeout (2 ^ 63))) Sample.started) = Panic.
Proof. apply (wide_number_panics elements "" "" Sample.started). by vm_compute. Defined.

(** C32. Sleep and wake.  Once the monitors are known and every active client
    sees its own, any sequence of monitor lists is handled without a panic on
    either side: afterwards the barriers of the clients whose monitor is
    missing from the last list are taken out, all the others are in place, and
    the client table is unchanged, so that the barriers are back when the
    monitors are. *)
Theorem sleep_wake {S} `{SlabLaws S} `{TomlLaws} {B} `{Capture B} order dir fp send_ok clock held_order
    (s : Service S) (c : CState B) b old ls :
  quiet B → reachable order dir fp s → ic c = new b →
  svc_monitors s = Some old → (∀ h, ¬ absent old (manager s) h) →
  ∃ s', for_each (λ l, handle_capture_event (MonitorsChanged l)) ls s = (Ok tt, s') ∧
    (∀ h, vw (manager s') h = vw (manager s) h) ∧
    ∃ c', replay send_ok clock held_order s' c = (Ok tt, c') ∧
      let fin := default old (last ls) in
      ∀ h, (absent fin (manager s) h → id_map (ic c') !! h = None) ∧
           (¬ absent fin (manager s) h → id_map (ic c') !! h = barrier_of s' h).
Proof.
  intros Hq Hr Hc Hold Hall. apply reachable_in_order in Hr as [[n Hs] Hst].
  assert (inv n none (absent old (manager s)) s) as Hs'.
  { eapply inv_detached_iff; [|exact Hs]. intros h. specialize (Hall h). unfold none. tauto. }
  pose proof (wp_monitor_lists n old ls s Hold Hs') as Hw.
  apply wp_Ok in Hw as ([] & s' & E & Hs2 & Hv). exists s'. split_and!; [done|done|].
  destruct (replay_ok Hq send_ok clock held_order n _ s' c b Hs2 Hc) as (c' & Ec & Hid).
  by exists c'.
Qed.

Lemma sleep_wake_witness :
  ∃ s', for_each (λ l, handle_capture_event (MonitorsChanged l)) [[]; [Sample.hdmi]]
      (Sample.shows [Sample.hdmi] Sample.started) = (Ok tt, s') ∧
    ∃ c', replay (λ _, true) (λ _, 0%Z) elements s' Sample.task = (Ok tt, c').
Proof.
  destruct (sleep_wake elements "" "" (λ _, true) (λ _, 0%Z) elements
    (Sample.shows [Sample.hdmi] Sample.started) Sample.task (mkScript ∅ 0 []) [Sample.hdmi]
    [[]; [Sample.hdmi]] Sample.quiet_script)
    as (s' & E & _ & c' & Ec & _); [by apply Sample.reachable_shows; vm_compute|done|by vm_compute| |].
  - apply Sample.none_absent.
  - exists s'. split; [exact E|]. exists c'. exact Ec.
Defined.

(** The other order.  A client whose monitor went away keeps its active
    flag while its barrier is taken out; deactivating or deleting it then asks
    the capture task to take the barrier out once more, and the capture task
    panics on the request. *)
Theorem detached_then_deactivated {S} `{SlabLaws S} `{TomlLaws} {B} `{Capture B} order dir fp
    send_ok clock held_order (s : Service S) (c : CState B) b old new h r :
  quiet B → reachable order dir fp s → ic c = InputCapture.new b →
  svc_monitors s = Some old → (∀ x, ¬ absent old (manager s) x) → absent new (manager s) h →
  r = Activate h false ∨ r = DeleteClient h →
  ∃ s', (handle_capture_event (MonitorsChanged new) ≫= λ _,
         handle_frontend_request dir fp r) s = (Ok tt, s') ∧
    fst (replay send_ok clock held_order s' c) = Panic.
Proof.
  intros Hq Hr Hc Hold Hall Habs Hreq. apply reachable_in_order in Hr as [[n Hs] Hst].
  assert (inv n none (absent old (manager s)) s) as Hs'.
  { eapply inv_detached_iff; [|exact Hs]. intros x. specialize (Hall x). unfold none. tauto. }
  assert (∀ s1 (cmd : ST (Service S) Empty_set unit),
    inv n none (absent new (manager s)) s1 →
    wp cmd (λ _ s', requests s' = requests s1 ++ [Destroy h]) s1 → preserves storable cmd → storable s1 →
    wp (and_save cmd) (λ _ s', reg_run ∅ (requests s') = None) s1) as Hsave.
  { intros s1 cmd Hs1 Hcmd Hk Hst1. unfold and_save. apply wp_bind.
    eapply wp_mono; [by apply (wp_preserves storable); [exact Hcmd|..]|].
    intros a s2 [E2 Hst2]. eapply wp_mono; [by apply wp_save|]. intros a' s3 [Hsim _].
    eapply inv_destroy_twice; [exact Hs1|exact Habs|]. by rewrite (sim_requests _ _ Hsim). }
  destruct (proj1 (wp_Ok (handle_capture_event (MonitorsChanged new) ≫= λ _,
         handle_frontend_request dir fp r) (λ _ s', reg_run ∅ (requests s') = None) s))
    as ([] & s' & E & Hn); [|exists s'; split; [done|by eapply replay_panic]].
  apply wp_bind. eapply wp_mono.
  { apply (wp_preserves storable); [by apply (wp_monitors_changed n old new s)|apply keeps_capture_event|done]. }
  intros a s1 [(_ & Hs1 & Hv) Hst1]. destruct Habs as (k & id & Hk & Hrest).
  destruct Hreq as [-> | ->]; cbn [handle_frontend_request set_client_active]; apply Hsave; try done.
  - eapply deactivate_requests. by rewrite Hv.
  - apply keeps_deactivate.
  - eapply remove_requests. by rewrite Hv.
  - apply keeps_remove.
Qed.

Lemma detached_then_deactivated_witness :
  ∃ s', (handle_capture_event (MonitorsChanged []) ≫= λ _,
         handle_frontend_request "" "" (DeleteClient 1))
      (Sample.shows [Sample.hdmi] Sample.started) = (Ok tt, s') ∧
    fst (replay (λ _, true) (λ _, 0%Z) elements s' Sample.task) = Panic.
Proof.
  apply (detached_then_deactivated elements "" "" (λ _, true) (λ _, 0%Z) elements
    (Sample.shows [Sample.hdmi] Sample.started) Sample.task (mkScript ∅ 0 []) [Sample.hdmi] []
    1%N (DeleteClient 1) Sample.quiet_script);
    [by apply Sample.reachable_shows; vm_compute|done|by vm_compute| | |by right].
  - apply Sample.none_absent.
  - eexists _, "HDMI-1". split_and!; [by vm_compute|done|done].
Defined.

(** Activation first.  A client may be activated, at startup for instance,
    while its monitor is not there; its barrier is registered all the same.
    When the monitor shows up the barrier is registered a second time, and the
    capture task panics on the request. *)
Theorem activated_while_absent {S} `{SlabLaws S} `{TomlLaws} {B} `{Capture B} order dir fp
    send_ok clock held_order (s : Service S) (c : CState B) b old new h :
  quiet B → reachable order dir fp s → ic c = InputCapture.new b →
  svc_monitors s = Some old → absent old (manager s) h → ¬ absent new (manager s) h →
  ∃ s', handle_capture_event (MonitorsChanged new) s = (Ok tt, s') ∧
    fst (replay send_ok clock held_order s' c) = Panic.
Proof.
  intros Hq Hr Hc Hold Ha Hn. apply reachable_in_order in Hr as [[n Hs] Hst].
  destruct (proj1 (wp_Ok (handle_capture_event (MonitorsChanged new))
    (λ _ s', reg_run ∅ (requests s') = None) s)) as ([] & s' & E & Hnone);
    [|exists s'; split; [done|by eapply replay_panic]].
  cbn [handle_capture_event]. wp. rewrite Hold.
  eapply wp_mono; [apply calm_notify|]. intros a s1 Hsim.
  pose proof (inv_sim _ _ _ _ _ Hsim (inv_monitors _ _ _ new _ Hs)) as Hs1.
  pose proof (λ l, absent_ext l (manager s) (manager s1) h (sim_vw _ _ Hsim)) as Habs.
  apply (reconcile_twice n _ _ _ h); [done|by apply Habs|by rewrite Habs].
Qed.

Lemma activated_while_absent_witness :
  ∃ s', handle_capture_event (MonitorsChanged [Sample.hdmi]) (Sample.shows [] Sample.started) =
      (Ok tt, s') ∧
    fst (replay (λ _, true) (λ _, 0%Z) elements s' Sample.task) = Panic.
Proof.
  apply (activated_while_absent elements "" "" (λ _, true) (λ _, 0%Z) elements
    (Sample.shows [] Sample.started) Sample.task (mkScript ∅ 0 []) [] [Sample.hdmi] 1%N
    Sample.quiet_script); [by apply Sample.reachable_shows; vm_compute|done|by vm_compute|..].
  - eexists _, "HDMI-1". split_and!; [by vm_compute|done|done].
  - intros (k & id & Hk & Hid & Hp). vm_compute in Hk. injection Hk as <-.
    cbn in Hid. injection Hid as <-. done.
Defined.
