(* ===== verification/Emulation.v ===== *)
(** The receiving side: input emulation (input-emulation/src/lib.rs) with its
    tracking of pressed keys, and the tasks of src/emulation.rs that feed it:
    the listen task, which answers the peers, and the emulation task, which
    gives every peer a handle.

    The backend, the [trait Emulation] of input-emulation, is a log of the
    calls made on it, and an oracle: [failure n] is the error of a [consume]
    after [n] calls, if it fails.  [key_order] and [handle_order] are the orders in which the sets
    of keys and of handles are drained. *)

From S2P Require Import Prelude InputEvent Proto Net Clients.
From S2P Require Service.

(** * Input emulation *)

Abbreviation EmulationHandle := N.

(** The variants, without their texts. *)
Inductive EmulationError : Type := EndOfStream | Libei | Wayland | Ashpd | Io.

(** A call on the backend, a [consume] with its success. *)
Inductive backend_call : Type :=
| Consumed (e : Event) (h : EmulationHandle) (success : bool)
| CreatedHandle (h : EmulationHandle)
| DestroyedHandle (h : EmulationHandle)
| Terminated.

Record InputEmulation : Type := mkEm {
  emulation : list backend_call;
  handles : gset EmulationHandle;
  pressed_keys : gmap EmulationHandle (gset Z)
}.

Section emulation.
Variable failure : nat → option EmulationError.
Variable key_order : gset Z → list Z.
Variable handle_order : gset EmulationHandle → list EmulationHandle.
Abbreviation M := (ST InputEmulation EmulationError).

Definition log_call (c : backend_call) (s : InputEmulation) : InputEmulation :=
  mkEm (emulation s ++ [c]) (handles s) (pressed_keys s).
Definition set_handles (h : gset EmulationHandle) (s : InputEmulation) : InputEmulation :=
  mkEm (emulation s) h (pressed_keys s).
Definition set_pressed (p : gmap EmulationHandle (gset Z)) (s : InputEmulation) : InputEmulation :=
  mkEm (emulation s) (handles s) p.

(** [self.emulation.consume(event, handle)]. *)
Definition backend_consume (e : Event) (h : EmulationHandle) : M unit :=
  l ← gets emulation;
  match failure (length l) with
  | None => modify_st (log_call (Consumed e h true))
  | Some err => modify_st (log_call (Consumed e h false)) ≫= λ _, raise err
  end.

Definition new_emulation : InputEmulation := mkEm [] ∅ ∅.

Definition update_pressed_keys (h : EmulationHandle) (key state : Z) : M bool :=
  pressed ← gets pressed_keys;
  match pressed !! h with
  | None => mret false
  | Some keys =>
      if (state =? 0)%Z then
        modify_st (set_pressed (<[h := keys ∖ {[key]}]> pressed)) ≫= λ _,
        mret (bool_decide (key ∈ keys))
      else
        modify_st (set_pressed (<[h := {[key]} ∪ keys]> pressed)) ≫= λ _,
        mret (negb (bool_decide (key ∈ keys)))
  end.

Definition consume (e : Event) (h : EmulationHandle) : M unit :=
  match e with
  | Keyboard (Key _ key state) =>
      changed ← update_pressed_keys h key state;
      when changed (backend_consume e h)
  | _ => backend_consume e h
  end.

Definition create (h : EmulationHandle) : M bool :=
  hs ← gets handles;
  if decide (h ∈ hs) then mret false
  else
    modify_st (set_handles ({[h]} ∪ hs)) ≫= λ _,
    modify_st (λ s, set_pressed (<[h := ∅]> (pressed_keys s)) s) ≫= λ _,
    modify_st (log_call (CreatedHandle h)) ≫= λ _,
    mret true.

Definition key_up (key : Z) : Event := Keyboard (Key 0 key 0).
Definition mods_zero : Event := Keyboard (Modifiers 0 0 0 0).

Definition release_keys (h : EmulationHandle) : M unit :=
  pressed ← gets pressed_keys;
  match pressed !! h with
  | Some keys =>
      modify_st (set_pressed (<[h := ∅]> pressed)) ≫= λ _,
      for_each (λ key, backend_consume (key_up key) h) (key_order keys)
  | None => mret tt
  end ≫= λ _,
  backend_consume mods_zero h.

Definition destroy (h : EmulationHandle) : M unit :=
  attempt (release_keys h) ≫= λ _,
  hs ← gets handles;
  when (bool_decide (h ∈ hs))
    (modify_st (set_handles (hs ∖ {[h]})) ≫= λ _,
     modify_st (λ s, set_pressed (delete h (pressed_keys s)) s) ≫= λ _,
     modify_st (log_call (DestroyedHandle h))).

Definition terminate : M unit :=
  hs ← gets handles;
  for_each destroy (handle_order hs) ≫= λ _,
  modify_st (log_call Terminated).

Definition has_pressed_keys (h : EmulationHandle) (s : InputEmulation) : bool :=
  match pressed_keys s !! h with
  | Some keys => negb (bool_decide (keys = ∅))
  | None => false
  end.
End emulation.

(** * The emulation task *)

Inductive ProxyRequest : Type :=
| PInput (e : Event) (addr : SocketAddr)
| PRemove (addr : SocketAddr)
| PTerminate
| PReenable.

(** [EmulationTask] with the emulation of the running session and the events
    it sent. *)
Record EmulationTask : Type := mkTask {
  em : InputEmulation;
  task_handles : gmap SocketAddr EmulationHandle;
  next_id : EmulationHandle;
  task_events : list Service.EmulationEvent
}.

Section task.
Variable failure : nat → option EmulationError.
Variable key_order : gset Z → list Z.
Variable handle_order : gset EmulationHandle → list EmulationHandle.
Variable addr_order : gmap SocketAddr EmulationHandle → list (SocketAddr * EmulationHandle).
Abbreviation M := (ST EmulationTask EmulationError).

Definition set_em (e : InputEmulation) (s : EmulationTask) : EmulationTask :=
  mkTask e (task_handles s) (next_id s) (task_events s).
Definition set_task_handles (hs : gmap SocketAddr EmulationHandle) (next : EmulationHandle)
    (s : EmulationTask) : EmulationTask :=
  mkTask (em s) hs next (task_events s).
Definition emit (e : Service.EmulationEvent) : M unit :=
  modify_st (λ s, mkTask (em s) (task_handles s) (next_id s) (task_events s ++ [e])).

(** A call on the emulation. *)
Definition call {A} (m : ST InputEmulation EmulationError A) : M A := λ s,
  let '(r, e) := m (em s) in (r, set_em e s).

(** [handles.get(&addr)], with a new handle for a new peer. *)
Definition handle_of (addr : SocketAddr) : M EmulationHandle :=
  hs ← gets task_handles;
  match hs !! addr with
  | Some h => mret h
  | None =>
      h ← gets next_id;
      modify_st (λ s, set_task_handles (task_handles s) ((h + 1) mod 2 ^ 64)%N s) ≫= λ _,
      call (create h) ≫= λ _,
      modify_st (λ s, set_task_handles (<[addr := h]> (task_handles s)) (next_id s) s) ≫= λ _,
      mret h
  end.

(** One request: [false] ends the session. *)
Definition session_request (r : ProxyRequest) : M bool :=
  match r with
  | PInput e addr => h ← handle_of addr; call (consume failure e h) ≫= λ _, mret true
  | PRemove addr =>
      hs ← gets task_handles;
      match hs !! addr with
      | Some h =>
          modify_st (λ s, set_task_handles (delete addr hs) (next_id s) s) ≫= λ _,
          call (destroy failure key_order h)
      | None => mret tt
      end ≫= λ _, mret true
  | PTerminate => mret false
  | PReenable => mret true
  end.

(** The session over the requests of the channel: [true] when it ended, [false]
    when it waits for another request. *)
Fixpoint do_emulation_session (rs : list ProxyRequest) : M bool :=
  match rs with
  | [] => mret false
  | r :: rs =>
      continue ← session_request r;
      if (continue : bool) then do_emulation_session rs else mret true
  end.

(** [wait_for_termination] over requests: whether the last one taken ends it. *)
Fixpoint wait_for_termination (rs : list ProxyRequest) : option (list ProxyRequest) :=
  match rs with
  | [] => None
  | PTerminate :: rs => Some rs
  | PInput _ _ :: rs | PRemove _ :: rs | PReenable :: rs => wait_for_termination rs
  end.

(** [create_clients]: [during] are, for each handle, the number of requests that
    [wait_for_termination] takes off the channel while the handle is created.
    Answers the requests left. *)
Fixpoint create_handles (ahs : list (SocketAddr * EmulationHandle)) (during : list nat)
    (rs : list ProxyRequest) : M (list ProxyRequest) :=
  match ahs with
  | [] => mret rs
  | (_, h) :: ahs =>
      let n := hd 0 during in
      match wait_for_termination (take n rs) with
      | Some unread => mret (unread ++ drop n rs)
      | None => call (create h) ≫= λ _, create_handles ahs (tl during) (drop n rs)
      end
  end.
Definition create_clients (during : list nat) (rs : list ProxyRequest) : M (list ProxyRequest) :=
  hs ← gets task_handles; create_handles (addr_order hs) during rs.

(** [do_emulation] with a backend that was just created: [true] when it
    returned, [false] when its session waits for a request. *)
Definition do_emulation (during : list nat) (rs : list ProxyRequest) : M bool :=
  modify_st (set_em new_emulation) ≫= λ _,
  emit Service.EmulationEnabled ≫= λ _,
  rs ← create_clients during rs;
  res ← attempt (do_emulation_session rs);
  match res with
  | inr false => mret false
  | _ =>
      call (terminate failure key_order handle_order) ≫= λ _,
      emit Service.EmulationDisabled ≫= λ _,
      reply res
  end.

End task.

(** * The listen task *)

Inductive ListenEvent : Type :=
| Msg (event : ProtoEvent) (addr : SocketAddr)
| Accept (addr : SocketAddr) (fingerprint : string)
| Rejected (fingerprint : string)
| Disconnected (addr : SocketAddr).

Inductive EmulationRequest : Type :=
| Reenable
| ReleasePeer (addr : SocketAddr)
| ChangePort (port : Z) (result : string + Z)
| Terminate.

(** The state of [ListenTask], the flag of its proxy, and what was sent: events
    to the service, replies to the peers, requests to the emulation task,
    clipboard events to the dispatcher, and closed connections. *)
Record ListenTask : Type := mkListen {
  addr_to_fingerprint : gmap SocketAddr string;
  last_response : gmap SocketAddr Z;
  rejected_connections : gmap string Z;
  emulation_active : bool;
  event_tx : list Service.EmulationEvent;
  replies : list (SocketAddr * ProtoEvent);
  proxied : list ProxyRequest;
  clipboard_inbound : list (SocketAddr * ProtoEvent);
  woken : list SocketAddr
}.
Definition new_listen : ListenTask := mkListen ∅ ∅ ∅ false [] [] [] [] [].

Definition to_ipc_pos (p : Pos.Position) : Ipc.Position :=
  match p with
  | Pos.Left => Ipc.Left | Pos.Right => Ipc.Right | Pos.Top => Ipc.Top | Pos.Bottom => Ipc.Bottom
  end.

(** Two seconds and one second, in nanoseconds. *)
Definition REJECT_INTERVAL : Z := 2 * 1000000000.
Definition RESPONSE_TIMEOUT : Z := 1000000000.

Section listen.
Variable local_commit : list byte.
Variable order : gmap SocketAddr Z → list (SocketAddr * Z).

Definition set_maps (fps : gmap SocketAddr string) (last : gmap SocketAddr Z)
    (rej : gmap string Z) (s : ListenTask) : ListenTask :=
  mkListen fps last rej (emulation_active s) (event_tx s) (replies s) (proxied s)
    (clipboard_inbound s) (woken s).
Definition set_last (last : gmap SocketAddr Z) (s : ListenTask) : ListenTask :=
  set_maps (addr_to_fingerprint s) last (rejected_connections s) s.
Definition set_emulation_active (b : bool) (s : ListenTask) : ListenTask :=
  mkListen (addr_to_fingerprint s) (last_response s) (rejected_connections s) b (event_tx s)
    (replies s) (proxied s) (clipboard_inbound s) (woken s).
Definition out (ev : list Service.EmulationEvent) (re : list (SocketAddr * ProtoEvent))
    (pr : list ProxyRequest) (cl : list (SocketAddr * ProtoEvent)) (wo : list SocketAddr)
    (s : ListenTask) : ListenTask :=
  mkListen (addr_to_fingerprint s) (last_response s) (rejected_connections s)
    (emulation_active s) (event_tx s ++ ev) (replies s ++ re) (proxied s ++ pr)
    (clipboard_inbound s ++ cl) (woken s ++ wo).

(** A message of a peer, after its time was noted. *)
Definition on_msg (event : ProtoEvent) (addr : SocketAddr) (s : ListenTask) : ListenTask :=
  match event with
  | ProtoEvent.Enter pos =>
      let fingerprint := default ""%string (addr_to_fingerprint s !! addr) in
      out [Service.ReleaseNotify; Service.EmEntered addr (to_ipc_pos pos) fingerprint]
        [(addr, ProtoEvent.Ack 0)] [] [] [] s
  | ProtoEvent.Leave _ => out [] [(addr, ProtoEvent.Ack 0)] [PRemove addr] [] [] s
  | ProtoEvent.Input e =>
      if emulation_active s then out [] [] [PInput e addr] [] [] s else s
  | ProtoEvent.Ping => out [] [(addr, ProtoEvent.Pong (emulation_active s))] [] [] [] s
  | ProtoEvent.Hello _ commit =>
      out [Service.PeerHello addr commit] [(addr, ProtoEvent.Hello PROTOCOL_MAGIC local_commit)]
        [] [] [] s
  | ProtoEvent.ClipboardText _ | ProtoEvent.ClipboardImage _ | ProtoEvent.ClipboardFiles _
  | ProtoEvent.FileTransferCancel _ => out [] [] [] [(addr, event)] [] s
  | _ => s
  end.

Definition on_listen (now : Z) (e : ListenEvent) (s : ListenTask) : ListenTask :=
  match e with
  | Msg event addr => on_msg event addr (set_last (<[addr := now]> (last_response s)) s)
  | Accept addr fp =>
      out [Service.EmConnected addr fp] [] [] [] []
        (set_maps (<[addr := fp]> (addr_to_fingerprint s)) (last_response s)
          (rejected_connections s) s)
  | Rejected fp =>
      let prev := rejected_connections s !! fp in
      let s := set_maps (addr_to_fingerprint s) (last_response s)
                 (<[fp := now]> (rejected_connections s)) s in
      match prev with
      | Some i =>
          if (REJECT_INTERVAL <=? now - i)%Z
          then out [Service.EmConnectionAttempt fp] [] [] [] [] s else s
      | None => out [Service.EmConnectionAttempt fp] [] [] [] [] s
      end
  | Disconnected addr =>
      out [Service.EmDisconnected addr] [] [PRemove addr] [] []
        (set_maps (delete addr (addr_to_fingerprint s)) (delete addr (last_response s))
          (rejected_connections s) s)
  end.

(** The request arm: [None] when the task ends. *)
Definition on_request (r : EmulationRequest) (s : ListenTask) : option ListenTask :=
  match r with
  | Reenable => Some (out [] [] [PReenable] [] [] s)
  | ReleasePeer addr => Some (out [] [(addr, ProtoEvent.Leave 0)] [] [] [] s)
  | ChangePort _ result => Some (out [Service.EmPortChanged result] [] [] [] [] s)
  | Terminate => None
  end.

(** An event of the proxy. *)
Definition on_proxy_event (e : Service.EmulationEvent) (s : ListenTask) : ListenTask :=
  let s := match e with
           | Service.EmulationEnabled => set_emulation_active true s
           | Service.EmulationDisabled => set_emulation_active false s
           | _ => s
           end in
  out [e] [] [] [] [] s.

(** The tick: [last_response.retain(...)]. *)
Definition silent (now : Z) (at_ : Z) : bool := (RESPONSE_TIMEOUT <? now - at_)%Z.
Definition time_out (addr : SocketAddr) (s : ListenTask) : ListenTask :=
  out [Service.EmDisconnected addr] [] [PRemove addr] [] [addr] s.
Definition on_tick (now : Z) (s : ListenTask) : ListenTask :=
  let late := filter (λ e, silent now (snd e) = true) (order (last_response s)) in
  set_last (filter (λ e, silent now (snd e) = false) (last_response s))
    (foldl (λ s e, time_out (fst e) s) s late).

(** What the [select!] of [run] can pick, with the time. *)
Inductive listen_arm : Type :=
| LEvent (now : Z) (e : ListenEvent)
| LProxy (e : Service.EmulationEvent)
| LRequest (r : EmulationRequest)
| LTick (now : Z).

Definition listen_turn (a : listen_arm) (s : ListenTask) : option ListenTask :=
  match a with
  | LEvent now e => Some (on_listen now e s)
  | LProxy e => Some (on_proxy_event e s)
  | LRequest r => on_request r s
  | LTick now => Some (on_tick now s)
  end.

Fixpoint run (arms : list listen_arm) (s : ListenTask) : ListenTask :=
  match arms with
  | [] => s
  | a :: arms => match listen_turn a s with Some s => run arms s | None => s end
  end.
End listen.

(** * What the backend holds down *)

(** The keys that the calls of the log leave pressed on a handle. *)
Definition held_step (h : EmulationHandle) (keys : gset Z) (c : backend_call) : gset Z :=
  match c with
  | Consumed (Keyboard (Key _ key state)) h' true =>
      if decide (h' = h) then if (state =? 0)%Z then keys ∖ {[key]} else {[key]} ∪ keys else keys
  | _ => keys
  end.
Definition held (h : EmulationHandle) (l : list backend_call) : gset Z := foldl (held_step h) ∅ l.

(** No key is pressed twice, and only pressed keys are released. *)
Definition clean (l : list backend_call) : Prop :=
  ∀ pre t key state h post,
    l = pre ++ Consumed (Keyboard (Key t key state)) h true :: post →
    (key ∈ held h pre ↔ state = 0%Z).

Lemma held_snoc h l c : held h (l ++ [c]) = held_step h (held h l) c.
Proof. unfold held. by rewrite foldl_app. Qed.

Lemma clean_snoc l c :
  clean l →
  (∀ t key state h, c = Consumed (Keyboard (Key t key state)) h true →
     (key ∈ held h l ↔ state = 0%Z)) →
  clean (l ++ [c]).
Proof.
  intros Hl Hc pre t key state h post E. destruct post as [|x post _] using rev_ind.
  - apply app_inj_tail in E as [-> ->]. by eapply Hc.
  - rewrite app_comm_cons, app_assoc in E. apply app_inj_tail in E as [-> _]. by eapply Hl.
Qed.

Definition ups (h : EmulationHandle) (keys : list Z) : list backend_call :=
  (λ k, Consumed (key_up k) h true) <$> keys.

Lemma held_ups h h' keys l :
  held h (l ++ ups h' keys) = if decide (h' = h) then held h l ∖ list_to_set keys else held h l.
Proof.
  induction keys as [|k keys IH] using rev_ind; cbn.
  { rewrite app_nil_r. case_decide; set_solver. }
  unfold ups in *. rewrite fmap_app, app_assoc. cbn. rewrite held_snoc, IH. cbn.
  case_decide; [|done]. rewrite list_to_set_app_L. set_solver.
Qed.

Lemma clean_ups h keys l :
  clean l → NoDup keys → (∀ k, k ∈ keys → k ∈ held h l) → clean (l ++ ups h keys).
Proof.
  intros Hl. induction keys as [|k keys IH] using rev_ind; cbn; intros Hnd Hin.
  { by rewrite app_nil_r. }
  apply NoDup_app in Hnd as (Hnd & Hk & _). unfold ups in *. rewrite fmap_app, app_assoc. cbn.
  apply clean_snoc; [apply IH; [done|set_solver]|].
  intros t key state h' [= <- <- <- <-]. pose proof (held_ups h h keys l) as E; unfold ups in E; rewrite E, decide_True by done; clear E.
  split; [done|]. intros _. apply elem_of_difference. split; [set_solver|].
  rewrite elem_of_list_to_set. intros Hkk. apply (Hk k Hkk). by left.
Qed.

Section proofs.
Variable failure : nat → option EmulationError.
Variable key_order : gset Z → list Z.
Hypothesis Hok : ∀ n, failure n = None.
Hypothesis Hkeys : ∀ s, key_order s ≡ₚ elements s.
Implicit Types (s : InputEmulation) (h : EmulationHandle).

(** The tracked keys are the held ones. *)
Record em_ok s : Prop := {
  em_held h : held h (emulation s) = default ∅ (pressed_keys s !! h);
  em_known h : is_Some (pressed_keys s !! h) ↔ h ∈ handles s;
  em_clean : clean (emulation s)
}.

Lemma em_ok_new : em_ok new_emulation.
Proof.
  clear Hok Hkeys failure key_order.
  split.
  - intros h. cbn. by rewrite lookup_empty.
  - intros h. cbn. rewrite lookup_empty. split; [by intros []|set_solver].
  - intros pre t key state h post E. by destruct pre.
Qed.

Lemma backend_consume_eq e h s :
  backend_consume failure e h s = (Ok tt, log_call (Consumed e h true) s).
Proof. unfold backend_consume, gets, modify_st, mbind, ST_bind. by rewrite Hok. Qed.

(** A call that is not about keys. *)
Lemma em_ok_log s c :
  em_ok s → (∀ t key state h success, c ≠ Consumed (Keyboard (Key t key state)) h success) →
  em_ok (log_call c s).
Proof.
  intros [Hh Hk Hc] Hne. split; cbn [log_call emulation pressed_keys handles].
  - intros h. rewrite held_snoc, <- Hh. destruct c as [[|[t key state|]] h' []| | |]; try done.
    by destruct (Hne t key state h' true).
  - done.
  - apply clean_snoc; [done|]. intros t key state h ->. by destruct (Hne t key state h true).
Qed.

Lemma consume_ok e h s : em_ok s → wp (consume failure e h) (λ _ s', em_ok s' ∧ handles s' = handles s) s.
Proof.
  intros Hs. destruct e as [p|[t key state|d l lo g]]; cbn [consume].
  1,3: unfold wp; rewrite backend_consume_eq; split; [by apply em_ok_log|done].
  destruct Hs as [Hh Hk Hc]. wp. unfold update_pressed_keys. wp.
  destruct (pressed_keys s !! h) as [keys|] eqn:E; wp; [|by split].
  pose proof (Hh h) as Hhh. rewrite E in Hhh. cbn in Hhh.
  assert (∀ new b, (b = false → new = keys) →
    (b = true → (key ∈ keys ↔ state = 0%Z) ∧ new = if (state =? 0)%Z then keys ∖ {[key]} else {[key]} ∪ keys) →
    wp (when b (backend_consume failure (Keyboard (Key t key state)) h))
      (λ _ s', em_ok s' ∧ handles s' = handles s) (set_pressed (<[h := new]> (pressed_keys s)) s)) as Hgo.
  { intros new b Hf Ht. wp. assert (∀ x, is_Some (<[h:=new]> (pressed_keys s) !! x) ↔ x ∈ handles s) as Hd.
    { intros x. rewrite <- Hk, lookup_insert_is_Some'. destruct (decide (h = x)) as [<-|]; [rewrite E|tauto].
      split; [eauto|by left]. }
    destruct b.
    - unfold wp. rewrite backend_consume_eq. split; [|done]. destruct (Ht eq_refl) as [Hin ->].
      split; cbn [log_call set_pressed emulation pressed_keys handles]; [|done|].
      + intros x. rewrite held_snoc. cbn. case_decide as Hx.
        * subst x. by rewrite lookup_insert_eq, Hhh.
        * by rewrite lookup_insert_ne, Hh.
      + apply clean_snoc; [done|]. intros t' k' st' h' [= <- <- <- <-]. by rewrite Hhh.
    - rewrite (Hf eq_refl). split; [|done]. split; cbn [set_pressed emulation pressed_keys handles];
        [|by rewrite <- (Hf eq_refl)|done].
      intros x. rewrite Hh. destruct (decide (h = x)) as [<-|Hx].
      + by rewrite lookup_insert_eq, E.
      + by rewrite lookup_insert_ne. }
  destruct (Z.eqb_spec state 0) as [->|Hst]; rewrite wp_bind, wp_modify, wp_ret; apply Hgo.
  - intros Hb%bool_decide_eq_false. set_solver.
  - intros Hb%bool_decide_eq_true. done.
  - intros Hb%negb_false_iff%bool_decide_eq_true. set_solver.
  - intros Hb%negb_true_iff%bool_decide_eq_false. split; [tauto|done].
Qed.

Lemma release_loop h keys s :
  for_each (λ key, backend_consume failure (key_up key) h) keys s =
    (Ok tt, mkEm (emulation s ++ ups h keys) (handles s) (pressed_keys s)).
Proof.
  revert s. induction keys as [|k keys IH]; intros s; cbn; [rewrite app_nil_r; by destruct s|].
  unfold mbind, ST_bind. rewrite backend_consume_eq, IH. unfold log_call. cbn.
  by rewrite <- app_assoc.
Qed.

Lemma em_ok_drained h keys s :
  em_ok s → pressed_keys s !! h = Some keys →
  em_ok (mkEm (emulation s ++ ups h (key_order keys)) (handles s) (<[h := ∅]> (pressed_keys s))).
Proof.
  intros [Hh Hk Hc] E. pose proof (Hh h) as Hhh. rewrite E in Hhh. cbn in Hhh.
  assert (list_to_set (key_order keys) = keys) as Hset
    by (apply set_eq; intros k; by rewrite elem_of_list_to_set, Hkeys, elem_of_elements).
  split; cbn [emulation handles pressed_keys].
  - intros x. rewrite held_ups. case_decide as Hx.
    + subst x. rewrite lookup_insert_eq, Hhh, Hset. set_solver.
    + by rewrite lookup_insert_ne, Hh.
  - intros x. rewrite <- Hk, lookup_insert_is_Some'. destruct (decide (h = x)) as [<-|]; [|tauto].
    rewrite E. split; [eauto|by left].
  - apply clean_ups; [done|rewrite Hkeys; apply NoDup_elements|].
    intros k. rewrite Hhh, Hkeys. by rewrite elem_of_elements.
Qed.

Lemma release_keys_ok h s :
  em_ok s → wp (release_keys failure key_order h) (λ _ s', em_ok s' ∧ handles s' = handles s) s.
Proof.
  intros Hs. unfold release_keys. wp. destruct (pressed_keys s !! h) as [keys|] eqn:E.
  - wp. unfold wp at 1. rewrite release_loop. cbn. unfold wp. rewrite backend_consume_eq.
    split; [|done]. apply em_ok_log; [by apply em_ok_drained|done].
  - wp. unfold wp. rewrite backend_consume_eq. split; [by apply em_ok_log|done].
Qed.

Lemma destroy_ok h s :
  em_ok s → wp (destroy failure key_order h)
    (λ _ s', em_ok s' ∧ handles s' = handles s ∖ {[h]}) s.
Proof.
  intros Hs. pose proof (release_keys_ok h s Hs) as Hr.
  assert (∀ s1, em_ok s1 → h ∈ handles s1 → held h (emulation s1) = ∅ →
    em_ok (log_call (DestroyedHandle h)
      (set_pressed (delete h (pressed_keys s1)) (set_handles (handles s1 ∖ {[h]}) s1)))) as Hdel.
  { intros s1 [Hh Hk Hc] Hin He. apply em_ok_log; [|done].
    split; cbn [emulation handles pressed_keys set_pressed set_handles]; [| |done].
    - intros x. destruct (decide (h = x)) as [<-|Hx]; [by rewrite lookup_delete_eq|].
      by rewrite lookup_delete_ne, Hh.
    - intros x. rewrite lookup_delete_is_Some, Hk. set_solver. }
  unfold destroy. wp. apply wp_attempt.
  assert (wp (release_keys failure key_order h) (λ _ s', h ∈ handles s → held h (emulation s') = ∅) s) as He.
  { unfold release_keys. wp. destruct (pressed_keys s !! h) as [keys|] eqn:E.
    - wp. unfold wp at 1. rewrite release_loop. cbn. unfold wp. rewrite backend_consume_eq.
      intros _. pose proof (em_ok_drained h keys s Hs E) as Hd.
      apply (em_ok_log _ (Consumed mods_zero h true)) in Hd; [|done]. rewrite (em_held _ Hd). cbn.
      by rewrite lookup_insert_eq.
    - wp. unfold wp. rewrite backend_consume_eq. intros Hin. apply (em_known _ Hs) in Hin.
      rewrite E in Hin. by destruct Hin. }
  eapply wp_mono; [apply (wp_conj _ _ _ _ Hr He)|]. intros a s1 [[Hs1 E1] He1]. wp.
  case_bool_decide as Hin; [|split; [done|rewrite E1 in *; set_solver]]. wp.
  split; [|by cbn; rewrite E1]. apply (Hdel s1 Hs1 Hin), He1. by rewrite <- E1.
Qed.

Lemma wp_create h s : wp (create h) (λ _ _, True) s.
Proof. unfold create. wp. by case_decide. Qed.

Lemma create_ok h s :
  em_ok s → wp (create h) (λ _ s', em_ok s' ∧ handles s' = {[h]} ∪ handles s) s.
Proof.
  intros Hs. unfold create. wp. case_decide as Hin; wp; [split; [done|set_solver]|].
  split; [|done]. destruct Hs as [Hh Hk Hc]. apply em_ok_log; [|done].
  assert (pressed_keys s !! h = None) as Hnone.
  { destruct (pressed_keys s !! h) eqn:E; [|done]. destruct Hin. apply Hk. by rewrite E. }
  split; cbn [emulation handles pressed_keys set_pressed set_handles]; [| |done].
  - intros x. rewrite Hh. destruct (decide (h = x)) as [<-|Hx].
    + by rewrite lookup_insert_eq, Hnone.
    + by rewrite lookup_insert_ne.
  - intros x. rewrite lookup_insert_is_Some', Hk. set_solver.
Qed.

Variable handle_order : gset EmulationHandle → list EmulationHandle.
Hypothesis Hhandles : ∀ hs, handle_order hs ≡ₚ elements hs.

Lemma terminate_ok s :
  em_ok s → wp (terminate failure key_order handle_order)
    (λ _ s', em_ok s' ∧ handles s' = ∅ ∧ ∀ h, held h (emulation s') = ∅) s.
Proof.
  intros Hs. unfold terminate. wp.
  eapply wp_mono.
  { apply (wp_for_each _ (λ l s', em_ok s' ∧ ∀ h, h ∈ handles s' → h ∈ l)).
    - intros h l s1 [H1 Hl]. eapply wp_mono; [by apply destroy_ok|]. intros a s2 [H2 E2].
      split; [done|]. intros x Hx. rewrite E2 in Hx. apply elem_of_difference in Hx as [Hx Hne].
      apply Hl, elem_of_cons in Hx as [->|]; [set_solver|done].
    - split; [done|]. intros h Hh. by rewrite Hhandles, elem_of_elements. }
  intros a s1 [H1 Hl]. wp.
  assert (handles s1 = ∅) as He.
  { apply set_eq. intros h. split; [|set_solver]. by intros Hh%Hl%elem_of_nil. }
  assert (em_ok (log_call Terminated s1)) as H2 by (by apply em_ok_log).
  split_and!; [done|done|]. intros h. rewrite (em_held _ H2). cbn.
  destruct (pressed_keys s1 !! h) eqn:E; [|done].
  assert (h ∈ handles s1) as Hin by (apply (em_known _ H1); by rewrite E). set_solver.
Qed.

(** ** The emulation task *)

Record task_ok (t : EmulationTask) : Prop := {
  tk_em : em_ok (em t);
  tk_handles h : h ∈ handles (em t) → ∃ a, task_handles t !! a = Some h;
  tk_inj a b h : task_handles t !! a = Some h → task_handles t !! b = Some h → a = b;
  tk_next a h : task_handles t !! a = Some h → (h < next_id t)%N
}.

Definition new_task : EmulationTask := mkTask new_emulation ∅ 0%N [].

Lemma task_ok_new : task_ok new_task.
Proof.
  clear Hok Hkeys Hhandles failure key_order handle_order.
  split; cbn.
  - apply em_ok_new.
  - set_solver.
  - intros a b h Ha. by rewrite lookup_empty in Ha.
  - intros a h Ha. by rewrite lookup_empty in Ha.
Qed.

Lemma wp_em_call {A} (m : ST InputEmulation EmulationError A) Q t :
  wp m (λ a e, Q a (set_em e t)) (em t) → wp (call m) Q t.
Proof. unfold wp, call. by destruct (m (em t)) as [[] ?]. Qed.

Lemma handle_of_ok a t :
  task_ok t → (next_id t + 1 < 2 ^ 64)%N →
  wp (handle_of a)
    (λ h t', task_ok t' ∧ task_events t' = task_events t ∧
       (next_id t' ≤ next_id t + 1)%N ∧ task_handles t' !! a = Some h ∧
       ∀ x, x ≠ a → task_handles t' !! x = task_handles t !! x) t.
Proof.
  intros [He Hh Hi Hn] Hlt. unfold handle_of. wp. destruct (task_handles t !! a) as [h|] eqn:E; wp.
  { split_and!; [done|done|lia|done|done]. }
  apply wp_em_call. eapply wp_mono; [by apply create_ok|]. intros b e [He' Ee]. wp.
  rewrite N.mod_small by lia.
  assert (∀ x, task_handles t !! x ≠ Some (next_id t)) as Hfresh
    by (intros x Hx%Hn; lia).
  split_and!; [|done|cbn; lia|apply lookup_insert_eq|by intros x Hx; apply lookup_insert_ne].
  split; cbn.
  - done.
  - intros x. rewrite Ee. cbn. rewrite elem_of_union, elem_of_singleton.
    intros [->|[c Hc]%Hh]; [exists a; by rewrite lookup_insert_eq|].
    exists c. rewrite lookup_insert_ne; [done|]. intros ->. congruence.
  - intros x y h Hx Hy. rewrite lookup_insert in Hx, Hy. do 2 case_decide; subst; try done.
    + injection Hy as <-. by destruct (Hfresh x).
    + injection Hx as <-. by destruct (Hfresh y).
    + by eapply Hi.
  - intros x h Hx. rewrite lookup_insert in Hx. case_decide; [injection Hx as <-; lia|].
    apply Hn in Hx. lia.
Qed.

(** What a request leaves of the handle of [a]. *)
Definition request_addr (r : ProxyRequest) : option SocketAddr :=
  match r with PInput _ a => Some a | PRemove a => Some a | _ => None end.

Lemma session_request_ok r t :
  task_ok t → (next_id t + 1 < 2 ^ 64)%N →
  wp (session_request failure key_order r)
    (λ b t', task_ok t' ∧ task_events t' = task_events t ∧
       (next_id t' ≤ next_id t + 1)%N ∧ (b = false ↔ r = PTerminate) ∧
       (∀ a, r = PRemove a → task_handles t' !! a = None) ∧
       ∀ x, request_addr r ≠ Some x → task_handles t' !! x = task_handles t !! x) t.
Proof.
  intros Ht Hlt. destruct r as [e a|a| |]; cbn [session_request request_addr].
  - wp. eapply wp_mono; [by apply handle_of_ok|]. intros h t1 (H1 & Hev & Hn1 & Ha & Hx). wp.
    apply wp_em_call. eapply wp_mono; [apply consume_ok, tk_em, H1|]. intros b e' [He Ee]. wp.
    destruct H1 as [H1 H2 H3 H4]. split_and!; [|done|done|done|done|].
    + split; [done| |done|done]. intros x. cbn. rewrite Ee. apply H2.
    + intros x Hne. apply Hx. congruence.
  - wp. destruct (task_handles t !! a) as [h|] eqn:E; wp.
    + apply wp_em_call. eapply wp_mono; [apply (destroy_ok h (em t)), (tk_em _ Ht)|]. intros b e' [He Ee]. wp.
      destruct Ht as [H1 H2 H3 H4]. split_and!; [|done|cbn; lia|done| |].
      * split; cbn; [done|..].
        -- intros x. rewrite Ee. cbn. rewrite elem_of_difference, elem_of_singleton.
           intros [[c Hc]%H2 Hne]. exists c. rewrite lookup_delete_ne; [done|].
           intros ->. congruence.
        -- intros x y k [_ Hx]%lookup_delete_Some [_ Hy]%lookup_delete_Some. by eapply H3.
        -- intros x k [_ Hx]%lookup_delete_Some. by eapply H4.
      * intros c [= <-]. cbn. apply lookup_delete_eq.
      * intros x Hx. cbn. apply lookup_delete_ne. congruence.
    + split_and!; [done|done|lia|done|by intros c [= <-]|done].
  - wp. split_and!; [done|done|lia|done|done|done].
  - wp. split_and!; [done|done|lia|done|done|done].
Qed.

(** The requests end with the peer [a] removed. *)
Definition gone (a : SocketAddr) (rs : list ProxyRequest) : Prop :=
  ∃ pre post, rs = pre ++ PRemove a :: post ∧ ∀ e, PInput e a ∉ post.

Lemma gone_cons a r rs :
  gone a (r :: rs) → gone a rs ∨ (r = PRemove a ∧ ∀ e, PInput e a ∉ rs).
Proof.
  intros ([|r' pre] & post & E & Hpost); injection E as -> ->; [by right|].
  left. by exists pre, post.
Qed.

Lemma session_ok rs t :
  task_ok t → (next_id t + N.of_nat (length rs) < 2 ^ 64)%N →
  wp (do_emulation_session failure key_order rs)
    (λ b t', task_ok t' ∧ task_events t' = task_events t ∧ (b = true ↔ PTerminate ∈ rs) ∧
       (b = false → ∀ a, gone a rs ∨ (task_handles t !! a = None ∧ ∀ e, PInput e a ∉ rs) →
         task_handles t' !! a = None)) t.
Proof.
  revert t. induction rs as [|r rs IH]; intros t Ht Hlt; cbn [do_emulation_session].
  { split_and!; [done|done|by rewrite elem_of_nil|].
    intros _ a [(pre & post & E & _)|[Ha _]]; [by destruct pre|done]. }
  cbn in Hlt. wp.
  eapply wp_mono; [apply session_request_ok; [done|lia]|]. intros b t1 (H1 & Hev & Hn & Hb & Hrem & Hx).
  destruct b.
  2: { rewrite (proj1 Hb eq_refl). wp. split_and!; [done|done|split; [left|done]|done]. }
  eapply wp_mono; [apply IH; [done|lia]|].
  intros c t2 (H2 & Hev2 & Hc & Hgone). split_and!; [done|by rewrite Hev2| |].
  { rewrite Hc, elem_of_cons. split; [by right|]. intros [<-|]; [|done].
    by discriminate (proj2 Hb eq_refl). }
  intros Hcf a Ha. apply Hgone; [done|].
  destruct Ha as [[Hg|[-> Hpost]]%gone_cons|[Hnone Hin]]; [by left|right; by eauto|].
  right. split; [|intros e He; apply (Hin e); by right].
  destruct r as [e a'|a'| |]; cbn in Hx.
  - rewrite Hx; [done|]. intros [= ->]. apply (Hin e). by left.
  - destruct (decide (a' = a)) as [->|]; [by apply Hrem|]. rewrite Hx; [done|congruence].
  - by rewrite Hx.
  - by rewrite Hx.
Qed.

Variable addr_order : gmap SocketAddr EmulationHandle → list (SocketAddr * EmulationHandle).
Hypothesis Haddrs : ∀ m, addr_order m ≡ₚ map_to_list m.

Lemma wait_for_termination_suffix rs unread :
  wait_for_termination rs = Some unread → PTerminate ∈ rs ∧ suffix unread rs.
Proof.
  induction rs as [|r rs IH]; cbn; [done|]. intros E.
  destruct r; try (destruct (IH E) as [Hin Hs]; split; [by right|by apply suffix_cons_r]).
  injection E as <-. split; [by left|by exists [PTerminate]].
Qed.

Lemma create_handles_ok l during rs t :
  task_ok t → (∀ a h, (a, h) ∈ l → task_handles t !! a = Some h) →
  wp (create_handles l during rs)
    (λ rest t', task_ok t' ∧ task_handles t' = task_handles t ∧ next_id t' = next_id t ∧
       task_events t' = task_events t ∧ length rest ≤ length rs ∧
       (∀ r, r ∈ rest → r ∈ rs)) t.
Proof.
  revert during rs t. induction l as [|[a h] l IH]; intros during rs t Ht Hl; cbn [create_handles].
  { by wp. }
  pose proof (take_drop (hd 0 during) rs) as Hsplit.
  destruct (wait_for_termination _) as [unread|] eqn:E.
  - apply wait_for_termination_suffix in E as [_ [pre E]]. rewrite E in Hsplit. wp.
    split_and!; [done..| |].
    + rewrite <- Hsplit at 2. rewrite !length_app. lia.
    + intros r Hr. rewrite <- Hsplit. set_solver.
  - wp. apply wp_em_call. eapply wp_mono; [apply create_ok, tk_em, Ht|]. intros b e [He Ee].
    eapply wp_mono; [apply IH|].
    + destruct Ht as [H1 H2 H3 H4]. split; [done| |done|done]. intros x. cbn. rewrite Ee.
      rewrite elem_of_union, elem_of_singleton. intros [->|Hx]; [|by apply H2].
      exists a. apply Hl. by left.
    + intros a' h' Hin. apply Hl. by right.
    + intros rest t' (H1 & E1 & E2 & E3 & Hlen & Hin). rewrite length_drop in Hlen.
      split_and!; [done|done|done|done|lia|]. intros r Hr%Hin.
      rewrite <- Hsplit. set_solver.
Qed.

(** The requests that remain, when nothing is taken. *)
Lemma create_handles_keep l during rs t :
  (∀ n, n ∈ during → n = 0) → wp (create_handles l during rs) (λ rest _, rest = rs) t.
Proof.
  revert during t. induction l as [|[a h] l IH]; intros during t Hd; cbn [create_handles]; [done|].
  assert (hd 0 during = 0) as -> by (destruct during; [done|apply Hd; left]). rewrite take_0, drop_0. cbn [wait_for_termination]. wp.
  apply wp_em_call. eapply wp_mono; [apply wp_create|]. intros b e _. apply IH.
  intros n Hn. apply Hd. destruct during; [by apply elem_of_nil in Hn|by right].
Qed.

(** A session on a backend that was just created. *)
Lemma create_clients_ok during rs t :
  task_ok t →
  wp (create_clients addr_order during rs)
    (λ rest t', task_ok t' ∧ task_handles t' = task_handles t ∧ next_id t' = next_id t ∧
       task_events t' = task_events t ∧ length rest ≤ length rs ∧
       (∀ r, r ∈ rest → r ∈ rs)) t.
Proof.
  intros Ht. unfold create_clients. wp. apply create_handles_ok; [done|].
  intros a h. by rewrite Haddrs, elem_of_map_to_list.
Qed.

Lemma task_ok_fresh t : task_ok t → task_ok (set_em new_emulation t).
Proof.
  clear Hok Hkeys Hhandles Haddrs failure key_order handle_order addr_order.
  intros [H1 H2 H3 H4]. split; [apply em_ok_new|cbn; set_solver|done|done].
Qed.
End proofs.

(** * The listen task *)

Section listen_proofs.
Variable local_commit : list byte.
Variable order : gmap SocketAddr Z → list (SocketAddr * Z).
Hypothesis Horder : ∀ m, order m ≡ₚ map_to_list m.
Implicit Types (s : ListenTask) (addr : SocketAddr).

Lemma time_outs l s :
  foldl (λ s (e : SocketAddr * Z), time_out (fst e) s) s l =
    out (Service.EmDisconnected <$> (fst <$> l)) [] (PRemove <$> (fst <$> l)) [] (fst <$> l) s.
Proof.
  revert s. induction l as [|[a t] l IH]; intros s; cbn.
  { unfold out. rewrite !app_nil_r. by destruct s. }
  rewrite IH. unfold time_out, out. cbn. by rewrite <- !app_assoc.
Qed.

(** The peers a tick gives up. *)
Definition late now s : list SocketAddr :=
  fst <$> filter (λ e, silent now (snd e) = true) (order (last_response s)).

Lemma elem_of_late now s addr :
  addr ∈ late now s ↔ ∃ t, last_response s !! addr = Some t ∧ silent now t = true.
Proof.
  unfold late. rewrite list_elem_of_fmap. split.
  - intros ([a t] & -> & [Hs Hin]%list_elem_of_filter). exists t. split; [|done].
    by rewrite Horder, elem_of_map_to_list in Hin.
  - intros (t & Ht & Hs). exists (addr, t). split; [done|]. apply list_elem_of_filter. split; [done|].
    by rewrite Horder, elem_of_map_to_list.
Qed.

Lemma NoDup_late now s : NoDup (late now s).
Proof.
  unfold late. eapply sublist_NoDup; [|apply fmap_sublist, sublist_filter].
  rewrite (Horder (last_response s)). apply NoDup_fst_map_to_list.
Qed.

(** The arm gives the peer [addr] up: it left, its connection closed, or it was
    silent for more than a second when the interval ticked. *)
Definition gives_up (arm : listen_arm) addr s : Prop :=
  match arm with
  | LEvent _ (Msg (ProtoEvent.Leave _) a) | LEvent _ (Disconnected a) => a = addr
  | LTick now => ∃ t, last_response s !! addr = Some t ∧ silent now t = true
  | _ => False
  end.

Lemma gone_last addr rs : gone addr (rs ++ [PRemove addr]).
Proof. exists rs, []. split; [done|]. intros e. apply not_elem_of_nil. Qed.

Lemma gives_up_gone arm addr s :
  gives_up arm addr s →
  ∃ s', listen_turn local_commit order arm s = Some s' ∧ gone addr (proxied s').
Proof.
  destruct arm as [now e| | |now]; cbn; try done.
  - destruct e as [event a| | |a]; try done; [destruct event; try done|]; intros ->;
      (eexists; split; [done|]); apply gone_last.
  - intros Hlate. eexists. split; [done|]. unfold on_tick. rewrite time_outs. cbn.
    fold (late now s). apply elem_of_late, list_elem_of_split in Hlate as (l1 & l2 & ->).
    exists (proxied s ++ (PRemove <$> l1)), (PRemove <$> l2). split.
    + by rewrite fmap_app, <- app_assoc.
    + intros e He. by apply list_elem_of_fmap in He as (a & ? & _).
Qed.

Lemma turn_no_terminate arm s s' :
  listen_turn local_commit order arm s = Some s' → PTerminate ∉ proxied s → PTerminate ∉ proxied s'.
Proof.
  intros E Hs. assert (∀ l, PTerminate ∉ l → PTerminate ∉ proxied s ++ l) as Happ
    by (intros l Hl; by rewrite elem_of_app; intros []).
  destruct arm as [now e|e|r|now]; cbn in E.
  - injection E as <-. destruct e as [event a|a fp|fp|a]; cbn.
    + destruct event; cbn; try (by apply Happ; set_solver); try done.
      destruct (emulation_active s); cbn; [apply Happ; set_solver|done].
    + apply Happ. set_solver.
    + destruct (rejected_connections s !! fp); [case_match|]; cbn; try done; apply Happ; set_solver.
    + apply Happ. set_solver.
  - injection E as <-. destruct e; cbn; apply Happ; set_solver.
  - destruct r; [injection E as <-..|done]; cbn; apply Happ; set_solver.
  - injection E as <-. unfold on_tick. rewrite time_outs. cbn. apply Happ.
    rewrite list_elem_of_fmap. by intros (? & ? & _).
Qed.

Lemma run_no_terminate arms s :
  PTerminate ∉ proxied s → PTerminate ∉ proxied (run local_commit order arms s).
Proof.
  revert s. induction arms as [|arm arms IH]; intros s Hs; cbn; [done|].
  destruct (listen_turn _ _ arm s) as [s'|] eqn:E; [|done]. by eapply IH, turn_no_terminate.
Qed.
End listen_proofs.

(** * What the receiving side promises *)

(** C6. No key stays down for a peer that is gone.  Let the listen task handle
    any events, the last of which gives up the peer [addr]: the peer sent a
    [Leave], its connection closed, or the tick found it silent for more than a
    second.  Then the emulation task, once it has worked off the requests, has
    no handle for [addr]; every key that its backend still holds down belongs to
    the handle of another peer; and over the whole session no key was pressed
    while it was down or released while it was up. *)
Theorem no_stuck_keys commit order failure key_order arms arm addr :
  (∀ n, failure n = None) → (∀ ks, key_order ks ≡ₚ elements ks) → (∀ m, order m ≡ₚ map_to_list m) →
  let s := run commit order arms new_listen in
  gives_up arm addr s →
  ∃ s', listen_turn commit order arm s = Some s' ∧
    ((N.of_nat (length (proxied s')) < 2 ^ 64)%N →
     wp (do_emulation_session failure key_order (proxied s'))
       (λ ended t, ended = false ∧ clean (emulation (em t)) ∧ task_handles t !! addr = None ∧
          ∀ h key, key ∈ held h (emulation (em t)) →
            ∃ a, a ≠ addr ∧ task_handles t !! a = Some h) new_task).
Proof.
  intros Hok Hkeys Horder s Hup. destruct (gives_up_gone commit order Horder arm addr s Hup)
    as (s' & E & Hgone).
  exists s'. split; [done|]. intros Hlen.
  assert (PTerminate ∉ proxied s') as Hterm.
  { eapply turn_no_terminate; [done|exact E|]. apply run_no_terminate; [done|]. apply not_elem_of_nil. }
  eapply wp_mono; [apply session_ok; [done|done|apply task_ok_new|done]|].
  intros ended t (Ht & _ & Hend & Hnone). destruct ended; [by destruct Hterm; apply Hend|].
  assert (task_handles t !! addr = None) as Haddr by (apply Hnone; [done|by left]).
  destruct Ht as [[Hh Hk Hc] H2 _ _]. split_and!; [done|done|done|].
  intros h key Hkey. rewrite Hh in Hkey.
  destruct (pressed_keys (em t) !! h) eqn:Ep; [|by apply elem_of_empty in Hkey].
  destruct (H2 h) as [a Ha]; [apply Hk; by rewrite Ep|].
  exists a. split; [|done]. intros ->. congruence.
Qed.

(** The tick of the interval.  It gives up exactly the peers whose last
    message is more than a second old, each once and in the order of the map:
    for each it reports the disconnection, asks the emulation task to drop the
    peer, and closes the connection with the wake code.  Everything else stays.
    When the supervisor then reports the closed connection, the service hears of
    the same disconnection a second time. *)
Theorem silent_peers commit order now s :
  (∀ m, order m ≡ₚ map_to_list m) →
  let s' := on_tick order now s in
  ∃ l,
    NoDup l ∧
    (∀ a, a ∈ l ↔ ∃ t, last_response s !! a = Some t ∧ (now - t > 1000000000)%Z) ∧
    s' = mkListen (addr_to_fingerprint s) (last_response s') (rejected_connections s)
           (emulation_active s)
           (event_tx s ++ (Service.EmDisconnected <$> l)) (replies s)
           (proxied s ++ (PRemove <$> l)) (clipboard_inbound s) (woken s ++ l) ∧
    (∀ a, a ∈ l → last_response s' !! a = None) ∧
    (∀ a, a ∉ l → last_response s' !! a = last_response s !! a) ∧
    (∀ a later, a ∈ l →
       event_tx (on_listen commit later (Disconnected a) s') =
         event_tx s ++ (Service.EmDisconnected <$> l) ++ [Service.EmDisconnected a]).
Proof.
  intros Horder s'. exists (late order now s).
  assert (s' = set_last (filter (λ e, silent now (snd e) = false) (last_response s))
            (out (Service.EmDisconnected <$> late order now s) [] (PRemove <$> late order now s) []
               (late order now s) s)) as E by (unfold s', on_tick; by rewrite time_outs).
  pose proof (elem_of_late order Horder now s) as Hlate.
  split_and!.
  - by apply NoDup_late.
  - intros a. rewrite Hlate. unfold silent, RESPONSE_TIMEOUT.
    split; intros (t & Ht & Hn); exists t; (split; [done|]); lia.
  - rewrite E. unfold set_last, set_maps, out. cbn. by rewrite !app_nil_r.
  - intros a (t & Ht & Hs)%Hlate. rewrite E. cbn. apply map_lookup_filter_None_2. right.
    intros t' Ht'. rewrite Ht in Ht'. injection Ht' as <-. cbn. by rewrite Hs.
  - intros a Ha. rewrite E. cbn. destruct (last_response s !! a) as [t|] eqn:Et.
    + apply map_lookup_filter_Some_2; [done|]. cbn. apply not_true_is_false. intros Hs.
      apply Ha, Hlate. eauto.
    + apply map_lookup_filter_None_2. by left.
  - intros a later Ha. rewrite E. cbn. by rewrite app_assoc.
Qed.

(** A session on a new backend reports that the emulation is enabled.  If
    its requests hold a [Terminate], none of them being taken while the handles
    of the known peers are made, it ends: every handle is destroyed, nothing is
    held down, no key was pressed or released twice, and the emulation is
    reported disabled.  Otherwise it waits, and stays enabled. *)
Theorem session_leaves_nothing failure key_order handle_order addr_order during rs t :
  (∀ n, failure n = None) → (∀ ks, key_order ks ≡ₚ elements ks) →
  (∀ hs, handle_order hs ≡ₚ elements hs) → (∀ m, addr_order m ≡ₚ map_to_list m) →
  task_ok t → (next_id t + N.of_nat (length rs) < 2 ^ 64)%N → (∀ n, n ∈ during → n = 0) →
  wp (do_emulation failure key_order handle_order addr_order during rs)
    (λ ended t', (ended = true ↔ PTerminate ∈ rs) ∧
       task_events t' = task_events t ++
         (if ended then [Service.EmulationEnabled; Service.EmulationDisabled]
          else [Service.EmulationEnabled]) ∧
       clean (emulation (em t')) ∧
       (ended = true → handles (em t') = ∅ ∧ ∀ h, held h (emulation (em t')) = ∅)) t.
Proof.
  intros Hok Hkeys Hhs Haddrs Ht Hlen Hd. unfold do_emulation, emit. wp.
  eapply wp_mono.
  { apply wp_conj; [|unfold create_clients; wp; by apply create_handles_keep].
    eapply create_clients_ok; try done. by destruct (task_ok_fresh t Ht); split. }
  intros rest t1 [(H1 & E1 & En & Hev & _) ->]. cbn in E1, En, Hev. wp. apply wp_attempt.
  eapply wp_mono; [apply session_ok; [done|done|done|by rewrite En]|].
  intros ended t2 (H2 & Hev2 & Hend & _). rewrite Hev in Hev2. destruct ended; wp.
  - apply wp_em_call. eapply wp_mono; [apply terminate_ok, tk_em, H2; done|].
    intros u e (He & Hnone & Hheld). wp. unfold reply. wp. cbn.
    split_and!; [done|by rewrite Hev2, <- app_assoc|apply He|done].
  - split_and!; [done|done|apply H2|done].
Qed.

(** A [Terminate] can be lost.  If the task is told to terminate while the
    handle of a known peer is created, [wait_for_termination] takes the request
    and [create_clients] returns without an error: the session starts all the
    same and waits for a request that nobody sends, and [terminate] of the proxy
    waits for the task. *)
Theorem terminate_lost failure key_order handle_order addr_order rs during t :
  (∀ n, failure n = None) → (∀ ks, key_order ks ≡ₚ elements ks) →
  (∀ m, addr_order m ≡ₚ map_to_list m) →
  task_ok t → task_handles t ≠ ∅ → PTerminate ∉ rs →
  wp (do_emulation failure key_order handle_order addr_order
        (S (length rs) :: during) (rs ++ [PTerminate]))
    (λ ended t', ended = false ∧ task_events t' = task_events t ++ [Service.EmulationEnabled]) t.
Proof.
  intros Hok Hkeys Haddrs Ht Hne Hrs. unfold do_emulation, emit, create_clients. wp. cbn.
  destruct (addr_order (task_handles t)) as [|[a h] l] eqn:E.
  { specialize (Haddrs (task_handles t)). rewrite E in Haddrs.
    symmetry in Haddrs. by apply Permutation_nil_r, map_to_list_empty_iff in Haddrs. }
  cbn [create_handles hd].
  assert (length (rs ++ [PTerminate]) = S (length rs)) as Hl by (rewrite length_app; cbn; lia).
  rewrite take_ge, drop_ge by lia.
  assert (wait_for_termination (rs ++ [PTerminate]) = Some []) as ->.
  { clear - Hrs. induction rs as [|r rs IH]; cbn; [done|].
    apply not_elem_of_cons in Hrs as [Hr Hrs]. by destruct r; auto. }
  wp. cbn. by unfold wp, attempt.
Qed.

(** ** Instances *)

(** Two peers press keys; then the connection of the first one closes. *)
Module Sample.
Definition a : SocketAddr := socket_addr (V4 1) 4242.
Definition b : SocketAddr := socket_addr (V4 2) 4242.
Definition press (key : Z) : ProtoEvent := ProtoEvent.Input (Keyboard (Key 0 key 1)).
Definition arms : list listen_arm :=
  [LEvent 0 (Accept a "fp-a"); LEvent 0 (Accept b "fp-b"); LProxy Service.EmulationEnabled;
   LEvent 1 (Msg (press 30) a); LEvent 2 (Msg (press 30) a); LEvent 3 (Msg (press 42) a);
   LEvent 4 (Msg (press 31) b)].
Definition listen (order : gmap SocketAddr Z → list (SocketAddr * Z)) : ListenTask :=
  run [] order arms new_listen.
Definition never (n : nat) : option EmulationError := None.

(** The calls on the backend, and the handle that is left. *)
Example released :
  (let t := snd (do_emulation_session never elements
                   (proxied (run [] map_to_list (arms ++ [LEvent 5 (Disconnected a)]) new_listen))
                   new_task) in
   (emulation (em t), map_to_list (task_handles t), elements (held 1 (emulation (em t))))) =
  ([CreatedHandle 0; Consumed (Keyboard (Key 0 30 1)) 0 true;
    Consumed (Keyboard (Key 0 42 1)) 0 true; CreatedHandle 1;
    Consumed (Keyboard (Key 0 31 1)) 1 true;
    Consumed (key_up 30) 0 true; Consumed (key_up 42) 0 true;
    Consumed mods_zero 0 true; DestroyedHandle 0], [(b, 1%N)], [31%Z]).
Proof. vm_compute. reflexivity. Qed.

(** A task that knows the handle of one peer, between two sessions. *)
Definition task : EmulationTask := mkTask new_emulation {[a := 0%N]} 1 [].

Lemma task_known : task_ok task.
Proof.
  assert (∀ x h, task_handles task !! x = Some h → x = a ∧ h = 0%N) as Hx
    by (intros x h Hl; cbn in Hl; by apply lookup_singleton_Some in Hl as [<- <-]).
  split.
  - by apply (em_ok_new).
  - intros h Hh. by apply elem_of_empty in Hh.
  - by intros x y h [-> _]%Hx [-> _]%Hx.
  - intros x h [_ ->]%Hx. done.
Qed.
End Sample.
Import Sample.

Lemma no_stuck_keys_witness :
  ∃ s', listen_turn [] map_to_list (LEvent 5 (Disconnected a)) (listen map_to_list) = Some s' ∧
    length (proxied s') = 5 ∧
    wp (do_emulation_session never elements (proxied s'))
      (λ ended t, ended = false ∧ clean (emulation (em t)) ∧ task_handles t !! a = None ∧
         ∀ h key, key ∈ held h (emulation (em t)) →
           ∃ p, p ≠ a ∧ task_handles t !! p = Some h) new_task.
Proof.
  destruct (no_stuck_keys [] map_to_list never elements arms (LEvent 5 (Disconnected a)) a)
    as (s' & E & H); [done|done|done|reflexivity|].
  exists s'. split; [exact E|]. assert (length (proxied s') = 5) as Hl.
  { apply (inj Some). change (option_map (λ s, length (proxied s)) (Some s') = Some 5).
    rewrite <- E. vm_compute. reflexivity. }
  split; [exact Hl|]. apply H. rewrite Hl. reflexivity.
Defined.

(** The tick two seconds later finds the first peer silent. *)
Lemma silent_peers_witness :
  let s := set_last (<[b := 2000000000%Z]> (last_response (listen map_to_list)))
             (listen map_to_list) in
  let s' := on_tick map_to_list 2500000000 s in
  woken s' = [a] ∧ ∃ l, NoDup l ∧ woken s' = woken s ++ l ∧
    event_tx (on_listen [] 2600000000 (Disconnected a) s') =
      event_tx s ++ (Service.EmDisconnected <$> l) ++ [Service.EmDisconnected a].
Proof.
  intros s s'. split; [vm_compute; reflexivity|].
  destruct (silent_peers [] map_to_list 2500000000 s) as (l & Hnd & Hin & E & _ & _ & Htwice);
    [done|].
  exists l. split; [done|]. split; [exact (f_equal woken E)|]. apply Htwice, Hin.
  exists 3%Z. split; [vm_compute; reflexivity|lia].
Defined.

Lemma session_leaves_nothing_witness :
  let rs := [PInput (Keyboard (Key 0 30 1)) a; PInput (Keyboard (Key 0 31 1)) b; PTerminate] in
  (1 + N.of_nat (length rs) < 2 ^ 64)%N ∧
  wp (do_emulation never elements elements map_to_list [] rs)
    (λ ended t, ended = true ∧ handles (em t) = ∅ ∧
       task_events t = [Service.EmulationEnabled; Service.EmulationDisabled]) task.
Proof.
  intros rs. split; [vm_compute; reflexivity|].
  eapply wp_mono.
  - apply (session_leaves_nothing never elements elements map_to_list [] rs task);
      [done|done|done|done|apply task_known|vm_compute; reflexivity|].
    intros n Hn. by apply elem_of_nil in Hn.
  - intros ended t (Hend & Hev & _ & Hnone).
    assert (ended = true) as -> by (apply Hend; subst rs; do 2 right; left).
    split; [done|]. split; [by apply Hnone|exact Hev].
Defined.

Lemma terminate_lost_witness :
  (PTerminate ∉ [PInput (Keyboard (Key 0 30 1)) a]) ∧
  wp (do_emulation never elements elements map_to_list [2]
        [PInput (Keyboard (Key 0 30 1)) a; PTerminate])
    (λ ended t, ended = false ∧ task_events t = [Service.EmulationEnabled]) task.
Proof.
  split; [by intros [?|?%elem_of_nil]%elem_of_cons|].
  apply (terminate_lost never elements elements map_to_list
           [PInput (Keyboard (Key 0 30 1)) a] [] task);
    [done|done|done|apply task_known| |by intros [?|?%elem_of_nil]%elem_of_cons].
  apply map_non_empty_singleton.
Defined.
