(* ===== verification/Listen.v ===== *)
(** The listening side (src/listen.rs): the registered peers, the supervisor of
    one connection, and the dispatcher of the streams that the peer opens; at the
    end, both sides together with [Session] and [Http3].

    The connection is seen from here as what will arrive: the handshake's answer,
    the bytes of stream A, the datagrams, and the streams the peer opens in the
    order in which they are accepted.  The tasks of a connection run
    concurrently; each is a function of its own input, and a reader task is kept
    as the stream it was started on. *)

From stdpp Require Import pretty.
From S2P Require Import Prelude InputEvent Proto Codec Wire Transport.
From S2P Require Import Caches Text Http3 Net Emulation Session.

(** * The listener *)

(** The channel of the events, whether it is still open, and the registered
    peers by their session. *)
Record Listener : Type := mkListener {
  listen_tx : list ListenEvent;
  tx_open : bool;
  quic_conns : gmap SocketAddr nat
}.

Abbreviation L := (ST Listener Error).

Definition send_listen (e : ListenEvent) : ST Listener unit unit := λ s,
  if tx_open s then (Ok tt, mkListener (listen_tx s ++ [e]) true (quic_conns s))
  else (Err tt, s).

(** [request_port_change], [port_changed] and [terminate]. *)
Inductive ListenerCreationError : Type := PortChangeUnsupported | Quic (e : Error).
Definition request_port_change (port : Z) (s : Listener) : Listener := s.
Definition port_changed (s : Listener) : ListenerCreationError + Z := inl PortChangeUnsupported.
Definition terminate (s : Listener) : Listener := mkListener (listen_tx s) false (quic_conns s).

(** [reply] and [close_with_wake_code]: the session they reach. *)
Definition reply_to (addr : SocketAddr) (s : Listener) : option nat := quic_conns s !! addr.
Definition close_with_wake_code (addr : SocketAddr) (s : Listener) : option (nat * Z) :=
  (λ sid, (sid, WAKE_CLOSE_CODE)) <$> quic_conns s !! addr.
(** The wake task closes every registered session. *)
Definition wake (order : gmap SocketAddr nat → list (SocketAddr * nat)) (s : Listener)
    : list (nat * Z) :=
  (λ '(_, sid), (sid, WAKE_CLOSE_CODE)) <$> order (quic_conns s).

(** [spawn_rejection_forwarder_task], over the fingerprints it gets. *)
Fixpoint rejection_forwarder (fps : list string) : ST Listener unit unit :=
  match fps with
  | [] => mret tt
  | fp :: fps => send_listen (Rejected fp) ≫= λ _, rejection_forwarder fps
  end.

(** [Drop] of [QuicConnGuard]. *)
Definition drop_guard (addr : SocketAddr) (s : Listener) : Listener :=
  mkListener (listen_tx s) (tx_open s) (delete addr (quic_conns s)).

(** * The supervisor of a connection *)

(** Up to the registration: the handshake's result, the fingerprint of the
    peer's certificate, if it has one, and the session's number.  [true] means
    that the peer is registered and its guard active. *)
Definition supervisor_begin (addr : SocketAddr) (hello : outcome Error unit)
    (fingerprint : option string) (sid : nat) : L unit :=
  (λ s, (hello, s)) ≫= λ _,
  match fingerprint with
  | None => raise (HelloFailed "no client cert presented")
  | Some fingerprint =>
      sent ← (λ s, match send_listen (Accept addr fingerprint) s with
                   | (Ok _, s) => (Ok true, s) | (_, s) => (Ok false, s) end);
      if negb sent then raise (HelloFailed "listen_tx closed (terminated)")
      else modify_st (λ s, mkListener (listen_tx s) (tx_open s) (<[addr := sid]> (quic_conns s)))
  end.

(** The loop over stream A; [true] is an exit by [break]. *)
Fixpoint supervisor_loop (fuel : nat) (addr : SocketAddr) (recv_a : RecvStream) : L unit :=
  match fuel with
  | O => λ s, (Diverge, s)
  | S fuel =>
      match read_frame recv_a with
      | (Ok event, recv_a) => λ s,
          match send_listen (Msg event addr) s with
          | (Ok _, s) => supervisor_loop fuel addr recv_a s
          | (_, s) => (Ok tt, s)
          end
      | (Err (FrameTooLarge len), _) => raise (FrameTooLarge len)
      | (Err (HelloFailed msg), recv_a) =>
          if starts_with "decode frame" msg then supervisor_loop fuel addr recv_a
          else raise (HelloFailed msg)
      | (Err Truncated, _) => mret tt
      | (Err e, _) => raise e
      | (Panic, _) => panic
      | (Diverge, _) => λ s, (Diverge, s)
      end
  end.

(** [handle_quic_peer_supervisor]: after the registration every exit, a panic
    included, runs the guard. *)
Definition handle_quic_peer_supervisor (addr : SocketAddr) (hello : outcome Error unit)
    (fingerprint : option string) (sid : nat) (recv_a : option RecvStream) : L unit := λ s,
  match supervisor_begin addr hello fingerprint sid s with
  | (Ok _, s) =>
      let '(res, s) :=
        match recv_a with
        | None => (Err (HelloFailed "stream A not cached after server_hello"), s)
        | Some recv_a =>
            match supervisor_loop (S (length (r_bytes recv_a))) addr recv_a s with
            | (Ok _, s) => (Ok tt, snd (send_listen (Disconnected addr) s))
            | (res, s) => (res, s)
            end
        end in
      (res, drop_guard addr s)
  | (res, s) => (res, s)
  end.

(** * The dispatcher *)

(** A reader task, with the event that was read before it was started. *)
Record Reader : Type := mkReader { first_event : ProtoEvent; rest : RecvStream; clipboard : bool }.

Record Dispatch : Type := mkDispatch {
  sent_inline : list ProtoEvent;
  readers : list Reader;
  parked_streams : nat;
  responses : list SendStream;
  caches : Caches
}.

Abbreviation D := (ST Dispatch Error).

Section dispatch.
(** Whether the [n]-th event still finds the receiver; how the writes of an
    answer end; the order in which a map is searched; the instant. *)
Variable receiver : nat → bool.
Variable accept : nat → option nat.
Variable order : gmap string Handler → list (string * Handler).
Variable now : Z.

Definition send_inline (event : ProtoEvent) : D bool := λ d,
  if receiver (length (sent_inline d))
  then (Ok true, mkDispatch (sent_inline d ++ [event]) (readers d) (parked_streams d) (responses d) (caches d))
  else (Ok false, d).
Definition spawn_reader (event : ProtoEvent) (recv : RecvStream) (clip : bool) : D unit :=
  modify_st (λ d, mkDispatch (sent_inline d) (readers d ++ [mkReader event recv clip]) (parked_streams d)
                    (responses d) (caches d)).
Definition park : D unit :=
  modify_st (λ d, mkDispatch (sent_inline d) (readers d) (S (parked_streams d)) (responses d) (caches d)).
Definition serve (recv : RecvStream) : D unit :=
  modify_st (λ d, let '(send, cs) :=
                    handle_http3_stream accept order default_router_with_caches now recv (caches d) in
                  mkDispatch (sent_inline d) (readers d) (parked_streams d) (responses d ++ [send]) cs).

(** [chain(prefix, recv)]. *)
Definition chain (prefix : list byte) (recv : RecvStream) : RecvStream :=
  mkRecv (prefix ++ r_bytes recv) (r_end recv).

(** The first frame goes out, then a reader takes over. *)
Definition deliver_first (event : ProtoEvent) (recv : RecvStream) (clip : bool) : D bool :=
  ok ← send_inline event;
  if ok : bool then spawn_reader event recv clip ≫= λ _, mret true else mret false.

(** A stream that is no request, after the length of its first frame. *)
Definition framed_turn (len : nat) (recv : RecvStream) : D bool :=
  if decide (MAX_EVENT_SIZE < len) then
    match read_exact len recv with
    | (inr _, _) => mret true
    | (inl body, recv) =>
        match decode_slice body with
        | Ok event => deliver_first event recv true
        | Err _ => mret true
        | Panic => panic
        | Diverge => λ d, (Diverge, d)
        end
    end
  else
    match read_exact len recv with
    | (inr _, _) => mret false
    | (inl body, recv) =>
        match Fixed.decode (zero_padded body) with
        | Ok event => deliver_first event recv false
        | Err _ => mret false
        | Panic => panic
        | Diverge => λ d, (Diverge, d)
        end
    end.

(** One turn of [server_accept_bi_task]: [false] ends the task. *)
Definition server_turn (recv : RecvStream) : D bool :=
  match read_exact 4 recv with
  | (inr _, _) => park ≫= λ _, mret true
  | (inl prefix, recv) =>
      if looks_like_http3_request prefix then serve (chain prefix recv) ≫= λ _, mret true
      else framed_turn (Z.to_nat (be_val prefix)) recv
  end.

(** The task, over the streams accepted until the connection ends. *)
Fixpoint server_accept_bi_task (bidis : list RecvStream) : D unit :=
  match bidis with
  | [] => mret tt
  | recv :: bidis =>
      go ← server_turn recv;
      if go : bool then server_accept_bi_task bidis else mret tt
  end.
End dispatch.

(** [server_stream_reader_task] and [server_stream_c_reader_task]: the loop of
    the readers of [streams.rs] with another channel. *)
Definition event_of (e : StreamEvent) : ProtoEvent :=
  match e with Control e | Reliable e | DatagramEvent e | ClipboardMeta e => e end.
Definition server_stream_reader_task (receiver : nat → bool) (r : RecvStream)
    : list ProtoEvent * outcome Error unit :=
  let '(evs, res) := read_stream_b_loop receiver r in (event_of <$> evs, res).
Definition server_stream_c_reader_task (receiver : nat → bool) (r : RecvStream)
    : list ProtoEvent * outcome Error unit :=
  let '(evs, res) := read_stream_c_loop receiver r in (event_of <$> evs, res).

(** What a reader's stream delivers, its first frame included. *)
Definition delivers (receiver : nat → bool) (r : Reader) : list ProtoEvent :=
  first_event r ::
  fst (if clipboard r then server_stream_c_reader_task receiver (rest r)
       else server_stream_reader_task receiver (rest r)).

Fixpoint server_datagram_reader_task (receiver : nat → bool) (n : nat) (dgrams : list (list byte))
    : list ProtoEvent * outcome Error unit :=
  match dgrams with
  | [] => ([], Ok tt)
  | bytes :: dgrams =>
      if decide (length bytes = MAX_EVENT_SIZE) then
        match Fixed.decode bytes with
        | Ok event =>
            if receiver n then
              let '(evs, res) := server_datagram_reader_task receiver (S n) dgrams in (event :: evs, res)
            else ([], Ok tt)
        | Err _ => server_datagram_reader_task receiver n dgrams
        | Panic => ([], Panic)
        | Diverge => ([], Diverge)
        end
      else server_datagram_reader_task receiver n dgrams
  end.

(** * Fetching through the dispatcher *)

Lemma take_prefix m p b : 4 ≤ length (encode_request m p b).
Proof. unfold encode_request. rewrite !length_app, !length_be_bytes. lia. Qed.

Lemma server_turn_get receiver accept order now path e d :
  server_turn receiver accept order now (mkRecv (encode_request "GET" path []) e) d =
  (Ok true, snd (serve accept order now (mkRecv (encode_request "GET" path []) e) d)).
Proof.
  pose proof (take_prefix "GET" path []) as Hl. unfold server_turn.
  unfold read_exact at 1. cbn [r_bytes r_end]. rewrite decide_False by lia.
  change (looks_like_http3_request (take 4 (encode_request "GET" path []))) with true. cbn match.
  unfold chain. cbn [r_bytes r_end]. by rewrite take_drop.
Qed.

Section fetch.
Context (receiver : nat → bool) (accept accept' : nat → option nat) (e : io_error).
Context (order : gmap string Handler → list (string * Handler)) (now : Z) (d : Dispatch).

(** What the dispatcher answers on a stream that carries [bytes]. *)
Definition dispatched (bytes : list byte) : RecvStream :=
  let d' := snd (server_turn receiver accept' order now (mkRecv bytes Transport.UnexpectedEof) d) in
  mkRecv (from_option s_bytes [] (last (responses d'))) e.

Lemma exchange_ext {A} (read : R A) (server server' : list byte → RecvStream) path :
  server (encode_request "GET" path []) = server' (encode_request "GET" path []) →
  exchange read true accept server path = exchange read true accept server' path.
Proof.
  intros Hs. unfold exchange, send_request, mbind at 1 2, ST_bind at 1 2.
  destruct (writes_request accept "GET" path [] new_send) as (out & r & n & -> & _ & _ & [[-> ->]| ->] & _).
  2: done.
  cbn. by rewrite Hs.
Qed.

(** C28. A fetch over a connection reaches the HTTP/3 server behind the
    dispatcher: for every path the client gets what it would get from the
    server alone, and the dispatcher goes on, with nothing delivered as input
    or clipboard event. *)
Theorem fetch_dispatched path :
  get_bytes true accept dispatched path =
    get_bytes true accept (served accept' e order now (caches d)) path ∧
  ∃ send cs, server_turn receiver accept' order now
      (mkRecv (encode_request "GET" path []) Transport.UnexpectedEof) d =
    (Ok true, mkDispatch (sent_inline d) (readers d) (parked_streams d) (responses d ++ [send]) cs).
Proof.
  unfold get_bytes. split.
  - apply exchange_ext. unfold dispatched, served. rewrite server_turn_get. unfold serve, modify_st.
    destruct (handle_http3_stream _ _ _ _ _ _) as [send cs]. cbn. by rewrite last_snoc.
  - rewrite server_turn_get. unfold serve, modify_st.
    destruct (handle_http3_stream _ _ _ _ _ _) as [send cs]. eauto.
Qed.
End fetch.

(** * What the peer sends arrives *)

(** The bytes of a frame and the event they stand for. *)
Definition carries (body : list byte) (e : ProtoEvent) : Prop :=
  length body ≤ MAX_EVENT_SIZE ∧ Fixed.decode (zero_padded body) = Ok e.
Definition carries_c (body : list byte) (e : ProtoEvent) : Prop :=
  bytes_wf body ∧ decode_slice body = Ok e.

Section frames.
Context (read : RecvStream → outcome Error ProtoEvent * RecvStream).
Context (wrap : ProtoEvent → StreamEvent) (skip : string) (P : list byte → ProtoEvent → Prop).
Context (ending : io_error) (msg : string).
Hypothesis read_frame_ok : ∀ body e tl, P body e →
  read (mkRecv (frame_of body ++ tl) ending) = (Ok e, mkRecv tl ending).
Hypothesis read_end : ∃ r, read (mkRecv [] ending) = (Err (HelloFailed msg), r).
Hypothesis no_skip : starts_with skip msg = false.

Lemma reader_frames bodies es fuel n :
  Forall2 P bodies es → length bodies < fuel →
  reader_loop read wrap skip (λ _, true) fuel n (mkRecv (concat (frame_of <$> bodies)) ending) =
  (wrap <$> es, Err (HelloFailed msg)).
Proof.
  intros HP. revert fuel n. induction HP as [|body e bodies es Hb HP IH]; intros [|fuel] n Hf; cbn in Hf; try lia.
  - cbn. unfold reader_turn. destruct read_end as [r ->]. by rewrite no_skip.
  - cbn [fmap list_fmap concat reader_loop]. unfold reader_turn. rewrite read_frame_ok with (e := e) by done.
    by rewrite IH by lia.
Qed.
End frames.

Lemma length_frames bodies : length bodies ≤ length (concat (frame_of <$> bodies)).
Proof.
  induction bodies as [|b bodies IH]; cbn; [lia|]. rewrite length_app. unfold frame_of at 1.
  rewrite length_app, length_be_bytes. lia.
Qed.

Lemma stream_b_frames bodies es ending :
  Forall2 carries bodies es →
  server_stream_reader_task (λ _, true) (mkRecv (concat (frame_of <$> bodies)) ending) =
  (es, Err (HelloFailed "read frame length: ")).
Proof.
  intros HP. unfold server_stream_reader_task, read_stream_b_loop.
  rewrite (reader_frames read_frame Reliable "decode frame" carries ending "read frame length: "
    ltac:(intros body e tl [Hl Hd]; by rewrite read_frame_body, Hd by done) ltac:(eexists; reflexivity) eq_refl
    bodies es); [|done|cbn [r_bytes]; pose proof (length_frames bodies); lia].
  f_equal. rewrite <- list_fmap_compose. by apply list_fmap_id.
Qed.
Lemma stream_c_frames bodies es ending :
  Forall2 carries_c bodies es →
  server_stream_c_reader_task (λ _, true) (mkRecv (concat (frame_of <$> bodies)) ending) =
  (es, Err (HelloFailed "read stream C length: ")).
Proof.
  intros HP. unfold server_stream_c_reader_task, read_stream_c_loop.
  rewrite (reader_frames read_stream_c_frame ClipboardMeta "decode stream C frame" carries_c ending
    "read stream C length: "
    ltac:(intros body e tl [Hl Hd]; by rewrite read_stream_c_frame_body, Hd by done) ltac:(eexists; reflexivity) eq_refl
    bodies es); [|done|cbn [r_bytes]; pose proof (length_frames bodies); lia].
  f_equal. rewrite <- list_fmap_compose. by apply list_fmap_id.
Qed.

Lemma supervisor_frames addr bodies es tl ending fuel s :
  Forall2 carries bodies es → tx_open s = true →
  supervisor_loop (length bodies + fuel) addr (mkRecv (concat (frame_of <$> bodies) ++ tl) ending) s =
  supervisor_loop fuel addr (mkRecv tl ending)
    (mkListener (listen_tx s ++ ((λ e, Msg e addr) <$> es)) true (quic_conns s)).
Proof.
  intros HP. revert s. induction HP as [|body e bodies es [Hl Hd] HP IH]; intros s Ho.
  - cbn [length fmap list_fmap concat app plus]. rewrite app_nil_r. destruct s. cbn in *. by subst.
  - cbn [fmap list_fmap concat length plus]. rewrite <- app_assoc. cbn [supervisor_loop].
    rewrite read_frame_body, Hd by done. cbn [map_err].
    unfold send_listen. rewrite Ho. rewrite IH by done. cbn [listen_tx quic_conns]. by rewrite <- app_assoc.
Qed.

(** The whole supervisor on frames that are followed by [tl], on which the loop
    ends without a further event. *)
Lemma supervisor_run addr fp sid bodies es tl ending l :
  Forall2 carries bodies es → tx_open l = true →
  let sent := listen_tx l ++ Accept addr fp :: ((λ e, Msg e addr) <$> es) in
  ∀ res, (∀ s fuel, supervisor_loop (S fuel) addr (mkRecv tl ending) s = (res, s)) →
  handle_quic_peer_supervisor addr (Ok tt) (Some fp) sid
    (Some (mkRecv (concat (frame_of <$> bodies) ++ tl) ending)) l =
  (res, mkListener (sent ++ match res with Ok _ => [Disconnected addr] | _ => [] end) true
          (delete addr (quic_conns l))).
Proof.
  intros HP Ho sent res Hend.
  unfold handle_quic_peer_supervisor, supervisor_begin, mbind, ST_bind. cbn [modify_st negb].
  unfold send_listen at 1. rewrite Ho. cbn [negb modify_st listen_tx tx_open quic_conns r_bytes].
  pose proof (length_frames bodies) as Hl.
  replace (S (length (concat (frame_of <$> bodies) ++ tl)))
    with (length bodies + S (length (concat (frame_of <$> bodies)) - length bodies + length tl))
    by (rewrite length_app; lia).
  rewrite (supervisor_frames addr bodies es) by done. rewrite Hend. cbn [listen_tx quic_conns].
  unfold sent. rewrite <- app_assoc. cbn [app].
  assert (delete addr (<[addr:=sid]> (quic_conns l)) = delete addr (quic_conns l)) as Hdel
    by apply delete_insert_eq.
  destruct res as [[]|e| |]; unfold drop_guard; cbn [snd send_listen listen_tx tx_open quic_conns];
    rewrite Hdel, ?app_nil_r, <- ?app_assoc; done.
Qed.

Lemma datagrams_arrive es n :
  Forall Fixed.wf es →
  server_datagram_reader_task (λ _, true) n (full_body <$> es) = (es, Ok tt).
Proof.
  intros Hes. revert n. induction Hes as [|e es Hwf Hes IH]; intros n; [done|].
  cbn [fmap list_fmap server_datagram_reader_task].
  rewrite decide_True.
  2: { unfold full_body, zero_padded, short_body. rewrite length_app, length_replicate.
       pose proof (Fixed.body_length e Hwf). change MAX_EVENT_SIZE with 21. cbn [length]. lia. }
  unfold full_body at 1, short_body at 1. rewrite decode_padded by done. by rewrite IH.
Qed.

(** The bodies of the frames, and the events they carry. *)
Lemma short_carries e : Fixed.wf e → carries (short_body e) e.
Proof. intros Hwf. split; [by apply fixed_frame_short|by apply decode_padded]. Qed.
Lemma full_carries e : Fixed.wf e → carries (full_body e) e.
Proof.
  intros Hwf. assert (length (full_body e) = MAX_EVENT_SIZE) as Hl.
  { unfold full_body, zero_padded, short_body. rewrite length_app, length_replicate.
    pose proof (Fixed.body_length e Hwf). change MAX_EVENT_SIZE with 21. cbn [length]. lia. }
  split; [lia|]. unfold zero_padded. rewrite Hl, Nat.sub_diag, app_nil_r. by apply decode_padded.
Qed.
Lemma clip_carries e :
  event_wf e → bytes_wf (Fixed.type_byte e :: frame_body e) →
  carries_c (Fixed.type_byte e :: frame_body e) e.
Proof. intros Hwf Hl. split; [done|by apply decode_slice_ok]. Qed.

(** A clipboard event takes more bytes than any fixed one. *)
Lemma clip_long e : event_wf e → is_fixed_event e = false → 32 ≤ length (frame_body e).
Proof.
  intros Hwf Hf. unfold frame_body. rewrite Hf.
  destruct e as [| | |[[]|[]]| | | |x|x|x|x|x|x|x]; try done; cbn [var_body event_wf] in *; destruct x.
  3: { destruct Hwf as [Hh _]. cbn [encode_var_body Var.files_codec]. rewrite !Var.write_vec_var_spec.
       unfold Var.write_hash. cbn in Hh. unfold hash_wf in Hh. rewrite !length_app. cbn. lia. }
  all: cbn in Hwf; unfold clipboard_text_wf, clipboard_image_wf, offer_wf, Var.response_wf,
      Var.cancel_wf, Var.request_wf, hash_wf in Hwf; cbn in Hwf |- *;
    repeat case_match; rewrite ?length_app; lia.
Qed.

(** A frame that breaks off in its body. *)
Lemma take_frame body k :
  4 ≤ k → take k (frame_of body) = be_bytes 4 (Z.of_nat (length body)) ++ take (k - 4) body.
Proof.
  intros Hk. unfold frame_of. rewrite take_app_ge by (rewrite length_be_bytes; lia). by rewrite length_be_bytes.
Qed.

Section turns.
Context (receiver : nat → bool) (accept : nat → option nat).
Context (order : gmap string Handler → list (string * Handler)) (now : Z).

Abbreviation turn := (server_turn receiver accept order now).

Lemma turn_empty e d :
  turn (mkRecv [] e) d =
  (Ok true, mkDispatch (sent_inline d) (readers d) (S (parked_streams d)) (responses d) (caches d)).
Proof. done. Qed.

(** A stream that starts with a length below those of the requests. *)
Lemma turn_framed n tl ending d :
  (0 ≤ n < 196608)%Z →
  turn (mkRecv (be_bytes 4 n ++ tl) ending) d = framed_turn receiver (Z.to_nat n) (mkRecv tl ending) d.
Proof.
  intros Hn. unfold server_turn.
  pose proof (read_exact_app (be_bytes 4 n) tl ending) as E. rewrite length_be_bytes in E. rewrite E.
  destruct (looks_like_http3_request _) eqn:El; [apply looks_like_length in El; lia|].
  by rewrite be_val_be_bytes by (unfold inU; lia).
Qed.

Lemma turn_b body tl ending d :
  length body ≤ MAX_EVENT_SIZE →
  turn (mkRecv (frame_of body ++ tl) ending) d =
  match Fixed.decode (zero_padded body) with
  | Ok event => deliver_first receiver event (mkRecv tl ending) false d
  | Err _ => (Ok false, d)
  | Panic => (Panic, d)
  | Diverge => (Diverge, d)
  end.
Proof.
  change MAX_EVENT_SIZE with 21. intros Hl. unfold frame_of. rewrite <- app_assoc, turn_framed by lia.
  rewrite Nat2Z.id. unfold framed_turn. change MAX_EVENT_SIZE with 21.
  rewrite decide_False, read_exact_app by lia. by destruct (Fixed.decode _).
Qed.
Lemma turn_c body tl ending d :
  MAX_EVENT_SIZE < length body → (Z.of_nat (length body) < 196608)%Z →
  turn (mkRecv (frame_of body ++ tl) ending) d =
  match decode_slice body with
  | Ok event => deliver_first receiver event (mkRecv tl ending) true d
  | Err _ => (Ok true, d)
  | Panic => (Panic, d)
  | Diverge => (Diverge, d)
  end.
Proof.
  change MAX_EVENT_SIZE with 21. intros Hlo Hhi. unfold frame_of. rewrite <- app_assoc, turn_framed by lia.
  rewrite Nat2Z.id. unfold framed_turn. change MAX_EVENT_SIZE with 21.
  rewrite decide_True, read_exact_app by lia. by destruct (decode_slice _).
Qed.
Lemma turn_cut body k ending d :
  length body ≤ MAX_EVENT_SIZE → 4 ≤ k < 4 + length body →
  turn (mkRecv (take k (frame_of body)) ending) d = (Ok false, d).
Proof.
  change MAX_EVENT_SIZE with 21. intros Hl Hk. rewrite take_frame by lia. rewrite turn_framed by lia.
  rewrite Nat2Z.id. unfold framed_turn. change MAX_EVENT_SIZE with 21. rewrite decide_False by lia.
  unfold read_exact. cbn [r_bytes r_end]. by rewrite decide_True by (rewrite length_take; lia).
Qed.
End turns.

(** A stream of frames as the dispatcher meets it: parked when it is empty,
    given to a reader otherwise. *)
Definition is_stream (ending : io_error) (w : list byte) (clip : bool) (es : list ProtoEvent) : Prop :=
  ∃ bodies, w = concat (frame_of <$> bodies) ∧
    if clip then Forall2 carries_c bodies es ∧
                 Forall (λ b, 21 < length b ∧ (Z.of_nat (length b) < 196608)%Z) bodies
    else Forall2 carries bodies es.

Lemma turn_stream accept order now ending w clip es d :
  is_stream ending w clip es →
  ∃ d' new, server_turn (λ _, true) accept order now (mkRecv w ending) d = (Ok true, d') ∧
    readers d' = readers d ++ new ∧ delivers (λ _, true) <$> new = filter (.≠ []) [es].
Proof.
  intros (bodies & -> & H). destruct clip.
  - destruct H as [H2 Hl]. destruct H2 as [|body e bodies es Hb H2].
    { eexists _, []. split; [apply turn_empty|]. by rewrite app_nil_r. }
    apply Forall_cons in Hl as [[H21 Hhi] Hl]. eexists _, [mkReader e (mkRecv (concat (frame_of <$> bodies)) ending) true].
    split; [cbn [fmap list_fmap concat]; rewrite turn_c by done; by rewrite (proj2 Hb)|]. split; [done|].
    rewrite filter_cons_True by done. cbn [fmap list_fmap filter list_filter]. do 2 f_equal.
    unfold delivers. cbn [clipboard first_event rest]. by rewrite (stream_c_frames bodies es).
  - destruct H as [|body e bodies es Hb H2].
    { eexists _, []. split; [apply turn_empty|]. by rewrite app_nil_r. }
    eexists _, [mkReader e (mkRecv (concat (frame_of <$> bodies)) ending) false].
    split; [cbn [fmap list_fmap concat]; rewrite turn_b by apply Hb; by rewrite (proj2 Hb)|]. split; [done|].
    rewrite filter_cons_True by done. cbn [fmap list_fmap filter list_filter]. do 2 f_equal.
    unfold delivers. cbn [clipboard first_event rest]. by rewrite (stream_b_frames bodies es).
Qed.

(** The lanes of a sequence of events. *)
Definition to (cfg : InputChannelConfig) (ch : Channel) (es : list ProtoEvent) : list ProtoEvent :=
  filter (λ e, route_input cfg e = ch) es.
(** Stream B also carries the events for datagrams when there are none. *)
Definition to_b (dg : bool) (cfg : InputChannelConfig) (es : list ProtoEvent) : list ProtoEvent :=
  filter (λ e, route_input cfg e = Channel.StreamB ∨ (route_input cfg e = Channel.Datagram ∧ dg = false)) es.

Definition b_body (cfg : InputChannelConfig) (e : ProtoEvent) : list byte :=
  match route_input cfg e with Channel.Datagram => full_body e | _ => short_body e end.
Definition c_body (e : ProtoEvent) : list byte := Fixed.type_byte e :: frame_body e.

Lemma sent_view dg cfg es v :
  foldl (add_event dg cfg) v es =
  mkView (on_a v ++ concat (frame_of <$> (short_body <$> to cfg Channel.StreamA es)))
         (on_b v ++ concat (frame_of <$> (b_body cfg <$> to_b dg cfg es)))
         (on_c v ++ concat (frame_of <$> (c_body <$> to cfg Channel.StreamC es)))
         (by_dgram v ++ if dg then full_body <$> to cfg Channel.Datagram es else []).
Proof.
  revert v. induction es as [|e es IH]; intros v.
  { destruct v, dg; cbn; by rewrite ?app_nil_r. }
  cbn [foldl]. rewrite IH. unfold add_event, to, to_b. rewrite !filter_cons.
  pose proof (eq_refl (b_body cfg e)) as Hb. unfold b_body in Hb at 2.
  destruct (route_input cfg e) eqn:Er, dg; cbn [on_a on_b on_c by_dgram];
    repeat first [rewrite decide_True by naive_solver | rewrite decide_False by naive_solver];
    cbn [fmap list_fmap concat]; rewrite ?Hb, ?app_nil_r, <- ?app_assoc; done.
Qed.

(** The streams of a session that sent without failure: stream A, and at most
    one each for B and C, in either order. *)
Lemma session_streams s :
  established s → cached_send_a (peer s) = Some 0 →
  let B := bytes_on s (cached_send_b s) in let C := bytes_on s (cached_send_c s) in
  ∃ w0 tl, streams (net s) = w0 :: tl ∧ w0.1 = bytes_on s (Some 0) ∧
    ((tl.*1 = [] ∧ B = [] ∧ C = []) ∨ (tl.*1 = [B] ∧ C = []) ∨ (tl.*1 = [C] ∧ B = []) ∨
     tl.*1 = [B; C] ∨ tl.*1 = [C; B]).
Proof.
  intros (_ & a & Ha & Hl & HB & HC & HI) Ha0. rewrite Ha0 in Ha. injection Ha as <-.
  unfold bytes_on. destruct (streams (net s)) as [|w0 tl] eqn:Es; [cbn in Hl; lia|].
  exists w0, tl. cbn [length] in *. split_and!; [done|done|].
  pose proof (HI (length tl) ltac:(lia)) as Hlast. pose proof (HI 1) as H1. pose proof (HI 2) as H2.
  destruct (cached_send_b s) as [b|], (cached_send_c s) as [c|].
  - destruct (HB b eq_refl) as [Hb Hb0], (HC c eq_refl) as (Hc & Hc0 & Hbc).
    assert (b ≠ c) as Hne by congruence.
    assert (length tl = 2 ∧ (b = 1 ∧ c = 2 ∨ b = 2 ∧ c = 1)) as [Hlen Hcase].
    { destruct Hlast as [|[[= ->]|[= ->]]]; [lia|..];
        destruct (decide (1 < S (length tl))) as [H1'|]; try lia;
        destruct (H1 ltac:(lia)) as [|[[= ?]|[= ?]]]; try lia;
        destruct (decide (2 < S (length tl))) as [H2'|]; try lia;
        destruct (H2 ltac:(lia)) as [|[[= ?]|[= ?]]]; lia. }
    destruct tl as [|x [|y [|]]]; try done. destruct Hcase as [[-> ->]|[-> ->]]; cbn; auto.
  - destruct (HB b eq_refl) as [Hb Hb0].
    assert (length tl = 1 ∧ b = 1) as [Hlen ->].
    { destruct Hlast as [|[[= ->]|[=]]]; [lia|]. destruct (H1 ltac:(lia)) as [|[[= ?]|[=]]]; lia. }
    destruct tl as [|x [|]]; try done. cbn. auto.
  - destruct (HC c eq_refl) as (Hc & Hc0 & _).
    assert (length tl = 1 ∧ c = 1) as [Hlen ->].
    { destruct Hlast as [|[[=]|[= ->]]]; [lia|]. destruct (H1 ltac:(lia)) as [|[[=]|[= ?]]]; lia. }
    destruct tl as [|x [|]]; try done. cbn. auto.
  - assert (length tl = 0) as Hlen by (destruct Hlast as [|[[=]|[=]]]; lia).
    destruct tl; [|done]. cbn. auto.
Qed.

(** Streams of frames, dispatched one after the other. *)
Lemma dispatch_streams accept order now ending (ws : list (list byte * bool * list ProtoEvent)) d :
  Forall (λ '(w, clip, es), is_stream ending w clip es) ws →
  ∃ d' new, server_accept_bi_task (λ _, true) accept order now ((λ '(w, _, _), mkRecv w ending) <$> ws) d = (Ok tt, d') ∧
    readers d' = readers d ++ new ∧ delivers (λ _, true) <$> new = filter (.≠ []) (snd <$> ws).
Proof.
  intros H. revert d. induction H as [|[[w clip] es] ws Hw H IH]; intros d.
  { exists d, []. by rewrite app_nil_r. }
  destruct (turn_stream accept order now ending w clip es d Hw) as (d1 & n1 & E1 & R1 & D1).
  destruct (IH d1) as (d2 & n2 & E2 & R2 & D2). exists d2, (n1 ++ n2). split_and!.
  - cbn [fmap list_fmap server_accept_bi_task]. unfold mbind, ST_bind. by rewrite E1.
  - by rewrite R2, R1, app_assoc.
  - rewrite fmap_app, D1, D2. cbn [fmap list_fmap snd]. by rewrite <- filter_app.
Qed.

(** What does not go to stream C is a fixed event; what does is not. *)
Lemma lane_fixed cfg e : event_wf e → route_input cfg e ≠ Channel.StreamC → Fixed.wf e.
Proof. intros Hwf Hr. by apply (fixed_sent e Hwf cfg). Qed.
Lemma lane_clip cfg e : route_input cfg e = Channel.StreamC → is_fixed_event e = false.
Proof.
  destruct e as [| | |[[]|[]]| | | | | | | | | |]; try done; cbn; unfold channel_of_mode; by case_match.
Qed.

Lemma Forall2_carried {A B} (P : A → B → Prop) (f : B → A) l :
  (∀ x, x ∈ l → P (f x) x) → Forall2 P (f <$> l) l.
Proof. intros H. induction l as [|x l IH]; constructor; set_solver. Qed.

(** A clipboard frame that the discriminator does not take for a request. *)
Definition small_clip (e : ProtoEvent) : Prop :=
  is_fixed_event e = false → (Z.of_nat (length (c_body e)) < 196608)%Z.

Lemma lane_b_stream dg cfg es :
  Forall event_wf es → is_stream Transport.UnexpectedEof (concat (frame_of <$> (b_body cfg <$> to_b dg cfg es))) false (to_b dg cfg es).
Proof.
  intros Hwf. eexists. split; [done|]. apply Forall2_carried.
  intros e [Hr He]%list_elem_of_filter. rewrite Forall_forall in Hwf. specialize (Hwf e He).
  assert (Fixed.wf e) as Hf by (apply (lane_fixed cfg); [done|]; destruct Hr as [->|[-> _]]; done).
  unfold b_body. destruct (route_input cfg e); by (apply short_carries || apply full_carries).
Qed.
Lemma lane_c_stream cfg es :
  Forall event_wf es → Forall small_clip es →
  is_stream Transport.UnexpectedEof (concat (frame_of <$> (c_body <$> to cfg Channel.StreamC es))) true (to cfg Channel.StreamC es).
Proof.
  rewrite !Forall_forall. intros Hwf Hsm. eexists. split; [done|].
  assert (∀ e, e ∈ to cfg Channel.StreamC es → event_wf e ∧ is_fixed_event e = false ∧
    (Z.of_nat (length (c_body e)) < 196608)%Z) as He.
  { intros e [Hr He]%list_elem_of_filter. pose proof (lane_clip cfg e Hr) as Hf.
    split_and!; [by apply Hwf|done|by apply Hsm]. }
  split.
  - apply Forall2_carried. intros e (Hw & Hf & Hl)%He. apply clip_carries; [done|].
    unfold bytes_wf, inU. unfold c_body in Hl. lia.
  - apply Forall_fmap, Forall_forall. intros e (Hw & Hf & Hl)%He. cbn.
    pose proof (clip_long e Hw Hf). unfold c_body in *. cbn [length] in *. lia.
Qed.

Lemma lane_a_frames cfg es :
  Forall event_wf es → Forall2 carries (short_body <$> to cfg Channel.StreamA es) (to cfg Channel.StreamA es).
Proof.
  rewrite Forall_forall. intros Hwf. apply Forall2_carried.
  intros e [Hr He]%list_elem_of_filter. apply short_carries, (lane_fixed cfg); [by apply Hwf|by rewrite Hr].
Qed.

Lemma empty_stream clip es : is_stream Transport.UnexpectedEof [] clip es → es = [].
Proof.
  intros (bodies & Hw & H). destruct bodies as [|b bodies]; [|done].
  destruct clip; [destruct H as [H _]|]; by apply Forall2_nil_inv_l in H.
Qed.

(** The streams in the order in which they were opened, with what they carry. *)
Lemma lanes_in_order (B C : list byte) esb esc (tl : list (list byte)) :
  is_stream Transport.UnexpectedEof B false esb → is_stream Transport.UnexpectedEof C true esc →
  (tl = [] ∧ B = [] ∧ C = []) ∨ (tl = [B] ∧ C = []) ∨ (tl = [C] ∧ B = []) ∨ tl = [B; C] ∨ tl = [C; B] →
  ∃ ws, tl = (λ '(w, _, _), w) <$> ws ∧
    Forall (λ '(w, clip, es), is_stream Transport.UnexpectedEof w clip es) ws ∧
    filter (.≠ []) (snd <$> ws) ≡ₚ filter (.≠ []) [esb; esc].
Proof.
  intros HB HC [(-> & -> & ->)|[(-> & ->)|[(-> & ->)|[->| ->]]]].
  - exists []. apply empty_stream in HB as ->. apply empty_stream in HC as ->. by repeat constructor.
  - exists [(B, false, esb)]. apply empty_stream in HC as ->. split_and!; [done|by repeat constructor|].
    cbn [fmap list_fmap snd]. by rewrite !filter_cons.
  - exists [(C, true, esc)]. apply empty_stream in HB as ->. split_and!; [done|by repeat constructor|].
    cbn [fmap list_fmap snd]. by rewrite !filter_cons.
  - exists [(B, false, esb); (C, true, esc)]. by repeat constructor.
  - exists [(C, true, esc); (B, false, esb)]. split_and!; [done|by repeat constructor|].
    cbn [fmap list_fmap snd]. by rewrite (Permutation_swap esb esc).
Qed.

Section both.
(** The sending side's quinn does what it is asked; [dg] says whether datagrams
    work. *)
Context (open_ok : nat → bool) (write_ok : nat → option nat) (finish_ok : nat → bool).
Context (max_datagram_size : nat → option nat) (datagram_ok : nat → DatagramAnswer) (dg : bool).
Hypothesis Hopen : ∀ n, open_ok n = true.
Hypothesis Hwrite : ∀ n, write_ok n = None.
Hypothesis Hdg : if dg
  then (∀ n, ∃ m, max_datagram_size n = Some m ∧ MAX_EVENT_SIZE ≤ m) ∧ (∀ n, datagram_ok n = Sent)
  else ∀ n, max_datagram_size n = None.

Lemma session_arrives cfg es hello addr fp sid accept order now l d :
  Forall event_wf es → Forall small_clip es → tx_open l = true →
  let s := snd (send_all open_ok write_ok finish_ok max_datagram_size datagram_ok cfg es (after_hello hello)) in
  let stream_a := mkRecv (drop (length hello) (bytes_on s (Some 0))) Transport.UnexpectedEof in
  let l' := snd (handle_quic_peer_supervisor addr (Ok tt) (Some fp) sid (Some stream_a) l) in
  let d' := snd (server_accept_bi_task (λ _, true) accept order now
                   ((λ w, mkRecv w.1 Transport.UnexpectedEof) <$> tail (streams (net s))) d) in
  listen_tx l' = listen_tx l ++ Accept addr fp :: ((λ e, Msg e addr) <$> to cfg Channel.StreamA es) ∧
  server_datagram_reader_task (λ _, true) 0 (dgrams (net s)) =
    (if dg then to cfg Channel.Datagram es else [], Ok tt) ∧
  ∃ new, readers d' = readers d ++ new ∧
    delivers (λ _, true) <$> new ≡ₚ filter (.≠ []) [to_b dg cfg es; to cfg Channel.StreamC es].
Proof.
  intros Hwf Hsm Ho s stream_a l' d'.
  destruct (send_all_ok open_ok write_ok finish_ok max_datagram_size datagram_ok dg cfg es (after_hello hello)
    Hopen Hwrite Hdg (after_hello_established hello) Hwf) as (s1 & E1 & He & Hv).
  assert (s = s1) as Es by (unfold s; by rewrite E1).
  assert (cached_send_a (peer s1) = Some 0) as Ha.
  { pose proof (send_all_peer open_ok write_ok finish_ok max_datagram_size datagram_ok cfg es _
      (after_hello hello) eq_refl) as Hp. rewrite E1 in Hp. cbn in Hp. by rewrite Hp. }
  rewrite sent_view in Hv. unfold view in Hv at 1. injection Hv as Va Vb Vc Vd.
  rewrite Ha in Va. cbn [on_a on_b on_c by_dgram view after_hello] in *.
  split_and!.
  - unfold l', stream_a. rewrite Es, Va. change (bytes_on _ _) with hello. rewrite drop_app_length.
    rewrite <- (app_nil_r (concat _)).
    rewrite (supervisor_run addr fp sid _ (to cfg Channel.StreamA es) [] Transport.UnexpectedEof l
      (lane_a_frames cfg es Hwf) Ho (Err (HelloFailed "read frame length: "))) by done.
    cbn [snd listen_tx]. by rewrite app_nil_r.
  - rewrite Es, Vd. cbn [app]. destruct dg; [|done]. apply datagrams_arrive, Forall_forall.
    intros e [Hr Hin]%list_elem_of_filter. rewrite Forall_forall in Hwf.
    apply (lane_fixed cfg); [by apply Hwf|by rewrite Hr].
  - pose proof (lane_b_stream dg cfg es Hwf) as HB. pose proof (lane_c_stream cfg es Hwf Hsm) as HC.
    cbn in Vb, Vc. rewrite <- Vb in HB. rewrite <- Vc in HC.
    destruct (session_streams s1 He Ha) as (w0 & tl & Est & _ & Hcase).
    destruct (lanes_in_order _ _ _ _ (tl.*1) HB HC Hcase) as (ws & Ews & Hws & Hperm).
    assert (((λ w, mkRecv w.1 Transport.UnexpectedEof) <$> tl) =
      ((λ '(w, _, _), mkRecv w Transport.UnexpectedEof) <$> ws)) as Earr.
    { apply (f_equal (fmap (λ w, mkRecv w Transport.UnexpectedEof))) in Ews.
      rewrite <- !list_fmap_compose in Ews. etrans; [exact Ews|]. apply list_fmap_ext. by intros _ [[] ?] _. }
    destruct (dispatch_streams accept order now Transport.UnexpectedEof ws d Hws) as (d2 & new & E2 & R2 & D2).
    exists new. unfold d'. rewrite Es, Est. cbn [tail]. rewrite Earr, E2. split; [done|]. by rewrite D2.
Qed.

(** C2. What one daemon sends, the other one handles.  Let every event be in
    range, and let every clipboard frame be shorter than 196608 bytes ([small_clip]):
    a longer one at the head of its stream can be taken for a request of HTTP/3.
    Then, over a session without failures, the listener of the peer announces it
    and hands on every control event of stream A, the datagram task every event
    sent as a datagram, and behind the dispatcher one reader delivers the events
    of stream B and one the clipboard events, each event once and in the order
    sent.  Without datagrams the pointer's motion arrives with the events of
    stream B. *)
Theorem session_delivers cfg es hello addr fp sid accept order now l d :
  Forall event_wf es → Forall small_clip es → tx_open l = true →
  let s := snd (send_all open_ok write_ok finish_ok max_datagram_size datagram_ok cfg es (after_hello hello)) in
  let stream_a := mkRecv (drop (length hello) (bytes_on s (Some 0))) Transport.UnexpectedEof in
  let l' := snd (handle_quic_peer_supervisor addr (Ok tt) (Some fp) sid (Some stream_a) l) in
  let d' := snd (server_accept_bi_task (λ _, true) accept order now
                   ((λ w, mkRecv w.1 Transport.UnexpectedEof) <$> tail (streams (net s))) d) in
  listen_tx l' = listen_tx l ++ Accept addr fp :: ((λ e, Msg e addr) <$> to cfg Channel.StreamA es) ∧
  server_datagram_reader_task (λ _, true) 0 (dgrams (net s)) =
    (if dg then to cfg Channel.Datagram es else [], Ok tt) ∧
  ∃ new, readers d' = readers d ++ new ∧
    delivers (λ _, true) <$> new ≡ₚ filter (.≠ []) [to_b dg cfg es; to cfg Channel.StreamC es].
Proof. apply session_arrives. Qed.
End both.

Definition sample_cfg : InputChannelConfig := default_channels.
Definition sample_events : list ProtoEvent :=
  [ProtoEvent.Enter Pos.Left; a_key; ProtoEvent.Input (Pointer (Motion 0 (F64 0) (F64 0)));
   ProtoEvent.ClipboardRequest (mkClipboardRequest (replicate 32 x00)); ProtoEvent.Leave 3].
Definition some_addr : SocketAddr := socket_addr (V4 1) 4242.
Definition fresh_caches : Caches := mkCaches ClipboardCache.new FileCache.new.
Definition fresh_dispatch : Dispatch := mkDispatch [] [] 0 [] fresh_caches.

Lemma sample_max :
  (∀ n : nat, ∃ m, (λ _, Some 1200) n = Some m ∧ MAX_EVENT_SIZE ≤ m) ∧ (∀ n : nat, (λ _, Sent) n = Sent).
Proof. split; [|done]. intros _. exists 1200. split; [done|]. change MAX_EVENT_SIZE with 21. lia. Qed.
Lemma session_delivers_witness :
  server_datagram_reader_task (λ _, true) 0
    (dgrams (net (snd (send_all (λ _, true) (λ _, None) (λ _, true) (λ _, Some 1200) (λ _, Sent)
       sample_cfg sample_events (after_hello []))))) =
  ([ProtoEvent.Input (Pointer (Motion 0 (F64 0) (F64 0)))], Ok tt).
Proof.
  destruct (session_delivers (λ _, true) (λ _, None) (λ _, true) (λ _, Some 1200) (λ _, Sent) true
    (λ _, eq_refl) (λ _, eq_refl) sample_max
    sample_cfg sample_events [] some_addr "fp" 0 (λ _, None) map_to_list 0 (mkListener [] true ∅) fresh_dispatch)
    as (_ & H & _); [| |done|exact H].
  - repeat constructor; try (vm_compute; done).
  - repeat constructor; intros ?; vm_compute; done.
Defined.

(** ** How a connection ends *)

(** A peer whose stream A ends between two frames, as it does when the peer
    closes the connection, is removed from the table, but nobody is told: the
    supervisor returns an error without [Disconnected].  Only a stream that
    breaks off inside the body of a frame leads to [Disconnected]. *)
Theorem end_of_connection addr fp sid bodies es body k ending l :
  Forall2 carries bodies es → tx_open l = true →
  length body ≤ MAX_EVENT_SIZE → 4 ≤ k < 4 + length body →
  let frames := concat (frame_of <$> bodies) in
  let sent := listen_tx l ++ Accept addr fp :: ((λ e, Msg e addr) <$> es) in
  handle_quic_peer_supervisor addr (Ok tt) (Some fp) sid (Some (mkRecv frames ending)) l =
    (Err (HelloFailed "read frame length: "), mkListener sent true (delete addr (quic_conns l))) ∧
  handle_quic_peer_supervisor addr (Ok tt) (Some fp) sid
      (Some (mkRecv (frames ++ take k (frame_of body)) Transport.UnexpectedEof)) l =
    (Ok tt, mkListener (sent ++ [Disconnected addr]) true (delete addr (quic_conns l))).
Proof.
  intros HP Ho Hb Hk frames sent. split.
  - unfold frames. rewrite <- (app_nil_r (concat _)).
    rewrite (supervisor_run addr fp sid bodies es [] ending l HP Ho
      (Err (HelloFailed "read frame length: "))) by done.
    by rewrite app_nil_r.
  - unfold frames. apply (supervisor_run addr fp sid bodies es _ Transport.UnexpectedEof l HP Ho (Ok tt)).
    intros s fuel. cbn [supervisor_loop].
    rewrite take_frame by lia.
    unfold read_frame. change MAX_EVENT_SIZE with 21 in *.
    rewrite Transport.read_u32_app by (unfold inU; lia). rewrite Nat2Z.id, decide_False by lia.
    unfold read_exact. cbn [r_bytes r_end]. rewrite decide_True by (rewrite length_take; lia). done.
Qed.
Lemma end_of_connection_witness :
  handle_quic_peer_supervisor some_addr (Ok tt) (Some "fp") 0
    (Some (mkRecv (concat (frame_of <$> [short_body (ProtoEvent.Enter Pos.Left)])) Transport.UnexpectedEof))
    (mkListener [] true ∅) =
  (Err (HelloFailed "read frame length: "),
   mkListener [Accept some_addr "fp"; Msg (ProtoEvent.Enter Pos.Left) some_addr] true (delete some_addr ∅)).
Proof.
  destruct (end_of_connection some_addr "fp" 0 [short_body (ProtoEvent.Enter Pos.Left)]
    [ProtoEvent.Enter Pos.Left] [x00] 4 Transport.UnexpectedEof (mkListener [] true ∅)) as [H _];
    [repeat constructor; by apply short_carries|done|vm_compute; lia|cbn; lia|exact H].
Defined.

(** ** Bad streams *)

(** A stream that carries input and whose first frame does not decode, or
    breaks off, ends the dispatcher: no stream that the peer opens afterwards is
    served, neither clipboard events nor requests.  A first frame with the type
    of a clipboard event panics it.  A clipboard stream whose first frame does
    not decode is skipped. *)
Theorem bad_first_frame receiver accept order now bidis d body tl ending :
  (length body ≤ MAX_EVENT_SIZE → (∃ err, Fixed.decode (zero_padded body) = Err err) →
   server_accept_bi_task receiver accept order now (mkRecv (frame_of body ++ tl) ending :: bidis) d = (Ok tt, d)) ∧
  (length body ≤ MAX_EVENT_SIZE → (∃ b0 rest t, body = b0 :: rest ∧
     EventType.try_from (Z_of_byte b0) = Some t ∧ EventType.is_fixed t = false) →
   server_accept_bi_task receiver accept order now (mkRecv (frame_of body ++ tl) ending :: bidis) d = (Panic, d)) ∧
  (∀ k, length body ≤ MAX_EVENT_SIZE → 4 ≤ k < 4 + length body →
   server_accept_bi_task receiver accept order now (mkRecv (take k (frame_of body)) ending :: bidis) d = (Ok tt, d)) ∧
  (MAX_EVENT_SIZE < length body → (Z.of_nat (length body) < 196608)%Z → (∃ err, decode_slice body = Err err) →
   server_accept_bi_task receiver accept order now (mkRecv (frame_of body ++ tl) ending :: bidis) d =
   server_accept_bi_task receiver accept order now bidis d).
Proof.
  assert (∀ recv, (server_turn receiver accept order now recv d = (Ok false, d) →
      server_accept_bi_task receiver accept order now (recv :: bidis) d = (Ok tt, d)) ∧
    (server_turn receiver accept order now recv d = (Panic, d) →
      server_accept_bi_task receiver accept order now (recv :: bidis) d = (Panic, d)) ∧
    (server_turn receiver accept order now recv d = (Ok true, d) →
      server_accept_bi_task receiver accept order now (recv :: bidis) d =
      server_accept_bi_task receiver accept order now bidis d)) as Hturn.
  { intros recv. cbn [server_accept_bi_task]. unfold mbind, ST_bind. split_and!; intros E; by rewrite E. }
  split_and!.
  - intros Hl [err He]. apply Hturn. by rewrite turn_b, He.
  - intros Hl Hb. apply Hturn. rewrite turn_b by done. change MAX_EVENT_SIZE with 21 in Hl.
    by rewrite (proj2 (proj2 (padded_panics body Hl)) Hb).
  - intros k Hl Hk. apply Hturn. by apply turn_cut.
  - intros Hlo Hhi [err He]. apply Hturn. by rewrite turn_c, He.
Qed.
Lemma bad_first_frame_witness :
  server_accept_bi_task (λ _, true) (λ _, None) map_to_list 0
    [mkRecv (frame_of [xff]) Transport.UnexpectedEof;
     mkRecv (encode_request "GET" "/healthz" []) Transport.UnexpectedEof] fresh_dispatch = (Ok tt, fresh_dispatch).
Proof.
  rewrite <- (app_nil_r (frame_of [xff])).
  apply (bad_first_frame (λ _, true) (λ _, None) map_to_list 0
    [mkRecv (encode_request "GET" "/healthz" []) Transport.UnexpectedEof] fresh_dispatch [xff] []).
  - vm_compute. lia.
  - eexists. reflexivity.
Defined.
