(* ===== verification/Pair.v ===== *)
(** Two daemons: the keys that one captures and the other emulates, from the
    capture task over a session of QUIC to the backend of the peer.

    The lanes of a session are not ordered among each other: a [Leave] on stream A
    may overtake the keys on stream B, and the peer then makes a new handle for
    the keys that come after.  That no key stays down all the same is the theorem
    of this file. *)

From S2P Require Import Prelude InputEvent Proto Codec Wire Transport Net Emulation Session Listen KeyBalance.
From S2P Require CaptureTask InputCapture.

(** * Interleavings *)

(** The second is an interleaving of the lists of the first. *)
Inductive shuffle {A} : list (list A) → list A → Prop :=
| shuffle_nil ls : Forall (.= []) ls → shuffle ls []
| shuffle_cons a x l b xs : shuffle (a ++ l :: b) xs → shuffle (a ++ (x :: l) :: b) (x :: xs).

Lemma shuffle_perm {A} (ls ls' : list (list A)) xs : shuffle ls xs → ls ≡ₚ ls' → shuffle ls' xs.
Proof.
  intros Hs. revert ls'. induction Hs as [ls Hl|a x l b xs Hs IH]; intros ls' Hp.
  - constructor. by rewrite <- Hp.
  - assert ((x :: l) ∈ ls') as (a' & b' & ->)%list_elem_of_split by (rewrite <- Hp; set_solver).
    constructor. apply IH. apply Permutation_app_inv in Hp. by rewrite <- !Permutation_middle, Hp.
Qed.
Lemma shuffle_lacks {A} (P : A → Prop) `{∀ x, Decision (P x)} ls xs :
  shuffle ls xs → Forall (λ l, filter P l = []) ls → filter P xs = [].
Proof.
  induction 1 as [|a x l b xs _ IH]; [done|]. intros Hf. apply Forall_app in Hf as [Ha Hf]. apply Forall_cons in Hf as [Hx Hb].
  rewrite filter_cons in Hx |- *. destruct (decide (P x)); [done|]. apply IH, Forall_app. split; [done|]. by constructor.
Qed.
(** Where one lane alone has what is looked for, its order is kept. *)
Lemma shuffle_filter {A} (P : A → Prop) `{∀ x, Decision (P x)} l ls xs :
  shuffle (l :: ls) xs → Forall (λ l, filter P l = []) ls → filter P xs = filter P l.
Proof.
  remember (l :: ls) as all eqn:E. intros Hs. revert l ls E. induction Hs as [all Hn|a x l' b xs Hs IH]; intros l ls E.
  - intros _. subst all. apply Forall_cons in Hn as [-> _]. done.
  - intros Hf. destruct a as [|l0 a]; injection E as <- <-.
    + rewrite !filter_cons. destruct (decide (P x)); [f_equal|]; by apply (IH l' b).
    + apply Forall_app in Hf as [Ha Hf]. apply Forall_cons in Hf as [Hx Hb]. rewrite filter_cons in Hx |- *.
      destruct (decide (P x)); [done|]. apply (IH l0 (a ++ l' :: b)); [done|]. apply Forall_app. split; [done|]. by constructor.
Qed.

(** * The receiving side *)

Definition is_key (e : ProtoEvent) : Prop := match e with ProtoEvent.Input (Keyboard (Key _ _ _)) => True | _ => False end.
#[export] Instance is_key_dec e : Decision (is_key e).
Proof. destruct e as [| | |[|[]]| | | | | | | | | |]; cbn; apply _. Defined.
Lemma down_keys es keys : foldl key_step keys (inputs_of es) = foldl key_step keys (inputs_of (filter is_key es)).
Proof.
  revert keys. induction es as [|e es IH]; intros keys; [done|]. rewrite filter_cons.
  destruct e as [| | |[|[]]| | | | | | | | | |]; cbn; by rewrite IH.
Qed.

Section receiver.
Variable failure : nat → option EmulationError.
Variable key_order : gset Z → list Z.
Hypothesis Hok : ∀ n, failure n = None.
Hypothesis Hkeys : ∀ s, key_order s ≡ₚ elements s.
Variable addr : SocketAddr.

Definition pressed_at (h : EmulationHandle) (s : InputEmulation) : gset Z := default ∅ (pressed_keys s !! h).

Lemma consume_keys e h s :
  wp (consume failure e h) (λ _ s', ∀ x, pressed_at x s' ⊆ if decide (x = h) then key_step (pressed_at h s) e else pressed_at x s) s.
Proof.
  destruct e as [p|[t k v|d l lo g]]; cbn [consume key_step].
  1,3: unfold wp; rewrite (backend_consume_eq failure Hok); intros x; case_decide; by subst.
  wp. unfold update_pressed_keys. wp. destruct (pressed_keys s !! h) as [keys|] eqn:E.
  - assert (∀ new b s', pressed_keys s' = <[h := new]> (pressed_keys s) → new ⊆ (if (v =? 0)%Z then keys ∖ {[k]} else {[k]} ∪ keys) →
      wp (when b (backend_consume failure (Keyboard (Key t k v)) h)) (λ _ s', ∀ x, pressed_at x s' ⊆ if decide (x = h)
        then (if (v =? 0)%Z then pressed_at h s ∖ {[k]} else {[k]} ∪ pressed_at h s) else pressed_at x s) s') as Hgo.
    { intros new b s' Es Hn. assert (∀ x, pressed_at x s' ⊆ if decide (x = h)
        then (if (v =? 0)%Z then pressed_at h s ∖ {[k]} else {[k]} ∪ pressed_at h s) else pressed_at x s) as Hx.
      { intros x. unfold pressed_at. rewrite Es, E. case_decide; [subst; by rewrite lookup_insert_eq|by rewrite lookup_insert_ne]. }
      rewrite wp_when. destruct b; [unfold wp; rewrite (backend_consume_eq failure Hok)|]; exact Hx. }
    destruct (v =? 0)%Z; rewrite wp_bind, wp_modify, wp_ret; by eapply Hgo.
  - rewrite wp_ret. cbn. intros x. unfold pressed_at. rewrite E. case_decide; [subst; rewrite E; set_solver|done].
Qed.
Lemma create_keys h s : wp (create h) (λ _ s', ∀ x, pressed_at x s' ⊆ pressed_at x s) s.
Proof.
  unfold create. wp. case_decide; wp; [done|]. intros x. unfold pressed_at. cbn.
  destruct (decide (x = h)) as [->|]; [by rewrite lookup_insert_eq|by rewrite lookup_insert_ne].
Qed.
Lemma destroy_keys h s : wp (destroy failure key_order h) (λ _ s', ∀ x, pressed_at x s' ⊆ pressed_at x s) s.
Proof.
  assert (wp (release_keys failure key_order h) (λ _ s', ∀ x, pressed_at x s' ⊆ pressed_at x s) s) as Hr.
  { unfold release_keys. wp. destruct (pressed_keys s !! h) as [keys|] eqn:E; wp.
    - unfold wp at 1. rewrite (release_loop failure Hok). cbn. unfold wp. rewrite (backend_consume_eq failure Hok). intros x. unfold pressed_at. cbn.
      destruct (decide (x = h)) as [->|]; [by rewrite lookup_insert_eq|by rewrite lookup_insert_ne].
    - unfold wp. by rewrite (backend_consume_eq failure Hok). }
  unfold destroy. wp. apply wp_attempt. eapply wp_mono; [exact Hr|]. intros u s1 H1. wp. case_bool_decide; wp; [|done].
  intros x. etrans; [|apply H1]. unfold pressed_at. cbn. destruct (decide (x = h)) as [->|]; [by rewrite lookup_delete_eq|by rewrite lookup_delete_ne].
Qed.

(** The inputs of the peer among the requests. *)
Definition input_at (r : ProxyRequest) : option Event :=
  match r with PInput e a => if decide (a = addr) then Some e else None | _ => None end.
Definition inputs_at (rs : list ProxyRequest) : list Event := omap input_at rs.
(** The handle of the peer holds no more keys than its inputs leave down. *)
Definition fits (es : list Event) (t : EmulationTask) : Prop :=
  ∀ h, task_handles t !! addr = Some h → pressed_at h (em t) ⊆ down es.

Lemma fresh_pressed t : task_ok t → pressed_at (next_id t) (em t) = ∅.
Proof.
  intros [He Hh _ Hn]. unfold pressed_at. destruct (pressed_keys (em t) !! next_id t) eqn:E; [|done]. exfalso.
  assert (next_id t ∈ handles (em t)) as [a Ha]%Hh by (apply (em_known _ He); by rewrite E). apply Hn in Ha. lia.
Qed.
(** A handle for a peer: the keys of the handles that were there are kept. *)
Lemma handle_of_keys a t : task_ok t → wp (handle_of a) (λ h t',
    (∀ x, pressed_at x (em t') ⊆ pressed_at x (em t)) ∧ (task_handles t !! a = None → pressed_at h (em t') = ∅) ∧
    ∀ h', task_handles t !! a = Some h' → h' = h) t.
Proof.
  intros Ht. unfold handle_of. wp. destruct (task_handles t !! a) as [h|] eqn:E; wp; [naive_solver|].
  apply wp_em_call. eapply wp_mono; [apply create_keys|]. intros b e He. wp. split_and!; [exact He| |done].
  intros _. cbn. apply set_eq. intros k. split; [|set_solver]. intros Hk%He. cbn in Hk. by rewrite (fresh_pressed t Ht) in Hk.
Qed.

Lemma request_fits r es t : task_ok t → (next_id t + 1 < 2 ^ 64)%N → fits es t →
  wp (session_request failure key_order r) (λ _ t', fits (es ++ inputs_at [r]) t') t.
Proof.
  intros Ht Hlt Hf. destruct r as [e a|a| |]; cbn [session_request].
  - wp. eapply wp_mono; [apply (wp_conj _ _ _ _ (handle_of_keys a t Ht) (handle_of_ok failure key_order Hok Hkeys a t Ht Hlt))|].
    intros h t1 [(Hk & Hnew & Hold) (H1 & _ & _ & Ha & Hx)]. wp. apply wp_em_call.
    eapply wp_mono; [apply (consume_keys e h)|]. intros u s2 Hc. wp. intros h' Hh'. cbn in Hh', Hc |- *. specialize (Hc h').
    case_decide as Hhh; case_decide as Haa; subst; cbn.
    + etrans; [exact Hc|]. rewrite down_app. cbn. apply key_step_mono. destruct (task_handles t !! addr) as [h0|] eqn:E.
      * rewrite (Hold h0 eq_refl) in E. etrans; [apply Hk|]. by apply Hf.
      * rewrite (Hnew eq_refl). set_solver.
    + destruct Haa. symmetry. by apply (tk_inj _ H1 addr a h).
    + rewrite Ha in Hh'. congruence.
    + rewrite app_nil_r. etrans; [exact Hc|]. etrans; [apply Hk|]. apply Hf. rewrite <- Hx; [done|congruence].
  - cbn. rewrite app_nil_r. wp. destruct (task_handles t !! a) as [h|] eqn:E; wp; [|done].
    apply wp_em_call. eapply wp_mono; [apply destroy_keys|]. intros u e He. wp. intros h' Hh'. cbn in Hh'. apply lookup_delete_Some in Hh' as [_ Hh']. cbn.
    etrans; [apply He|]. cbn. by apply Hf.
  - cbn. rewrite app_nil_r. by wp.
  - cbn. rewrite app_nil_r. by wp.
Qed.
Lemma session_fits rs es t : task_ok t → (next_id t + N.of_nat (length rs) < 2 ^ 64)%N → fits es t → PTerminate ∉ rs →
  wp (do_emulation_session failure key_order rs) (λ _ t', fits (es ++ inputs_at rs) t') t.
Proof.
  revert es t. induction rs as [|r rs IH]; intros es t Ht Hlt Hf Hn; cbn [do_emulation_session].
  { cbn. by rewrite app_nil_r. }
  cbn in Hlt. wp. eapply wp_mono; [apply (wp_conj _ _ _ _ (request_fits r es t Ht ltac:(lia) Hf) (session_request_ok failure key_order Hok Hkeys r t Ht ltac:(lia)))|].
  intros b t1 [Hf1 (H1 & _ & Hid & Hb & _)]. destruct b; [|exfalso; apply Hn; rewrite (proj1 Hb eq_refl); by left].
  assert (es ++ inputs_at (r :: rs) = (es ++ inputs_at [r]) ++ inputs_at rs) as ->.
  { rewrite <- app_assoc. f_equal. unfold inputs_at. by rewrite (omap_app _ [r] rs : omap input_at (r :: rs) = _). }
  apply IH; [done|lia|done|]. intros Hin. apply Hn. by right.
Qed.
End receiver.

(** ** The listen task *)

Section listen.
Variable local_commit : list byte.
Variable order : gmap SocketAddr Z → list (SocketAddr * Z).
Variable addr : SocketAddr.

(** The messages of the peer, in the order in which the task handles them. *)
Definition msg_of (a : listen_arm) : option ProtoEvent :=
  match a with LEvent _ (Msg e a) => if decide (a = addr) then Some e else None | _ => None end.
Definition msgs_of (arms : list listen_arm) : list ProtoEvent := omap msg_of arms.
(** The task goes on, and the emulation is not reported to be disabled. *)
Definition steady (a : listen_arm) : Prop :=
  match a with LProxy Service.EmulationDisabled | LRequest Terminate => False | _ => True end.

Lemma inputs_at_app l l' : inputs_at addr (l ++ l') = inputs_at addr l ++ inputs_at addr l'.
Proof. apply omap_app. Qed.
Lemma msg_of_at now e a : inputs_of (msgs_of [LEvent now (Msg e a)]) = if decide (a = addr) then inputs_of [e] else [].
Proof. unfold msgs_of. cbn. by case_decide. Qed.
Lemma turn_inputs a s : steady a → emulation_active s = true → ∃ s', listen_turn local_commit order a s = Some s' ∧
  emulation_active s' = true ∧ inputs_at addr (proxied s') = inputs_at addr (proxied s) ++ inputs_of (msgs_of [a]).
Proof.
  intros Hst Ha. destruct a as [now e|e|r|now]; cbn [listen_turn].
  - eexists. split; [done|]. destruct e as [e a|a fp|fp|a].
    + rewrite msg_of_at. cbn [on_listen]. destruct e; cbn -[inputs_at]; rewrite ?Ha; cbn -[inputs_at]; rewrite ?inputs_at_app; cbn; case_decide; by rewrite ?app_nil_r.
    + cbn. by rewrite !app_nil_r.
    + cbn. destruct (rejected_connections s !! fp); [case_match|]; cbn; by rewrite ?app_nil_r.
    + cbn -[inputs_at]. by rewrite inputs_at_app.
  - eexists. split; [done|]. destruct e; cbn; rewrite ?app_nil_r; done.
  - destruct r; try done; (eexists; split; [done|]); cbn -[inputs_at]; by rewrite ?inputs_at_app, ?app_nil_r.
  - eexists. split; [done|]. unfold on_tick. rewrite time_outs. cbn -[inputs_at]. split; [done|]. rewrite inputs_at_app. f_equal.
    cbn. match goal with |- context [PRemove <$> ?l] => generalize l end. intros l. induction l as [|x l IH]; [done|exact IH].
Qed.
Lemma run_inputs arms s : Forall steady arms → emulation_active s = true →
  inputs_at addr (proxied (Emulation.run local_commit order arms s)) = inputs_at addr (proxied s) ++ inputs_of (msgs_of arms).
Proof.
  intros Hst. revert s. induction Hst as [|a arms Ha _ IH]; intros s Hs; [cbn; by rewrite app_nil_r|].
  destruct (turn_inputs a s Ha Hs) as (s' & E & Hs' & Hi). cbn [Emulation.run]. rewrite E, IH, Hi by done. rewrite <- app_assoc. f_equal.
  rewrite <- inputs_app. f_equal. unfold msgs_of. by rewrite <- (omap_app _ [a] arms).
Qed.
End listen.

(** * Both sides *)

Lemma filter_within {A} (P Q : A → Prop) `{∀ x, Decision (P x)} `{∀ x, Decision (Q x)} (l : list A) : (∀ x, P x → Q x) → filter P (filter Q l) = filter P l.
Proof.
  intros HPQ. induction l as [|x l IH]; [done|]. rewrite (filter_cons Q), (filter_cons P). destruct (decide (Q x)).
  - rewrite filter_cons, IH. done.
  - rewrite IH. destruct (decide (P x)); naive_solver.
Qed.
Lemma filter_without {A} (P Q : A → Prop) `{∀ x, Decision (P x)} `{∀ x, Decision (Q x)} (l : list A) : (∀ x, P x → ¬ Q x) → filter P (filter Q l) = [].
Proof.
  intros HPQ. induction l as [|x l IH]; [done|]. rewrite (filter_cons Q). destruct (decide (Q x)); [|done].
  rewrite filter_cons, IH. destruct (decide (P x)); naive_solver.
Qed.
(** With the keys on stream B, no other lane has any. *)
Lemma key_route cfg e : keyboard cfg = Stream → is_key e → route_input cfg e = Channel.StreamB.
Proof. intros Hc. destruct e as [| | |[|[]]| | | | | | | | | |]; try done. cbn. by rewrite Hc. Qed.
Lemma lane_lacks cfg ch es : keyboard cfg = Stream → ch ≠ Channel.StreamB → filter is_key (to cfg ch es) = [].
Proof. intros Hc Hch. apply filter_without. intros e He. by rewrite (key_route cfg e Hc He). Qed.
Lemma lane_keys dg cfg es : keyboard cfg = Stream → filter is_key (to_b dg cfg es) = filter is_key es.
Proof. intros Hc. apply filter_within. intros e He. left. by apply key_route. Qed.

(** However the lanes interleave, the keys arrive as they were sent. *)
Lemma arrived_keys dg cfg es lanes msgs : keyboard cfg = Stream →
  lanes ≡ₚ filter (.≠ []) [to_b dg cfg es; to cfg Channel.StreamC es] →
  shuffle (to cfg Channel.StreamA es :: (if dg then to cfg Channel.Datagram es else []) :: lanes) msgs →
  filter is_key msgs = filter is_key es.
Proof.
  intros Hc Hp Hs. eapply shuffle_perm in Hs; [|by rewrite Hp].
  assert (filter is_key (to cfg Channel.StreamA es) = []) as Ha by by apply lane_lacks.
  assert (filter is_key (to cfg Channel.StreamC es) = []) as Hcc by by apply lane_lacks.
  assert (filter is_key (if dg then to cfg Channel.Datagram es else []) = []) as Hd by (destruct dg; [by apply lane_lacks|done]).
  assert (Forall (λ l, filter is_key l = []) (filter (.≠ []) [to cfg Channel.StreamC es])) as Hl.
  { rewrite filter_cons. case_decide; by repeat constructor. }
  rewrite <- (lane_keys dg cfg es Hc). rewrite filter_cons in Hs. case_decide as Hb.
  - apply (shuffle_filter is_key (to_b dg cfg es) (to cfg Channel.StreamA es :: (if dg then to cfg Channel.Datagram es else []) :: filter (.≠ []) [to cfg Channel.StreamC es])).
    + eapply shuffle_perm; [exact Hs|]. symmetry. apply (Permutation_middle [_; _]).
    + by repeat constructor.
  - rewrite Hb. cbn. eapply shuffle_lacks; [exact Hs|]. by repeat constructor.
Qed.

Section pair.
(** The capturing daemon: its backend, its sends to the client and its clock. *)
Context {B : Type} `{InputCapture.Capture B}.
Context (send_ok : nat → bool) (clock : nat → Z) (held_order : gset Scancode.Linux.Linux → list Scancode.Linux.Linux).
Hypothesis Hsend : ∀ n, send_ok n = true.
Hypothesis Horder : ∀ ks, held_order ks ≡ₚ elements ks.
(** The session between the two, where quinn does what it is asked. *)
Context (open_ok : nat → bool) (write_ok : nat → option nat) (finish_ok : nat → bool).
Context (max_datagram_size : nat → option nat) (datagram_ok : nat → DatagramAnswer) (dg : bool).
Hypothesis Hopen : ∀ n, open_ok n = true.
Hypothesis Hwrite : ∀ n, write_ok n = None.
Hypothesis Hdg : if dg
  then (∀ n, ∃ m, max_datagram_size n = Some m ∧ MAX_EVENT_SIZE ≤ m) ∧ (∀ n, datagram_ok n = Sent)
  else ∀ n, max_datagram_size n = None.
(** The emulating daemon: a backend without failures, and the order of its sets. *)
Context (failure : nat → option EmulationError) (key_order : gset Z → list Z).
Hypothesis Hok : ∀ n, failure n = None.
Hypothesis Hkeys : ∀ s, key_order s ≡ₚ elements s.

(** What the peer is left with, when what it is told leaves no key down. *)
Lemma nothing_held commit order addr arms l :
  (∀ m, order m ≡ₚ map_to_list m) → Forall steady arms → emulation_active l = true → proxied l = [] → down (inputs_of (msgs_of addr arms)) = ∅ →
  let rs := proxied (Emulation.run commit order arms l) in
  (N.of_nat (length rs) < 2 ^ 64)%N →
  wp (do_emulation_session failure key_order rs) (λ ended t, ended = false ∧
    ∀ h key, key ∈ held h (emulation (em t)) → ∃ a, a ≠ addr ∧ task_handles t !! a = Some h) new_task.
Proof.
  intros Hmap Hst Ha Hp Hd rs Hlen.
  assert (PTerminate ∉ rs) as Hn by (apply (run_no_terminate commit order Hmap); rewrite Hp; apply not_elem_of_nil).
  assert (inputs_at addr rs = inputs_of (msgs_of addr arms)) as Hin by (unfold rs; rewrite (run_inputs commit order addr arms l Hst Ha), Hp; done).
  assert (fits addr [] new_task) as Hf by (intros h Hh; cbn in Hh; by rewrite lookup_empty in Hh).
  eapply wp_mono; [apply (wp_conj _ _ _ _ (session_ok failure key_order Hok Hkeys rs new_task task_ok_new Hlen)
    (session_fits failure key_order Hok Hkeys addr rs [] new_task task_ok_new Hlen Hf Hn))|].
  intros ended t [([He Hh _ _] & _ & Hend & _) Hfit]. split; [destruct ended; [by destruct Hn; apply Hend|done]|].
  intros h key Hkey. rewrite (em_held _ He) in Hkey. fold (pressed_at h (em t)) in Hkey.
  assert (h ∈ handles (em t)) as [a Hta]%Hh.
  { apply (em_known _ He). unfold pressed_at in Hkey. destruct (pressed_keys (em t) !! h); [done|]. by apply elem_of_empty in Hkey. }
  exists a. split; [|done]. intros ->. apply (Hfit h Hta) in Hkey. rewrite app_nil_l, Hin, Hd in Hkey. by apply elem_of_empty in Hkey.
Qed.

(** C3. What goes down comes up.  One daemon captures: over any run of its task
    in which nothing is down at the start and the client is not in use at the
    end, it sends the client inputs and control events.  They cross a session of
    QUIC, on up to three streams and in datagrams, and the peer's listen task
    sees what the lanes deliver in any interleaving, among the messages of other
    peers, ticks, lost connections and requests.  Then, once the emulation task
    has worked all of it off, every key that its backend still holds down belongs
    to the handle of another peer.  A [Leave] may overtake the keys on the way:
    the theorem does not need the lanes to be ordered among each other. *)
Theorem keys_come_up_again h key crossings (c0 : CaptureTask.CState B) cfg hello addr fp sid accept now conns d commit order :
  (∀ m, order m ≡ₚ map_to_list m) → at_rest h key c0 → permitted_run send_ok clock held_order key crossings c0 →
  let c := snd (CaptureTask.do_capture_session send_ok clock held_order crossings c0) in
  let es := sent_to h c in
  CaptureTask.active_client (CaptureTask.task c) = None →
  keyboard cfg = Stream → Forall event_wf es → Forall small_clip es →
  let s := snd (send_all open_ok write_ok finish_ok max_datagram_size datagram_ok cfg es (after_hello hello)) in
  let l' := snd (handle_quic_peer_supervisor addr (Ok tt) (Some fp) sid
    (Some (mkRecv (drop (length hello) (bytes_on s (Some 0))) Transport.UnexpectedEof)) (mkListener [] true conns)) in
  let d' := snd (server_accept_bi_task (λ _, true) accept map_to_list now
    ((λ w, mkRecv w.1 Transport.UnexpectedEof) <$> tail (streams (net s))) d) in
  ∃ new, readers d' = readers d ++ new ∧ ∀ arms l,
    shuffle (msgs_of addr (LEvent 0 <$> listen_tx l') :: fst (server_datagram_reader_task (λ _, true) 0 (dgrams (net s))) ::
      (delivers (λ _, true) <$> new)) (msgs_of addr arms) →
    Forall steady arms → emulation_active l = true → proxied l = [] →
    let rs := proxied (Emulation.run commit order arms l) in
    (N.of_nat (length rs) < 2 ^ 64)%N →
    wp (do_emulation_session failure key_order rs) (λ ended t, ended = false ∧
      ∀ h key, key ∈ held h (emulation (em t)) → ∃ a, a ≠ addr ∧ task_handles t !! a = Some h) new_task.
Proof.
  intros Hmap Hr Hp c es Hn Hc Hwf Hsm s l' d'.
  destruct (session_arrives open_ok write_ok finish_ok max_datagram_size datagram_ok dg Hopen Hwrite Hdg cfg es hello addr fp sid accept
    map_to_list now (mkListener [] true conns) d Hwf Hsm eq_refl) as (El & Ed & new & En & Hdel).
  exists new. split; [exact En|]. intros arms l Hsh Hst Ha Hpr rs Hlen. apply nothing_held; [done..| |done].
  assert (msgs_of addr (LEvent 0 <$> listen_tx l') = to cfg Channel.StreamA es) as Ea.
  { rewrite (El : listen_tx l' = _). cbn. generalize (to cfg Channel.StreamA es). intros m. unfold msgs_of. induction m as [|e m IH]; [done|]. cbn. rewrite decide_True by done. by f_equal. }
  rewrite Ea, (Ed : server_datagram_reader_task (λ _, true) 0 (dgrams (net s)) = _) in Hsh. cbn [fst] in Hsh. unfold down. rewrite down_keys, (arrived_keys dg cfg es _ _ Hc Hdel Hsh), <- down_keys.
  apply (keys_sent_back send_ok clock held_order Hsend Horder h key crossings c0); [by left|done|done].
Qed.
End pair.

(** * A run *)

(** A key goes down while the client is in use, and the user releases the
    capture without letting go; on the way the [Leave] overtakes the keys. *)
Module Demo.
#[local] Existing Instance InputCapture.script_backend.
Definition script : list (Geometry.BarrierKey * InputCapture.CaptureEvent) :=
  [(CaptureTask.demo_key, InputCapture.Begin); (CaptureTask.demo_key, InputCapture.Input (Keyboard (Key 0 30 1)))].
Definition capture : CaptureTask.CState InputCapture.ScriptBackend :=
  CaptureTask.mkC (CaptureTask.demo_task CaptureTask.Idle None)
    (InputCapture.mkIC (InputCapture.mkScript {[CaptureTask.demo_key]} 0 script) ∅ {[CaptureTask.demo_key := [0%N]]}
      {[0%N := CaptureTask.demo_key]} []) 0 [] [] [].
Definition crossings : list CaptureTask.arm :=
  [CaptureTask.CaptureNext; CaptureTask.CaptureNext; CaptureTask.RequestRecv CaptureTask.Release].
Definition rested : CaptureTask.CState InputCapture.ScriptBackend :=
  snd (CaptureTask.do_capture_session CaptureTask.demo_send CaptureTask.demo_clock elements crossings capture).
Definition msg (e : ProtoEvent) : listen_arm := LEvent 0 (Msg e some_addr).
Definition up_and_down : list ProtoEvent :=
  [ProtoEvent.Input (Keyboard (Key 0 30 1)); ProtoEvent.Input (Keyboard (Key 0 30 0)); ProtoEvent.Input (Keyboard (Modifiers 0 0 0 0))].
Definition arms : list listen_arm :=
  LEvent 0 (Accept some_addr "fp") :: (msg <$> [ProtoEvent.Enter Pos.Left; ProtoEvent.Leave 0] ++ up_and_down).
Definition listen : ListenTask := set_emulation_active true new_listen.

Lemma sent_eq : sent_to 0 rested = ProtoEvent.Enter Pos.Left :: up_and_down ++ [ProtoEvent.Leave 0].
Proof. vm_compute. reflexivity. Qed.
Lemma resting : at_rest 0 CaptureTask.demo_key capture.
Proof. repeat split; done. Qed.
Lemma allowed : permitted_run CaptureTask.demo_send CaptureTask.demo_clock elements CaptureTask.demo_key crossings capture.
Proof.
  split; [|split; [|by split]].
  - intros k ev b E. vm_compute in E. by injection E as <- <- _.
  - intros k ev b E. vm_compute in E. injection E as <- <- _. split; [done|]. split; [by eexists|by right].
Qed.
Lemma well_formed : Forall event_wf (sent_to 0 rested) ∧ Forall small_clip (sent_to 0 rested).
Proof. rewrite sent_eq. split; repeat constructor; intros [=]. Qed.
Lemma overtaken : shuffle [[ProtoEvent.Enter Pos.Left; ProtoEvent.Leave 0]; []; up_and_down] (msgs_of some_addr arms).
Proof.
  apply (shuffle_cons []), (shuffle_cons []). do 3 apply (shuffle_cons [_; _]). by repeat constructor.
Qed.
End Demo.

Lemma keys_come_up_again_witness :
  wp (do_emulation_session Emulation.Sample.never elements (proxied (Emulation.run [] map_to_list Demo.arms Demo.listen))) (λ ended t, ended = false ∧
    ∀ h key, key ∈ held h (emulation (em t)) → ∃ a, a ≠ some_addr ∧ task_handles t !! a = Some h) new_task.
Proof.
  destruct (keys_come_up_again CaptureTask.demo_send CaptureTask.demo_clock elements (λ _, eq_refl) (λ _, reflexivity _)
    (λ _, true) (λ _, None) (λ _, true) (λ _, Some 1200) (λ _, Sent) true (λ _, eq_refl) (λ _, eq_refl) sample_max
    Emulation.Sample.never elements (λ _, eq_refl) (λ _, reflexivity _) 0%N CaptureTask.demo_key Demo.crossings Demo.capture
    default_channels [] some_addr "fp" 0 (λ _, None) 0%Z ∅ fresh_dispatch [] map_to_list (λ _, reflexivity _) Demo.resting Demo.allowed)
    as (new & En & H); [done|done|apply Demo.well_formed..|].
  apply H; [|by repeat constructor|done|done|vm_compute; reflexivity].
  assert (delivers (λ _, true) <$> new = [Demo.up_and_down]) as ->.
  { cbn [readers fresh_dispatch app] in En. rewrite <- En. vm_compute. reflexivity. }
  exact Demo.overtaken.
Defined.
