(* ===== verification/EmulationLoop.v ===== *)
(** The life of the emulation task ([EmulationProxy] and [EmulationTask::run]
    of src/emulation.rs): sessions that start, fail, end and are enabled again,
    over the session of Emulation.

    A run is a sequence of turns: a call on the proxy, the answer of
    [InputEmulation::new], the end of a [create], a request taken off the
    channel.  Where a [select!] waits for two of them, either may come next. *)

From S2P Require Import Prelude InputEvent Net Clients Emulation.
From S2P Require Service.

(** Where [run] waits: for the backend, for the handle of a known peer (those
    that are left), for a request of the session, for a request to enable the
    emulation again, or not at all. *)
Inductive phase : Type :=
| Creating
| Making (left : list (SocketAddr * EmulationHandle))
| Session
| Idle
| Ended.

Record Loop : Type := mkLoop {
  at_ : phase;
  exit_requested : bool;
  channel : list ProxyRequest;
  task : EmulationTask
}.
Definition new_loop : Loop := mkLoop Creating false [] (mkTask new_emulation ∅ 0%N []).

Inductive turn : Type :=
| Request (r : ProxyRequest)
| Exit
| Opened (success : bool)
| Made
| Take.

Section loop.
Variable failure : nat → option EmulationError.
Variable key_order : gset Z → list Z.
Variable handle_order : gset EmulationHandle → list EmulationHandle.
Variable addr_order : gmap SocketAddr EmulationHandle → list (SocketAddr * EmulationHandle).

Definition moved (p : phase) (t : EmulationTask) (s : Loop) : Loop := mkLoop p (exit_requested s) (channel s) t.
Definition taken (rest : list ProxyRequest) (s : Loop) : Loop := mkLoop (at_ s) (exit_requested s) rest (task s).
(** Behind [do_emulation]. *)
Definition after (s : Loop) : phase := if exit_requested s then Ended else Idle.
Definition making (l : list (SocketAddr * EmulationHandle)) : phase :=
  match l with [] => Session | _ => Making l end.

Definition opened : ST EmulationTask EmulationError unit :=
  modify_st (set_em new_emulation) ≫= λ _, emit Service.EmulationEnabled.
(** [emulation.terminate()] and the guard. *)
Definition closed : ST EmulationTask EmulationError unit :=
  call (terminate failure key_order handle_order) ≫= λ _, emit Service.EmulationDisabled.

Definition take (r : ProxyRequest) (s : Loop) : Loop :=
  match at_ s with
  | Creating => match r with PTerminate => moved (after s) (task s) s | _ => s end
  | Making _ => match r with PTerminate => moved Session (task s) s | _ => s end
  | Session =>
      match session_request failure key_order r (task s) with
      | (Ok true, t) => moved Session t s
      | (_, t) => moved (after s) (snd (closed t)) s
      end
  | Idle =>
      match r with
      | PReenable => moved Creating (task s) s
      | PTerminate => moved Ended (task s) s
      | _ => s
      end
  | Ended => s
  end.

Definition step (e : turn) (s : Loop) : Loop :=
  match e with
  | Request r => mkLoop (at_ s) (exit_requested s) (channel s ++ [r]) (task s)
  | Exit => mkLoop (at_ s) true (channel s ++ [PTerminate]) (task s)
  | Opened success =>
      match at_ s with
      | Creating =>
          if success then moved (making (addr_order (task_handles (task s)))) (snd (opened (task s))) s
          else moved (after s) (task s) s
      | _ => s
      end
  | Made =>
      match at_ s with
      | Making ((_, h) :: l) => moved (making l) (snd (call (create h) (task s))) s
      | _ => s
      end
  | Take =>
      match at_ s, channel s with
      | Ended, _ | _, [] => s
      | _, r :: rest => take r (taken rest s)
      end
  end.
Definition run (ts : list turn) (s : Loop) : Loop := foldl (λ s t, step t s) s ts.

(** [EmulationProxy::consume], with the flag that the events of the task set. *)
Definition proxy_consume (active : bool) (e : Event) (addr : SocketAddr) : list turn :=
  if active then [Request (PInput e addr)] else [].
End loop.

(** * What holds in every state *)

Definition live (s : Loop) : bool := match at_ s with Making _ | Session => true | _ => false end.
Definition reports (n : nat) (l : bool) : list Service.EmulationEvent :=
  concat (replicate n [Service.EmulationEnabled; Service.EmulationDisabled]) ++ if l then [Service.EmulationEnabled] else [].

Section proofs.
Variable failure : nat → option EmulationError.
Variable key_order : gset Z → list Z.
Variable handle_order : gset EmulationHandle → list EmulationHandle.
Variable addr_order : gmap SocketAddr EmulationHandle → list (SocketAddr * EmulationHandle).
Hypothesis Hok : ∀ n, failure n = None.
Hypothesis Hkeys : ∀ ks, key_order ks ≡ₚ elements ks.
Hypothesis Hhandles : ∀ hs, handle_order hs ≡ₚ elements hs.
Hypothesis Haddrs : ∀ m, addr_order m ≡ₚ map_to_list m.
Abbreviation step := (step failure key_order handle_order addr_order).
Abbreviation run := (run failure key_order handle_order addr_order).

Definition left_of (p : phase) : list (SocketAddr * EmulationHandle) := match p with Making l => l | _ => [] end.
(** The state after at most [n] turns. *)
Record loop_ok (n : nat) (s : Loop) : Prop := {
  lo_task : task_ok (task s);
  lo_next : (next_id (task s) ≤ N.of_nat n)%N;
  lo_reports : ∃ k, task_events (task s) = reports k (live s);
  lo_left a h : (a, h) ∈ left_of (at_ s) → task_handles (task s) !! a = Some h;
  lo_closed : live s = false → handles (em (task s)) = ∅ ∧ ∀ h, held h (emulation (em (task s))) = ∅
}.

Lemma reports_close k : reports k true ++ [Service.EmulationDisabled] = reports (S k) false.
Proof.
  clear. unfold reports. rewrite app_nil_r, replicate_S_end, concat_app. cbn. by rewrite <- app_assoc.
Qed.

Lemma ok_later n m s : loop_ok n s → n ≤ m → loop_ok m s.
Proof. clear. intros [H1 H2 H3 H4 H5] Hn. split; try done. lia. Qed.

(** A session that ends, with whatever it left. *)
Lemma closed_ok n k t s :
  task_ok t → (next_id t ≤ N.of_nat n)%N → task_events t = reports k true →
  loop_ok n (moved (after s) (snd (closed failure key_order handle_order t)) s).
Proof.
  intros Ht Hn He.
  assert (wp (closed failure key_order handle_order) (λ _ t', task_ok t' ∧ next_id t' = next_id t ∧
    task_events t' = reports (S k) false ∧ handles (em t') = ∅ ∧ ∀ h, held h (emulation (em t')) = ∅) t) as Hw.
  { unfold closed, emit. wp. apply wp_em_call. eapply wp_mono; [apply terminate_ok, tk_em, Ht; done|].
    intros u e (He' & Hh & Hheld). wp. cbn. rewrite He, reports_close. split_and!; [|done|done|done|done].
    destruct Ht as [_ _ H3 H4]. split; [done|cbn; rewrite Hh; set_solver|done|done]. }
  unfold wp in Hw. destruct (closed _ _ _ t) as [[] t']; try done. destruct Hw as (H1 & E1 & E2 & H4 & H5).
  unfold after, moved. cbn. assert (live (mkLoop (after s) (exit_requested s) (channel s) t') = false) as El by (unfold after, live; cbn; by destruct (exit_requested s)).
  split; cbn [task at_].
  - done.
  - by rewrite E1.
  - exists (S k). unfold after in El. by rewrite El.
  - intros a' h'. destruct (exit_requested s); cbn; set_solver.
  - done.
Qed.

Lemma take_ok n r s : loop_ok n s → (N.of_nat (S n) < 2 ^ 64)%N → loop_ok (S n) (take failure key_order handle_order r s).
Proof.
  intros Hs Hlt. pose proof Hs as [Ht Hn [k Hk] Hl Hc]. unfold take. unfold live in Hk, Hc. destruct (at_ s) as [|l| | |] eqn:Ea.
  - destruct r; try (eapply ok_later; [done|lia]). unfold after, moved. split; cbn; [done|lia| | |].
    + exists k. unfold live. cbn. by destruct (exit_requested s).
    + destruct (exit_requested s); cbn; set_solver.
    + intros _. by apply Hc.
  - destruct r; try (eapply ok_later; [done|lia]). split; cbn; [done|lia|by exists k|set_solver|done].
  - pose proof (session_request_ok failure key_order Hok Hkeys r (task s) Ht) as Hw.
    unfold wp in Hw. destruct (session_request failure key_order r (task s)) as [[c|e| |] t]; try (exfalso; apply Hw; lia).
    destruct Hw as (H1 & He & Hn1 & _); [lia|]. destruct c.
    + split; cbn; [done|lia| |set_solver|done]. exists k. by rewrite He.
    + apply (closed_ok _ k); [done|lia|by rewrite He].
  - destruct r; try (eapply ok_later; [done|lia]).
    + split; cbn; [done|lia|by exists k|set_solver|done].
    + split; cbn; [done|lia|by exists k|set_solver|done].
  - eapply ok_later; [done|lia].
Qed.

Lemma step_ok n e s : loop_ok n s → (N.of_nat (S n) < 2 ^ 64)%N → loop_ok (S n) (step e s).
Proof.
  intros Hs Hlt. pose proof Hs as [Ht Hn [k Hk] Hl Hc].
  assert (∀ x c, loop_ok (S n) (mkLoop (at_ s) x c (task s))) as Hchan.
  { intros x c. split; cbn; [done|lia|by exists k|done|done]. }
  destruct e as [r| |success| |]; cbn [EmulationLoop.step]; [apply Hchan|apply Hchan|..].
  - destruct (at_ s) as [|l| | |] eqn:Ea; try (eapply ok_later; [done|lia]). unfold live in *. rewrite Ea in *. destruct success.
    + assert (∃ t', opened (task s) = (Ok tt, t') ∧ task_handles t' = task_handles (task s) ∧ next_id t' = next_id (task s) ∧
        task_ok t' ∧ task_events t' = task_events (task s) ++ [Service.EmulationEnabled]) as (t' & E & E1 & E2 & H3 & E4).
      { eexists. split; [reflexivity|]. split_and!; [done|done| |done].
        pose proof (task_ok_fresh (task s) Ht) as [F1 F2 F3 F4]. by split. }
      rewrite E. cbn [snd moved]. split; cbn; [done|lia| | |].
      * exists k. rewrite E4, Hk. unfold reports, live. cbn. rewrite app_nil_r. by destruct (addr_order _).
      * intros a h Hin. rewrite E1. assert ((a, h) ∈ addr_order (task_handles (task s))) as Hin' by (by destruct (addr_order _)).
        by rewrite Haddrs, elem_of_map_to_list in Hin'.
      * unfold live. cbn. by destruct (addr_order _).
    + unfold after, moved. split; cbn; [done|lia| | |].
      * exists k. unfold live. cbn. by destruct (exit_requested s).
      * destruct (exit_requested s); cbn; set_solver.
      * intros _. by apply Hc.
  - destruct (at_ s) as [|[|[a h] l]| | |] eqn:Ea; try (eapply ok_later; [done|lia]). unfold live in *. rewrite Ea in *.
    pose proof (create_ok failure key_order Hok Hkeys h (em (task s)) (tk_em _ Ht)) as Hw. unfold wp in Hw. unfold call.
    destruct (create h (em (task s))) as [[b| | |] e]; try done. destruct Hw as [He Eh]. cbn [snd moved].
    assert (∀ a' h', (a', h') ∈ left_of (making l) → (a', h') ∈ l) as Hin' by (by destruct l).
    split; cbn; [|lia| | |].
    + destruct Ht as [H1 H2 H3 H4]. split; [done| |done|done]. intros x. cbn. rewrite Eh, elem_of_union, elem_of_singleton.
      intros [->|Hx]; [|by apply H2]. exists a. apply Hl. by left.
    + exists k. rewrite Hk. unfold live. cbn. by destruct l.
    + intros a' h' Hin%Hin'. apply Hl. by right.
    + unfold live. cbn. by destruct l.
  - destruct (at_ s) eqn:Ea; try (eapply ok_later; [done|lia]).
    all: destruct (channel s) as [|r rest]; [eapply ok_later; [done|lia]|].
    all: apply take_ok; [|done]; split; cbn; rewrite ?Ea; [done|lia| | |]; rewrite <- ?Ea in *; try done; by exists k.
Qed.

Lemma run_loop ts n s : loop_ok n s → (N.of_nat (n + length ts) < 2 ^ 64)%N → loop_ok (n + length ts) (run ts s).
Proof.
  revert n s. induction ts as [|e ts IH]; intros n s Hs Hlt; cbn in *; [by rewrite Nat.add_0_r|].
  replace (n + S (length ts)) with (S n + length ts) in * by lia. apply IH; [|done]. apply step_ok; [done|lia].
Qed.
Lemma new_loop_ok : loop_ok 0 new_loop.
Proof.
  clear. split; cbn; [apply task_ok_new|done|by exists 0|set_solver|]. intros _. split; [done|]. done.
Qed.
End proofs.

(** * Told to stop *)

(** The request to terminate is in the channel at [k]. *)
Definition due (k : nat) (s : Loop) : Prop :=
  at_ s = Ended ∨ (exit_requested s = true ∧ (∀ l, at_ s ≠ Making l) ∧ channel s !! k = Some PTerminate).
Definition is_take (e : turn) : bool := match e with Take => true | _ => false end.
Definition takes (ts : list turn) : nat := length (filter (λ e, is_take e = true) ts).

Section exit.
Variable failure : nat → option EmulationError.
Variable key_order : gset Z → list Z.
Variable handle_order : gset EmulationHandle → list EmulationHandle.
Variable addr_order : gmap SocketAddr EmulationHandle → list (SocketAddr * EmulationHandle).
Abbreviation step := (step failure key_order handle_order addr_order).
Abbreviation run := (run failure key_order handle_order addr_order).
Abbreviation take := (take failure key_order handle_order).

Lemma ended_stays e s : at_ s = Ended → at_ (step e s) = Ended.
Proof. intros Ea. destruct e; cbn; rewrite Ea; done. Qed.
Lemma take_terminate s : exit_requested s = true → (∀ l, at_ s ≠ Making l) → at_ (take PTerminate s) = Ended.
Proof.
  intros Hx Hm. unfold EmulationLoop.take, after. destruct (at_ s) eqn:Ea; cbn; rewrite ?Hx; try done.
  by destruct (Hm left).
Qed.
Lemma take_keeps r s :
  exit_requested s = true → (∀ l, at_ s ≠ Making l) →
  exit_requested (take r s) = true ∧ (∀ l, at_ (take r s) ≠ Making l) ∧ channel (take r s) = channel s.
Proof.
  intros Hx Hm. unfold EmulationLoop.take, after. rewrite Hx.
  destruct (at_ s) eqn:Ea; try (by destruct (Hm left)); try (destruct r; cbn; rewrite ?Ea; done).
  destruct (session_request _ _ r (task s)) as [[[]|e| |] t]; cbn; done.
Qed.
Lemma step_due k e s :
  due k s → (∀ b, e ≠ Opened b) →
  if is_take e then match k with O => at_ (step e s) = Ended | S k => due k (step e s) end else due k (step e s).
Proof.
  intros [Ea|(Hx & Hm & Hk)] Ho.
  { pose proof (ended_stays e s Ea) as E. destruct (is_take e); [destruct k|]; first [done|by left]. }
  destruct e as [r| |b| |]; cbn [is_take].
  - right. cbn. split_and!; [done|done|]. by apply lookup_app_l_Some.
  - right. cbn. split_and!; [done|done|]. by apply lookup_app_l_Some.
  - by destruct (Ho b).
  - right. cbn. destruct (at_ s) eqn:Ea; rewrite ?Ea; try done. by destruct (Hm left).
  - assert (at_ s = Ended ∨ at_ s ≠ Ended) as [Ed|Ed] by (destruct (at_ s); auto).
    { cbn. rewrite Ed. destruct k; [done|by left]. }
    destruct (channel s) as [|r rest] eqn:Ec; [by rewrite lookup_nil in Hk|].
    assert (step Take s = take r (taken rest s)) as -> by (cbn; rewrite Ec; by destruct (at_ s)).
    destruct k as [|k].
    + injection Hk as ->. by apply take_terminate.
    + right. destruct (take_keeps r (taken rest s)) as (H1 & H2 & H3); [done|done|]. split_and!; [done|done|]. by rewrite H3.
Qed.
Lemma run_due k ts s :
  due k s → (∀ b, Opened b ∉ ts) → k < takes ts → at_ (run ts s) = Ended.
Proof.
  revert k s. induction ts as [|e ts IH]; intros k s Hd Ho Ht; [by cbn in Ht; lia|].
  assert (∀ s, at_ s = Ended → at_ (run ts s) = Ended) as He.
  { clear. induction ts as [|e ts IH]; intros s E; [done|]. cbn. by apply IH, ended_stays. }
  pose proof (step_due k e s Hd) as Hs. unfold takes in Ht. rewrite filter_cons in Ht. cbn.
  assert (∀ b, e ≠ Opened b) as He' by (intros b ->; apply (Ho b); by left). specialize (Hs He').
  destruct (is_take e) eqn:Et.
  - rewrite decide_True in Ht by done. cbn in Ht. destruct k as [|k]; [by apply He|]. apply (IH k); [done|set_solver|unfold takes; lia].
  - rewrite decide_False in Ht by done. apply (IH k); [done|set_solver|done].
Qed.
End exit.

(** * Properties *)

(** C7. Over any life of the emulation task in which the calls on the backend
    succeed: the reports alternate, and the last one says whether a backend is
    up; outside of a session no handle of the backend is left and no key is
    held; within a backend no key was pressed twice or released while up, and
    every handle of it belongs to one peer. *)
Theorem sessions_leave_nothing failure key_order handle_order addr_order ts :
  (∀ n, failure n = None) → (∀ ks, key_order ks ≡ₚ elements ks) → (∀ hs, handle_order hs ≡ₚ elements hs) →
  (∀ m, addr_order m ≡ₚ map_to_list m) → (N.of_nat (length ts) < 2 ^ 64)%N →
  let s := run failure key_order handle_order addr_order ts new_loop in
  (∃ n, task_events (task s) = reports n (live s)) ∧
  clean (emulation (em (task s))) ∧
  (live s = false → handles (em (task s)) = ∅ ∧ ∀ h, held h (emulation (em (task s))) = ∅) ∧
  (∀ h, h ∈ handles (em (task s)) → ∃ a, task_handles (task s) !! a = Some h ∧ ∀ b, task_handles (task s) !! b = Some h → b = a).
Proof.
  intros Hf Hk Hh Ha Hl. pose proof (run_loop failure key_order handle_order addr_order Hf Hk Hh Ha ts 0 new_loop) as Hr.
  destruct Hr as [[H1 H2 H3 H4] _ Hrep _ Hc]; [apply new_loop_ok|done|]. split_and!; [done|apply H1|done|].
  intros h [a Hin]%H2. exists a. split; [done|]. intros b Hb. by eapply H3.
Qed.

(** C25. A task that is told to exit ends, wherever it waits but for the making
    of known handles: once it has taken the requests before, however many come
    behind, unless a backend comes up in the meantime. *)
Theorem exit_ends failure key_order handle_order addr_order s ts :
  (∀ l, at_ s ≠ Making l) → (∀ b, Opened b ∉ ts) → (length (channel s) < takes ts)%nat →
  at_ (run failure key_order handle_order addr_order (Exit :: ts) s) = Ended.
Proof.
  intros Hm Ho Ht. cbn. apply (run_due _ _ _ _ (length (channel s))); [|done|done]. right. cbn. split_and!; [done|done|].
  by apply list_lookup_middle.
Qed.

(** During the making of the handles the same request only cuts it short: the
    session that follows waits for ever, and with it [terminate] of the proxy. *)
Lemma exit_hangs failure key_order handle_order addr_order s l n :
  at_ s = Making l → channel s = [] →
  let s' := run failure key_order handle_order addr_order (Exit :: repeat Take (S n)) s in
  at_ s' = Session ∧ channel s' = [] ∧ exit_requested s' = true.
Proof.
  intros Ea Ec. cbn [repeat EmulationLoop.run foldl EmulationLoop.step]. rewrite Ea, Ec. cbn. unfold taken, take, moved. cbn.
  induction n as [|n IH]; cbn; [done|]. unfold EmulationLoop.run in *. done.
Qed.

(** A peer that leaves while the emulation is disabled stays: its removal is
    dropped, and the next backend gets a handle for it. *)
Lemma removal_lost failure key_order handle_order a h t :
  at_ t = Idle → channel t = [PRemove a; PReenable] → task_handles (task t) = {[a := h]} →
  let s := run failure key_order handle_order map_to_list [Take; Take; Opened true; Made] t in
  at_ s = Session ∧ task_handles (task s) !! a = Some h ∧ h ∈ handles (em (task s)).
Proof.
  destruct t as [p x c [e hs n evs]]. cbn [at_ channel task task_handles]. intros -> -> ->.
  unfold EmulationLoop.run. cbn -[map_to_list]. rewrite map_to_list_singleton. cbn.
  split; [done|]. split; [apply lookup_singleton_eq|]. set_solver.
Qed.

(** ** Instances *)

Module Life.
Definition a : SocketAddr := Sample.a.
Definition never : nat → option EmulationError := Sample.never.
Definition press_a : ProxyRequest := PInput (Keyboard (Key 0 30 1)) a.
(** A key is held when the task is told to exit. *)
Definition turns : list turn := [Opened true; Request press_a; Take; Exit; Take].
Abbreviation run := (run never elements elements map_to_list).
Lemma sessions_leave_nothing_witness :
  let s := run turns new_loop in
  at_ s = Ended ∧ task_handles (task s) !! a = Some 0%N ∧ handles (em (task s)) = ∅ ∧ held 0 (emulation (em (task s))) = ∅.
Proof.
  destruct (sessions_leave_nothing never elements elements map_to_list turns) as (_ & _ & Hc & _); [done..|].
  split; [done|]. split; [done|]. destruct (Hc eq_refl) as [H1 H2]. split; [exact H1|apply H2].
Defined.

Lemma exit_ends_witness :
  at_ (run (Exit :: [Take; Request (PRemove a); Take; Take]) (run [Request press_a; Request PReenable] new_loop)) = Ended.
Proof.
  apply (exit_ends never elements elements map_to_list).
  - done.
  - intros b. set_solver.
  - vm_compute. lia.
Defined.
End Life.
