(* ===== verification/Connect.v ===== *)
(** The dialing side (src/connect.rs): when a peer is dialled, what is
    registered for it, when it is dialled again; the heartbeat, the watchdog, and
    the dispatcher of the streams the peer opens.

    The tasks that [spawn_local] starts are kept in the state until they end; an
    event lets one of them go on, or is a call of [dial] or [send].  quinn's
    answers (the result of a dial, of the handshake, of a write, the reason of a
    close) and the clock are arguments of the events.  Durations are in
    milliseconds. *)

From S2P Require Import Prelude InputEvent Proto Codec Wire Transport Caches.
From S2P Require Import Text Http3 Net Clients Session Emulation Listen.

(** * Retries *)

Record RetryState : Type := mkRetry {
  next_attempt_at : Z;
  backoff : Z;
  failure_count : Z
}.

Definition INITIAL_RETRY_BACKOFF : Z := 500.
Definition MAX_RETRY_BACKOFF : Z := 4000.
Definition MAX_RETRY_FAILURES_BEFORE_OFFLINE : Z := 5.
Definition PING_INTERVAL : Z := 500.
Definition PONG_HEALTH_TIMEOUT : Z := 3500.
Definition PONG_HEALTH_TICK : Z := 500.

Definition record_retry_failure (now : Z) (handle : ClientHandle) (m : gmap ClientHandle RetryState)
    : gmap ClientHandle RetryState :=
  let entry := default (mkRetry now INITIAL_RETRY_BACKOFF 0) (m !! handle) in
  let next := backoff entry in
  <[handle := mkRetry (now + next) (Z.min (next * 2) MAX_RETRY_BACKOFF)
                (Z.min (failure_count entry + 1) (2 ^ 32 - 1))]> m.

(** The gate of [dial] and [send]. *)
Definition gated (now : Z) (handle : ClientHandle) (m : gmap ClientHandle RetryState) : bool :=
  match m !! handle with
  | Some entry => (now <? next_attempt_at entry)%Z
  | None => false
  end.

(** * The connection manager *)

Inductive LanMouseConnectionError : Type := Quic (e : Error) | NotConnected.

(** A spawned [connect_to_handle], one that waits for its dial, and the
    supervisor of a session. *)
Inductive Task : Type :=
| Spawned (handle : ClientHandle)
| Dialing (handle : ClientHandle)
| Supervising (handle : ClientHandle) (addr : SocketAddr) (sid : nat).
#[export] Instance Task_eq_dec : EqDecision Task.
Proof. solve_decision. Defined.

(** The end of a task that runs. *)
Fixpoint take_task (t : Task) (l : list Task) : option (list Task) :=
  match l with
  | [] => None
  | u :: l => if decide (t = u) then Some l else (u ::.) <$> take_task t l
  end.

Section manager.
Context {S : Type} `{Slab S}.

Record Conn : Type := mkConn {
  client_manager : S;
  peers : gmap SocketAddr nat;
  connecting : gset ClientHandle;
  retry_state : gmap ClientHandle RetryState;
  tasks : list Task;
  next_session : nat;
  clipboard_push_notify : list ClientHandle
}.

Definition set_clients (m : S) (c : Conn) : Conn :=
  mkConn m (peers c) (connecting c) (retry_state c) (tasks c) (next_session c) (clipboard_push_notify c).
Definition set_peers (p : gmap SocketAddr nat) (c : Conn) : Conn :=
  mkConn (client_manager c) p (connecting c) (retry_state c) (tasks c) (next_session c)
    (clipboard_push_notify c).
Definition set_connecting (s : gset ClientHandle) (c : Conn) : Conn :=
  mkConn (client_manager c) (peers c) s (retry_state c) (tasks c) (next_session c)
    (clipboard_push_notify c).
Definition set_retry (m : gmap ClientHandle RetryState) (c : Conn) : Conn :=
  mkConn (client_manager c) (peers c) (connecting c) m (tasks c) (next_session c)
    (clipboard_push_notify c).
Definition set_tasks (l : list Task) (c : Conn) : Conn :=
  mkConn (client_manager c) (peers c) (connecting c) (retry_state c) l (next_session c)
    (clipboard_push_notify c).
Definition spawn (t : Task) (c : Conn) : Conn := set_tasks (tasks c ++ [t]) c.

Definition set_active (handle : ClientHandle) (a : option SocketAddr) (c : Conn) : Conn :=
  set_clients (set_active_addr handle a (client_manager c)) c.
Definition fail (now : Z) (handle : ClientHandle) (c : Conn) : Conn :=
  set_retry (record_retry_failure now handle (retry_state c)) c.
Definition stop_connecting (handle : ClientHandle) (c : Conn) : Conn :=
  set_connecting (connecting c ∖ {[handle]}) c.

(** The second half of [dial] and [send]. *)
Definition start_dial (handle : ClientHandle) (c : Conn) : Conn :=
  if decide (handle ∈ connecting c) then c
  else spawn (Spawned handle) (set_connecting ({[handle]} ∪ connecting c) c).

Definition dial (now : Z) (handle : ClientHandle) (c : Conn) : Conn :=
  if gated now handle (retry_state c) then c else start_dial handle c.

(** [send]; [sent] is the result of [send_input] on the session it finds. *)
Definition send (now : Z) (handle : ClientHandle) (sent : outcome Error unit) (c : Conn)
    : outcome LanMouseConnectionError unit * Conn :=
  let redial :=
    if gated now handle (retry_state c) then (Err NotConnected, c)
    else (Err NotConnected, start_dial handle c) in
  match get_active_addr handle (client_manager c) with
  | None => redial
  | Some addr =>
      match peers c !! addr with
      | None => redial
      | Some _ =>
          match sent with
          | Ok _ => (Ok tt, c)
          | Err e => (Err (Quic e), set_active handle None (set_peers (delete addr (peers c)) c))
          | Panic => (Panic, c)
          | Diverge => (Diverge, c)
          end
      end
  end.

(** [connect_to_handle] up to the dial: the candidates, in the order in which
    the set yields them. *)
Definition candidates (order : gset IpAddr → list IpAddr) (handle : ClientHandle) (c : Conn)
    : list SocketAddr :=
  match get_ips handle (client_manager c) with
  | None => []
  | Some ips =>
      let port := default DEFAULT_PORT (get_port handle (client_manager c)) in
      (λ ip, socket_addr ip port) <$> order ips
  end.
(** The identity under which the peer's certificate is pinned. *)
Definition dial_peer_key (handle : ClientHandle) (c : Conn) : string :=
  default ("client-" +:+ dec handle) (peer_key handle (client_manager c)).
Definition connect_begin (order : gset IpAddr → list IpAddr) (handle : ClientHandle) (c : Conn)
    : outcome LanMouseConnectionError (list SocketAddr * string) * Conn :=
  match candidates order handle c with
  | [] => (Err NotConnected, stop_connecting handle c)
  | addrs => (Ok (addrs, dial_peer_key handle c), spawn (Dialing handle) c)
  end.

(** The rest, with the results of the dial and of the handshake. *)
Definition connect_end (now : Z) (handle : ClientHandle) (dialled : Error + SocketAddr)
    (hello : outcome Error unit) (c : Conn) : outcome LanMouseConnectionError unit * Conn :=
  match dialled with
  | inl e => (Err (Quic e), stop_connecting handle (fail now handle c))
  | inr remote =>
      match hello with
      | Err e => (Err (Quic e), stop_connecting handle (fail now handle c))
      | Panic => (Panic, c)
      | Diverge => (Diverge, c)
      | Ok _ =>
          let sid := next_session c in
          let c := set_active handle (Some remote) c in
          let c := set_peers (<[remote := sid]> (peers c)) c in
          let c := stop_connecting handle c in
          let c := set_retry (delete handle (retry_state c)) c in
          (Ok tt, mkConn (client_manager c) (peers c) (connecting c) (retry_state c)
                    (tasks c ++ [Supervising handle remote sid]) (Datatypes.S sid)
                    (clipboard_push_notify c ++ [handle]))
      end
  end.

(** [spawn_peer_supervisor] after [peer.run] returned. *)
Definition supervisor_end (now : Z) (handle : ClientHandle) (addr : SocketAddr) (close_result : RunResult)
    (c : Conn) : Conn :=
  let c := set_active handle None (set_peers (delete addr (peers c)) c) in
  match close_result with
  | Closed reason =>
      if should_retry_after_close reason
      then spawn (Spawned handle) (fail now handle c)
      else c
  | _ => c
  end.

(** ** Steps *)

Inductive event : Type :=
| EvDial (now : Z) (handle : ClientHandle)
| EvSend (now : Z) (handle : ClientHandle) (sent : outcome Error unit)
| EvBegin (handle : ClientHandle)
| EvEnd (now : Z) (handle : ClientHandle) (dialled : Error + SocketAddr) (hello : outcome Error unit)
| EvClosed (now : Z) (handle : ClientHandle) (addr : SocketAddr) (sid : nat) (result : RunResult).

(** [None]: no such task runs. *)
Definition step (order : gset IpAddr → list IpAddr) (ev : event) (c : Conn) : option Conn :=
  match ev with
  | EvDial now h => Some (dial now h c)
  | EvSend now h sent => Some (snd (send now h sent c))
  | EvBegin h => l ← take_task (Spawned h) (tasks c); Some (snd (connect_begin order h (set_tasks l c)))
  | EvEnd now h dialled hello =>
      l ← take_task (Dialing h) (tasks c); Some (snd (connect_end now h dialled hello (set_tasks l c)))
  | EvClosed now h addr sid result =>
      l ← take_task (Supervising h addr sid) (tasks c); Some (supervisor_end now h addr result (set_tasks l c))
  end.

Fixpoint steps (order : gset IpAddr → list IpAddr) (evs : list event) (c : Conn) : option Conn :=
  match evs with
  | [] => Some c
  | ev :: evs => c ← step order ev c; steps order evs c
  end.
End manager.

(** * Backoff *)

Definition fail_all (h : ClientHandle) (ts : list Z) (m : gmap ClientHandle RetryState)
    : gmap ClientHandle RetryState := foldl (λ m t, record_retry_failure t h m) m ts.

(** The wait after [n] failures and one more: 500 ms doubled each time, at most
    4 s. *)
Definition wait (n : nat) : Z := Z.min (500 * 2 ^ Z.of_nat n) 4000.

Lemma wait_succ n : Z.min (wait n * 2) 4000 = wait (S n).
Proof.
  unfold wait. rewrite Nat2Z.inj_succ, Z.pow_succ_r by lia.
  pose proof (Z.pow_pos_nonneg 2 (Z.of_nat n)). lia.
Qed.

(** After [n + 1] failures in a row the next dial is due 500 ms doubled [n]
    times, and at most 4 s, after the last one; until then [dial] and [send]
    start nothing, from then on they do. *)
Theorem backoff_schedule h m ts t :
  m !! h = None → (Z.of_nat (length ts) + 1 < 2 ^ 32)%Z →
  let m' := fail_all h (ts ++ [t]) m in
  m' !! h = Some (mkRetry (t + wait (length ts)) (wait (S (length ts))) (Z.of_nat (length ts) + 1)) ∧
  (∀ now, gated now h m' = (now <? t + wait (length ts))%Z) ∧
  (500 ≤ wait (length ts) ≤ 4000)%Z.
Proof.
  intros Hm Hn m'.
  assert (∀ ts t, (Z.of_nat (length ts) + 1 < 2 ^ 32)%Z → fail_all h (ts ++ [t]) m !! h =
    Some (mkRetry (t + wait (length ts)) (wait (S (length ts))) (Z.of_nat (length ts) + 1))) as Hgen.
  { clear Hn m' ts t. intros ts. induction ts as [|t0 ts IH] using rev_ind; intros t Hn.
    - unfold fail_all. cbn. unfold record_retry_failure. by rewrite Hm, lookup_insert_eq.
    - rewrite length_app in Hn |- *. cbn [length] in Hn |- *. unfold fail_all in IH |- *.
      rewrite foldl_app. cbn [foldl]. unfold record_retry_failure at 1. rewrite IH by lia.
      cbn [from_option id backoff failure_count]. rewrite lookup_insert_eq. unfold id.
      cbn [backoff failure_count]. unfold MAX_RETRY_BACKOFF.
      rewrite wait_succ, Nat.add_1_r. do 2 f_equal. lia. }
  split_and!.
  - by apply Hgen.
  - intros now. unfold gated, m'. by rewrite Hgen.
  - unfold wait. pose proof (Z.pow_pos_nonneg 2 (Z.of_nat (length ts))). lia.
  - unfold wait. lia.
Qed.
Lemma backoff_schedule_witness :
  gated 10499 3%N (fail_all 3%N [0; 1000; 3000; 6500]%Z ∅) = true ∧
  gated 10500 3%N (fail_all 3%N [0; 1000; 3000; 6500]%Z ∅) = false.
Proof.
  destruct (backoff_schedule 3%N ∅ [0; 1000; 3000]%Z 6500) as (_ & H & _); [done|cbn; lia|].
  cbn [app] in H. by rewrite !H.
Defined.

(** * One dial at a time *)

Section dials.
Context {S : Type} `{SlabLaws S}.
Implicit Types (c : Conn (S := S)) (h : ClientHandle).

Definition is_dial h (t : Task) : bool :=
  match t with Spawned h' | Dialing h' => bool_decide (h = h') | Supervising _ _ _ => false end.
Definition dials h (l : list Task) : nat := length (filter (λ t, is_dial h t = true) l).
#[local] Arguments dials : simpl never.

Lemma dials_app h l1 l2 : dials h (l1 ++ l2) = dials h l1 + dials h l2.
Proof. unfold dials. by rewrite filter_app, length_app. Qed.
Lemma dials_take h t l l' :
  take_task t l = Some l' → dials h l = dials h l' + (if is_dial h t then 1 else 0).
Proof.
  revert l'. induction l as [|u l IH]; intros l'; cbn [take_task]; [done|]. case_decide as Ht.
  - intros [= <-]. subst u. unfold dials. rewrite filter_cons. destruct (is_dial h t) eqn:E.
    + rewrite decide_True by done. cbn [length]. lia.
    + rewrite decide_False by done. lia.
  - destruct (take_task t l) as [l1|]; [|done]. intros [= <-]. specialize (IH l1 eq_refl).
    unfold dials in *. rewrite !filter_cons. case_decide; cbn [length]; lia.
Qed.
Lemma dials_one h t : dials h [t] = if is_dial h t then 1 else 0.
Proof. unfold dials. rewrite filter_cons. destruct (is_dial h t); [by rewrite decide_True|by rewrite decide_False]. Qed.

(** Every dial is registered, and every handle is dialled once. *)
Definition single c : Prop := ∀ h, dials h (tasks c) = if decide (h ∈ connecting c) then 1 else 0.

(** The peers close, and the handshakes end, in ways that lead to no redial by
    a supervisor. *)
Definition quiet (ev : event) : Prop :=
  match ev with
  | EvClosed _ _ _ _ (Closed reason) => should_retry_after_close reason = false
  | EvEnd _ _ _ hello => returns hello
  | _ => True
  end.

Lemma single_start h c : single c → single (start_dial h c).
Proof.
  intros Hs. unfold start_dial. case_decide as Hin; [done|]. intros k. cbn.
  rewrite dials_app, dials_one, (Hs k). cbn. repeat case_bool_decide; repeat case_decide; set_solver.
Qed.
Lemma single_dial_call now h c : single c → single (dial now h c).
Proof. intros Hs. unfold dial. case_match; [done|by apply single_start]. Qed.
Lemma single_send now h sent c : single c → single (snd (send now h sent c)).
Proof.
  intros Hs. unfold send. assert (single (snd
    (if gated now h (retry_state c) then (Err NotConnected, c) else (Err NotConnected, start_dial h c)
     : outcome LanMouseConnectionError unit * Conn))) as Hr by (case_match; [done|by apply single_start]).
  destruct (get_active_addr h (client_manager c)); [|done]. destruct (peers c !! _); [|done]. by destruct sent.
Qed.

(** The end of a task of [h] that leaves [connecting] as it is, or leaves it. *)
Lemma single_take_other t c l :
  single c → take_task t (tasks c) = Some l → (∀ h, is_dial h t = false) → single (set_tasks l c).
Proof. intros Hs Ht Ho h. cbn. rewrite <- (Hs h), (dials_take h _ _ _ Ht), Ho. lia. Qed.
Lemma single_take_dial h t c l c' :
  single c → take_task t (tasks c) = Some l → (∀ k, is_dial k t = bool_decide (k = h)) →
  (∀ k, dials k (tasks c') = dials k l) → connecting c' = connecting c ∖ {[h]} → single c'.
Proof.
  intros Hs Ht Hd Hl Hc k. rewrite Hl, Hc. pose proof (Hs k) as Hk. rewrite (dials_take k _ _ _ Ht), Hd in Hk.
  case_bool_decide; repeat case_decide; set_solver by lia.
Qed.

Lemma single_step order ev c c' : quiet ev → single c → step order ev c = Some c' → single c'.
Proof.
  intros Hq Hs. destruct ev as [now h|now h sent|h|now h dialled hello|now h addr sid result]; cbn [step].
  - intros [= <-]. by apply single_dial_call.
  - intros [= <-]. by apply single_send.
  - destruct (take_task _ _) as [l|] eqn:Et; [|done]. cbn. intros [= <-].
    unfold connect_begin. destruct (candidates order h _) as [|a l0].
    + eapply single_take_dial; [exact Hs|exact Et|done|done|done].
    + intros k. cbn. rewrite dials_app, dials_one. rewrite <- (Hs k), (dials_take k _ _ _ Et). done.
  - destruct (take_task _ _) as [l|] eqn:Et; [|done]. cbn. intros [= <-].
    assert (∀ k, is_dial k (Dialing h) = bool_decide (k = h)) as Hd by done.
    unfold connect_end. destruct dialled as [e|remote]; [by eapply single_take_dial|].
    destruct hello as [[]|e| |]; [|by eapply single_take_dial|done..].
    eapply single_take_dial; [exact Hs|exact Et|done| |done]. intros k. cbn. rewrite dials_app, dials_one. cbn. lia.
  - destruct (take_task _ _) as [l|] eqn:Et; [|done]. cbn. intros [= <-].
    assert (single (set_tasks l c)) as Hs' by (by eapply single_take_other).
    unfold supervisor_end. destruct result as [|e|reason|]; try exact Hs'. cbn in Hq. rewrite Hq. exact Hs'.
Qed.

(** C35. As long as no supervisor redials, the manager dials a handle at most
    once at a time: over any calls of [dial] and [send], ends of dials and closed
    sessions, [connecting] holds exactly the handles that are being dialled, each
    by one task. *)
Theorem single_dial order evs c c' :
  Forall quiet evs → single c → steps order evs c = Some c' → single c'.
Proof.
  intros Hq. revert c. induction Hq as [|ev evs Hev Hq IH]; intros c Hs; cbn [steps].
  - by intros [= <-].
  - destruct (step order ev c) as [c1|] eqn:E; [|done]. cbn. intros E'.
    eapply IH; [|exact E']. by eapply single_step.
Qed.

(** ** Two sessions for one peer *)

Lemma get_active_set h a m :
  is_Some (slab_get h m) → get_active_addr h (set_active_addr h a m) = a.
Proof.
  intros [e He]. unfold get_active_addr, set_active_addr. by rewrite get_modify, decide_True, He by done.
Qed.
Lemma slab_get_set h k a m : is_Some (slab_get h m) → is_Some (slab_get h (set_active_addr k a m)).
Proof.
  intros [e He]. unfold set_active_addr. rewrite get_modify. case_decide; [subst k; rewrite He; eauto|eauto].
Qed.
Lemma get_ips_set h k a m : get_ips h (set_active_addr k a m) = get_ips h m.
Proof.
  unfold get_ips, set_active_addr. rewrite get_modify. case_decide; [subst k|done].
  by destruct (slab_get h m) as [[]|].
Qed.
Lemma ips_some h m ips : get_ips h m = Some ips → is_Some (slab_get h m).
Proof. unfold get_ips. destruct (slab_get h m); [eauto|done]. Qed.
Lemma candidates_ips order h c ips :
  get_ips h (client_manager c) = Some ips → order ips ≠ [] → candidates order h c ≠ [].
Proof. intros Hi Ho. unfold candidates. rewrite Hi. by destruct (order ips). Qed.
Lemma begin_ok order h c ips :
  get_ips h (client_manager c) = Some ips → order ips ≠ [] →
  snd (connect_begin order h c) = spawn (Dialing h) c.
Proof.
  intros Hi Ho. pose proof (candidates_ips order h c ips Hi Ho). unfold connect_begin.
  by destruct (candidates order h c).
Qed.

Lemma steps_cons order ev evs c c1 :
  step order ev c = Some c1 → steps order (ev :: evs) c = steps order evs c1.
Proof. intros E. cbn [steps]. by rewrite E. Qed.
Lemma take_head t l : take_task t (t :: l) = Some l.
Proof. cbn. by rewrite decide_True. Qed.
Lemma take_second t u l : t ≠ u → take_task t (u :: t :: l) = Some (u :: l).
Proof. intros Hn. cbn. by rewrite decide_False, decide_True. Qed.
Lemma step_begin order h c l ips :
  take_task (Spawned h) (tasks c) = Some l → get_ips h (client_manager c) = Some ips → order ips ≠ [] →
  step order (EvBegin h) c = Some (spawn (Dialing h) (set_tasks l c)).
Proof. intros Ht Hi Ho. unfold step. rewrite Ht. cbn. by rewrite (begin_ok order h _ ips). Qed.
Lemma send_redials now h sent c :
  get_active_addr h (client_manager c) = None → gated now h (retry_state c) = false → h ∉ connecting c →
  send now h sent c = (Err NotConnected, spawn (Spawned h) (set_connecting ({[h]} ∪ connecting c) c)).
Proof.
  intros Ha Hg Hc. unfold send. rewrite Ha, Hg. unfold start_dial. by rewrite decide_False.
Qed.

(** A peer with one session. *)
Definition connected (m : S) (h : ClientHandle) (addr : SocketAddr) (sid : nat) : Conn :=
  mkConn m {[addr := sid]} ∅ ∅ [Supervising h addr sid] (Datatypes.S sid) [].

(** A redial of a supervisor is not entered in [connecting]: when the peer
    timed out and the backoff of 500 ms is over, a [send] starts a second dial of
    the same peer beside the one that still runs. *)
Theorem redial_doubles order m h addr sid ips now now' sent :
  get_ips h m = Some ips → order ips ≠ [] → (now + 500 ≤ now')%Z →
  ∃ c, steps order [EvClosed now h addr sid (Closed TimedOut); EvBegin h; EvSend now' h sent]
         (connected m h addr sid) = Some c ∧
    tasks c = [Dialing h; Spawned h].
Proof.
  intros Hi Ho Ht. eexists. split.
  - erewrite steps_cons by (unfold step; cbn [connected tasks]; rewrite take_head; done).
    cbn [supervisor_end should_retry_after_close].
    erewrite steps_cons.
    2: { eapply (step_begin order h _ [] ips); [|cbn; by rewrite get_ips_set|done]. cbn. by rewrite decide_True. }
    erewrite steps_cons; [done|]. unfold step. rewrite send_redials; [done| | |].
    + cbn. by apply get_active_set, (ips_some h m ips).
    + cbn. unfold gated, record_retry_failure. rewrite lookup_empty, lookup_insert_eq.
      unfold default, id, INITIAL_RETRY_BACKOFF. cbn [next_attempt_at backoff from_option]. lia.
    + cbn. set_solver.
  - done.
Qed.

(** The supervisor of an old session takes the new one off the table: a
    [send] that fails drops the session while its supervisor runs on; after the
    redial the end of the old session removes the new session of the same
    address and the peer's active address, and the new session lives on
    unreachable. *)
Theorem stale_supervisor order m h addr sid ips e now reason :
  get_ips h m = Some ips → order ips ≠ [] → get_active_addr h m = Some addr →
  should_retry_after_close reason = false →
  ∃ c, steps order [EvSend now h (Err e); EvSend now h (Ok tt); EvBegin h; EvEnd now h (inr addr) (Ok tt);
                    EvClosed now h addr sid (Closed reason)] (connected m h addr sid) = Some c ∧
    peers c = ∅ ∧ get_active_addr h (client_manager c) = None ∧
    tasks c = [Supervising h addr (Datatypes.S sid)].
Proof.
  intros Hi Ho Ha Hr. pose proof (ips_some h m ips Hi) as Hsome.
  set (m1 := set_active_addr h None m).
  assert (step order (EvSend now h (Err e)) (connected m h addr sid) =
    Some (mkConn m1 ∅ ∅ ∅ [Supervising h addr sid] (Datatypes.S sid) [])) as E1.
  { unfold step, send, connected. cbn [client_manager peers]. rewrite Ha, lookup_singleton_eq.
    unfold set_active, set_clients, set_peers. cbn. by rewrite delete_singleton_eq. }
  assert (step order (EvSend now h (Ok tt)) (mkConn m1 ∅ ∅ ∅ [Supervising h addr sid] (Datatypes.S sid) []) =
    Some (mkConn m1 ∅ {[h]} ∅ [Supervising h addr sid; Spawned h] (Datatypes.S sid) [])) as E2.
  { unfold step. rewrite send_redials; [|by apply get_active_set|done|set_solver].
    cbn. unfold spawn, set_tasks, set_connecting. cbn. by rewrite (right_id_L ∅ (∪)). }
  assert (step order (EvBegin h) (mkConn m1 ∅ {[h]} ∅ [Supervising h addr sid; Spawned h] (Datatypes.S sid) []) =
    Some (mkConn m1 ∅ {[h]} ∅ [Supervising h addr sid; Dialing h] (Datatypes.S sid) [])) as E3.
  { rewrite (step_begin order h _ [Supervising h addr sid] ips); [done|by apply take_second| |done].
    cbn. unfold m1. by rewrite get_ips_set. }
  set (m2 := set_active_addr h (Some addr) m1).
  assert (step order (EvEnd now h (inr addr) (Ok tt))
      (mkConn m1 ∅ {[h]} ∅ [Supervising h addr sid; Dialing h] (Datatypes.S sid) []) =
    Some (mkConn m2 {[addr := Datatypes.S sid]} ∅ ∅ [Supervising h addr sid; Supervising h addr (Datatypes.S sid)]
            (Datatypes.S (Datatypes.S sid)) [h])) as E4.
  { unfold step. cbn [tasks]. rewrite take_second by done. cbn.
    unfold set_retry, set_peers, stop_connecting, set_connecting, set_active, set_clients. cbn.
    by rewrite difference_diag_L, delete_empty. }
  eexists. split.
  - rewrite (steps_cons _ _ _ _ _ E1), (steps_cons _ _ _ _ _ E2), (steps_cons _ _ _ _ _ E3),
      (steps_cons _ _ _ _ _ E4).
    erewrite steps_cons by (unfold step; cbn [tasks]; rewrite take_head; done). done.
  - unfold supervisor_end. rewrite Hr. split_and!; [| |done].
    + cbn. by rewrite delete_singleton_eq.
    + cbn. apply get_active_set. by apply slab_get_set, slab_get_set.
Qed.
End dials.

(** ** Witnesses *)

(** One client with one address. *)
Definition one_client (a : option SocketAddr) : VecSlab.t :=
  [Some (default_config, with_active_addr a (with_ips {[V4 7]} default_state))].
Definition peer_addr : SocketAddr := socket_addr (V4 7) DEFAULT_PORT.
Definition no_conn (m : VecSlab.t) : Conn := mkConn m ∅ ∅ ∅ [] 0 [].

Lemma single_dial_witness :
  ∃ c, steps elements [EvDial 0 0%N; EvSend 0 0%N (Ok tt); EvBegin 0%N; EvDial 0 0%N] (no_conn (one_client None)) = Some c ∧
    dials 0%N (tasks c) = 1.
Proof.
  eexists. split; [vm_compute; reflexivity|].
  refine (single_dial elements [EvDial 0 0%N; EvSend 0 0%N (Ok tt); EvBegin 0%N; EvDial 0 0%N]
    (no_conn (one_client None)) _ _ _ _ 0%N).
  - by repeat constructor.
  - intros h. done.
  - vm_compute. reflexivity.
Defined.
Lemma redial_doubles_witness :
  ∃ c, steps elements [EvClosed 0 0%N peer_addr 0 (Closed TimedOut); EvBegin 0%N; EvSend 500 0%N (Ok tt)]
         (connected (one_client (Some peer_addr)) 0%N peer_addr 0) = Some c ∧
    tasks c = [Dialing 0%N; Spawned 0%N].
Proof. apply (redial_doubles elements _ 0%N peer_addr 0 {[V4 7]}); [done|vm_compute; done|done]. Defined.
Lemma stale_supervisor_witness :
  ∃ c, steps elements [EvSend 0 0%N (Err Truncated); EvSend 0 0%N (Ok tt); EvBegin 0%N;
                       EvEnd 0 0%N (inr peer_addr) (Ok tt); EvClosed 0 0%N peer_addr 0 (Closed LocallyClosed)]
         (connected (one_client (Some peer_addr)) 0%N peer_addr 0) = Some c ∧
    peers c = ∅ ∧ get_active_addr 0%N (client_manager c) = None ∧ tasks c = [Supervising 0%N peer_addr 1].
Proof. apply (stale_supervisor elements _ 0%N peer_addr 0 {[V4 7]}); [done|vm_compute; done|done|done]. Defined.

(** * The end of a session *)

Section ends.
Context {S : Type} `{SlabLaws S}.
Implicit Types (c : Conn (S := S)) (h : ClientHandle).

(** The reasons after which the supervisor dials again. *)
Definition redials (reason : ConnectionError) : Prop :=
  reason = TimedOut ∨ ∃ code, reason = ApplicationClosed code ∧ (code mod 2 ^ 32)%Z = WAKE_CLOSE_CODE.

Lemma should_retry_spec reason : should_retry_after_close reason = true ↔ redials reason.
Proof.
  unfold redials. destruct reason as [| | |code| | | |]; cbn;
    try (split; [by intros [=]|by intros [?|(? & ? & ?)]]).
  - rewrite bool_decide_eq_true. unfold wrapU. split; [intros E; right; by exists code|].
    by intros [?|(? & [= ->] & ?)].
  - split; [by left|done].
Qed.

(** However a session ends, its peer is no longer registered and the
    client has no active address, so that the next [send] dials.  The supervisor
    dials by itself, and counts a failure, only when the session timed out or the
    peer closed it with the wake code: not when this side closed it, as the
    watchdog does. *)
Theorem supervisor_ends now h addr result c :
  is_Some (slab_get h (client_manager c)) →
  let c' := supervisor_end now h addr result c in
  peers c' !! addr = None ∧ get_active_addr h (client_manager c') = None ∧
  connecting c' = connecting c ∧
  ((∃ reason, result = Closed reason ∧ redials reason) ∧ tasks c' = tasks c ++ [Spawned h] ∧
     retry_state c' = record_retry_failure now h (retry_state c) ∨
   (∀ reason, result = Closed reason → ¬ redials reason) ∧ tasks c' = tasks c ∧
     retry_state c' = retry_state c).
Proof.
  intros Hs. assert (∀ f, f = set_active h None (set_peers (delete addr (peers c)) c) →
    peers f !! addr = None ∧ get_active_addr h (client_manager f) = None) as Hf.
  { intros f ->. cbn. split; [apply lookup_delete_eq|by apply get_active_set]. }
  destruct (Hf _ eq_refl) as [Hp Ha]. unfold supervisor_end.
  destruct result as [|e|reason|]; try (split_and!; [done..|right; by split_and!]).
  destruct (should_retry_after_close reason) eqn:E; (split_and!; [done..|]).
  - left. split_and!; [|done..]. exists reason. split; [done|]. by apply should_retry_spec.
  - right. split_and!; [|done..]. intros r [= <-] Hr. apply should_retry_spec in Hr. congruence.
Qed.
End ends.
Lemma supervisor_ends_witness :
  let c := connected (one_client (Some peer_addr)) 0%N peer_addr 0 in
  tasks (supervisor_end 0 0%N peer_addr (Closed LocallyClosed) c) = tasks c.
Proof.
  intros c. destruct (supervisor_ends 0 0%N peer_addr (Closed LocallyClosed) c) as (_ & _ & _ & [(Hr & _)|(_ & Ht & _)]).
  - by eexists.
  - destruct Hr as (reason & [= <-] & [|(? & ? & _)]); done.
  - exact Ht.
Defined.

(** * Heartbeat and watchdog *)

(** [ping_heartbeat_task] over the ticks of its timer. *)
Fixpoint ping_heartbeat_task (ping : ST Session Error unit) (ticks : nat) : ST Session Error unit :=
  match ticks with
  | O => mret tt
  | S ticks => λ s,
      match ping s with
      | (Ok _, s) => ping_heartbeat_task ping ticks s
      | (Err _, s) => (Ok tt, s)
      | (Panic, s) => (Panic, s)
      | (Diverge, s) => (Diverge, s)
      end
  end.
Definition ping open_ok write_ok finish_ok max_datagram_size datagram_ok : ST Session Error unit :=
  send_input open_ok write_ok finish_ok max_datagram_size datagram_ok ProtoEvent.Ping default_channels.

(** What the watchdog sees: the forwarder meets a [Pong], or its timer ticks. *)
Inductive Heard : Type := HeardPong (now : Z) | Tick (now : Z).

(** [pong_health_watchdog]: the instant at which it closes the connection and
    reports the peer as lost. *)
Fixpoint pong_health_watchdog (threshold last_pong_at : Z) (evs : list Heard) : option Z :=
  match evs with
  | [] => None
  | HeardPong now :: evs => pong_health_watchdog threshold now evs
  | Tick now :: evs =>
      if (threshold <? now - last_pong_at)%Z then Some now
      else pong_health_watchdog threshold last_pong_at evs
  end.

(** The stream-A forwarder: the instant of the last [Pong], and what reaches the
    capture task.  [false] ends the task. *)
Record Forwarder : Type := mkForwarder { last_pong_at : Z; recv_tx : list (ClientHandle * ProtoEvent) }.

Definition is_pong (e : ProtoEvent) : bool := match e with ProtoEvent.Pong _ => true | _ => false end.

Definition forwarder_turn {S} `{Slab S} (receiver : nat → bool) (now : Z) (clients : S)
    (addr : SocketAddr) (event : ProtoEvent) (f : Forwarder) : bool * Forwarder :=
  let last := if is_pong event then now else last_pong_at f in
  match get_client addr clients with
  | Some handle =>
      if receiver (length (recv_tx f)) then (true, mkForwarder last (recv_tx f ++ [(handle, event)]))
      else (false, mkForwarder last (recv_tx f))
  | None => (true, mkForwarder last (recv_tx f))
  end.

(** The timer ticks every [PONG_HEALTH_TICK] after [tick]. *)
Fixpoint on_schedule (tick : Z) (evs : list Heard) : Prop :=
  match evs with
  | [] => True
  | HeardPong now :: evs => (tick ≤ now ≤ tick + PONG_HEALTH_TICK)%Z ∧ on_schedule tick evs
  | Tick now :: evs => now = (tick + PONG_HEALTH_TICK)%Z ∧ on_schedule now evs
  end.
Fixpoint last_heard (last : Z) (evs : list Heard) : Z :=
  match evs with
  | [] => last
  | HeardPong now :: evs => last_heard now evs
  | Tick _ :: evs => last_heard last evs
  end.

Lemma watchdog_app threshold last evs1 evs2 :
  pong_health_watchdog threshold last (evs1 ++ evs2) =
  match pong_health_watchdog threshold last evs1 with
  | Some t => Some t
  | None => pong_health_watchdog threshold (last_heard last evs1) evs2
  end.
Proof.
  revert last. induction evs1 as [|[now|now] evs1 IH]; intros last; cbn; [done|apply IH|].
  by destruct (threshold <? now - last)%Z.
Qed.

(** Between two ticks the last [Pong] is at most one threshold before the first
    of them. *)
Lemma watchdog_fires_between tick last evs t :
  on_schedule tick evs → (tick - last ≤ PONG_HEALTH_TIMEOUT)%Z →
  pong_health_watchdog PONG_HEALTH_TIMEOUT last evs = Some t →
  ∃ pre post, evs = pre ++ Tick t :: post ∧
    (PONG_HEALTH_TIMEOUT < t - last_heard last pre ≤ PONG_HEALTH_TIMEOUT + PONG_HEALTH_TICK)%Z.
Proof.
  revert tick last. induction evs as [|[now|now] evs IH]; intros tick last; cbn [on_schedule pong_health_watchdog]; [done|..].
  - intros [Hn Hs] Hl E. destruct (IH tick now Hs ltac:(unfold PONG_HEALTH_TIMEOUT in *; lia) E) as (pre & post & -> & Hb).
    by exists (HeardPong now :: pre), post.
  - intros [Hn Hs] Hl. destruct (PONG_HEALTH_TIMEOUT <? now - last)%Z eqn:Eb.
    + intros [= <-]. exists [], evs. split; [done|]. cbn [last_heard]. apply Z.ltb_lt in Eb. lia.
    + intros E. apply Z.ltb_ge in Eb. destruct (IH now last Hs Eb E) as (pre & post & -> & Hb).
      by exists (Tick now :: pre), post.
Qed.
Lemma silent_ticks tick n :
  on_schedule tick ((λ k, Tick (tick + PONG_HEALTH_TICK * Z.of_nat (S k))) <$> seq 0 n) ∧
  (∀ last evs, (PONG_HEALTH_TIMEOUT < tick + PONG_HEALTH_TICK * Z.of_nat n - last)%Z → n ≠ 0 →
    pong_health_watchdog PONG_HEALTH_TIMEOUT last
      (((λ k, Tick (tick + PONG_HEALTH_TICK * Z.of_nat (S k))) <$> seq 0 n) ++ evs) ≠ None).
Proof.
  split.
  - revert tick. induction n as [|n IH]; intros tick; [done|]. cbn [seq fmap list_fmap on_schedule].
    split; [lia|]. rewrite <- fmap_S_seq, <- list_fmap_compose.
    replace (tick + PONG_HEALTH_TICK * Z.of_nat 1)%Z with (tick + PONG_HEALTH_TICK)%Z by lia.
    specialize (IH (tick + PONG_HEALTH_TICK)%Z). erewrite list_fmap_ext; [exact IH|].
    intros i k _. cbn. f_equal. lia.
  - intros last evs Hl Hn. destruct n as [|n]; [done|]. rewrite seq_S, fmap_app, <- app_assoc, watchdog_app.
    destruct (pong_health_watchdog _ _ _) as [|]; [done|]. cbn [fmap list_fmap app pong_health_watchdog].
    assert (∀ l, last_heard last ((λ k, Tick (tick + PONG_HEALTH_TICK * Z.of_nat (S k))) <$> l) = last) as ->.
    { intros l. by induction l. }
    rewrite (proj2 (Z.ltb_lt _ _)); [done|]. cbn [plus]. lia.
Qed.

(** The watchdog closes a connection only when no [Pong] came for more than
    3.5 s, and at most 4 s after the last one; and when eight ticks pass after
    a [Pong] without another one it has closed it. *)
Theorem watchdog_bounds tick last evs :
  on_schedule tick evs → (tick - last ≤ PONG_HEALTH_TIMEOUT)%Z →
  (∀ t, pong_health_watchdog PONG_HEALTH_TIMEOUT last evs = Some t →
     ∃ pre post, evs = pre ++ Tick t :: post ∧ (3500 < t - last_heard last pre ≤ 4000)%Z) ∧
  (∀ pre t post, evs = pre ++ Tick t :: post → pong_health_watchdog PONG_HEALTH_TIMEOUT last evs = None →
     (t - last_heard last pre ≤ 3500)%Z) ∧
  (∀ now post, (now < tick + 500)%Z →
     pong_health_watchdog PONG_HEALTH_TIMEOUT last
       (HeardPong now :: ((λ k, Tick (tick + 500 * Z.of_nat (S k))) <$> seq 0 8) ++ post) ≠ None).
Proof.
  intros Hs Hl. split_and!.
  - intros t Ht. by eapply watchdog_fires_between.
  - intros pre t post -> Hn. rewrite watchdog_app in Hn.
    destruct (pong_health_watchdog _ _ pre); [done|]. cbn [pong_health_watchdog] in Hn.
    destruct (_ <? _)%Z eqn:E in Hn; [done|]. apply Z.ltb_ge in E. exact E.
  - intros now post Hn. cbn [app pong_health_watchdog].
    apply (proj2 (silent_ticks tick 8)); [|done]. unfold PONG_HEALTH_TIMEOUT, PONG_HEALTH_TICK. lia.
Qed.
Lemma watchdog_bounds_witness :
  pong_health_watchdog PONG_HEALTH_TIMEOUT 0
    (HeardPong 400 :: ((λ k, Tick (0 + 500 * Z.of_nat (S k))) <$> seq 0 8) ++ []) ≠ None.
Proof. apply (watchdog_bounds 0 0 []); [done|unfold PONG_HEALTH_TIMEOUT; lia|lia]. Defined.

(** * The streams the peer opens *)

(** The dispatcher of the listening side with a second channel: clipboard events
    take the one of [Dispatch], input events that of the capture task. *)
Record ClientDispatch : Type := mkClient { base : Dispatch; to_capture : list (ClientHandle * ProtoEvent) }.

Abbreviation CD := (ST ClientDispatch Error).

Definition on_base {A} (m : D A) : CD A := λ c,
  let '(res, d) := m (base c) in (res, mkClient d (to_capture c)).

Section client_dispatch.
Context {S : Type} `{Slab S}.
(** Whether the [n]-th event still finds the clipboard dispatcher, and the
    capture task; the clients; the peer; the rest as on the listening side. *)
Variable receiver capture : nat → bool.
Variable clients : S.
Variable remote : SocketAddr.
Variable accept : nat → option nat.
Variable order : gmap string Handler → list (string * Handler).
Variable now : Z.

Definition send_capture (event : ProtoEvent) : CD bool := λ c,
  match get_client remote clients with
  | Some handle =>
      if capture (length (to_capture c)) then (Ok true, mkClient (base c) (to_capture c ++ [(handle, event)]))
      else (Ok false, c)
  | None => (Ok true, c)
  end.

(** A stream that is no request.  The [continue]s drop the stream. *)
Definition client_framed_turn (len : nat) (recv : RecvStream) : CD bool :=
  if decide (MAX_EVENT_SIZE < len) then
    match read_exact len recv with
    | (inr _, _) => mret true
    | (inl body, recv) =>
        match decode_slice body with
        | Ok event => on_base (deliver_first receiver event recv true)
        | Err _ => mret true
        | Panic => panic
        | Diverge => λ c, (Diverge, c)
        end
    end
  else if decide (len ≠ MAX_EVENT_SIZE) then mret true
  else
    match read_exact len recv with
    | (inr _, _) => mret true
    | (inl body, recv) =>
        match Fixed.decode body with
        | Ok event =>
            ok ← send_capture event;
            if ok : bool then on_base (spawn_reader event recv false) ≫= λ _, mret true else mret false
        | Err _ => mret true
        | Panic => panic
        | Diverge => λ c, (Diverge, c)
        end
    end.

Definition client_turn (recv : RecvStream) : CD bool :=
  match read_exact 4 recv with
  | (inr _, _) => on_base park ≫= λ _, mret true
  | (inl prefix, recv) =>
      if looks_like_http3_request prefix
      then on_base (serve accept order now (chain prefix recv)) ≫= λ _, mret true
      else client_framed_turn (Z.to_nat (be_val prefix)) recv
  end.

Fixpoint client_accept_bi_task (bidis : list RecvStream) : CD unit :=
  match bidis with
  | [] => mret tt
  | recv :: bidis =>
      go ← client_turn recv;
      if go : bool then client_accept_bi_task bidis else mret tt
  end.

(** [client_stream_b_reader_task]; the one for stream C is the listener's. *)
Fixpoint client_b_loop (fuel n : nat) (recv : RecvStream)
    : list (ClientHandle * ProtoEvent) * outcome Error unit :=
  match fuel with
  | O => ([], Diverge)
  | Datatypes.S fuel =>
      match read_frame recv with
      | (Ok event, recv) =>
          match get_client remote clients with
          | Some handle =>
              if capture n then
                let '(evs, res) := client_b_loop fuel (Datatypes.S n) recv in ((handle, event) :: evs, res)
              else ([], Ok tt)
          | None => client_b_loop fuel n recv
          end
      | (Err (HelloFailed msg), recv) =>
          if starts_with "decode frame" msg then client_b_loop fuel n recv else ([], Ok tt)
      | (Err _, _) => ([], Ok tt)
      | (Panic, _) => ([], Panic)
      | (Diverge, _) => ([], Diverge)
      end
  end.
Definition client_stream_b_reader_task (recv : RecvStream) :=
  client_b_loop (Datatypes.S (length (r_bytes recv))) 0 recv.

(** ** No stream stops the dispatcher *)

(** The one stream that panics: a frame of 21 bytes with the type of a clipboard
    event. *)
Definition poison (recv : RecvStream) : Prop :=
  ∃ b0 body tl t, r_bytes recv = frame_of (b0 :: body) ++ tl ∧ length body = 20 ∧
    EventType.try_from (Z_of_byte b0) = Some t ∧ EventType.is_fixed t = false.

End client_dispatch.

Section client_turns.
Context {S : Type} `{Slab S} (clients : S) (remote : SocketAddr).
Context (accept : nat → option nat) (order : gmap string Handler → list (string * Handler)) (now : Z).

Abbreviation turn := (client_turn (λ _, true) (λ _, true) clients remote accept order now).
Abbreviation task := (client_accept_bi_task (λ _, true) (λ _, true) clients remote accept order now).

Lemma framed_goes_on len recv c :
  ¬ (∃ b0 body tl t, r_bytes recv = b0 :: body ++ tl ∧ len = 21 ∧ length body = 20 ∧
       EventType.try_from (Z_of_byte b0) = Some t ∧ EventType.is_fixed t = false) →
  ∃ c', client_framed_turn (λ _, true) (λ _, true) clients remote len recv c = (Ok true, c') ∧
    responses (base c') = responses (base c).
Proof.
  change 21 with MAX_EVENT_SIZE. intros Hp. unfold client_framed_turn. case_decide as Hlen.
  - destruct (read_exact len recv) as [[body|] recv']; [|by exists c].
    pose proof (decode_slice_safe body) as Hs. destruct (decode_slice body); try done; [|by exists c].
    eexists. split; [reflexivity|done].
  - case_decide as Hne; [by exists c|]. unfold read_exact. case_decide as Hl; [by exists c|].
    assert (len = MAX_EVENT_SIZE) as -> by (destruct (decide (len = MAX_EVENT_SIZE)); tauto).
    set (body := take MAX_EVENT_SIZE (r_bytes recv)).
    assert (length body = 21) as Hb by (unfold body; change MAX_EVENT_SIZE with 21 in *; rewrite length_take; lia).
    destruct (padded_panics body ltac:(lia)) as [Hd Hpan].
    assert (zero_padded body = body) as Hz.
    { unfold zero_padded. change MAX_EVENT_SIZE with 21. by rewrite Hb, app_nil_r. }
    rewrite Hz in Hd, Hpan. destruct (Fixed.decode body) as [event|err| |] eqn:E; [|by exists c| |done].
    + unfold send_capture, mbind, ST_bind. destruct (get_client remote clients); eexists; (split; [reflexivity|done]).
    + exfalso. destruct (proj1 Hpan eq_refl) as (b0 & rest & t & Hr & Ht & Hf). apply Hp.
      exists b0, rest, (drop MAX_EVENT_SIZE (r_bytes recv)), t.
      rewrite app_comm_cons, <- Hr. unfold body at 1. rewrite take_drop. split_and!; try done.
      rewrite Hr in Hb. cbn in Hb. lia.
Qed.

Lemma turn_goes_on recv c : ¬ poison recv → ∃ c', turn recv c = (Ok true, c').
Proof.
  intros Hp. unfold client_turn. unfold read_exact. case_decide as Hl.
  { eexists. reflexivity. }
  destruct (looks_like_http3_request _).
  { unfold on_base, serve, modify_st, mbind, ST_bind. destruct (handle_http3_stream _ _ _ _ _ _). eexists. reflexivity. }
  destruct (framed_goes_on (Z.to_nat (be_val (take 4 (r_bytes recv)))) (mkRecv (drop 4 (r_bytes recv)) (r_end recv)) c)
    as (c' & -> & _); [|eauto].
  intros (b0 & body & tl & t & Hr & Hn & Hb & Ht & Hf). apply Hp. exists b0, body, tl, t. split_and!; try done.
  cbn [r_bytes] in Hr. rewrite <- (take_drop 4 (r_bytes recv)), Hr.
  unfold frame_of. cbn [length]. rewrite Hb, <- app_assoc. cbn [app]. f_equal.
  pose proof (be_val_bound (take 4 (r_bytes recv))) as Hv.
  rewrite <- (be_bytes_be_val (take 4 (r_bytes recv))) at 1. rewrite length_take, min_l by lia. f_equal. lia.
Qed.

(** On the dialling side a stream with a bad first frame is dropped and the
    dispatcher goes on, unlike on the listening side: as long as the channels are
    open and no stream starts with the one frame that panics, a request that
    comes after any streams is answered. *)
Theorem client_keeps_serving bidis path e c :
  Forall (λ r, ¬ poison r) bidis →
  ∃ c1 c2, task bidis c = (Ok tt, c1) ∧
    task (bidis ++ [mkRecv (encode_request "GET" path []) e]) c = (Ok tt, c2) ∧
    responses (base c2) = responses (base c1) ++
      [fst (handle_http3_stream accept order default_router_with_caches now
              (mkRecv (encode_request "GET" path []) e) (caches (base c1)))].
Proof.
  intros Hp. revert c. induction Hp as [|recv bidis Hr Hp IH]; intros c.
  - exists c. pose proof (take_prefix "GET" path []) as Hl. cbn [app client_accept_bi_task].
    unfold client_turn. unfold read_exact at 1. cbn [r_bytes r_end]. rewrite decide_False by lia.
    change (looks_like_http3_request (take 4 (encode_request "GET" path []))) with true. cbn match.
    unfold chain. cbn [r_bytes r_end]. rewrite take_drop.
    unfold on_base, serve, modify_st, mbind, ST_bind.
    destruct (handle_http3_stream _ _ _ _ _ _) as [send cs]. eexists. by split_and!.
  - destruct (turn_goes_on recv c Hr) as [c0 E0]. destruct (IH c0) as (c1 & c2 & E1 & E2 & H2).
    exists c1, c2. cbn [app client_accept_bi_task]. unfold mbind, ST_bind. by rewrite E0.
Qed.

(** What [send_input] puts on stream B passes this dispatcher only when its body
    has all 21 bytes; any other first frame drops the stream. *)
Lemma client_short_frames body tl ending c :
  length body < MAX_EVENT_SIZE → turn (mkRecv (frame_of body ++ tl) ending) c = (Ok true, c).
Proof.
  change MAX_EVENT_SIZE with 21. intros Hl. unfold client_turn, frame_of. rewrite <- app_assoc.
  pose proof (read_exact_app (be_bytes 4 (Z.of_nat (length body))) (body ++ tl) ending) as E.
  rewrite length_be_bytes in E. rewrite E.
  destruct (looks_like_http3_request _) eqn:El; [apply looks_like_length in El; lia|].
  rewrite be_val_be_bytes, Nat2Z.id by (unfold inU; lia). unfold client_framed_turn.
  change MAX_EVENT_SIZE with 21. rewrite decide_False, decide_True by lia. done.
Qed.
End client_turns.

Definition fresh_client : ClientDispatch := mkClient fresh_dispatch [].
Lemma client_keeps_serving_witness :
  ∃ c1 c2,
    client_accept_bi_task (λ _, true) (λ _, true) (one_client None) peer_addr (λ _, None) map_to_list 0
      [mkRecv (frame_of [xff]) Transport.UnexpectedEof] fresh_client = (Ok tt, c1) ∧
    client_accept_bi_task (λ _, true) (λ _, true) (one_client None) peer_addr (λ _, None) map_to_list 0
      [mkRecv (frame_of [xff]) Transport.UnexpectedEof;
       mkRecv (encode_request "GET" "/healthz" []) Transport.UnexpectedEof] fresh_client = (Ok tt, c2) ∧
    responses (base c2) = responses (base c1) ++
      [fst (handle_http3_stream (λ _, None) map_to_list default_router_with_caches 0
              (mkRecv (encode_request "GET" "/healthz" []) Transport.UnexpectedEof) (caches (base c1)))].
Proof.
  apply (client_keeps_serving (one_client None) peer_addr (λ _, None) map_to_list 0
    [mkRecv (frame_of [xff]) Transport.UnexpectedEof] "/healthz" Transport.UnexpectedEof fresh_client).
  constructor; [|constructor]. intros (b0 & body & tl & t & Hr & Hb & _).
  apply (f_equal length) in Hr. unfold frame_of in Hr. cbn [r_bytes] in Hr.
  rewrite !length_app, !length_be_bytes in Hr. cbn [length] in Hr. lia.
Defined.
