(* ===== verification/Tls.v ===== *)
(** Who may connect (src/quic_transport/tls.rs, src/crypto.rs): the fingerprint
    of a certificate, the pin that the dialling side keeps for every peer, the
    allow list of the listening side, and the way from a refused certificate over
    the listener, the listen task and the service to an accepted one.

    The hash function is a parameter.  The directory of the pins is a map from
    file names to contents; which calls on it fail, and how far a failing write
    came, are arguments. *)

From Stdlib Require Import Strings.Ascii.
From stdpp Require Import pretty.
From S2P Require Import Prelude InputEvent Proto Codec Wire Transport Text Http3 Net.
From S2P Require Import Clients CaptureTask Config Toml Service Emulation Session Listen.

(** * Fingerprints *)

Section fingerprint.
Variable sha256 : list byte → list byte.

Definition generate_fingerprint (cert : list byte) : string :=
  Str.to_lowercase (join ":" ((λ x, full_hex [x]) <$> sha256 cert)).
End fingerprint.

(** * Pins *)

(** The continuation bytes of a character are passed over: it counts once. *)
Definition pin_char (c : ascii) : bool :=
  Str.is_ascii_alphanumeric c || bool_decide (c = "."%char) || bool_decide (c = "-"%char) ||
  bool_decide (c = "_"%char).
Fixpoint safe_chars (s : string) : string :=
  match s with
  | "" => ""
  | String c s =>
      if is_cont (byte_of_ascii c) then safe_chars s
      else String (if pin_char c then c else "_"%char) (safe_chars s)
  end.
Definition sanitize_peer_key (peer_key : string) : string :=
  let safe := safe_chars peer_key in
  if decide (safe = "") then "unnamed-peer"
  else if Str.all (λ c, bool_decide (c = "."%char)) safe then "unnamed-peer"
  else safe.

Definition pin_path (peer_key : string) : string := sanitize_peer_key peer_key +:+ ".pin".

Abbreviation Pins := (gmap string (list byte)).

(** How the calls on the files of one verification end: [write_cut] is [None]
    when the write succeeds, [Some None] when the file cannot be opened, and
    [Some (Some k)] when it was truncated and [k] bytes were written. *)
Record Io : Type := mkIo { mkdir_ok : bool; read_ok : bool; write_cut : option (option nat) }.
Definition fine : Io := mkIo true true None.

Inductive TofuError : Type := CreateDirFailed | TofuMismatch (pinned : string) | WritePinFailed | ReadPinFailed.

Section tofu.
Variable sha256 : list byte → list byte.
Abbreviation fp := (generate_fingerprint sha256).

Definition write_pin (io : Io) (name text : string) : ST Pins TofuError unit := λ fs,
  match write_cut io with
  | None => (Ok tt, <[name := as_bytes text]> fs)
  | Some None => (Err WritePinFailed, fs)
  | Some (Some k) => (Err WritePinFailed, <[name := take k (as_bytes text)]> fs)
  end.

Definition verify_server_cert (io : Io) (peer_key : string) (cert : list byte) : ST Pins TofuError unit := λ fs,
  if negb (mkdir_ok io) then (Err CreateDirFailed, fs)
  else if negb (read_ok io) then (Err ReadPinFailed, fs)
  else match fs !! pin_path peer_key with
  | Some content =>
      match from_utf8 content with
      | None => (Err ReadPinFailed, fs)
      | Some text =>
          let pinned := trim text in
          if decide (pinned = fp cert) then (Ok tt, fs) else (Err (TofuMismatch pinned), fs)
      end
  | None => write_pin io (pin_path peer_key) (fp cert +:+ String "010" "") fs
  end.

(** The verifications of a run of the program, and of later ones. *)
Definition attempt : Type := Io * string * list byte.
Fixpoint verify_all (l : list attempt) (fs : Pins) : list (outcome TofuError unit) * Pins :=
  match l with
  | [] => ([], fs)
  | (io, key, cert) :: l =>
      let '(r, fs) := verify_server_cert io key cert fs in
      let '(rs, fs) := verify_all l fs in (r :: rs, fs)
  end.
End tofu.

(** * The allow list *)

(** [AuthorizedKeysVerifier]: [rejection_tx], when there is one, holds the
    fingerprints sent and whether the receiver is alive. *)
Definition verify_client_cert (sha256 : list byte → list byte) (allowlist : gmap string string)
    (cert : list byte) : ST (option (bool * list string)) string unit := λ tx,
  let fp := generate_fingerprint sha256 cert in
  if decide (is_Some (allowlist !! fp)) then (Ok tt, tx)
  else (Err ("unauthorized peer " +:+ fp),
        (λ '(alive, sent), (alive, if alive : bool then sent ++ [fp] else sent)) <$> tx).

(** ** Fingerprints are injective *)

Lemma lower_hex x : Str.to_lowercase (full_hex [x]) = full_hex [x].
Proof. by destruct x. Qed.
Lemma to_lowercase_app s t : Str.to_lowercase (s +:+ t) = Str.to_lowercase s +:+ Str.to_lowercase t.
Proof. induction s as [|c s IH]; [done|]. rewrite !app_cons. cbn [Str.to_lowercase]. by rewrite IH, app_cons. Qed.
Lemma lower_join l : Str.to_lowercase (join ":" ((λ x, full_hex [x]) <$> l)) = join ":" ((λ x, full_hex [x]) <$> l).
Proof.
  induction l as [|x [|y l] IH]; [done|apply lower_hex|].
  change (join ":" ((λ x, full_hex [x]) <$> x :: y :: l))
    with (full_hex [x] +:+ ":" +:+ join ":" ((λ x, full_hex [x]) <$> y :: l)).
  by rewrite !to_lowercase_app, IH, lower_hex.
Qed.

Lemma full_hex_inj1 x y : full_hex [x] = full_hex [y] → x = y.
Proof.
  intros E. pose proof (decode_full_hex [x]) as Hx. rewrite E, decode_full_hex in Hx. congruence.
Qed.
(** Two hexadecimal digits, and what follows. *)
Lemma hex_pair x y s t : full_hex [x] +:+ s = full_hex [y] +:+ t → x = y ∧ s = t.
Proof.
  rewrite !full_hex_cons, !app_cons. intros [= E1 E2 Es].
  split; [|exact Es].
  apply full_hex_inj1. rewrite !full_hex_cons. by rewrite E1, E2.
Qed.
Lemma join_hex_inj l1 l2 :
  join ":" ((λ x, full_hex [x]) <$> l1) = join ":" ((λ x, full_hex [x]) <$> l2) → l1 = l2.
Proof.
  revert l2. induction l1 as [|x l1 IH]; intros [|y l2]; [done|by destruct l2|by destruct l1|].
  assert (∀ z l, join ":" ((λ x, full_hex [x]) <$> z :: l) =
    full_hex [z] +:+ match l with [] => "" | _ => ":" +:+ join ":" ((λ x, full_hex [x]) <$> l) end) as Hj.
  { intros z [|w l]; [|done]. cbn [fmap list_fmap join]. by rewrite app_empty_r. }
  rewrite !Hj. intros [-> E]%hex_pair. f_equal. destruct l1, l2; [done|done|done|].
  rewrite !app_cons in E. injection E as E. by apply IH.
Qed.
Lemma fingerprint_inj sha256 c1 c2 :
  generate_fingerprint sha256 c1 = generate_fingerprint sha256 c2 → sha256 c1 = sha256 c2.
Proof. unfold generate_fingerprint. rewrite !lower_join. apply join_hex_inj. Qed.

(** ** The text of a pin *)

Definition graphic (c : ascii) : bool := let n := N_of_ascii c in ((33 <=? n) && (n <=? 126))%N.

Lemma graphic_hex x : Str.all graphic (full_hex [x]) = true.
Proof. by destruct x. Qed.
Lemma graphic_fingerprint sha256 cert : Str.all graphic (generate_fingerprint sha256 cert) = true.
Proof.
  unfold generate_fingerprint. rewrite lower_join. induction (sha256 cert) as [|x [|y l] IH]; [done|apply graphic_hex|].
  change (join ":" ((λ x, full_hex [x]) <$> x :: y :: l))
    with (full_hex [x] +:+ ":" +:+ join ":" ((λ x, full_hex [x]) <$> y :: l)).
  by rewrite !all_app, graphic_hex, IH.
Qed.
Lemma graphic_is_ascii s : Str.all graphic s = true → Str.all is_ascii s = true.
Proof.
  apply all_impl. intros c. unfold graphic, is_ascii. intros [_ H]%andb_true_iff.
  apply N.leb_le in H. apply N.ltb_lt. lia.
Qed.

Lemma strip_any_graphic ps c l :
  forallb (λ p, match p with x :: _ => negb (graphic x) | [] => false end) ps = true →
  graphic c = true → strip_any ps (c :: l) = None.
Proof.
  intros Hps Hc. induction ps as [|[|x p] ps IH]; [done|done|]. cbn in Hps |- *.
  apply andb_true_iff in Hps as [Hx Hps]. rewrite decide_False by (intros ->; by rewrite Hc in Hx). by apply IH.
Qed.
Lemma strip_all_graphic ps fuel l :
  forallb (λ p, match p with x :: _ => negb (graphic x) | [] => false end) ps = true →
  forallb graphic l = true → strip_all fuel ps l = l.
Proof.
  intros Hps Hl. destruct fuel as [|fuel]; [done|]. cbn [strip_all]. destruct l as [|c l].
  - enough (strip_any ps [] = None) as -> by done. clear Hl.
    induction ps as [|[|x p] ps IH]; [done|done|]. cbn in Hps |- *. apply IH. by destruct (negb _).
  - cbn in Hl. apply andb_true_iff in Hl as [Hc _]. by rewrite strip_any_graphic.
Qed.
Lemma forallb_rev (p : ascii → bool) l : forallb p l = true → forallb p (rev l) = true.
Proof. rewrite !forallb_forall. intros H x Hx. by apply H, in_rev. Qed.
Lemma all_forallb p s : Str.all p s = forallb p (String.list_ascii_of_string s).
Proof. induction s as [|c s IH]; [done|]. cbn. by rewrite IH. Qed.
Lemma all_of_bytes p l1 l2 : Str.all p (of_bytes (l1 ++ l2)) = Str.all p (of_bytes l1) && Str.all p (of_bytes l2).
Proof. unfold of_bytes. induction l1 as [|b l1 IH]; [done|].
  change (Str.all p (String.string_of_list_byte ((b :: l1) ++ l2)))
    with (p (ascii_of_byte b) && Str.all p (String.string_of_list_byte (l1 ++ l2))).
  rewrite IH. apply andb_assoc. Qed.
Lemma list_ascii_app s t :
  String.list_ascii_of_string (s +:+ t) = String.list_ascii_of_string s ++ String.list_ascii_of_string t.
Proof. induction s as [|c s IH]; [done|]. rewrite app_cons. cbn. by rewrite IH. Qed.

(** A graphic text with or without a newline is itself after [trim]. *)
Lemma trim_graphic s : Str.all graphic s = true → trim s = s.
Proof.
  rewrite all_forallb. intros Hs. unfold trim.
  rewrite (strip_all_graphic _ _ (String.list_ascii_of_string s)) by done.
  rewrite strip_all_graphic, rev_involutive by (done || by apply forallb_rev).
  apply String.string_of_list_ascii_of_string.
Qed.
Lemma trim_line s : Str.all graphic s = true → trim (s +:+ String "010" "") = s.
Proof.
  destruct s as [|c s]; [done|]. rewrite all_forallb. intros Hs. unfold trim. rewrite list_ascii_app.
  set (l := String.list_ascii_of_string (String c s)) in *.
  assert (∀ fuel, strip_all fuel (map String.list_ascii_of_string white_space) (l ++ ["010"%char]) = l ++ ["010"%char]) as ->.
  { intros [|fuel]; [done|]. unfold l. cbn [strip_all String.list_ascii_of_string app].
    rewrite strip_any_graphic; [done|done|]. unfold l in Hs. cbn in Hs. by apply andb_true_iff in Hs as [? _]. }
  rewrite rev_app_distr, length_app, Nat.add_1_r. cbn [rev app String.list_ascii_of_string].
  change (strip_all (S (length l)) (map (rev (A:=ascii)) (map String.list_ascii_of_string white_space)) ("010"%char :: rev l))
    with (strip_all (length l) (map (rev (A:=ascii)) (map String.list_ascii_of_string white_space)) (rev l)).
  rewrite strip_all_graphic, rev_involutive by (done || by apply forallb_rev).
  apply String.string_of_list_ascii_of_string.
Qed.

Lemma from_utf8_graphic s t : Str.all graphic s = true → Str.all is_ascii t = true →
  from_utf8 (as_bytes (s +:+ t)) = Some (s +:+ t).
Proof.
  intros Hs Ht. unfold from_utf8. rewrite ascii_utf8, of_bytes_as_bytes; [done|].
  by rewrite all_app, graphic_is_ascii, Ht.
Qed.

(** * Pinning *)

Section pinning.
Context (sha256 : list byte → list byte).
Abbreviation fp := (generate_fingerprint sha256).
Abbreviation verify := (verify_server_cert sha256).

(** What the file [name] says, as [verify_server_cert] reads it. *)
Definition pins (fs : Pins) (name f : string) : Prop :=
  ∃ content text, fs !! name = Some content ∧ from_utf8 content = Some text ∧ trim text = f.

Lemma verify_keeps_files io key cert fs name content :
  fs !! name = Some content → snd (verify io key cert fs) !! name = Some content.
Proof.
  intros Hn. unfold verify_server_cert. destruct (mkdir_ok io), (read_ok io); try done. cbn.
  destruct (fs !! pin_path key) as [c|] eqn:E.
  - destruct (from_utf8 c); [|done]. by case_decide.
  - assert (name ≠ pin_path key) by congruence. unfold write_pin.
    destruct (write_cut io) as [[k|]|]; cbn; by rewrite ?lookup_insert_ne.
Qed.
Lemma verify_all_keeps l fs name content :
  fs !! name = Some content → snd (verify_all sha256 l fs) !! name = Some content.
Proof.
  revert fs. induction l as [|[[io key] cert] l IH]; intros fs Hn; [done|]. cbn [verify_all].
  pose proof (verify_keeps_files io key cert fs name content Hn) as H1.
  destruct (verify io key cert fs) as [r fs1]. specialize (IH fs1 H1).
  by destruct (verify_all sha256 l fs1).
Qed.
Lemma verify_accepts io key cert fs :
  fst (verify io key cert fs) = Ok tt → pins (snd (verify io key cert fs)) (pin_path key) (fp cert).
Proof.
  unfold verify_server_cert. destruct (mkdir_ok io), (read_ok io); try done. cbn.
  destruct (fs !! pin_path key) as [c|] eqn:E.
  - destruct (from_utf8 c) as [text|] eqn:Et; [|done]. case_decide; [|done]. intros _. by exists c, text.
  - unfold write_pin. destruct (write_cut io) as [[k|]|]; [done|done|]. intros _.
    exists (as_bytes (fp cert +:+ String "010" "")), (fp cert +:+ String "010" "").
    cbn [snd]. rewrite lookup_insert_eq. split_and!; [done| |].
    + apply from_utf8_graphic; [apply graphic_fingerprint|done].
    + apply trim_line, graphic_fingerprint.
Qed.
Lemma verify_pinned io key cert fs f :
  pins fs (pin_path key) f →
  (fst (verify io key cert fs) = Ok tt → f = fp cert) ∧
  (mkdir_ok io = true → read_ok io = true → f = fp cert → fst (verify io key cert fs) = Ok tt).
Proof.
  intros (c & text & Hc & Ht & Hf). unfold verify_server_cert. rewrite Hc, Ht, Hf. cbn zeta.
  destruct (mkdir_ok io), (read_ok io); cbn; (split; [|intros]); try done; by case_decide.
Qed.
Lemma pins_kept l fs name f : pins fs name f → pins (snd (verify_all sha256 l fs)) name f.
Proof. intros (c & text & Hc & H). exists c, text. split; [by apply verify_all_keeps|done]. Qed.

(** The result of an attempt, from the files before it. *)
Lemma verify_all_lookup l fs j io key cert :
  l !! j = Some (io, key, cert) →
  fst (verify_all sha256 l fs) !! j = Some (fst (verify io key cert (snd (verify_all sha256 (take j l) fs)))).
Proof.
  revert fs j. induction l as [|[[io0 key0] cert0] l IH]; intros fs [|j]; cbn [lookup list_lookup]; [done|done|..].
  - intros [= -> -> ->]. cbn. destruct (verify io key cert fs) as [r fs1]. cbn.
    by destruct (verify_all sha256 l fs1).
  - intros Hj. cbn [take verify_all]. destruct (verify io0 key0 cert0 fs) as [r fs1].
    specialize (IH fs1 j Hj). destruct (verify_all sha256 l fs1) as [rs fs2].
    destruct (verify_all sha256 (take j l) fs1) as [rs' fs3]. cbn in IH |- *. done.
Qed.
Lemma verify_all_app l1 l2 fs :
  snd (verify_all sha256 (l1 ++ l2) fs) = snd (verify_all sha256 l2 (snd (verify_all sha256 l1 fs))).
Proof.
  revert fs. induction l1 as [|[[io key] cert] l1 IH]; intros fs; [done|]. cbn [app verify_all].
  destruct (verify io key cert fs) as [r fs1]. specialize (IH fs1).
  destruct (verify_all sha256 (l1 ++ l2) fs1), (verify_all sha256 l1 fs1). exact IH.
Qed.
Lemma pinned_later l fs i j io key cert :
  l !! i = Some (io, key, cert) → i < j → fst (verify_all sha256 l fs) !! i = Some (Ok tt) →
  pins (snd (verify_all sha256 (take j l) fs)) (pin_path key) (fp cert).
Proof.
  intros Hi Hij Hr. rewrite (verify_all_lookup l fs i io key cert Hi) in Hr. injection Hr as Hr.
  apply verify_accepts in Hr.
  assert (take j l = (take i l ++ [(io, key, cert)]) ++ drop (S i) (take j l)) as ->.
  { trans (take (S i) l ++ drop (S i) (take j l)); [|f_equal; by apply take_S_r].
    rewrite <- (take_drop (S i) (take j l)) at 1. f_equal. rewrite take_take. f_equal. lia. }
  rewrite verify_all_app. apply pins_kept. rewrite verify_all_app. cbn [verify_all].
  by destruct (verify io key cert _).
Qed.

(** C9. A peer keeps the certificate it first came with: over any verifications,
    whatever of their file operations fails, two that are accepted for the same
    peer were for certificates with the same hash; and a certificate that was
    accepted once is accepted again as long as the pins can be read, whatever
    other peers, or impostors, presented in between. *)
Theorem first_certificate_stays l fs i j ioi ioj keyi keyj ci cj :
  l !! i = Some (ioi, keyi, ci) → l !! j = Some (ioj, keyj, cj) → i < j →
  pin_path keyi = pin_path keyj → fst (verify_all sha256 l fs) !! i = Some (Ok tt) →
  (fst (verify_all sha256 l fs) !! j = Some (Ok tt) → sha256 ci = sha256 cj) ∧
  (mkdir_ok ioj = true → read_ok ioj = true → sha256 ci = sha256 cj →
   fst (verify_all sha256 l fs) !! j = Some (Ok tt)).
Proof.
  intros Hi Hj Hij Hn Hr. pose proof (pinned_later l fs i j ioi keyi ci Hi Hij Hr) as Hp. rewrite Hn in Hp.
  destruct (verify_pinned ioj keyj cj _ _ Hp) as [H1 H2].
  rewrite (verify_all_lookup l fs j ioj keyj cj Hj). split.
  - intros [= E]. by apply fingerprint_inj, H1.
  - intros Hm Hrd Hs. f_equal. apply H2; [done|done|]. unfold generate_fingerprint. by rewrite Hs.
Qed.

(** A pin whose writing breaks off locks its peer out: the connection is
    refused, the file stays behind with a part of the fingerprint, and from then
    on the certificate that was about to be pinned is refused, whatever happens
    in between. *)
Theorem torn_pin key cert k fs :
  fs !! pin_path key = None → k < String.length (fp cert) →
  let '(r, fs') := verify (mkIo true true (Some (Some k))) key cert fs in
  r = Err WritePinFailed ∧
  ∀ l io, fst (verify io key cert (snd (verify_all sha256 l fs'))) ≠ Ok tt.
Proof.
  intros Hn Hk. unfold verify_server_cert at 1. cbn [mkdir_ok read_ok negb]. rewrite Hn. unfold write_pin. cbn [write_cut].
  split; [done|]. intros l io Hok.
  set (fs1 := <[_ := _]> fs) in Hok.
  assert (pins fs1 (pin_path key) (of_bytes (take k (as_bytes (fp cert))))) as Hp.
  { assert (take k (as_bytes (fp cert +:+ String "010" "")) = take k (as_bytes (fp cert))) as E.
    { rewrite as_bytes_app. rewrite take_app_le; [done|]. rewrite length_as_bytes. lia. }
    pose proof (graphic_fingerprint sha256 cert) as Hg.
    assert (Str.all graphic (of_bytes (take k (as_bytes (fp cert)))) = true) as Hg'.
    { rewrite <- (of_bytes_as_bytes (fp cert)), <- (take_drop k (as_bytes (fp cert))) in Hg.
      rewrite all_of_bytes in Hg. by apply andb_true_iff in Hg as [? _]. }
    exists (take k (as_bytes (fp cert))), (of_bytes (take k (as_bytes (fp cert)))). unfold fs1.
    rewrite E, lookup_insert_eq. split_and!; [done| |by apply trim_graphic].
    pose proof (from_utf8_graphic _ "" Hg' eq_refl) as Hu. by rewrite app_empty_r, as_bytes_of_bytes in Hu. }
  apply (pins_kept l) in Hp. apply (proj1 (verify_pinned io key cert _ _ Hp)) in Hok.
  apply (f_equal (λ s, length (as_bytes s))) in Hok. rewrite as_bytes_of_bytes, length_take, !length_as_bytes in Hok. lia.
Qed.
End pinning.

(** The keys whose pin file has their own name, and the name of every pin file. *)
Definition plain (key : string) : Prop :=
  Str.all pin_char key = true ∧ Str.all (λ c, bool_decide (c = "."%char)) key = false.

Lemma pin_char_no_cont c : pin_char c = true → is_cont (byte_of_ascii c) = false.
Proof. by destruct c as [[] [] [] [] [] [] [] []]. Qed.
Lemma safe_chars_pin s : Str.all pin_char (safe_chars s) = true.
Proof.
  induction s as [|c s IH]; [done|]. cbn [safe_chars]. case_match; [done|]. cbn [Str.all]. rewrite IH, andb_true_r.
  by destruct (pin_char c) eqn:E.
Qed.
Lemma safe_chars_plain s : Str.all pin_char s = true → safe_chars s = s.
Proof.
  induction s as [|c s IH]; [done|]. cbn. intros [Hc Hs]%andb_true_iff.
  by rewrite pin_char_no_cont, Hc, IH by done.
Qed.

(** No pin is written outside its directory, and two peers with plain names do
    not share one. *)
Lemma pin_names key :
  Str.all pin_char (pin_path key) = true ∧ (plain key → pin_path key = key +:+ ".pin").
Proof.
  unfold pin_path, sanitize_peer_key. split.
  - rewrite all_app, andb_true_r. repeat case_match; [done|done|apply safe_chars_pin].
  - intros [Ha Hd]. rewrite safe_chars_plain, Hd by done.
    rewrite decide_False; [done|]. by intros ->.
Qed.
Lemma shared_pin : pin_path "fe80::1" = pin_path "fe80__1".
Proof. done. Qed.

Definition demo_hash (cert : list byte) : list byte := cert.
Definition demo_attempts : list attempt :=
  [(fine, "peer", [x01]); (fine, "peer", [x02]); (mkIo true false None, "peer", [x01]); (fine, "peer", [x01])].
Lemma first_certificate_stays_witness :
  fst (verify_all demo_hash demo_attempts ∅) !! 3 = Some (Ok tt).
Proof.
  apply (first_certificate_stays demo_hash demo_attempts ∅ 0 3 fine fine "peer" "peer" [x01] [x01]);
    [done|done|lia|done|vm_compute; reflexivity|done|done|done].
Defined.
Lemma torn_pin_witness :
  fst (verify_server_cert demo_hash (mkIo true true (Some (Some 1))) "peer" [x01] ∅) = Err WritePinFailed.
Proof.
  pose proof (torn_pin demo_hash "peer" [x01] 1 ∅ eq_refl ltac:(vm_compute; lia)) as H.
  destruct (verify_server_cert demo_hash (mkIo true true (Some (Some 1))) "peer" [x01] ∅) as [r fs]. apply H.
Defined.

(** * From a refused certificate to an accepted one *)

Section pairing.
Context {S : Type} `{Slab S} {TT : TomlText} (sha256 : list byte → list byte).
Context (dir pkf : string).
Context (commit : list byte).
Abbreviation fp := (generate_fingerprint sha256).
Abbreviation asks := (Service.handle_frontend_request dir pkf).

(** The parts of the daemon that a handshake reaches. *)
Record Gate : Type := mkGate { service : Service.Service S; listener : Listener; listening : ListenTask }.

(** One handshake with a client certificate at [now]: the verifier, the
    forwarder of its rejections, the listen task on the events of the listener,
    and the service on those of the listen task. *)
Definition knock (now : Z) (cert : list byte) (d : Gate) : outcome string unit * Gate :=
  let '(r, tx) := verify_client_cert sha256 (Service.authorized_keys (service d)) cert (Some (true, [])) in
  let lst := snd (rejection_forwarder (from_option snd [] tx) (listener d)) in
  let task := foldl (λ t e, on_listen commit now e t) (listening d)
                (drop (length (listen_tx (listener d))) (listen_tx lst)) in
  let svc := foldl (λ s e, snd (Service.handle_emulation_event e s)) (service d)
               (drop (length (event_tx (listening d))) (event_tx task)) in
  (r, mkGate svc lst task).

Definition asked_lately (now : Z) (fingerprint : string) (t : ListenTask) : bool :=
  match rejected_connections t !! fingerprint with
  | Some i => (now - i <? REJECT_INTERVAL)%Z
  | None => false
  end.

Lemma knock_result now cert d :
  fst (knock now cert d) =
  if decide (is_Some (Service.authorized_keys (service d) !! fp cert)) then Ok tt
  else Err ("unauthorized peer " +:+ fp cert).
Proof. unfold knock, verify_client_cert. by case_decide. Qed.

Lemma forward_rejection f l :
  tx_open l = true →
  snd (rejection_forwarder [f] l) = mkListener (listen_tx l ++ [Rejected f]) true (quic_conns l).
Proof. intros Ho. cbn [rejection_forwarder]. unfold mbind, ST_bind, send_listen. by rewrite Ho. Qed.
(** What the listen task tells the service about a rejection. *)
Lemma on_rejected now f t :
  drop (length (event_tx t)) (event_tx (on_listen commit now (Rejected f) t)) =
  if asked_lately now f t then [] else [Service.EmConnectionAttempt f].
Proof.
  cbn [on_listen]. unfold asked_lately.
  destruct (rejected_connections t !! f) as [i|]; [destruct (Z.leb_spec REJECT_INTERVAL (now - i)) as [Hle|Hlt]|].
  - rewrite (proj2 (Z.ltb_ge _ _)) by lia. apply drop_app_length.
  - rewrite (proj2 (Z.ltb_lt _ _)) by lia. apply drop_all.
  - apply drop_app_length.
Qed.

Lemma knock_refused now cert d :
  Service.authorized_keys (service d) !! fp cert = None → tx_open (listener d) = true →
  Service.authorized_keys (service (snd (knock now cert d))) = Service.authorized_keys (service d) ∧
  Service.config (service (snd (knock now cert d))) = Service.config (service d) ∧
  Service.frontend (service (snd (knock now cert d))) = Service.frontend (service d) ++
    (if asked_lately now (fp cert) (listening d) then [] else [Service.ConnectionAttempt (fp cert)]).
Proof.
  intros Hk Ho. unfold knock, verify_client_cert. rewrite decide_False by (rewrite Hk; by intros [? ?]).
  cbn [fmap option_fmap option_map from_option snd app service]. rewrite forward_rejection by done.
  cbn [listen_tx]. rewrite drop_app_length. cbn [foldl]. rewrite on_rejected.
  destruct (asked_lately _ _ _); cbn; [by rewrite app_nil_r|done].
Qed.

Lemma write_back_state (s : Service.Service S) : snd (Service.write_back s) = s.
Proof. unfold Service.write_back, mbind, ST_bind, gets. by destruct (to_string_pretty _). Qed.
Lemma and_save_state m (s s1 : Service.Service S) : m s = (Ok tt, s1) →
  snd (Service.and_save m s) = Service.set_config (set_authorized_keys (Service.authorized_keys s1)
    (set_clients (Service.to_config_client <$> Clients.clients (Service.manager s1)) (Service.config s1))) s1.
Proof.
  intros E. unfold Service.and_save, Service.save_config, Service.cm, mbind, ST_bind, gets, modify_st. rewrite E.
  apply write_back_state.
Qed.
Lemma authorize_keys desc f (s : Service.Service S) :
  let s' := snd (asks (Service.AuthorizeKey desc f) s) in
  Service.authorized_keys s' = <[f := desc]> (Service.authorized_keys s) ∧
  Config.authorized_fingerprints (Service.config s') = <[f := desc]> (Service.authorized_keys s).
Proof. cbv zeta. cbn [Service.handle_frontend_request]. erewrite and_save_state by reflexivity. by split. Qed.
Lemma revoke_keys f (s : Service.Service S) :
  let s' := snd (asks (Service.RemoveAuthorizedKey f) s) in
  Service.authorized_keys s' = delete f (Service.authorized_keys s) ∧
  Config.authorized_fingerprints (Service.config s') = delete f (Service.authorized_keys s).
Proof. cbv zeta. cbn [Service.handle_frontend_request]. erewrite and_save_state by reflexivity. by split. Qed.

(** A panic is the end of the daemon; the lemmas above are about the states, the
    next one says when there is none. *)
Lemma keys_saved {TL : TomlLaws} r (s : Service.Service S) :
  match r with Service.AuthorizeKey _ _ | Service.RemoveAuthorizedKey _ => True | _ => False end →
  in_range (Service.stored_tree s) = true →
  fst (asks r s) = Ok tt ∧ in_range (Service.stored_tree (snd (asks r s))) = true.
Proof.
  intros Hr Hs.
  assert (∀ k c (s1 : Service.Service S), in_range (Service.stored_tree (Service.set_config (set_authorized_keys k (set_clients c (Service.config s1))) s1)) =
    in_range (Service.stored_tree s1)) as Hin by (by intros k [|x c] s1).
  assert (∀ s1 : Service.Service S, in_range (Service.stored_tree s1) = true → Service.write_back s1 = (Ok tt, s1)) as Hw.
  { intros s1 H1. unfold Service.write_back, mbind, ST_bind, gets. pose proof (print_in_range (Service.stored_tree s1)) as Hp.
    destruct (to_string_pretty _); [done|congruence]. }
  assert (∀ m (s1 : Service.Service S), m s = (Ok tt, s1) → Service.config s1 = Service.config s →
    fst (Service.and_save m s) = Ok tt ∧ in_range (Service.stored_tree (snd (Service.and_save m s))) = true) as Hm.
  { intros m s1 E Ec.
    assert (Service.stored_tree s1 = Service.stored_tree s) as Et by (unfold Service.stored_tree; by rewrite Ec).
    rewrite (and_save_state m s s1 E), Hin, Et. split; [|done].
    unfold Service.and_save, Service.save_config, Service.cm, mbind, ST_bind, gets, modify_st.
    rewrite E, Hw; [done|]. by rewrite Hin, Et. }
  destruct r; try done; cbn [Service.handle_frontend_request]; by eapply Hm.
Qed.

Definition with_request (r : Service.FrontendRequest) (d : Gate) : Gate :=
  mkGate (snd (asks r (service d))) (listener d) (listening d).

(** C34. How a new peer is let in: its first handshake is refused and the frontend
    is asked about its fingerprint, once per burst of handshakes; once the user
    authorizes that fingerprint the next handshake succeeds and the configuration
    remembers it; no certificate with another hash gains or loses access by that;
    and when the key is removed, the handshakes are refused again.  Neither request
    panics the daemon when its configuration can be saved. *)
Theorem pairing {TL : TomlLaws} now desc cert d :
  Service.authorized_keys (service d) !! fp cert = None → tx_open (listener d) = true →
  let d1 := snd (knock now cert d) in
  let d2 := with_request (Service.AuthorizeKey desc (fp cert)) d1 in
  let d3 := with_request (Service.RemoveAuthorizedKey (fp cert)) d2 in
  fst (knock now cert d) ≠ Ok tt ∧
  Service.frontend (service d1) = Service.frontend (service d) ++
    (if asked_lately now (fp cert) (listening d) then [] else [Service.ConnectionAttempt (fp cert)]) ∧
  (∀ now', fst (knock now' cert d2) = Ok tt) ∧
  Config.authorized_fingerprints (Service.config (service d2)) !! fp cert = Some desc ∧
  (∀ now' cert', sha256 cert' ≠ sha256 cert → fst (knock now' cert' d2) = fst (knock now' cert' d)) ∧
  (∀ now', fst (knock now' cert d3) ≠ Ok tt) ∧
  (in_range (Service.stored_tree (service d)) = true →
   fst (asks (Service.AuthorizeKey desc (fp cert)) (service d1)) = Ok tt ∧
   fst (asks (Service.RemoveAuthorizedKey (fp cert)) (service d2)) = Ok tt).
Proof.
  intros Hk Ho d1 d2 d3. destruct (knock_refused now cert d Hk Ho) as (Hk1 & Hc1 & Hf).
  destruct (authorize_keys desc (fp cert) (service d1)) as [Ha Hc].
  destruct (revoke_keys (fp cert) (service d2)) as [Hr _].
  split_and!.
  - rewrite knock_result, decide_False; [done|]. rewrite Hk. by intros [? ?].
  - exact Hf.
  - intros now'. rewrite knock_result, decide_True; [done|].
    unfold d2, with_request. cbn [service]. rewrite Ha, lookup_insert_eq. eauto.
  - unfold d2, with_request. cbn [service]. by rewrite Hc, lookup_insert_eq.
  - intros now' cert' Hne. rewrite !knock_result. unfold d2, with_request. cbn [service].
    assert (fp cert ≠ fp cert') by (intros E; by apply fingerprint_inj in E).
    rewrite Ha, lookup_insert_ne by done. unfold d1. by rewrite Hk1.
  - intros now'. rewrite knock_result, decide_False; [done|].
    unfold d3, with_request. cbn [service]. rewrite Hr, lookup_delete_eq. by intros [? ?].
  - intros Hin. assert (in_range (Service.stored_tree (service d1)) = true) as H1
      by (unfold Service.stored_tree, d1; by rewrite Hc1).
    destruct (keys_saved (Service.AuthorizeKey desc (fp cert)) (service d1) I H1) as [Ha1 H2]. split; [done|].
    by apply (keys_saved (Service.RemoveAuthorizedKey (fp cert)) (service d2) I).
Qed.
End pairing.

#[local] Existing Instance TomlDemo.demo_toml.
#[local] Existing Instance TomlDemo.demo_laws.
Definition quiet_gate : Gate :=
  mkGate (Service.mkService slab_new (Config.mkConfigFile Config.no_args None) ∅ ∅ ∅ ∅ Service.ENTER_HANDLE_BEGIN
              None 0 0 Service.Disabled Service.Disabled [] [] [] [] [] [])
    (mkListener [] true ∅) new_listen.
Lemma pairing_witness :
  Service.frontend (service (snd (knock demo_hash [] 0 [x0a; xff] quiet_gate))) =
  [Service.ConnectionAttempt "0a:ff"].
Proof.
  destruct (pairing demo_hash "" "" [] 0 "laptop" [x0a; xff] quiet_gate eq_refl eq_refl)
    as (_ & H & _). exact H.
Defined.
