(* ===== verification/Identity.v ===== *)
(** The identity of a device (src/crypto.rs): the certificate and the private key
    that are made at the first start and read at every later one, and what is on
    the disk when a start is killed, a call on the file system fails, or bytes of
    a buffered write are lost.

    A path is the list of its components; a file has its contents and, on Unix,
    its mode.  Making a certificate and the PEM format are parameters. *)

From S2P Require Import Prelude Text Tls.

(** * Disk *)

Abbreviation Path := (list string).
Inductive Node : Type := Dir | File (mode : Z) (data : list byte).
(** How the next calls end: a [Killed] call ends the process; a flush that [Loses]
    keeps the first bytes only, and nobody is told. *)
Inductive Answer : Type := Works | Fails | Killed | Loses (kept : nat).
Record Disk : Type := mkDisk { nodes : gmap Path Node; answers : list Answer; made : nat }.

Inductive Error : Type := Io | Rcgen | Pem (what : string) | NoKey.
Abbreviation M A := (ST Disk Error A).

Definition set_nodes (f : gmap Path Node → gmap Path Node) (d : Disk) : Disk := mkDisk (f (nodes d)) (answers d) (made d).
Definition with_answers (l : list Answer) (d : Disk) : Disk := mkDisk (nodes d) l (made d).

Definition ask : M Answer := λ d,
  let d' := mkDisk (nodes d) (tail (answers d)) (made d) in
  match head (answers d) with
  | Some Killed => (Panic, d')
  | Some a => (Ok a, d')
  | None => (Ok Works, d')
  end.
Definition on_nodes {A} (call : gmap Path Node → option (A * gmap Path Node)) : M A := λ d,
  match call (nodes d) with Some (a, ns) => (Ok a, set_nodes (λ _, ns) d) | None => (Err Io, d) end.
(** A call that may fail. *)
Definition io {A} (call : gmap Path Node → option (A * gmap Path Node)) : M A :=
  answer ← ask;
  match answer with Fails => raise Io | _ => on_nodes call end.

Definition octal (u g o : Z) : Z := (u * 64 + g * 8 + o)%Z.
(** The bit of a mode that lets its owner read or write. *)
Definition readable (mode : Z) : bool := Z.testbit mode 8.
Definition writable (mode : Z) : bool := Z.testbit mode 7.

Definition parent (p : Path) : option Path := match rev p with [] => None | _ :: up => Some (rev up) end.
Definition path_exists (p : Path) (ns : gmap Path Node) : bool := bool_decide (is_Some (ns !! p)).
Definition is_file (p : Path) (ns : gmap Path Node) : bool := match ns !! p with Some (File _ _) => true | _ => false end.
(** [fs::read], [fs::create_dir_all], [File::create] and [set_permissions], by an
    owner who is not the administrator. *)
Definition fs_read (p : Path) : M (list byte) :=
  io (λ ns, match ns !! p with Some (File mode data) => if readable mode then Some (data, ns) else None | _ => None end).
Fixpoint mkdirs (up rest : Path) (ns : gmap Path Node) {struct rest} : option (gmap Path Node) :=
  match ns !! up with
  | Some (File _ _) => None
  | _ =>
      let ns := <[up := Dir]> ns in
      match rest with [] => Some ns | c :: rest => mkdirs (up ++ [c]) rest ns end
  end.
Definition create_dir_all (p : Path) : M unit := io (λ ns, pair tt <$> mkdirs [] p ns).
Definition DEFAULT_MODE : Z := octal 6 4 4.
Definition file_create (p : Path) : M unit :=
  io (λ ns,
    match ns !! p with
    | Some Dir => None
    | Some (File mode _) => if writable mode then Some (tt, <[p := File mode []]> ns) else None
    | None =>
        match up ← parent p; ns !! up with
        | Some Dir => Some (tt, <[p := File DEFAULT_MODE []]> ns)
        | _ => None
        end
    end).
Definition set_mode (p : Path) (mode : Z) : M unit :=
  io (λ ns, match ns !! p with Some (File _ data) => Some (tt, <[p := File mode data]> ns) | _ => None end).
Definition append (p : Path) (data : list byte) (ns : gmap Path Node) : gmap Path Node :=
  match ns !! p with Some (File mode old) => <[p := File mode (old ++ data)]> ns | _ => ns end.
(** A [BufWriter] of fewer bytes than its buffer writes when it is dropped, and
    an error of that is not seen. *)
Definition write_buffered (p : Path) (data : list byte) : M unit :=
  answer ← ask;
  match answer with
  | Fails => mret tt
  | Loses kept => modify_st (set_nodes (append p (take kept data)))
  | _ => modify_st (set_nodes (append p data))
  end.

(** * Certificates *)

Abbreviation Cert := (list byte).
Abbreviation Key := (list byte).

(** [rcgen], by how many certificates were made before, and [rustls_pemfile]. *)
Class Pki : Type := {
  generate_simple_self_signed : string → nat → option (Cert * Key);
  cert_pem : Cert → list byte;
  key_pem : Key → list byte;
  pem_certs : list byte → string + list Cert;
  pem_keys : list byte → string + list Key
}.
(** What was written is what is read; a file without a section has nothing in it. *)
Class PkiLaws `{Pki} : Prop := {
  read_cert c : pem_certs (cert_pem c) = inr [c];
  read_key k : pem_keys (key_pem k) = inr [k];
  no_keys : pem_keys [] = inr [];
  key_nonempty k : key_pem k ≠ []
}.

Section identity.
Context `{Pki}.
(** Whether files have a mode: the program is built for Unix. *)
Variable unix : bool.

Definition load_cert_der (path : Path) : M (list Cert) :=
  pem ← fs_read path;
  match pem_certs pem with
  | inl e => raise (Pem ("pem certs parse: " +:+ e))
  | inr certs => mret certs
  end.
Definition load_key_der (path : Path) : M Key :=
  pem ← fs_read path;
  match pem_keys pem with
  | inl e => raise (Pem ("pem pkcs8 parse: " +:+ e))
  | inr keys => match last keys with Some key => mret key | None => raise NoKey end
  end.

(** One of the two files: its directory, the file, its mode, its contents. *)
Definition persist (path : Path) (mode : Z) (pem : list byte) : M unit :=
  match parent path with Some up => create_dir_all up | None => mret tt end ;;
  file_create path ;;
  (if unix then io (λ ns, Some (tt, ns)) ;; set_mode path mode else mret tt) ;;
  write_buffered path pem.
Definition rcgen (name : string) : M (Cert * Key) := λ d,
  let d' := mkDisk (nodes d) (answers d) (S (made d)) in
  match generate_simple_self_signed name (made d) with Some ck => (Ok ck, d') | None => (Err Rcgen, d') end.
Definition CERT_MODE : Z := octal 6 0 0.
Definition KEY_MODE : Z := octal 4 0 0.
Definition generate_self_signed (common_name : string) (cert_path key_path : Path) : M (list Cert * Key) :=
  '(cert, key) ← rcgen common_name;
  persist cert_path CERT_MODE (cert_pem cert) ;;
  persist key_path KEY_MODE (key_pem key) ;;
  mret ([cert], key).
Definition load_or_generate_key_and_cert_der (cert_path key_path : Path) : M (list Cert * Key) :=
  present ← gets (λ d, path_exists cert_path (nodes d) && path_exists key_path (nodes d) &&
    is_file cert_path (nodes d) && is_file key_path (nodes d));
  if present : bool then
    certs ← load_cert_der cert_path;
    key ← load_key_der key_path;
    mret (certs, key)
  else generate_self_signed "lan-mouse" cert_path key_path.

(** The variables of the environment that say where. *)
Record Env : Type := mkEnv { XDG_DATA_HOME : option Path; HOME : option Path; APPDATA : option Path }.
Definition lan_mouse_data_dir (env : Env) : Path :=
  (if unix then
     match XDG_DATA_HOME env with
     | Some base => base
     | None => match HOME env with Some h => h ++ [".local"; "share"] | None => ["."] end
     end
   else default ["."] (APPDATA env)) ++ ["lan-mouse"].
Definition cert_path (env : Env) : Path := lan_mouse_data_dir env ++ ["cert.pem"].
Definition key_path (env : Env) : Path := lan_mouse_data_dir env ++ ["key.pem"].
Definition cert_pins_dir (env : Env) : Path := lan_mouse_data_dir env ++ ["known_peers"].
Definition load_or_create_server_cert (env : Env) : M (list Cert * Key) :=
  load_or_generate_key_and_cert_der (cert_path env) (key_path env).

(** One start of the program, of which the answers are given. *)
Definition start (env : Env) (l : list Answer) (d : Disk) : outcome Error (list Cert * Key) * Disk :=
  load_or_create_server_cert env (with_answers l d).
Definition starts (env : Env) (runs : list (list Answer)) (d : Disk) : Disk := foldl (λ d l, snd (start env l d)) d runs.
End identity.

(** * Calls *)

#[local] Arguments readable : simpl never.
#[local] Arguments writable : simpl never.

(** The next call works, and [l] is left. *)
Definition next_works (l : list Answer) (d : Disk) : Prop := answers d = Works :: l ∨ (answers d = [] ∧ l = []).
Lemma io_works {A} (call : gmap Path Node → option (A * gmap Path Node)) l d : next_works l d →
  io call d = match call (nodes d) with Some (a, ns) => (Ok a, mkDisk ns l (made d)) | None => (Err Io, mkDisk (nodes d) l (made d)) end.
Proof.
  destruct d as [ns as_ n]. intros [E|[E ->]]; cbn in E; subst as_;
    unfold io, mbind, ST_bind, ask; cbn; unfold on_nodes; cbn; by destruct (call ns) as [[a ns']|].
Qed.
(** However a call ends, it did all or nothing. *)
Lemma io_cases {A} (call : gmap Path Node → option (A * gmap Path Node)) d :
  (∃ a ns d', call (nodes d) = Some (a, ns) ∧ io call d = (Ok a, d') ∧ nodes d' = ns) ∨
  (∃ r d', io call d = (r, d') ∧ nodes d' = nodes d ∧ ∀ a, r ≠ Ok a).
Proof.
  unfold io, mbind, ST_bind, ask, on_nodes. destruct (head (answers d)) as [[]|]; cbn;
    try (right; by eexists _, _); destruct (call (nodes d)) as [[a ns]|]; cbn;
    first [left; by eexists _, _, _|right; by eexists _, _].
Qed.
(** What a flush leaves in the file. *)
Definition flushed (a : Answer) (data : list byte) : list byte :=
  match a with Fails => [] | Loses kept => take kept data | _ => data end.
(** Four calls work, the flush ends as [a] says. *)
Definition going (a : Answer) (l : list Answer) (d : Disk) : Prop :=
  a ≠ Killed ∧ (answers d = [Works; Works; Works; Works; a] ++ l ∨ (answers d = [] ∧ a = Works ∧ l = [])).
Lemma parent_snoc dir n : parent (dir ++ [n]) = Some dir.
Proof. unfold parent. rewrite rev_app_distr. cbn. by rewrite rev_involutive. Qed.

Lemma mkdirs_files up rest ns ns' q mode data :
  mkdirs up rest ns = Some ns' → (ns' !! q = Some (File mode data) ↔ ns !! q = Some (File mode data)).
Proof.
  revert up ns. induction rest as [|c rest IH]; intros up ns; cbn [mkdirs].
  - destruct (ns !! up) as [[|]|] eqn:E; [|done|]; intros [= <-]; destruct (decide (q = up)) as [->|Hq];
      rewrite ?lookup_insert_eq, ?lookup_insert_ne by done; rewrite ?E; done.
  - destruct (ns !! up) as [[|]|] eqn:E; [|done|]; intros Hm; rewrite (IH _ _ Hm); destruct (decide (q = up)) as [->|Hq];
      rewrite ?lookup_insert_eq, ?lookup_insert_ne by done; rewrite ?E; done.
Qed.
Lemma mkdirs_end up rest ns ns' : mkdirs up rest ns = Some ns' → ns' !! (up ++ rest) = Some Dir.
Proof.
  revert up ns. induction rest as [|c rest IH]; intros up ns; cbn [mkdirs].
  - rewrite app_nil_r. destruct (ns !! up) as [[|]|]; [|done|]; intros [= <-]; apply lookup_insert_eq.
  - replace (up ++ c :: rest) with ((up ++ [c]) ++ rest) by (by rewrite <- app_assoc).
    destruct (ns !! up) as [[|]|]; [|done|]; apply IH.
Qed.
(** Only a prefix of the path is made. *)
Lemma mkdirs_dirs_short up rest ns ns' q :
  mkdirs up rest ns = Some ns' → ns' !! q = Some Dir → length q ≤ length (up ++ rest) ∨ ns !! q = Some Dir.
Proof.
  revert up ns. induction rest as [|c rest IH]; intros up ns; cbn [mkdirs].
  - rewrite app_nil_r. destruct (ns !! up) as [[|]|]; [|done|]; intros [= <-]; destruct (decide (q = up)) as [->|]; auto;
      rewrite lookup_insert_ne by done; auto.
  - intros Hm Hq. assert (mkdirs (up ++ [c]) rest (<[up := Dir]> ns) = Some ns') as Hm' by (destruct (ns !! up) as [[|]|]; done).
    destruct (IH _ _ Hm' Hq) as [Hl|Hl]; [left; by rewrite <- app_assoc in Hl|].
    destruct (decide (q = up)) as [->|]; [left; rewrite length_app; lia|]. rewrite lookup_insert_ne in Hl by done. by right.
Qed.
(** Where it succeeded once it succeeds again, unless files came in the way. *)
Lemma mkdirs_again up rest ns ns' ns2 :
  mkdirs up rest ns = Some ns' → (∀ q, length q ≤ length (up ++ rest) → is_file q ns2 = true → is_file q ns' = true) →
  is_Some (mkdirs up rest ns2).
Proof.
  revert up ns ns2. induction rest as [|c rest IH]; intros up ns ns2 Hm Hf.
  - pose proof (mkdirs_end _ _ _ _ Hm) as Hd. rewrite app_nil_r in Hd, Hf. cbn [mkdirs].
    specialize (Hf up ltac:(done)). unfold is_file in Hf. rewrite Hd in Hf. destruct (ns2 !! up) as [[|]|]; [done|by specialize (Hf eq_refl)|done].
  - assert (is_file up ns' = false) as Hd.
    { destruct (is_file up ns') eqn:E; [|done]. unfold is_file in E. destruct (ns' !! up) as [[|mode data]|] eqn:En; try done.
      apply (mkdirs_files _ _ _ _ _ _ _ Hm) in En. cbn [mkdirs] in Hm. by rewrite En in Hm. }
    assert (∀ q, length q ≤ length ((up ++ [c]) ++ rest) → is_file q (<[up := Dir]> ns2) = true → is_file q ns' = true) as Hf'.
    { intros q Hl Hq. apply Hf; [by rewrite <- app_assoc in Hl|]. unfold is_file in *.
      destruct (decide (q = up)) as [->|]; [by rewrite lookup_insert_eq in Hq|]. by rewrite lookup_insert_ne in Hq by done. }
    specialize (Hf up). rewrite Hd, length_app in Hf. specialize (Hf ltac:(lia)). cbn [mkdirs] in Hm |- *.
    assert (∃ ns1, mkdirs (up ++ [c]) rest ns1 = Some ns') as [ns1 H1] by (destruct (ns !! up) as [[|]|]; naive_solver).
    destruct (IH _ _ _ H1 Hf') as [r Hr].
    destruct (ns2 !! up) as [[|]|] eqn:E2; [by exists r| |by exists r].
    unfold is_file in Hf. rewrite E2 in Hf. by specialize (Hf eq_refl).
Qed.

(** ** One file *)

(** Every way in which a file gets its contents: it has its mode before it has
    any, and no other file is touched. *)
Lemma going_steps a l d : going a l d → ∃ l1 l2 l3 l4,
  next_works l1 d ∧ (∀ ns n, next_works l2 (mkDisk ns l1 n)) ∧ (∀ ns n, next_works l3 (mkDisk ns l2 n)) ∧
  (∀ ns n, next_works l4 (mkDisk ns l3 n)) ∧
  (∀ ns n p m old data, write_buffered p data (mkDisk (<[p := File m old]> ns) l4 n) = (Ok tt, mkDisk (append p (flushed a data) (<[p := File m old]> ns)) l n)).
Proof.
  intros [Hk [Ha|(Ha & -> & ->)]].
  - exists ([Works; Works; Works; a] ++ l), ([Works; Works; a] ++ l), ([Works; a] ++ l), ([a] ++ l).
    split_and!; [by left|intros; by left|intros; by left|intros; by left|]. intros ns n p m old data.
    unfold write_buffered, mbind, ST_bind, ask, modify_st, append. cbn. rewrite lookup_insert_eq.
    destruct a; try done; unfold set_nodes; cbn; rewrite ?lookup_insert_eq, ?app_nil_r, ?insert_insert_eq; done.
  - exists [], [], [], []. split_and!; [by right|intros; by right|intros; by right|intros; by right|]. intros ns n p m old data.
    unfold write_buffered, mbind, ST_bind, ask, modify_st, append. cbn. unfold set_nodes. cbn. by rewrite lookup_insert_eq.
Qed.

Section persist.
Context (path dir : Path) (name : string) (mode : Z) (pem : list byte).
Hypothesis Hpath : path = dir ++ [name].

Lemma dir_path : dir ≠ path.
Proof. rewrite Hpath. intros E. apply (f_equal length) in E. rewrite length_app in E. cbn in E. lia. Qed.
(** The file is there, or can be made. *)
Definition creatable (ns : gmap Path Node) : Prop :=
  match ns !! path with None => True | Some (File m _) => writable m = true | Some Dir => False end.

Lemma persist_runs a l d ns : going a l d → mkdirs [] dir (nodes d) = Some ns → creatable ns →
  ∃ d', persist true path mode pem d = (Ok tt, d') ∧
    answers d' = l ∧ made d' = made d ∧ nodes d' !! path = Some (File mode (flushed a pem)) ∧ nodes d' !! dir = Some Dir ∧
    ∀ q, q ≠ path → nodes d' !! q = ns !! q.
Proof.
  intros Hg Em Hc. pose proof (mkdirs_end _ _ _ _ Em) as Hd. cbn [app] in Hd. pose proof dir_path as Hne.
  destruct (going_steps a l d Hg) as (l1 & l2 & l3 & l4 & H1 & H2 & H3 & H4 & H5).
  unfold persist. replace (parent path) with (Some dir) by (by rewrite Hpath, parent_snoc).
  unfold mbind, ST_bind, create_dir_all. rewrite (io_works _ _ _ H1), Em. cbn [fmap option_fmap option_map].
  unfold file_create. rewrite (io_works _ _ _ (H2 _ _)). cbn [nodes]. replace (parent path) with (Some dir) by (by rewrite Hpath, parent_snoc).
  cbn [mbind option_bind]. rewrite Hd. unfold creatable in Hc.
  set (final m0 := <[path := File mode (flushed a pem)]> (<[path := File mode []]> (<[path := File m0 []]> ns))).
  assert (∀ m0, let ns1 := <[path := File m0 []]> ns in
    ((io (λ ns, Some (tt, ns)) ;; set_mode path mode) ;; write_buffered path pem) (mkDisk ns1 l2 (made d)) = (Ok tt, mkDisk (final m0) l (made d))) as Hrest.
  { intros m0 ns1. unfold mbind, ST_bind, set_mode. rewrite (io_works _ _ _ (H3 _ _)), (io_works _ _ _ (H4 _ _)). cbn [nodes made].
    unfold ns1 at 1. rewrite lookup_insert_eq, H5. unfold append. by rewrite lookup_insert_eq. }
  assert (∀ m0, ∃ d', (Ok (E := Error) tt, mkDisk (final m0) l (made d)) = (Ok tt, d') ∧ answers d' = l ∧ made d' = made d ∧
    nodes d' !! path = Some (File mode (flushed a pem)) ∧ nodes d' !! dir = Some Dir ∧ ∀ q, q ≠ path → nodes d' !! q = ns !! q) as Hend.
  { intros m0. eexists. split; [done|]. unfold final. cbn. rewrite lookup_insert_eq, !lookup_insert_ne by done.
    split_and!; [done..|]. intros q Hq. by rewrite !lookup_insert_ne. }
  destruct (ns !! path) as [[|m0 data0]|]; [done|rewrite Hc|]; cbn [made];
    match goal with |- context [<[path := File ?m []]> ns] => specialize (Hrest m); specialize (Hend m) end;
    unfold mbind, ST_bind in Hrest; rewrite Hrest; exact Hend.
Qed.
(** Otherwise it is refused, and the file stays as it is. *)
Lemma persist_refused d ns m0 data : answers d = [] → mkdirs [] dir (nodes d) = Some ns → ns !! path = Some (File m0 data) →
  writable m0 = false → persist true path mode pem d = (Err Io, mkDisk ns [] (made d)).
Proof.
  intros Ha Em Hf Hw. unfold persist. replace (parent path) with (Some dir) by (by rewrite Hpath, parent_snoc).
  unfold mbind, ST_bind, create_dir_all. rewrite (io_works _ [] d), Em by (by right). cbn [fmap option_fmap option_map].
  unfold file_create. rewrite (io_works _ []) by (by right). cbn [nodes]. by rewrite Hf, Hw.
Qed.
(** A run that succeeded. *)
Lemma persist_works a l d d' : going a l d → persist true path mode pem d = (Ok tt, d') →
  ∃ ns, mkdirs [] dir (nodes d) = Some ns ∧ answers d' = l ∧ made d' = made d ∧
    nodes d' !! path = Some (File mode (flushed a pem)) ∧ nodes d' !! dir = Some Dir ∧ ∀ q, q ≠ path → nodes d' !! q = ns !! q.
Proof.
  intros Hg E. destruct (mkdirs [] dir (nodes d)) as [ns|] eqn:Em.
  - exists ns. split; [done|]. assert (creatable ns) as Hc.
    { destruct (going_steps a l d Hg) as (l1 & l2 & l3 & l4 & H1 & H2 & H3 & H4 & H5).
      unfold persist in E. replace (parent path) with (Some dir) in E by (by rewrite Hpath, parent_snoc).
      unfold mbind, ST_bind, create_dir_all in E. rewrite (io_works _ _ _ H1), Em in E. cbn [fmap option_fmap option_map] in E.
      unfold file_create in E. rewrite (io_works _ _ _ (H2 _ _)) in E. cbn [nodes] in E. unfold creatable.
      destruct (ns !! path) as [[|m0 data0]|]; [done|by destruct (writable m0)|done]. }
    destruct (persist_runs a l d ns Hg Em Hc) as (d2 & E2 & Hx). rewrite E in E2. by injection E2 as <-.
  - exfalso. destruct (going_steps a l d Hg) as (l1 & l2 & l3 & l4 & H1 & _).
    unfold persist in E. replace (parent path) with (Some dir) in E by (by rewrite Hpath, parent_snoc).
    unfold mbind, ST_bind, create_dir_all in E. rewrite (io_works _ _ _ H1), Em in E. done.
Qed.
End persist.

(** * Starts *)

Section starts.
Context `{Pki} {L : PkiLaws} (env : Env).
Let dir : Path := lan_mouse_data_dir true env.
Let cp : Path := cert_path true env.
Let kp : Path := key_path true env.

Lemma paths_differ : cp ≠ kp.
Proof. unfold cp, kp, cert_path, key_path. intros E%app_inv_head. discriminate. Qed.
Definition both_files (ns : gmap Path Node) : Prop := is_file cp ns = true ∧ is_file kp ns = true.
Lemma file_exists p ns : is_file p ns = true → path_exists p ns = true.
Proof. unfold is_file, path_exists. intros E. apply bool_decide_eq_true. by destruct (ns !! p). Qed.

(** What the two files say. *)
Definition stored (ns : gmap Path Node) : outcome Error (list Cert * Key) :=
  match ns !! cp, ns !! kp with
  | Some (File m1 pem1), Some (File m2 pem2) =>
      if readable m1 then
        match pem_certs pem1 with
        | inl e => Err (Pem ("pem certs parse: " +:+ e))
        | inr certs =>
            if readable m2 then
              match pem_keys pem2 with
              | inl e => Err (Pem ("pem pkcs8 parse: " +:+ e))
              | inr keys => match last keys with Some key => Ok (certs, key) | None => Err NoKey end
              end
            else Err Io
        end
      else Err Io
  | _, _ => Err Io
  end.
(** With both files there a start reads them and changes nothing. *)
Lemma start_present l d : both_files (nodes d) →
  nodes (snd (start true env l d)) = nodes d ∧
  (∀ ck, fst (start true env l d) = Ok ck → stored (nodes d) = Ok ck) ∧
  (l = [] → fst (start true env l d) = stored (nodes d)).
Proof.
  intros [Hc Hk]. unfold start, load_or_create_server_cert, load_or_generate_key_and_cert_der, mbind, ST_bind, gets.
  change (cert_path true env) with cp. change (key_path true env) with kp. cbn [nodes with_answers].
  rewrite !file_exists, Hc, Hk by done. cbn [andb].
  unfold is_file in Hc, Hk. destruct (nodes d !! cp) as [[|m1 pem1]|] eqn:E1; try done.
  destruct (nodes d !! kp) as [[|m2 pem2]|] eqn:E2; try done. clear Hc Hk.
  unfold load_cert_der, load_key_der, fs_read, io, on_nodes, mbind, ST_bind, ask, raise, mret, ST_ret, set_nodes. cbn [nodes answers made with_answers].
  assert (∀ r : outcome Error (list Cert * Key), (∀ ck, r = Ok ck → stored (nodes d) = Ok ck) → (l = [] → r = stored (nodes d)) →
    nodes d = nodes d ∧ (∀ ck, r = Ok ck → stored (nodes d) = Ok ck) ∧ (l = [] → r = stored (nodes d))) as Hend by done.
  unfold stored in Hend |- *. clearbody cp kp. rewrite E1, E2 in Hend |- *.
  destruct l as [|a1 l]; cbn [head tail].
  - cbn. rewrite E1. destruct (readable m1); cbn; [|by eapply Hend]. destruct (pem_certs pem1); cbn; [by eapply Hend|]. rewrite E2.
    destruct (readable m2); cbn; [|by eapply Hend]. destruct (pem_keys pem2) as [|keys]; cbn; [by eapply Hend|].
    destruct (last keys); by eapply Hend.
  - destruct a1; cbn; rewrite ?E1; try (by eapply Hend); (destruct (readable m1); cbn; [|by eapply Hend];
      destruct (pem_certs pem1); cbn; [by eapply Hend|];
      destruct l as [|[] l]; cbn; rewrite ?E2; try (by eapply Hend); destruct (readable m2); cbn; try (by eapply Hend);
      destruct (pem_keys pem2) as [|keys]; cbn; try (by eapply Hend); destruct (last keys); by eapply Hend).
Qed.
Lemma starts_present runs d : both_files (nodes d) → nodes (starts true env runs d) = nodes d.
Proof.
  revert d. induction runs as [|l runs IH]; intros d Hd; [done|]. cbn [starts foldl].
  destruct (start_present l d Hd) as (Hn & _). unfold starts in IH. rewrite IH; rewrite ?Hn; done.
Qed.

(** Without one of them it makes both. *)
Lemma start_generates l d : ¬ both_files (nodes d) →
  start true env l d = generate_self_signed true "lan-mouse" cp kp (with_answers l d).
Proof.
  intros Hn. unfold start, load_or_create_server_cert, load_or_generate_key_and_cert_der, mbind at 1, ST_bind at 1, gets.
  change (cert_path true env) with cp. change (key_path true env) with kp. cbn [nodes with_answers].
  assert (path_exists cp (nodes d) && path_exists kp (nodes d) && is_file cp (nodes d) && is_file kp (nodes d) = false) as ->; [|done].
  apply not_true_is_false. intros E. apply Hn. unfold both_files. destruct (is_file cp _), (is_file kp _); try done; by rewrite ?andb_false_r in E.
Qed.
(** [l] makes every call work, save that the flush of the key ends as [a] says. *)
Definition smooth (a : Answer) (l : list Answer) : Prop := (l = [] ∧ a = Works) ∨ (l = replicate 9 Works ++ [a] ∧ a ≠ Killed).
Lemma start_absent a l d ck d' : smooth a l → ¬ both_files (nodes d) → start true env l d = (Ok ck, d') →
  ∃ c k, generate_simple_self_signed "lan-mouse" (made d) = Some (c, k) ∧ ck = ([c], k) ∧
    nodes d' !! cp = Some (File CERT_MODE (cert_pem c)) ∧ nodes d' !! kp = Some (File KEY_MODE (flushed a (key_pem k))) ∧
    made d' = S (made d) ∧ ∃ ns ns', mkdirs [] dir ns = Some ns' ∧ ∀ q, q ≠ cp → q ≠ kp → nodes d' !! q = ns' !! q.
Proof.
  intros Hl Hn. rewrite start_generates by done.
  unfold generate_self_signed, mbind at 1, ST_bind at 1, rcgen. cbn [nodes with_answers made answers].
  destruct (generate_simple_self_signed "lan-mouse" (made d)) as [[c k]|]; [|done].
  set (d0 := mkDisk _ _ _). unfold mbind at 1, ST_bind at 1.
  assert (∃ l1, going Works l1 d0 ∧ ∀ ns n, going a [] (mkDisk ns l1 n)) as (l1 & G1 & G2).
  { destruct Hl as [[-> ->]|[-> Ha]]; [exists []; split; [split; [done|by right]|intros; split; [done|by right]]|].
    exists [Works; Works; Works; Works; a]. split; [split; [done|by left]|]. intros. split; [done|]. by left. }
  destruct (persist true cp CERT_MODE (cert_pem c) d0) as [[[]| | |] d1] eqn:E1; try done.
  destruct (persist_works cp dir "cert.pem" CERT_MODE (cert_pem c) eq_refl Works l1 d0 d1 G1 E1) as (ns1 & _ & A1 & M1 & P1 & _).
  unfold mbind at 1, ST_bind at 1. destruct (persist true kp KEY_MODE (key_pem k) d1) as [[[]| | |] d2] eqn:E2; try done.
  assert (going a [] d1) as G by (destruct d1; cbn in A1; subst; apply G2).
  destruct (persist_works kp dir "key.pem" KEY_MODE (key_pem k) eq_refl a [] d1 d2 G E2) as (ns2 & Em & A2 & M2 & P2 & _ & Hq).
  intros [= <- <-]. exists c, k. split_and!; [done|done| |done|by rewrite M2, M1|].
  - rewrite Hq by apply paths_differ. eapply mkdirs_files; [exact Em|done].
  - exists (nodes d1), ns2. split; [done|]. intros q _ Hk. by apply Hq.
Qed.

(** C10. The identity that one start used is the identity of all later ones: a
    start that succeeded on a working disk left the certificate and the key so
    that every start after it, however many were killed or failed to read in
    between, gives exactly these two or an error, and exactly these two when its
    reads work.  So the fingerprint that the peers pinned stays the same. *)
Theorem identity_stays d ck d1 runs :
  start true env [] d = (Ok ck, d1) →
  let d2 := starts true env runs d1 in
  fst (start true env [] d2) = Ok ck ∧
  ∀ l, match fst (start true env l d2) with Ok ck' => ck' = ck | _ => True end.
Proof.
  intros E d2.
  assert (both_files (nodes d1) ∧ stored (nodes d1) = Ok ck) as [Hb Hst].
  { destruct (decide (both_files (nodes d))) as [Hb|Hn].
    - destruct (start_present [] d Hb) as (Hn & _ & Hs). rewrite E in Hn, Hs. cbn in Hn, Hs.
      rewrite Hn. split; [done|]. symmetry. by apply Hs.
    - destruct (start_absent Works [] d ck d1 (or_introl (conj eq_refl eq_refl)) Hn E) as (c & k & _ & -> & Hc & Hk & _). split.
      + unfold both_files, is_file. by rewrite Hc, Hk.
      + unfold stored. rewrite Hc, Hk. change (readable CERT_MODE) with true. change (readable KEY_MODE) with true. cbn [flushed].
        by rewrite read_cert, read_key. }
  assert (nodes d2 = nodes d1) as Hn by (by apply starts_present).
  rewrite <- Hn in Hb, Hst. split.
  - destruct (start_present [] d2 Hb) as (_ & _ & Hs). by rewrite Hs.
  - intros l. destruct (start_present l d2 Hb) as (_ & Hs & _). destruct (fst (start true env l d2)) as [ck'| | |]; try done.
    specialize (Hs ck' eq_refl). congruence.
Qed.

(** ** What does not stay *)

(** When the certificate is deleted and the key is not, the next start fails, as
    the key of mode 0400 cannot be written again; but it has written a new
    certificate by then, and the starts after it succeed with that certificate
    and the old key. *)
Theorem deleted_certificate d ck d1 c' k' :
  ¬ both_files (nodes d) → start true env [] d = (Ok ck, d1) →
  generate_simple_self_signed "lan-mouse" (made d1) = Some (c', k') →
  let d2 := set_nodes (delete cp) d1 in
  ∃ d3, start true env [] d2 = (Err Io, d3) ∧ fst (start true env [] d3) = Ok ([c'], snd ck).
Proof.
  intros Hn E Eg d2.
  destruct (start_absent Works [] d ck d1 (or_introl (conj eq_refl eq_refl)) Hn E) as (c & k & _ & -> & Hc & Hk & Hm & ns & ns' & Em & Hq).
  cbn [flushed] in Hk. pose proof paths_differ as Hd.
  assert (¬ both_files (nodes d2)) as Hn2.
  { intros [Hf _]. unfold is_file in Hf. cbn [nodes d2 set_nodes] in Hf. by rewrite lookup_delete_eq in Hf. }
  assert (is_Some (mkdirs [] dir (nodes d2))) as [ns2 Em2].
  { eapply mkdirs_again; [exact Em|]. intros q Hl Hf. cbn [app] in Hl. unfold d2, is_file in *. cbn [nodes set_nodes] in Hf.
    assert (∀ n, length (dir ++ [n]) = S (length dir)) as Hlen by (intros; rewrite length_app; cbn; lia).
    assert (q ≠ cp) as Hqc by (intros ->; unfold cp, cert_path in Hl; fold dir in Hl; rewrite Hlen in Hl; lia).
    assert (q ≠ kp) as Hqk by (intros ->; unfold kp, key_path in Hl; fold dir in Hl; rewrite Hlen in Hl; lia).
    rewrite lookup_delete_ne in Hf by done. by rewrite <- Hq. }
  rewrite start_generates by done. unfold generate_self_signed, mbind at 1, ST_bind at 1, rcgen.
  cbn [nodes with_answers made answers]. change (made d2) with (made d1). rewrite Eg.
  set (d0 := mkDisk (nodes d2) [] (S (made d1))).
  assert (creatable cp ns2) as Hcr.
  { unfold creatable. destruct (ns2 !! cp) as [[|m0 data0]|] eqn:Ec; [| |done].
    - exfalso. apply (mkdirs_dirs_short _ _ _ _ _ Em2) in Ec as [Ec|Ec]; [|change (nodes d2) with (delete cp (nodes d1)) in Ec; by rewrite lookup_delete_eq in Ec].
      unfold cp, cert_path in Ec. fold dir in Ec. rewrite length_app in Ec. cbn in Ec. lia.
    - apply (mkdirs_files _ _ _ _ _ _ _ Em2) in Ec. change (nodes d2) with (delete cp (nodes d1)) in Ec. by rewrite lookup_delete_eq in Ec. }
  destruct (persist_runs cp dir "cert.pem" CERT_MODE (cert_pem c') eq_refl Works [] d0 ns2) as (d3 & E3 & A3 & M3 & P3 & D3 & Q3);
    [split; [done|by right]|done|done|].
  unfold mbind at 1, ST_bind at 1. rewrite E3. unfold mbind at 1, ST_bind at 1.
  assert (nodes d3 !! kp = Some (File KEY_MODE (key_pem k))) as K3.
  { rewrite Q3 by done. eapply mkdirs_files; [exact Em2|]. cbn [nodes d2 set_nodes]. by rewrite lookup_delete_ne. }
  assert (is_Some (mkdirs [] dir (nodes d3))) as [ns3 Em3].
  { eapply mkdirs_again; [exact Em2|]. intros q Hl Hf. cbn [app] in Hl. unfold is_file in *. rewrite Q3 in Hf; [done|].
    intros ->. unfold cp, cert_path in Hl. fold dir in Hl. rewrite length_app in Hl. cbn in Hl. lia. }
  assert (∀ q m data, nodes d3 !! q = Some (File m data) → ns3 !! q = Some (File m data)) as F3
    by (intros q m data Hx; by eapply mkdirs_files).
  rewrite (persist_refused kp dir "key.pem" KEY_MODE (key_pem k') eq_refl d3 ns3 KEY_MODE (key_pem k) A3 Em3 (F3 _ _ _ K3) eq_refl).
  eexists. split; [done|]. set (d4 := mkDisk ns3 [] (made d3)).
  assert (both_files (nodes d4)) as Hb4.
  { unfold both_files, is_file. cbn [nodes d4]. by rewrite (F3 _ _ _ P3), (F3 _ _ _ K3). }
  destruct (start_present [] d4 Hb4) as (_ & _ & Hs). rewrite Hs by done. unfold stored. cbn [nodes d4].
  rewrite (F3 _ _ _ P3), (F3 _ _ _ K3). change (readable CERT_MODE) with true. change (readable KEY_MODE) with true. cbn [flushed snd].
  by rewrite read_cert, read_key.
Qed.

Lemma smooth_fails : smooth Fails (replicate 9 Works ++ [Fails]).
Proof. by right. Qed.
(** When the last bytes of the key are lost, for a disk that is full, the start
    succeeds all the same; and no later one does, as both files are there. *)
Theorem lost_key d ck d1 runs :
  ¬ both_files (nodes d) → start true env (replicate 9 Works ++ [Fails]) d = (Ok ck, d1) →
  fst (start true env [] (starts true env runs d1)) = Err NoKey.
Proof.
  intros Hn E. destruct (start_absent Fails _ d ck d1 smooth_fails Hn E) as (c & k & _ & _ & Hc & Hk & _).
  assert (both_files (nodes d1)) as Hb by (unfold both_files, is_file; by rewrite Hc, Hk).
  assert (nodes (starts true env runs d1) = nodes d1) as Hs by (by apply starts_present).
  destruct (start_present [] (starts true env runs d1)) as (_ & _ & Hr); [by rewrite Hs|].
  rewrite Hr, Hs by done. unfold stored. rewrite Hc, Hk. cbn [flushed].
  change (readable CERT_MODE) with true. change (readable KEY_MODE) with true. cbn iota. by rewrite read_cert, no_keys.
Qed.

(** ** The key is private *)

(** A file with contents has the mode that it should have. *)
Definition private (p : Path) (mode : Z) (d : Disk) : Prop :=
  ∀ m data, nodes d !! p = Some (File m data) → data ≠ [] → m = mode.

Lemma private_same p mode d d' : nodes d' = nodes d → private p mode d → private p mode d'.
Proof. intros E Hp m data. rewrite E. apply Hp. Qed.
Lemma private_mkdirs p mode up d ns : mkdirs [] up (nodes d) = Some ns → private p mode d → ∀ d', nodes d' = ns → private p mode d'.
Proof. intros Em Hp d' <- m data Hf. apply (mkdirs_files _ _ _ _ _ _ _ Em) in Hf. by eapply Hp. Qed.
Lemma write_nodes p data d : ∃ r d', write_buffered p data d = (r, d') ∧ ∃ data', nodes d' = append p data' (nodes d) ∨ nodes d' = nodes d.
Proof.
  unfold write_buffered, mbind, ST_bind, ask, modify_st. destruct (head (answers d)) as [[]|]; cbn; eexists _, _; (split; [done|]);
    eexists; first [by left|by right].
  Unshelve. all: exact [].
Qed.

(** A call of [persist], wherever it is stopped, keeps the promise about the file
    it writes and about every other. *)
Lemma persist_private p mode pem q qmode d :
  (p = q → mode = qmode) → private q qmode d → private q qmode (snd (persist true p mode pem d)).
Proof.
  intros Hpq Hq. unfold persist, mbind, ST_bind.
  assert (∃ r d1, (match parent p with Some up => create_dir_all up | None => mret tt end) d = (r, d1) ∧ private q qmode d1) as (r & d1 & -> & Hq1).
  { destruct (parent p) as [up|]; [|by eexists _, _]. unfold create_dir_all.
    destruct (io_cases (λ ns, pair tt <$> mkdirs [] up ns) d) as [([] & ns & d1 & Ec & -> & Hn)|(r & d1 & -> & Hn & _)]; eexists _, _; (split; [done|]).
    - destruct (mkdirs [] up (nodes d)) as [ns0|] eqn:Em; [|done]. injection Ec as <-. eapply private_mkdirs; [exact Em|done|done].
    - by eapply private_same. }
  destruct r as [[]| | |]; try done. unfold file_create.
  match goal with |- context [io ?call d1] => destruct (io_cases call d1) as [([] & ns2 & d2 & Ec & -> & Hn2)|(r & d2 & -> & Hn2 & Hr)] end.
  2: { assert (private q qmode d2) by (by eapply private_same). destruct r as [a| | |]; [by destruct (Hr a)|done..]. }
  assert (private q qmode d2 ∧ ∃ m0, nodes d2 !! p = Some (File m0 [])) as [Hq2 [m0 Hp2]].
  { assert (∃ m0, ns2 = <[p := File m0 []]> (nodes d1)) as [m0 Ens].
    { destruct (nodes d1 !! p) as [[|m0 data0]|]; [done| |].
      - destruct (writable m0); [|done]. injection Ec as <-. by exists m0.
      - destruct (_ ≫= _) as [[|]|]; try done. injection Ec as <-. by eexists. }
    rewrite Hn2, Ens. split; [|exists m0; apply lookup_insert_eq]. intros m data. rewrite Hn2, Ens. destruct (decide (q = p)) as [->|].
    - rewrite lookup_insert_eq. by intros [= <- <-].
    - rewrite lookup_insert_ne by done. apply Hq1. }
  match goal with |- context [io ?call d2] => destruct (io_cases call d2) as [([] & ns3 & d3 & Ec3 & -> & Hn3)|(r & d3 & -> & Hn3 & Hr)] end.
  2: { assert (private q qmode d3) by (by eapply private_same). destruct r as [a| | |]; [by destruct (Hr a)|done..]. }
  injection Ec3 as <-. assert (private q qmode d3) as Hq3 by (by eapply private_same). unfold set_mode.
  match goal with |- context [io ?call d3] => destruct (io_cases call d3) as [([] & ns4 & d4 & Ec4 & -> & Hn4)|(r & d4 & -> & Hn4 & Hr)] end.
  2: { assert (private q qmode d4) by (by eapply private_same). destruct r as [a| | |]; [by destruct (Hr a)|done..]. }
  rewrite Hn3, Hp2 in Ec4. injection Ec4 as <-.
  destruct (write_nodes p pem d4) as (r & d5 & -> & data' & Hn5). cbn [snd]. intros m data.
  assert (nodes d5 !! q = Some (File m data) → q = p ∧ m = mode ∨ q ≠ p ∧ nodes d2 !! q = Some (File m data)) as Hx.
  { destruct (decide (q = p)) as [->|Hne].
    - intros Hf. left. split; [done|]. destruct Hn5 as [E5|E5]; rewrite E5, Hn4 in Hf; unfold append in Hf;
        rewrite ?lookup_insert_eq in Hf; try (by injection Hf as <- _).
    - intros Hf. right. split; [done|]. destruct Hn5 as [E5|E5]; rewrite E5, Hn4 in Hf; unfold append in Hf;
        rewrite ?lookup_insert_eq in Hf; rewrite ?lookup_insert_ne, ?Hn3 in Hf by done; done. }
  intros [[-> ->]|[_ Hf]]%Hx Hd; [by apply Hpq|by apply (Hq2 m data)].
Qed.

(** Whatever happens to the starts, and wherever each of them is stopped: the
    file of the key never has contents and another mode than 0400, so nobody but
    its owner can ever read a byte of it. *)
Theorem key_private runs d :
  private kp KEY_MODE d → private kp KEY_MODE (starts true env runs d).
Proof.
  revert d. induction runs as [|l runs IH]; intros d Hp; [done|]. cbn [starts foldl]. apply IH. clear IH runs.
  assert (private kp KEY_MODE (with_answers l d)) as Hp' by done.
  destruct (decide (both_files (nodes d))) as [Hb|Hn].
  { destruct (start_present l d Hb) as (Hs & _). by eapply private_same. }
  rewrite start_generates by done. unfold generate_self_signed, mbind at 1, ST_bind at 1, rcgen.
  destruct (generate_simple_self_signed _ _) as [[c k]|]; [|done]. set (d0 := mkDisk _ _ _).
  assert (private kp KEY_MODE d0) as H0 by done. clearbody d0.
  pose proof (persist_private cp CERT_MODE (cert_pem c) kp KEY_MODE d0 (λ E, False_ind _ (paths_differ E)) H0) as H1.
  unfold mbind at 1, ST_bind at 1. destruct (persist true cp CERT_MODE (cert_pem c) d0) as [[[]| | |] d1]; try done. cbn [snd] in H1.
  pose proof (persist_private kp KEY_MODE (key_pem k) kp KEY_MODE d1 (λ _, eq_refl) H1) as H2.
  unfold mbind, ST_bind. by destruct (persist true kp KEY_MODE (key_pem k) d1) as [[[]| | |] d2].
Qed.
End starts.

(** * A disk *)

Module Demo.
(** The n-th certificate is one byte, and its key another. *)
#[export] Instance pki : Pki := {
  generate_simple_self_signed name n := let b := byte_of_Z (Z.of_nat n) in Some ([x63; b], [x6b; b]);
  cert_pem c := x2d :: c;
  key_pem k := x2d :: k;
  pem_certs pem := match pem with [] => inr [] | _ :: c => inr [c] end;
  pem_keys pem := match pem with [] => inr [] | _ :: k => inr [k] end
}.
#[export] Instance pki_laws : PkiLaws.
Proof. by constructor. Defined.
Definition env : Env := mkEnv None (Some ["home"; "me"]) None.
Definition empty : Disk := mkDisk ∅ [] 0.
End Demo.
Import (hints) Demo.

Definition first : Disk := snd (start true Demo.env [] Demo.empty).
Definition first_identity : list Cert * Key := ([[x63; x00]], [x6b; x00]).
Lemma first_start : start true Demo.env [] Demo.empty = (Ok first_identity, first).
Proof. vm_compute. reflexivity. Qed.
Lemma empty_absent : ¬ both_files Demo.env (nodes Demo.empty).
Proof. intros [Hc _]. vm_compute in Hc. discriminate. Qed.

Lemma identity_stays_witness :
  fst (start true Demo.env [] (starts true Demo.env [[Killed]; [Works; Fails]] first)) = Ok first_identity.
Proof.
  destruct (identity_stays Demo.env Demo.empty first_identity first [[Killed]; [Works; Fails]] first_start) as [E _]. exact E.
Defined.
Lemma deleted_certificate_witness :
  ∃ d3, start true Demo.env [] (set_nodes (delete (cert_path true Demo.env)) first) = (Err Io, d3) ∧
    fst (start true Demo.env [] d3) = Ok ([[x63; x01]], [x6b; x00]).
Proof.
  destruct (deleted_certificate Demo.env Demo.empty first_identity first [x63; x01] [x6b; x01] empty_absent first_start)
    as (d3 & E1 & E2); [vm_compute; reflexivity|]. exists d3. split; [exact E1|exact E2].
Defined.
Definition short_of_space : Disk := snd (start true Demo.env (replicate 9 Works ++ [Fails]) Demo.empty).
Lemma lost_key_witness : fst (start true Demo.env [] (starts true Demo.env [[]; []] short_of_space)) = Err NoKey.
Proof.
  refine (lost_key Demo.env Demo.empty first_identity short_of_space [[]; []] empty_absent _). vm_compute. reflexivity.
Defined.
Lemma key_private_witness :
  private (key_path true Demo.env) KEY_MODE (starts true Demo.env [[Works; Works; Works; Works; Works; Works; Works; Killed]; [Fails]] Demo.empty).
Proof. refine (key_private Demo.env _ Demo.empty _). intros m data Hf. vm_compute in Hf. discriminate. Defined.
