(* ===== verification/ConfigFile.v ===== *)
(** The file of the configuration and its watcher (src/config.rs): where the file
    is, what a start reads, what a save writes, and when a change of the file is
    taken over while the program runs.

    The calls on the file system are those of Identity, the text of a tree is that
    of Toml; the watcher (the notify crate) is a queue of the events that it
    reported. *)

From Stdlib Require Import Ascii.
From S2P Require Import Prelude Text Transport Scancode Net Clients Config Toml Identity.
From S2P Require Service.

(** * State *)

Module ConfigError.
Inductive ConfigError : Type := Toml | Io | Var | Watcher.
End ConfigError.

Inductive ModifyKind : Type := ModifyAny | Data | Metadata | Name | ModifyOther.
Inductive EventKind : Type := Any | Access | Create | Modify (m : ModifyKind) | Remove | Other.
Record FsEvent : Type := mkEvent { kind : EventKind; paths : list Path }.

(** [Config], the disk, and how the next calls of [watch] end.  An entry of the
    queue is an error of the watcher or an event. *)
Record Store : Type := mkStore {
  disk : Disk;
  config : Config.Config;
  cert_path : Path;
  config_path : Path;
  config_dir : Path;
  watching : bool;
  watch_rx : list (unit + FsEvent);
  watch_answers : list bool
}.
Abbreviation M A := (ST Store ConfigError.ConfigError A).

Definition set_disk (d : Disk) (s : Store) : Store :=
  mkStore d (config s) (cert_path s) (config_path s) (config_dir s) (watching s) (watch_rx s) (watch_answers s).
Definition set_config (c : Config.Config) (s : Store) : Store :=
  mkStore (disk s) c (cert_path s) (config_path s) (config_dir s) (watching s) (watch_rx s) (watch_answers s).
Definition set_watch (on : bool) (l : list bool) (s : Store) : Store :=
  mkStore (disk s) (config s) (cert_path s) (config_path s) (config_dir s) on (watch_rx s) l.
Definition set_rx (l : list (unit + FsEvent)) (s : Store) : Store :=
  mkStore (disk s) (config s) (cert_path s) (config_path s) (config_dir s) (watching s) l (watch_answers s).

(** A call on the file system, with [?]. *)
Definition io_err {A} (m : Identity.M A) : ST Disk ConfigError.ConfigError A :=
  λ d, let '(r, d') := m d in (map_err (λ _, ConfigError.Io) r, d').
Definition on_disk {A} (m : Identity.M A) : M A :=
  λ s, let '(r, d) := io_err m (disk s) in (r, set_disk d s).

(** [read_to_string], and [write_all] on a file that is not buffered: part of
    the text may be written before the error. *)
Definition read_to_string (p : Path) : Identity.M string :=
  data ← fs_read p;
  match from_utf8 data with Some text => mret text | None => raise Identity.Io end.
Definition write_text (p : Path) (text : string) : Identity.M unit :=
  answer ← ask;
  match answer with
  | Fails => raise Identity.Io
  | Loses kept => modify_st (set_nodes (append p (take kept (as_bytes text)))) ;; raise Identity.Io
  | _ => modify_st (set_nodes (append p (as_bytes text)))
  end.
Definition sync_all : Identity.M unit := io (λ ns, Some (tt, ns)).

(** * Operations *)

Definition CONFIG_FILE_NAME : string := "config.toml".
Definition CERT_FILE_NAME : string := "lan-mouse.pem".

(** The variables that say where; [None] too when the value is no text. *)
Record Vars : Type := mkVars { XDG_CONFIG_HOME : option Path; HOME : option Path; LOCALAPPDATA : option Path; USERPROFILE : option Path }.

Section store.
Context `{TomlText}.
(** The program is built for Unix. *)
Variable unix : bool.

(** The argument of [unwrap_or] is evaluated, with its [?], in any case. *)
Definition default_path (env : Vars) : outcome ConfigError.ConfigError Path :=
  let '(base, home) := if unix then (XDG_CONFIG_HOME env, HOME env) else (LOCALAPPDATA env, USERPROFILE env) in
  home ← ok_or home ConfigError.Var;
  mret (default (home ++ [".config"]) base ++ ["lan-mouse"]).

Definition load (p : Path) : Identity.M (option ConfigToml) :=
  text ← attempt (read_to_string p);
  mret (match text with inr text => from_str text | inl _ => None end).
Definition lift {S A} (o : outcome ConfigError.ConfigError A) : ST S ConfigError.ConfigError A := λ s, (o, s).

(** [watches] says how the creation of the watcher and the calls of [watch] end. *)
Definition new (env : Vars) (args : Args) (watches : list bool) : ST Disk ConfigError.ConfigError Store :=
  path ← lift (default_path env);
  let config_path := default (path ++ [CONFIG_FILE_NAME]) (arg_config args) in
  match parent config_path with
  | None => panic
  | Some config_dir =>
      io_err (create_dir_all config_dir) ;;
      present ← gets (λ d, path_exists config_path (nodes d));
      (if present : bool then mret tt
       else match to_string_pretty empty_toml with
            | None => panic
            | Some text => io_err (file_create config_path ;; write_text config_path text)
            end) ;;
      config_toml ← io_err (load config_path);
      path ← lift (default_path env);
      let cert_path := default (path ++ [CERT_FILE_NAME]) (union (arg_cert_path args) (config_toml ≫= t_cert_path)) in
      if default true (watches !! 0) && default true (watches !! 1)
      then d ← get_st;
           mret (mkStore d (mkConfigFile args config_toml) cert_path config_path config_dir true [] (drop 2 watches))
      else raise ConfigError.Watcher
  end.

Definition watch : M unit :=
  ok ← gets (λ s, default true (head (watch_answers s)));
  modify_st (λ s, set_watch (ok || watching s) (tail (watch_answers s)) s) ;;
  if ok : bool then mret tt else raise ConfigError.Watcher.
(** [unwatch] fails when nothing is watched. *)
Definition unwatch : M unit :=
  on ← gets watching;
  modify_st (λ s, set_watch false (watch_answers s) s) ;;
  if on : bool then mret tt else raise ConfigError.Watcher.

Definition read_from_disk : M bool :=
  path ← gets config_path;
  text ← on_disk (read_to_string path);
  match parse_document text with
  | None => mret false
  | Some doc =>
      match from_document doc with
      | Some t =>
          changed ← gets (λ s, bool_decide (config_toml (config s) ≠ Some t));
          modify_st (λ s, set_config (mkConfigFile (args (config s)) (Some t)) s) ;;
          mret changed
      | None => mret false
      end
  end.

Definition data_event (k : EventKind) : bool :=
  match k with Create | Modify Data | Remove => true | _ => false end.
Definition concerns (p : Path) (e : FsEvent) : bool := bool_decide (p ∈ paths e) && data_event (kind e).
(** One turn of the loop of [changed]: the answer says whether it returns. *)
Definition changed_turn (e : unit + FsEvent) : M bool :=
  match e with
  | inl _ => panic
  | inr e =>
      path ← gets config_path;
      if concerns path e then read_from_disk else mret false
  end.
(** [changed], as far as the queue goes: [false] is still waiting. *)
Fixpoint changed_loop (l : list (unit + FsEvent)) : M bool :=
  match l with
  | [] => mret false
  | e :: l =>
      modify_st (set_rx l) ;;
      done ← changed_turn e;
      if done : bool then mret true else changed_loop l
  end.
Definition changed : M bool := gets watch_rx ≫= changed_loop.

Definition write_back : M unit :=
  tree ← gets (λ s, default empty_toml (config_toml (config s)));
  match to_string_pretty tree with
  | None => panic
  | Some text =>
      attempt unwatch ;;
      path ← gets config_path;
      match parent path with Some up => on_disk (create_dir_all up) | None => mret tt end ;;
      on_disk (file_create path ;; write_text path text ;; sync_all) ;;
      attempt watch ;;
      mret tt
  end.

(** The end of [save_config] of the service: an error is logged. *)
Definition save_config (clients : list ConfigClient) (keys : gmap string string) : M unit :=
  modify_st (λ s, set_config (set_authorized_keys keys (set_clients clients (config s))) s) ;;
  attempt write_back ;;
  mret tt.

(** [default_transport_config] of the QUIC endpoints, of a timeout in seconds: a
    [VarInt] of milliseconds. *)
Definition default_transport_config (idle_timeout : Z) : outcome ConfigError.ConfigError unit :=
  if (idle_timeout <? 5)%Z then Panic
  else if (idle_timeout * 1000 <? 2 ^ 62)%Z then Ok tt else Panic.

(** ** Runs *)

(** What happens to a running program: another program changes the file, which
    is reported while it is watched; other reports; a turn of the main loop that
    takes an event; a setter followed by [write_back]. *)
Inductive Step : Type :=
| Edit (file : option Node) (k : EventKind)
| Report (e : unit + FsEvent)
| Turn
| Save (f : Config.Config → Config.Config).

Definition step (st : Step) : M unit :=
  match st with
  | Edit file k =>
      modify_st (λ s,
        let s' := set_disk (set_nodes (partial_alter (λ _, file) (config_path s)) (disk s)) s in
        if watching s then set_rx (watch_rx s ++ [inr (mkEvent k [config_path s])]) s' else s')
  | Report e => modify_st (λ s, set_rx (watch_rx s ++ [e]) s)
  | Turn =>
      l ← gets watch_rx;
      match l with
      | [] => mret tt
      | e :: l => modify_st (set_rx l) ;; attempt (changed_turn e) ;; mret tt
      end
  | Save f => modify_st (λ s, set_config (f (config s)) s) ;; attempt write_back ;; mret tt
  end.
Fixpoint run (l : list Step) : M unit :=
  match l with [] => mret tt | st :: l => step st ;; run l end.
End store.

(** * Calls *)

#[local] Arguments readable : simpl never.
#[local] Arguments writable : simpl never.
#[local] Arguments as_bytes : simpl never.
#[local] Arguments from_utf8 : simpl never.

Definition settled (d : Disk) : Prop := answers d = [].
Definition quiet (s : Store) : Prop := settled (disk s).

Lemma settled_io {A} (call : gmap Path Node → option (A * gmap Path Node)) : preserves settled (io call).
Proof.
  intros d Hd. unfold settled in *. rewrite (io_works call [] d) by (by right). by destruct (call (nodes d)) as [[]|].
Qed.
Lemma settled_ask : preserves settled ask.
Proof. intros d Hd. unfold settled in *. destruct d as [ns as_ n]. cbn in *. by subst. Qed.
Lemma settled_nodes f : preserves settled (modify_st (E := Identity.Error) (set_nodes f)).
Proof. by intros d Hd. Qed.
Lemma settled_write_all p text : preserves settled (write_text p text).
Proof.
  apply preserves_bind; [apply settled_ask|]. intros [].
  - apply settled_nodes.
  - apply preserves_raise.
  - apply settled_nodes.
  - apply preserves_bind; [apply settled_nodes|]. intros _. apply preserves_raise.
Qed.
Lemma settled_read p : preserves settled (read_to_string p).
Proof.
  apply preserves_bind; [apply settled_io|]. intros data. destruct (from_utf8 data); [apply preserves_ret|apply preserves_raise].
Qed.
Lemma quiet_on_disk {A} (m : Identity.M A) : preserves settled m → preserves quiet (on_disk m).
Proof. intros Hm s Hs. specialize (Hm _ Hs). unfold on_disk, io_err. by destruct (m (disk s)). Qed.

(** [fs::read_to_string] gives the text of the file, and leaves the disk. *)
Definition text_at (p : Path) (ns : gmap Path Node) : option string :=
  match ns !! p with Some (File mode data) => if readable mode then from_utf8 data else None | _ => None end.
Lemma read_cases p d : ∃ r d', read_to_string p d = (r, d') ∧ nodes d' = nodes d ∧ ∀ text, r = Ok text → text_at p (nodes d) = Some text.
Proof.
  unfold read_to_string, mbind, ST_bind, fs_read.
  destruct (io_cases (λ ns, match ns !! p with Some (File mode data) => if readable mode then Some (data, ns) else None | _ => None end) d)
    as [(data & ns & d' & Ec & -> & <-)|(r & d' & -> & Hn & Hr)].
  - unfold text_at. destruct (nodes d !! p) as [[|mode data']|]; try done. destruct (readable mode); [|done]. injection Ec as <- Hn.
    destruct (from_utf8 data'); cbn; eexists _, _; split_and!; try done; by intros text [= <-].
  - destruct r as [data| | |]; [by destruct (Hr data)|..]; eexists _, _; split_and!; try done; by intros.
Qed.
Lemma read_settled p d : settled d →
  read_to_string p d = (match text_at p (nodes d) with Some text => Ok text | None => Err Identity.Io end, d).
Proof.
  intros Hd. unfold settled in Hd. unfold read_to_string, mbind, ST_bind, fs_read. rewrite (io_works _ [] d) by (by right).
  unfold text_at. destruct d as [ns as_ n]. cbn in *. subst.
  destruct (ns !! p) as [[|mode data]|]; [done| |done]. destruct (readable mode); [|done]. by destruct (from_utf8 data).
Qed.

(** A text that was written whole is all that is in the file, which keeps the
    mode that it had. *)
Definition mode_kept (p : Path) (ns : gmap Path Node) (mode : Z) : Prop :=
  (ns !! p = None ∧ mode = DEFAULT_MODE) ∨ ∃ data, ns !! p = Some (File mode data).
Lemma create_cases p d : ∃ r d', file_create p d = (r, d') ∧ ∀ u, r = Ok u → ∃ mode, nodes d' = <[p := File mode []]> (nodes d) ∧ mode_kept p (nodes d) mode.
Proof.
  unfold file_create. match goal with |- context [io ?c] => set (call := c) end.
  destruct (io_cases call d) as [(u & ns & d' & Ec & -> & <-)|(r & d' & -> & Hn & Hr)]; eexists _, _; (split; [done|]); [|by intros u ->; destruct (Hr u)].
  intros _ _. unfold call in Ec. unfold mode_kept. destruct (nodes d !! p) as [[|mode data]|] eqn:Ep; [done| |].
  - destruct (writable mode); [|done]. injection Ec as <- <-. eauto.
  - destruct (parent p) as [up|]; [cbn in Ec|done]. destruct (nodes d !! up) as [[|]|]; try done. injection Ec as <- <-. eauto.
Qed.
Lemma write_cases p text d : ∃ r d', write_text p text d = (r, d') ∧ ∀ u, r = Ok u → nodes d' = append p (as_bytes text) (nodes d).
Proof.
  unfold write_text, mbind, ST_bind, ask. destruct (head (answers d)) as [[]|]; cbn; eexists _, _; (split; [done|]); try done; by intros u [=].
Qed.
Lemma written p text d r d' : (file_create p ;; write_text p text) d = (r, d') → ∀ u, r = Ok u →
  ∃ mode, nodes d' = <[p := File mode (as_bytes text)]> (nodes d) ∧ mode_kept p (nodes d) mode.
Proof.
  unfold mbind, ST_bind. destruct (create_cases p d) as (r1 & d1 & -> & H1). destruct r1 as [[]| | |]; [|by intros [= <- _]..].
  destruct (H1 tt eq_refl) as (mode & En & Hm). destruct (write_cases p text d1) as (r2 & d2 & -> & H2). intros [= <- <-] u Hu.
  exists mode. split; [|done]. rewrite (H2 u Hu), En. unfold append. rewrite lookup_insert_eq. cbn. by rewrite insert_insert_eq.
Qed.
Lemma sync_cases d : ∃ r d', sync_all d = (r, d') ∧ nodes d' = nodes d.
Proof.
  unfold sync_all. destruct (io_cases (λ ns, Some (tt, ns)) d) as [(a & ns & d' & [= <- <-] & -> & Hn)|(r & d' & -> & Hn & _)]; eauto.
Qed.
Lemma mkdirs_keeps up p ns0 ns q : mkdirs up p ns0 = Some ns → ns0 !! q = Some Dir → ns !! q = Some Dir.
Proof.
  revert up ns0. induction p as [|c p IH]; intros up ns0 Em E1; cbn [mkdirs] in Em;
    (destruct (decide (up = q)) as [->|Hq]; [|assert (<[up := Dir]> ns0 !! q = Some Dir) as E1' by (by rewrite lookup_insert_ne)]).
  - destruct (ns0 !! q) as [[|]|]; [|done|]; injection Em as <-; by rewrite lookup_insert_eq.
  - destruct (ns0 !! up) as [[|]|]; [|done|]; injection Em as <-; by rewrite E1'.
  - rewrite E1 in Em. eapply IH; [exact Em|]. apply lookup_insert_eq.
  - destruct (ns0 !! up) as [[|]|]; [|done|]; eapply IH; eauto.
Qed.
(** Directories that are made leave the files as they are. *)
Lemma dirs_cases p d : ∃ r d', create_dir_all p d = (r, d') ∧
  ∀ q, text_at q (nodes d') = text_at q (nodes d) ∧ ∀ mode, mode_kept q (nodes d') mode → mode_kept q (nodes d) mode.
Proof.
  unfold create_dir_all. match goal with |- context [io ?c] => set (call := c) end.
  destruct (io_cases call d) as [(u & ns & d' & Ec & -> & <-)|(r & d' & -> & Hn & _)]; eexists _, _; (split; [done|]); [|by rewrite Hn].
  intros q. unfold call in Ec. destruct (mkdirs [] p (nodes d)) as [ns|] eqn:Em; [|done]. injection Ec as _ <-.
  pose proof (λ mode data, mkdirs_files _ _ _ _ q mode data Em) as Hf. split.
  - unfold text_at. destruct (nodes d !! q) as [[|m data]|] eqn:E1; [| |].
    + destruct (ns !! q) as [[|m data]|] eqn:E2; [done| |done]. by discriminate (proj1 (Hf m data) eq_refl).
    + by rewrite (proj2 (Hf m data) eq_refl).
    + destruct (ns !! q) as [[|m data]|] eqn:E2; [done| |done]. by discriminate (proj1 (Hf m data) eq_refl).
  - intros mode [[Hn ->]|[data Hd]]; [|right; exists data; by apply Hf].
    left. split; [|done]. destruct (nodes d !! q) as [[|m data]|] eqn:E1; [| |done].
    + by rewrite (mkdirs_keeps _ _ _ _ _ Em E1) in Hn.
    + by rewrite (proj2 (Hf m data) eq_refl) in Hn.
Qed.

(** ** Saving and reading *)

(** The tree in memory, as [write_back] takes it, and the one in the file. *)
Definition memory (s : Store) : ConfigToml := default empty_toml (config_toml (config s)).

Section calls.
Context `{TomlText} {L : TomlLaws}.

Definition in_file (s : Store) : option ConfigToml := text_at (config_path s) (nodes (disk s)) ≫= from_str.
Definition agrees (s : Store) : Prop := ∀ t, in_file s = Some t → memory s = t.

(** How a save ends: in the file, unless it panics; or without watching. *)
Lemma write_back_cases s : ∃ r s', write_back s = (r, s') ∧ config s' = config s ∧ config_path s' = config_path s ∧ watch_rx s' = watch_rx s ∧
  match r with
  | Ok _ => ∃ text mode, to_string_pretty (memory s) = Some text ∧ mode_kept (config_path s) (nodes (disk s)) mode ∧
      nodes (disk s') !! config_path s = Some (File mode (as_bytes text))
  | Err _ => watching s' = false
  | _ => True
  end.
Proof.
  unfold write_back, mbind, ST_bind, gets. fold (memory s). destruct (to_string_pretty (memory s)) as [text|] eqn:Et.
  2: { eexists _, _. by split_and!. }
  set (s1 := set_watch false (watch_answers s) s).
  assert (attempt unwatch s = (Ok (if watching s then inr tt else inl ConfigError.Watcher), s1)) as ->.
  { unfold attempt, unwatch, mbind, ST_bind, gets, modify_st. cbn. by destruct (watching s). }
  change (config_path s1) with (config_path s). cbv iota beta.
  set (mk := match parent (config_path s) with Some up => on_disk (create_dir_all up) | None => mret tt end).
  assert (∃ r d, mk s1 = (r, set_disk d s1) ∧ ∀ mode, mode_kept (config_path s) (nodes d) mode → mode_kept (config_path s) (nodes (disk s)) mode) as (r & d & -> & Hk).
  { unfold mk. destruct (parent (config_path s)) as [up|]; [|by exists (Ok tt), (disk s)].
    unfold on_disk, io_err. destruct (dirs_cases up (disk s1)) as (r & d & -> & Hd). eexists _, d. split; [done|]. apply Hd. }
  destruct r as [[]| | |]; [|by eexists _, _; split_and!..].
  unfold on_disk, io_err, sync_all. cbn [disk set_disk].
  destruct ((file_create (config_path s) ;; write_text (config_path s) text) d) as [r1 d1] eqn:E1.
  assert ((file_create (config_path s) ;; write_text (config_path s) text ;; sync_all) d =
    match r1 with Ok _ => sync_all d1 | Err e => (Err e, d1) | Panic => (Panic, d1) | Diverge => (Diverge, d1) end) as E2.
  { revert E1. unfold mbind, ST_bind. destruct (file_create (config_path s) d) as [[[]| | |] d2]; [|by intros [= <- <-]..].
    by intros ->. }
  unfold sync_all in E2. unfold mbind, ST_bind in E2. rewrite E2. clear E2.
  destruct r1 as [[]| | |]; [|by eexists _, _; split_and!..].
  destruct (written _ _ _ _ _ E1 tt eq_refl) as (mode & Hn & Hm).
  destruct (sync_cases d1) as (r2 & d2 & E2 & Hn2). unfold sync_all in E2. rewrite E2.
  destruct r2 as [[]| | |]; cbn [map_err]; [|by eexists _, _; split_and!..].
  unfold attempt, watch, mbind, ST_bind, gets, modify_st, raise. cbn.
  destruct (default true (head (watch_answers s))); eexists _, _; (split; [done|]); cbn; (split_and!; [done..|]);
    exists text, mode; (split_and!; [done|by apply Hk|]); by rewrite Hn2, Hn, lookup_insert_eq.
Qed.
Lemma quiet_write_back : preserves quiet write_back.
Proof.
  intros s Hs. unfold write_back. apply preserves_bind; [apply preserves_gets| |done]. intros tree.
  destruct (to_string_pretty tree) as [text|]; [|apply preserves_panic].
  apply preserves_bind; [apply preserves_attempt|intros _].
  { unfold unwatch. apply preserves_bind; [apply preserves_gets|]. intros on. apply preserves_bind; [by intros s1|].
    intros _. destruct on; [apply preserves_ret|apply preserves_raise]. }
  apply preserves_bind; [apply preserves_gets|]. intros path. apply preserves_bind.
  { destruct (parent path) as [up|]; [apply quiet_on_disk, settled_io|apply preserves_ret]. }
  intros _. apply preserves_bind.
  { apply quiet_on_disk. apply preserves_bind; [apply settled_io|]. intros _. apply preserves_bind; [apply settled_write_all|]. intros _. apply settled_io. }
  intros _. apply preserves_bind; [apply preserves_attempt|intros _; apply preserves_ret].
  unfold watch. apply preserves_bind; [apply preserves_gets|]. intros ok. apply preserves_bind; [by intros s1|].
  intros _. destruct ok; [apply preserves_ret|apply preserves_raise].
Qed.

(** A call that returns, from states where [I] holds, and keeps it. *)
Definition finishes {T E A} (I : T → Prop) (m : ST T E A) : Prop := ∀ t, I t → returns (fst (m t)) ∧ I (snd (m t)).
Lemma finishes_bind {T E A B} (I : T → Prop) (m : ST T E A) (f : A → ST T E B) :
  finishes I m → (∀ a, finishes I (f a)) → finishes I (m ≫= f).
Proof.
  intros Hm Hf t Ht. unfold mbind, ST_bind. destruct (Hm t Ht) as [Hr Hi]. destruct (m t) as [[a|e| |] t']; try done. by apply Hf.
Qed.
Lemma finishes_io {A} (call : gmap Path Node → option (A * gmap Path Node)) : finishes settled (io call).
Proof.
  intros d Hd. unfold settled in *. rewrite (io_works call [] d) by (by right). by destruct (call (nodes d)) as [[]|].
Qed.
Lemma finishes_write p text : finishes settled (write_text p text).
Proof.
  intros d Hd. split; [|by apply settled_write_all]. unfold settled in Hd. unfold write_text, mbind, ST_bind, ask. by rewrite Hd.
Qed.
Lemma finishes_on_disk {A} (m : Identity.M A) : finishes settled m → finishes quiet (on_disk m).
Proof.
  intros Hm s Hs. destruct (Hm _ Hs) as [Hr Hi]. unfold on_disk, io_err. destruct (m (disk s)) as [[] d]; by split.
Qed.
Lemma finishes_attempt {T E A} (I : T → Prop) (m : ST T E A) : finishes I m → finishes I (attempt m).
Proof. intros Hm t Ht. destruct (Hm t Ht) as [Hr Hi]. unfold attempt. by destruct (m t) as [[] t']. Qed.

(** Unless the program is killed, a save panics exactly when the tree has a number
    that TOML cannot hold: what the service takes for its own [write_back]. *)
Lemma save_panics {T} (svc : Service.Service T) s : quiet s → Service.config svc = config s →
  fst (write_back s) = Panic ↔ fst (Service.write_back svc) = Panic.
Proof.
  intros Hq Hc. unfold Service.write_back, write_back, mbind at 1 9, ST_bind at 1 9, gets.
  unfold Service.stored_tree. rewrite Hc.
  destruct (to_string_pretty _) as [text|]; [|done]. split; [|done]. intros Hp. exfalso. revert Hp.
  match goal with |- fst (?m s) = Panic → _ => assert (finishes quiet m) as Hf; [|destruct (Hf s Hq) as [Hr _]; by destruct (m s) as [[] ?]] end.
  apply finishes_bind; [apply finishes_attempt|intros _].
  { intros s1 Hs1. unfold unwatch, mbind, ST_bind, gets, modify_st. by destruct (watching s1). }
  apply finishes_bind; [by intros s1|]. intros path. apply finishes_bind.
  { destruct (parent path); [apply finishes_on_disk, finishes_io|by intros s1]. }
  intros _. apply finishes_bind.
  { apply finishes_on_disk, finishes_bind; [apply finishes_io|]. intros _.
    apply finishes_bind; [apply finishes_write|]. intros _. apply finishes_io. }
  intros _. apply finishes_bind; [apply finishes_attempt|by intros _ s1].
  intros s1 Hs1. unfold watch, mbind, ST_bind, gets, modify_st. by destruct (default true (head (watch_answers s1))).
Qed.

(** Reading takes over what the file has, if that can be read: the service sees
    it as [Config.read_from_disk]. *)
Definition taken_over (s : Store) : Store := set_config (Config.read_from_disk (in_file s) (config s)) s.
Lemma set_config_same s : set_config (config s) s = s.
Proof. by destruct s. Qed.
Lemma read_from_disk_settled s : quiet s → ∃ r, read_from_disk s = (r, taken_over s) ∧ returns r.
Proof.
  intros Hs. unfold read_from_disk, taken_over, in_file, mbind, ST_bind, gets, on_disk, io_err. cbv beta iota.
  rewrite read_settled by done. replace (set_disk (disk s) s) with s by (by destruct s).
  destruct (text_at (config_path s) (nodes (disk s))) as [text|]; cbn [map_err option_bind]; [|cbn; rewrite set_config_same; by eexists].
  rewrite <- (same_reader text). destruct (parse_document text) as [doc|]; cbn [mbind option_bind]; [|cbn; rewrite set_config_same; by eexists].
  destruct (from_document doc) as [t|]; [|cbn; rewrite set_config_same; by eexists]. unfold modify_st. by eexists.
Qed.
Lemma taken_over_agrees s : agrees (taken_over s).
Proof.
  intros t. unfold taken_over, in_file. cbn. intros ->. done.
Qed.
Lemma text_written (ns : gmap Path Node) p t text mode : to_string_pretty t = Some text → readable mode = true →
  ns !! p = Some (File mode (as_bytes text)) → text_at p ns = Some text.
Proof.
  intros Ht Hr Hn. unfold text_at. rewrite Hn, Hr. unfold from_utf8. rewrite (written_utf8 _ _ Ht). f_equal. apply of_bytes_as_bytes.
Qed.
End calls.

(** * While the program runs *)

Section runs.
Context `{TomlText} {L : TomlLaws}.
Variable unix : bool.

(** An event that [changed] will look at. *)
Definition pending (s : Store) : Prop := ∃ e, inr e ∈ watch_rx s ∧ concerns (config_path s) e = true.
(** Every edit is reported with an event that [changed] looks at. *)
Definition noticed (st : Step) : Prop := match st with Edit _ k => data_event k = true | _ => True end.
Definition in_sight (s : Store) : Prop := quiet s ∧ (watching s = true → pending s ∨ agrees s).

Lemma turn_in_sight s e l : watch_rx s = e :: l → in_sight s → ∀ s', step Turn s = (Ok tt, s') → in_sight s'.
Proof.
  intros El [Hq Hw] s'. unfold step, mbind, ST_bind, gets. rewrite El. unfold modify_st. cbv iota beta.
  set (s1 := set_rx l s). destruct e as [[]|e]; [by cbn|]. unfold attempt, changed_turn, mbind, ST_bind, gets. cbv iota beta.
  change (config_path s1) with (config_path s). destruct (concerns (config_path s) e) eqn:Ec.
  - destruct (read_from_disk_settled s1 Hq) as (r & Er & Hr). rewrite Er.
    assert (in_sight (taken_over s1)) as Hi.
    { split; [done|]. intros _. right. apply taken_over_agrees. }
    destruct r; cbn; [by intros [= <-]..| |]; done.
  - cbn. intros [= <-]. split; [done|]. intros Hon. destruct (Hw Hon) as [(e' & He & Hc)|]; [|by right].
    left. exists e'. split; [|done]. rewrite El in He. cbn. apply elem_of_cons in He as [[= ->]|He]; [congruence|done].
Qed.
Lemma save_in_sight f s : quiet s → ∀ s', step (Save f) s = (Ok tt, s') → in_sight s'.
Proof.
  intros Hq s'. unfold step, mbind, ST_bind, modify_st, attempt. cbv iota beta. set (s1 := set_config (f (config s)) s).
  pose proof (quiet_write_back s1 Hq) as Hq'. destruct (write_back_cases s1) as (r & s2 & E & _ & Hp & _ & Hc). rewrite E in *. cbn [snd] in Hq'.
  destruct r as [u|e| |]; [| |done..]; intros [= <-]; (split; [done|]); [|by rewrite Hc].
  intros _. right. destruct Hc as (text & mode & Ht & _ & Hn). intros t. unfold in_file. rewrite Hp.
  destruct (readable mode) eqn:Hr; [|by unfold text_at; rewrite Hn, Hr].
  rewrite (text_written _ _ _ _ _ Ht Hr Hn). cbn [mbind option_bind]. rewrite (read_back _ _ Ht). intros [= <-].
  by destruct (write_back_cases s1) as (? & ? & E2 & Hcfg & _); rewrite E in E2; injection E2 as <- <-; unfold memory; rewrite Hcfg.
Qed.
Lemma step_in_sight st s s' : noticed st → in_sight s → step st s = (Ok tt, s') → in_sight s'.
Proof.
  intros Hn Hs. destruct st as [file k|e| |f].
  - destruct Hs as [Hq Hw]. cbn. unfold modify_st. destruct (watching s) eqn:Hon; intros [= <-]; (split; [done|]); cbn; [|congruence].
    intros _. left. eexists. split; [apply elem_of_app; right; by left|]. unfold concerns. cbn. rewrite Hn, andb_true_r. apply bool_decide_eq_true. by left.
  - destruct Hs as [Hq Hw]. cbn. unfold modify_st. intros [= <-]. split; [done|]. intros Hon. cbn in Hon.
    destruct (Hw Hon) as [(e' & He & Hc)|]; [left|by right]. exists e'. split; [|done]. cbn. apply elem_of_app. by left.
  - destruct (watch_rx s) as [|e l] eqn:El; [|by apply (turn_in_sight s e l)].
    unfold step, mbind, ST_bind, gets. rewrite El. by intros [= <-].
  - destruct Hs as [Hq _]. by apply save_in_sight.
Qed.
Lemma run_in_sight l s s' : Forall noticed l → in_sight s → run l s = (Ok tt, s') → in_sight s'.
Proof.
  intros Hl. revert s. induction Hl as [|st l Hn _ IH]; intros s Hs; cbn [run]; [by intros [= <-]|].
  unfold mbind, ST_bind. destruct (step st s) as [[[]| | |] s1] eqn:E; [|done..]. intros E2. eapply IH; [|exact E2]. by eapply step_in_sight.
Qed.

(** A start reads the file that it finds or makes. *)
Lemma new_reads env args watches d s d' : settled d → new unix env args watches d = (Ok s, d') →
  quiet s ∧ config s = mkConfigFile args (in_file s) ∧
  (∀ text, text_at (config_path s) (nodes d) = Some text → text_at (config_path s) (nodes (disk s)) = Some text).
Proof.
  intros Hd. unfold new, lift. unfold mbind at 1, ST_bind at 1. destruct (default_path unix env) as [path| | |]; [|done..].
  set (p := default (path ++ [CONFIG_FILE_NAME]) (arg_config args)). destruct (parent p) as [dir|]; [|done].
  unfold mbind at 1, ST_bind at 1, io_err at 1. destruct (dirs_cases dir d) as (r & d1 & E1 & Hk).
  pose proof (settled_io (λ ns, pair tt <$> mkdirs [] dir ns) d Hd) as Hd1. fold (create_dir_all dir) in Hd1. rewrite E1 in Hd1 |- *. cbn [snd] in Hd1.
  destruct r as [[]| | |]; [|done..]. cbn [map_err]. unfold mbind at 1, ST_bind at 1, gets. cbv iota beta.
  set (fresh := if path_exists p (nodes d1) then _ else _). unfold mbind at 1, ST_bind at 1.
  assert (∀ u d2, fresh d1 = (Ok u, d2) → settled d2 ∧ ∀ text, text_at p (nodes d1) = Some text → text_at p (nodes d2) = Some text) as Hf.
  { intros u d2. unfold fresh. destruct (path_exists p (nodes d1)) eqn:Ep; [by intros [= _ <-]|].
    destruct (to_string_pretty empty_toml) as [text|]; [|done]. unfold io_err.
    assert (preserves settled (file_create p ;; write_text p text)) as Hs.
    { apply preserves_bind; [apply settled_io|]. intros _. apply settled_write_all. }
    specialize (Hs d1 Hd1). destruct ((file_create p ;; write_text p text) d1) as [r d3]. intros [= _ <-]. split; [done|].
    intros text'. unfold text_at. unfold path_exists in Ep. apply bool_decide_eq_false in Ep. destruct (nodes d1 !! p); [|done]. by destruct Ep. }
  destruct (fresh d1) as [[u| | |] d2]; [|done..]. destruct (Hf u d2 eq_refl) as [Hd2 Ht]. clearbody fresh. clear Hf.
  unfold mbind at 1, ST_bind at 1, io_err at 1, load. unfold mbind at 1, ST_bind at 1, attempt. rewrite read_settled by done.
  set (tree := text_at p (nodes d2) ≫= from_str).
  intros E. assert (s = mkStore d2 (mkConfigFile args tree) (cert_path s) p dir true [] (drop 2 watches)) as Hs.
  { revert E. unfold tree. destruct (text_at p (nodes d2)) as [text|]; cbn [mret ST_ret map_err mbind option_bind]; unfold mbind, ST_bind; destruct (default true (watches !! 0) && default true (watches !! 1));
      cbn; by intros [= <- _]. }
  rewrite Hs. split_and!; [done|done|]. cbn. intros text Htx. apply Ht. by rewrite (proj1 (Hk p)).
Qed.

(** * Properties *)

(** C30. The configuration that the program works with is the one in the file: in
    a run of any edits by other programs, saves, reports of the watcher and
    turns of the main loop in any order, in which every edit is reported by an
    event that [changed] looks at, whenever the directory is watched and no such
    event is left in the queue, the tree in memory is the tree in the file, if
    that can be read. *)
Theorem memory_follows_file env args watches d s0 d' l s :
  answers d = [] → new unix env args watches d = (Ok s0, d') → Forall noticed l → run l s0 = (Ok tt, s) →
  watching s = true → (∀ e, inr e ∈ watch_rx s → concerns (config_path s) e = false) →
  ∀ text t, text_at (config_path s) (nodes (disk s)) = Some text → from_str text = Some t → memory s = t.
Proof.
  intros Hd Hnew Hl Hrun Hon Hp text t Ht Hf. destruct (new_reads _ _ _ _ _ _ Hd Hnew) as (Hq & Hc & _).
  assert (in_sight s0) as Hs0.
  { split; [done|]. intros _. right. intros t0 E0. unfold memory. by rewrite Hc, E0. }
  destruct (run_in_sight _ _ _ Hl Hs0 Hrun) as [_ Hw]. destruct (Hw Hon) as [(e & He & Hce)|Ha].
  - by rewrite Hp in Hce.
  - apply Ha. unfold in_file. by rewrite Ht.
Qed.

(** What was saved is what the next start works with. *)
Lemma saved_is_read s s1 env args watches s2 d' : write_back s = (Ok tt, s1) →
  (∀ mode data, nodes (disk s) !! config_path s = Some (File mode data) → readable mode = true) →
  new unix env args watches (with_answers [] (disk s1)) = (Ok s2, d') → config_path s2 = config_path s →
  config s2 = mkConfigFile args (Some (memory s)).
Proof.
  intros Hw Hr Hnew Hp. destruct (write_back_cases s) as (r & s' & E & _ & Hp1 & _ & Hc). rewrite Hw in E. injection E as <- <-.
  destruct Hc as (text & mode & Ht & Hm & Hn).
  assert (readable mode = true) as Hrm by (destruct Hm as [[_ ->]|[data Hd]]; [done|by eapply Hr]).
  destruct (new_reads _ _ _ (with_answers [] (disk s1)) s2 _ eq_refl Hnew) as (_ & -> & Hk). f_equal.
  unfold in_file. rewrite (Hk text); [by apply read_back|]. rewrite Hp. by apply (text_written _ _ (memory s) _ mode).
Qed.
(** A save that reports success is read by every later start from the same file:
    the same clients, keys and settings, whatever was in the file before. *)
Theorem save_survives_restart s s1 env args watches s2 d' l : write_back s = (Ok tt, s1) →
  (∀ mode data, nodes (disk s) !! config_path s = Some (File mode data) → readable mode = true) →
  new unix env args watches (with_answers [] (disk s1)) = (Ok s2, d') → config_path s2 = config_path s →
  config_toml (config s2) = Some (memory s) ∧
  (l ≠ [] → (∃ c, config s = set_clients l c) → clients (config s2) = l).
Proof.
  intros Hw Hr Hnew Hp. rewrite (saved_is_read _ _ _ _ _ _ _ Hw Hr Hnew Hp). split; [done|].
  intros Hl [c Hc]. rewrite <- (clients_set l c Hl). unfold memory. rewrite Hc. by destruct l.
Qed.

(** C40. A save that fails leaves the directory unwatched, so no edit is noticed until
    a save succeeds: the program goes on with what it had.  That is when no event
    was waiting as the save failed; one that was reported before is still served. *)
Theorem deaf_after_failed_save s e s1 l r s2 : write_back s = (Err e, s1) → watch_rx s1 = [] →
  Forall (λ st, match st with Save _ | Report _ => False | _ => True end) l → run l s1 = (r, s2) →
  config s2 = config s ∧ watching s2 = false.
Proof.
  intros Hw Hq Hl Hrun. destruct (write_back_cases s) as (? & ? & E & Hc & _ & _ & Hoff). rewrite Hw in E. injection E as <- <-.
  rewrite <- Hc. clear Hw Hc. revert s1 Hq Hoff Hrun. induction Hl as [|st l Hst _ IH]; intros s1 Hq Hoff; cbn [run]; [by intros [= _ <-]|].
  unfold mbind at 1, ST_bind at 1. destruct st as [file k| | |f]; [|done| |done]; cbn [step].
  - unfold modify_st. rewrite Hoff. apply (IH (set_disk _ s1)); done.
  - unfold mbind, ST_bind, gets. rewrite Hq. by apply IH.
Qed.

(** A file that does not parse is lost with the first save: the program starts
    with nothing, and a save without clients writes the keys alone. *)
Theorem broken_file_overwritten env args watches d s0 d' keys s1 :
  answers d = [] → new unix env args watches d = (Ok s0, d') → in_file s0 = None →
  (∀ mode data, nodes (disk s0) !! config_path s0 = Some (File mode data) → readable mode = true) →
  write_back (set_config (set_authorized_keys keys (set_clients [] (config s0))) s0) = (Ok tt, s1) →
  in_file s1 = Some (mkToml None None None None None None (Some keys) None None None None).
Proof.
  intros Hd Hnew Hn Hr Hw. destruct (new_reads _ _ _ _ _ _ Hd Hnew) as (_ & Hc & _). rewrite Hc, Hn in Hw.
  destruct (write_back_cases (set_config (set_authorized_keys keys (set_clients [] (mkConfigFile args None))) s0)) as (r & s' & E & _ & Hp & _ & H3).
  rewrite Hw in E. injection E as <- <-. destruct H3 as (text & mode & Ht & Hm & Hf). cbn in Hp, Ht, Hm, Hf. unfold in_file. rewrite Hp.
  rewrite (text_written _ _ _ _ mode Ht); [by rewrite <- (read_back _ _ Ht)| |done].
  destruct Hm as [[_ ->]|[data Hdt]]; [done|by eapply Hr].
Qed.

(** A timeout beyond what TOML can hold ends the program when it is saved; one
    beyond what QUIC can hold is saved, and ends every later start. *)
Theorem timeout_too_long s secs : in_range (memory s) = true →
  let s' := set_config (set_quic_idle_timeout secs (config s)) s in
  ((2 ^ 63 ≤ secs)%Z → fst (write_back s') = Panic) ∧
  ∀ s1 env args watches s2 d', (2 ^ 62 ≤ secs * 1000)%Z → write_back s' = (Ok tt, s1) →
  (∀ mode data, nodes (disk s) !! config_path s = Some (File mode data) → readable mode = true) →
  new unix env args watches (with_answers [] (disk s1)) = (Ok s2, d') → config_path s2 = config_path s →
  default_transport_config (quic_idle_timeout (config s2)) = Panic.
Proof.
  intros Hin s'. split.
  - intros Hs. assert (to_string_pretty (memory s') = None) as Hn.
    { destruct (to_string_pretty (memory s')) eqn:E; [|done]. assert (in_range (memory s') = true) as Hr by (apply written_in_range; by rewrite E).
      unfold in_range in Hr. cbn in Hr. unfold i64_fits in Hr at 1. cbn in Hr. unfold i64_max, MIN_IDLE_SECS in Hr.
      rewrite bool_decide_eq_false_2 in Hr by lia. done. }
    unfold write_back, mbind, ST_bind, gets. fold (memory s'). by rewrite Hn.
  - intros s1 env args watches s2 d' Hs Hw Hr Hnew Hp. rewrite (saved_is_read s' _ _ _ _ _ _ Hw Hr Hnew Hp).
    unfold quic_idle_timeout, default_transport_config, MIN_IDLE_SECS. cbn.
    destruct (_ <? 5)%Z; [done|]. rewrite (proj2 (Z.ltb_ge _ _)); [done|]. lia.
Qed.

(** A save that is killed before it wrote leaves an empty file, and the next start
    has no clients, no keys and no settings. *)
Theorem killed_save s up ns mode data : parent (config_path s) = Some up → mkdirs [] up (nodes (disk s)) = Some ns →
  nodes (disk s) !! config_path s = Some (File mode data) → readable mode = true → writable mode = true →
  in_range (memory s) = true → answers (disk s) = [Works; Works; Killed] →
  ∃ s1, write_back s = (Panic, s1) ∧
    ∀ env args watches s2 d', new unix env args watches (with_answers [] (disk s1)) = (Ok s2, d') → config_path s2 = config_path s →
      config_toml (config s2) = Some empty_toml.
Proof.
  intros Hup Em Hf Hr Hw Hin Ha. apply written_in_range in Hin as [text Ht].
  pose proof (proj2 (mkdirs_files _ _ _ _ _ mode data Em) Hf) as Hf'.
  assert (∃ s1, write_back s = (Panic, s1) ∧ disk s1 = mkDisk (<[config_path s := File mode []]> ns) [] (made (disk s))) as (s1 & E & Hd).
  { destruct s as [[nds ans n] c cp p dir on rx wa]. cbn in *. subst ans. unfold write_back, mbind, ST_bind, gets, memory in *. cbn in *.
    rewrite Ht. unfold attempt, unwatch, mbind, ST_bind, gets, modify_st. cbn.
    destruct on; cbn; rewrite Hup; unfold on_disk, io_err, create_dir_all, io, ask, mbind, ST_bind, on_nodes; cbn; rewrite Em; cbn;
      unfold file_create, io, ask, mbind, ST_bind, on_nodes; cbn; rewrite Hf', Hw; cbn; eauto. }
  exists s1. split; [done|]. intros env args watches s2 d' Hnew Hp. rewrite Hd in Hnew.
  destruct (new_reads _ _ _ (with_answers [] _) _ _ eq_refl Hnew) as (_ & -> & Hk). cbn. unfold in_file. rewrite (Hk ""); [apply nothing_written|].
  rewrite Hp. unfold text_at. cbn. by rewrite lookup_insert_eq, Hr.
Qed.
End runs.

(** * A program *)

Module Demo.
Definition vars : Vars := mkVars None (Some ["home"; "me"]) None None.
Definition empty : Disk := mkDisk ∅ [] 0.
(** [--config c/f] *)
Definition file : Path := ["c"; "f"].
Definition with_file : Args := mkArgs None (Some file) None None None.
End Demo.

#[local] Existing Instance TomlDemo.demo_toml.
#[local] Existing Instance TomlDemo.demo_laws.
Definition no_store : Store := mkStore Demo.empty (mkConfigFile no_args None) [] [] [] false [] [].
Definition base : Store := match fst (new true Demo.vars Demo.with_file [] Demo.empty) with Ok s => s | _ => no_store end.
Lemma base_started : new true Demo.vars Demo.with_file [] Demo.empty = (Ok base, disk base).
Proof. vm_compute. reflexivity. Qed.
Definition wanted : ConfigToml := mkToml None None (Some 4243%Z) None None None (Some {["ab" := "laptop"]}) None None None None.
Definition text_of (t : ConfigToml) : string := TomlDemo.print t.
Definition edited : Node := File DEFAULT_MODE (as_bytes (text_of wanted)).
Definition a_run : list Step := [Edit (Some edited) (Modify Data); Report (inr (mkEvent Access [Demo.file])); Turn; Turn].
Definition after_run : Store := snd (run a_run base).
Lemma after_run_idle : watch_rx after_run = [].
Proof. vm_compute. reflexivity. Qed.

Lemma memory_follows_file_witness : memory after_run = wanted.
Proof.
  apply (memory_follows_file true Demo.vars Demo.with_file [] Demo.empty base (disk base) a_run after_run eq_refl base_started) with (text := text_of wanted).
  - repeat constructor.
  - vm_compute. reflexivity.
  - vm_compute. reflexivity.
  - intros e. rewrite after_run_idle. by intros ?%elem_of_nil.
  - vm_compute. reflexivity.
  - vm_compute. reflexivity.
Defined.

Definition with_client : Store := set_config (set_clients [demo_client] (config base)) base.
Definition saved : Store := snd (write_back with_client).
Definition restarted : Store := match fst (new true Demo.vars Demo.with_file [] (with_answers [] (disk saved))) with Ok s => s | _ => no_store end.
Lemma base_readable (f : Config → Config) : ∀ mode data, nodes (disk (set_config (f (config base)) base)) !! config_path (set_config (f (config base)) base) = Some (File mode data) → readable mode = true.
Proof. intros mode data. vm_compute. by intros [= <- _]. Qed.
Lemma save_survives_restart_witness : config_toml (config restarted) = Some (memory with_client) ∧ clients (config restarted) = [demo_client].
Proof.
  destruct (save_survives_restart true with_client saved Demo.vars Demo.with_file [] restarted (disk restarted) [demo_client]) as [H1 H2].
  - vm_compute. reflexivity.
  - apply base_readable.
  - vm_compute. reflexivity.
  - vm_compute. reflexivity.
  - split; [exact H1|]. apply H2; [done|]. by exists (config base).
Defined.

(** The disk is full. *)
Definition full : Store := set_disk (with_answers [Works; Works; Fails] (disk base)) base.
Definition failed : Store := snd (write_back full).
Lemma deaf_after_failed_save_witness : config (snd (run [Edit (Some edited) (Modify Data); Turn] failed)) = config base.
Proof.
  destruct (deaf_after_failed_save full ConfigError.Io failed [Edit (Some edited) (Modify Data); Turn] (fst (run [Edit (Some edited) (Modify Data); Turn] failed))
    (snd (run [Edit (Some edited) (Modify Data); Turn] failed))) as [H _]; [vm_compute; reflexivity..|repeat constructor|vm_compute; reflexivity|].
  rewrite H. vm_compute. reflexivity.
Defined.

(** A file with a typing error. *)
Definition typo : Disk := mkDisk (<[Demo.file := File DEFAULT_MODE (as_bytes "[[clients")]> (nodes (disk base))) [] 0.
Definition on_typo : Store := match fst (new true Demo.vars Demo.with_file [] typo) with Ok s => s | _ => no_store end.
Definition keys_only : Store := set_config (set_authorized_keys ∅ (set_clients [] (config on_typo))) on_typo.
Lemma broken_file_overwritten_witness :
  in_file (snd (write_back keys_only)) = Some (mkToml None None None None None None (Some ∅) None None None None).
Proof.
  apply (broken_file_overwritten true Demo.vars Demo.with_file [] typo on_typo (disk on_typo) ∅); [done|vm_compute; reflexivity..| |vm_compute; reflexivity].
  intros mode data. vm_compute. by intros [= <- _].
Defined.

Definition patient : Store := set_config (set_quic_idle_timeout 5000000000000000 (config base)) base.
Definition patient_again : Store := match fst (new true Demo.vars Demo.with_file [] (with_answers [] (disk (snd (write_back patient))))) with Ok s => s | _ => no_store end.
Lemma timeout_too_long_witness :
  fst (write_back (set_config (set_quic_idle_timeout (2 ^ 63) (config base)) base)) = Panic ∧
  default_transport_config (quic_idle_timeout (config patient_again)) = Panic.
Proof.
  split.
  - apply (timeout_too_long true base (2 ^ 63)); [vm_compute; reflexivity|done].
  - destruct (timeout_too_long true base 5000000000000000) as [_ H]; [vm_compute; reflexivity|].
    apply (H (snd (write_back patient)) Demo.vars Demo.with_file [] patient_again (disk patient_again)); [done|vm_compute; reflexivity| |vm_compute; reflexivity..].
    apply (base_readable id).
Defined.

Definition dying : Store := set_disk (with_answers [Works; Works; Killed] (disk saved)) saved.
Definition reborn : Store := match fst (new true Demo.vars Demo.with_file [] (with_answers [] (disk (snd (write_back dying))))) with Ok s => s | _ => no_store end.
Lemma killed_save_witness : config_toml (config reborn) = Some empty_toml.
Proof.
  destruct (killed_save true dying ["c"] (nodes (disk saved)) DEFAULT_MODE
    (match nodes (disk saved) !! Demo.file with Some (File _ data) => data | _ => [] end)) as (s1 & E & H); [vm_compute; reflexivity..|].
  apply (H Demo.vars Demo.with_file [] reborn (disk reborn)); [|vm_compute; reflexivity].
  replace s1 with (snd (write_back dying)) by (by rewrite E). vm_compute. reflexivity.
Defined.
