(* ===== verification/Dial.v ===== *)
(** The race of the dials (src/quic_transport/endpoint.rs, [dial_any]) and what
    the connection manager registers for its winner.

    A dial is a task that ends with a connection, with an error, or with a panic.
    The order in which the tasks end, and whether the one of the primary address
    ends before the head start is over, are arguments. *)

From S2P Require Import Prelude InputEvent Proto Codec Wire Transport Text Net Clients.
From S2P Require Import Session Connect.

(** * The race *)

Section dial_any.
(** How the dial of an address ends: [None] is a panic of its task. *)
Variable dial : SocketAddr → option (Error + SocketAddr).

(** The loop over the tasks that end, in that order: the winner, or the last
    error. *)
Fixpoint join_next (ended : list SocketAddr) (last_err : option Error) : option Error + SocketAddr :=
  match ended with
  | [] => inl last_err
  | addr :: ended =>
      match dial addr with
      | None => join_next ended last_err
      | Some (inr conn) => inr conn
      | Some (inl e) => join_next ended (Some e)
      end
  end.

(** The candidates that are spawned after the head start. *)
Fixpoint spawn_rest (all spawned : list SocketAddr) : list SocketAddr :=
  match all with
  | [] => []
  | addr :: all =>
      if decide (addr ∈ spawned) then spawn_rest all spawned
      else addr :: spawn_rest all (addr :: spawned)
  end.

Definition dial_any (early : bool) (order : list SocketAddr → list SocketAddr)
    (primary : SocketAddr) (all : list SocketAddr) : Error + SocketAddr :=
  match join_next (if early then [primary] else []) None with
  | inr conn => inr conn
  | inl last_err =>
      let running := if early then [] else [primary] in
      match join_next (order (running ++ spawn_rest all [primary])) last_err with
      | inr conn => inr conn
      | inl last_err => from_option inl (inl (EndpointSetup "dial_any: no dial result for primary ")) last_err
      end
  end.
End dial_any.

Lemma elem_of_spawn_rest all spawned a : a ∈ spawn_rest all spawned ↔ a ∈ all ∧ a ∉ spawned.
Proof.
  revert spawned. induction all as [|b all IH]; intros spawned; cbn [spawn_rest]; [set_solver|].
  case_decide; rewrite ?elem_of_cons, IH; [set_solver|]. destruct (decide (a = b)); set_solver.
Qed.
Lemma NoDup_spawn_rest all spawned : NoDup (spawn_rest all spawned).
Proof.
  revert spawned. induction all as [|b all IH]; intros spawned; cbn [spawn_rest]; [constructor|].
  case_decide; [done|]. constructor; [|done]. rewrite elem_of_spawn_rest. set_solver.
Qed.

(** ** Who wins *)

Section race.
Context (dial : SocketAddr → option (Error + SocketAddr)).
Abbreviation wins a := (∃ conn, dial a = Some (inr conn)).

(** The first of the ended tasks that has a connection wins; without one the
    last error is left. *)
Lemma join_next_spec ended err :
  match join_next dial ended err with
  | inr conn => ∃ a, a ∈ ended ∧ dial a = Some (inr conn)
  | inl err' => (∀ a, a ∈ ended → ¬ wins a) ∧
      (err' = err ∧ (∀ a, a ∈ ended → dial a = None) ∨
       ∃ a e, err' = Some e ∧ a ∈ ended ∧ dial a = Some (inl e))
  end.
Proof.
  revert err. induction ended as [|a ended IH]; intros err; cbn [join_next].
  { split; [set_solver|]. left. split; [done|set_solver]. }
  destruct (dial a) as [[e|conn]|] eqn:E; [|exists a; split; [set_solver|done]|].
  - specialize (IH (Some e)). destruct (join_next dial ended (Some e)) as [err'|conn]; [|set_solver].
    destruct IH as [Hf H]. split.
    { intros b [-> |Hb]%elem_of_cons; [intros [? ?]; congruence|by apply Hf]. }
    right. destruct H as [[-> _]|(b & e' & -> & Hb & Hd)]; [exists a, e|exists b, e']; set_solver.
  - specialize (IH err). destruct (join_next dial ended err) as [err'|conn]; [|set_solver].
    destruct IH as [Hf H]. split.
    { intros b [-> |Hb]%elem_of_cons; [intros [? ?]; congruence|by apply Hf]. }
    destruct H as [[-> Hn]|(b & e' & -> & Hb & Hd)]; [left|right; exists b, e'; set_solver].
    split; [done|]. by intros b [-> |Hb]%elem_of_cons; [|apply Hn].
Qed.
Lemma join_next_app l1 l2 err :
  join_next dial (l1 ++ l2) err =
  match join_next dial l1 err with inr conn => inr conn | inl err => join_next dial l2 err end.
Proof.
  revert err. induction l1 as [|a l1 IH]; intros err; [done|]. cbn [app join_next].
  destruct (dial a) as [[e|conn]|]; [apply IH|done|apply IH].
Qed.

(** The order in which all the dials end. *)
Definition ends (early : bool) (order : list SocketAddr → list SocketAddr) primary all : list SocketAddr :=
  if early then primary :: order (spawn_rest all [primary]) else order (primary :: spawn_rest all [primary]).
Lemma dial_any_ends early order primary all :
  dial_any dial early order primary all =
  match join_next dial (ends early order primary all) None with
  | inr conn => inr conn
  | inl err => from_option inl (inl (EndpointSetup "dial_any: no dial result for primary ")) err
  end.
Proof.
  unfold dial_any, ends. destruct early; [|done].
  change (primary :: order (spawn_rest all [primary])) with ([primary] ++ order (spawn_rest all [primary])).
  rewrite join_next_app. by destruct (join_next dial [primary] None).
Qed.

(** The race finds a connection exactly when one of the dialled addresses
    gives one, in whatever order the dials end; it is one of theirs.  Every
    address is dialled once, the primary first, and when it gives a connection
    before the head start is over no other address is dialled.  Without a
    connection the error is that of a dial, unless all of them panicked. *)
Theorem race early order primary all :
  (∀ l, order l ≡ₚ l) →
  let res := dial_any dial early order primary all in
  NoDup (primary :: spawn_rest all [primary]) ∧
  (∀ a, a ∈ primary :: spawn_rest all [primary] ↔ a = primary ∨ a ∈ all) ∧
  (∀ conn, early = true → dial primary = Some (inr conn) → res = inr conn) ∧
  match res with
  | inr conn => ∃ a, (a = primary ∨ a ∈ all) ∧ dial a = Some (inr conn)
  | inl e => (∀ a, a = primary ∨ a ∈ all → ¬ wins a) ∧
      ((∃ a, (a = primary ∨ a ∈ all) ∧ dial a = Some (inl e)) ∨ ∀ a, a = primary ∨ a ∈ all → dial a = None)
  end.
Proof.
  intros Ho res. unfold res. clear res. rewrite dial_any_ends.
  assert (∀ a, a ∈ primary :: spawn_rest all [primary] ↔ a = primary ∨ a ∈ all) as Hin.
  { intros a. rewrite elem_of_cons, elem_of_spawn_rest, list_elem_of_singleton. destruct (decide (a = primary)) as [->|]; [naive_solver|naive_solver]. }
  assert (∀ a, a ∈ ends early order primary all ↔ a = primary ∨ a ∈ all) as Hends.
  { intros a. rewrite <- Hin. unfold ends. destruct early; rewrite ?elem_of_cons, Ho, ?elem_of_cons; done. }
  split_and!; [|exact Hin| |].
  - constructor; [rewrite elem_of_spawn_rest; set_solver|apply NoDup_spawn_rest].
  - intros conn -> Hd. unfold ends. cbn [join_next]. by rewrite Hd.
  - pose proof (join_next_spec (ends early order primary all) None) as H.
    destruct (join_next dial (ends early order primary all) None) as [err|conn]; [|set_solver].
    destruct H as [Hf [[-> Hn]|(a & e & -> & Ha & Hd)]]; cbn [from_option]; (split; [set_solver|]).
    + right. set_solver.
    + left. set_solver.
Qed.
End race.

(** * The winner and the manager *)

Lemma dialing_taken h l : is_Some (take_task (Dialing h) (l ++ [Dialing h])).
Proof.
  induction l as [|t l [l' IH]]; cbn [app take_task]; [by rewrite decide_True|].
  case_decide; [eauto|]. rewrite IH. by eexists.
Qed.

(** What [connect_to_handle] registers is an address of the client: over a
    whole dial, whatever the network answers, the peer table gains at most one
    entry, whose address is one of the client's and whose port is the client's,
    and then that address is the client's active one; otherwise nothing is
    registered, and the failure counts towards the wait before the next dial. *)
Theorem dials_its_addresses {S} `{SlabLaws S} (ips_order : gset IpAddr → list IpAddr) dial early order now h hello c l ips :
  (∀ l, order l ≡ₚ l) → (∀ s, ips_order s ≡ₚ elements s) →
  (∀ a conn, dial a = Some (inr conn) → conn = a) →
  take_task (Spawned h) (tasks c) = Some l →
  get_ips h (client_manager c) = Some ips → ips ≠ ∅ → returns hello →
  let addrs := candidates ips_order h c in
  let port := default DEFAULT_PORT (get_port h (client_manager c)) in
  ∃ primary c', head addrs = Some primary ∧
    steps ips_order [EvBegin h; EvEnd now h (dial_any dial early order primary addrs) hello] c = Some c' ∧
    connecting c' = connecting c ∖ {[h]} ∧
    ((∃ ip, ip ∈ ips ∧ hello = Ok tt ∧ peers c' = <[socket_addr ip port := next_session c]> (peers c) ∧
        get_active_addr h (client_manager c') = Some (socket_addr ip port) ∧ retry_state c' !! h = None) ∨
     (peers c' = peers c ∧ client_manager c' = client_manager c ∧ 
      retry_state c' = record_retry_failure now h (retry_state c))).
Proof.
  intros Ho Hips Haddr Ht Hi Hne Hh addrs port.
  assert (addrs = (λ ip, socket_addr ip port) <$> ips_order ips) as Ha by (unfold addrs, candidates; by rewrite Hi).
  assert (ips_order ips ≠ []) as Hnil.
  { intros E. pose proof (Hips ips) as Hp. rewrite E in Hp. symmetry in Hp. apply Permutation_nil_r, elements_empty_inv in Hp. by apply leibniz_equiv in Hp. }
  destruct (ips_order ips) as [|ip0 rest] eqn:Eo; [done|].
  exists (socket_addr ip0 port). rewrite (steps_cons _ _ _ _ _ (step_begin ips_order h c l ips Ht Hi ltac:(by rewrite Eo))).
  destruct (dialing_taken h l) as [l' Hl'].
  unfold steps, step. cbn [spawn set_tasks tasks]. rewrite Hl'. cbn [mbind option_bind].
  eexists. split; [by rewrite Ha|]. split; [done|].
  destruct (race dial early order (socket_addr ip0 port) addrs Ho) as (_ & _ & _ & Hres).
  destruct (dial_any dial early order (socket_addr ip0 port) addrs) as [e|remote]; cbn [connect_end].
  { split; [done|]. right. done. }
  destruct hello as [[]|e| |]; try done; [|split; [done|by right]].
  split; [done|]. left. destruct Hres as (a & Hin & Hd). apply Haddr in Hd as ->.
  assert (a ∈ addrs) as Hin'. { destruct Hin as [->|?]; [|done]. rewrite Ha. cbn. set_solver. }
  rewrite Ha in Hin'. apply list_elem_of_fmap in Hin' as (ip & -> & Hip). exists ip.
  rewrite <- Eo, Hips in Hip. apply elem_of_elements in Hip. split_and!; [done|done|done| |].
  - cbn. apply get_active_set, (ips_some h _ ips Hi).
  - cbn. apply lookup_delete_eq.
Qed.

Definition reaches (addr : SocketAddr) : option (Error + SocketAddr) :=
  if decide (addr = peer_addr) then Some (inr addr) else Some (inl Handshake).

Lemma race_witness :
  dial_any reaches true (λ l, l) (socket_addr (V4 8) DEFAULT_PORT) [socket_addr (V4 8) DEFAULT_PORT; peer_addr] = inr peer_addr.
Proof.
  pose proof (race reaches true (λ l, l) (socket_addr (V4 8) DEFAULT_PORT)
    [socket_addr (V4 8) DEFAULT_PORT; peer_addr] (λ l, reflexivity l)) as (_ & _ & _ & H).
  revert H. destruct (dial_any _ _ _ _ _) as [e|conn] eqn:E; [vm_compute in E; discriminate|].
  intros (a & _ & Hd). revert Hd. unfold reaches. case_decide as Ha; [|discriminate].
  intros [= <-]. by subst a.
Defined.
Lemma dials_its_addresses_witness :
  ∃ c', steps elements [EvBegin 0%N; EvEnd 0 0%N (dial_any reaches true (λ l, l) peer_addr [peer_addr]) (Ok tt)]
          (mkConn (one_client None) ∅ {[0%N]} ∅ [Spawned 0%N] 0 []) = Some c' ∧ connecting c' = {[0%N]} ∖ {[0%N]}.
Proof.
  destruct (dials_its_addresses elements reaches true (λ l, l) 0 0%N (Ok tt)
    (mkConn (one_client None) ∅ {[0%N]} ∅ [Spawned 0%N] 0 []) [] {[V4 7]}) as (primary & c' & Hp & Hs & Hc & _).
  - done.
  - done.
  - intros a conn. unfold reaches. case_decide; congruence.
  - done.
  - done.
  - set_solver.
  - done.
  - vm_compute in Hp. injection Hp as <-. exists c'. split; [exact Hs|exact Hc].
Defined.
