(* ===== verification/Files.v ===== *)
(** Files on the clipboard: what the sending side collects
    (src/clipboard/file_meta.rs and the decisions of src/service.rs), and how the
    receiving side names, writes and verifies the files it fetches and cancels a
    transfer (src/service.rs).

    A path is its text; the components of a name are those of Unix.  The accept
    directory is a map from names to nodes.  The hash function, the files that
    are offered, and the results of calls on the file system are parameters. *)

From Stdlib Require Import Strings.Ascii.
From stdpp Require Import pretty sorting.
From S2P Require Import Prelude InputEvent Proto Text Net.

(** * Collecting *)

Inductive FileMetaError : Type :=
| IsDirectory (path : string) | Io | ExceedsLimit (offending : string) (size limit : Z).

Definition FOUR_GIB : Z := 4 * 1024 * 1024 * 1024.
Definition MIME_TOO_LARGE : string := "application/x-too-large".
Definition should_mark_too_large (size : Z) : bool := (FOUR_GIB <? size)%Z.

(** [Path::file_name], [file_stem] and [extension] of a path or name. *)
Fixpoint last_piece (l : list string) : string :=
  match l with
  | [] => ""
  | s :: l => match l with [] => s | _ => last_piece l end
  end.
Definition components (path : string) : list string :=
  filter (λ s, s ≠ "" ∧ s ≠ ".") (Str.split "/" path).
Definition file_name (path : string) : option string :=
  match last (components path) with
  | Some name => if decide (name = "..") then None else Some name
  | None => None
  end.

(** At the last dot: what is before and after it. *)
Fixpoint rsplit_dot (s : string) : option (string * string) :=
  match s with
  | "" => None
  | String c s =>
      match rsplit_dot s with
      | Some (a, b) => Some (String c a, b)
      | None => if decide (c = "."%char) then Some ("", s) else None
      end
  end.
Definition stem_ext (name : string) : string * option string :=
  match rsplit_dot name with
  | Some (stem, ext) => if decide (stem = "") then (name, None) else (stem, Some ext)
  | None => (name, None)
  end.
Definition file_stem (path : string) : option string := fst ∘ stem_ext <$> file_name path.
Definition extension (path : string) : option string := n ← file_name path; snd (stem_ext n).

Definition detect_mime (path : string) : string :=
  let ext := Str.to_lowercase (default "" (extension path)) in
  if decide (ext = "png") then "image/png"
  else if decide (ext = "jpg" ∨ ext = "jpeg") then "image/jpeg"
  else if decide (ext = "bmp") then "image/bmp"
  else if decide (ext = "pdf") then "application/pdf"
  else if decide (ext = "txt" ∨ ext = "md") then "text/plain"
  else "application/octet-stream".

Section collect.
Variable sha256 : list byte → list byte.
(** [fs::metadata]: whether the path is a directory, and its size; the contents
    as [read] gives them. *)
Variable metadata : string → option (bool * Z).
Variable read : string → option (list byte).

(** [stream_sha256_blocking]: hashing chunk by chunk is hashing the whole. *)
Definition stream_sha256 (path : string) : FileMetaError + list byte :=
  match read path with Some bytes => inr (sha256 bytes) | None => inl Io end.

Definition collect_file (path : string) (max_size : Z) : FileMetaError + FileEntry :=
  match metadata path with
  | None => inl Io
  | Some (true, _) => inl (IsDirectory path)
  | Some (false, size) =>
      if ((0 <? max_size) && (max_size <? size))%Z then inl (ExceedsLimit path size max_size)
      else
        let name := default "" (file_name path) in
        if should_mark_too_large size then inr (mkFileEntry name size MIME_TOO_LARGE (replicate 32 x00))
        else match stream_sha256 path with
             | inl e => inl e
             | inr sha => inr (mkFileEntry name size (detect_mime path) sha)
             end
  end.
Fixpoint collect_files_blocking (paths : list string) (max_size : Z) : FileMetaError + list FileEntry :=
  match paths with
  | [] => inr []
  | path :: paths =>
      match collect_file path max_size with
      | inl e => inl e
      | inr entry =>
          match collect_files_blocking paths max_size with
          | inl e => inl e
          | inr entries => inr (entry :: entries)
          end
      end
  end.

(** ** The fingerprint of a selection *)

Fixpoint bytes_le (s t : string) : bool :=
  match s, t with
  | "", _ => true
  | _, "" => false
  | String a s, String b t =>
      if (N_of_ascii a <? N_of_ascii b)%N then true
      else if (N_of_ascii b <? N_of_ascii a)%N then false
      else bytes_le s t
  end.
Definition path_le (s t : string) : bool :=
  if decide (String.length s < String.length t) then true
  else if decide (String.length t < String.length s) then false
  else bytes_le s t.
Definition by_length (s t : string) : Prop := path_le s t = true.
#[export] Instance by_length_dec s t : Decision (by_length s t).
Proof. unfold by_length. apply _. Defined.

Definition newline : string := String "010" "".
Definition file_selection_fingerprint (paths : list string) : list byte :=
  sha256 (concat ((λ p, as_bytes p ++ as_bytes newline) <$> merge_sort by_length paths)).

Inductive DispatchFilesOutcome : Type :=
| DEmpty
| DFingerprintMatch
| DOk (fingerprint : list byte) (entries : list FileEntry) (paths : list string)
| DExceedsLimit (fingerprint : list byte) (offending : string) (size limit : Z)
| DIsDirectory (path : string)
| DIo.

Definition dispatch_files_decide (paths : list string) (last_outbound : option (list byte)) (max_size : Z)
    : DispatchFilesOutcome :=
  match paths with
  | [] => DEmpty
  | _ =>
      let fingerprint := file_selection_fingerprint paths in
      if decide (last_outbound = Some fingerprint) then DFingerprintMatch
      else match collect_files_blocking paths max_size with
           | inr entries => DOk fingerprint entries paths
           | inl (ExceedsLimit offending size limit) => DExceedsLimit fingerprint offending size limit
           | inl (IsDirectory p) => DIsDirectory p
           | inl Io => DIo
           end
  end.
End collect.

(** ** The order of the selection does not matter *)

Lemma bytes_le_total s t : bytes_le s t = true ∨ bytes_le t s = true.
Proof.
  revert t. induction s as [|a s IH]; intros [|b t]; cbn; auto.
  destruct (N.ltb_spec (N_of_ascii a) (N_of_ascii b)), (N.ltb_spec (N_of_ascii b) (N_of_ascii a)); auto; lia.
Qed.
Lemma bytes_le_antisym s t : bytes_le s t = true → bytes_le t s = true → s = t.
Proof.
  revert t. induction s as [|a s IH]; intros [|b t]; cbn; try done.
  destruct (N.ltb_spec (N_of_ascii a) (N_of_ascii b)), (N.ltb_spec (N_of_ascii b) (N_of_ascii a)); try done; try lia.
  intros H1 H2. rewrite (IH t H1 H2). f_equal.
  rewrite <- (ascii_N_embedding a), <- (ascii_N_embedding b). f_equal. lia.
Qed.
Lemma bytes_le_trans s t u : bytes_le s t = true → bytes_le t u = true → bytes_le s u = true.
Proof.
  revert t u. induction s as [|a s IH]; intros [|b t] [|c u]; cbn; try done.
  repeat match goal with |- context [(?x <? ?y)%N] => destruct (N.ltb_spec x y) end; try done; try lia. apply IH.
Qed.
#[export] Instance by_length_total : Total by_length.
Proof.
  intros s t. unfold by_length, path_le. repeat case_decide; auto; try lia. apply bytes_le_total.
Qed.
#[export] Instance by_length_antisym : AntiSymm (=) by_length.
Proof.
  intros s t. unfold by_length, path_le. repeat case_decide; try done; try lia. apply bytes_le_antisym.
Qed.
#[export] Instance by_length_trans : Transitive by_length.
Proof.
  intros s t u. unfold by_length, path_le. repeat case_decide; try done; try lia. apply bytes_le_trans.
Qed.

Lemma fingerprint_perm sha256 paths paths' :
  paths ≡ₚ paths' → file_selection_fingerprint sha256 paths = file_selection_fingerprint sha256 paths'.
Proof.
  intros Hp. unfold file_selection_fingerprint.
  rewrite (Sorted_unique by_length (merge_sort by_length paths) (merge_sort by_length paths')); [done|..].
  - apply Sorted_merge_sort, _.
  - apply Sorted_merge_sort, _.
  - by rewrite !merge_sort_Permutation.
Qed.

(** Two selections can have one fingerprint: a name may hold the separator. *)
Lemma fingerprint_collision sha256 :
  file_selection_fingerprint sha256 ["/a" +:+ newline +:+ "/b"] = file_selection_fingerprint sha256 ["/a"; "/b"].
Proof. reflexivity. Qed.

(** * Names for received files *)

Definition SANITIZED_FALLBACK_NAME : string := "untitled".
Definition sanitize_filename (name : string) : string :=
  match filter (λ s, s ≠ "..") (components name) with
  | [] => SANITIZED_FALLBACK_NAME
  | segments => join "_" segments
  end.

Inductive Node : Type := Dir | File (bytes : list byte).
#[export] Instance Node_eq_dec : EqDecision Node.
Proof. solve_decision. Defined.
Abbreviation Folder := (gmap string Node).

(** The [n]-th alternative of a name. *)
Definition numbered (name : string) (n : N) : string :=
  let '(stem, ext) := stem_ext name in
  match ext with
  | Some e => stem +:+ " (" +:+ dec n +:+ ")." +:+ e
  | None => stem +:+ " (" +:+ dec n +:+ ")"
  end.
Definition TRIES : nat := N.to_nat 9999.
Fixpoint try_numbers (dir : Folder) (name : string) (k : N) (n : nat) : option string :=
  match n with
  | O => None
  | S n =>
      let candidate := numbered name k in
      if decide (dir !! candidate = None) then Some candidate else try_numbers dir name (k + 1)%N n
  end.
Definition resolve_unique_path (dir : Folder) (timestamp : N) (name : string) : string :=
  let name := sanitize_filename name in
  if decide (dir !! name = None) then name
  else default (numbered name timestamp) (try_numbers dir name 1 TRIES).

Definition keep_partial_path (path : string) : string := path +:+ ".partial".

(** ** A received name stays in its directory *)

Lemma split_no_sep c s : Forall (Str.no_char c) (Str.split c s).
Proof.
  induction s as [|x s IH]; cbn [Str.split]; [by repeat constructor|]. case_decide as Hx; [by constructor|].
  destruct (Str.split c s) as [|piece pieces]; [by repeat constructor|].
  apply Forall_cons in IH as [H1 H2]. by repeat constructor.
Qed.
Lemma no_char_join c l : Str.no_char c "_" → Forall (Str.no_char c) l → Str.no_char c (join "_" l).
Proof.
  intros Hc Hl. induction Hl as [|s l Hs Hl IH]; [done|]. cbn [join].
  destruct l; [done|]. by rewrite !no_char_app.
Qed.
Lemma join_underscore s t l : join "_" (s :: t :: l) = s +:+ "_" +:+ join "_" (t :: l).
Proof. done. Qed.

Lemma sanitized_segments name :
  Forall (λ s, Str.no_char "/" s ∧ s ≠ "" ∧ s ≠ "." ∧ s ≠ "..") (filter (λ s, s ≠ "..") (components name)).
Proof.
  apply Forall_forall. intros s [Hdd Hs]%list_elem_of_filter. unfold components in Hs.
  apply list_elem_of_filter in Hs as [[Hne Hd] Hs]. split_and!; [|done..].
  pose proof (split_no_sep "/" name) as H. rewrite Forall_forall in H. by apply H.
Qed.
Lemma join_not_dots s l : s ≠ "" → s ≠ "." → s ≠ ".." → join "_" (s :: l) ∉ [""; "."; ".."].
Proof.
  intros H1 H2 H3. destruct l as [|t l]; [cbn; set_solver|]. rewrite join_underscore.
  assert (∀ u, s +:+ "_" +:+ u ∉ [""; "."; ".."]) as H; [|apply H].
  intros u. destruct s as [|a [|b [|c s]]]; [done|..]; rewrite ?app_cons; cbn; intros Hin; set_solver.
Qed.
Lemma sanitize_safe name :
  Str.no_char "/" (sanitize_filename name) ∧ sanitize_filename name ∉ [""; "."; ".."].
Proof.
  unfold sanitize_filename. pose proof (sanitized_segments name) as H.
  destruct (filter _ _) as [|s l]; [split; [cbn; split_and!; done|cbn; set_solver]|].
  split.
  - apply no_char_join; [by split|]. eapply Forall_impl; [exact H|]. by intros ? [? _].
  - apply Forall_cons in H as [(_ & ? & ? & ?) _]. by apply join_not_dots.
Qed.

(** * Writing and verifying *)

(** How the calls on the file system end: a write may stop after some bytes. *)
Record WriteIo : Type := mkWriteIo {
  create_ok : bool; cut : option nat; sync_ok : bool; remove_ok : bool; rename_ok : bool
}.
Definition all_fine : WriteIo := mkWriteIo true None true true true.

Inductive FileFetchErrorKind : Type := ConnectionLost | Timeout | PeerCancelled | FetchIoError.
Definition as_reason (k : FileFetchErrorKind) : string :=
  match k with
  | ConnectionLost => "connection lost" | Timeout => "timeout"
  | PeerCancelled => "peer cancelled" | FetchIoError => "io error"
  end.
Inductive ErrorKind : Type := ConnectionAborted | ConnectionReset | UnexpectedEof | TimedOut | OtherKind.
Definition classify_io_err_kind (e : ErrorKind) : FileFetchErrorKind :=
  match e with
  | ConnectionAborted | ConnectionReset | UnexpectedEof => ConnectionLost
  | TimedOut => Timeout
  | OtherKind => FetchIoError
  end.

Inductive InboundFileError : Type :=
| Sha256Mismatch | IoError | MimeTooLarge | InboundExceedsLimit | Canceled | PartialResidue.

Section receive.
Variable sha256 : list byte → list byte.

(** [write_and_verify_file_blocking] up to the verification, and the rename. *)
Definition write_partial (io : WriteIo) (path : string) (bytes expected : list byte) (keep_partial : bool)
    : ST Folder string unit := λ dir,
  let partial := keep_partial_path path in
  if negb (create_ok io) || bool_decide (dir !! partial = Some Dir) then (Err "create partial ", dir)
  else match cut io with
  | Some k => (Err "write partial ", <[partial := File (take k bytes)]> dir)
  | None =>
      let dir := <[partial := File bytes]> dir in
      if negb (sync_ok io) then (Err "fsync partial ", dir)
      else if decide (sha256 bytes = expected) then (Ok tt, dir)
      else (Err "sha256 mismatch: ", if keep_partial || negb (remove_ok io) then dir else delete partial dir)
  end.
Definition rename_partial (io : WriteIo) (path : string) : ST Folder string unit := λ dir,
  match dir !! keep_partial_path path with
  | Some node =>
      if negb (rename_ok io) || bool_decide (dir !! path = Some Dir) then (Err "rename partial ", dir)
      else (Ok tt, <[path := node]> (delete (keep_partial_path path) dir))
  | None => (Err "rename partial ", dir)
  end.
Definition write_and_verify_file_blocking (io : WriteIo) (path : string) (bytes expected : list byte)
    (keep_partial : bool) : ST Folder string unit :=
  write_partial io path bytes expected keep_partial ≫= λ _, rename_partial io path.

Lemma partial_ne path : keep_partial_path path ≠ path.
Proof.
  intros E. apply (f_equal String.length) in E. unfold keep_partial_path in E.
  rewrite length_app_str in E. cbn in E. lia.
Qed.

(** A received file is at its name only after its bytes were verified: when
    the call succeeds the file holds the bytes, their hash is the announced one
    and no staging file is left; when it fails, whatever failed, the name is as
    it was, and a hash that does not match leaves no staging file either unless
    it is to be kept. *)
Theorem verified_or_untouched io path bytes expected keep dir :
  let '(r, dir') := write_and_verify_file_blocking io path bytes expected keep dir in
  (r = Ok tt ∧ sha256 bytes = expected ∧ dir' = <[path := File bytes]> (delete (keep_partial_path path) dir)) ∨
  ((∃ e, r = Err e) ∧ dir' !! path = dir !! path ∧
   (∀ name, name ≠ keep_partial_path path → dir' !! name = dir !! name) ∧
   (r = Err "sha256 mismatch: " → sha256 bytes ≠ expected ∧
      (keep = false → remove_ok io = true → dir' !! keep_partial_path path = None))).
Proof.
  pose proof (partial_ne path) as Hne.
  assert (∀ n, (<[keep_partial_path path := n]> dir) !! path = dir !! path) as Hp
    by (intros n; by rewrite lookup_insert_ne).
  unfold write_and_verify_file_blocking, mbind, ST_bind, write_partial.
  destruct (negb (create_ok io) || _); [right; split_and!; by eauto|].
  destruct (cut io) as [k|].
  { right. split_and!; [by eauto|done|by intros; rewrite lookup_insert_ne|done]. }
  destruct (sync_ok io); cbn [negb].
  2: { right. split_and!; [by eauto|done|by intros; rewrite lookup_insert_ne|done]. }
  case_decide as Hsha.
  - unfold rename_partial. rewrite lookup_insert_eq, lookup_insert_ne by done.
    destruct (negb (rename_ok io) || _).
    + right. split_and!; [by eauto|done|by intros; rewrite lookup_insert_ne|done].
    + left. split_and!; [done|done|]. by rewrite delete_insert_eq.
  - right. destruct (keep || negb (remove_ok io)) eqn:Ek; (split_and!; [by eauto|..]).
    + done.
    + intros. by rewrite lookup_insert_ne.
    + intros _. split; [done|]. intros -> Hr. rewrite Hr in Ek. done.
    + rewrite lookup_delete_ne by done. done.
    + intros. rewrite lookup_delete_ne by done. by rewrite lookup_insert_ne.
    + intros _. split; [done|]. intros _ _. apply lookup_delete_eq.
Qed.
End receive.

(** * What is collected *)

(** The entry of one file. *)
Definition entry_of (sha256 : list byte → list byte) (metadata : string → option (bool * Z))
    (read : string → option (list byte)) (max_size : Z) (path : string) (e : FileEntry) : Prop :=
  ∃ size, metadata path = Some (false, size) ∧ (max_size ≤ 0 ∨ size ≤ max_size)%Z ∧
    fe_name e = default "" (file_name path) ∧ fe_size e = size ∧
    ((size ≤ FOUR_GIB)%Z → fe_mime e = detect_mime path ∧ ∃ bytes, read path = Some bytes ∧ fe_sha256 e = sha256 bytes) ∧
    ((FOUR_GIB < size)%Z → fe_mime e = MIME_TOO_LARGE).

Lemma collect_file_spec sha256 metadata read path max_size :
  match collect_file sha256 metadata read path max_size with
  | inr e => entry_of sha256 metadata read max_size path e
  | inl (IsDirectory p) => p = path ∧ ∃ size, metadata path = Some (true, size)
  | inl (ExceedsLimit p size limit) =>
      p = path ∧ limit = max_size ∧ metadata path = Some (false, size) ∧ (0 < limit < size)%Z
  | inl Io => metadata path = None ∨ read path = None
  end.
Proof.
  unfold collect_file, entry_of. destruct (metadata path) as [[[] size]|]; [by eauto| |by eauto].
  destruct (Z.ltb_spec 0 max_size), (Z.ltb_spec max_size size); cbn [andb]; [by eauto|..];
    (unfold should_mark_too_large; destruct (Z.ltb_spec FOUR_GIB size);
     [exists size; cbn; split_and!; [done|lia|done..|lia|done]|];
     unfold stream_sha256; destruct (read path) as [bytes|]; [|by eauto];
     exists size; cbn; split_and!; [done|lia|done..|by eauto|lia]).
Qed.

Lemma collect_files_spec sha256 metadata read paths max_size :
  match collect_files_blocking sha256 metadata read paths max_size with
  | inr entries => Forall2 (entry_of sha256 metadata read max_size) paths entries
  | inl (IsDirectory p) => p ∈ paths ∧ ∃ size, metadata p = Some (true, size)
  | inl (ExceedsLimit p size limit) =>
      p ∈ paths ∧ limit = max_size ∧ metadata p = Some (false, size) ∧ (0 < limit < size)%Z
  | inl Io => ∃ p, p ∈ paths ∧ (metadata p = None ∨ read p = None)
  end.
Proof.
  induction paths as [|path paths IH]; cbn [collect_files_blocking]; [constructor|].
  pose proof (collect_file_spec sha256 metadata read path max_size) as Hf.
  destruct (collect_file _ _ _ path _) as [[]|e].
  - destruct Hf as [-> ?]. split; [by left|done].
  - exists path. split; [by left|done].
  - destruct Hf as [-> ?]. split; [by left|done].
  - destruct (collect_files_blocking _ _ _ paths _) as [[]|es]; [..|by constructor].
    + destruct IH as [? ?]. split; [by right|done].
    + destruct IH as (p & ? & ?). exists p. split; [by right|done].
    + destruct IH as [? ?]. split; [by right|done].
Qed.

(** What is announced for a selection of files is one entry per path, in
    the order of the paths, with the name, the size and the content hash of that
    file, or no entry at all: one directory, one unreadable file or one file
    over the limit refuses the whole selection and is named.  An empty selection
    and one whose fingerprint is that of the last announcement end before any
    file is looked at. *)
Theorem collect_spec sha256 metadata read paths last_outbound max_size :
  match dispatch_files_decide sha256 metadata read paths last_outbound max_size with
  | DEmpty => paths = []
  | DFingerprintMatch => last_outbound = Some (file_selection_fingerprint sha256 paths)
  | DOk fingerprint entries paths' =>
      paths' = paths ∧ fingerprint = file_selection_fingerprint sha256 paths ∧ last_outbound ≠ Some fingerprint ∧
      Forall2 (entry_of sha256 metadata read max_size) paths entries
  | DExceedsLimit fingerprint offending size limit =>
      offending ∈ paths ∧ metadata offending = Some (false, size) ∧ limit = max_size ∧ (0 < limit < size)%Z
  | DIsDirectory p => p ∈ paths ∧ ∃ size, metadata p = Some (true, size)
  | DIo => ∃ p, p ∈ paths ∧ (metadata p = None ∨ read p = None)
  end.
Proof.
  destruct paths as [|path paths]; [done|]. cbn [dispatch_files_decide]. case_decide as Hl; [done|].
  pose proof (collect_files_spec sha256 metadata read (path :: paths) max_size) as H.
  destruct (collect_files_blocking _ _ _ _ _) as [[]|entries]; naive_solver.
Qed.

(** * Names on the receiving side *)

Definition first_free (dir : Folder) (names : list string) : option string :=
  head (filter (λ name, dir !! name = None) names).
Lemma first_free_Some dir names n : first_free dir names = Some n → n ∈ names ∧ dir !! n = None.
Proof.
  unfold first_free. intros H%head_Some_elem_of. apply list_elem_of_filter in H. tauto.
Qed.
Lemma first_free_None dir names : first_free dir names = None → ∀ n, n ∈ names → dir !! n ≠ None.
Proof.
  unfold first_free. intros H%head_None n Hn Hd.
  assert (n ∈ filter (λ name, dir !! name = None) names) as Hin by (by apply list_elem_of_filter).
  rewrite H in Hin. by apply elem_of_nil in Hin.
Qed.

Lemma app_inj_l (p s t : string) : p +:+ s = p +:+ t → s = t.
Proof. induction p as [|c p IH]; [done|]. rewrite !app_cons. intros [= H]. auto. Qed.
Lemma app_inj_digits c (m n : string) u v :
  is_digit c = false → Str.all is_digit m = true → Str.all is_digit n = true →
  m +:+ String c u = n +:+ String c v → m = n.
Proof.
  intros Hc Hm Hn E. pose proof (all_digits_no_char c m Hc Hm) as Nm. pose proof (all_digits_no_char c n Hc Hn) as Nn.
  pose proof (split_once_app c m u Nm) as A. pose proof (split_once_app c n v Nn) as B.
  rewrite E in A. congruence.
Qed.
Lemma numbered_inj name m n : numbered name m = numbered name n → m = n.
Proof.
  unfold numbered. destruct (stem_ext name) as [stem [e|]]; intros H%app_inj_l%app_inj_l.
  all: eapply (inj pretty), (app_inj_digits ")"); [done|apply all_digits_pretty..|exact H].
Qed.

(** The names that are tried, the one with the time aside. *)
Definition tried_names (name : string) : list string :=
  sanitize_filename name ::
  ((λ k, numbered (sanitize_filename name) (N.of_nat k)) <$> seq 1 TRIES).

Lemma try_numbers_free dir name k n :
  try_numbers dir name (N.of_nat k) n = first_free dir ((λ k, numbered name (N.of_nat k)) <$> seq k n).
Proof.
  revert k. induction n as [|n IH]; intros k; [done|]. cbn [try_numbers seq fmap list_fmap]. unfold first_free.
  rewrite filter_cons. case_decide; [done|]. replace (N.of_nat k + 1)%N with (N.of_nat (S k)) by lia. apply IH.
Qed.
Lemma resolve_unique_eq dir timestamp name :
  resolve_unique_path dir timestamp name =
    default (numbered (sanitize_filename name) timestamp) (first_free dir (tried_names name)).
Proof.
  unfold resolve_unique_path, tried_names. unfold first_free at 1. rewrite filter_cons. case_decide; [done|].
  by rewrite (try_numbers_free dir _ 1 TRIES).
Qed.

(** The name chosen for a received file is the first free one of the name
    announced, without its directories, and its numbered alternatives; only when
    all ten thousand are taken is the time put into the name, and then nothing
    looks whether that is free. *)
Theorem resolve_unique dir timestamp name :
  let path := resolve_unique_path dir timestamp name in
  (path ∈ tried_names name ∧ dir !! path = None ∧
   ∃ before after, tried_names name = before ++ path :: after ∧ Forall (λ n, dir !! n ≠ None) before) ∨
  (path = numbered (sanitize_filename name) timestamp ∧ Forall (λ n, dir !! n ≠ None) (tried_names name) ∧
   (0 < timestamp → timestamp ≤ 9999 → dir !! path ≠ None)%N).
Proof.
  cbv zeta. rewrite resolve_unique_eq.
  destruct (first_free dir (tried_names name)) as [n|] eqn:E; cbn [default].
  - left. pose proof (first_free_Some _ _ _ E) as [? ?]. split_and!; [done..|].
    clear -E. unfold first_free in E. induction (tried_names name) as [|c l IH]; [done|].
    rewrite filter_cons in E. case_decide as Hc.
    + injection E as ->. by exists [], l.
    + destruct (IH E) as (b & a & -> & Hb). exists (c :: b), a. split; [done|by constructor].
  - right. pose proof (first_free_None _ _ E) as H. split; [done|]. split; [by apply Forall_forall|].
    intros H0 H1. apply H. apply list_elem_of_further, list_elem_of_fmap. exists (N.to_nat timestamp).
    rewrite N2Nat.id. split; [done|]. apply elem_of_seq. unfold TRIES. lia.
Qed.

(** * The tasks that receive files

    Every announced file has a task of its own ([apply_inbound_files_task]).  The
    receiver of its cancel channel is ready once the registry sent on the channel
    or lost the sender: both are [cancelled]. *)

Inductive Answer : Type := Answered (status : Z) (body : list byte) | Failed (kind : ErrorKind).

Inductive Stage : Type :=
| Spawned | Fetching | Fetched (body : list byte) | Handed (body : list byte)
| Resolved (path : string) (body : list byte) | Staged (path : string) (body : list byte)
| Written (landed : string + string)
| Done (kept : option string). (* the file the task leaves behind *)

Record Job : Type := mkJob {
  job_sha : list byte; job_name : string; job_stage : Stage; cancelled : bool
}.

(** [InboundFileApplyResult]: what of it depends on the run. *)
Record ApplyResult : Type := mkApplyResult {
  ar_job : nat; ar_error : option InboundFileError; landed_path : option string; stream_failure : option string
}.
Definition success (r : ApplyResult) : bool := bool_decide (ar_error r = None).

Record Tasks : Type := mkTasks {
  folder : Folder; jobs : list Job; cancel_registry : gmap (list byte) nat; applied : list ApplyResult
}.

Definition set_stage (stage : Stage) (j : Job) : Job := mkJob (job_sha j) (job_name j) stage (cancelled j).
Definition cancel (j : Job) : Job := mkJob (job_sha j) (job_name j) (job_stage j) true.
Definition on_job (i : nat) (f : Job → Job) (s : Tasks) : Tasks :=
  mkTasks (folder s) (alter f i (jobs s)) (cancel_registry s) (applied s).
Definition set_folder (dir : Folder) (s : Tasks) : Tasks := mkTasks dir (jobs s) (cancel_registry s) (applied s).
Definition report (r : ApplyResult) (s : Tasks) : Tasks :=
  mkTasks (folder s) (jobs s) (cancel_registry s) (applied s ++ [r]).

(** A sender is dropped, or sent on: its receiver is ready. *)
Definition drop_sender (sender : option nat) (s : Tasks) : Tasks :=
  match sender with Some i => on_job i cancel s | None => s end.
Definition registry_insert (sha : list byte) (i : nat) (s : Tasks) : Tasks :=
  drop_sender (cancel_registry s !! sha)
    (mkTasks (folder s) (jobs s) (<[sha := i]> (cancel_registry s)) (applied s)).
Definition registry_remove (sha : list byte) (s : Tasks) : Tasks :=
  drop_sender (cancel_registry s !! sha)
    (mkTasks (folder s) (jobs s) (delete sha (cancel_registry s)) (applied s)).

Definition signal_inbound_file_cancel (sha : list byte) (s : Tasks) : Tasks := registry_remove sha s.

Section tasks.
Variable sha256 : list byte → list byte.
Variable keep_partial : bool.

(** The task is polled for the first time: the cancel channel is registered. *)
Definition start (i : nat) (j : Job) (s : Tasks) : Tasks :=
  registry_insert (job_sha j) i (on_job i (set_stage Fetching) s).

(** The [select!] over the cancel channel and the fetch; the channel goes first. *)
Definition abandon (i : nat) (s : Tasks) : Tasks := on_job i (set_stage (Done None)) s.
Definition fetch_result (i : nat) (j : Job) (a : Answer) (s : Tasks) : Tasks :=
  if cancelled j then abandon i s
  else match a with
  | Answered 200 body => on_job i (set_stage (Fetched body)) s
  | Answered _ _ =>
      report (mkApplyResult i (Some IoError) None None) (registry_remove (job_sha j) (abandon i s))
  | Failed kind =>
      report (mkApplyResult i (Some IoError) None (Some (as_reason (classify_io_err_kind kind))))
        (registry_remove (job_sha j) (abandon i s))
  end.

(** The check before the blocking part. *)
Definition hand_off (i : nat) (j : Job) (body : list byte) (s : Tasks) : Tasks :=
  if cancelled j then registry_remove (job_sha j) (abandon i s) else on_job i (set_stage (Handed body)) s.
(** The blocking part: the name, the staging file with the verification, the
    rename. *)
Definition resolve (i : nat) (j : Job) (body : list byte) (timestamp : N) (s : Tasks) : Tasks :=
  on_job i (set_stage (Resolved (resolve_unique_path (folder s) timestamp (job_name j)) body)) s.
Definition stage_file (i : nat) (j : Job) (io : WriteIo) (path : string) (body : list byte) (s : Tasks) : Tasks :=
  match write_partial sha256 io path body (job_sha j) keep_partial (folder s) with
  | (Err e, dir) => on_job i (set_stage (Written (inl e))) (set_folder dir s)
  | (_, dir) => on_job i (set_stage (Staged path body)) (set_folder dir s)
  end.
Definition rename_file (i : nat) (io : WriteIo) (path : string) (s : Tasks) : Tasks :=
  match rename_partial io path (folder s) with
  | (Err e, dir) => on_job i (set_stage (Written (inl e))) (set_folder dir s)
  | (_, dir) => on_job i (set_stage (Written (inr path))) (set_folder dir s)
  end.

(** The report, the check of the channel after the write, and the cleanup. *)
Definition file_error (e : string) : InboundFileError :=
  if Str.starts_with "sha256 mismatch" e then Sha256Mismatch else IoError.
Definition finish_job (i : nat) (j : Job) (landed : string + string) (s : Tasks) : Tasks :=
  let kept := match landed with inr path => if cancelled j then None else Some path | inl _ => None end in
  let s := on_job i (set_stage (Done kept)) s in
  let s := match landed with
           | inr path => report (mkApplyResult i None (Some path) None) s
           | inl e => report (mkApplyResult i (Some (file_error e)) None None) s
           end in
  let s := match landed with
           | inr path => if cancelled j then set_folder (delete path (folder s)) s else s
           | inl _ => s
           end in
  registry_remove (job_sha j) s.

Inductive FileEvent : Type :=
| EvStart (i : nat)
| EvCancelled (i : nat)
| EvAnswer (i : nat) (a : Answer)
| EvHandOff (i : nat)
| EvResolve (i : nat) (timestamp : N)
| EvStage (i : nat) (io : WriteIo)
| EvRename (i : nat) (io : WriteIo)
| EvFinish (i : nat)
| EvCancel (sha : list byte).

(** One step of one task, or a [FileTransferCancel] from any peer. *)
Definition step (e : FileEvent) (s : Tasks) : Tasks :=
  let on i (f : Job → Tasks) := match jobs s !! i with Some j => f j | None => s end in
  match e with
  | EvStart i => on i (λ j, match job_stage j with Spawned => start i j s | _ => s end)
  | EvCancelled i =>
      on i (λ j, match job_stage j with Fetching => if cancelled j then abandon i s else s | _ => s end)
  | EvAnswer i a => on i (λ j, match job_stage j with Fetching => fetch_result i j a s | _ => s end)
  | EvHandOff i => on i (λ j, match job_stage j with Fetched body => hand_off i j body s | _ => s end)
  | EvResolve i timestamp =>
      on i (λ j, match job_stage j with Handed body => resolve i j body timestamp s | _ => s end)
  | EvStage i io =>
      on i (λ j, match job_stage j with Resolved path body => stage_file i j io path body s | _ => s end)
  | EvRename i io => on i (λ j, match job_stage j with Staged path _ => rename_file i io path s | _ => s end)
  | EvFinish i => on i (λ j, match job_stage j with Written landed => finish_job i j landed s | _ => s end)
  | EvCancel sha => signal_inbound_file_cancel sha s
  end.
Definition steps (es : list FileEvent) (s : Tasks) : Tasks := foldl (λ s e, step e s) s es.

Definition spawned (dir : Folder) (offers : list (list byte * string)) : Tasks :=
  mkTasks dir ((λ o, mkJob o.1 o.2 Spawned false) <$> offers) ∅ [].
Definition whole_job (i : nat) (body : list byte) : list FileEvent :=
  [EvStart i; EvAnswer i (Answered 200 body); EvHandOff i; EvResolve i 0; EvStage i all_fine; EvRename i all_fine; EvFinish i].
End tasks.

(** ** Steps *)

Section steps.
Context {sha256 : list byte → list byte} {keep_partial : bool}.
Implicit Types (s : Tasks) (j : Job).
Local Abbreviation step := (step sha256 keep_partial).
Local Abbreviation steps := (steps sha256 keep_partial).

(** What a step may do to the jobs: cancel some, and move one on. *)
Lemma jobs_drop sender s i j :
  jobs (drop_sender sender s) !! i = Some j →
  ∃ j0, jobs s !! i = Some j0 ∧ (j = j0 ∧ sender ≠ Some i ∨ j = cancel j0 ∧ sender = Some i).
Proof.
  destruct sender as [k|]; cbn; [|by eauto]. destruct (decide (k = i)) as [->|Hk].
  - rewrite list_lookup_alter_eq. intros (j0 & ? & ->)%fmap_Some. eauto.
  - rewrite list_lookup_alter_ne by done. intros. exists j. split; [done|]. left. split; [done|congruence].
Qed.
Lemma jobs_on_job i f s k :
  jobs (on_job i f s) !! k = (if decide (i = k) then f <$> jobs s !! k else jobs s !! k).
Proof.
  cbn. case_decide as H; [subst; apply list_lookup_alter_eq|by apply list_lookup_alter_ne].
Qed.
Lemma applied_drop sender s : applied (drop_sender sender s) = applied s.
Proof. by destruct sender. Qed.
Lemma folder_drop sender s : folder (drop_sender sender s) = folder s.
Proof. by destruct sender. Qed.
Lemma registry_drop sender s : cancel_registry (drop_sender sender s) = cancel_registry s.
Proof. by destruct sender. Qed.
End steps.

(** ** A second file of the same content *)

(** Job [i] waits for its file and nobody will wake it with an answer. *)
Definition doomed (i : nat) (s : Tasks) : Prop :=
  (∃ j, jobs s !! i = Some j ∧ cancelled j = true ∧ (job_stage j = Fetching ∨ job_stage j = Done None)) ∧
  Forall (λ r, ar_job r ≠ i) (applied s).

Lemma doomed_drop i sender s : doomed i s → doomed i (drop_sender sender s).
Proof.
  intros [(j & Hj & Hc & Hs) Ha]. split; [|by rewrite applied_drop].
  destruct sender as [k|]; [|by exists j]. cbn [drop_sender]. rewrite jobs_on_job, Hj. case_decide; cbn; eauto.
Qed.
Lemma doomed_same i s s' :
  jobs s' !! i = jobs s !! i → applied s' = applied s → doomed i s → doomed i s'.
Proof. intros Hj Ha. unfold doomed. by rewrite Hj, Ha. Qed.

(** What a step of task [k] may do to the others: cancel them. *)
Definition touches (k : nat) (s s' : Tasks) : Prop :=
  (∀ i, i ≠ k → jobs s' !! i = jobs s !! i ∨ jobs s' !! i = cancel <$> jobs s !! i) ∧
  (∃ l, applied s' = applied s ++ l ∧ Forall (λ r, ar_job r = k) l).

Lemma touches_refl k s : touches k s s.
Proof. split; [by left|]. exists []. by rewrite app_nil_r. Qed.
Lemma touches_trans k s1 s2 s3 : touches k s1 s2 → touches k s2 s3 → touches k s1 s3.
Proof.
  intros [A1 (l1 & E1 & F1)] [A2 (l2 & E2 & F2)]. split.
  - intros i Hi. destruct (A1 i Hi) as [H1|H1], (A2 i Hi) as [H2|H2]; rewrite H2, H1; auto.
    right. by destruct (jobs s1 !! i).
  - exists (l1 ++ l2). rewrite E2, E1, app_assoc. split; [done|by apply Forall_app].
Qed.
Lemma touches_on_job k f s : touches k s (on_job k f s).
Proof.
  split; [|exists []; by rewrite app_nil_r]. intros i Hi. left. rewrite jobs_on_job. by case_decide.
Qed.
Lemma touches_drop k sender s : touches k s (drop_sender sender s).
Proof.
  split; [|exists []; by rewrite applied_drop, app_nil_r]. intros i Hi. destruct sender as [m|]; [|by left].
  cbn [drop_sender]. rewrite jobs_on_job. case_decide; auto.
Qed.
Lemma touches_jobs k s dir reg : touches k s (mkTasks dir (jobs s) reg (applied s)).
Proof. split; [by left|]. exists []. by rewrite app_nil_r. Qed.
Lemma touches_remove k sha s : touches k s (registry_remove sha s).
Proof. eapply touches_trans; [apply touches_jobs|apply touches_drop]. Qed.
Lemma touches_insert k sha i s : touches k s (registry_insert sha i s).
Proof. eapply touches_trans; [apply touches_jobs|apply touches_drop]. Qed.
Lemma touches_report k e p f s : touches k s (report (mkApplyResult k e p f) s).
Proof. split; [by left|]. eexists. split; [done|]. by repeat constructor. Qed.
Lemma touches_folder k dir s : touches k s (set_folder dir s).
Proof. apply touches_jobs. Qed.

Create HintDb touches.
#[export] Hint Resolve touches_refl touches_on_job touches_remove touches_insert touches_report touches_folder : touches.
Ltac touches :=
  repeat first [solve [auto with touches] | eapply touches_trans; [|solve [auto with touches]]].

Definition event_job (e : FileEvent) : option nat :=
  match e with
  | EvStart i | EvCancelled i | EvAnswer i _ | EvHandOff i | EvResolve i _ | EvStage i _ | EvRename i _
  | EvFinish i => Some i
  | EvCancel _ => None
  end.

Lemma step_touches sha256 keep e k s : event_job e = Some k → touches k s (step sha256 keep e s).
Proof.
  destruct e; cbn [event_job step]; intros [= ->]; (destruct (jobs s !! k) as [j|] eqn:Hj; [|apply touches_refl]);
    destruct (job_stage j) eqn:Hs; auto with touches.
  - unfold start. touches.
  - destruct (cancelled j); unfold abandon; touches.
  - unfold fetch_result, abandon. destruct (cancelled j); [touches|].
    destruct a; [|touches]. repeat case_match; touches.
  - unfold hand_off, abandon. destruct (cancelled j); touches.
  - unfold resolve. touches.
  - unfold stage_file. destruct (write_partial _ _ _ _ _ _ _) as [[] ?]; touches.
  - unfold rename_file. destruct (rename_partial _ _ _) as [[] ?]; touches.
  - unfold finish_job. destruct landed, (cancelled j); touches.
Qed.

Lemma doomed_step sha256 keep i e s : doomed i s → doomed i (step sha256 keep e s).
Proof.
  intros Hd. destruct (event_job e) as [k|] eqn:He.
  2: { destruct e; [done..|]. cbn [step]. unfold signal_inbound_file_cancel, registry_remove.
       apply doomed_drop. by eapply doomed_same; [..|exact Hd]. }
  destruct Hd as [(j & Hj & Hc & Hs) Ha]. destruct (decide (k = i)) as [->|Hk].
  - destruct e; cbn [event_job] in He; simplify_eq; cbn [step]; rewrite Hj;
      destruct Hs as [Hs|Hs]; rewrite Hs; try (split; [by eauto|done]).
    + rewrite Hc. split; [|done]. unfold abandon. rewrite jobs_on_job, decide_True, Hj by done. cbn. eauto.
    + unfold fetch_result. rewrite Hc. split; [|done].
      unfold abandon. rewrite jobs_on_job, decide_True, Hj by done. cbn. eauto.
  - destruct (step_touches sha256 keep e k s He) as [Hi (l & El & Fl)]. split.
    + destruct (Hi i (not_eq_sym Hk)) as [-> | ->]; rewrite Hj; cbn; eauto.
    + rewrite El. apply Forall_app. split; [done|]. eapply Forall_impl; [exact Fl|]. cbn. congruence.
Qed.
Lemma doomed_steps sha256 keep i es s : doomed i s → doomed i (steps sha256 keep es s).
Proof. revert s. induction es as [|e es IH]; intros s Hs; [done|]. cbn. by apply IH, doomed_step. Qed.

(** A task that waits for its file is registered under its hash or cancelled,
    and none of its results is out. *)
Definition registered (s : Tasks) : Prop :=
  ∀ i j, jobs s !! i = Some j →
    (job_stage j ∈ [Spawned; Fetching] → Forall (λ r, ar_job r ≠ i) (applied s)) ∧
    (job_stage j = Fetching → cancelled j = false → cancel_registry s !! job_sha j = Some i).

Definition past_fetching (k : nat) (s : Tasks) : Prop :=
  ∀ j, jobs s !! k = Some j → job_stage j ∉ [Spawned; Fetching].

Lemma past_on_job k stage s : stage ∉ [Spawned; Fetching] → past_fetching k (on_job k (set_stage stage) s).
Proof. intros H j. rewrite jobs_on_job, decide_True by done. intros (j0 & ? & ->)%fmap_Some. done. Qed.
Lemma past_remove k sha s : past_fetching k s → past_fetching k (registry_remove sha s).
Proof. intros H j (j0 & Hj & [[-> _]|[-> _]])%jobs_drop; exact (H j0 Hj). Qed.
Lemma past_same k s s' : jobs s' = jobs s → past_fetching k s → past_fetching k s'.
Proof. unfold past_fetching. by intros ->. Qed.

Lemma registered_remove sha s : registered s → registered (registry_remove sha s).
Proof.
  intros H i j (j0 & Hj & [[-> Hne]|[-> _]])%jobs_drop; destruct (H i j0 Hj) as [H1 H2];
    (split; [unfold registry_remove; by rewrite applied_drop|]); [|done].
  intros Hs Hc. unfold registry_remove. rewrite registry_drop. cbn. specialize (H2 Hs Hc).
  rewrite lookup_delete_ne; [done|]. congruence.
Qed.
Lemma registered_leave k stage s :
  stage ∉ [Spawned; Fetching] → registered s → registered (on_job k (set_stage stage) s).
Proof.
  intros Hst H i j. rewrite jobs_on_job. case_decide as Hk; [|apply H].
  intros (j0 & Hj & ->)%fmap_Some. split; cbn; [done|]. intros ->. set_solver.
Qed.
Lemma registered_report k e p f s : past_fetching k s → registered s → registered (report (mkApplyResult k e p f) s).
Proof.
  intros Hp H i j Hj. destruct (H i j Hj) as [H1 H2]. split; [|exact H2]. intros Hs. cbn.
  apply Forall_app. split; [by apply H1|]. repeat constructor. cbn. intros ->. by apply (Hp j).
Qed.
Lemma registered_folder dir s : registered s → registered (set_folder dir s).
Proof. done. Qed.
Lemma registered_start k j s :
  jobs s !! k = Some j → job_stage j = Spawned → registered s → registered (start k j s).
Proof.
  intros Hk Hst H i j1 (j0 & Hj & Hd)%jobs_drop. cbn [jobs] in Hj. rewrite jobs_on_job in Hj.
  unfold start, registry_insert. rewrite applied_drop, registry_drop. cbn [applied cancel_registry on_job] in *.
  case_decide as Hki.
  - subst i. rewrite Hk in Hj. injection Hj as <-. split.
    + intros _. apply (H k j Hk). rewrite Hst. set_solver.
    + intros _ Hc. destruct Hd as [[-> _]|[-> _]]; [|done]. apply lookup_insert_eq.
  - destruct (H i j0 Hj) as [H1 H2]. split; [by destruct Hd as [[-> _]|[-> _]]|]. intros Hs Hc.
    destruct Hd as [[-> Hne]|[-> _]]; [|done]. specialize (H2 Hs Hc).
    rewrite lookup_insert_ne; [done|]. congruence.
Qed.

Create HintDb registered.
#[export] Hint Resolve registered_remove registered_leave registered_folder registered_report
  past_on_job past_remove : registered.
#[export] Hint Extern 1 (_ ∉ [Spawned; Fetching]) => (intros ?; set_solver) : registered.

Lemma registered_step sha256 keep e s : registered s → registered (step sha256 keep e s).
Proof.
  intros H. destruct e; cbn [step]; [..|by apply registered_remove];
    (destruct (jobs s !! i) as [j|] eqn:Hj; [|done]); destruct (job_stage j) eqn:Hs; try done.
  - by apply registered_start.
  - destruct (cancelled j); [|done]. unfold abandon. auto with registered.
  - unfold fetch_result, abandon. destruct (cancelled j); [auto with registered|].
    destruct a; [|auto with registered]. repeat case_match; auto with registered.
  - unfold hand_off, abandon. destruct (cancelled j); auto with registered.
  - unfold resolve. auto with registered.
  - unfold stage_file. destruct (write_partial _ _ _ _ _ _ _) as [[] ?]; auto with registered.
  - unfold rename_file. destruct (rename_partial _ _ _) as [[] ?]; auto with registered.
  - unfold finish_job, abandon. destruct landed, (cancelled j); cbn [set_folder folder];
      auto 6 with registered.
Qed.
Lemma registered_steps sha256 keep es s : registered s → registered (steps sha256 keep es s).
Proof. revert s. induction es as [|e es IH]; intros s Hs; [done|]. cbn. by apply IH, registered_step. Qed.
Lemma registered_spawned dir offers : registered (spawned dir offers).
Proof.
  intros i j Hj. cbn in Hj. rewrite list_lookup_fmap in Hj. apply fmap_Some in Hj as (o & _ & ->). by split.
Qed.

Lemma doomed_by_start i j ji jj s :
  i ≠ j → jobs s !! i = Some ji → job_stage ji = Fetching → job_sha ji = job_sha jj →
  (cancelled ji = false → cancel_registry s !! job_sha ji = Some i) →
  Forall (λ r, ar_job r ≠ i) (applied s) → doomed i (start j jj s).
Proof.
  intros Hne Hi Hs Hsha Hreg Ha. unfold start, registry_insert. cbn [cancel_registry on_job]. rewrite <- Hsha.
  set (s1 := mkTasks _ _ _ _).
  assert (jobs s1 !! i = Some ji) as Hi1 by (cbn; by rewrite list_lookup_alter_ne).
  destruct (cancelled ji) eqn:Hc.
  - apply doomed_drop. split; [by eauto|done].
  - rewrite (Hreg eq_refl). split; [|done]. cbn [drop_sender]. rewrite jobs_on_job, decide_True, Hi1 by done. cbn. eauto.
Qed.

(** Of two files with the same contents in one announcement (or a file
    announced again while it is fetched) only one arrives.  A task is known by
    the hash of its file; when a second one of the same hash starts while the
    first still waits, the sender of the first is replaced and dropped, which
    the first takes for a cancellation: whatever happens afterwards it ends
    without a file and without any result, not even a failure. *)
Theorem same_content_lost sha256 keep dir offers es es' i j ji jj :
  let s := steps sha256 keep es (spawned dir offers) in
  i ≠ j → jobs s !! i = Some ji → job_stage ji = Fetching →
  jobs s !! j = Some jj → job_stage jj = Spawned → job_sha ji = job_sha jj →
  let s' := steps sha256 keep (EvStart j :: es') s in
  Forall (λ r, ar_job r ≠ i) (applied s') ∧ ∃ ji', jobs s' !! i = Some ji' ∧ job_stage ji' ∈ [Fetching; Done None].
Proof.
  intros s Hne Hi Hsi Hj Hsj Hsha s'.
  assert (registered s) as Hr by apply registered_steps, registered_spawned.
  pose proof (Hr i ji Hi) as [Ha Hreg].
  assert (doomed i (step sha256 keep (EvStart j) s)) as Hd
    by (cbn [step]; rewrite Hj, Hsj; apply (doomed_by_start i j ji); auto; apply Ha; rewrite Hsi; set_solver).
  apply (doomed_steps sha256 keep i es') in Hd as [(ji' & H1 & _ & H2) Ha']. split; [exact Ha'|].
  exists ji'. split; [exact H1|]. destruct H2 as [-> | ->]; set_solver.
Qed.

(** The fetch of two files of one content. *)
Lemma same_content_lost_witness : ∃ es es',
  let s := steps id false es (spawned ∅ [([x01], "a"); ([x01], "b")]) in
  let s' := steps id false (EvStart 1 :: es') s in
  job_stage <$> jobs s !! 0 = Some Fetching ∧
  job_stage <$> jobs s' !! 1 = Some (Done (Some "b")) ∧ Forall (λ r, ar_job r ≠ 0) (applied s').
Proof.
  exists [EvStart 0], (EvAnswer 0 (Answered 200 [x01]) :: tail (whole_job 1 [x01])). cbv zeta.
  split; [reflexivity|]. split; [vm_compute; reflexivity|].
  eapply (same_content_lost id false ∅ [([x01], "a"); ([x01], "b")] [EvStart 0] _ 0 1); try reflexivity. done.
Defined.

(** ** Two files of the same name *)

Lemma resolve_free dir timestamp name :
  dir !! sanitize_filename name = None → resolve_unique_path dir timestamp name = sanitize_filename name.
Proof.
  intros H. unfold resolve_unique_path. by rewrite decide_True.
Qed.

Lemma alter_at {A} (f : A → A) (l : list A) i x : l !! i = Some x → alter f i l = <[i := f x]> l.
Proof. intros H. rewrite list_insert_alter. apply list_alter_ext; [|done]. intros y Hy. congruence. Qed.

(** The steps of a task that nothing disturbs. *)
Section undisturbed.
Context (sha256 : list byte → list byte) (keep : bool).
Implicit Types (dir : Folder) (js : list Job) (reg : gmap (list byte) nat) (rs : list ApplyResult).
Local Abbreviation job sha name stage := (mkJob sha name stage false).
Local Abbreviation step := (step sha256 keep).

Lemma step_start dir js reg rs i sha name :
  js !! i = Some (job sha name Spawned) → reg !! sha = None →
  step (EvStart i) (mkTasks dir js reg rs) = mkTasks dir (<[i := job sha name Fetching]> js) (<[sha := i]> reg) rs.
Proof.
  intros Hi Hr. cbn [Files.step jobs]. rewrite Hi. cbn [job_stage]. unfold start, registry_insert. cbn.
  rewrite Hr. cbn. by rewrite (alter_at _ _ _ _ Hi).
Qed.
Lemma step_answer dir js reg rs i sha name body :
  js !! i = Some (job sha name Fetching) →
  step (EvAnswer i (Answered 200 body)) (mkTasks dir js reg rs) =
    mkTasks dir (<[i := job sha name (Fetched body)]> js) reg rs.
Proof. intros Hi. cbn. rewrite Hi. cbn. unfold on_job. cbn. by rewrite (alter_at _ _ _ _ Hi). Qed.
Lemma step_hand_off dir js reg rs i sha name body :
  js !! i = Some (job sha name (Fetched body)) →
  step (EvHandOff i) (mkTasks dir js reg rs) = mkTasks dir (<[i := job sha name (Handed body)]> js) reg rs.
Proof. intros Hi. cbn. rewrite Hi. cbn. unfold on_job. cbn. by rewrite (alter_at _ _ _ _ Hi). Qed.
Lemma step_resolve dir js reg rs i sha name body timestamp :
  js !! i = Some (job sha name (Handed body)) →
  step (EvResolve i timestamp) (mkTasks dir js reg rs) =
    mkTasks dir (<[i := job sha name (Resolved (resolve_unique_path dir timestamp name) body)]> js) reg rs.
Proof.
  intros Hi. cbn [Files.step jobs]. rewrite Hi. cbn [job_stage]. unfold resolve, on_job.
  cbn [folder jobs cancel_registry applied job_name]. by rewrite (alter_at _ _ _ _ Hi).
Qed.
Lemma step_stage dir js reg rs i sha name path body :
  js !! i = Some (job sha name (Resolved path body)) →
  dir !! keep_partial_path path ≠ Some Dir → sha256 body = sha →
  step (EvStage i all_fine) (mkTasks dir js reg rs) =
    mkTasks (<[keep_partial_path path := File body]> dir) (<[i := job sha name (Staged path body)]> js) reg rs.
Proof.
  intros Hi Hd Hs. cbn [Files.step jobs]. rewrite Hi. cbn [job_stage]. unfold stage_file, write_partial. cbn.
  rewrite bool_decide_false by done. cbn. rewrite decide_True by done. unfold on_job, set_folder. cbn.
  by rewrite (alter_at _ _ _ _ Hi).
Qed.
Lemma step_rename dir js reg rs i sha name path body node :
  js !! i = Some (job sha name (Staged path body)) →
  dir !! keep_partial_path path = Some node → dir !! path ≠ Some Dir →
  step (EvRename i all_fine) (mkTasks dir js reg rs) =
    mkTasks (<[path := node]> (delete (keep_partial_path path) dir))
      (<[i := job sha name (Written (inr path))]> js) reg rs.
Proof.
  intros Hi Hn Hd. cbn [Files.step jobs]. rewrite Hi. cbn [job_stage]. unfold rename_file, rename_partial. cbn.
  rewrite Hn. rewrite bool_decide_false by done. cbn. unfold on_job, set_folder. cbn.
  by rewrite (alter_at _ _ _ _ Hi).
Qed.
Lemma step_rename_missing dir js reg rs i sha name path body :
  js !! i = Some (job sha name (Staged path body)) → dir !! keep_partial_path path = None →
  step (EvRename i all_fine) (mkTasks dir js reg rs) =
    mkTasks dir (<[i := job sha name (Written (inl "rename partial "))]> js) reg rs.
Proof.
  intros Hi Hn. cbn [Files.step jobs]. rewrite Hi. cbn [job_stage]. unfold rename_file, rename_partial. cbn.
  rewrite Hn. unfold on_job, set_folder. cbn. by rewrite (alter_at _ _ _ _ Hi).
Qed.

(** The last step drops the job's own sender: its job is marked, but ended. *)
Lemma step_finish dir js reg rs i sha name landed :
  js !! i = Some (job sha name (Written landed)) → reg !! sha = Some i →
  step (EvFinish i) (mkTasks dir js reg rs) =
    mkTasks dir (<[i := mkJob sha name (Done (match landed with inr path => Some path | inl _ => None end)) true]> js)
      (delete sha reg)
      (rs ++ [match landed with
              | inr path => mkApplyResult i None (Some path) None
              | inl e => mkApplyResult i (Some (file_error e)) None None
              end]).
Proof.
  intros Hi Hr. cbn [Files.step jobs]. rewrite Hi. cbn [job_stage]. unfold finish_job, registry_remove. cbn.
  destruct landed; cbn; rewrite Hr; cbn; unfold on_job; cbn; rewrite (alter_at _ _ _ _ Hi);
    (rewrite (alter_at _ _ i (job sha name (Done _))) by (apply list_lookup_insert_eq, lookup_lt_is_Some; eauto));
    by rewrite list_insert_insert_eq.
Qed.
End undisturbed.
(** Two files of one name received at a time can take each other's place.
    A name is looked for before anything is written under it, and both use the
    staging name that goes with it; when both have looked before either renames,
    the second overwrites the staging file of the first after it was verified.
    The first then reports that its file is in place, with the contents of the
    second under its name; the second reports a failure; the first contents are
    nowhere. *)
Theorem same_name_race sha256 keep dir name b0 b1 :
  let n := sanitize_filename name in
  dir !! n = None → dir !! keep_partial_path n = None → sha256 b0 ≠ sha256 b1 →
  let s := steps sha256 keep
    [EvStart 0; EvStart 1; EvAnswer 0 (Answered 200 b0); EvAnswer 1 (Answered 200 b1); EvHandOff 0; EvHandOff 1;
     EvResolve 0 0; EvResolve 1 0; EvStage 0 all_fine; EvStage 1 all_fine; EvRename 0 all_fine;
     EvRename 1 all_fine; EvFinish 0; EvFinish 1]
    (spawned dir [(sha256 b0, name); (sha256 b1, name)]) in
  folder s = <[n := File b1]> dir ∧
  applied s = [mkApplyResult 0 None (Some n) None; mkApplyResult 1 (Some IoError) None None].
Proof.
  intros n Hn Hp Hsha. unfold spawned.
  assert (resolve_unique_path dir 0 name = n) as Hr by (by apply resolve_free).
  pose proof (partial_ne n) as Hpn.
  cbv zeta. unfold steps. cbn [foldl].
  erewrite step_start; [|reflexivity|by apply lookup_empty].
  erewrite step_start; [|reflexivity|by rewrite lookup_insert_ne].
  do 2 (erewrite step_answer; [|reflexivity]). do 2 (erewrite step_hand_off; [|reflexivity]).
  do 2 (erewrite step_resolve; [|reflexivity]). cbn [fst snd]. rewrite Hr.
  erewrite step_stage; [|reflexivity|by rewrite Hp|done].
  erewrite step_stage; [|reflexivity|by rewrite lookup_insert_eq|done].
  erewrite step_rename; [|reflexivity|apply lookup_insert_eq|by rewrite !lookup_insert_ne, Hn].
  erewrite step_rename_missing; [|reflexivity|by rewrite lookup_insert_ne, lookup_delete_eq].
  erewrite step_finish; [|reflexivity|by rewrite lookup_insert_ne, lookup_insert_eq].
  erewrite step_finish; [|reflexivity|by rewrite lookup_delete_ne, lookup_insert_eq].
  cbn [folder applied]. split; [|done]. rewrite insert_insert_eq. by rewrite delete_insert_id.
Qed.

Lemma same_name_race_witness :
  let s := steps id false
    [EvStart 0; EvStart 1; EvAnswer 0 (Answered 200 [x01]); EvAnswer 1 (Answered 200 [x02]); EvHandOff 0; EvHandOff 1;
     EvResolve 0 0; EvResolve 1 0; EvStage 0 all_fine; EvStage 1 all_fine; EvRename 0 all_fine;
     EvRename 1 all_fine; EvFinish 0; EvFinish 1]
    (spawned ∅ [([x01], "docs/a.txt"); ([x02], "docs/a.txt")]) in
  folder s = {["docs_a.txt" := File [x02]]} ∧
  applied s = [mkApplyResult 0 None (Some "docs_a.txt") None; mkApplyResult 1 (Some IoError) None None].
Proof. by apply (same_name_race id false ∅ "docs/a.txt" [x01] [x02]). Defined.

(** C31. A file that is announced and fetched undisturbed arrives: its contents
    are in the directory under the chosen name, every other file but a leftover
    staging file is as before, the result reports it, and nothing of the task
    stays registered. *)
Theorem file_arrives sha256 keep dir js reg rs i name body :
  let sha := sha256 body in
  let path := resolve_unique_path dir 0 name in
  js !! i = Some (mkJob sha name Spawned false) → reg !! sha = None →
  dir !! path ≠ Some Dir → dir !! keep_partial_path path ≠ Some Dir →
  let s := steps sha256 keep (whole_job i body) (mkTasks dir js reg rs) in
  folder s = <[path := File body]> (delete (keep_partial_path path) dir) ∧ cancel_registry s = reg ∧
  applied s = rs ++ [mkApplyResult i None (Some path) None] ∧
  (∀ k, k ≠ i → jobs s !! k = js !! k) ∧ job_stage <$> jobs s !! i = Some (Done (Some path)).
Proof.
  intros sha path Hi Hr Hd Hp. cbv zeta. unfold whole_job, steps. cbn [foldl].
  assert (∀ j, <[i:=j]> js !! i = Some j) as Hat by (intros; apply list_lookup_insert_eq, lookup_lt_is_Some; eauto).
  erewrite step_start by done.
  erewrite step_answer by done. rewrite list_insert_insert_eq.
  erewrite step_hand_off by done. rewrite list_insert_insert_eq.
  erewrite step_resolve by done. rewrite list_insert_insert_eq. fold path.
  erewrite step_stage by done. rewrite list_insert_insert_eq.
  erewrite step_rename; [|done|apply lookup_insert_eq|by rewrite lookup_insert_ne by apply partial_ne].
  rewrite list_insert_insert_eq.
  erewrite step_finish by (done || apply lookup_insert_eq). rewrite list_insert_insert_eq.
  cbn [folder cancel_registry applied jobs]. rewrite Hat. split_and!; [|by rewrite delete_insert_id|done| |done].
  - by rewrite delete_insert_eq.
  - intros k Hk. by rewrite list_lookup_insert_ne.
Qed.
Lemma file_arrives_witness :
  folder (steps id false (whole_job 0 [x01]) (spawned {["a.txt" := File [x02]]} [([x01], "a.txt")])) =
    {["a.txt" := File [x02]; "a (1).txt" := File [x01]]}.
Proof.
  destruct (file_arrives id false {["a.txt" := File [x02]]} [mkJob [x01] "a.txt" Spawned false] ∅ [] 0 "a.txt" [x01])
    as [H _]; [reflexivity|reflexivity|vm_compute; done|vm_compute; done|].
  unfold spawned. cbn [fmap list_fmap fst snd]. rewrite H. vm_compute. reflexivity.
Defined.

(** ** Files that were verified stay *)

(** The names a task works with, and what it relies on there. *)
Definition names_of (j : Job) : list string :=
  match job_stage j with
  | Resolved path _ | Staged path _ => [path; keep_partial_path path]
  | Written (inr path) | Done (Some path) => [path]
  | _ => []
  end.
Definition verified (sha256 : list byte → list byte) (dir : Folder) (sha : list byte) (path : string) : Prop :=
  ∃ body, dir !! path = Some (File body) ∧ sha256 body = sha.
Definition good (sha256 : list byte → list byte) (dir : Folder) (j : Job) : Prop :=
  match job_stage j with
  | Staged path body => verified sha256 dir (job_sha j) (keep_partial_path path)
  | Written (inr path) | Done (Some path) => verified sha256 dir (job_sha j) path
  | _ => True
  end.

(** Nobody uses the name or its staging name. *)
Definition unused (path : string) (s : Tasks) : Prop :=
  folder s !! path = None ∧ folder s !! keep_partial_path path = None ∧
  Forall (λ j, (path ∉ names_of j) ∧ keep_partial_path path ∉ names_of j) (jobs s).
#[export] Instance unused_dec path s : Decision (unused path s).
Proof. unfold unused. apply _. Defined.

(** Every name that is chosen in the run is unused when it is chosen. *)
Definition clean_choice (e : FileEvent) (s : Tasks) : bool :=
  match e with
  | EvResolve i timestamp =>
      match jobs s !! i with
      | Some j =>
          match job_stage j with
          | Handed _ => bool_decide (unused (resolve_unique_path (folder s) timestamp (job_name j)) s)
          | _ => true
          end
      | None => true
      end
  | _ => true
  end.
Fixpoint clean_choices (sha256 : list byte → list byte) (keep : bool) (es : list FileEvent) (s : Tasks) : bool :=
  match es with
  | [] => true
  | e :: es => clean_choice e s && clean_choices sha256 keep es (step sha256 keep e s)
  end.

Definition kept_apart (sha256 : list byte → list byte) (s : Tasks) : Prop :=
  (∀ i j, jobs s !! i = Some j → good sha256 (folder s) j) ∧
  (∀ i k ji jk n, i ≠ k → jobs s !! i = Some ji → jobs s !! k = Some jk → n ∈ names_of ji → n ∉ names_of jk).

Lemma good_frame sha256 dir dir' j :
  (∀ n, n ∈ names_of j → dir' !! n = dir !! n) → good sha256 dir j → good sha256 dir' j.
Proof.
  unfold good, names_of, verified. destruct (job_stage j) as [| | | |path body|path body|[e|path]|[path|]]; try done;
    cbn; intros H (b & Hb & Hs); exists b; (split; [|done]); (rewrite H; [done|set_solver]).
Qed.

(** One task moves on, within its names or to names nobody uses. *)
Lemma kept_apart_update sha256 s i j j' dir' reg rs :
  kept_apart sha256 s → jobs s !! i = Some j →
  (∀ n, n ∈ names_of j' → n ∈ names_of j ∨ Forall (λ jk, n ∉ names_of jk) (jobs s)) →
  (∀ n, n ∉ names_of j → dir' !! n = folder s !! n) →
  good sha256 dir' j' →
  kept_apart sha256 (mkTasks dir' (<[i := j']> (jobs s)) reg rs).
Proof.
  intros [Hg Hd] Hi Hn Hf Hj'. split; cbn [folder jobs].
  - intros k jk Hk. destruct (decide (i = k)) as [<-|Hne].
    + apply list_lookup_insert_Some in Hk as [(_ & <- & _)|[? _]]; [done|congruence].
    + rewrite list_lookup_insert_ne in Hk by done. apply (good_frame sha256 (folder s)); [|by apply (Hg k)].
      intros n Hin. apply Hf. intros Hj. by apply (Hd i k j jk n).
  - assert (∀ k jk n, i ≠ k → jobs s !! k = Some jk → n ∈ names_of j' → n ∉ names_of jk) as Hx.
    { intros k jk n Hne Hk Hin. destruct (Hn n Hin) as [Hj|Ha]; [by apply (Hd i k j jk n)|].
      rewrite Forall_lookup in Ha. by apply (Ha k). }
    intros a b ja jb n Hne [(<- & <- & _)|[Ha Hja]]%list_lookup_insert_Some [(<- & <- & _)|[Hb Hjb]]%list_lookup_insert_Some Hin.
    + done.
    + by apply (Hx b jb n).
    + intros Hin'. by apply (Hx a ja n).
    + by apply (Hd a b ja jb n).
Qed.

Lemma names_cancel j : names_of (cancel j) = names_of j.
Proof. done. Qed.
Lemma kept_apart_same sha256 s s' :
  folder s' = folder s → jobs s' = jobs s → kept_apart sha256 s → kept_apart sha256 s'.
Proof. unfold kept_apart. by intros -> ->. Qed.
Lemma kept_apart_drop sha256 sender s : kept_apart sha256 s → kept_apart sha256 (drop_sender sender s).
Proof.
  intros [Hg Hd].
  assert (∀ i j, jobs (drop_sender sender s) !! i = Some j →
    ∃ j0, jobs s !! i = Some j0 ∧ names_of j = names_of j0 ∧ (∀ dir, good sha256 dir j0 → good sha256 dir j)) as Hx.
  { intros i j (j0 & Hj & [[-> _]|[-> _]])%jobs_drop; by exists j0. }
  split.
  - intros i j (j0 & Hj & _ & Hgood)%Hx. rewrite folder_drop. eauto.
  - intros i k ji jk n Hne (j0 & Hi & -> & _)%Hx (k0 & Hk & -> & _)%Hx. by apply (Hd i k).
Qed.
Lemma kept_apart_remove sha256 sha s : kept_apart sha256 s → kept_apart sha256 (registry_remove sha s).
Proof. intros H. by apply kept_apart_drop. Qed.
Lemma kept_apart_insert sha256 sha i s : kept_apart sha256 s → kept_apart sha256 (registry_insert sha i s).
Proof. intros H. by apply kept_apart_drop. Qed.
Lemma kept_apart_report sha256 r s : kept_apart sha256 s → kept_apart sha256 (report r s).
Proof. done. Qed.
#[export] Hint Resolve kept_apart_remove kept_apart_insert kept_apart_report : registered.

Lemma kept_apart_stage sha256 s i j stage dir' :
  kept_apart sha256 s → jobs s !! i = Some j →
  (∀ n, n ∈ names_of (set_stage stage j) → n ∈ names_of j ∨ Forall (λ jk, n ∉ names_of jk) (jobs s)) →
  (∀ n, n ∉ names_of j → dir' !! n = folder s !! n) →
  good sha256 dir' (set_stage stage j) →
  kept_apart sha256 (on_job i (set_stage stage) (set_folder dir' s)).
Proof.
  intros H Hi Hn Hf Hg. unfold on_job, set_folder. cbn [folder jobs cancel_registry applied].
  rewrite (alter_at _ _ _ _ Hi). by apply kept_apart_update with j.
Qed.
(** A task that lets go of its names, or keeps having none. *)
Lemma kept_apart_release sha256 s i j stage :
  kept_apart sha256 s → jobs s !! i = Some j → names_of (set_stage stage j) = [] →
  good sha256 (folder s) (set_stage stage j) → kept_apart sha256 (on_job i (set_stage stage) s).
Proof.
  intros H Hi Hn Hg. apply (kept_apart_same sha256 (on_job i (set_stage stage) (set_folder (folder s) s))); [done..|].
  apply kept_apart_stage with j; [done|done| |done|done]. intros n. rewrite Hn. set_solver.
Qed.

Lemma write_partial_cases sha256 io path bytes expected keep dir :
  match write_partial sha256 io path bytes expected keep dir with
  | (Ok _, dir') => dir' = <[keep_partial_path path := File bytes]> dir ∧ sha256 bytes = expected
  | (Err _, dir') => ∀ n, n ≠ keep_partial_path path → dir' !! n = dir !! n
  | _ => False
  end.
Proof.
  unfold write_partial. repeat case_match; simplify_eq; try done; intros name Hname;
    rewrite ?lookup_delete_ne, ?lookup_insert_ne by done; done.
Qed.
Lemma rename_partial_cases io path dir :
  match rename_partial io path dir with
  | (Ok _, dir') => ∃ node, dir !! keep_partial_path path = Some node ∧
                            dir' = <[path := node]> (delete (keep_partial_path path) dir)
  | (Err _, dir') => dir' = dir
  | _ => False
  end.
Proof. unfold rename_partial. repeat case_match; simplify_eq; eauto. Qed.

Lemma kept_apart_write sha256 keep s i j io path body :
  kept_apart sha256 s → jobs s !! i = Some j → job_stage j = Resolved path body →
  kept_apart sha256 (stage_file sha256 keep i j io path body s).
Proof.
  intros H Hi Hs. unfold stage_file.
  pose proof (write_partial_cases sha256 io path body (job_sha j) keep (folder s)) as Hw.
  assert (∀ n, n ∉ names_of j → n ≠ keep_partial_path path) as Hn
    by (unfold names_of; rewrite Hs; set_solver).
  destruct (write_partial _ _ _ _ _ _ _) as [[] dir']; [destruct Hw as [-> Hsha]| |done..].
  - apply kept_apart_stage with j; [done|done| | |].
    + unfold names_of. rewrite Hs. cbn. auto.
    + intros n Hx. rewrite lookup_insert_ne; [done|]. by apply not_eq_sym, Hn.
    + exists body. by rewrite lookup_insert_eq.
  - apply kept_apart_stage with j; [done|done|cbn; set_solver| |done]. intros n Hx. by apply Hw, Hn.
Qed.
Lemma kept_apart_rename sha256 s i j io path body :
  kept_apart sha256 s → jobs s !! i = Some j → job_stage j = Staged path body →
  kept_apart sha256 (rename_file i io path s).
Proof.
  intros H Hi Hs. unfold rename_file. pose proof (rename_partial_cases io path (folder s)) as Hw.
  assert (names_of j = [path; keep_partial_path path]) as Hn by (unfold names_of; by rewrite Hs).
  assert (good sha256 (folder s) j) as Hg by (by apply H with i). unfold good in Hg. rewrite Hs in Hg.
  destruct (rename_partial _ _ _) as [[] dir']; [destruct Hw as (node & Hnode & ->)|subst dir'|done..].
  - apply kept_apart_stage with j; [done|done| | |].
    + rewrite Hn. cbn. set_solver.
    + rewrite Hn. intros n Hx. rewrite lookup_insert_ne, lookup_delete_ne by set_solver. done.
    + destruct Hg as (b & Hb & Hsha). exists b. rewrite lookup_insert_eq. split; [congruence|done].
  - apply kept_apart_stage with j; [done|done|cbn; set_solver|done|done].
Qed.
Lemma kept_apart_finish sha256 s i j landed :
  kept_apart sha256 s → jobs s !! i = Some j → job_stage j = Written landed →
  kept_apart sha256 (finish_job i j landed s).
Proof.
  intros H Hi Hs. unfold finish_job. apply kept_apart_remove.
  assert (good sha256 (folder s) j) as Hg by (by apply H with i). unfold good in Hg. rewrite Hs in Hg.
  destruct landed as [e|path]; [apply kept_apart_report; by apply kept_apart_release with j|].
  assert (names_of j = [path]) as Hn by (unfold names_of; by rewrite Hs).
  destruct (cancelled j); [|apply kept_apart_report].
  - apply (kept_apart_same sha256 (on_job i (set_stage (Done None)) (set_folder (delete path (folder s)) s)));
      [done..|].
    apply kept_apart_stage with j; [done|done|cbn; set_solver| |done].
    rewrite Hn. intros n Hx. rewrite lookup_delete_ne by set_solver. done.
  - apply (kept_apart_same sha256 (on_job i (set_stage (Done (Some path))) (set_folder (folder s) s))); [done..|].
    apply kept_apart_stage with j; [done|done|rewrite Hn; cbn; auto|done|done].
Qed.

Lemma kept_apart_step sha256 keep e s :
  clean_choice e s = true → kept_apart sha256 s → kept_apart sha256 (step sha256 keep e s).
Proof.
  intros Hc H. destruct e; cbn [step]; [..|by apply kept_apart_remove];
    (destruct (jobs s !! i) as [j|] eqn:Hj; [|done]); destruct (job_stage j) eqn:Hs; try done.
  - unfold start. apply kept_apart_insert. by apply kept_apart_release with j.
  - destruct (cancelled j); [|done]. by apply kept_apart_release with j.
  - assert (kept_apart sha256 (abandon i s)) as Ha by (by apply kept_apart_release with j).
    unfold fetch_result. destruct (cancelled j); [done|].
    destruct a; [|auto with registered].
    assert (kept_apart sha256 (on_job i (set_stage (Fetched body)) s)) by (by apply kept_apart_release with j).
    repeat case_match; auto with registered.
  - unfold hand_off. destruct (cancelled j); [apply kept_apart_remove|]; by apply kept_apart_release with j.
  - unfold resolve. cbn [clean_choice] in Hc. rewrite Hj, Hs in Hc. apply bool_decide_eq_true in Hc as (_ & _ & Hu).
    apply (kept_apart_same sha256 (on_job i (set_stage (Resolved (resolve_unique_path (folder s) timestamp (job_name j)) body))
      (set_folder (folder s) s))); [done..|].
    apply kept_apart_stage with j; [done|done| |done|done]. cbn [names_of set_stage job_stage].
    intros n Hn. right. eapply Forall_impl; [exact Hu|]. cbn. set_solver.
  - by apply kept_apart_write.
  - by eapply kept_apart_rename.
  - by apply kept_apart_finish.
Qed.

(** C22. As long as every name is unused when it is chosen (a file that is
    received nowhere else, no staging file left of it), what a task leaves behind
    keeps the contents that were announced: after any interleaving of any number
    of tasks, failing calls and cancellations, the file of every task that ended
    with one holds bytes of its hash, and no two tasks have the same file. *)
Theorem landed_verified sha256 keep dir offers es :
  let s := steps sha256 keep es (spawned dir offers) in
  clean_choices sha256 keep es (spawned dir offers) = true →
  (∀ i j path, jobs s !! i = Some j → job_stage j = Done (Some path) →
     ∃ body, folder s !! path = Some (File body) ∧ sha256 body = job_sha j) ∧
  (∀ i k ji jk path, i ≠ k → jobs s !! i = Some ji → jobs s !! k = Some jk →
     job_stage ji = Done (Some path) → job_stage jk ≠ Done (Some path)).
Proof.
  cbv zeta. intros Hc.
  assert (kept_apart sha256 (steps sha256 keep es (spawned dir offers))) as [Hg Hd].
  { assert (kept_apart sha256 (spawned dir offers)) as H0.
    { assert (∀ i j, jobs (spawned dir offers) !! i = Some j → job_stage j = Spawned) as Hs.
      { intros i j Hj. cbn in Hj. rewrite list_lookup_fmap in Hj. by apply fmap_Some in Hj as (? & _ & ->). }
      split; [intros i j Hj|intros i k ji jk n _ Hi _]; unfold good, names_of; rewrite (Hs _ _ ltac:(eassumption)); [done|].
      set_solver. }
    revert Hc H0. generalize (spawned dir offers). induction es as [|e es IH]; intros s; cbn; [done|].
    intros [He Hes]%andb_true_iff H0. apply IH; [done|]. by apply kept_apart_step. }
  split.
  - intros i j path Hi Hs. specialize (Hg i j Hi). unfold good in Hg. by rewrite Hs in Hg.
  - intros i k ji jk path Hne Hi Hk Hsi Hsk. apply (Hd i k ji jk path Hne Hi Hk); unfold names_of.
    + rewrite Hsi. set_solver.
    + rewrite Hsk. set_solver.
Qed.
Lemma landed_verified_witness :
  let s := steps id false (whole_job 0 [x01] ++ whole_job 1 [x02]) (spawned ∅ [([x01], "a.txt"); ([x02], "a.txt")]) in
  job_stage <$> jobs s !! 1 = Some (Done (Some "a (1).txt")) ∧
  ∃ body, folder s !! "a (1).txt" = Some (File body) ∧ body = [x02].
Proof.
  cbv zeta. split; [vm_compute; reflexivity|].
  destruct (landed_verified id false ∅ [([x01], "a.txt"); ([x02], "a.txt")] (whole_job 0 [x01] ++ whole_job 1 [x02])) as [H _];
    [vm_compute; reflexivity|].
  apply (H 1 (mkJob [x02] "a.txt" (Done (Some "a (1).txt")) true)); vm_compute; reflexivity.
Defined.

(** A received file can be destroyed by a later one whose staging name it has. *)
Lemma staging_overwrites :
  let offers := [([x01], "a.partial"); ([x02], "a")] in
  let s := steps id false (whole_job 0 [x01] ++ whole_job 1 [x02]) (spawned ∅ offers) in
  folder s = {["a" := File [x02]]} ∧
  applied s = [mkApplyResult 0 None (Some "a.partial") None; mkApplyResult 1 None (Some "a") None].
Proof. vm_compute. done. Qed.

(** Whoever knows a hash can cancel the transfer of that file from anyone; a
    cancellation during the write removes the file after success was reported. *)
Lemma cancel_after_report :
  let es := [EvStart 0; EvAnswer 0 (Answered 200 [x01]); EvHandOff 0; EvResolve 0 0; EvStage 0 all_fine;
             EvRename 0 all_fine; EvCancel [x01]; EvFinish 0] in
  let s := steps id false es (spawned ∅ [([x01], "a")]) in
  folder s = ∅ ∧ applied s = [mkApplyResult 0 None (Some "a") None].
Proof. vm_compute. done. Qed.
