(* ===== verification/Clipboard.v ===== *)
(** The clipboard of the daemon (src/service.rs and src/clipboard/mod.rs): the
    task that polls the local clipboard, what is sent when it changed, what is
    done with an announcement of a peer, and how what was received is kept from
    being sent back.

    The clipboard of the operating system is an instance of the class [Backend],
    the trait of that role.  A handler of the main loop is a call on the state
    [Clip] that is given the instant, the peers and the settings as an [Env]; a
    handler that waits for a reply of the poller has it before anything else
    runs in the main loop, while the poller's own reads are separate turns. *)

From Stdlib Require Import Strings.Ascii.
From stdpp Require Import sorting.
From S2P Require Import Prelude InputEvent Proto Text Transport Caches Net Clients Service Files.
From S2P Require Http3 Config.

Abbreviation sha := (list byte).

(** * Text and images *)

Definition from_utf8_lossy (bs : list byte) : string := of_bytes (Utf8.lossy bs).
Lemma from_utf8_lossy_text text :
  utf8_valid (as_bytes text) = true → from_utf8_lossy (as_bytes text) = text.
Proof. intros H. unfold from_utf8_lossy. rewrite Utf8.lossy_valid by done. apply of_bytes_as_bytes. Qed.

Inductive Mime : Type := Png | Jpeg | Bmp.
#[export] Instance Mime_eq_dec : EqDecision Mime.
Proof. solve_decision. Defined.
Definition MIME_DIB : string := "application/x-dib".
Definition mime_str (m : Mime) : string :=
  match m with Png => "image/png" | Jpeg => "image/jpeg" | Bmp => "image/bmp" end.
Definition from_label (s : string) : option Mime :=
  if decide (s = "image/png") then Some Png
  else if decide (s = "image/jpeg") then Some Jpeg
  else if decide (s = "image/bmp") then Some Bmp
  else None.
Definition is_dib_label (s : string) : bool := bool_decide (s = MIME_DIB).

Definition PNG_MAGIC : list byte := [x89; x50; x4e; x47; x0d; x0a; x1a; x0a].
Definition JPEG_MAGIC : list byte := [xff; xd8; xff].
Definition BMP_MAGIC : list byte := [x42; x4d].
Definition mime_from_magic (bytes : list byte) : option Mime :=
  let starts_with magic := bool_decide (take (length magic) bytes = magic) in
  if starts_with PNG_MAGIC then Some Png
  else if starts_with JPEG_MAGIC then Some Jpeg
  else if starts_with BMP_MAGIC then Some Bmp
  else None.

Lemma label_roundtrip m : from_label (mime_str m) = Some m ∧ is_dib_label (mime_str m) = false.
Proof. by destruct m. Qed.
Lemma magic_exclusive m body :
  mime_from_magic (match m with Png => PNG_MAGIC | Jpeg => JPEG_MAGIC | Bmp => BMP_MAGIC end ++ body) = Some m.
Proof. by destruct m. Qed.

Record ImageBytes : Type := mkImage { img_mime : string; img_data : list byte }.

(** * The local clipboard *)

(** [ClipboardBackend].  A setter answers whether it succeeded. *)
Class Backend (B : Type) : Type := {
  set_text : string → B → bool * B;
  set_image : list byte → Mime → B → bool * B;
  set_dib_image : list byte → B → bool * B;
  set_files : list string → B → bool * B;
  current_text : B → option string * B;
  current_image : B → option ImageBytes * B;
  current_files : B → option (list string) * B
}.

(** What the daemon relies on: a text that was set is what is read from then on,
    and nothing else; the same of a selection of files.  [takes_text] and
    [takes_files] say when: which contents a system keeps as they are, and in
    which of its states. *)
Class TextLaws (B : Type) `{Backend B} : Type := {
  takes_text : string → B → Prop;
  holds_text : string → B → Prop;
  set_text_holds s b b' : takes_text s b → set_text s b = (true, b') → holds_text s b';
  text_current s b : holds_text s b →
    (∃ b', current_text b = (Some s, b') ∧ holds_text s b') ∧
    (∃ b', current_image b = (None, b') ∧ holds_text s b') ∧
    (∃ b', current_files b = (None, b') ∧ holds_text s b')
}.
Class FileLaws (B : Type) `{Backend B} : Type := {
  takes_files : list string → B → Prop;
  holds_files : list string → B → Prop;
  set_files_holds l b b' : takes_files l b → set_files l b = (true, b') → holds_files l b';
  files_current l b : holds_files l b →
    (∃ b', current_text b = (None, b') ∧ holds_files l b') ∧
    (∃ b', current_image b = (None, b') ∧ holds_files l b') ∧
    (∃ b' l', current_files b = (Some l', b') ∧ l' ≡ₚ l ∧ holds_files l b')
}.

(** * State *)

Inductive Recipient : Type := Outgoing (h : ClientHandle) | IncomingPeer (addr : SocketAddr).

(** [FrontendEvent], the variants of the clipboard. *)
Inductive ClipboardNotice : Type :=
| ClipboardState (text_ts image_ts file_ts : option Z) (source : option SocketAddr)
| FileTransferFailed (sha256 : sha) (reason : string).

Record FileSetCollector : Type := mkCollector { expected : nat; received : list ApplyResult }.

Inductive ImageStage : Type := ImFetching | ImWritten | ImDone.
Record ImageTask : Type := mkImageTask { im_sha : sha; im_mime : string; im_source : SocketAddr; im_stage : ImageStage }.
Record InboundImageApplyResult : Type := mkImageResult {
  ia_sha : sha; ia_source : SocketAddr; ia_success : bool; post_write_sha : option sha
}.

(** What was sent last, and the fingerprints that are not to be sent again. *)
Record Outbound : Type := mkOutbound {
  clipboard_lru : Loopback.LruFingerprints;
  clipboard_last_text : option string;
  last_outbound_text_sha : option sha;
  last_outbound_image_sha : option sha;
  last_outbound_files_fingerprint : option sha;
  last_outbound_files_sha : list sha
}.
Record Inbound : Type := mkInbound {
  image_lru_fingerprints : Loopback.LruFingerprints;
  file_lru_fingerprints : Loopback.LruFingerprints;
  pending_file_collectors : gmap sha FileSetCollector
}.
Record Stamps : Type := mkStamps {
  last_text_ts : option Z; last_image_ts : option Z; last_file_ts : option Z;
  last_clipboard_source : option SocketAddr
}.
Record ClipboardMetrics : Type := mkMetrics { skip_count : Z; allow_count : Z; last_skip_ts : Z }.

(** The poller task, and the channels between it, the tasks that fetch images
    and files, and the main loop. *)
Record Poller (B : Type) : Type := mkPoller {
  backend : option B; alive : bool;
  text_rx : list string; image_rx : list ImageBytes; files_rx : list (list string)
}.
Arguments mkPoller {B}. Arguments backend {B}. Arguments alive {B}.
Arguments text_rx {B}. Arguments image_rx {B}. Arguments files_rx {B}.

(** The tasks of received files, with the batch and the sender of each. *)
Record Tasks : Type := mkClipTasks {
  files : Files.Tasks; origin : list (sha * SocketAddr);
  images : list ImageTask; applied_rx : list InboundImageApplyResult
}.

Record Clip (B : Type) : Type := mkClip {
  outbound : Outbound;
  inbound : Inbound;
  caches : Http3.Caches;
  stamps : Stamps;
  metrics : ClipboardMetrics;
  poller : Poller B;
  tasks : Tasks;
  sent : list (Recipient * ProtoEvent);
  notices : list ClipboardNotice
}.
Arguments mkClip {B}. Arguments outbound {B}. Arguments inbound {B}. Arguments caches {B}.
Arguments stamps {B}. Arguments metrics {B}. Arguments poller {B}. Arguments tasks {B}.
Arguments sent {B}. Arguments notices {B}.

(** What a turn is given: the instants of the two clocks, the peers that are
    known (an incoming one with whether a message reaches it), and the settings. *)
Record Env : Type := mkEnv {
  now : Z; unix_now_ms : Z;
  client_states : list (ClientHandle * ClientConfig * ClientState);
  incoming : list (SocketAddr * IncomingClipboardState * bool);
  settings : Config.ClipboardConfig
}.

(** ** Updates *)

Section updates.
Context {B : Type}.
Implicit Types (c : Clip B).

Definition on_outbound (f : Outbound → Outbound) c : Clip B :=
  mkClip (f (outbound c)) (inbound c) (caches c) (stamps c) (metrics c) (poller c) (tasks c) (sent c) (notices c).
Definition on_inbound (f : Inbound → Inbound) c : Clip B :=
  mkClip (outbound c) (f (inbound c)) (caches c) (stamps c) (metrics c) (poller c) (tasks c) (sent c) (notices c).
Definition on_caches (f : Http3.Caches → Http3.Caches) c : Clip B :=
  mkClip (outbound c) (inbound c) (f (caches c)) (stamps c) (metrics c) (poller c) (tasks c) (sent c) (notices c).
Definition on_metrics (f : ClipboardMetrics → ClipboardMetrics) c : Clip B :=
  mkClip (outbound c) (inbound c) (caches c) (stamps c) (f (metrics c)) (poller c) (tasks c) (sent c) (notices c).
Definition on_poller (f : Poller B → Poller B) c : Clip B :=
  mkClip (outbound c) (inbound c) (caches c) (stamps c) (metrics c) (f (poller c)) (tasks c) (sent c) (notices c).
Definition on_tasks (f : Tasks → Tasks) c : Clip B :=
  mkClip (outbound c) (inbound c) (caches c) (stamps c) (metrics c) (poller c) (f (tasks c)) (sent c) (notices c).
Definition send_all (l : list (Recipient * ProtoEvent)) c : Clip B :=
  mkClip (outbound c) (inbound c) (caches c) (stamps c) (metrics c) (poller c) (tasks c) (sent c ++ l) (notices c).
(** The time stamps, and the notice that carries them. *)
Definition stamp (f : Stamps → Stamps) c : Clip B :=
  let st := f (stamps c) in
  mkClip (outbound c) (inbound c) (caches c) st (metrics c) (poller c) (tasks c) (sent c)
    (notices c ++ [ClipboardState (last_text_ts st) (last_image_ts st) (last_file_ts st) (last_clipboard_source st)]).
Definition notify (n : ClipboardNotice) c : Clip B :=
  mkClip (outbound c) (inbound c) (caches c) (stamps c) (metrics c) (poller c) (tasks c) (sent c) (notices c ++ [n]).
End updates.

Definition set_text_lru (l : Loopback.LruFingerprints) (o : Outbound) : Outbound :=
  mkOutbound l (clipboard_last_text o) (last_outbound_text_sha o) (last_outbound_image_sha o)
    (last_outbound_files_fingerprint o) (last_outbound_files_sha o).
Definition set_last_text (t : option string) (o : Outbound) : Outbound :=
  mkOutbound (clipboard_lru o) t (last_outbound_text_sha o) (last_outbound_image_sha o)
    (last_outbound_files_fingerprint o) (last_outbound_files_sha o).
Definition set_text_sha (s : option sha) (o : Outbound) : Outbound :=
  mkOutbound (clipboard_lru o) (clipboard_last_text o) s (last_outbound_image_sha o)
    (last_outbound_files_fingerprint o) (last_outbound_files_sha o).
Definition set_image_sha (s : option sha) (o : Outbound) : Outbound :=
  mkOutbound (clipboard_lru o) (clipboard_last_text o) (last_outbound_text_sha o) s
    (last_outbound_files_fingerprint o) (last_outbound_files_sha o).
Definition set_files_fingerprint (s : option sha) (o : Outbound) : Outbound :=
  mkOutbound (clipboard_lru o) (clipboard_last_text o) (last_outbound_text_sha o) (last_outbound_image_sha o)
    s (last_outbound_files_sha o).
Definition set_files_sha (l : list sha) (o : Outbound) : Outbound :=
  mkOutbound (clipboard_lru o) (clipboard_last_text o) (last_outbound_text_sha o) (last_outbound_image_sha o)
    (last_outbound_files_fingerprint o) l.
Definition set_image_lru (l : Loopback.LruFingerprints) (i : Inbound) : Inbound :=
  mkInbound l (file_lru_fingerprints i) (pending_file_collectors i).
Definition set_file_lru (l : Loopback.LruFingerprints) (i : Inbound) : Inbound :=
  mkInbound (image_lru_fingerprints i) l (pending_file_collectors i).
Definition set_collectors (m : gmap sha FileSetCollector) (i : Inbound) : Inbound :=
  mkInbound (image_lru_fingerprints i) (file_lru_fingerprints i) m.
Definition text_at (ms : Z) (source : option SocketAddr) (s : Stamps) : Stamps :=
  mkStamps (Some ms) (last_image_ts s) (last_file_ts s) source.
Definition image_at (ms : Z) (source : option SocketAddr) (s : Stamps) : Stamps :=
  mkStamps (last_text_ts s) (Some ms) (last_file_ts s) source.
Definition file_at (ms : Z) (source : option SocketAddr) (s : Stamps) : Stamps :=
  mkStamps (last_text_ts s) (last_image_ts s) (Some ms) source.
Definition incr_skip (ms : Z) (m : ClipboardMetrics) : ClipboardMetrics :=
  mkMetrics ((skip_count m + 1) mod 2 ^ 64)%Z (allow_count m) ms.
Definition incr_allow (m : ClipboardMetrics) : ClipboardMetrics :=
  mkMetrics (skip_count m) ((allow_count m + 1) mod 2 ^ 64)%Z (last_skip_ts m).

Definition on_clipboard_cache (f : ClipboardCache.t → ClipboardCache.t) (cs : Http3.Caches) : Http3.Caches :=
  Http3.mkCaches (f (Http3.clipboard_cache cs)) (Http3.file_cache cs).
Definition on_file_cache (f : FileCache.t → FileCache.t) (cs : Http3.Caches) : Http3.Caches :=
  Http3.mkCaches (Http3.clipboard_cache cs) (f (Http3.file_cache cs)).

(** * The poller *)

Inductive BackendCmd : Type :=
| SetText (text : string) | SetImage (bytes : list byte) (mime : Mime) | SetDibImage (bytes : list byte)
| CurrentText | CurrentImage | CurrentFiles | SetFiles (l : list string).
Inductive Reply : Type :=
| RSet (ok : bool) | RText (t : option string) | RImage (i : option ImageBytes) | RFiles (l : option (list string)).

Section clipboard.
Context {B : Type} `{Backend B}.
Variable sha256 : list byte → sha.
Abbreviation M := (ST (Clip B) Empty_set).
Implicit Types (e : Env).

Definition sha256_of (text : string) : sha := sha256 (as_bytes text).

(** The answer to a command; without a backend nothing can be set or read. *)
Definition serve_command (cmd : BackendCmd) (b : option B) : Reply * option B :=
  match b with
  | None =>
      (match cmd with
       | SetText _ | SetImage _ _ | SetDibImage _ | SetFiles _ => RSet false
       | CurrentText => RText None | CurrentImage => RImage None | CurrentFiles => RFiles None
       end, None)
  | Some b =>
      match cmd with
      | SetText text => let '(ok, b) := set_text text b in (RSet ok, Some b)
      | SetImage bytes mime => let '(ok, b) := set_image bytes mime b in (RSet ok, Some b)
      | SetDibImage bytes => let '(ok, b) := set_dib_image bytes b in (RSet ok, Some b)
      | CurrentText => let '(t, b) := current_text b in (RText t, Some b)
      | CurrentImage => let '(i, b) := current_image b in (RImage i, Some b)
      | CurrentFiles => let '(l, b) := current_files b in (RFiles l, Some b)
      | SetFiles l => let '(ok, b) := set_files l b in (RSet ok, Some b)
      end
  end.
(** [cmd_tx.send] and the wait for the reply: nothing when the poller is gone. *)
Definition command (cmd : BackendCmd) : M (option Reply) := λ c,
  let p := poller c in
  if alive p then
    let '(r, b) := serve_command cmd (backend p) in
    (Ok (Some r), on_poller (λ p, mkPoller b (alive p) (text_rx p) (image_rx p) (files_rx p)) c)
  else (Ok None, c).

(** One tick: an image hides a text; files are looked at in any case. *)
Definition clipboard_poller (c : Clip B) : Clip B :=
  let p := poller c in
  match alive p, backend p with
  | true, Some b =>
      let '(image, b) := current_image b in
      let '(text, b) := match image with Some _ => (None, b) | None => current_text b end in
      let '(paths, b) := current_files b in
      on_poller (λ p, mkPoller (Some b) true (text_rx p ++ option_list text) (image_rx p ++ option_list image)
                        (files_rx p ++ option_list paths)) c
  | _, _ => c
  end.

(** * Sending *)

Definition recipients e : list Recipient :=
  omap (λ '(h, cfg, st),
    if enable_clipboard_to cfg && active st && bool_decide (is_Some (active_addr st)) then Some (Outgoing h) else None)
    (client_states e) ++
  omap (λ '(addr, st, reached), if cs_enable_clipboard_to st && reached then Some (IncomingPeer addr) else None)
    (incoming e).
Definition broadcast_clipboard_event e (event : ProtoEvent) : M unit :=
  modify_st (send_all ((λ r, (r, event)) <$> recipients e)).

(** [contains] on one of the three windows. *)
Definition text_known e (fp : sha) : M bool := λ c,
  let '(hit, l) := Loopback.contains (now e) fp (clipboard_lru (outbound c)) in
  (Ok hit, on_outbound (set_text_lru l) c).
Definition image_known e (fp : sha) : M bool := λ c,
  let '(hit, l) := Loopback.contains (now e) fp (image_lru_fingerprints (inbound c)) in
  (Ok hit, on_inbound (set_image_lru l) c).
Definition files_known e (fp : sha) : M bool := λ c,
  let '(hit, l) := Loopback.contains (now e) fp (file_lru_fingerprints (inbound c)) in
  (Ok hit, on_inbound (set_file_lru l) c).
Definition mark_text e (fp : sha) : M unit :=
  modify_st (on_outbound (λ o, set_text_lru (Loopback.push (now e) fp (clipboard_lru o)) o)).
Definition mark_local_image_write e (fp : sha) : M unit :=
  modify_st (on_inbound (λ i, set_image_lru (Loopback.push (now e) fp (image_lru_fingerprints i)) i)).

(** [evict_prev_outbound_clipboard_cache], for the text and for the image. *)
Definition evict_prev_outbound (prev : option sha) : M unit :=
  match prev with
  | Some s => modify_st (on_caches (on_clipboard_cache (λ cache, snd (ClipboardCache.remove s cache))))
  | None => mret tt
  end.
Definition cache_insert e (s : sha) (bytes : list byte) : M unit :=
  modify_st (on_caches (on_clipboard_cache (λ cache, snd (ClipboardCache.insert (now e) s bytes cache)))).

(** What both senders of a text do: up to the broadcast, and after it. *)
Definition announce_text e (text : string) : M unit :=
  let s := sha256_of text in
  mark_text e s ≫= λ _,
  modify_st (on_outbound (set_last_text (Some text))) ≫= λ _,
  gets (λ c, last_outbound_text_sha (outbound c)) ≫= λ prev,
  evict_prev_outbound prev ≫= λ _,
  broadcast_clipboard_event e (ProtoEvent.ClipboardText (from_content s s (as_bytes text))).
Definition text_announced e (text : string) : M unit :=
  let s := sha256_of text in
  when (bool_decide (CLIPBOARD_TEXT_INLINE_LIMIT < length (as_bytes text))) (cache_insert e s (as_bytes text)) ≫= λ _,
  modify_st (on_outbound (set_text_sha (Some s))) ≫= λ _,
  modify_st (stamp (text_at (unix_now_ms e) None)).

Definition dispatch_text e (new_text : string) : M unit :=
  gets (λ c, clipboard_last_text (outbound c)) ≫= λ last,
  if decide (last = Some new_text) then mret tt
  else
    text_known e (sha256_of new_text) ≫= λ hit,
    if hit : bool then modify_st (on_outbound (set_last_text (Some new_text)))
    else announce_text e new_text ≫= λ _, text_announced e new_text.

Definition handle_clipboard_recover_push e : M unit :=
  command CurrentText ≫= λ r,
  match r with
  | Some (RText (Some new_text)) => announce_text e new_text ≫= λ _, text_announced e new_text
  | _ => mret tt
  end.

Definition dispatch_image e (image : ImageBytes) : M unit :=
  let s := sha256 (img_data image) in
  image_known e s ≫= λ hit,
  if hit : bool then mret tt
  else
    gets (λ c, last_outbound_image_sha (outbound c)) ≫= λ last,
    if decide (last = Some s) then mret tt
    else
      evict_prev_outbound last ≫= λ _,
      cache_insert e s (img_data image) ≫= λ _,
      broadcast_clipboard_event e
        (ProtoEvent.ClipboardImage (mkClipboardImage s (img_mime image) s (Z.of_nat (length (img_data image))))) ≫= λ _,
      modify_st (on_outbound (set_image_sha (Some s))) ≫= λ _,
      modify_st (stamp (image_at (unix_now_ms e) None)).

(** ** Files *)

Definition not_too_large (entry : FileEntry) : Prop := fe_mime entry ≠ MIME_TOO_LARGE.
#[export] Instance not_too_large_dec entry : Decision (not_too_large entry).
Proof. unfold not_too_large. apply _. Defined.

Definition cancel_event (s : sha) : ProtoEvent := ProtoEvent.FileTransferCancel (mkFileTransferCancel s).
Definition dispatch_files_build_cancel_events (prev_shas : list sha) : M (list ProtoEvent) :=
  modify_st (on_caches (on_file_cache (λ cache, foldl (λ cache s, snd (FileCache.remove s cache)) cache prev_shas))) ≫= λ _,
  mret (cancel_event <$> prev_shas).

(** The files are read once more for the cache; the first that cannot be read
    ends it. *)
Fixpoint fill_file_cache (read : string → option (list byte)) e (l : list (FileEntry * string)) (cache : FileCache.t)
    : FileCache.t :=
  match l with
  | [] => cache
  | (entry, path) :: l =>
      if decide (not_too_large entry) then
        match read path with
        | Some bytes => fill_file_cache read e l (FileCache.insert_owned (now e) (fe_sha256 entry) bytes cache)
        | None => cache
        end
      else fill_file_cache read e l cache
  end.

Definition dispatch_files e (metadata : string → option (bool * Z)) (read read_again : string → option (list byte))
    (paths : list string) : M unit :=
  gets (λ c, last_outbound_files_fingerprint (outbound c)) ≫= λ last,
  match dispatch_files_decide sha256 metadata read paths last (Config.max_file_size (settings e)) with
  | DEmpty | DFingerprintMatch | DIsDirectory _ | DIo => mret tt
  | DExceedsLimit fingerprint _ _ _ =>
      modify_st (on_outbound (set_files_fingerprint (Some fingerprint))) ≫= λ _,
      modify_st (stamp (file_at (unix_now_ms e) None))
  | DOk fingerprint entries paths =>
      gets (λ c, last_outbound_files_sha (outbound c)) ≫= λ prev_shas,
      dispatch_files_build_cancel_events prev_shas ≫= λ cancels,
      for_each (broadcast_clipboard_event e) cancels ≫= λ _,
      broadcast_clipboard_event e (ProtoEvent.ClipboardFiles (mkClipboardFiles fingerprint entries)) ≫= λ _,
      modify_st (on_caches (on_file_cache (fill_file_cache read_again e (zip entries paths)))) ≫= λ _,
      modify_st (on_outbound (set_files_fingerprint (Some fingerprint))) ≫= λ _,
      modify_st (on_outbound (set_files_sha (fe_sha256 <$> filter not_too_large entries))) ≫= λ _,
      modify_st (stamp (file_at (unix_now_ms e) None))
  end.

(** * Receiving *)

(** How a fetch from the peer ends; without a connection none starts. *)
Inductive Fetch : Type := NoPeer | Got (status : Z) (body : list byte) | FetchFailed.

Definition apply_inbound_clipboard_text e (s : sha) (bytes : list byte) (source : SocketAddr) : M unit :=
  mark_text e s ≫= λ _,
  command (SetText (from_utf8_lossy bytes)) ≫= λ r,
  match r with
  | Some (RSet true) =>
      modify_st (on_metrics incr_allow) ≫= λ _,
      modify_st (on_outbound (set_last_text None)) ≫= λ _,
      modify_st (stamp (text_at (unix_now_ms e) (Some source)))
  | _ => mret tt
  end.

Definition handle_clipboard_inbound_text e (fetch : Fetch) (ct : ClipboardText) (addr : SocketAddr) : M unit :=
  text_known e (ct_sha256 ct) ≫= λ hit,
  if hit : bool then modify_st (on_metrics (incr_skip (unix_now_ms e)))
  else match ct_content_inline ct with
  | Some content => apply_inbound_clipboard_text e (ct_sha256 ct) content addr
  | None =>
      match fetch with
      | Got 200 body => apply_inbound_clipboard_text e (ct_sha256 ct) body addr
      | _ => mret tt
      end
  end.

(** An image is fetched and set by a task of its own. *)
Definition add_image (t : ImageTask) (ts : Tasks) : Tasks :=
  mkClipTasks (files ts) (origin ts) (images ts ++ [t]) (applied_rx ts).
Definition handle_clipboard_inbound_image e (connected : bool) (ci : ClipboardImage) (addr : SocketAddr) : M unit :=
  image_known e (ci_sha256 ci) ≫= λ hit,
  if hit : bool then modify_st (on_metrics (incr_skip (unix_now_ms e)))
  else when connected (modify_st (on_tasks (add_image (mkImageTask (ci_sha256 ci) (ci_mime ci) addr ImFetching)))).

Definition set_image_stage (i : nat) (st : ImageStage) (ts : Tasks) : Tasks :=
  mkClipTasks (files ts) (origin ts)
    (alter (λ t, mkImageTask (im_sha t) (im_mime t) (im_source t) st) i (images ts)) (applied_rx ts).
(** The task ends with a result. *)
Definition image_result (i : nat) (t : ImageTask) (success : bool) (post : option sha) : M unit :=
  modify_st (on_tasks (λ ts, let ts := set_image_stage i ImDone ts in
    mkClipTasks (files ts) (origin ts) (images ts)
      (applied_rx ts ++ [mkImageResult (im_sha t) (im_source t) success post]))).

(** [apply_inbound_image_task] up to the write, and [apply_image_inner] after
    it: the clipboard is read once more to learn what it made of the image. *)
Definition write_image (mime : string) (bytes : list byte) : M (option Reply) :=
  command (if is_dib_label mime then SetDibImage bytes else SetImage bytes (default Png (from_label mime))).
Definition apply_inbound_image_task (i : nat) (t : ImageTask) (fetch : Fetch) : M unit :=
  match fetch with
  | Got 200 bytes =>
      write_image (im_mime t) bytes ≫= λ r,
      match r with
      | Some (RSet true) => modify_st (on_tasks (set_image_stage i ImWritten))
      | _ => image_result i t false None
      end
  | _ => image_result i t false None
  end.
Definition apply_image_inner (i : nat) (t : ImageTask) : M unit :=
  command CurrentImage ≫= λ r,
  match r with
  | Some (RImage (Some written)) => image_result i t true (Some (sha256 (img_data written)))
  | _ => image_result i t true None
  end.

Definition handle_inbound_image_applied e (result : InboundImageApplyResult) : M unit :=
  if negb (ia_success result) then mret tt
  else
    mark_local_image_write e (ia_sha result) ≫= λ _,
    match post_write_sha result with Some s => mark_local_image_write e s | None => mret tt end ≫= λ _,
    modify_st (on_metrics incr_allow) ≫= λ _,
    modify_st (stamp (image_at (unix_now_ms e) (Some (ia_source result)))).

(** ** Files *)

Inductive InboundFilesDecision : Type :=
| Apply (entries : list FileEntry) | AllMimeTooLarge | EmptyEntries.
Definition handle_clipboard_inbound_files_decide (entries : list FileEntry) : InboundFilesDecision :=
  match entries with
  | [] => EmptyEntries
  | _ =>
      match filter not_too_large entries with
      | [] => AllMimeTooLarge
      | actionable => Apply actionable
      end
  end.

Definition spawn_files (fingerprint : sha) (addr : SocketAddr) (entries : list FileEntry) (ts : Tasks) : Tasks :=
  let fs := files ts in
  mkClipTasks
    (Files.mkTasks (folder fs) (jobs fs ++ ((λ en, mkJob (fe_sha256 en) (fe_name en) Spawned false) <$> entries))
       (cancel_registry fs) (applied fs))
    (origin ts ++ replicate (length entries) (fingerprint, addr)) (images ts) (applied_rx ts).
Definition handle_clipboard_inbound_files e (connected dir_ok : bool) (cf : ClipboardFiles) (addr : SocketAddr) : M unit :=
  files_known e (cf_fingerprint cf) ≫= λ hit,
  if hit : bool then modify_st (on_metrics (incr_skip (unix_now_ms e)))
  else match handle_clipboard_inbound_files_decide (cf_entries cf) with
  | EmptyEntries | AllMimeTooLarge => mret tt
  | Apply entries =>
      when (connected && dir_ok)
        (modify_st (on_inbound (λ i, set_collectors
           (<[cf_fingerprint cf := mkCollector (length entries) []]> (pending_file_collectors i)) i)) ≫= λ _,
         modify_st (on_tasks (spawn_files (cf_fingerprint cf) addr entries)))
  end.
Definition handle_clipboard_inbound_cancel (s : sha) : M unit :=
  modify_st (on_tasks (λ ts, mkClipTasks (signal_inbound_file_cancel s (files ts)) (origin ts) (images ts) (applied_rx ts))).

Inductive ReinjectSkipReason : Type := SkipDisabled | OptOut | SkipLoopback | EntryFailed | NoLandedPaths.
Definition decide_reinject_skip (clipboard_enabled inject_to_clipboard : bool) (last_fingerprint : option sha)
    (batch_fingerprint : sha) (received : list ApplyResult) : option ReinjectSkipReason :=
  if negb clipboard_enabled then Some SkipDisabled
  else if negb inject_to_clipboard then Some OptOut
  else if decide (last_fingerprint = Some batch_fingerprint) then Some SkipLoopback
  else if existsb (λ r, negb (success r)) received then Some EntryFailed
  else None.

Definition maybe_inject_files_to_clipboard e (batch_fingerprint : sha) (collector : FileSetCollector) : M unit :=
  gets (λ c, last_outbound_files_fingerprint (outbound c)) ≫= λ last,
  match decide_reinject_skip (Config.enabled (settings e)) (Config.inject_to_clipboard (settings e)) last
          batch_fingerprint (received collector) with
  | Some _ => mret tt
  | None =>
      match omap landed_path (received collector) with
      | [] => mret tt
      | paths =>
          modify_st (on_outbound (set_files_fingerprint (Some (file_selection_fingerprint sha256 paths)))) ≫= λ _,
          command (SetFiles paths) ≫= λ _, mret tt
      end
  end.

Definition handle_inbound_files_applied e (job_sha batch_fingerprint : sha) (source : SocketAddr) (result : ApplyResult)
    : M unit :=
  (if success result then
     modify_st (on_inbound (λ i, set_file_lru (Loopback.push (now e) job_sha (file_lru_fingerprints i)) i)) ≫= λ _,
     modify_st (on_metrics incr_allow) ≫= λ _,
     modify_st (stamp (file_at (unix_now_ms e) (Some source)))
   else match stream_failure result with
   | Some reason => modify_st (notify (FileTransferFailed job_sha reason))
   | None => mret tt
   end) ≫= λ _,
  gets (λ c, pending_file_collectors (inbound c) !! batch_fingerprint) ≫= λ collector,
  match collector with
  | None => mret tt
  | Some collector =>
      let collector := mkCollector (expected collector) (received collector ++ [result]) in
      if decide (length (received collector) = expected collector) then
        modify_st (on_inbound (λ i, set_collectors (delete batch_fingerprint (pending_file_collectors i)) i)) ≫= λ _,
        maybe_inject_files_to_clipboard e batch_fingerprint collector
      else
        modify_st (on_inbound (λ i, set_collectors (<[batch_fingerprint := collector]> (pending_file_collectors i)) i))
  end.

(** * The main loop *)

Definition handle_clipboard_inbound e (fetch : Fetch) (connected dir_ok : bool) (addr : SocketAddr) (event : ProtoEvent)
    : M unit :=
  match event with
  | ProtoEvent.ClipboardText ct => handle_clipboard_inbound_text e fetch ct addr
  | ProtoEvent.ClipboardImage ci => handle_clipboard_inbound_image e connected ci addr
  | ProtoEvent.ClipboardFiles cf => handle_clipboard_inbound_files e connected dir_ok cf addr
  | ProtoEvent.FileTransferCancel cancel => handle_clipboard_inbound_cancel (fc_sha256 cancel)
  | _ => mret tt
  end.

Inductive Turn : Type :=
| TTick                                             (* the poller reads the clipboard *)
| TText | TImage                                    (* one element of a channel of the poller *)
| TFiles (metadata : string → option (bool * Z)) (read read_again : string → option (list byte))
| TInbound (fetch : Fetch) (connected dir_ok : bool) (addr : SocketAddr) (event : ProtoEvent)
| TRecover
| TImageFetched (i : nat) (fetch : Fetch) | TImageRead (i : nat) | TImageApplied
| TFileTask (keep_partial : bool) (event : FileEvent)
| TFilesApplied (n : nat)                           (* the result number n *)
| TCopy (f : B → B).                                (* the user, or another program *)

Definition take_text : M (option string) := λ c,
  let p := poller c in
  (Ok (head (text_rx p)), on_poller (λ p, mkPoller (backend p) (alive p) (tail (text_rx p)) (image_rx p) (files_rx p)) c).
Definition take_image : M (option ImageBytes) := λ c,
  let p := poller c in
  (Ok (head (image_rx p)), on_poller (λ p, mkPoller (backend p) (alive p) (text_rx p) (tail (image_rx p)) (files_rx p)) c).
Definition take_files : M (option (list string)) := λ c,
  let p := poller c in
  (Ok (head (files_rx p)), on_poller (λ p, mkPoller (backend p) (alive p) (text_rx p) (image_rx p) (tail (files_rx p))) c).
Definition take_applied : M (option InboundImageApplyResult) := λ c,
  let ts := tasks c in
  (Ok (head (applied_rx ts)), on_tasks (λ ts, mkClipTasks (files ts) (origin ts) (images ts) (tail (applied_rx ts))) c).
Definition with_some {A} (m : M (option A)) (f : A → M unit) : M unit :=
  m ≫= λ o, match o with Some a => f a | None => mret tt end.

Definition turn e (t : Turn) : M unit :=
  match t with
  | TTick => modify_st clipboard_poller
  | TText => with_some take_text (dispatch_text e)
  | TImage => with_some take_image (dispatch_image e)
  | TFiles metadata read read_again => with_some take_files (dispatch_files e metadata read read_again)
  | TInbound fetch connected dir_ok addr event => handle_clipboard_inbound e fetch connected dir_ok addr event
  | TRecover => handle_clipboard_recover_push e
  | TImageFetched i fetch =>
      gets (λ c, images (tasks c) !! i) ≫= λ t,
      match t with
      | Some t => match im_stage t with ImFetching => apply_inbound_image_task i t fetch | _ => mret tt end
      | None => mret tt
      end
  | TImageRead i =>
      gets (λ c, images (tasks c) !! i) ≫= λ t,
      match t with
      | Some t => match im_stage t with ImWritten => apply_image_inner i t | _ => mret tt end
      | None => mret tt
      end
  | TImageApplied => with_some take_applied (handle_inbound_image_applied e)
  | TFileTask keep_partial event =>
      modify_st (on_tasks (λ ts, mkClipTasks (Files.step sha256 keep_partial event (files ts)) (origin ts) (images ts)
                                   (applied_rx ts)))
  | TFilesApplied n =>
      gets (λ c, r ← applied (files (tasks c)) !! n; j ← jobs (files (tasks c)) !! ar_job r;
                 o ← origin (tasks c) !! ar_job r; Some (r, job_sha j, o)) ≫= λ x,
      match x with
      | Some (r, s, (fingerprint, addr)) => handle_inbound_files_applied e s fingerprint addr r
      | None => mret tt
      end
  | TCopy f => modify_st (on_poller (λ p, mkPoller (f <$> backend p) (alive p) (text_rx p) (image_rx p) (files_rx p)))
  end.

Fixpoint turns (l : list (Env * Turn)) : M unit :=
  match l with [] => mret tt | (e, t) :: l => turn e t ≫= λ _, turns l end.
End clipboard.

#[global] Arguments Loopback.contains : simpl never.
#[global] Arguments Loopback.push : simpl never.
#[global] Arguments ClipboardCache.insert : simpl never.
#[global] Arguments ClipboardCache.remove : simpl never.
#[global] Arguments ClipboardCache.lookup : simpl never.
#[global] Arguments FileCache.remove : simpl never.
#[global] Arguments file_selection_fingerprint : simpl never.
#[global] Arguments dispatch_files_decide : simpl never.
#[global] Arguments from_content : simpl never.
#[global] Arguments as_bytes : simpl never.

Definition new_clip {B} (b : option B) (dir : Folder) : Clip B :=
  mkClip (mkOutbound Loopback.new None None None None [])
    (mkInbound (Loopback.with_capacity_and_ttl Loopback.IMAGE_LOOPBACK_CAPACITY Loopback.DEFAULT_TTL)
       (Loopback.with_capacity_and_ttl Loopback.FILE_LOOPBACK_CAPACITY Loopback.DEFAULT_TTL) ∅)
    (Http3.mkCaches ClipboardCache.new FileCache.new) (mkStamps None None None None) (mkMetrics 0 0 0)
    (mkPoller b true [] [] []) (mkClipTasks (Files.mkTasks dir [] ∅ []) [] [] []) [] [].

(** * What the handlers do *)

Section handlers.
Context {B : Type} `{Backend B}.
Variable sha256 : list byte → sha.
Implicit Types (c : Clip B) (e : Env).
Local Abbreviation sha256_of := (sha256_of sha256).

Definition to_all e (event : ProtoEvent) : list (Recipient * ProtoEvent) := (λ r, (r, event)) <$> recipients e.
Definition text_event (text : string) : ProtoEvent :=
  ProtoEvent.ClipboardText (from_content (sha256_of text) (sha256_of text) (as_bytes text)).
Definition known e (fp : sha) (l : Loopback.LruFingerprints) : bool := fst (Loopback.contains (now e) fp l).
Definition pruned e (fp : sha) (l : Loopback.LruFingerprints) : Loopback.LruFingerprints :=
  snd (Loopback.contains (now e) fp l).

(** The clipboard cache once the previous text or image is gone, and once what
    is sent is in it. *)
Definition evicted (prev : option sha) (cs : Http3.Caches) : Http3.Caches :=
  match prev with
  | Some s => on_clipboard_cache (λ cache, snd (ClipboardCache.remove s cache)) cs
  | None => cs
  end.
Definition text_cached e (text : string) (cs : Http3.Caches) : Http3.Caches :=
  if decide (CLIPBOARD_TEXT_INLINE_LIMIT < length (as_bytes text))
  then on_clipboard_cache (λ cache, snd (ClipboardCache.insert (now e) (sha256_of text) (as_bytes text) cache)) cs
  else cs.

Lemma announce_text_eq e text c :
  announce_text sha256 e text c =
    (Ok tt,
     mkClip (set_last_text (Some text) (set_text_lru (Loopback.push (now e) (sha256_of text) (clipboard_lru (outbound c))) (outbound c)))
       (inbound c) (evicted (last_outbound_text_sha (outbound c)) (caches c)) (stamps c) (metrics c) (poller c) (tasks c)
       (sent c ++ to_all e (text_event text)) (notices c)).
Proof.
  unfold announce_text, mbind, ST_bind, mark_text, gets, evict_prev_outbound, broadcast_clipboard_event, modify_st.
  cbn [outbound on_outbound last_outbound_text_sha set_text_lru set_last_text].
  by destruct (last_outbound_text_sha (outbound c)).
Qed.
Lemma text_announced_eq e text c :
  text_announced sha256 e text c =
    (Ok tt,
     stamp (text_at (unix_now_ms e) None)
       (mkClip (set_text_sha (Some (sha256_of text)) (outbound c)) (inbound c) (text_cached e text (caches c)) (stamps c)
          (metrics c) (poller c) (tasks c) (sent c) (notices c))).
Proof.
  unfold text_announced, mbind, ST_bind, when, cache_insert, modify_st, text_cached.
  by case_decide; [rewrite bool_decide_true by done|rewrite bool_decide_false by done].
Qed.

(** The text is new: it is sent to every recipient. *)
Lemma dispatch_text_new e text c :
  clipboard_last_text (outbound c) ≠ Some text → known e (sha256_of text) (clipboard_lru (outbound c)) = false →
  let o := outbound c in
  ∃ c', dispatch_text sha256 e text c = (Ok tt, c') ∧
    outbound c' = mkOutbound (Loopback.push (now e) (sha256_of text) (pruned e (sha256_of text) (clipboard_lru o)))
      (Some text) (Some (sha256_of text)) (last_outbound_image_sha o) (last_outbound_files_fingerprint o) (last_outbound_files_sha o) ∧
    inbound c' = inbound c ∧ poller c' = poller c ∧ tasks c' = tasks c ∧
    caches c' = text_cached e text (evicted (last_outbound_text_sha o) (caches c)) ∧
    sent c' = sent c ++ to_all e (text_event text).
Proof.
  intros Hl Hk o. unfold dispatch_text, mbind, ST_bind. cbn [gets]. rewrite decide_False by done.
  unfold text_known. unfold known in Hk. unfold pruned.
  destruct (Loopback.contains _ _ _) as [hit l]. cbn [fst snd] in *. subst hit.
  rewrite announce_text_eq, text_announced_eq. by eexists.
Qed.
(** The text was seen less than a minute ago, or is the last one. *)
Lemma dispatch_text_known e text c :
  clipboard_last_text (outbound c) ≠ Some text → known e (sha256_of text) (clipboard_lru (outbound c)) = true →
  dispatch_text sha256 e text c =
    (Ok tt, on_outbound (λ o, set_last_text (Some text) (set_text_lru (pruned e (sha256_of text) (clipboard_lru o)) o)) c).
Proof.
  intros Hl Hk. unfold dispatch_text, mbind, ST_bind. cbn [gets]. rewrite decide_False by done.
  unfold text_known, on_outbound. unfold known in Hk. unfold pruned.
  destruct (Loopback.contains _ _ _) as [hit l]. cbn [fst snd] in *. by subst hit.
Qed.
Lemma dispatch_text_last e text c :
  clipboard_last_text (outbound c) = Some text → dispatch_text sha256 e text c = (Ok tt, c).
Proof. intros Hl. unfold dispatch_text, mbind, ST_bind. cbn [gets]. by rewrite decide_True. Qed.

Definition drop_text (p : Poller B) : Poller B :=
  mkPoller (backend p) (alive p) (tail (text_rx p)) (image_rx p) (files_rx p).
Lemma turn_text e c :
  turn sha256 e TText c =
    match text_rx (poller c) with
    | text :: _ => dispatch_text sha256 e text (on_poller drop_text c)
    | [] => (Ok tt, on_poller drop_text c)
    end.
Proof. cbn [turn]. unfold with_some, take_text, mbind, ST_bind. by destruct (text_rx (poller c)). Qed.

Lemma turns_cons e t l c :
  turns sha256 ((e, t) :: l) c = match turn sha256 e t c with (Ok _, c') => turns sha256 l c' | (Err x, c') => (Err x, c') | (Panic, c') => (Panic, c') | (Diverge, c') => (Diverge, c') end.
Proof. cbn [turns]. unfold mbind, ST_bind. by destruct (turn sha256 e t c) as [[] ?]. Qed.
End handlers.

(** A fingerprint that was just pushed is known while it is young. *)
Lemma known_holds e t fp n l :
  Loopback.holds t fp n l → (t ≤ now e < t + Loopback.ttl l)%Z → known e fp l = true.
Proof.
  intros (pre & post & Hi & _) Ht. unfold known, Loopback.contains. rewrite Hi.
  destruct (Loopback.drop_expired_keeps (now e) (Loopback.ttl l) t fp pre post) as [pre' ->].
  { unfold duration_since. lia. }
  cbn [fst]. apply existsb_exists. exists (t, fp). split; [apply in_or_app; right; by left|by apply bool_decide_eq_true].
Qed.
Lemma known_expired e fp l :
  Forall (λ it, fst it + Loopback.ttl l ≤ now e)%Z (Loopback.items l) → (0 < Loopback.ttl l)%Z → known e fp l = false.
Proof.
  intros Ha Ht. unfold known, Loopback.contains. cbn [fst].
  assert (Loopback.drop_expired (now e) (Loopback.ttl l) (Loopback.items l) = []) as ->; [|done].
  induction Ha as [|[ts f] its H _ IH]; [done|]. cbn [Loopback.drop_expired]. cbn in H.
  unfold duration_since. destruct (Z.leb_spec (Loopback.ttl l) (Z.max 0 (now e - ts))); [done|lia].
Qed.
Lemma holds_pushed t fp l : Loopback.holds t fp 0 (Loopback.push t fp l).
Proof. unfold Loopback.holds, Loopback.push. cbn. by eexists _, []. Qed.
Lemma ttl_push t fp l : Loopback.ttl (Loopback.push t fp l) = Loopback.ttl l.
Proof. done. Qed.
Lemma ttl_pruned e fp l : Loopback.ttl (pruned e fp l) = Loopback.ttl l.
Proof. done. Qed.
Lemma capacity_pruned e fp l : Loopback.capacity (pruned e fp l) = Loopback.capacity l.
Proof. done. Qed.
Lemma holds_pruned t fp n e f l :
  (t ≤ now e < t + Loopback.ttl l)%Z → Loopback.holds t fp n l → Loopback.holds t fp n (pruned e f l).
Proof. intros Ht. apply Loopback.holds_contains. unfold duration_since. lia. Qed.

Lemma known_after_expiry e1 e2 a b l :
  a ≠ b → Forall (λ it, fst it + Loopback.ttl l ≤ now e1)%Z (Loopback.items l) → (0 < Loopback.ttl l)%Z →
  known e2 a (Loopback.push (now e1) b (pruned e1 b l)) = false.
Proof.
  intros Hab Ha Ht. unfold pruned, Loopback.contains. cbn [snd].
  assert (Loopback.drop_expired (now e1) (Loopback.ttl l) (Loopback.items l) = []) as ->.
  { induction Ha as [|[ts f] its H' _ IH]; [done|]. cbn [Loopback.drop_expired]. cbn in H'.
    unfold duration_since. destruct (Z.leb_spec (Loopback.ttl l) (Z.max 0 (now e1 - ts))); [done|lia]. }
  unfold known, Loopback.contains, Loopback.push. cbn. destruct (decide _); cbn.
  all: destruct (_ <=? _)%Z; cbn; [done|]; by rewrite bool_decide_false.
Qed.

Section texts.
Context {B : Type} `{Backend B}.
Variable sha256 : list byte → sha.
Implicit Types (c : Clip B) (e : Env).
Local Abbreviation sha256_of := (sha256_of sha256).
Local Abbreviation turns := (turns sha256).

(** A text that is copied, replaced by another one and copied again within a
    minute stays behind: the third text is taken for an echo and not sent, so
    the peers keep the second one while the local clipboard has the first. *)
Theorem recopied_text_lost e1 e2 e3 a b c :
  text_rx (poller c) = [a; b; a] → clipboard_last_text (outbound c) ≠ Some a → sha256_of a ≠ sha256_of b →
  known e1 (sha256_of a) (clipboard_lru (outbound c)) = false →
  known e2 (sha256_of b) (Loopback.push (now e1) (sha256_of a) (pruned e1 (sha256_of a) (clipboard_lru (outbound c)))) = false →
  2 ≤ Loopback.capacity (clipboard_lru (outbound c)) →
  (now e1 ≤ now e2 ∧ now e2 ≤ now e3 ∧ now e3 < now e1 + Loopback.ttl (clipboard_lru (outbound c)))%Z →
  ∃ c', turns [(e1, TText); (e2, TText); (e3, TText)] c = (Ok tt, c') ∧
    sent c' = sent c ++ to_all e1 (text_event sha256 a) ++ to_all e2 (text_event sha256 b) ∧
    clipboard_last_text (outbound c') = Some a.
Proof.
  intros Hq Hl Hab Ka Kb Hcap (H12 & H23 & H3).
  assert (a ≠ b) as Hne by congruence.
  rewrite turns_cons, turn_text, Hq.
  destruct (dispatch_text_new sha256 e1 a (on_poller drop_text c)) as (c1 & E1 & O1 & _ & P1 & _ & _ & S1); [done..|].
  rewrite E1. assert (text_rx (poller c1) = [b; a]) as Q1 by (rewrite P1; cbn; by rewrite Hq).
  rewrite turns_cons, turn_text, Q1.
  destruct (dispatch_text_new sha256 e2 b (on_poller drop_text c1)) as (c2 & E2 & O2 & _ & P2 & _ & _ & S2).
  { cbn. rewrite O1. cbn. congruence. }
  { cbn. rewrite O1. cbn. done. }
  rewrite E2. assert (text_rx (poller c2) = [a]) as Q2 by (rewrite P2; cbn; by rewrite Q1).
  rewrite turns_cons, turn_text, Q2. cbn [on_poller outbound sent poller] in *.
  rewrite dispatch_text_known.
  - eexists. split; [reflexivity|]. cbn. split; [|done]. rewrite S2, S1. by rewrite <- app_assoc.
  - cbn. rewrite O2. cbn. congruence.
  - cbn. rewrite O2. cbn. rewrite O1. cbn.
    apply (known_holds e3 (now e1) (sha256_of a) 1); [|rewrite ttl_push, ttl_pruned, ttl_push, ttl_pruned; lia].
    apply Loopback.holds_push; [apply holds_pruned; [rewrite ttl_push, ttl_pruned; lia|apply holds_pushed]|].
    rewrite capacity_pruned. change (1 < Loopback.capacity (clipboard_lru (outbound c))). lia.
Qed.

(** What a text that is applied leaves behind. *)
Definition applied_text e (s : sha) (source : SocketAddr) (bk : B) c : Clip B :=
  stamp (text_at (unix_now_ms e) (Some source))
    (mkClip (set_last_text None (set_text_lru (Loopback.push (now e) s (pruned e s (clipboard_lru (outbound c)))) (outbound c)))
       (inbound c) (caches c) (stamps c) (incr_allow (metrics c))
       (mkPoller (Some bk) true (text_rx (poller c)) (image_rx (poller c)) (files_rx (poller c)))
       (tasks c) (sent c) (notices c)).

Lemma inbound_text_applied e fetch ct addr bytes c bk bk' :
  known e (ct_sha256 ct) (clipboard_lru (outbound c)) = false →
  (ct_content_inline ct = Some bytes ∨ (ct_content_inline ct = None ∧ fetch = Got 200 bytes)) →
  alive (poller c) = true → backend (poller c) = Some bk → set_text (from_utf8_lossy bytes) bk = (true, bk') →
  handle_clipboard_inbound_text e fetch ct addr c = (Ok tt, applied_text e (ct_sha256 ct) addr bk' c).
Proof.
  intros Hk Hc Ha Hb Hs. unfold handle_clipboard_inbound_text, mbind, ST_bind, text_known, applied_text, pruned.
  unfold known in Hk. destruct (Loopback.contains _ _ _) as [hit l]. cbn [fst snd] in *. subst hit.
  assert (∀ c1, poller c1 = poller c →
    apply_inbound_clipboard_text e (ct_sha256 ct) bytes addr c1 =
      (Ok tt, stamp (text_at (unix_now_ms e) (Some addr))
        (mkClip (set_last_text None (set_text_lru (Loopback.push (now e) (ct_sha256 ct) (clipboard_lru (outbound c1))) (outbound c1)))
          (inbound c1) (caches c1) (stamps c1) (incr_allow (metrics c1))
          (mkPoller (Some bk') true (text_rx (poller c)) (image_rx (poller c)) (files_rx (poller c)))
          (tasks c1) (sent c1) (notices c1)))) as Happ.
  { intros c1 Hp. unfold apply_inbound_clipboard_text, mbind, ST_bind, mark_text, command, modify_st.
    cbn [poller on_outbound]. rewrite Hp, Ha, Hb. cbn [serve_command]. rewrite Hs. cbn. unfold on_poller. cbn. by rewrite Hp, Ha. }
  destruct Hc as [-> |[-> ->]]; by rewrite Happ.
Qed.

(** A text that sits in the channel of the poller when another one arrives
    from a peer is sent although it is no longer there: applying the new text
    forgets what was sent last, and the window has forgotten the old text a
    minute after it was sent.  All peers get the old text, the sender of the new
    one included, while the local clipboard holds the new one. *)
Theorem stale_text_sent e1 e2 fetch a (b : string) ct addr c bk :
  text_rx (poller c) = [a] → clipboard_last_text (outbound c) = Some a →
  alive (poller c) = true → backend (poller c) = Some bk → fst (set_text b bk) = true →
  ct_sha256 ct = sha256_of b → ct_content_inline ct = Some (as_bytes b) → utf8_valid (as_bytes b) = true →
  sha256_of a ≠ sha256_of b →
  Forall (λ it, fst it + Loopback.ttl (clipboard_lru (outbound c)) ≤ now e1)%Z (Loopback.items (clipboard_lru (outbound c))) →
  (0 < Loopback.ttl (clipboard_lru (outbound c)))%Z →
  ∃ c', turns [(e1, TInbound fetch true true addr (ProtoEvent.ClipboardText ct)); (e2, TText)] c = (Ok tt, c') ∧
    sent c' = sent c ++ to_all e2 (text_event sha256 a) ∧
    backend (poller c') = Some (snd (set_text b bk)).
Proof.
  intros Hq Hl Ha Hb Hs Hsha Hi Hu Hab Hold Httl.
  assert (known e1 (sha256_of b) (clipboard_lru (outbound c)) = false) as Kb by (by apply known_expired).
  destruct (set_text b bk) as [ok bk'] eqn:Es. cbn in Hs. subst ok.
  rewrite turns_cons. cbn [turn handle_clipboard_inbound].
  rewrite (inbound_text_applied e1 fetch ct addr (as_bytes b) c bk bk');
    [|by rewrite Hsha|by left|done|done|by rewrite from_utf8_lossy_text].
  rewrite turns_cons, turn_text. cbn [text_rx poller stamp on_poller applied_text]. rewrite Hq.
  match goal with |- context [dispatch_text _ _ _ ?c1] => set (c1' := c1) end.
  destruct (dispatch_text_new sha256 e2 a c1') as (c2 & E2 & _ & _ & P2 & _ & _ & S2); [done|..].
  { subst c1'. cbn. rewrite Hsha. apply known_after_expiry; done. }
  rewrite E2. exists c2. split; [done|]. rewrite S2, P2. split; done.
Qed.

(** ** No echo *)

(** The text is all there is on the local clipboard and in the channels. *)
Definition only_text `{!TextLaws B} (text : string) c : Prop :=
  alive (poller c) = true ∧ (∃ b, backend (poller c) = Some b ∧ holds_text text b) ∧
  Forall (eq text) (text_rx (poller c)) ∧ image_rx (poller c) = [] ∧ files_rx (poller c) = [].
(** It is the last text that was looked at, or its mark is still in the window. *)
Definition guarded (text : string) (t0 : Z) (n : nat) (ttl : Z) c : Prop :=
  clipboard_last_text (outbound c) = Some text ∨
  (clipboard_last_text (outbound c) = None ∧ Loopback.holds t0 (sha256_of text) n (clipboard_lru (outbound c)) ∧
   Loopback.ttl (clipboard_lru (outbound c)) = ttl).
(** The turns of the poller and of its channels, and the push to a peer that was
    dialled and became active. *)
Definition poll_turn (t : Turn (B := B)) : Prop :=
  match t with TTick | TText | TImage | TFiles _ _ _ | TRecover => True | _ => False end.
(** What such a push sends: the text, to every recipient. *)
Definition pushes (text : string) (x : Env * Turn (B := B)) : list (Recipient * ProtoEvent) :=
  match x.2 with TRecover => to_all x.1 (text_event sha256 text) | _ => [] end.

(** The push looks at neither the window nor the last text. *)
Lemma recover_push `{!TextLaws B} text e c : only_text text c →
  ∃ c', turn sha256 e TRecover c = (Ok tt, c') ∧ only_text text c' ∧ clipboard_last_text (outbound c') = Some text ∧
    text_rx (poller c') = text_rx (poller c) ∧ sent c' = sent c ++ to_all e (text_event sha256 text).
Proof.
  intros (Ha & (b & Hb & Hh) & Hq & Hi & Hf). destruct (text_current text b Hh) as ((b' & Eb & Hh') & _).
  cbn [turn]. unfold handle_clipboard_recover_push, mbind, ST_bind, command. rewrite Ha. unfold serve_command. rewrite Hb, Eb.
  rewrite announce_text_eq, text_announced_eq. eexists. split; [done|]. split_and!; try done.
  split; [done|]. split; [by exists b'|]. by split_and!.
Qed.

Lemma only_text_tick `{!TextLaws B} text c : only_text text c →
  ∃ b, clipboard_poller c =
    on_poller (λ p, mkPoller (Some b) true (text_rx p ++ [text]) (image_rx p) (files_rx p)) c ∧ holds_text text b.
Proof.
  intros (Ha & (b & Hb & Hh) & Ht & Hi & Hf). unfold clipboard_poller. rewrite Ha, Hb.
  destruct (text_current text b Hh) as (_ & (b1 & E1 & H1) & _). rewrite E1.
  destruct (text_current text b1 H1) as ((b2 & E2 & H2) & _ & _). rewrite E2.
  destruct (text_current text b2 H2) as (_ & _ & b3 & E3 & H3). rewrite E3.
  exists b3. split; [|done]. unfold on_poller. cbn. by rewrite !app_nil_r.
Qed.

Lemma poll_turn_quiet `{!TextLaws B} text t0 n ttl e t c :
  only_text text c → guarded text t0 n ttl c → poll_turn t →
  (clipboard_last_text (outbound c) = Some text ∨ (t0 ≤ now e < t0 + ttl)%Z) →
  ∃ c', turn sha256 e t c = (Ok tt, c') ∧ only_text text c' ∧ guarded text t0 n ttl c' ∧ sent c' = sent c ++ pushes text (e, t) ∧
    (clipboard_last_text (outbound c) = Some text → clipboard_last_text (outbound c') = Some text) ∧
    (t = TTick → text_rx (poller c') ≠ []) ∧
    (t = TText → text_rx (poller c) ≠ [] → clipboard_last_text (outbound c') = Some text).
Proof.
  intros Ho Hg Ht Hw. pose proof Ho as (Ha & Hb & Hq & Hi & Hf). destruct t; try done; rewrite ?app_nil_r; cbn [pushes snd fst].
  - destruct (only_text_tick text c Ho) as (b & Ec & Hh).
    assert (turn sha256 e TTick c = (Ok tt, clipboard_poller c)) as -> by done. rewrite Ec.
    eexists. split; [done|]. split_and!; [|exact Hg|done|done| |done].
    + split; [done|]. split; [by exists b|]. split_and!; [|done|done]. apply Forall_app. by repeat constructor.
    + intros _. cbn. by destruct (text_rx (poller c)).
  - rewrite turn_text. destruct (text_rx (poller c)) as [|x rest] eqn:Eq.
    { eexists. split; [done|]. split_and!; [|exact Hg|done|done|done|done].
      split; [done|]. split; [done|]. split_and!; [cbn; by rewrite Eq|done|done]. }
    apply Forall_cons in Hq as [<- Hq].
    assert (only_text text (on_poller drop_text c)) as Ho'.
    { split; [done|]. split; [done|]. split_and!; [cbn; by rewrite Eq|done|done]. }
    destruct (decide (clipboard_last_text (outbound c) = Some text)) as [Hl|Hl].
    + rewrite dispatch_text_last by done. eexists. split; [done|]. by split_and!.
    + destruct Hg as [?|(Hn & Hh & Httl)]; [done|]. destruct Hw as [?|Hw]; [done|].
      rewrite dispatch_text_known; [|done|].
      * eexists. split; [done|]. split_and!; try done. by left.
      * eapply known_holds; [exact Hh|]. cbn. by rewrite Httl.
  - cbn [turn]. unfold with_some, take_image, mbind, ST_bind. rewrite Hi. cbn.
    eexists. split; [done|]. split_and!; try done. split; [done|]. split; [done|]. cbn. rewrite Hi. by split_and!.
  - cbn [turn]. unfold with_some, take_files, mbind, ST_bind. rewrite Hf. cbn.
    eexists. split; [done|]. split_and!; try done. split; [done|]. split; [done|]. cbn. rewrite Hf. by split_and!.
  - destruct (recover_push text e c Ho) as (c' & -> & Ho' & Hl' & Hrx & S). exists c'. split; [done|].
    split_and!; [done|by left|done|done|done|done].
Qed.

Lemma poll_turns_quiet `{!TextLaws B} text t0 n ttl l c :
  only_text text c → guarded text t0 n ttl c →
  Forall (λ x, poll_turn x.2 ∧ (clipboard_last_text (outbound c) = Some text ∨ (t0 ≤ now x.1 < t0 + ttl)%Z)) l →
  ∃ c', turns l c = (Ok tt, c') ∧ only_text text c' ∧ guarded text t0 n ttl c' ∧ sent c' = sent c ++ (l ≫= pushes text).
Proof.
  revert c. induction l as [|[e t] l IH]; intros c Ho Hg Hl; [exists c; by rewrite app_nil_r|].
  apply Forall_cons in Hl as [[Ht Hw] Hl]. rewrite turns_cons.
  destruct (poll_turn_quiet text t0 n ttl e t c Ho Hg Ht Hw) as (c1 & -> & Ho1 & Hg1 & S1 & Hl1 & _).
  destruct (IH c1 Ho1 Hg1) as (c2 & -> & Ho2 & Hg2 & S2); [|exists c2; split_and!; [done..|by rewrite S2, S1, <- app_assoc]].
  eapply Forall_impl; [exact Hl|]. intros [e' t'] [Ht' [Hx|Hx]]; split; auto.
Qed.
Lemma turns_app l1 l2 c c1 : turns l1 c = (Ok tt, c1) → turns (l1 ++ l2) c = turns l2 c1.
Proof.
  revert c. induction l1 as [|[e t] l1 IH]; intros c; cbn [app]; [by intros [= ->]|].
  rewrite !turns_cons. destruct (turn sha256 e t c) as [[[]| | |] c']; try done. apply IH.
Qed.

(** C27. A text from a peer that was put on the local clipboard is not sent back by
    the poller, neither to its sender nor to others, as long as nobody copies
    anything: whatever the poller reads and the loop handles in between, if the
    poller looks once and the loop handles it within the minute of the window,
    the poller has nothing sent then or ever after, and the clipboard holds the
    text.  What is sent is exactly what is pushed when a peer that was dialled
    becomes active, which is done without a look at the window: at each such push
    the text goes to all recipients, its sender among them ([recovered_echo]). *)
Theorem no_echo `{!TextLaws B} e0 fetch ct addr text c b b' l e1 e2 l' :
  alive (poller c) = true → backend (poller c) = Some b → takes_text text b → set_text text b = (true, b') →
  text_rx (poller c) = [] → image_rx (poller c) = [] → files_rx (poller c) = [] →
  utf8_valid (as_bytes text) = true → ct_sha256 ct = sha256_of text →
  (ct_content_inline ct = Some (as_bytes text) ∨ (ct_content_inline ct = None ∧ fetch = Got 200 (as_bytes text))) →
  known e0 (sha256_of text) (clipboard_lru (outbound c)) = false →
  Forall (λ x, poll_turn x.2) (l ++ l') →
  Forall (λ t, now e0 ≤ t < now e0 + Loopback.ttl (clipboard_lru (outbound c)))%Z (now e1 :: now e2 :: ((λ x, now x.1) <$> l)) →
  ∃ c', turns ((e0, TInbound fetch true true addr (ProtoEvent.ClipboardText ct)) :: l ++ (e1, TTick) :: (e2, TText) :: l') c = (Ok tt, c') ∧
    sent c' = sent c ++ ((l ++ l') ≫= pushes text) ∧ clipboard_last_text (outbound c') = Some text ∧
    ∃ b, backend (poller c') = Some b ∧ holds_text text b.
Proof.
  intros Ha Hb Htk Hs Ht Hi Hf Hu Hsha Hc Hk [Hl Hl']%Forall_app Hw.
  apply Forall_cons in Hw as [Hw1 [Hw2 Hw]%Forall_cons].
  rewrite turns_cons. cbn [turn handle_clipboard_inbound].
  rewrite (inbound_text_applied e0 fetch ct addr (as_bytes text) c b b');
    [|by rewrite Hsha|done|done|done|by rewrite from_utf8_lossy_text].
  set (c0 := applied_text _ _ _ _ c). set (ttl := Loopback.ttl (clipboard_lru (outbound c))) in *.
  assert (only_text text c0) as Ho.
  { split; [done|]. split; [exists b'; split; [done|by eapply set_text_holds]|]. cbn. rewrite Ht. by split_and!. }
  assert (guarded text (now e0) 0 ttl c0) as Hg.
  { right. split; [done|]. split; [|done]. cbn. rewrite Hsha. apply holds_pushed. }
  destruct (poll_turns_quiet text (now e0) 0 ttl l c0 Ho Hg) as (c1 & E1 & Ho1 & Hg1 & S1).
  { rewrite Forall_fmap in Hw. apply Forall_and. split; [done|]. eapply Forall_impl; [exact Hw|]. by right. }
  rewrite (turns_app _ _ _ _ E1), turns_cons.
  destruct (poll_turn_quiet text (now e0) 0 ttl e1 TTick c1 Ho1 Hg1 I) as (c2 & -> & Ho2 & Hg2 & S2 & _ & Hq2 & _); [by right|].
  rewrite turns_cons.
  destruct (poll_turn_quiet text (now e0) 0 ttl e2 TText c2 Ho2 Hg2 I) as (c3 & -> & Ho3 & Hg3 & S3 & _ & _ & Hl3); [by right|].
  specialize (Hl3 eq_refl (Hq2 eq_refl)).
  assert (∀ l c, only_text text c → clipboard_last_text (outbound c) = Some text → Forall (λ x, poll_turn x.2) l →
    ∃ c', turns l c = (Ok tt, c') ∧ only_text text c' ∧ clipboard_last_text (outbound c') = Some text ∧ sent c' = sent c ++ (l ≫= pushes text)) as Hrest.
  { clear. induction l as [|[e t] l IH]; intros c Ho Hlast Hl; [exists c; by rewrite app_nil_r|].
    apply Forall_cons in Hl as [Ht Hl]. rewrite turns_cons.
    destruct (poll_turn_quiet text 0 0 0 e t c Ho (or_introl Hlast) Ht (or_introl Hlast)) as (c1 & -> & Ho1 & _ & S1 & Hl1 & _).
    destruct (IH c1 Ho1 (Hl1 Hlast) Hl) as (c2 & -> & ? & ? & S2). exists c2. split_and!; [done..|by rewrite S2, S1, <- app_assoc]. }
  destruct (Hrest l' c3 Ho3 Hl3 Hl') as (c4 & -> & (_ & Hb4 & _) & Hlast & S4).
  exists c4. split; [done|]. split; [|by split]. rewrite S4, S3, S2, S1, bind_app. cbn. by rewrite !app_nil_r, <- app_assoc.
Qed.

(** A text that came from a peer is sent to all recipients, the peer among them
    when it is one, as soon as a dialled peer becomes active: the push does not
    ask whether the text was put there by the daemon itself. *)
Theorem recovered_echo `{!TextLaws B} e0 fetch ct addr text c b b' e1 r :
  alive (poller c) = true → backend (poller c) = Some b → takes_text text b → set_text text b = (true, b') →
  text_rx (poller c) = [] → image_rx (poller c) = [] → files_rx (poller c) = [] →
  utf8_valid (as_bytes text) = true → ct_sha256 ct = sha256_of text →
  (ct_content_inline ct = Some (as_bytes text) ∨ (ct_content_inline ct = None ∧ fetch = Got 200 (as_bytes text))) →
  known e0 (sha256_of text) (clipboard_lru (outbound c)) = false → r ∈ recipients e1 →
  ∃ c', turns [(e0, TInbound fetch true true addr (ProtoEvent.ClipboardText ct)); (e1, TRecover)] c = (Ok tt, c') ∧
    sent c' = sent c ++ to_all e1 (text_event sha256 text) ∧ (r, text_event sha256 text) ∈ sent c'.
Proof.
  intros Ha Hb Htk Hs Ht Hi Hf Hu Hsha Hc Hk Hr.
  rewrite turns_cons. cbn [turn handle_clipboard_inbound].
  rewrite (inbound_text_applied e0 fetch ct addr (as_bytes text) c b b');
    [|by rewrite Hsha|done|done|done|by rewrite from_utf8_lossy_text].
  match goal with |- context [turns _ ?x] => set (c0 := x) end.
  assert (only_text text c0) as Ho.
  { split; [done|]. split; [exists b'; split; [done|by eapply set_text_holds]|]. cbn. rewrite Ht. by split_and!. }
  rewrite turns_cons. destruct (recover_push text e1 c0 Ho) as (c' & -> & _ & _ & _ & S). exists c'. split; [done|].
  rewrite S. split; [done|]. apply elem_of_app. right. apply list_elem_of_fmap. by exists r.
Qed.

(** ** From one daemon to another *)

(** The fetch of a text from the caches of the sender at an instant, when no
    write on either side fails. *)
Definition fetched (order : gmap string Http3.Handler → list (string * Http3.Handler)) (t : Z) (cs : Http3.Caches) (s : sha)
    : Fetch :=
  match Http3.get_text true (λ _, None) (Http3.served (λ _, None) Transport.UnexpectedEof order t cs) (Http3.full_hex s) with
  | Ok (status, body) => Got status body
  | _ => FetchFailed
  end.
Definition found (t : Z) (s : sha) (cs : Http3.Caches) : option (list byte) :=
  fst (ClipboardCache.lookup t s (Http3.clipboard_cache cs)).

Lemma fetched_found order t cs s :
  (∀ m, order m ≡ₚ map_to_list m) → length s = 32 →
  ByteCache.inv (Http3.clipboard_cache cs) → (ByteCache.byte_budget (Http3.clipboard_cache cs) < 2 ^ 32)%Z →
  fetched order t cs s = match found t s cs with Some bytes => Got 200 bytes | None => Got 404 (Http3.body Http3.Response.not_found) end.
Proof.
  intros Ho Hs Hi Hb. unfold fetched. destruct (Http3.full_hex_props s) as (Hl & _ & _ & Ha).
  destruct (Http3.fits_hit t s (Http3.clipboard_cache cs) Hi Hb) as [H1 H2].
  assert (Http3.answer_to t cs (Http3.text_path (Http3.full_hex s)) = Http3.hit_or_404 (found t s cs)) as Ea
    by (unfold Http3.answer_to; by rewrite (Http3.text_answer s t cs Hs)).
  destruct (Http3.fetch (λ _, None) (λ _, None) Transport.UnexpectedEof order t cs Ho (Http3.text_path (Http3.full_hex s)))
    as [_ Hg]; rewrite ?Ea.
  - by apply Http3.ascii_path.
  - unfold Http3.text_path. rewrite length_app_str, Hl, Hs. done.
  - done.
  - done.
  - unfold Http3.get_text. rewrite Hg, Ea by done. by destruct (found t s cs).
Qed.

Lemma inv_evicted prev cs : ByteCache.inv (Http3.clipboard_cache cs) → ByteCache.inv (Http3.clipboard_cache (evicted prev cs)).
Proof. destruct prev; [|done]. apply ByteCache.inv_remove. Qed.
Lemma budget_evicted prev cs :
  ByteCache.byte_budget (Http3.clipboard_cache (evicted prev cs)) = ByteCache.byte_budget (Http3.clipboard_cache cs) ∧
  ByteCache.ttl (Http3.clipboard_cache (evicted prev cs)) = ByteCache.ttl (Http3.clipboard_cache cs) ∧
  ByteCache.lru (Http3.clipboard_cache (evicted prev cs)) = ByteCache.lru (Http3.clipboard_cache cs).
Proof.
  destruct prev; [|done]. cbn. unfold ClipboardCache.remove, ByteCache.remove. by case_match.
Qed.
Lemma budget_insert now s bytes cache :
  ByteCache.byte_budget (snd (ClipboardCache.insert now s bytes cache)) = ByteCache.byte_budget cache.
Proof.
  unfold ClipboardCache.insert, ByteCache.insert. case_match; [done|].
  destruct (ByteCache.entries cache !! s); by destruct (ByteCache.evict _ _ _ _) as [[? ?] ?].
Qed.

(** C29. A text that is copied on one machine arrives on the clipboard of each
    other one that it is sent to, as it was copied: small texts travel with the
    announcement, a larger one is in the sender's cache, and a fetch within its
    time to live gets it over the wire.  The fetch is one that comes after the
    text was put into the cache (for an earlier one see
    [announced_before_cached]), and the window of the receiver does not hold the
    hash of the text. *)
Theorem text_delivered e1 e2 t order text c d bk bk' addr :
  let s := sha256_of text in
  let cache := Http3.clipboard_cache (caches c) in
  (∀ m, order m ≡ₚ map_to_list m) → length s = 32 → utf8_valid (as_bytes text) = true →
  clipboard_last_text (outbound c) ≠ Some text → known e1 s (clipboard_lru (outbound c)) = false →
  ByteCache.inv cache → (ByteCache.byte_budget cache < 2 ^ 32)%Z → s ∉ ByteCache.lru cache →
  (Z.of_nat (length (as_bytes text)) ≤ ByteCache.byte_budget cache)%Z →
  (duration_since t (now e1) < ByteCache.ttl cache)%Z →
  alive (poller d) = true → backend (poller d) = Some bk → set_text text bk = (true, bk') →
  known e2 s (clipboard_lru (outbound d)) = false →
  ∃ c', dispatch_text sha256 e1 text c = (Ok tt, c') ∧
    sent c' = sent c ++ ((λ r, (r, text_event sha256 text)) <$> recipients e1) ∧
    ∃ d', handle_clipboard_inbound e2 (fetched order t (caches c') s) true true addr (text_event sha256 text) d = (Ok tt, d') ∧
      backend (poller d') = Some bk' ∧ last_clipboard_source (stamps d') = Some addr.
Proof.
  intros s cache Ho Hs Hu Hl Hk Hi Hb Hlru Hfit Ht Ha Hbk Hset Hkd.
  destruct (dispatch_text_new sha256 e1 text c Hl Hk) as (c' & -> & _ & _ & _ & _ & Hc & Hsent).
  exists c'. split; [done|]. split; [done|]. cbn [handle_clipboard_inbound text_event].
  rewrite (inbound_text_applied e2 _ _ addr (as_bytes text) d bk bk'); [|done| |done|done|by rewrite from_utf8_lossy_text].
  { eexists. by split_and!. }
  unfold from_content. cbn [ct_content_inline]. case_decide as Hlen; [by left|]. right. split; [done|].
  set (prev := last_outbound_text_sha (outbound c)) in *.
  destruct (budget_evicted prev (caches c)) as (Eb & Et & El).
  rewrite Hc. unfold text_cached. rewrite decide_True by lia. rewrite fetched_found; [|done|done| |].
  - unfold found. cbn [on_clipboard_cache Http3.clipboard_cache].
    destruct (insert_then_lookup (now e1) t s (as_bytes text) (Http3.clipboard_cache (evicted prev (caches c)))) as [_ E];
      [by apply inv_evicted|by rewrite El|by rewrite Eb|by rewrite Et|].
    fold s. rewrite E. done.
  - by apply ByteCache.inv_insert, inv_evicted.
  - cbn [on_clipboard_cache Http3.clipboard_cache]. rewrite budget_insert, Eb. exact Hb.
Qed.

Lemma lookup_removed t s p cache :
  p = s ∨ fst (ClipboardCache.lookup t s cache) = None →
  fst (ClipboardCache.lookup t s (snd (ClipboardCache.remove p cache))) = None.
Proof.
  unfold ClipboardCache.lookup, ClipboardCache.remove, ByteCache.lookup, ByteCache.remove. intros Hn.
  destruct (ByteCache.entries cache !! p) as [en|] eqn:Ep; cbn [snd ByteCache.entries].
  - destruct (decide (p = s)) as [->|Hne]; [by rewrite lookup_delete_eq|]. rewrite lookup_delete_ne by done.
    destruct Hn as [|Hn]; [done|]. cbn [ByteCache.ttl]. destruct (ByteCache.entries cache !! s); [|done]. by case_match.
  - destruct Hn as [->|Hn]; [by rewrite Ep|exact Hn].
Qed.

(** A large text is announced to all peers before it is put into the cache:
    a peer that fetches in between gets [404], gives up and keeps its old
    clipboard; nothing fetches again. *)
Theorem announced_before_cached e1 e2 t order text c d addr :
  let s := sha256_of text in
  (∀ m, order m ≡ₚ map_to_list m) → length s = 32 → CLIPBOARD_TEXT_INLINE_LIMIT < length (as_bytes text) →
  ByteCache.inv (Http3.clipboard_cache (caches c)) → (ByteCache.byte_budget (Http3.clipboard_cache (caches c)) < 2 ^ 32)%Z →
  (∀ t, found t s (caches c) = None) ∨ last_outbound_text_sha (outbound c) = Some s →
  ∃ c', announce_text sha256 e1 text c = (Ok tt, c') ∧
    sent c' = sent c ++ ((λ r, (r, text_event sha256 text)) <$> recipients e1) ∧
    ∃ d', handle_clipboard_inbound e2 (fetched order t (caches c') s) true true addr (text_event sha256 text) d = (Ok tt, d') ∧
      poller d' = poller d ∧ stamps d' = stamps d ∧ tasks d' = tasks d.
Proof.
  intros s Ho Hs Hlen Hi Hb Hnone. rewrite announce_text_eq. eexists. split; [done|]. split; [done|].
  cbn [caches handle_clipboard_inbound text_event]. set (prev := last_outbound_text_sha (outbound c)) in *.
  destruct (budget_evicted prev (caches c)) as (Eb & _ & _).
  rewrite fetched_found; [|done|done|by apply inv_evicted|by rewrite Eb].
  assert (found t s (evicted prev (caches c)) = None) as ->.
  { destruct prev as [p|] eqn:Ep; cbn [evicted]; [|destruct Hnone as [Hn|]; [apply Hn|done]].
    apply lookup_removed. destruct Hnone as [Hn|[= ->]]; [right; apply Hn|by left]. }
  unfold handle_clipboard_inbound_text, mbind, ST_bind, text_known, from_content. cbn [ct_sha256 ct_content_inline].
  destruct (Loopback.contains _ _ _) as [[] l]; [by eexists|]. rewrite decide_False by lia. by eexists.
Qed.
End texts.

(** ** Images *)

Section images.
Context {B : Type} `{Backend B}.
Variable sha256 : list byte → sha.
Implicit Types (c : Clip B) (e : Env).
Local Abbreviation turns := (turns sha256).

Definition image_event (image : ImageBytes) : ProtoEvent :=
  ProtoEvent.ClipboardImage (mkClipboardImage (sha256 (img_data image)) (img_mime image) (sha256 (img_data image))
    (Z.of_nat (length (img_data image)))).

Lemma dispatch_image_known e image c :
  known e (sha256 (img_data image)) (image_lru_fingerprints (inbound c)) = true →
  ∃ c', dispatch_image sha256 e image c = (Ok tt, c') ∧ sent c' = sent c ∧ outbound c' = outbound c ∧ poller c' = poller c.
Proof.
  intros Hk. unfold dispatch_image, mbind, ST_bind, image_known. unfold known in Hk.
  destruct (Loopback.contains _ _ _) as [hit l]. cbn [fst] in Hk. subst hit. by eexists.
Qed.
(** A new image is cached and sent to every recipient. *)
Lemma dispatch_image_new e image c :
  known e (sha256 (img_data image)) (image_lru_fingerprints (inbound c)) = false →
  last_outbound_image_sha (outbound c) ≠ Some (sha256 (img_data image)) →
  ∃ c', dispatch_image sha256 e image c = (Ok tt, c') ∧ sent c' = sent c ++ to_all e (image_event image) ∧
    outbound c' = set_image_sha (Some (sha256 (img_data image))) (outbound c) ∧ poller c' = poller c ∧
    caches c' = on_clipboard_cache (λ cache, snd (ClipboardCache.insert (now e) (sha256 (img_data image)) (img_data image) cache))
                  (evicted (last_outbound_image_sha (outbound c)) (caches c)).
Proof.
  intros Hk Hl. unfold dispatch_image, mbind, ST_bind, image_known. unfold known in Hk.
  destruct (Loopback.contains _ _ _) as [hit l]. cbn [fst] in Hk. subst hit. unfold gets. cbn [outbound on_inbound].
  rewrite decide_False by done. unfold evict_prev_outbound, cache_insert, broadcast_clipboard_event, modify_st.
  destruct (last_outbound_image_sha (outbound c)); by eexists.
Qed.
Lemma dispatch_image_last e image c :
  last_outbound_image_sha (outbound c) = Some (sha256 (img_data image)) →
  ∃ c', dispatch_image sha256 e image c = (Ok tt, c') ∧ sent c' = sent c ∧ outbound c' = outbound c ∧ poller c' = poller c.
Proof.
  intros Hl. unfold dispatch_image, mbind, ST_bind, image_known.
  destruct (Loopback.contains _ _ _) as [[] l]; [by eexists|]. unfold gets. cbn [outbound on_inbound].
  rewrite decide_True by done. by eexists.
Qed.

Definition drop_image (p : Poller B) : Poller B :=
  mkPoller (backend p) (alive p) (text_rx p) (tail (image_rx p)) (files_rx p).
Lemma turn_image e c :
  turn sha256 e TImage c =
    match image_rx (poller c) with
    | image :: _ => dispatch_image sha256 e image (on_poller drop_image c)
    | [] => (Ok tt, on_poller drop_image c)
    end.
Proof. cbn [turn]. unfold with_some, take_image, mbind, ST_bind. by destruct (image_rx (poller c)). Qed.

(** The window after an image was applied: the announced hash and the one that
    was read back, if any. *)
Definition marked e (r : InboundImageApplyResult) (l : Loopback.LruFingerprints) : Loopback.LruFingerprints :=
  let l := Loopback.push (now e) (ia_sha r) l in
  match post_write_sha r with Some s => Loopback.push (now e) s l | None => l end.
Lemma turn_image_applied e r rest c :
  applied_rx (tasks c) = r :: rest → ia_success r = true →
  ∃ c', turn sha256 e TImageApplied c = (Ok tt, c') ∧ sent c' = sent c ∧ outbound c' = outbound c ∧ poller c' = poller c ∧
    image_lru_fingerprints (inbound c') = marked e r (image_lru_fingerprints (inbound c)).
Proof.
  intros Hr Hs. cbn [turn]. unfold with_some, take_applied, mbind, ST_bind. rewrite Hr. cbn [head].
  unfold handle_inbound_image_applied, marked. rewrite Hs. cbn [negb]. destruct (post_write_sha r); by eexists.
Qed.

Lemma drop_expired_sub t ttl its : ∃ pre, its = pre ++ Loopback.drop_expired t ttl its.
Proof.
  induction its as [|[ts f] its [pre IH]]; [by exists []|]. cbn. case_match; [|by exists []].
  exists ((ts, f) :: pre). cbn. by rewrite <- IH.
Qed.
Lemma items_push t fp l P :
  P (t, fp) → Forall P (Loopback.items l) → Forall P (Loopback.items (Loopback.push t fp l)).
Proof.
  intros Hp Hl. unfold Loopback.push. cbn. apply Forall_app. split; [|by repeat constructor].
  case_decide; [by apply Forall_drop|done].
Qed.

(** An image from a peer is sent back after a minute.  While its mark is in
    the window the poller's reads of it are ignored; but an image is not
    remembered as the last one the way a text is, so the first read after the
    window announces it to all peers, its sender included, though nobody copied
    anything. *)
Theorem image_echo e0 e1 e2 r rest s image c bk bk' :
  applied_rx (tasks c) = r :: rest → ia_success r = true → post_write_sha r = Some s →
  alive (poller c) = true → backend (poller c) = Some bk → current_image bk = (Some image, bk') →
  image_rx (poller c) = [] → s = sha256 (img_data image) → last_outbound_image_sha (outbound c) ≠ Some s →
  Forall (λ it, fst it ≤ now e0)%Z (Loopback.items (image_lru_fingerprints (inbound c))) →
  let ttl := Loopback.ttl (image_lru_fingerprints (inbound c)) in
  (0 < ttl)%Z →
  ∃ c', turns [(e0, TImageApplied); (e1, TTick); (e2, TImage)] c = (Ok tt, c') ∧
    ((now e0 ≤ now e2 < now e0 + ttl)%Z → sent c' = sent c) ∧
    ((now e0 + ttl ≤ now e2)%Z → sent c' = sent c ++ ((λ p, (p, image_event image)) <$> recipients e2)).
Proof.
  intros Hr Hs Hp Ha Hb Hi Hq -> Hl Hold ttl Httl. rewrite turns_cons.
  destruct (turn_image_applied e0 r rest c Hr Hs) as (c1 & -> & S1 & O1 & P1 & L1). rewrite turns_cons.
  assert (turn sha256 e1 TTick c1 = (Ok tt, clipboard_poller c1)) as -> by done.
  unfold clipboard_poller. rewrite P1, Ha, Hb, Hi. destruct (current_files bk') as [paths bk2].
  rewrite turns_cons, turn_image. cbn [poller on_poller image_rx]. rewrite P1, Hq. change ([] ++ option_list (Some image)) with [image]. cbv iota beta.
  match goal with |- context [dispatch_image _ _ _ ?x] => set (c2 := x) end.
  assert (image_lru_fingerprints (inbound c2) = marked e0 r (image_lru_fingerprints (inbound c))) as L2 by done.
  unfold marked in L2. rewrite Hp in L2. destruct (Z.ltb_spec (now e2) (now e0 + ttl)) as [Hlt|Hge].
  - destruct (decide (now e0 ≤ now e2)%Z) as [Hle|].
    + destruct (dispatch_image_known e2 image c2) as (c3 & -> & S3 & _).
      { rewrite L2. eapply known_holds; [apply holds_pushed|]. rewrite !ttl_push. fold ttl. lia. }
      exists c3. split; [done|]. split; [intros _; by rewrite S3, <- S1|lia].
    + destruct (dispatch_image sha256 e2 image c2) as [res c3] eqn:E.
      assert (res = Ok tt) as ->; [|exists c3; split; [done|split; intros; lia]].
      destruct (known e2 (sha256 (img_data image)) (image_lru_fingerprints (inbound c2))) eqn:Ek.
      * destruct (dispatch_image_known e2 image c2 Ek) as (? & E' & _). congruence.
      * destruct (dispatch_image_new e2 image c2 Ek) as (? & E' & _); [|congruence]. by rewrite <- O1 in Hl.
  - destruct (dispatch_image_new e2 image c2) as (c3 & -> & S3 & _).
    + rewrite L2. apply known_expired; [|done]. rewrite !ttl_push. fold ttl.
      apply items_push; [cbn; lia|]. apply items_push; [cbn; lia|].
      eapply Forall_impl; [exact Hold|]. cbn. lia.
    + by rewrite <- O1 in Hl.
    + exists c3. split; [done|]. split; [lia|]. intros _. rewrite S3. cbn. by rewrite S1.
Qed.
End images.

(** ** Received files *)

Section received.
Context {B : Type} `{Backend B}.
Variable sha256 : list byte → sha.
Implicit Types (c : Clip B) (e : Env).
Local Abbreviation turns := (turns sha256).

(** A result as it comes to the main loop. *)
Record Arrival : Type := mkArrival { at_env : Env; of_sha : sha; of_source : SocketAddr; result : ApplyResult }.
Definition arrive (fp : sha) (x : Arrival) : ST (Clip B) Empty_set unit :=
  handle_inbound_files_applied sha256 (at_env x) (of_sha x) fp (of_source x) (result x).
Definition collector_of (fp : sha) c : option FileSetCollector := pending_file_collectors (inbound c) !! fp.

(** The first part of the handler touches neither the clipboard nor the
    collectors. *)
Lemma arrive_eq fp x col c :
  collector_of fp c = Some col →
  let col' := mkCollector (expected col) (received col ++ [result x]) in
  ∃ c1, poller c1 = poller c ∧ outbound c1 = outbound c ∧ sent c1 = sent c ∧ caches c1 = caches c ∧
    pending_file_collectors (inbound c1) = pending_file_collectors (inbound c) ∧
    arrive fp x c =
      if decide (length (received col') = expected col) then
        maybe_inject_files_to_clipboard sha256 (at_env x) fp col'
          (on_inbound (λ i, set_collectors (delete fp (pending_file_collectors i)) i) c1)
      else (Ok tt, on_inbound (λ i, set_collectors (<[fp := col']> (pending_file_collectors i)) i) c1).
Proof.
  intros Hc col'. unfold arrive, handle_inbound_files_applied, collector_of in *.
  set (m := if success (result x) then _ else _).
  assert (∃ c1, m c = (Ok tt, c1) ∧ poller c1 = poller c ∧ outbound c1 = outbound c ∧ sent c1 = sent c ∧
    caches c1 = caches c ∧ pending_file_collectors (inbound c1) = pending_file_collectors (inbound c)) as
    (c1 & Em & Hp & Ho & Hs & Hca & Hco).
  { subst m. destruct (success (result x)); [by eexists|]. destruct (stream_failure (result x)); by eexists. }
  exists c1. split_and!; [done..|]. unfold mbind, ST_bind. rewrite Em. unfold gets. rewrite Hco, Hc.
  subst col'. cbn [received expected]. by case_decide.
Qed.

Lemma arrivals_pending fp l col c :
  collector_of fp c = Some col → length (received col) + length l < expected col →
  ∃ c1, for_each (arrive fp) l c = (Ok tt, c1) ∧ poller c1 = poller c ∧ outbound c1 = outbound c ∧ sent c1 = sent c ∧
    caches c1 = caches c ∧ collector_of fp c1 = Some (mkCollector (expected col) (received col ++ (result <$> l))).
Proof.
  revert col c. induction l as [|x l IH]; intros col c Hc Hlen; cbn [for_each].
  { exists c. split_and!; [done..|]. rewrite Hc. destruct col. cbn. by rewrite app_nil_r. }
  destruct (arrive_eq fp x col c Hc) as (c1 & P1 & O1 & S1 & C1 & K1 & E1).
  unfold mbind, ST_bind. rewrite E1, decide_False by (cbn [received]; rewrite length_app; cbn in *; lia).
  set (c2 := on_inbound _ c1).
  destruct (IH (mkCollector (expected col) (received col ++ [result x])) c2) as (c3 & -> & P3 & O3 & S3 & C3 & K3).
  - unfold collector_of, c2. cbn. apply lookup_insert_eq.
  - cbn [received expected]. rewrite length_app. cbn in *. lia.
  - exists c3. split; [done|]. rewrite P3, O3, S3, C3. split_and!; [done..|]. rewrite K3. cbn. by rewrite <- app_assoc.
Qed.

(** What the re-injection does to the state it finds. *)
Definition may_inject e (last : option sha) (fp : sha) (rs : list ApplyResult) : Prop :=
  Config.enabled (settings e) = true ∧ Config.inject_to_clipboard (settings e) = true ∧ last ≠ Some fp ∧
  Forall (λ r, success r = true) rs ∧ omap landed_path rs ≠ [].
Lemma decide_reinject e last fp rs :
  omap landed_path rs ≠ [] →
  decide_reinject_skip (Config.enabled (settings e)) (Config.inject_to_clipboard (settings e)) last fp rs = None ↔
    may_inject e last fp rs.
Proof.
  intros Hne. unfold decide_reinject_skip, may_inject. destruct (Config.enabled _), (Config.inject_to_clipboard _); cbn [negb]; try naive_solver.
  case_decide; [naive_solver|]. destruct (existsb _ rs) eqn:Ex.
  - apply existsb_exists in Ex as (r & Hr & Hs). apply list_elem_of_In in Hr. split; [done|]. intros (_ & _ & _ & Hall & _).
    rewrite Forall_forall in Hall. by rewrite (Hall r Hr) in Hs.
  - split; [intros _|done]. split_and!; try done. apply Forall_forall. intros r Hr. destruct (success r) eqn:Es; [done|].
    rewrite <- not_true_iff_false in Ex. destruct Ex. apply existsb_exists. exists r. by rewrite Es, <- list_elem_of_In.
Qed.
Lemma inject_eq e fp col c b :
  alive (poller c) = true → backend (poller c) = Some b → omap landed_path (received col) ≠ [] →
  let paths := omap landed_path (received col) in
  maybe_inject_files_to_clipboard sha256 e fp col c =
    if decide (decide_reinject_skip (Config.enabled (settings e)) (Config.inject_to_clipboard (settings e))
                 (last_outbound_files_fingerprint (outbound c)) fp (received col) = None)
    then (Ok tt, on_poller (λ p, mkPoller (Some (snd (set_files paths b))) true (text_rx p) (image_rx p) (files_rx p))
                   (on_outbound (set_files_fingerprint (Some (file_selection_fingerprint sha256 paths))) c))
    else (Ok tt, c).
Proof.
  intros Ha Hb Hne paths. unfold maybe_inject_files_to_clipboard, mbind, ST_bind. unfold gets.
  destruct (decide_reinject_skip _ _ _ _ _); [by rewrite decide_False|]. rewrite decide_True by done.
  subst paths. destruct (omap landed_path (received col)) as [|p ps] eqn:Eo; [done|].
  unfold modify_st, command. cbn [poller on_outbound]. rewrite Ha, Hb. cbn [serve_command].
  destruct (set_files (p :: ps) b). unfold on_poller. cbn. by rewrite Ha.
Qed.

(** The files of one announcement are put on the local clipboard together,
    when the last result has come: until then nothing is, and then exactly if
    the clipboard and the injection are switched on, all files arrived, and the
    selection is not the one this daemon announced last.  The clipboard gets the
    names under which they were written, in the order of arrival, and their
    fingerprint is remembered as sent. *)
Theorem batch_injected fp l x n c b :
  collector_of fp c = Some (mkCollector n []) → S (length l) = n →
  alive (poller c) = true → backend (poller c) = Some b →
  let rs := (result <$> l) ++ [result x] in
  let paths := omap landed_path rs in
  paths ≠ [] →
  (∃ c1, for_each (arrive fp) l c = (Ok tt, c1) ∧ poller c1 = poller c) ∧
  ∃ c2, for_each (arrive fp) (l ++ [x]) c = (Ok tt, c2) ∧ collector_of fp c2 = None ∧ sent c2 = sent c ∧
    (may_inject (at_env x) (last_outbound_files_fingerprint (outbound c)) fp rs →
       backend (poller c2) = Some (snd (set_files paths b)) ∧
       last_outbound_files_fingerprint (outbound c2) = Some (file_selection_fingerprint sha256 paths)) ∧
    (¬ may_inject (at_env x) (last_outbound_files_fingerprint (outbound c)) fp rs →
       poller c2 = poller c ∧ outbound c2 = outbound c).
Proof.
  intros Hc Hn Ha Hb rs paths Hne.
  destruct (arrivals_pending fp l _ c Hc) as (c1 & E1 & P1 & O1 & S1 & _ & K1); [cbn; lia|].
  split; [by exists c1|].
  assert (∀ l1 l2 c c', for_each (arrive fp) l1 c = (Ok tt, c') →
    for_each (arrive fp) (l1 ++ l2) c = for_each (arrive fp) l2 c') as Happ.
  { clear. induction l1 as [|y l1 IH]; intros l2 c c'; cbn [app for_each]; [by intros [= ->]|].
    unfold mbind, ST_bind. destruct (arrive fp y c) as [[[]| | |] c0]; try done. apply IH. }
  rewrite (Happ l [x] c c1 E1). cbn [for_each]. clear Happ.
  destruct (arrive_eq fp x _ c1 K1) as (c3 & P3 & O3 & S3 & _ & K3 & E3). cbn [received expected app] in E3. fold rs in E3.
  assert (length rs = n) as Hlen by (unfold rs; rewrite length_app, length_fmap; cbn; lia).
  destruct (decide (length rs = n)) as [_|]; [|done]. unfold mbind, ST_bind. rewrite E3.
  rewrite (inject_eq _ _ _ _ b); cbn [poller outbound on_inbound received]; [|by rewrite P3, P1|by rewrite P3, P1|done].
  rewrite O3, O1. fold paths. case_decide as Hd.
  - apply decide_reinject in Hd; [|done]. eexists. split; [done|]. split_and!.
    + unfold collector_of. cbn. apply lookup_delete_eq.
    + cbn. by rewrite S3.
    + by intros _.
    + by intros [].
  - rewrite decide_reinject in Hd by done. eexists. split; [done|]. split_and!.
    + unfold collector_of. cbn. apply lookup_delete_eq.
    + cbn. by rewrite S3.
    + by intros ?%Hd.
    + intros _. cbn. by rewrite P3, P1, O3, O1.
Qed.

(** ** No echo of files *)

Definition only_files `{!FileLaws B} (paths : list string) c : Prop :=
  alive (poller c) = true ∧ (∃ b, backend (poller c) = Some b ∧ holds_files paths b) ∧
  text_rx (poller c) = [] ∧ image_rx (poller c) = [] ∧ Forall (λ l, l ≡ₚ paths) (files_rx (poller c)) ∧
  last_outbound_files_fingerprint (outbound c) = Some (file_selection_fingerprint sha256 paths).

Lemma dispatch_files_last e metadata read read_again paths c :
  last_outbound_files_fingerprint (outbound c) = Some (file_selection_fingerprint sha256 paths) →
  dispatch_files sha256 e metadata read read_again paths c = (Ok tt, c).
Proof.
  intros Hl. unfold dispatch_files, mbind, ST_bind, gets. rewrite Hl. unfold dispatch_files_decide.
  destruct paths as [|p ps]; [done|]. by rewrite decide_True.
Qed.

Lemma files_turn_quiet `{!FileLaws B} paths e t c :
  only_files paths c → poll_turn t →
  ∃ c', turn sha256 e t c = (Ok tt, c') ∧ only_files paths c' ∧ sent c' = sent c.
Proof.
  intros (Ha & (b & Hb & Hh) & Ht & Hi & Hf & Hl) Hp. destruct t; try done.
  - assert (turn sha256 e TTick c = (Ok tt, clipboard_poller c)) as -> by done.
    unfold clipboard_poller. rewrite Ha, Hb.
    destruct (files_current paths b Hh) as (_ & (b1 & E1 & H1) & _). rewrite E1.
    destruct (files_current paths b1 H1) as ((b2 & E2 & H2) & _ & _). rewrite E2.
    destruct (files_current paths b2 H2) as (_ & _ & b3 & l' & E3 & Hperm & H3). rewrite E3.
    eexists. split; [done|]. split; [|done]. split; [done|]. split; [by exists b3|]. cbn. rewrite Ht, Hi.
    split_and!; [done|done| |done]. apply Forall_app. by repeat constructor.
  - rewrite turn_text, Ht. eexists. split; [done|]. split; [|done].
    split; [done|]. split; [by exists b|]. cbn. rewrite Ht. by split_and!.
  - rewrite turn_image, Hi. eexists. split; [done|]. split; [|done].
    split; [done|]. split; [by exists b|]. cbn. rewrite Hi. by split_and!.
  - cbn [turn]. unfold with_some, take_files, mbind, ST_bind.
    destruct (files_rx (poller c)) as [|l rest] eqn:Eq; cbn [head].
    + eexists. split; [done|]. split; [|done]. split; [done|]. split; [by exists b|]. cbn. rewrite Eq. by split_and!.
    + apply Forall_cons in Hf as [Hperm Hf].
      rewrite dispatch_files_last by (cbn; by rewrite Hl, (fingerprint_perm sha256 l paths Hperm)).
      eexists. split; [done|]. split; [|done]. split; [done|]. split; [by exists b|]. cbn. rewrite Eq. by split_and!.
  - cbn [turn]. unfold handle_clipboard_recover_push, mbind, ST_bind, command. rewrite Ha. unfold serve_command. rewrite Hb.
    destruct (files_current paths b Hh) as ((b1 & E1 & H1) & _). rewrite E1.
    eexists. split; [done|]. split; [|done]. split; [done|]. split; [by exists b1|]. by split_and!.
Qed.

(** Files that came from a peer and were put on the local clipboard are not
    announced again, however often and in whatever order the poller reads them:
    their fingerprint was remembered before. *)
Theorem files_no_echo `{!FileLaws B} e fp col c b b' l :
  let paths := omap landed_path (received col) in
  alive (poller c) = true → backend (poller c) = Some b →
  text_rx (poller c) = [] → image_rx (poller c) = [] → files_rx (poller c) = [] →
  may_inject e (last_outbound_files_fingerprint (outbound c)) fp (received col) →
  takes_files paths b → set_files paths b = (true, b') → Forall (λ x, poll_turn x.2) l →
  ∃ c1 c2, maybe_inject_files_to_clipboard sha256 e fp col c = (Ok tt, c1) ∧ turns l c1 = (Ok tt, c2) ∧
    sent c2 = sent c ∧ ∃ b, backend (poller c2) = Some b ∧ holds_files paths b.
Proof.
  intros paths Ha Hb Ht Hi Hf Hm Htk Hs Hl. pose proof Hm as (_ & _ & _ & _ & Hne).
  rewrite (inject_eq e fp col c b Ha Hb Hne), decide_True by (by apply decide_reinject). fold paths. rewrite Hs.
  set (c1 := on_poller _ _).
  assert (only_files paths c1) as Ho.
  { split; [done|]. split; [exists b'; split; [done|by eapply set_files_holds]|]. cbn. rewrite Hf. by split_and!. }
  assert (∃ c2, turns l c1 = (Ok tt, c2) ∧ only_files paths c2 ∧ sent c2 = sent c1) as (c2 & E2 & (_ & Hb2 & _) & S2).
  { clearbody c1. clear -Ho Hl. revert c1 Ho. induction l as [|[e t] l IH]; intros c Ho; [by exists c|].
    apply Forall_cons in Hl as [Ht Hl]. rewrite turns_cons.
    destruct (files_turn_quiet paths e t c Ho Ht) as (c1 & -> & Ho1 & S1).
    destruct (IH Hl c1 Ho1) as (c2 & -> & Ho2 & S2). exists c2. split_and!; [done..|congruence]. }
  exists c1, c2. split_and!; [done|done|by rewrite S2|done].
Qed.

(** The window against announcements of files holds hashes of contents, and is
    asked for fingerprints of selections: it stops an announcement only when its
    fingerprint is the hash of a file that was received. *)
Lemma file_window_holds_contents fp x c k :
  k ∈ snd <$> Loopback.items (file_lru_fingerprints (inbound (snd (arrive fp x c)))) →
  k ∈ snd <$> Loopback.items (file_lru_fingerprints (inbound c)) ∨ (k = of_sha x ∧ success (result x) = true).
Proof.
  unfold arrive, handle_inbound_files_applied. set (m := if success (result x) then _ else _).
  assert (∃ c1, m c = (Ok tt, c1) ∧
    file_lru_fingerprints (inbound c1) = if success (result x)
      then Loopback.push (now (at_env x)) (of_sha x) (file_lru_fingerprints (inbound c)) else file_lru_fingerprints (inbound c))
    as (c1 & Em & Hl).
  { subst m. destruct (success (result x)); [by eexists|]. destruct (stream_failure (result x)); by eexists. }
  unfold mbind, ST_bind. rewrite Em. unfold gets.
  assert (∀ c', file_lru_fingerprints (inbound c') = file_lru_fingerprints (inbound c1) →
    k ∈ snd <$> Loopback.items (file_lru_fingerprints (inbound c')) →
    k ∈ snd <$> Loopback.items (file_lru_fingerprints (inbound c)) ∨ (k = of_sha x ∧ success (result x) = true)) as Hx.
  { intros c' ->. rewrite Hl. destruct (success (result x)); [|by left]. unfold Loopback.push. cbn [Loopback.items].
    rewrite fmap_app, elem_of_app. intros [Hk|Hk]; [left|right; cbn in Hk; set_solver].
    case_decide; [|done]. destruct (Loopback.items _); [done|]. cbn in *. set_solver. }
  destruct (pending_file_collectors (inbound c1) !! fp) as [col|]; [|by apply Hx].
  case_decide; [|by apply Hx].
  unfold modify_st, maybe_inject_files_to_clipboard, mbind, ST_bind, gets.
  destruct (decide_reinject_skip _ _ _ _ _); [by apply Hx|]. destruct (omap landed_path _); [by apply Hx|].
  unfold modify_st, command. destruct (alive _); [|by apply Hx]. destruct (serve_command _ _). by apply Hx.
Qed.
End received.

(** * A clipboard *)

(** It holds one thing at a time and takes everything. *)
Inductive Board : Type := Blank | HasText (s : string) | HasImage (i : ImageBytes) | HasFiles (l : list string).
#[export] Instance Board_backend : Backend Board := {
  set_text s _ := (true, HasText s);
  set_image bytes mime _ := (true, HasImage (mkImage (mime_str mime) bytes));
  set_dib_image bytes _ := (true, HasImage (mkImage MIME_DIB bytes));
  set_files l _ := (true, HasFiles l);
  current_text b := (match b with HasText s => Some s | _ => None end, b);
  current_image b := (match b with HasImage i => Some i | _ => None end, b);
  current_files b := (match b with HasFiles l => Some l | _ => None end, b)
}.
Definition board_text (s : string) (b : Board) : Prop := b = HasText s.
Definition board_files (l : list string) (b : Board) : Prop := b = HasFiles l.
#[export] Instance Board_texts : TextLaws Board.
Proof.
  refine (Build_TextLaws Board _ (λ _ _, True) board_text _ _).
  - by intros ???? [= <-].
  - intros s b ->. split_and!; by eexists.
Defined.
#[export] Instance Board_selections : FileLaws Board.
Proof.
  refine (Build_FileLaws Board _ (λ _ _, True) board_files _ _).
  - by intros ???? [= <-].
  - intros l b ->. split_and!; [by eexists..|]. by eexists _, _.
Defined.

Definition pad32 (bs : list byte) : sha := take 32 (bs ++ replicate 32 x00).
Definition demo_addr : SocketAddr := mkAddr (V4 2130706433) 7 0 0.
Definition demo_peer : SocketAddr * IncomingClipboardState * bool := (demo_addr, mkClipState "fp" true, true).
Definition demo_settings : Config.ClipboardConfig := Config.mkClipboard true "/in" false false false 0 false true.
Definition at_time (t : Z) : Env := mkEnv t t [] [demo_peer] demo_settings.
Definition demo (b : Board) (texts : list string) : Clip Board :=
  on_poller (λ p, mkPoller (backend p) (alive p) texts [] []) (new_clip (Some b) ∅).

Lemma recopied_text_lost_witness :
  ∃ c', turns pad32 [(at_time 1, TText); (at_time 2, TText); (at_time 3, TText)] (demo (HasText "a") ["a"; "b"; "a"]) = (Ok tt, c') ∧
    sent c' = [(IncomingPeer demo_addr, text_event pad32 "a"); (IncomingPeer demo_addr, text_event pad32 "b")].
Proof.
  destruct (recopied_text_lost pad32 (at_time 1) (at_time 2) (at_time 3) "a" "b" (demo (HasText "a") ["a"; "b"; "a"]))
    as (c' & E & S & _); [reflexivity|done|done|reflexivity|reflexivity|vm_compute; lia|vm_compute; done|].
  exists c'. by split.
Defined.

Definition stale_demo : Clip Board := on_outbound (set_last_text (Some "a")) (demo (HasText "a") ["a"]).
Lemma stale_text_sent_witness :
  ∃ c', turns pad32 [(at_time 1, TInbound NoPeer true true demo_addr (text_event pad32 "b")); (at_time 2, TText)] stale_demo = (Ok tt, c') ∧
    sent c' = [(IncomingPeer demo_addr, text_event pad32 "a")] ∧ backend (poller c') = Some (HasText "b").
Proof.
  destruct (stale_text_sent pad32 (at_time 1) (at_time 2) NoPeer "a" "b"
    (from_content (pad32 (as_bytes "b")) (pad32 (as_bytes "b")) (as_bytes "b")) demo_addr stale_demo (HasText "a"))
    as (c' & E & S & Hb); [reflexivity..|done|by constructor|done|].
  exists c'. split; [exact E|]. by split.
Defined.

Lemma no_echo_witness :
  ∃ c', turns pad32 ((at_time 1, TInbound NoPeer true true demo_addr (text_event pad32 "b")) :: [] ++
      (at_time 2, TTick) :: (at_time 3, TText) :: [(at_time (10 ^ 12), TTick); (at_time (10 ^ 12), TText)]) (demo (HasText "a") []) = (Ok tt, c') ∧
    sent c' = [] ∧ backend (poller c') = Some (HasText "b").
Proof.
  destruct (no_echo pad32 (at_time 1) NoPeer (from_content (pad32 (as_bytes "b")) (pad32 (as_bytes "b")) (as_bytes "b"))
    demo_addr "b" (demo (HasText "a") []) (HasText "a") (HasText "b") [] (at_time 2) (at_time 3)
    [(at_time (10 ^ 12), TTick); (at_time (10 ^ 12), TText)]) as (c' & E & S & _ & b & Hb & ->);
    [reflexivity..|by left|reflexivity|by repeat constructor|repeat constructor; vm_compute; done|].
  exists c'. by split_and!.
Defined.

Lemma recovered_echo_witness :
  ∃ c', turns pad32 [(at_time 1, TInbound NoPeer true true demo_addr (text_event pad32 "b")); (at_time 2, TRecover)] (demo (HasText "a") []) = (Ok tt, c') ∧
    (IncomingPeer demo_addr, text_event pad32 "b") ∈ sent c'.
Proof.
  destruct (recovered_echo pad32 (at_time 1) NoPeer (from_content (pad32 (as_bytes "b")) (pad32 (as_bytes "b")) (as_bytes "b"))
    demo_addr "b" (demo (HasText "a") []) (HasText "a") (HasText "b") (at_time 2) (IncomingPeer demo_addr)) as (c' & E & _ & S);
    [reflexivity..|by left|reflexivity|by left|].
  exists c'. by split.
Defined.

Lemma text_delivered_witness :
  let long := of_bytes (replicate 1025 x61) in
  ∃ c', dispatch_text pad32 (at_time 1) long (demo Blank []) = (Ok tt, c') ∧
  ∃ d', handle_clipboard_inbound (at_time 2) (fetched map_to_list 3 (caches c') (sha256_of pad32 long)) true true demo_addr
          (text_event pad32 long) (demo Blank []) = (Ok tt, d') ∧ backend (poller d') = Some (HasText long).
Proof.
  cbv zeta. set (long := of_bytes (replicate 1025 x61)).
  destruct (text_delivered pad32 (at_time 1) (at_time 2) 3 map_to_list long (demo Blank []) (demo Blank []) Blank (HasText long) demo_addr)
    as (c' & E & _ & d' & E' & Hb & _);
    [done|vm_compute; reflexivity..|discriminate|vm_compute; reflexivity|by apply ByteCache.inv_new|done|apply not_elem_of_nil
    |vm_compute; discriminate|done|done|reflexivity|reflexivity|vm_compute; reflexivity|].
  exists c'. split; [exact E|]. exists d'. by split.
Defined.

Lemma announced_before_cached_witness :
  let long := of_bytes (replicate 1025 x61) in
  ∃ c', announce_text pad32 (at_time 1) long (demo Blank []) = (Ok tt, c') ∧
  ∃ d', handle_clipboard_inbound (at_time 2) (fetched map_to_list 1 (caches c') (sha256_of pad32 long)) true true demo_addr
          (text_event pad32 long) (demo (HasText "old") []) = (Ok tt, d') ∧ backend (poller d') = Some (HasText "old").
Proof.
  cbv zeta. set (long := of_bytes (replicate 1025 x61)).
  destruct (announced_before_cached pad32 (at_time 1) (at_time 2) 1 map_to_list long (demo Blank []) (demo (HasText "old") []) demo_addr)
    as (c' & E & _ & d' & E' & Hp & _);
    [done|vm_compute; reflexivity|apply Nat.ltb_lt; vm_compute; reflexivity|by apply ByteCache.inv_new|done|by left|].
  exists c'. split; [exact E|]. exists d'. rewrite Hp. by split.
Defined.

Definition demo_image : ImageBytes := mkImage "image/png" (PNG_MAGIC ++ [x01]).
Definition image_demo : Clip Board :=
  on_tasks (λ ts, mkClipTasks (files ts) (origin ts) (images ts)
    [mkImageResult (pad32 (img_data demo_image)) demo_addr true (Some (pad32 (img_data demo_image)))]) (demo (HasImage demo_image) []).
Lemma image_echo_witness :
  ∃ c', turns pad32 [(at_time 1, TImageApplied); (at_time 2, TTick); (at_time 60000000001, TImage)] image_demo = (Ok tt, c') ∧
    sent c' = [(IncomingPeer demo_addr, image_event pad32 demo_image)].
Proof.
  destruct (image_echo pad32 (at_time 1) (at_time 2) (at_time 60000000001)
    (mkImageResult (pad32 (img_data demo_image)) demo_addr true (Some (pad32 (img_data demo_image)))) []
    (pad32 (img_data demo_image)) demo_image image_demo (HasImage demo_image) (HasImage demo_image)) as (c' & E & _ & S);
    [reflexivity..|done|by constructor|done|].
  exists c'. split; [exact E|]. by apply S.
Defined.

Definition batch_demo : Clip Board :=
  on_inbound (set_collectors {[pad32 [x07] := mkCollector 2 []]}) (demo Blank []).
Definition demo_arrival (n : nat) (name : string) : Arrival :=
  mkArrival (at_time 1) (pad32 [x01]) demo_addr (mkApplyResult n None (Some name) None).
Lemma batch_injected_witness :
  ∃ c2, for_each (arrive pad32 (pad32 [x07])) ([demo_arrival 1 "/in/b"] ++ [demo_arrival 0 "/in/a"]) batch_demo = (Ok tt, c2) ∧
    backend (poller c2) = Some (HasFiles ["/in/b"; "/in/a"]).
Proof.
  destruct (batch_injected pad32 (pad32 [x07]) [demo_arrival 1 "/in/b"] (demo_arrival 0 "/in/a") 2 batch_demo Blank)
    as (_ & c2 & E & _ & _ & H & _); [apply lookup_singleton_eq|done..|].
  exists c2. split; [exact E|]. apply H. split_and!; [done..|by repeat constructor|done].
Defined.
Lemma files_no_echo_witness :
  ∃ c1 c2, maybe_inject_files_to_clipboard pad32 (at_time 1) (pad32 [x07])
      (mkCollector 1 [mkApplyResult 0 None (Some "/in/a") None]) (demo Blank []) = (Ok tt, c1) ∧
    turns pad32 [(at_time 2, TTick); (at_time 3, TFiles (λ _, Some (false, 1%Z)) (λ _, Some [x01]) (λ _, None))] c1 = (Ok tt, c2) ∧
    sent c2 = [].
Proof.
  destruct (files_no_echo pad32 (at_time 1) (pad32 [x07]) (mkCollector 1 [mkApplyResult 0 None (Some "/in/a") None]) (demo Blank [])
    Blank (HasFiles ["/in/a"]) [(at_time 2, TTick); (at_time 3, TFiles (λ _, Some (false, 1%Z)) (λ _, Some [x01]) (λ _, None))])
    as (c1 & c2 & E1 & E2 & S & _).
  all: first [done | by repeat constructor | split_and!; [done..|by repeat constructor|done] | idtac].
  exists c1, c2. by split_and!.
Defined.
