(* ===== verification/ClipboardOs.v ===== *)
(** What the backends of the clipboard share (src/clipboard/mod.rs): their
    errors, the image library, the programs they start, and the backend of the
    tests.  Programs and the image library are classes: what they do is not code
    of the repository. *)

From S2P Require Import Prelude Text Clipboard.

(** * Errors *)

Inductive ClipboardError : Type :=
| ToolMissing (what : string)
| ToolFailed (what : string)
| NotImplemented
| Io (what : string)
| Unsupported (what : string).

(** A setter of the trait, seen by the task that polls: it only asks whether the
    call succeeded. *)
Definition succeeded {B} (m : ST B ClipboardError unit) (b : B) : bool * B :=
  match m b with (Ok tt, b') => (true, b') | (_, b') => (false, b') end.
(** A reader of the trait; it has no error.  [None] stands for a panic, too. *)
Definition answered {B A} (m : ST B ClipboardError (option A)) (b : B) : option A * B :=
  match m b with (Ok r, b') => (r, b') | (_, b') => (None, b') end.

Lemma succeeded_true {B} (m : ST B ClipboardError unit) b b' : succeeded m b = (true, b') ↔ m b = (Ok tt, b').
Proof. unfold succeeded. destruct (m b) as [[[]|?| |] ?]; naive_solver. Qed.
Lemma answered_Ok {B A} (m : ST B ClipboardError (option A)) b r b' : m b = (Ok r, b') → answered m b = (r, b').
Proof. unfold answered. by intros ->. Qed.

(** A call of the system on the state of the backend that keeps it. *)
Definition on_os {S W E A} (get : S → W) (put : W → S → S) (call : W → A * W) : ST S E A := λ s,
  let '(a, w) := call (get s) in (Ok a, put w s).

(** * The image library *)

Inductive ImageFormat : Type := FPng | FBmp.
(** [image::load_from_memory] and [write_to]; an error is its text. *)
Class ImageCrate : Type := {
  DynamicImage : Type;
  load_from_memory : list byte → string + DynamicImage;
  write_to : ImageFormat → DynamicImage → string + list byte
}.

(** Decode and encode again; the texts are those of the errors. *)
Definition reencode `{ImageCrate} (fmt : ImageFormat) (what_load what_write : string) (bytes : list byte)
    : outcome ClipboardError (list byte) :=
  match load_from_memory bytes with
  | inl e => Err (Io (what_load +:+ ": " +:+ e))
  | inr img =>
      match write_to fmt img with
      | inl e => Err (Io (what_write +:+ ": " +:+ e))
      | inr out => Ok out
      end
  end.
Lemma reencode_returns `{ImageCrate} fmt l w bytes : returns (reencode fmt l w bytes).
Proof. unfold reencode. destruct (load_from_memory bytes); [done|]. by destruct (write_to fmt _). Qed.

(** A computation without a state, in a call. *)
Definition pure_call {S E A} (r : outcome E A) : ST S E A := λ s, (r, s).

(** The library tells formats apart by their first bytes, and refuses what it
    cannot tell; these are the first bytes of the formats it knows: PNG, JPEG, GIF,
    WebP, TIFF in either order, DDS, BMP, icons and AVIF, HDR, EXR, PNM, farbfeld,
    QOI and PCX. *)
Definition MAGIC_BYTES : list byte := [x89; xff; x47; x52; x4d; x49; x44; x42; x00; x23; x76; x50; x66; x71; x0a].
Class ImageLaws `{ImageCrate} : Prop :=
  load_unknown b bytes : b ∉ MAGIC_BYTES → ∃ e, load_from_memory (b :: bytes) = inl e.

(** * Programs *)

Record ExitStatus : Type := mkExit { success : bool; shown : string }.
Record Output : Type := mkOutput { status : ExitStatus; stdout : list byte }.
(** [Command::output], and [Command::spawn] with its input piped: what can be
    done with the child until it is waited for.  An error is its text. *)
Class Processes (W : Type) : Type := {
  Child : Type;
  output : list string → W → (string + Output) * W;
  run_status : list string → W → (string + ExitStatus) * W;
  spawn : list string → W → (string + Child) * W;
  write_all : Child → list byte → W → (string + unit) * W;
  close_stdin : Child → W → W;
  wait : Child → W → (string + ExitStatus) * W
}.

Section programs.
Context {W : Type} {P : Processes W}.
Abbreviation M A := (ST W ClipboardError A).

(** [call.map_err(|e| Io(format!(..)))?]. *)
Definition io {A} (what : string) (call : W → (string + A) * W) : M A := λ w,
  match call w with
  | (inl e, w) => (Err (Io (what +:+ ": " +:+ e)), w)
  | (inr a, w) => (Ok a, w)
  end.
(** Hand [bytes] to a program and wait for it; a failure of the write leaves the
    program without anybody to wait for it. *)
Definition feed (argv : list string) (name : string) (bytes : list byte) : M unit :=
  child ← io ("spawn " +:+ name) (spawn argv);
  io ("write " +:+ name +:+ " stdin") (write_all child bytes) ;;
  modify_st (close_stdin child) ;;
  st ← io ("wait " +:+ name) (wait child);
  if success st then mret tt else raise (ToolFailed (name +:+ " exited " +:+ shown st)).
(** What a program prints, when it starts and reports success. *)
Definition printed (argv : list string) : M (option (list byte)) := λ w,
  match output argv w with
  | (inr out, w) => (Ok (if success (status out) then Some (stdout out) else None), w)
  | (inl _, w) => (Ok None, w)
  end.

Lemma feed_outcome argv name bytes w : returns (fst (feed argv name bytes w)).
Proof.
  unfold feed, mbind, ST_bind, io, modify_st. destruct (spawn argv w) as [[e|c] w1]; [done|].
  destruct (write_all c bytes w1) as [[e|[]] w2]; [done|]. destruct (wait c (close_stdin c w2)) as [[e|st] w3]; [done|].
  by destruct (success st).
Qed.
(** It succeeds only when the program took everything and reported success. *)
Lemma feed_Ok argv name bytes w w' : feed argv name bytes w = (Ok tt, w') ↔
  ∃ c w1 w2 st, spawn argv w = (inr c, w1) ∧ write_all c bytes w1 = (inr tt, w2) ∧
    wait c (close_stdin c w2) = (inr st, w') ∧ success st = true.
Proof.
  unfold feed, mbind, ST_bind, io, modify_st, raise, mret, ST_ret. split.
  - destruct (spawn argv w) as [[e|c] w1]; [done|].
    destruct (write_all c bytes w1) as [[e|[]] w2] eqn:Ew; [done|].
    destruct (wait c (close_stdin c w2)) as [[e|st] w3] eqn:Es; [done|].
    destruct (success st) eqn:Hs; [|done]. intros [= ->]. by eexists _, _, _, _.
  - intros (c & w1 & w2 & st & -> & -> & -> & Hs). cbn. by rewrite Hs.
Qed.
End programs.

(** * The backend of the tests *)

(** [DummyBackend], with what the trait does where it does not say. *)
Module Dummy.
Record DummyBackend : Type := mkDummy { text : option string }.
Definition new : DummyBackend := mkDummy None.
Definition with_text (s : string) : DummyBackend := mkDummy (Some s).
Abbreviation M A := (ST DummyBackend ClipboardError A).
Definition current_text : M (option string) := gets text.
Definition set_text (s : string) : M unit := modify_st (λ _, mkDummy (Some s)).
Definition current_image : M (option ImageBytes) := mret None.
Definition set_image (bytes : list byte) (mime : Mime) : M unit :=
  raise (Unsupported "image write not implemented for this backend (M2a/M2b in flight)").
Definition set_dib_image (bytes : list byte) : M unit :=
  raise (Unsupported "DIB image write not implemented for this backend (M2b STEP-2b.1 in flight)").
Definition current_files : M (option (list string)) := mret None.
Definition set_files (files : list string) : M unit :=
  raise (Unsupported "file-write not implemented for this backend (M4 STEP-4.2 in flight)").
#[export] Instance Dummy_backend : Backend DummyBackend := {
  Clipboard.set_text s := succeeded (set_text s);
  Clipboard.set_image bytes mime := succeeded (set_image bytes mime);
  Clipboard.set_dib_image bytes := succeeded (set_dib_image bytes);
  Clipboard.set_files l := succeeded (set_files l);
  Clipboard.current_text := answered current_text;
  Clipboard.current_image := answered current_image;
  Clipboard.current_files := answered current_files
}.
(** It keeps every text, and takes no images and no files. *)
#[export] Instance Dummy_texts : TextLaws DummyBackend.
Proof.
  refine (Build_TextLaws _ _ (λ _ _, True) (λ s b, b = mkDummy (Some s)) _ _).
  - intros s b b' _ Hs. cbn in Hs. unfold succeeded in Hs. cbn in Hs. by injection Hs as <-.
  - intros s b ->. split_and!; by eexists.
Defined.
End Dummy.
