(* ===== verification/Formats.v ===== *)
(** The formats in which the clipboard backends hand files and bitmaps to the
    operating system: lists of URIs (src/clipboard/linux.rs), the header put
    before a bitmap (src/clipboard/macos.rs), and lists of dropped files
    (src/clipboard/windows.rs).  Paths are their bytes, on Windows their UTF-16
    units; the backends that hand them over are in LinuxClipboard,
    MacPasteboard and WinClipboard. *)

From S2P Require Import Prelude Text.

(** * Lists of URIs *)

Module UriList.

(** What follows one character of white space. *)
Definition white (bs : list byte) : option (list byte) :=
  match bs with
  | (x09 | x0a | x0b | x0c | x0d | x20) :: r => Some r
  | xc2 :: (x85 | xa0) :: r => Some r
  | xe1 :: x9a :: x80 :: r => Some r
  | xe2 :: x80 :: (x80 | x81 | x82 | x83 | x84 | x85 | x86 | x87 | x88 | x89 | x8a | xa8 | xa9 | xaf) :: r => Some r
  | xe2 :: x81 :: x9f :: r => Some r
  | xe3 :: x80 :: x80 :: r => Some r
  | _ => None
  end.
Fixpoint trim_white (n : nat) (bs : list byte) : list byte :=
  match n with
  | 0 => bs
  | S n => match white bs with Some r => trim_white n r | None => bs end
  end.
Definition trim_start (bs : list byte) : list byte := trim_white (length bs) bs.
Fixpoint trim_end (bs : list byte) : list byte :=
  match trim_start bs with
  | [] => []
  | _ => match bs with b :: r => b :: trim_end r | [] => [] end
  end.
Definition trim (bs : list byte) : list byte := trim_end (trim_start bs).

(** [split(|c| c == '\n' || c == '\r')]. *)
Fixpoint split_lines (bs : list byte) : list (list byte) :=
  match bs with
  | [] => [[]]
  | b :: r =>
      if decide (b = x0a ∨ b = x0d) then [] :: split_lines r
      else match split_lines r with
      | l :: ls => (b :: l) :: ls
      | [] => [[b]]
      end
  end.
(** [trim_end_matches('\r')]. *)
Fixpoint trim_end_cr (bs : list byte) : list byte :=
  match bs with
  | [] => []
  | b :: r => match trim_end_cr r with [] => if decide (b = x0d) then [] else [b] | r => b :: r end
  end.

Definition hex_val (b : byte) : option Z :=
  let z := Z_of_byte b in
  if ((0x30 <=? z) && (z <=? 0x39))%Z then Some (z - 0x30)%Z
  else if ((0x61 <=? z) && (z <=? 0x66))%Z then Some (z - 0x61 + 10)%Z
  else if ((0x41 <=? z) && (z <=? 0x46))%Z then Some (z - 0x41 + 10)%Z
  else None.
Fixpoint percent_bytes (bs : list byte) : list byte :=
  match bs with
  | [] => []
  | b :: r =>
      match r with
      | b1 :: b2 :: r2 =>
          match decide (b = x25), hex_val b1, hex_val b2 with
          | left _, Some h, Some l => byte_of_Z (Z.lor (Z.shiftl h 4) l) :: percent_bytes r2
          | _, _, _ => b :: percent_bytes r
          end
      | _ => b :: percent_bytes r
      end
  end.
Definition percent_decode (bs : list byte) : list byte := Utf8.lossy (percent_bytes bs).

Fixpoint strip_bytes (p bs : list byte) : option (list byte) :=
  match p, bs with
  | [], _ => Some bs
  | a :: p, b :: bs => if decide (a = b) then strip_bytes p bs else None
  | _ :: _, [] => None
  end.
(** What is before and after the first slash. *)
Fixpoint at_slash (bs : list byte) : option (list byte * list byte) :=
  match bs with
  | [] => None
  | b :: r =>
      if decide (b = x2f) then Some ([], r)
      else match at_slash r with Some (h, p) => Some (b :: h, p) | None => None end
  end.

Definition PREFIX : list byte := as_bytes "file://".
Definition file_uri_to_path (uri : list byte) : option (list byte) :=
  rest ← strip_bytes PREFIX uri;
  '(hostname, path) ← at_slash rest;
  if decide (hostname ≠ [] ∧ hostname ≠ as_bytes "localhost") then None
  else Some (if decide (x25 ∈ path) then percent_decode path else path).

Definition parse_uri_list (bytes : list byte) : list (list byte) :=
  if utf8_valid bytes then
    omap (λ raw_line,
      let line := trim (trim_end_cr raw_line) in
      match line with
      | [] => None
      | b :: _ => if decide (b = x23) then None else file_uri_to_path line
      end) (split_lines bytes)
  else [].

(** A path of Linux is displayed as it is when it is UTF-8. *)
Definition build_uri_list (paths : list (list byte)) : list byte :=
  concat ((λ p, PREFIX ++ Utf8.lossy p ++ [x0d; x0a]) <$> paths).

(** ** What becomes of a list of files *)

Definition graphic (b : byte) : Prop := (0x21 ≤ Z_of_byte b < 0x7f)%Z.

Lemma white_suffix l c r : graphic c → white (l ++ [c]) = Some r → ∃ l', r = l' ++ [c].
Proof.
  intros Hc. assert (white [c] = None) as H1.
  { destruct c; try reflexivity; exfalso; unfold graphic in Hc; vm_compute in Hc; destruct Hc; congruence. }
  destruct l as [|a [|b [|d l]]]; cbn [app].
  - by rewrite H1.
  - intros Hw. assert (r = [c]) as ->; [|by exists []].
    destruct a; try discriminate; cbn in Hw; try congruence;
      destruct c; try discriminate; exfalso; unfold graphic in Hc; vm_compute in Hc; destruct Hc; congruence.
  - intros Hw. assert (r = [b; c] ∨ r = [c]) as [-> | ->]; [|by exists [b]|by exists []].
    destruct a; try discriminate; cbn in Hw; try (left; congruence);
      destruct b; try discriminate; cbn in Hw; try (right; congruence);
      destruct c; try discriminate; exfalso; unfold graphic in Hc; vm_compute in Hc; destruct Hc; congruence.
  - intros Hw. assert (r = b :: d :: l ++ [c] ∨ r = d :: l ++ [c] ∨ r = l ++ [c]) as [-> |[-> | ->]];
      [|by exists (b :: d :: l)|by exists (d :: l)|by exists l].
    destruct a; try discriminate; cbn in Hw; try (left; congruence);
      destruct b; try discriminate; cbn in Hw; try (right; left; congruence);
      destruct d; try discriminate; cbn in Hw; right; right; congruence.
Qed.

Lemma trim_start_graphic l c : graphic c → trim_start (l ++ [c]) ≠ [].
Proof.
  intros Hc. unfold trim_start. generalize (length (l ++ [c])). intros n. revert l.
  induction n as [|n IH]; intros l; cbn [trim_white]; [by destruct l|].
  destruct (white (l ++ [c])) as [r|] eqn:Ew; [|by destruct l].
  apply white_suffix in Ew as [l' ->]; [|done]. apply IH.
Qed.
Lemma trim_end_graphic l c : graphic c → trim_end (l ++ [c]) = l ++ [c].
Proof.
  intros Hc. induction l as [|b l IH].
  - cbn [app trim_end]. pose proof (trim_start_graphic [] c Hc) as H. cbn [app] in H. by destruct (trim_start [c]).
  - cbn [app trim_end]. pose proof (trim_start_graphic (b :: l) c Hc) as H. cbn [app] in H.
    rewrite IH. by destruct (trim_start (b :: l ++ [c])).
Qed.
Lemma split_lines_app l rest :
  Forall (λ b, b ≠ x0a ∧ b ≠ x0d) l → split_lines (l ++ x0d :: x0a :: rest) = l :: [] :: split_lines rest.
Proof.
  induction 1 as [|b l [H1 H2] _ IH]; cbn [app split_lines]; [done|].
  rewrite decide_False by tauto. by rewrite IH.
Qed.
Lemma trim_end_cr_id l : Forall (λ b, b ≠ x0d) l → trim_end_cr l = l.
Proof.
  induction 1 as [|b l Hb _ IH]; cbn [trim_end_cr]; [done|]. rewrite IH. destruct l; [by rewrite decide_False|done].
Qed.
Lemma strip_bytes_app p l : strip_bytes p (p ++ l) = Some l.
Proof. induction p; cbn; [done|]. by rewrite decide_True. Qed.

(** An absolute path without line ends and percent signs that ends in a visible
    character of ASCII. *)
Definition plain (p : list byte) : Prop :=
  head p = Some x2f ∧ utf8_valid p = true ∧ Forall (λ b, b ∉ [x0a; x0d; x25]) p ∧
  ∃ l c, p = l ++ [c] ∧ graphic c.

Lemma plain_line p : plain p → trim (trim_end_cr (PREFIX ++ p)) = PREFIX ++ p.
Proof.
  intros (_ & _ & Hp & l & c & -> & Hc).
  rewrite trim_end_cr_id by (apply Forall_app; split; [by vm_compute; repeat constructor|]; eapply Forall_impl; [exact Hp|]; set_solver).
  unfold trim. assert (trim_start (PREFIX ++ l ++ [c]) = PREFIX ++ l ++ [c]) as -> by done.
  rewrite app_assoc. by apply trim_end_graphic.
Qed.
Lemma plain_uri p : plain p → file_uri_to_path (PREFIX ++ p) = Some (tail p).
Proof.
  intros (Hs & _ & Hp & _). destruct p as [|b p]; [done|]. injection Hs as ->.
  unfold file_uri_to_path. rewrite strip_bytes_app. cbn [mbind option_bind at_slash].
  rewrite decide_True by done. cbn. rewrite decide_False by (intros [[] _]; done).
  rewrite decide_False; [done|]. apply Forall_cons in Hp as [_ Hp]. rewrite Forall_forall in Hp.
  intros Hin. apply (Hp _ Hin). set_solver.
Qed.

Lemma utf8_app a b : utf8_valid a = true → utf8_valid b = true → utf8_valid (a ++ b) = true.
Proof.
  remember (length a) as n eqn:Hn. revert a Hn. induction (lt_wf n) as [n _ IH]. intros a -> Ha Hb.
  destruct a as [|b0 r0]; [done|]. cbn [utf8_valid app] in *.
  assert (∀ r, length r < length (b0 :: r0) → utf8_valid r = true → utf8_valid (r ++ b) = true) as IH'
    by (intros r Hr ?; by apply (IH (length r))).
  case_match; [apply IH'; [cbn; lia|done]|].
  case_match. { destruct r0 as [|b1 r1]; [done|]. cbn [app]; apply andb_true_iff in Ha as [-> ?]. apply IH'; [cbn; lia|done]. }
  case_match.
  { destruct r0 as [|b1 [|b2 r2]]; [done..|]. cbn [app]; apply andb_true_iff in Ha as [[-> ->]%andb_true_iff ?].
    apply IH'; [cbn; lia|done]. }
  case_match; [|done]. destruct r0 as [|b1 [|b2 [|b3 r3]]]; [done..|].
  cbn [app]; apply andb_true_iff in Ha as [[[-> ->]%andb_true_iff ->]%andb_true_iff ?]. apply IH'; [cbn; lia|done].
Qed.
Lemma built_valid paths : Forall plain paths → utf8_valid (build_uri_list paths) = true.
Proof.
  induction 1 as [|p paths (_ & Hp & _) _ IH]; [done|]. unfold build_uri_list. cbn [fmap list_fmap concat].
  apply utf8_app; [|exact IH]. rewrite Utf8.lossy_valid by done.
  apply utf8_app; [done|]. by apply utf8_app.
Qed.

(** On Linux the files that are put on the clipboard are not the ones that
    are read from it: of every absolute path the reader drops the first slash
    together with the host name in front of it, so the selection that was
    written as [/tmp/a] comes back as the relative path [tmp/a]. *)
Theorem root_lost paths :
  Forall plain paths → parse_uri_list (build_uri_list paths) = tail <$> paths.
Proof.
  intros Hp. unfold parse_uri_list. rewrite built_valid by done.
  induction Hp as [|p paths Hp _ IH]; [done|]. unfold build_uri_list in *. cbn [fmap list_fmap concat].
  pose proof Hp as (_ & Hu & Hc & _). rewrite Utf8.lossy_valid by done.
  rewrite <- !app_assoc. cbn [app]. rewrite app_assoc, split_lines_app.
  2: { apply Forall_app. split; [by vm_compute; repeat constructor|]. eapply Forall_impl; [exact Hc|]. set_solver. }
  cbn [omap list_omap]. rewrite plain_line, plain_uri by done. rewrite IH. done.
Qed.
Lemma root_lost_witness :
  parse_uri_list (build_uri_list [as_bytes "/tmp/a.bin"; as_bytes "/tmp/b"]) = [as_bytes "tmp/a.bin"; as_bytes "tmp/b"].
Proof.
  apply (root_lost [as_bytes "/tmp/a.bin"; as_bytes "/tmp/b"]).
  repeat constructor; try (vm_compute; reflexivity); try (vm_compute; repeat constructor; set_solver).
  - exists (as_bytes "/tmp/a.bi"), x6e. split; [reflexivity|]. by vm_compute.
  - exists (as_bytes "/tmp/"), x62. split; [reflexivity|]. by vm_compute.
Defined.

(** A percent sign is not escaped when it is written, and decoded when it is
    read: the name of another file. *)
Lemma percent_not_escaped :
  parse_uri_list (build_uri_list [as_bytes "/tmp/50%41"]) = [as_bytes "tmp/50A"].
Proof. vm_compute. reflexivity. Qed.
End UriList.

(** * The header of a bitmap *)

Module Bmp.

(** [to_le_bytes] and [from_le_bytes]. *)
Definition le_bytes (n : nat) (z : Z) : list byte := rev (be_bytes n z).
Definition le_val (bs : list byte) : Z := be_val (rev bs).
Lemma le_val_bytes n z : inU (8 * Z.of_nat n) z → le_val (le_bytes n z) = z.
Proof. intros Hz. unfold le_val, le_bytes. rewrite rev_involutive. by apply be_val_be_bytes. Qed.
Lemma length_le n z : length (le_bytes n z) = n.
Proof. unfold le_bytes. by rewrite length_rev, length_be_bytes. Qed.

Inductive BmpError : Type := TooShort (len : Z) | NotADib (bi_size : Z) | ShorterThanHeader (len bi_size : Z) | Overflows (len : Z).

(** The addition [14u32 + bi_size] panics when it overflows in a build that checks overflows. *)
Definition prepend_bmp_file_header (dib_bytes : list byte) : outcome BmpError (list byte) :=
  let len := Z.of_nat (length dib_bytes) in
  if (len <? 4)%Z then Err (TooShort len)
  else
    let bi_size := le_val (take 4 dib_bytes) in
    if (bi_size <? 12)%Z then Err (NotADib bi_size)
    else if (len <? bi_size)%Z then Err (ShorterThanHeader len bi_size)
    else
      let file_size := (14 + wrapU 32 len)%Z in
      if (2 ^ 32 <=? file_size)%Z then Err (Overflows len)
      else
        let pixel_offset := (14 + bi_size)%Z in
        if (2 ^ 32 <=? pixel_offset)%Z then Panic
        else Ok ([x42; x4d] ++ le_bytes 4 file_size ++ [x00; x00] ++ [x00; x00] ++ le_bytes 4 pixel_offset ++ dib_bytes).

(** The other direction, on Windows: the header of the file that the encoder
    wrote is cut off. *)
Definition strip_bmp_file_header (bmp_file : list byte) : option (list byte) :=
  if decide (length bmp_file < 14) then None else Some (drop 14 bmp_file).

Lemma ok_inj {E A} (a b : A) : Ok (E := E) a = Ok b → a = b.
Proof. congruence. Qed.
Local Ltac cases :=
  repeat match goal with
  | |- context [(?a <? ?b)%Z] => destruct (Z.ltb_spec a b)
  | |- context [(?a <=? ?b)%Z] => destruct (Z.leb_spec a b)
  end.

(** The header is put before exactly those bitmaps that are long enough for
    the size they announce, and nothing overflows: the result has the magic of a
    bitmap file, its own length and the offset of what follows the announced
    header in 32 bits each, and stripping it gives the bitmap back; a bitmap of
    less than four gigabytes never makes the call panic, a longer one can. *)
Theorem header_spec dib :
  let len := Z.of_nat (length dib) in
  let bi_size := le_val (take 4 dib) in
  ((len < 2 ^ 32)%Z → returns (prepend_bmp_file_header dib)) ∧
  ((4 ≤ len ∧ 12 ≤ bi_size ≤ len ∧ len + 14 < 2 ^ 32)%Z → ∃ out, prepend_bmp_file_header dib = Ok out) ∧
  (∀ out, prepend_bmp_file_header dib = Ok out → (len < 2 ^ 32)%Z →
     (12 ≤ bi_size ≤ len)%Z ∧ take 2 out = [x42; x4d] ∧
     le_val (take 4 (drop 2 out)) = Z.of_nat (length out) ∧ le_val (take 4 (drop 10 out)) = (14 + bi_size)%Z ∧
     strip_bmp_file_header out = Some dib).
Proof.
  intros len bi_size. unfold prepend_bmp_file_header. fold len. fold bi_size.
  assert (0 ≤ bi_size < 2 ^ 32)%Z as Hbi.
  { unfold bi_size, le_val. pose proof (be_val_bound (rev (take 4 dib))) as H. rewrite length_rev, length_take in H.
    assert (2 ^ (8 * Z.of_nat (4 `min` length dib)) ≤ 2 ^ 32)%Z; [|lia]. apply Z.pow_le_mono_r; lia. }
  assert ((len < 2 ^ 32)%Z → wrapU 32 len = len) as Hw by (intros; apply wrapU_small; unfold inU; lia).
  split_and!.
  - intros Hl. rewrite (Hw Hl). cases; (exact I || lia).
  - intros (H1 & H2 & H3). rewrite Hw by lia. cases; first [by eexists|lia].
  - intros out E Hl. rewrite (Hw Hl) in E. revert E. cases; try discriminate. intros Ho%ok_inj. subst out.
    pose proof (length_le 4 (14 + len)) as L1. pose proof (length_le 4 (14 + bi_size)) as L2.
    pose proof (le_val_bytes 4 (14 + len)) as V1. pose proof (le_val_bytes 4 (14 + bi_size)) as V2.
    unfold inU in V1, V2. change (2 ^ (8 * Z.of_nat 4))%Z with (2 ^ 32)%Z in *.
    destruct (le_bytes 4 (14 + len)) as [|a0 [|a1 [|a2 [|a3 [|]]]]]; try done.
    destruct (le_bytes 4 (14 + bi_size)) as [|b0 [|b1 [|b2 [|b3 [|]]]]]; try done.
    split_and!; [lia|lia|done| | |].
    + etransitivity; [apply V1; lia|]. unfold len. rewrite !length_app. cbn [length]. lia.
    + etransitivity; [apply V2; lia|]. done.
    + unfold strip_bmp_file_header. cbn [app length]. rewrite decide_False by lia. done.
Qed.
End Bmp.

(** * Lists of dropped files *)

Module DropFiles.
Import Bmp.

(** A path of Windows is a list of UTF-16 units. *)
Definition wide_bytes (wide : list Z) : list byte := concat (le_bytes 2 <$> wide).
Definition header : list byte :=
  le_bytes 4 20 ++ le_bytes 4 0 ++ le_bytes 4 0 ++ le_bytes 4 0 ++ le_bytes 4 1.
Definition build_dropfiles_payload (paths : list (list Z)) : list byte :=
  match paths with
  | [] => []
  | _ => header ++ concat ((λ p, wide_bytes (p ++ [0%Z])) <$> paths) ++ [x00; x00; x00; x00]
  end.

(** The format as its documentation has it: the first field is the offset of the
    names, each of which ends at a zero; an empty one ends the list. *)
Fixpoint units (bs : list byte) : list Z :=
  match bs with
  | a :: b :: bs => le_val [a; b] :: units bs
  | _ => []
  end.
Fixpoint until_zero (ws : list Z) : option (list Z * list Z) :=
  match ws with
  | [] => None
  | w :: ws =>
      if decide (w = 0%Z) then Some ([], ws)
      else match until_zero ws with Some (p, rest) => Some (w :: p, rest) | None => None end
  end.
Fixpoint names (fuel : nat) (ws : list Z) : option (list (list Z)) :=
  match fuel with
  | O => None
  | S fuel =>
      match until_zero ws with
      | None => None
      | Some ([], _) => Some []
      | Some (p, rest) => cons p <$> names fuel rest
      end
  end.
Definition drag_query (payload : list byte) : option (list (list Z)) :=
  let ws := units (drop (Z.to_nat (le_val (take 4 payload))) payload) in
  names (S (length ws)) ws.

Definition wide_path (p : list Z) : Prop := p ≠ [] ∧ Forall (λ w, 0 < w < 2 ^ 16)%Z p.

Lemma units_wide ws rest : Forall (λ w, 0 ≤ w < 2 ^ 16)%Z ws → units (wide_bytes ws ++ rest) = ws ++ units rest.
Proof.
  induction 1 as [|w ws Hw _ IH]; [done|]. unfold wide_bytes in *. cbn [fmap list_fmap concat].
  pose proof (length_le 2 w) as L. pose proof (le_val_bytes 2 w Hw) as V.
  destruct (le_bytes 2 w) as [|a [|b [|]]]; try done. cbn [app units]. by rewrite V, IH.
Qed.
Lemma until_zero_path p rest : Forall (λ w, 0 < w < 2 ^ 16)%Z p → until_zero (p ++ 0%Z :: rest) = Some (p, rest).
Proof. induction 1 as [|w p Hw _ IH]; [done|]. cbn. rewrite decide_False by lia. by rewrite IH. Qed.
Lemma names_paths paths fuel rest :
  Forall wide_path paths → length paths < fuel →
  names fuel (concat ((λ p, p ++ [0%Z]) <$> paths) ++ 0%Z :: rest) = Some paths.
Proof.
  intros Hp. revert fuel. induction Hp as [|p paths [Hne Hw] _ IH]; intros [|fuel] Hf; try (cbn in Hf; lia); [done|].
  cbn [fmap list_fmap concat names]. rewrite <- !app_assoc. cbn [app]. rewrite until_zero_path by done.
  destruct p; [done|]. cbn in Hf. by rewrite IH by lia.
Qed.
(** Whatever follows the payload in its block. *)
Lemma drag_query_payload paths slack :
  paths ≠ [] → Forall wide_path paths → drag_query (build_dropfiles_payload paths ++ slack) = Some paths.
Proof.
  intros Hne Hp. destruct paths as [|p0 ps] eqn:Ep; [done|]. rewrite <- Ep in Hp. clear Hne.
  unfold build_dropfiles_payload. rewrite <- Ep. unfold drag_query. rewrite <- app_assoc.
  assert (∀ rest, Z.to_nat (le_val (take 4 (header ++ rest))) = length header) as -> by reflexivity.
  rewrite drop_app_length. rewrite <- app_assoc.
  assert (units (concat ((λ p, wide_bytes (p ++ [0%Z])) <$> paths) ++ [x00; x00; x00; x00] ++ slack) =
          concat ((λ p, p ++ [0%Z]) <$> paths) ++ 0%Z :: 0%Z :: units slack) as ->.
  { clear Ep. induction Hp as [|p paths [_ Hw] _ IH]; [done|]. cbn [fmap list_fmap concat]. rewrite <- !app_assoc.
    rewrite units_wide; [by rewrite IH, <- app_assoc|]. apply Forall_app. split; [|by repeat constructor].
    eapply Forall_impl; [exact Hw|]. cbn. lia. }
  apply names_paths; [done|]. rewrite length_app. cbn. clear Ep. induction Hp as [|p paths _ _ IH]; cbn; [lia|].
  rewrite !length_app. cbn. lia.
Qed.

(** A list of files that is put on the clipboard of Windows is read back as
    it is by whoever follows the documented format: any number of non-empty
    names of any UTF-16 units but zero. *)
Theorem dropfiles_roundtrip paths :
  paths ≠ [] → Forall wide_path paths → drag_query (build_dropfiles_payload paths) = Some paths.
Proof. intros Hne Hp. rewrite <- (app_nil_r (build_dropfiles_payload paths)). by apply drag_query_payload. Qed.
Lemma dropfiles_roundtrip_witness :
  drag_query (build_dropfiles_payload [[67; 58; 92; 97]; [0xd83d; 0xde00]]%Z) = Some [[67; 58; 92; 97]; [0xd83d; 0xde00]]%Z.
Proof. apply (dropfiles_roundtrip [[67; 58; 92; 97]; [0xd83d; 0xde00]]%Z); [done|]. repeat constructor; done. Defined.
End DropFiles.
