(* ===== verification/Doubles.v ===== *)
(** The conversions of Rust between [f64] and integers, and between an [f64]
    and its 64 bits, over the IEEE doubles of Geometry: [as f64] rounds to
    nearest even, [as i32] truncates and saturates, [to_bits] and [from_bits]
    are the binary64 interchange format. *)

From Stdlib Require Import Floats.SpecFloat.
From S2P Require Import Prelude InputEvent Geometry.
#[local] Open Scope Z_scope.

(** * Conversions *)

(** [z as f64]. *)
Definition of_Z (z : Z) : double := binary_normalize 53 1024 z 0 false.
Definition f64_opp (x : double) : double := SFopp x.
Definition f64_div : double → double → double := SFdiv 53 1024.

(** The integer part towards zero, of a finite double. *)
Definition trunc (m : positive) (e : Z) : Z := Z.shiftl (Z.pos m) e.
Definition saturate (lo hi z : Z) : Z := Z.max lo (Z.min hi z).
(** [x as iw]: NaN gives 0, what is out of range the nearest bound. *)
Definition as_signed (w : Z) (x : double) : Z :=
  let lo := - 2 ^ (w - 1) in
  let hi := 2 ^ (w - 1) - 1 in
  match x with
  | S754_nan => 0
  | S754_zero _ => 0
  | S754_infinity s => if s : bool then lo else hi
  | S754_finite s m e => saturate lo hi (cond_Zopp s (trunc m e))
  end.
(** [x as uw]. *)
Definition as_unsigned (w : Z) (x : double) : Z :=
  match x with
  | S754_nan | S754_zero _ => 0
  | S754_infinity s => if s : bool then 0 else 2 ^ w - 1
  | S754_finite s m e => saturate 0 (2 ^ w - 1) (cond_Zopp s (trunc m e))
  end.

Definition sign_bit (s : bool) : Z := if s then 2 ^ 63 else 0.
(** [f64::to_bits], with the quiet NaN for every NaN. *)
Definition to_bits (x : double) : Z :=
  match x with
  | S754_zero s => sign_bit s
  | S754_infinity s => sign_bit s + 2047 * 2 ^ 52
  | S754_nan => 2047 * 2 ^ 52 + 2 ^ 51
  | S754_finite s m e =>
      if Z.pos m <? 2 ^ 52 then sign_bit s + Z.pos m
      else sign_bit s + (e + 1075) * 2 ^ 52 + (Z.pos m - 2 ^ 52)
  end.
(** [f64::from_bits]. *)
Definition from_bits (b : Z) : double :=
  let s := Z.testbit b 63 in
  let ex := (b / 2 ^ 52) mod 2 ^ 11 in
  let m := b mod 2 ^ 52 in
  if ex =? 2047 then (if m =? 0 then S754_infinity s else S754_nan)
  else if ex =? 0 then (match m with Z.pos p => S754_finite s p (-1074) | _ => S754_zero s end)
  else match m + 2 ^ 52 with Z.pos p => S754_finite s p (ex - 1075) | _ => S754_nan end.

(** The values of an event are the bits of doubles. *)
Definition double_of (x : f64) : double := from_bits (f64_bits x).
Definition f64_of (x : double) : f64 := F64 (to_bits x).

Definition valid (x : double) : Prop := valid_binary 53 1024 x = true.

(** * Bits *)

Lemma digits_le p n : 0 ≤ n → Z.pos (digits2_pos p) ≤ n ↔ Z.pos p < 2 ^ n.
Proof.
  revert n. induction p as [p IH|p IH|]; intros n Hn; cbn [digits2_pos].
  - rewrite Pos2Z.inj_succ. destruct (decide (n = 0)) as [->|Hz]; [split; [lia|cbn; lia]|].
    replace n with (Z.succ (n - 1)) at 2 by lia. rewrite Z.pow_succ_r by lia. specialize (IH (n - 1)). lia.
  - rewrite Pos2Z.inj_succ. destruct (decide (n = 0)) as [->|Hz]; [split; [lia|cbn; lia]|].
    replace n with (Z.succ (n - 1)) at 2 by lia. rewrite Z.pow_succ_r by lia. specialize (IH (n - 1)). lia.
  - destruct (decide (n = 0)) as [->|Hz]; [split; [lia|cbn; lia]|].
    assert (2 ^ 1 ≤ 2 ^ n) by (apply Z.pow_le_mono_r; lia). split; lia.
Qed.

(** A finite double is subnormal, or has 53 bits. *)
Lemma valid_finite s m e :
  valid (S754_finite s m e) →
  -1074 ≤ e ≤ 971 ∧ Z.pos m < 2 ^ 53 ∧ (Z.pos m < 2 ^ 52 → e = -1074).
Proof.
  unfold valid, valid_binary, bounded, canonical_mantissa, fexp, emin. intros [H1%Z.eqb_eq H2%Z.leb_le]%andb_true_iff.
  pose proof (digits_le m 53) as D1. pose proof (digits_le m 52) as D2. lia.
Qed.

Lemma sign_range s : 0 ≤ sign_bit s ≤ 2 ^ 63.
Proof. destruct s; cbn; lia. Qed.

Lemma bits_fields s ex m :
  0 ≤ ex < 2 ^ 11 → 0 ≤ m < 2 ^ 52 →
  let b := sign_bit s + ex * 2 ^ 52 + m in
  Z.testbit b 63 = s ∧ (b / 2 ^ 52) mod 2 ^ 11 = ex ∧ b mod 2 ^ 52 = m ∧ 0 ≤ b < 2 ^ 64.
Proof.
  intros Hex Hm b.
  assert (sign_bit s = Z.b2z s * 2 ^ 11 * 2 ^ 52) as E0 by (by destruct s).
  assert (b = m + (Z.b2z s * 2 ^ 11 + ex) * 2 ^ 52) as Eb by (unfold b; lia).
  assert (b mod 2 ^ 52 = m) as E1 by (rewrite Eb, Z_mod_plus_full; by apply Z.mod_small).
  assert (b / 2 ^ 52 = ex + Z.b2z s * 2 ^ 11) as E2.
  { rewrite Eb, Z_div_plus_full by lia. rewrite Z.div_small by lia. lia. }
  split_and!; [|rewrite E2, Z_mod_plus_full; by apply Z.mod_small|done|..].
  - rewrite Z.testbit_eqb by lia. replace (2 ^ 63) with (2 ^ 52 * 2 ^ 11) by done.
    rewrite <- Z.div_div by lia. rewrite E2, Z_div_plus_full, Z.div_small by lia. by destruct s.
  - destruct s; cbn [Z.b2z] in *; lia.
  - destruct s; cbn [Z.b2z] in *; lia.
Qed.

(** A double is what its bits say, and every pattern but the NaNs' is kept. *)
Lemma from_to_bits x : valid x → from_bits (to_bits x) = x.
Proof.
  intros Hv. unfold from_bits. destruct x as [s|s| |s m e]; cbn [to_bits].
  - destruct (bits_fields s 0 0) as (E1 & E2 & E3 & _); [lia..|]. rewrite Z.mul_0_l, !Z.add_0_r in *. by rewrite E1, E2, E3.
  - destruct (bits_fields s 2047 0) as (E1 & E2 & E3 & _); [lia..|]. rewrite Z.add_0_r in *. by rewrite E1, E2, E3.
  - done.
  - apply valid_finite in Hv as (He & Hm & Hsub). destruct (Z.ltb_spec (Z.pos m) (2 ^ 52)).
    + destruct (bits_fields s 0 (Z.pos m)) as (E1 & E2 & E3 & _); [lia..|]. rewrite Z.mul_0_l, Z.add_0_r in *.
      rewrite E1, E2, E3. cbn. by rewrite Hsub.
    + destruct (bits_fields s (e + 1075) (Z.pos m - 2 ^ 52)) as (E1 & E2 & E3 & _); [lia..|].
      rewrite E1, E2, E3. destruct (Z.eqb_spec (e + 1075) 2047); [lia|]. destruct (Z.eqb_spec (e + 1075) 0); [lia|].
      replace (Z.pos m - 2 ^ 52 + 2 ^ 52) with (Z.pos m) by lia. f_equal. lia.
Qed.

Lemma to_bits_range x : valid x → inU 64 (to_bits x).
Proof.
  unfold inU. intros Hv. destruct x as [s|s| |s m e]; cbn [to_bits]; [pose proof (sign_range s); lia..|lia|].
  apply valid_finite in Hv as (He & Hm & _). pose proof (sign_range s).
  destruct (Z.ltb_spec (Z.pos m) (2 ^ 52)); lia.
Qed.

(** * Integers of at most 53 bits are exact *)

Lemma digits_shift p k : digits2_pos (Pos.iter xO p k) = (digits2_pos p + k)%positive.
Proof.
  induction k as [|k IH] using Pos.peano_ind; [by rewrite Pos.add_1_r|].
  rewrite Pos.iter_succ. cbn [digits2_pos]. rewrite IH. lia.
Qed.
Lemma shift_value p k : Z.pos (Pos.iter xO p k) = Z.pos p * 2 ^ Z.pos k.
Proof.
  induction k as [|k IH] using Pos.peano_ind; [cbn; lia|].
  rewrite Pos.iter_succ, Pos2Z.inj_xO, IH, Pos2Z.inj_succ, Z.pow_succ_r by lia. lia.
Qed.

(** A mantissa of 53 bits is not rounded. *)
Lemma round_exact s m e :
  Z.pos (digits2_pos m) = 53 → -1074 ≤ e ≤ 971 →
  binary_round_aux 53 1024 s (Z.pos m) e loc_Exact = S754_finite s m e.
Proof.
  intros Hd He. unfold binary_round_aux.
  assert (shr_fexp 53 1024 (Z.pos m) e loc_Exact = (Build_shr_record (Z.pos m) false false, e)) as E.
  { unfold shr_fexp, Zdigits2, fexp, emin. rewrite Hd. replace (_ - e) with 0 by lia. done. }
  rewrite E. cbn [shr_m loc_of_shr_record round_nearest_even]. rewrite E. cbn [shr_m].
  destruct (Z.leb_spec e (1024 - 53)); [done|lia].
Qed.

Lemma of_Z_finite s p :
  Z.pos p < 2 ^ 53 →
  ∃ m k, of_Z (cond_Zopp s (Z.pos p)) = S754_finite s m (- k) ∧ 0 ≤ k ≤ 52 ∧ Z.pos m = Z.pos p * 2 ^ k ∧
    Z.pos (digits2_pos m) = 53.
Proof.
  intros Hp. assert (of_Z (cond_Zopp s (Z.pos p)) = binary_round 53 1024 s p 0) as -> by (by destruct s).
  unfold binary_round. apply digits_le in Hp; [|lia]. unfold fexp, emin.
  replace (Z.max _ _) with (Z.pos (digits2_pos p) - 53) by lia.
  unfold shl_align. rewrite Z.sub_0_r. destruct (Z.pos (digits2_pos p) - 53) as [|d|d] eqn:E; [|lia|].
  - exists p, 0. rewrite round_exact by lia. split_and!; [done|lia|lia|lia|lia].
  - exists (Pos.iter xO p d), (Z.pos d). rewrite round_exact; [|rewrite digits_shift; lia|lia].
    split_and!; [done|lia|lia|apply shift_value|rewrite digits_shift; lia].
Qed.

Lemma sign_split z : - 2 ^ 53 < z < 2 ^ 53 → z = 0 ∨ ∃ s p, z = cond_Zopp s (Z.pos p) ∧ Z.pos p < 2 ^ 53.
Proof. destruct z as [|p|p]; [by left|right; exists false, p|right; exists true, p]; (split; [done|lia]). Qed.

(** An integer of at most 53 bits comes back from a double, saturated. *)
Theorem as_of_Z w z : - 2 ^ 53 < z < 2 ^ 53 → 0 < w →
  as_signed w (of_Z z) = saturate (- 2 ^ (w - 1)) (2 ^ (w - 1) - 1) z.
Proof.
  intros Hz%sign_split Hw. destruct Hz as [->|(s & p & -> & Hp)].
  - cbn. unfold saturate. assert (0 < 2 ^ (w - 1)) by (apply Z.pow_pos_nonneg; lia). lia.
  - destruct (of_Z_finite s p Hp) as (m & k & -> & Hk & Hm & _). cbn [as_signed].
    do 2 f_equal. unfold trunc. by rewrite Z.shiftl_opp_r, Z.shiftr_div_pow2, Hm, Z.div_mul by lia.
Qed.

Lemma as_of_i32 z : inS 32 z → as_signed 32 (of_Z z) = z.
Proof. unfold inS. intros Hz. rewrite as_of_Z by lia. unfold saturate. lia. Qed.

Lemma of_Z_valid z : - 2 ^ 53 < z < 2 ^ 53 → valid (of_Z z).
Proof.
  intros [->|(s & p & -> & Hp)]%sign_split.
  - done.
  - destruct (of_Z_finite s p Hp) as (m & k & -> & Hk & _ & Hd).
    unfold valid, valid_binary, bounded, canonical_mantissa, fexp, emin. rewrite Hd. apply andb_true_iff.
    split; [apply Z.eqb_eq; lia|apply Z.leb_le; lia].
Qed.

(** Whatever the double, the cast is in range. *)
Lemma as_signed_range w x : 0 < w → inS w (as_signed w x).
Proof.
  intros Hw. unfold inS, as_signed, saturate. assert (0 < 2 ^ (w - 1)) by (apply Z.pow_pos_nonneg; lia).
  destruct x as [|[]| |]; lia.
Qed.

(** * Arithmetic on integers is exact *)

Lemma iter_pos_iter {A} (f : A → A) n x : SpecFloat.iter_pos f n x = Pos.iter f x n.
Proof.
  revert x. induction n as [n IH|n IH|]; intros x; cbn [SpecFloat.iter_pos]; [|by rewrite !IH|done].
  rewrite !IH. cbn. by rewrite !Pos.iter_swap.
Qed.

(** Zeroes are shifted out without a trace. *)
Lemma shr_zeroes m n :
  SpecFloat.iter_pos shr_1 n (Build_shr_record (Z.pos (Pos.iter xO m n)) false false) = Build_shr_record (Z.pos m) false false.
Proof.
  rewrite iter_pos_iter. revert m. induction n as [|n IH] using Pos.peano_ind; intros m; [done|].
  rewrite Pos.iter_succ_r, Pos.iter_succ. cbn [shr_1 orb]. apply IH.
Qed.

(** Scaling by a power of two does not change how an integer is rounded. *)
Lemma scaled s q p k :
  Z.pos q < 2 ^ 53 → 0 ≤ k ≤ 52 → Z.pos p = Z.pos q * 2 ^ k →
  binary_round 53 1024 s p (- k) = binary_round 53 1024 s q 0.
Proof.
  intros Hq Hk Hp. apply digits_le in Hq; [|lia].
  assert (Z.pos (digits2_pos p) = Z.pos (digits2_pos q) + k) as Hd.
  { destruct k as [|k|k]; [|assert (p = Pos.iter xO q k) as ->; [|rewrite digits_shift; lia]|lia].
    - rewrite Z.mul_1_r in Hp. injection Hp as ->. lia.
    - apply Pos2Z.inj. by rewrite shift_value. }
  set (d := Z.pos (digits2_pos q)) in *.
  unfold binary_round at 2. unfold fexp, emin. fold d. replace (Z.max _ _) with (d - 53) by lia.
  assert (∃ m, shl_align q 0 (d - 53) = (m, d - 53) ∧ Z.pos m = Z.pos q * 2 ^ (53 - d) ∧ Z.pos (digits2_pos m) = 53)
    as (m & -> & Hm & Hdm).
  { unfold shl_align. rewrite Z.sub_0_r. destruct (d - 53) as [|n|n] eqn:E; [|lia|].
    - exists q. split_and!; [done| |unfold d in *; lia]. replace (53 - d) with 0 by lia. lia.
    - exists (Pos.iter xO q n). split_and!; [done| |rewrite digits_shift; unfold d in *; lia].
      rewrite shift_value. do 2 f_equal. lia. }
  rewrite round_exact by lia.
  unfold binary_round, fexp, emin. rewrite Hd. replace (Z.max _ _) with (d - 53) by lia.
  unfold shl_align. destruct (d - 53 - - k) as [|n|n] eqn:E.
  - replace p with m; [rewrite round_exact by lia; f_equal; lia|]. apply Pos2Z.inj. rewrite Hm, Hp. do 2 f_equal. lia.
  - (* the zeroes are shifted out *)
    assert (p = Pos.iter xO m n) as ->.
    { apply Pos2Z.inj. rewrite shift_value, Hm, Hp, <- Z.mul_assoc, <- Z.pow_add_r by lia. do 2 f_equal. lia. }
    assert (shr_fexp 53 1024 (Z.pos m) (d - 53) loc_Exact = (Build_shr_record (Z.pos m) false false, d - 53)) as E2.
    { unfold shr_fexp, Zdigits2, fexp, emin. rewrite Hdm. replace (_ - (d - 53)) with 0 by lia. done. }
    assert (shr_fexp 53 1024 (Z.pos (Pos.iter xO m n)) (- k) loc_Exact = (Build_shr_record (Z.pos m) false false, d - 53)) as E1.
    { unfold shr_fexp, Zdigits2, fexp, emin. rewrite Hd. replace (_ - - k) with (Z.pos n) by lia.
      unfold shr, shr_record_of_loc. rewrite shr_zeroes. f_equal. lia. }
    unfold binary_round_aux. rewrite E1. cbn [shr_m loc_of_shr_record round_nearest_even]. rewrite E2. cbn [shr_m].
    destruct (Z.leb_spec (d - 53) (1024 - 53)); [done|lia].
  - replace (Pos.iter xO p n) with m; [rewrite round_exact by lia; done|].
    apply Pos2Z.inj. rewrite shift_value, Hm, Hp, <- Z.mul_assoc, <- Z.pow_add_r by lia. do 2 f_equal. lia.
Qed.

Lemma align s m k K q :
  Z.pos m = Z.pos q * 2 ^ k → 0 ≤ k ≤ K → cond_Zopp s (Z.pos (fst (shl_align m (- k) (- K)))) = cond_Zopp s (Z.pos q) * 2 ^ K.
Proof.
  intros Hm Hk. assert (Z.pos (fst (shl_align m (- k) (- K))) = Z.pos q * 2 ^ K) as ->; [|destruct s; cbn [cond_Zopp]; lia].
  unfold shl_align. destruct (- K - - k) as [|n|n] eqn:E; [|lia|]; cbn [fst].
  - rewrite Hm. do 2 f_equal. lia.
  - rewrite shift_value, Hm, <- Z.mul_assoc, <- Z.pow_add_r by lia. do 2 f_equal. lia.
Qed.

Lemma normalize_scaled z K :
  - 2 ^ 53 < z < 2 ^ 53 → 0 ≤ K ≤ 52 → binary_normalize 53 1024 (z * 2 ^ K) (- K) false = of_Z z.
Proof.
  intros Hz HK. assert (0 < 2 ^ K) by (apply Z.pow_pos_nonneg; lia). unfold of_Z. destruct z as [|q|q].
  - by rewrite Z.mul_0_l.
  - destruct (Z.pos q * 2 ^ K) as [|p|p] eqn:E; [lia| |lia]. cbn [binary_normalize]. apply scaled; lia.
  - destruct (Z.neg q * 2 ^ K) as [|p|p] eqn:E; [lia|lia|]. cbn [binary_normalize]. apply scaled; lia.
Qed.

Lemma split_pos z : z = 0 ∨ ∃ s p, z = cond_Zopp s (Z.pos p).
Proof. destruct z as [|p|p]; [by left|right; by exists false, p|right; by exists true, p]. Qed.

Lemma round_opp s p e : binary_round 53 1024 (negb s) p e = SFopp (binary_round 53 1024 s p e).
Proof.
  unfold binary_round, binary_round_aux. destruct (shl_align _ _ _) as [mz ez].
  destruct (shr_fexp _ _ (Z.pos mz) _ _) as [mrs e1]. destruct (shr_fexp _ _ _ e1 _) as [mrs' e2].
  destruct (shr_m mrs'); [done| |done]. by destruct (e2 <=? 1024 - 53).
Qed.
Lemma of_Z_opp z : z ≠ 0 → of_Z (- z) = SFopp (of_Z z).
Proof. destruct z as [|p|p]; intros Hz; [done|apply (round_opp false)|apply (round_opp true)]. Qed.

(** The difference and the sum of two integers, when everything has at most 53
    bits. *)
Lemma sub_exact a b :
  - 2 ^ 53 < a < 2 ^ 53 → - 2 ^ 53 < b < 2 ^ 53 → - 2 ^ 53 < a - b < 2 ^ 53 → f64_sub (of_Z a) (of_Z b) = of_Z (a - b).
Proof.
  intros Ha Hb Hab.
  destruct (sign_split a Ha) as [->|(s & p & -> & Hp)], (sign_split b Hb) as [->|(t & q & -> & Hq)]; [done|..].
  - rewrite Z.sub_0_l, of_Z_opp by (by destruct t).
    destruct (of_Z_finite t q Hq) as (m & k & -> & _). done.
  - rewrite Z.sub_0_r. destruct (of_Z_finite s p Hp) as (m & k & -> & _). done.
  - destruct (of_Z_finite s p Hp) as (m & k & -> & Hk & Hm & _), (of_Z_finite t q Hq) as (n & l & -> & Hl & Hn & _).
    unfold f64_sub, SFsub. replace (Z.min (- k) (- l)) with (- Z.max k l) by lia.
    rewrite (align s m k (Z.max k l) p), (align t n l (Z.max k l) q) by (done || lia).
    rewrite <- Z.mul_sub_distr_r. apply normalize_scaled; [done|lia].
Qed.
Lemma add_exact a b :
  - 2 ^ 53 < a < 2 ^ 53 → - 2 ^ 53 < b < 2 ^ 53 → - 2 ^ 53 < a + b < 2 ^ 53 → f64_add (of_Z a) (of_Z b) = of_Z (a + b).
Proof.
  intros Ha Hb Hab.
  destruct (sign_split a Ha) as [->|(s & p & -> & Hp)], (sign_split b Hb) as [->|(t & q & -> & Hq)]; [done|..].
  - rewrite Z.add_0_l. destruct (of_Z_finite t q Hq) as (m & k & -> & _). done.
  - rewrite Z.add_0_r. destruct (of_Z_finite s p Hp) as (m & k & -> & _). done.
  - destruct (of_Z_finite s p Hp) as (m & k & -> & Hk & Hm & _), (of_Z_finite t q Hq) as (n & l & -> & Hl & Hn & _).
    unfold f64_add, SFadd. replace (Z.min (- k) (- l)) with (- Z.max k l) by lia.
    rewrite (align s m k (Z.max k l) p), (align t n l (Z.max k l) q) by (done || lia).
    rewrite <- Z.mul_add_distr_r. apply normalize_scaled; [done|lia].
Qed.

(** Integers are ordered as their doubles. *)
Lemma compare_pos p q m n k l :
  Z.pos m = Z.pos p * 2 ^ k → Z.pos n = Z.pos q * 2 ^ l → 0 ≤ k → 0 ≤ l →
  Z.pos (digits2_pos m) = 53 → Z.pos (digits2_pos n) = 53 →
  match Z.compare (- k) (- l) with Eq => Pos.compare_cont Eq m n | c => c end = Pos.compare p q.
Proof.
  intros Hm Hn Hk Hl Dm Dn.
  assert (∀ x, Z.pos (digits2_pos x) = 53 → 2 ^ 52 ≤ Z.pos x < 2 ^ 53) as Hb.
  { intros x Hx. split; [|by apply digits_le; lia]. apply Z.nlt_ge. intros H. apply digits_le in H; lia. }
  pose proof (Hb m Dm) as Bm. pose proof (Hb n Dn) as Bn. change (Pos.compare p q) with (Z.compare (Z.pos p) (Z.pos q)).
  destruct (Z.compare_spec (- k) (- l)) as [E|E|E].
  - replace l with k in * by lia. change (Pos.compare_cont Eq m n) with (Z.compare (Z.pos m) (Z.pos n)).
    rewrite Hm, Hn. symmetry. apply Zmult_compare_compat_r. assert (0 < 2 ^ k) by (apply Z.pow_pos_nonneg; lia). lia.
  - symmetry. apply Z.compare_lt_iff.
    assert (2 ^ k = 2 * 2 ^ l * 2 ^ (k - l - 1)) as Ek by (rewrite <- Z.pow_succ_r, <- Z.pow_add_r by lia; f_equal; lia).
    assert (0 < 2 ^ l) by (apply Z.pow_pos_nonneg; lia). assert (0 < 2 ^ (k - l - 1)) by (apply Z.pow_pos_nonneg; lia). nia.
  - symmetry. apply Z.compare_gt_iff.
    assert (2 ^ l = 2 * 2 ^ k * 2 ^ (l - k - 1)) as Ek by (rewrite <- Z.pow_succ_r, <- Z.pow_add_r by lia; f_equal; lia).
    assert (0 < 2 ^ k) by (apply Z.pow_pos_nonneg; lia). assert (0 < 2 ^ (l - k - 1)) by (apply Z.pow_pos_nonneg; lia). nia.
Qed.

Lemma compare_exact a b :
  - 2 ^ 53 < a < 2 ^ 53 → - 2 ^ 53 < b < 2 ^ 53 → SFcompare (of_Z a) (of_Z b) = Some (a ?= b).
Proof.
  intros Ha Hb.
  destruct (sign_split a Ha) as [->|(s & p & -> & Hp)], (sign_split b Hb) as [->|(t & q & -> & Hq)]; [done|..].
  - destruct (of_Z_finite t q Hq) as (m & k & -> & _). by destruct t.
  - destruct (of_Z_finite s p Hp) as (m & k & -> & _). by destruct s.
  - destruct (of_Z_finite s p Hp) as (m & k & -> & Hk & Hm & Dm), (of_Z_finite t q Hq) as (n & l & -> & Hl & Hn & Dn).
    assert (0 ≤ k ∧ 0 ≤ l) as [Hk' Hl'] by lia. pose proof (compare_pos p q m n k l Hm Hn Hk' Hl' Dm Dn) as H.
    unfold SFcompare. destruct s, t; cbn [cond_Zopp]; [|done|done|].
    + f_equal. change (- Z.pos p ?= - Z.pos q) with (CompOpp (p ?= q)%positive). rewrite <- H. by destruct (- k ?= - l).
    + f_equal. change (Z.pos p ?= Z.pos q) with (p ?= q)%positive. rewrite <- H. by destruct (- k ?= - l).
Qed.
Lemma lt_exact a b : - 2 ^ 53 < a < 2 ^ 53 → - 2 ^ 53 < b < 2 ^ 53 → f64_lt (of_Z a) (of_Z b) = (a <? b).
Proof. intros Ha Hb. unfold f64_lt, SFltb. rewrite compare_exact by done. unfold Z.ltb. by destruct (a ?= b). Qed.
Lemma le_exact a b : - 2 ^ 53 < a < 2 ^ 53 → - 2 ^ 53 < b < 2 ^ 53 → f64_le (of_Z a) (of_Z b) = (a <=? b).
Proof. intros Ha Hb. unfold f64_le, SFleb. rewrite compare_exact by done. unfold Z.leb. by destruct (a ?= b). Qed.
