(* ===== verification/Monitors.v ===== *)
(** The lists of monitors of the capture backends: how macos.rs,
    windows/event_thread.rs, layer_shell.rs and libei.rs of input-capture turn
    what the operating system reports into [MonitorInfo]s with a stable id.
    What the system answers is data of the model; the calls are not modelled. *)

From Stdlib Require Import Strings.Ascii.
From stdpp Require Import pretty.
From S2P Require Import Prelude Text Geometry Net InputCapture Doubles.
#[local] Open Scope Z_scope.

Definition i32_of (x : double) : Z := as_signed 32 x.
Definition u32_of (x : double) : Z := as_unsigned 32 x.

(** [filter(|s| !s.is_empty())]. *)
Definition non_empty (s : option string) : option string :=
  match s with Some "" => None | _ => s end.
Definition position_label (kind : string) (p : Z * Z) : string :=
  kind +:+ " (" +:+ pretty (fst p) +:+ ", " +:+ pretty (snd p) +:+ ")".
(** [vec.iter().enumerate().map(f)]. *)
Definition enumerate {A B} (f : nat → A → B) (l : list A) : list B := imap f l.

(** * macOS *)

Module Mac.
(** [{:04x}]. *)
Definition hex04 (n : N) : string :=
  let h := Net.hex_go 8 n "" in
  String.string_of_list_ascii (replicate (4 - String.length h) "0"%char) +:+ h.
Definition build_stable_id (vendor product : N) (serial location : string) : string :=
  "macos:" +:+ hex04 vendor +:+ ":" +:+ hex04 product +:+ ":" +:+ serial +:+ ":" +:+ location.

Definition compute_scale (pixel_width point_width : double) : double :=
  if f64_lt f64_zero point_width && f64_lt f64_zero pixel_width then f64_div pixel_width point_width
  else f64_one.

Record DisplayInfo : Type := mkInfo {
  vendor : N; product : N; serial : string; location : string; name : option string
}.
Definition unknown (display_id : N) : DisplayInfo :=
  mkInfo 0 0 "" ("unknown-" +:+ pretty display_id) None.

(** What IOKit knows of a display: nothing when it cannot be reached; of the
    dictionary, the entries that are there with the right type. *)
Record Dictionary : Type := mkDict {
  dict_vendor : option Z; dict_product : option Z;
  dict_serial : option string; dict_location : option string; dict_name : option string
}.
Definition as_u32 (z : Z) : N := Z.to_N (wrapU 32 z).
Definition read_display_info (display_id : N) (dict : option Dictionary) : DisplayInfo :=
  match dict with
  | None => unknown display_id
  | Some d =>
      mkInfo (default 0%N (as_u32 <$> dict_vendor d)) (default 0%N (as_u32 <$> dict_product d))
        (default "0" (dict_serial d)) (default "Unknown" (dict_location d)) (dict_name d)
  end.

(** What Quartz and IOKit report of an active display. *)
Record Display : Type := mkDisplay {
  display_id : N;
  origin : point;
  dsize : point;
  mode_pixel_width : option Z;
  dictionary : option Dictionary
}.
Definition monitor_info (main : N) (d : Display) : MonitorInfo :=
  let info := read_display_info (display_id d) (dictionary d) in
  mkMonitor (build_stable_id (vendor info) (product info) (serial info) (location info))
    (default ("Display " +:+ pretty (display_id d)) (non_empty (name info)))
    (i32_of (fst (origin d)), i32_of (snd (origin d)))
    (u32_of (fst (dsize d)), u32_of (snd (dsize d)))
    (bool_decide (display_id d = main))
    (default f64_one ((λ w, compute_scale (of_Z w) (fst (dsize d))) <$> mode_pixel_width d)).
Definition enumerate_monitors_for_ids (main : N) (active : list Display) : list MonitorInfo :=
  monitor_info main <$> active.
(** [CGDisplay::active_displays] may fail. *)
Definition enumerate_monitors (main : N) (active : option (list Display)) : list MonitorInfo :=
  match active with Some a => enumerate_monitors_for_ids main a | None => [] end.

Definition build_display_bounds (monitors : list MonitorInfo) : list DisplayBound :=
  (λ m, mkBound (mkRect (of_Z (fst (mon_position m))) (of_Z (snd (mon_position m)))
                   (of_Z (fst (mon_size m))) (of_Z (snd (mon_size m)))) (Some (mon_id m))) <$> monitors.
End Mac.

(** * Windows *)

Module Win.
Record WinDisplayInfo : Type := mkWin {
  device_name : string; device_id : string; device_string : string;
  wposition : Z * Z; wsize : Z * Z; wprimary : bool; wscale : double
}.
Definition build_stable_id (device_id device_name : string) : string :=
  if decide (device_id ≠ "") then "windows:" +:+ device_id else "windows:unknown-" +:+ device_name.
Definition compute_scale (dm_log_pixels : Z) : double :=
  if dm_log_pixels =? 0 then f64_one else f64_div (of_Z dm_log_pixels) (of_Z 96).

(** [char::decode_utf16] with U+FFFD for what is not paired. *)
Definition high (u : Z) : bool := (0xD800 <=? u) && (u <=? 0xDBFF).
Definition low (u : Z) : bool := (0xDC00 <=? u) && (u <=? 0xDFFF).
Fixpoint decode_utf16 (us : list Z) : list Z :=
  match us with
  | [] => []
  | u :: rest =>
      if high u then
        match rest with
        | v :: rest' =>
            if low v then (0x10000 + (u - 0xD800) * 0x400 + (v - 0xDC00)) :: decode_utf16 rest'
            else 0xFFFD :: decode_utf16 rest
        | [] => [0xFFFD]
        end
      else if low u then 0xFFFD :: decode_utf16 rest
      else u :: decode_utf16 rest
  end.
(** A scalar value in UTF-8. *)
Definition utf8_char (c : Z) : string :=
  let t i := Z.to_N (0x80 + (c / 2 ^ (6 * i)) mod 0x40) in
  Net.utf8_of
    (if c <? 0x80 then [Z.to_N c]
     else if c <? 0x800 then [Z.to_N (0xC0 + c / 0x40); t 0]
     else if c <? 0x10000 then [Z.to_N (0xE0 + c / 0x1000); t 1; t 0]
     else [Z.to_N (0xF0 + c / 0x40000); t 2; t 1; t 0]).
Definition string_of_chars (cs : list Z) : string := foldr (λ c s, utf8_char c +:+ s) "" cs.
Fixpoint before_nul (buf : list Z) : list Z :=
  match buf with [] => [] | u :: rest => if u =? 0 then [] else u :: before_nul rest end.
Definition wide_string_to_string (buf : list Z) : string := string_of_chars (decode_utf16 (before_nul buf)).

(** What the system reports of an adapter; [mode] is absent when
    [EnumDisplaySettingsW] fails. *)
Record Mode : Type := mkMode { dm_position : Z * Z; dm_size : Z * Z; dm_log_pixels : Z }.
Record Device : Type := mkDevice {
  raw_name : list Z; raw_id : list Z; raw_string : list Z;
  attached : bool; primary_device : bool; mode : option Mode
}.
Definition enumerate_displays_inner (devices : list Device) : list WinDisplayInfo :=
  omap (λ d,
    if attached d then
      match mode d with
      | Some m =>
          Some (mkWin (wide_string_to_string (raw_name d)) (wide_string_to_string (raw_id d))
                  (wide_string_to_string (raw_string d)) (dm_position m) (dm_size m) (primary_device d)
                  (compute_scale (dm_log_pixels m)))
      | None => None
      end
    else None) devices.

(** [trim_start_matches] of a prefix: as often as it is there. *)
Fixpoint trim_start_matches (fuel : nat) (p s : string) : string :=
  match fuel with
  | O => s
  | S fuel => match Str.strip_prefix p s with Some s => trim_start_matches fuel p s | None => s end
  end.
Definition win_name (d : WinDisplayInfo) : string :=
  if decide (device_string d ≠ "") then device_string d
  else if decide (device_name d ≠ "") then
    "Display " +:+ trim_start_matches (String.length (device_name d)) "\\.\" (device_name d)
  else position_label "Display" (wposition d).
Definition build_monitor_info_list (ds : list WinDisplayInfo) : list MonitorInfo :=
  (λ d, mkMonitor (build_stable_id (device_id d) (device_name d)) (win_name d) (wposition d) (wsize d)
          (wprimary d) (wscale d)) <$> ds.
Definition enumerate_monitors (devices : list Device) : list MonitorInfo :=
  build_monitor_info_list (enumerate_displays_inner devices).
(** The list [update_display_regions] puts together. *)
Definition display_bounds (ds : list WinDisplayInfo) : list DisplayBound :=
  (λ d, mkBound (mkRect (of_Z (fst (wposition d))) (of_Z (snd (wposition d)))
                   (of_Z (fst (wsize d))) (of_Z (snd (wsize d))))
          (Some (build_stable_id (device_id d) (device_name d)))) <$> ds.
End Win.

(** * Wayland with layer-shell *)

Module Wl.
(** Of an output: the information that its last [Done] published. *)
Record OutputInfo : Type := mkOutInfo {
  description : string; oname : string; oposition : Z * Z; osize : Z * Z; oscale : Z
}.
Definition default_info : OutputInfo := mkOutInfo "" "" (0, 0) (0, 0) 0.
Record LayerShellOutputInfo : Type := mkLs { ls_info : OutputInfo; global_name : N }.

Definition build_stable_id (description name : string) (position : Z * Z) (global_name : N) : string :=
  if decide (description ≠ "") then "wl-output:" +:+ description
  else if decide (name ≠ "") then
    "wl-output:" +:+ name +:+ "@" +:+ pretty (fst position) +:+ "," +:+ pretty (snd position)
  else "wl-output:unknown-" +:+ pretty global_name.
Definition compute_scale (scale : Z) : double := if 0 <? scale then of_Z scale else f64_one.
Definition pick_primary (l : list LayerShellOutputInfo) : nat :=
  default 0%nat (position (λ i, bool_decide (oposition (ls_info i) = (0, 0))) l).
Definition wl_name (i : OutputInfo) : string :=
  if decide (description i ≠ "") then description i
  else if decide (oname i ≠ "") then oname i
  else position_label "Output" (oposition i).
Definition build_monitor_info_list (l : list LayerShellOutputInfo) : list MonitorInfo :=
  match l with
  | [] => []
  | _ =>
      let primary_idx := pick_primary l in
      enumerate (λ idx i,
        let info := ls_info i in
        mkMonitor (build_stable_id (description info) (oname info) (oposition info) (global_name i))
          (wl_name info) (oposition info)
          (Z.max 0 (fst (osize info)), Z.max 0 (snd (osize info)))
          (bool_decide (idx = primary_idx)) (compute_scale (oscale info))) l
  end.
End Wl.

(** * The portal of libei *)

Module Ei.
Record LibeiZoneInfo : Type := mkZone { x_offset : Z; y_offset : Z; width : Z; height : Z; index : nat }.
(** A region of the portal: width, height and offsets. *)
Definition from_region (index : nat) (r : Z * Z * Z * Z) : LibeiZoneInfo :=
  let '(w, h, x, y) := r in mkZone x y w h index.
Definition build_stable_id (i : LibeiZoneInfo) : string :=
  let at_ := pretty (x_offset i) +:+ "," +:+ pretty (y_offset i) in
  if (0 <? width i) && (0 <? height i) then "libei-zone:" +:+ at_
  else "libei-zone:unknown-" +:+ pretty (N.of_nat (index i)) +:+ "-" +:+ at_.
Definition compute_scale : double := f64_one.
Definition pick_primary (l : list LibeiZoneInfo) : nat :=
  default 0%nat (position (λ z, (x_offset z =? 0) && (y_offset z =? 0)) l).
Definition build_monitor_info_list (zones : list LibeiZoneInfo) : list MonitorInfo :=
  match zones with
  | [] => []
  | _ =>
      let primary_idx := pick_primary zones in
      enumerate (λ idx z,
        mkMonitor (build_stable_id z) (position_label "Region" (x_offset z, y_offset z))
          (x_offset z, y_offset z) (width z, height z) (bool_decide (idx = primary_idx)) compute_scale) zones
  end.
Definition enumerate_zones (regions : list (Z * Z * Z * Z)) : list MonitorInfo :=
  build_monitor_info_list (enumerate from_region regions).
End Ei.

(** * Names and primaries *)

Definition named (l : list MonitorInfo) : Prop := Forall (λ m, mon_name m ≠ "" ∧ mon_id m ≠ "") l.
(** Exactly one monitor of the list is the primary one. *)
Definition one_primary (l : list MonitorInfo) : Prop :=
  ∃ i m, l !! i = Some m ∧ mon_primary m = true ∧
    ∀ j m', l !! j = Some m' → mon_primary m' = true → j = i.

Lemma enumerate_named {A} (f : nat → A → MonitorInfo) l :
  (∀ i x, mon_name (f i x) ≠ "" ∧ mon_id (f i x) ≠ "") → named (enumerate f l).
Proof.
  intros Hf. apply Forall_lookup. intros i m. unfold enumerate. rewrite list_lookup_imap.
  destruct (l !! i); [|done]. intros [= <-]. apply Hf.
Qed.
Lemma fmap_named {A} (f : A → MonitorInfo) l :
  (∀ x, mon_name (f x) ≠ "" ∧ mon_id (f x) ≠ "") → named (f <$> l).
Proof. intros Hf. apply Forall_fmap, Forall_true. done. Qed.

Lemma position_lt {A} (f : A → bool) l i : position f l = Some i → (i < length l)%nat.
Proof. intros H. apply position_lookup in H as (x & Hx & _). by eapply lookup_lt_Some. Qed.
Lemma first_or_zero {A} (f : A → bool) l : l ≠ [] → (default 0%nat (position f l) < length l)%nat.
Proof.
  intros Hl. destruct (position f l) eqn:E; cbn; [by eapply position_lt|]. destruct l; [done|cbn; lia].
Qed.
Lemma enumerate_primary {A} (f : nat → A → MonitorInfo) l n :
  (n < length l)%nat → (∀ i x, mon_primary (f i x) = bool_decide (i = n)) → one_primary (enumerate f l).
Proof.
  intros Hn Hf. destruct (lookup_lt_is_Some_2 l n Hn) as [x Hx]. exists n, (f n x). unfold enumerate.
  split_and!; [by rewrite list_lookup_imap, Hx|rewrite Hf; by apply bool_decide_eq_true|].
  intros j m'. rewrite list_lookup_imap. destruct (l !! j); [|done]. intros [= <-]. rewrite Hf. by intros ?%bool_decide_eq_true.
Qed.

Lemma cons_app_nonempty c s t : String c s +:+ t ≠ "".
Proof. done. Qed.

(** C39. What the frontend and the barriers rely on: whatever the system reports,
    no monitor of any backend has an empty name or an empty id, and a list of
    Wayland outputs or portal regions that is not empty has exactly one primary
    monitor. *)
Theorem lists_usable :
  (∀ main active, named (Mac.enumerate_monitors main active)) ∧
  (∀ devices, named (Win.enumerate_monitors devices)) ∧
  (∀ outputs, named (Wl.build_monitor_info_list outputs) ∧
     (outputs ≠ [] → one_primary (Wl.build_monitor_info_list outputs))) ∧
  (∀ regions, named (Ei.enumerate_zones regions) ∧ (regions ≠ [] → one_primary (Ei.enumerate_zones regions))).
Proof.
  split_and!.
  - intros main [active|]; [|by constructor]. apply fmap_named. intros d. split; [|done]. cbn.
    destruct (Mac.name _) as [[|c s]|]; done.
  - intros devices. apply fmap_named. intros d. cbn. split.
    + unfold Win.win_name. case_decide as Hs; [done|]. case_decide; done.
    + unfold Win.build_stable_id. case_decide; done.
  - intros outputs. destruct outputs as [|o os]; [by split; [constructor|]|]. split.
    + apply enumerate_named. intros i [info g]. cbn. split.
      * unfold Wl.wl_name. case_decide as Hd; [done|]. case_decide as Hn; done.
      * unfold Wl.build_stable_id. repeat case_decide; done.
    + intros _. eapply enumerate_primary; [by eapply (first_or_zero _ (o :: os))|done].
  - intros regions. unfold Ei.enumerate_zones, Ei.build_monitor_info_list.
    destruct (enumerate Ei.from_region regions) as [|z zs] eqn:E.
    + split; [constructor|]. intros Hr. destruct regions; done.
    + split; [|intros _; eapply enumerate_primary; [by eapply (first_or_zero _ (z :: zs))|done]].
      apply enumerate_named. intros i x. cbn. split; [done|]. unfold Ei.build_stable_id. case_match; done.
Qed.

(** * Stable ids *)

Lemma no_char_pretty_Z c (z : Z) : is_digit c = false → c ≠ "-"%char → Str.no_char c (pretty z).
Proof.
  intros Hd Hc. assert (∀ n : N, Str.no_char c (pretty n)) as Hn.
  { intros n. apply all_digits_no_char; [done|apply all_digits_pretty]. }
  destruct z as [|p|p].
  - apply (Hn 0%N).
  - apply (Hn (N.pos p)).
  - cbn. split; [done|]. apply (Hn (N.pos p)).
Qed.

Lemma split_at c a b a' b' :
  Str.no_char c a → Str.no_char c a' → a +:+ String c b = a' +:+ String c b' → a = a' ∧ b = b'.
Proof.
  intros Ha Ha' E. assert (Str.split_once c (a +:+ String c b) = Some (a', b')) as H by (rewrite E; by apply split_once_app).
  rewrite split_once_app in H by done. by injection H as -> ->.
Qed.

Lemma app_inj_str p a b : p +:+ a = p +:+ b → a = b.
Proof. induction p; cbn; [done|]. intros [= H]. auto. Qed.

Lemma at_inj (x y x' y' : Z) :
  pretty x +:+ "," +:+ pretty y = pretty x' +:+ "," +:+ pretty y' → x = x' ∧ y = y'.
Proof.
  intros E. apply (split_at ","%char) in E as [E1 E2]; [|by apply no_char_pretty_Z..].
  split; by eapply (inj pretty).
Qed.

Lemma pretty_Z_head (z : Z) s r : pretty z +:+ s ≠ String "u" r.
Proof.
  intros E. assert (Str.no_char "u" (pretty z)) as H by (by apply no_char_pretty_Z).
  destruct (pretty z) as [|c t] eqn:Ez.
  - destruct z as [|p|p]; [done| |done]. exfalso. exact (pretty_not_empty (N.pos p) Ez).
  - cbn in *. injection E as ->. by destruct H.
Qed.

Definition proper (z : Ei.LibeiZoneInfo) : Prop := 0 < Ei.width z ∧ 0 < Ei.height z.

Lemma zone_id_inj z z' :
  Ei.build_stable_id z = Ei.build_stable_id z' →
  (proper z ↔ proper z') ∧ (¬ proper z → Ei.index z = Ei.index z') ∧
  Ei.x_offset z = Ei.x_offset z' ∧ Ei.y_offset z = Ei.y_offset z'.
Proof.
  assert (∀ u, ((0 <? Ei.width u) && (0 <? Ei.height u)) = bool_decide (proper u)) as Hp.
  { intros u. apply Bool.eq_iff_eq_true. rewrite bool_decide_eq_true, andb_true_iff, !Z.ltb_lt. done. }
  unfold Ei.build_stable_id. rewrite !Hp. repeat case_bool_decide; intros E.
  - apply app_inj_str in E. apply at_inj in E as [-> ->]. naive_solver.
  - exfalso. change "libei-zone:unknown-" with ("libei-zone:" +:+ "unknown-") in E. rewrite app_assoc_str in E.
    apply app_inj_str in E. exact (pretty_Z_head _ _ _ E).
  - exfalso. change "libei-zone:unknown-" with ("libei-zone:" +:+ "unknown-") in E. rewrite app_assoc_str in E.
    apply app_inj_str in E. symmetry in E. exact (pretty_Z_head _ _ _ E).
  - apply app_inj_str in E.
    assert (∀ n : N, Str.no_char "-" (pretty n)) as Hn by (intros; apply all_digits_no_char; [done|apply all_digits_pretty]).
    apply (split_at "-"%char) in E as [E1 E2]; [|done..].
    apply (inj pretty) in E1. apply at_inj in E2. naive_solver lia.
Qed.

(** The regions of the portal have different ids as long as those that have
    an area lie at different places: the degenerate ones are told apart by
    their number. *)
Theorem zone_ids_distinct regions :
  (∀ i j r r', regions !! i = Some r → regions !! j = Some r' → i ≠ j →
     proper (Ei.from_region i r) → proper (Ei.from_region j r') →
     (Ei.x_offset (Ei.from_region i r), Ei.y_offset (Ei.from_region i r)) ≠
     (Ei.x_offset (Ei.from_region j r'), Ei.y_offset (Ei.from_region j r'))) →
  NoDup (mon_id <$> Ei.enumerate_zones regions).
Proof.
  intros Hd. apply NoDup_alt. intros i j s. unfold Ei.enumerate_zones.
  assert (∀ k, (mon_id <$> Ei.build_monitor_info_list (enumerate Ei.from_region regions)) !! k =
    (λ r, Ei.build_stable_id (Ei.from_region k r)) <$> regions !! k) as Hl.
  { intros k. assert (∀ zs, mon_id <$> Ei.build_monitor_info_list zs = Ei.build_stable_id <$> zs) as ->.
    { intros [|z zs]; [done|]. unfold Ei.build_monitor_info_list, enumerate. rewrite fmap_imap. apply list_eq. intros i'.
      rewrite list_lookup_imap, list_lookup_fmap. by destruct ((z :: zs) !! i'). }
    unfold enumerate. rewrite list_lookup_fmap, list_lookup_imap. by destruct (regions !! k). }
  rewrite !Hl. destruct (regions !! i) as [r|] eqn:Ei; [|done]. destruct (regions !! j) as [r'|] eqn:Ej; [|done].
  intros [= E1] [= E2]. destruct (decide (i = j)) as [|Hij]; [done|]. exfalso.
  assert (∀ k q, Ei.index (Ei.from_region k q) = k) as Hix by (by intros k [[[]]]).
  destruct (zone_id_inj (Ei.from_region i r) (Ei.from_region j r')) as (Hpp & Hnp & Hx & Hy); [congruence|].
  destruct (decide (proper (Ei.from_region i r))) as [Hp|Hp].
  - apply (Hd i j r r'); [done..|by apply Hpp|]. by rewrite Hx, Hy.
  - apply Hij. rewrite <- (Hix i r), <- (Hix j r'). by apply Hnp.
Qed.
Lemma zone_ids_distinct_witness : NoDup (mon_id <$> Ei.enumerate_zones [(1920, 1080, 0, 0); (1920, 1080, 1920, 0); (0, 0, 0, 0); (0, 0, 0, 0)]).
Proof.
  apply (zone_ids_distinct [(1920, 1080, 0, 0); (1920, 1080, 1920, 0); (0, 0, 0, 0); (0, 0, 0, 0)]).
  intros [|[|[|[|i]]]] [|[|[|[|j]]]] r r' Hi Hj Hij [Hw Hh] [Hw' Hh']; cbn in Hi, Hj; simplify_eq; cbn in *; try lia; congruence.
Defined.

(** Two outputs with one description have one id, wherever they are: a key for
    the one monitor is a key for the other. *)
Lemma description_collides d n p g n' p' g' :
  d ≠ "" → Wl.build_stable_id d n p g = Wl.build_stable_id d n' p' g'.
Proof. intros Hd. unfold Wl.build_stable_id. by rewrite !decide_True. Qed.

(** ** The ids of macOS *)

Definition unhex (c : ascii) : N := let n := N_of_ascii c in if (n <? 58)%N then (n - 48)%N else (n - 87)%N.
Fixpoint hex_value (acc : N) (s : string) : N :=
  match s with "" => acc | String c s => hex_value (acc * 16 + unhex c) s end.

Lemma unhex_digit n : (n < 16)%N → unhex (Net.hex_digit n) = n ∧ Net.hex_digit n ≠ ":"%char.
Proof.
  intros Hn. assert (Forall (λ n, unhex (Net.hex_digit n) = n ∧ Net.hex_digit n ≠ ":"%char) (N.of_nat <$> seq 0 16)) as H.
  { repeat (constructor; [split; [vm_compute; reflexivity|vm_compute; discriminate]|]). constructor. }
  rewrite Forall_forall in H. apply H. apply list_elem_of_fmap. exists (N.to_nat n). split; [lia|]. apply elem_of_seq. lia.
Qed.

Lemma hex_go_value fuel n acc :
  (n < 16 ^ N.of_nat fuel)%N → ∀ v, ∃ w, hex_value v (Net.hex_go fuel n acc) = hex_value (v * w + n) acc.
Proof.
  revert n acc. induction fuel as [|fuel IH]; intros n acc Hn v; cbn [Net.hex_go].
  { exists 1%N. cbn in Hn. replace n with 0%N by lia. f_equal. lia. }
  rewrite Nat2N.inj_succ, N.pow_succ_r' in Hn.
  destruct (unhex_digit (n mod 16)) as [Hd _]; [apply N.mod_lt; lia|].
  destruct (N.ltb_spec n 16) as [H16|H16].
  - exists 16%N. cbn [hex_value]. rewrite Hd, N.mod_small by done. done.
  - destruct (IH (n / 16)%N (String (Net.hex_digit (n mod 16)) acc)) with (v := v) as [w ->].
    { apply N.Div0.div_lt_upper_bound. done. }
    exists (w * 16)%N. cbn [hex_value]. rewrite Hd. f_equal. pose proof (N.div_mod n 16). lia.
Qed.
Lemma hex_go_no_colon fuel n acc : Str.no_char ":" acc → Str.no_char ":" (Net.hex_go fuel n acc).
Proof.
  revert n acc. induction fuel as [|fuel IH]; intros n acc Ha; cbn [Net.hex_go]; [done|].
  assert (Str.no_char ":" (String (Net.hex_digit (n mod 16)) acc)) as H.
  { split; [|done]. destruct (unhex_digit (n mod 16)) as [_ Hd]; [apply N.mod_lt; lia|]. congruence. }
  case_match; [done|]. by apply IH.
Qed.

Lemma zeroes_value k s : hex_value 0 (String.string_of_list_ascii (replicate k "0"%char) +:+ s) = hex_value 0 s.
Proof. induction k; cbn; done. Qed.
Lemma zeroes_no_colon k : Str.no_char ":" (String.string_of_list_ascii (replicate k "0"%char)).
Proof. induction k; cbn; done. Qed.

Lemma hex04_inj m n : (m < 2 ^ 32)%N → (n < 2 ^ 32)%N → Mac.hex04 m = Mac.hex04 n → m = n.
Proof.
  intros Hm Hn E. apply (f_equal (hex_value 0)) in E. unfold Mac.hex04 in E. rewrite !zeroes_value in E.
  destruct (hex_go_value 8 m "") with (v := 0%N) as [w Ew]; [done|].
  destruct (hex_go_value 8 n "") with (v := 0%N) as [w' Ew']; [done|].
  rewrite Ew, Ew' in E. cbn in E. lia.
Qed.
Lemma hex04_no_colon n : Str.no_char ":" (Mac.hex04 n).
Proof. apply no_char_app. split; [apply zeroes_no_colon|]. by apply hex_go_no_colon. Qed.

(** The id of a display of macOS determines what IOKit says of it, as long as
    no serial number has a colon. *)
Lemma mac_id_inj v p s l v' p' s' l' :
  Str.no_char ":" s → Str.no_char ":" s' →
  (v < 2 ^ 32 ∧ p < 2 ^ 32 ∧ v' < 2 ^ 32 ∧ p' < 2 ^ 32)%N →
  Mac.build_stable_id v p s l = Mac.build_stable_id v' p' s' l' → v = v' ∧ p = p' ∧ s = s' ∧ l = l'.
Proof.
  intros Hs Hs' (Hv & Hp & Hv' & Hp') E. unfold Mac.build_stable_id in E. apply app_inj_str in E.
  apply (split_at ":"%char) in E as [E1 E]; [|apply hex04_no_colon..].
  apply (split_at ":"%char) in E as [E2 E]; [|apply hex04_no_colon..].
  apply (split_at ":"%char) in E as [E3 E4]; [|done..].
  split_and!; [by apply hex04_inj|by apply hex04_inj|done|done].
Qed.

(** Displays that IOKit does not know are told apart; two of the same model
    whose dictionaries have neither a serial number nor a location are not. *)
Lemma unknown_ids_differ main d d' :
  Mac.dictionary d = None → Mac.dictionary d' = None → Mac.display_id d ≠ Mac.display_id d' →
  mon_id (Mac.monitor_info main d) ≠ mon_id (Mac.monitor_info main d').
Proof.
  intros H H' Hd E. unfold Mac.monitor_info, Mac.read_display_info in E. rewrite H, H' in E. cbn in E.
  apply mac_id_inj in E as (_ & _ & _ & E); [|done..]. apply (app_inj_str "unknown-"), (inj pretty) in E. done.
Qed.
Lemma same_model_collides main d d' v p :
  Mac.dictionary d = Some (Mac.mkDict v p None None None) → Mac.dictionary d' = Some (Mac.mkDict v p None None None) →
  mon_id (Mac.monitor_info main d) = mon_id (Mac.monitor_info main d').
Proof. intros H H'. unfold Mac.monitor_info, Mac.read_display_info. by rewrite H, H'. Qed.

(** ** Wide strings *)

(** [str::encode_utf16]. *)
Definition units (c : Z) : list Z :=
  if c <? 0x10000 then [c] else [0xD800 + (c - 0x10000) / 0x400; 0xDC00 + (c - 0x10000) mod 0x400].
Definition encode_utf16 (cs : list Z) : list Z := concat (units <$> cs).
(** The values of a [char]. *)
Definition scalar (c : Z) : Prop := (0 ≤ c < 0xD800) ∨ (0xE000 ≤ c < 0x110000).

Lemma decode_units c rest : scalar c → Win.decode_utf16 (units c ++ rest) = c :: Win.decode_utf16 rest.
Proof.
  intros Hc. unfold units. destruct (Z.ltb_spec c 0x10000) as [H|H]; cbn [app Win.decode_utf16].
  - assert (Win.high c = false) as -> by (unfold Win.high, scalar in *; lia).
    by assert (Win.low c = false) as -> by (unfold Win.low, scalar in *; lia).
  - assert (0 ≤ (c - 0x10000) / 0x400 < 0x400).
    { unfold scalar in Hc. split; [apply Z.div_pos; lia|apply Z.div_lt_upper_bound; lia]. }
    pose proof (Z.mod_pos_bound (c - 0x10000) 0x400 eq_refl).
    assert (Win.high (0xD800 + (c - 0x10000) / 0x400) = true) as -> by (unfold Win.high; lia).
    assert (Win.low (0xDC00 + (c - 0x10000) mod 0x400) = true) as -> by (unfold Win.low; lia).
    f_equal. pose proof (Z.div_mod (c - 0x10000) 0x400). lia.
Qed.
Lemma before_nul_units us junk : Forall (λ u, u ≠ 0) us → Win.before_nul (us ++ 0 :: junk) = us.
Proof. induction 1 as [|u us Hu _ IH]; [done|]. cbn. destruct (Z.eqb_spec u 0); [done|]. by rewrite IH. Qed.

(** A text that the system hands over in UTF-16, ended by a NUL, is read as
    it is, whatever follows it in the buffer. *)
Theorem wide_roundtrip cs junk :
  Forall scalar cs → Forall (λ c, c ≠ 0) cs →
  Win.wide_string_to_string (encode_utf16 cs ++ 0 :: junk) = Win.string_of_chars cs.
Proof.
  intros Hs Hz. unfold Win.wide_string_to_string. rewrite before_nul_units.
  - f_equal. clear Hz. induction Hs as [|c cs Hc _ IH]; [done|]. unfold encode_utf16 in *. cbn [fmap list_fmap concat].
    rewrite decode_units by done. by rewrite IH.
  - unfold encode_utf16. induction Hz as [|c cs Hc _ IH]; [constructor|]. cbn [fmap list_fmap concat]. apply Forall_app.
    apply Forall_cons in Hs as [Hc' Hs]. split; [|by apply IH]. unfold units. case_match; [by constructor|].
    pose proof (Z.mod_pos_bound (c - 0x10000) 0x400 eq_refl). unfold scalar in Hc'.
    assert (0 ≤ (c - 0x10000) / 0x400) by (apply Z.div_pos; lia). constructor; [lia|]. constructor; [lia|constructor].
Qed.
(** Two ideographs, and a character beyond the basic plane. *)
Lemma wide_roundtrip_witness :
  Win.wide_string_to_string (encode_utf16 [0x6234; 0x5C14; 0x1F5B1] ++ [0; 7]) = Win.string_of_chars [0x6234; 0x5C14; 0x1F5B1].
Proof. apply (wide_roundtrip [0x6234; 0x5C14; 0x1F5B1] [7]); (repeat constructor; unfold scalar; lia). Defined.

(** The buffer of the test [wide_string_to_string_decodes_utf16_cjk] is not the
    text that the test expects. *)
Lemma cjk_test_fails :
  Win.wide_string_to_string [0x6C; 0x5C; 0x8033] ≠ Win.string_of_chars [0x6234; 0x5C14].
Proof. vm_compute. discriminate. Qed.
