(* ===== verification/Wide.v ===== *)
(** Text between UTF-8 and UTF-16, as the standard library of Rust converts it
    for Windows: [OsStr::encode_wide], [OsString::from_wide] and
    [String::from_utf16].  A string is its UTF-8 bytes, a wide text the list of
    its 16-bit units; an unpaired surrogate is kept as three bytes (WTF-8), which
    only a name of a file may have. *)

From Stdlib Require Import Strings.Ascii.
From S2P Require Import Prelude Text Net Monitors.
#[local] Open Scope Z_scope.

(** * Definitions *)

(** The code points of a text. *)
Fixpoint code_points (bs : list byte) : list Z :=
  match bs with
  | [] => []
  | b0 :: r0 =>
      let z0 := Z_of_byte b0 in
      if z0 <? 0x80 then z0 :: code_points r0
      else if z0 <? 0xE0 then
        match r0 with
        | b1 :: r1 => ((z0 - 0xC0) * 0x40 + (Z_of_byte b1 - 0x80)) :: code_points r1
        | [] => []
        end
      else if z0 <? 0xF0 then
        match r0 with
        | b1 :: b2 :: r2 => ((z0 - 0xE0) * 0x1000 + (Z_of_byte b1 - 0x80) * 0x40 + (Z_of_byte b2 - 0x80)) :: code_points r2
        | _ => []
        end
      else
        match r0 with
        | b1 :: b2 :: b3 :: r3 =>
            ((z0 - 0xF0) * 0x40000 + (Z_of_byte b1 - 0x80) * 0x1000 + (Z_of_byte b2 - 0x80) * 0x40 + (Z_of_byte b3 - 0x80))
              :: code_points r3
        | _ => []
        end
  end.
(** [OsStr::encode_wide]. *)
Definition encode_wide (s : string) : list Z := encode_utf16 (code_points (as_bytes s)).

(** The code points of a wide text; an unpaired surrogate stands for itself. *)
Fixpoint wide_chars (us : list Z) : list Z :=
  match us with
  | [] => []
  | u :: rest =>
      if Win.high u then
        match rest with
        | v :: rest' =>
            if Win.low v then (0x10000 + (u - 0xD800) * 0x400 + (v - 0xDC00)) :: wide_chars rest'
            else u :: wide_chars rest
        | [] => [u]
        end
      else u :: wide_chars rest
  end.
(** [OsString::from_wide]. *)
Definition from_wide (us : list Z) : string := Win.string_of_chars (wide_chars us).
(** [String::from_utf16]. *)
Definition from_utf16 (us : list Z) : option string :=
  if existsb (λ c, Win.high c || Win.low c) (wide_chars us) then None else Some (from_wide us).

(** A text without a NUL, which is what a wide text that ends at a NUL can hold. *)
Definition no_nul (s : string) : Prop := Forall (λ b, b ≠ x00) (as_bytes s).
#[export] Instance no_nul_dec s : Decision (no_nul s).
Proof. unfold no_nul. apply _. Defined.

(** * Conversions *)

Lemma bytes_app s t : as_bytes (s +:+ t) = as_bytes s ++ as_bytes t.
Proof. induction s as [|a s IH]; [done|]. rewrite app_cons. exact (f_equal (cons (byte_of_ascii a)) IH). Qed.

Lemma string_of_bytes (zs : list Z) :
  Forall (λ z, 0 ≤ z < 256) zs → as_bytes (Net.utf8_of (Z.to_N <$> zs)) = byte_of_Z <$> zs.
Proof.
  unfold Net.utf8_of, as_bytes. induction 1 as [|z zs Hz _ IH]; [done|]. cbn. f_equal; [|exact IH].
  clear -Hz. assert (∃ b, z = Z_of_byte b) as [b ->].
  { exists (byte_of_Z z). by rewrite Z_of_byte_of_Z, Z.mod_small. }
  rewrite byte_of_Z_of_byte. by destruct b.
Qed.

(** The bytes of one code point, by the number of bytes. *)
Lemma char_bytes c zs :
  (if c <? 0x80 then zs = [c]
   else if c <? 0x800 then zs = [0xC0 + c / 0x40; 0x80 + c mod 0x40]
   else if c <? 0x10000 then zs = [0xE0 + c / 0x1000; 0x80 + (c / 0x40) mod 0x40; 0x80 + c mod 0x40]
   else zs = [0xF0 + c / 0x40000; 0x80 + (c / 0x1000) mod 0x40; 0x80 + (c / 0x40) mod 0x40; 0x80 + c mod 0x40]) →
  0 ≤ c < 0x110000 → as_bytes (Win.utf8_char c) = byte_of_Z <$> zs.
Proof.
  intros Hz Hc. rewrite <- string_of_bytes.
  - unfold Win.utf8_char. change (2 ^ (6 * 0)) with 1. change (2 ^ (6 * 1)) with 0x40. change (2 ^ (6 * 2)) with 0x1000.
    rewrite Z.div_1_r. repeat case_match; by subst zs.
  - repeat case_match; subst zs; repeat constructor; Z.to_euclidean_division_equations; lia.
Qed.

(** The lead byte and the continuation bytes of a character. *)
Lemma cont_range b : is_cont b = true → 0x80 ≤ Z_of_byte b < 0xC0.
Proof. unfold is_cont. lia. Qed.
Lemma utf8_chars bs : utf8_valid bs = true →
  as_bytes (Win.string_of_chars (code_points bs)) = bs ∧ Forall scalar (code_points bs).
Proof.
  remember (length bs) as n eqn:Hn. revert bs Hn. induction (lt_wf n) as [n _ IH]. intros bs -> H.
  assert (∀ r c l, (length r < length bs)%nat → utf8_valid r = true → scalar c → as_bytes (Win.utf8_char c) = l → bs = l ++ r →
    code_points bs = c :: code_points r →
    as_bytes (Win.string_of_chars (code_points bs)) = bs ∧ Forall scalar (code_points bs)) as step.
  { intros r c l Hr Hv Hc Hl Eb ->. destruct (IH _ Hr r eq_refl Hv) as [E F]. split; [|by constructor].
    change (Win.string_of_chars (c :: code_points r)) with (Win.utf8_char c +:+ Win.string_of_chars (code_points r)).
    by rewrite bytes_app, Hl, E, Eb. }
  destruct bs as [|b0 r0]; [by split|]. cbn [utf8_valid code_points] in *.
  pose proof (Z_of_byte_bound b0) as B0.
  assert (∀ b, [b] = byte_of_Z <$> [Z_of_byte b]) as one by (intros b; cbn; by rewrite byte_of_Z_of_byte).
  destruct (Z_of_byte b0 <? 0x80) eqn:E0.
  { apply (step r0 (Z_of_byte b0) [b0]); [cbn; lia|done|unfold scalar; lia| |done|done].
    rewrite one. apply char_bytes; [by rewrite E0|lia]. }
  destruct ((0xC2 <=? Z_of_byte b0) && (Z_of_byte b0 <=? 0xDF)) eqn:E1.
  { destruct r0 as [|b1 r1]; [done|]. apply andb_true_iff in H as [H1 H]. apply cont_range in H1.
    assert ((Z_of_byte b0 <? 0xE0) = true) as E2 by lia. rewrite E2 in *.
    set (c := _ + _) in *. apply (step r1 c [b0; b1]); [cbn; lia|done|unfold scalar; lia| |done|done].
    etransitivity; [apply (char_bytes c [Z_of_byte b0; Z_of_byte b1])|cbn; by rewrite !byte_of_Z_of_byte]; [|lia].
    assert ((c <? 0x80) = false) as -> by lia. assert ((c <? 0x800) = true) as -> by lia.
    repeat f_equal; Z.to_euclidean_division_equations; lia. }
  destruct ((0xE0 <=? Z_of_byte b0) && (Z_of_byte b0 <=? 0xEF)) eqn:E2.
  { destruct r0 as [|b1 [|b2 r2]]; [done..|]. apply andb_true_iff in H as [[H1 H2]%andb_true_iff H].
    apply cont_range in H2. assert ((Z_of_byte b0 <? 0xE0) = false) as E3 by lia.
    assert ((Z_of_byte b0 <? 0xF0) = true) as E4 by lia. rewrite E3, E4 in *.
    assert (0x80 ≤ Z_of_byte b1 < 0xC0 ∧ (Z_of_byte b0 = 0xE0 → 0xA0 ≤ Z_of_byte b1) ∧ (Z_of_byte b0 = 0xED → Z_of_byte b1 ≤ 0x9F)) as (H1' & Hlo & Hhi).
    { clear -H1. unfold second3_ok, is_cont in H1. repeat case_match; lia. }
    set (c := _ + _ + _) in *. apply (step r2 c [b0; b1; b2]); [cbn; lia|done|unfold scalar; lia| |done|done].
    etransitivity; [apply (char_bytes c [Z_of_byte b0; Z_of_byte b1; Z_of_byte b2])|cbn; by rewrite !byte_of_Z_of_byte]; [|lia].
    assert ((c <? 0x80) = false) as -> by lia. assert ((c <? 0x800) = false) as -> by lia. assert ((c <? 0x10000) = true) as -> by lia.
    repeat f_equal; Z.to_euclidean_division_equations; lia. }
  destruct ((0xF0 <=? Z_of_byte b0) && (Z_of_byte b0 <=? 0xF4)) eqn:E3; [|done].
  destruct r0 as [|b1 [|b2 [|b3 r3]]]; [done..|].
  apply andb_true_iff in H as [[[H1 H2]%andb_true_iff H3]%andb_true_iff H].
  apply cont_range in H2, H3. assert ((Z_of_byte b0 <? 0xE0) = false) as E4 by lia.
  assert ((Z_of_byte b0 <? 0xF0) = false) as E5 by lia. rewrite E4, E5 in *.
  assert (0x80 ≤ Z_of_byte b1 < 0xC0 ∧ (Z_of_byte b0 = 0xF0 → 0x90 ≤ Z_of_byte b1) ∧ (Z_of_byte b0 = 0xF4 → Z_of_byte b1 ≤ 0x8F)) as (H1' & Hlo & Hhi).
  { clear -H1. unfold second4_ok, is_cont in H1. repeat case_match; lia. }
  set (c := _ + _ + _ + _) in *. apply (step r3 c [b0; b1; b2; b3]); [cbn; lia|done|unfold scalar; lia| |done|done].
  etransitivity; [apply (char_bytes c [Z_of_byte b0; Z_of_byte b1; Z_of_byte b2; Z_of_byte b3])|cbn; by rewrite !byte_of_Z_of_byte]; [|lia].
  assert ((c <? 0x80) = false) as -> by lia. assert ((c <? 0x800) = false) as -> by lia. assert ((c <? 0x10000) = false) as -> by lia.
  repeat f_equal; Z.to_euclidean_division_equations; lia.
Qed.

(** ** Units *)

Lemma wide_units c rest : scalar c → wide_chars (units c ++ rest) = c :: wide_chars rest.
Proof.
  intros Hc. unfold units. destruct (Z.ltb_spec c 0x10000) as [H|H]; cbn [app wide_chars].
  - by assert (Win.high c = false) as -> by (unfold Win.high, scalar in *; lia).
  - unfold scalar in Hc. assert (0 ≤ (c - 0x10000) / 0x400 < 0x400 ∧ 0 ≤ (c - 0x10000) mod 0x400 < 0x400) as [Hd Hm].
    { split; Z.to_euclidean_division_equations; lia. }
    assert (Win.high (0xD800 + (c - 0x10000) / 0x400) = true) as -> by (unfold Win.high; lia).
    assert (Win.low (0xDC00 + (c - 0x10000) mod 0x400) = true) as -> by (unfold Win.low; lia).
    f_equal. Z.to_euclidean_division_equations; lia.
Qed.
Lemma wide_utf16 cs : Forall scalar cs → wide_chars (encode_utf16 cs) = cs.
Proof.
  induction 1 as [|c cs Hc _ IH]; [done|]. unfold encode_utf16 in *. cbn [fmap list_fmap concat]. by rewrite wide_units, IH.
Qed.
Lemma units_range c : scalar c → Forall (λ u, 0 ≤ u < 2 ^ 16 ∧ (c ≠ 0 → u ≠ 0)) (units c).
Proof.
  intros Hc. unfold units, scalar in *. destruct (Z.ltb_spec c 0x10000); repeat constructor; Z.to_euclidean_division_equations; lia.
Qed.

(** A text is what is read of its units. *)
Lemma from_utf16_encode s : utf8_valid (as_bytes s) = true → from_utf16 (encode_wide s) = Some s.
Proof.
  intros [E F]%utf8_chars. unfold from_utf16, from_wide, encode_wide. rewrite wide_utf16 by done.
  assert (existsb (λ c, Win.high c || Win.low c) (code_points (as_bytes s)) = false) as ->.
  { apply not_true_is_false. intros (c & Hin & Hs)%existsb_exists.
    rewrite Forall_forall in F. specialize (F c (proj2 (list_elem_of_In _ _) Hin)).
    unfold scalar, Win.high, Win.low in *. lia. }
  f_equal. etransitivity; [symmetry; apply of_bytes_as_bytes|]. by rewrite E, of_bytes_as_bytes.
Qed.
Lemma from_wide_encode s : utf8_valid (as_bytes s) = true → from_wide (encode_wide s) = s.
Proof.
  intros H%from_utf16_encode. unfold from_utf16 in H. destruct (existsb _ _); [done|]. by injection H.
Qed.
(** Its units are 16 bits wide, and without a NUL none of them is zero. *)
Lemma no_nul_points bs : Forall (λ b, b ≠ x00) bs → utf8_valid bs = true → Forall (λ c, c ≠ 0) (code_points bs).
Proof.
  remember (length bs) as n eqn:Hn. revert bs Hn. induction (lt_wf n) as [n _ IH]. intros bs -> Hz H.
  destruct bs as [|b0 r0]; [constructor|]. apply Forall_cons in Hz as [Hb Hz]. cbn [utf8_valid code_points] in *.
  assert (∀ r, (length r < length (b0 :: r0))%nat → utf8_valid r = true → Forall (λ b, b ≠ x00) r → Forall (λ c, c ≠ 0) (code_points r)) as IH'
    by (intros r Hr ??; by apply (IH (length r))).
  destruct (Z_of_byte b0 <? 0x80) eqn:E0.
  { constructor; [|apply IH'; [cbn; lia|done|done]]. intros E. apply Hb. apply Z_of_byte_inj. by rewrite E. }
  destruct ((0xC2 <=? Z_of_byte b0) && (Z_of_byte b0 <=? 0xDF)) eqn:E1.
  { assert ((Z_of_byte b0 <? 0xE0) = true) as E2 by lia. rewrite E2.
    destruct r0 as [|b1 r1]; [done|]. apply andb_true_iff in H as [H1%cont_range H]. apply Forall_cons in Hz as [_ Hz].
    constructor; [lia|apply IH'; [cbn; lia|done|done]]. }
  assert ((Z_of_byte b0 <? 0xE0) = false ∨ (Z_of_byte b0 <? 0xC2) = true) as [E2|E2] by lia.
  2: { exfalso. destruct ((0xE0 <=? Z_of_byte b0) && (Z_of_byte b0 <=? 0xEF)) eqn:E3; [lia|].
       destruct ((0xF0 <=? Z_of_byte b0) && (Z_of_byte b0 <=? 0xF4)) eqn:E4; [lia|done]. }
  rewrite E2. destruct ((0xE0 <=? Z_of_byte b0) && (Z_of_byte b0 <=? 0xEF)) eqn:E3.
  { assert ((Z_of_byte b0 <? 0xF0) = true) as E4 by lia. rewrite E4.
    destruct r0 as [|b1 [|b2 r2]]; [done..|]. apply andb_true_iff in H as [[H1 H2%cont_range]%andb_true_iff H].
    do 2 apply Forall_cons in Hz as [_ Hz]. constructor; [|apply IH'; [cbn; lia|done|done]].
    unfold second3_ok, is_cont in H1. repeat case_match; lia. }
  destruct ((0xF0 <=? Z_of_byte b0) && (Z_of_byte b0 <=? 0xF4)) eqn:E4; [|done].
  assert ((Z_of_byte b0 <? 0xF0) = false) as E5 by lia. rewrite E5.
  destruct r0 as [|b1 [|b2 [|b3 r3]]]; [done..|].
  apply andb_true_iff in H as [[[H1 H2%cont_range]%andb_true_iff H3%cont_range]%andb_true_iff H].
  do 3 apply Forall_cons in Hz as [_ Hz]. constructor; [|apply IH'; [cbn; lia|done|done]].
  unfold second4_ok, is_cont in H1. repeat case_match; lia.
Qed.
Lemma encode_wide_units s : utf8_valid (as_bytes s) = true → no_nul s → Forall (λ u, 0 < u < 2 ^ 16) (encode_wide s).
Proof.
  intros Hv Hn. pose proof (no_nul_points _ Hn Hv) as Hz. apply utf8_chars in Hv as [_ F]. unfold encode_wide, encode_utf16.
  induction F as [|c cs Hc _ IH]; [constructor|]. apply Forall_cons in Hz as [Hc0 Hz]. cbn [fmap list_fmap concat].
  apply Forall_app. split; [|by apply IH]. eapply Forall_impl; [by apply units_range|]. cbn. naive_solver lia.
Qed.
Lemma encode_wide_nonempty s : utf8_valid (as_bytes s) = true → s ≠ "" → encode_wide s ≠ [].
Proof.
  intros Hv Hs E. apply Hs. rewrite <- (from_wide_encode s Hv), E. done.
Qed.

(** What follows a text does not change its code points. *)
Lemma code_points_app a b : utf8_valid a = true → code_points (a ++ b) = code_points a ++ code_points b.
Proof.
  remember (length a) as n eqn:Hn. revert a Hn. induction (lt_wf n) as [n _ IH]. intros a -> H.
  destruct a as [|b0 r0]; [done|].
  assert (∀ r, (length r < length (b0 :: r0))%nat → utf8_valid r = true → code_points (r ++ b) = code_points r ++ code_points b) as IH'
    by (intros r Hr ?; by apply (IH (length r))).
  cbn [app utf8_valid code_points] in *. destruct (Z_of_byte b0 <? 0x80) eqn:E0; [cbn [app]; f_equal; apply IH'; [cbn; lia|done]|].
  destruct ((0xC2 <=? Z_of_byte b0) && (Z_of_byte b0 <=? 0xDF)) eqn:E1.
  { assert ((Z_of_byte b0 <? 0xE0) = true) as -> by lia. destruct r0 as [|b1 r1]; [done|]. apply andb_true_iff in H as [_ H].
    cbn [app]. f_equal. apply IH'; [cbn; lia|done]. }
  destruct ((0xE0 <=? Z_of_byte b0) && (Z_of_byte b0 <=? 0xEF)) eqn:E2.
  { assert ((Z_of_byte b0 <? 0xE0) = false) as -> by lia. assert ((Z_of_byte b0 <? 0xF0) = true) as -> by lia.
    destruct r0 as [|b1 [|b2 r2]]; [done..|]. apply andb_true_iff in H as [_ H]. cbn [app]. f_equal. apply IH'; [cbn; lia|done]. }
  destruct ((0xF0 <=? Z_of_byte b0) && (Z_of_byte b0 <=? 0xF4)) eqn:E3; [|done].
  assert ((Z_of_byte b0 <? 0xE0) = false) as -> by lia. assert ((Z_of_byte b0 <? 0xF0) = false) as -> by lia.
  destruct r0 as [|b1 [|b2 [|b3 r3]]]; [done..|]. apply andb_true_iff in H as [_ H]. cbn [app]. f_equal. apply IH'; [cbn; lia|done].
Qed.
Lemma encode_wide_app s t : utf8_valid (as_bytes s) = true → encode_wide (s +:+ t) = encode_wide s ++ encode_wide t.
Proof.
  intros Hv. unfold encode_wide, encode_utf16. by rewrite bytes_app, code_points_app, fmap_app, concat_app.
Qed.

Example wide_text : encode_wide "aé→🎉" = [0x61; 0xE9; 0x2192; 0xD83C; 0xDF89].
Proof. vm_compute. reflexivity. Qed.
Example unpaired_surrogate : from_utf16 [0x61; 0xD83C] = None ∧ as_bytes (from_wide [0x61; 0xD83C]) = [x61; xed; xa0; xbc].
Proof. vm_compute. done. Qed.
