(* ===== verification/LinuxClipboard.v ===== *)
(** The clipboard of Linux (src/clipboard/linux.rs): [wl-copy] and [wl-paste] in a
    Wayland session, [xclip] otherwise.  The programs are the class [Processes];
    what they keep between two calls is the law [Selection].  The format of a
    list of files is Formats.v. *)

From S2P Require Import Prelude Text Clipboard ClipboardOs Formats.

(** * The backend *)

Inductive Tool : Type := WlPaste | Xclip.
Record LinuxClipboard (W : Type) : Type := mkLinux { tool : Tool; cached : option string; os : W }.
Arguments mkLinux {W}. Arguments tool {W}. Arguments cached {W}. Arguments os {W}.

Definition tool_binary_name (t : Tool) : string := match t with WlPaste => "wl-copy" | Xclip => "xclip" end.
Definition name (t : Tool) : string := match t with WlPaste => "linux-wl-paste" | Xclip => "linux-xclip" end.

(** The command lines: of a plain text, and of another type. *)
Definition paste_text (t : Tool) : list string :=
  match t with WlPaste => ["wl-paste"; "--no-newline"] | Xclip => ["xclip"; "-selection"; "clipboard"; "-o"] end.
Definition copy_text (t : Tool) : list string :=
  match t with WlPaste => ["wl-copy"] | Xclip => ["xclip"; "-selection"; "clipboard"; "-i"] end.
Definition paste_image (t : Tool) : list string :=
  match t with
  | WlPaste => ["wl-paste"; "--type"; "image/png"]
  | Xclip => ["xclip"; "-selection"; "clipboard"; "-t"; "image/png"; "-o"]
  end.
Definition copy_image (t : Tool) : list string :=
  match t with WlPaste => ["wl-copy"] | Xclip => ["xclip"; "-selection"; "clipboard"; "-t"; "image/png"; "-i"] end.
Definition paste_files (t : Tool) : list string :=
  match t with
  | WlPaste => ["wl-paste"; "--type"; "text/uri-list"]
  | Xclip => ["xclip"; "-selection"; "clipboard"; "-t"; "text/uri-list"; "-o"]
  end.
Definition copy_files (t : Tool) : list string :=
  match t with
  | WlPaste => ["wl-copy"; "--type"; "text/uri-list"]
  | Xclip => ["xclip"; "-selection"; "clipboard"; "-t"; "text/uri-list"; "-i"]
  end.

Section linux.
Context {W : Type} {P : Processes W} {I : ImageCrate}.
Abbreviation S := (LinuxClipboard W).
Abbreviation M A := (ST S ClipboardError A).

Definition set_os (w : W) (s : S) : S := mkLinux (tool s) (cached s) w.
Definition set_cached (text : string) (s : S) : S := mkLinux (tool s) (Some text) (os s).
(** A call of the system with the state of the backend around it. *)
Definition sys {A} (call : ST W ClipboardError A) : M A := λ s,
  let '(r, w) := call (os s) in (r, set_os w s).

(** ** Choosing the program *)

Definition probe (t : string) : W → bool * W := λ w,
  match run_status [t; "--version"] w with (inr st, w) => (success st, w) | (inl _, w) => (false, w) end.
(** [wayland]: whether the variable WAYLAND_DISPLAY is set. *)
Definition detect (wayland : bool) : W → option Tool * W := λ w,
  let '(wl, w) := if wayland then probe "wl-paste" w else (false, w) in
  if wl then (Some WlPaste, w)
  else
    let '(x, w) := probe "xclip" w in
    if x then (Some Xclip, w)
    else let '(_, w) := if wayland then probe "wl-copy" w else (false, w) in (None, w).
Definition new (wayland : bool) : W → outcome ClipboardError S * W := λ w,
  match detect wayland w with
  | (Some t, w) => (Ok (mkLinux t None w), w)
  | (None, w) => (Err (ToolMissing "neither wl-paste nor xclip found on PATH (install wl-clipboard for Wayland or xclip for X11)"), w)
  end.

(** ** Texts *)

Definition current_text : M (option string) :=
  t ← gets tool;
  out ← sys (printed (paste_text t));
  match out with
  | None => mret None
  | Some bytes =>
      match from_utf8 bytes with
      | None => mret None
      | Some text => modify_st (set_cached text) ;; mret (Some text)
      end
  end.
Definition set_text (text : string) : M unit :=
  t ← gets tool;
  sys (feed (copy_text t) (tool_binary_name t) (as_bytes text)) ;;
  modify_st (set_cached text).

(** ** Images *)

Definition current_image : M (option ImageBytes) :=
  t ← gets tool;
  out ← sys (printed (paste_image t));
  match out with
  | None | Some [] => mret None
  | Some bytes => mret (Some (mkImage (mime_str Png) bytes))
  end.
(** Whatever the type of the image is said to be, it is written as a PNG. *)
Definition set_image (bytes : list byte) (mime : Mime) : M unit :=
  t ← gets tool;
  sys (feed (copy_image t) (tool_binary_name t) bytes).
Definition dib_to_png_via_image_crate (dib_bytes : list byte) : outcome ClipboardError (list byte) :=
  reencode FPng "image::load_from_memory DIB" "image::write_to PNG (DIB→PNG)" dib_bytes.
Definition set_dib_image (bytes : list byte) : M unit :=
  png_bytes ← pure_call (dib_to_png_via_image_crate bytes);
  set_image png_bytes Png.

(** ** Files *)

Definition current_files : M (option (list string)) :=
  t ← gets tool;
  out ← sys (printed (paste_files t));
  match out with
  | None | Some [] => mret None
  | Some bytes => mret (Some (of_bytes <$> UriList.parse_uri_list bytes))
  end.
Definition set_files (files : list string) : M unit :=
  match files with
  | [] => mret tt
  | _ =>
      t ← gets tool;
      sys (feed (copy_files t) (tool_binary_name t) (UriList.build_uri_list (as_bytes <$> files)))
  end.

#[export] Instance Linux_backend : Backend S := {
  Clipboard.set_text text := succeeded (set_text text);
  Clipboard.set_image bytes mime := succeeded (set_image bytes mime);
  Clipboard.set_dib_image bytes := succeeded (set_dib_image bytes);
  Clipboard.set_files l := succeeded (set_files l);
  Clipboard.current_text := answered current_text;
  Clipboard.current_image := answered current_image;
  Clipboard.current_files := answered current_files
}.

(** * What the programs keep *)

(** What a successful [wl-copy] or [xclip -i] was given is what is pasted from
    then on, under the type it was given with, and nothing is offered under
    another type; pasting changes nothing.  [offers argv bytes w]: the selection
    holds [bytes], copied with the command line [argv].  What a paste without a
    type answers for a selection that has one is not said. *)
Class Selection : Type := {
  offers : list string → list byte → W → Prop;
  copied t copy bytes name w w' : copy ∈ [copy_text t; copy_image t; copy_files t] →
    feed copy name bytes w = (Ok tt, w') → offers copy bytes w';
  text_pasted t bytes w : offers (copy_text t) bytes w → utf8_valid bytes = true →
    ∃ w', printed (paste_text t) w = (Ok (Some bytes), w') ∧ offers (copy_text t) bytes w';
  files_pasted t bytes w : offers (copy_files t) bytes w →
    ∃ w', printed (paste_files t) w = (Ok (Some bytes), w') ∧ offers (copy_files t) bytes w';
  not_offered t paste bytes w : paste = paste_image t ∨ paste = paste_files t →
    offers (copy_text t) bytes w → utf8_valid bytes = true →
    ∃ w', printed paste w = (Ok None, w') ∧ offers (copy_text t) bytes w'
}.

(** ** Every call answers *)

Lemma sys_returns {A} (call : ST W ClipboardError A) s :
  returns (fst (call (os s))) → returns (fst (sys call s)).
Proof. unfold sys. by destruct (call (os s)). Qed.
Lemma bind_returns {A B} (m : M A) (f : A → M B) s :
  returns (fst (m s)) → (∀ a s', returns (fst (f a s'))) → returns (fst ((m ≫= f) s)).
Proof. intros Hm Hf. unfold mbind, ST_bind. destruct (m s) as [[] s']; [apply Hf|done..]. Qed.
Lemma printed_returns argv w : returns (fst (printed argv w)).
Proof. unfold printed. by destruct (output argv w) as [[]]. Qed.

(** Whatever the programs do, no call of the backend panics: a program that does
    not start, fails or prints no UTF-8 is an error of a setter, and nothing for a
    reader. *)
Theorem linux_total s :
  (∀ text, returns (fst (set_text text s))) ∧ (∀ bytes mime, returns (fst (set_image bytes mime s))) ∧
  (∀ bytes, returns (fst (set_dib_image bytes s))) ∧ (∀ files, returns (fst (set_files files s))) ∧
  (∃ r s', current_text s = (Ok r, s')) ∧ (∃ r s', current_image s = (Ok r, s')) ∧ (∃ r s', current_files s = (Ok r, s')).
Proof.
  assert (∀ bytes mime s, returns (fst (set_image bytes mime s))) as Hi.
  { intros. apply bind_returns; [done|]. intros. apply sys_returns, feed_outcome. }
  assert (∀ argv bytes t, returns (fst (sys (feed argv (tool_binary_name t) bytes) s))) as Hf
    by (intros; apply sys_returns, feed_outcome).
  split_and!.
  - intros text. unfold set_text, mbind, ST_bind, gets. specialize (Hf (copy_text (tool s)) (as_bytes text) (tool s)).
    by destruct (sys _ s) as [[] ?].
  - intros. apply Hi.
  - intros bytes. unfold set_dib_image, mbind, ST_bind, pure_call.
    pose proof (reencode_returns FPng "image::load_from_memory DIB" "image::write_to PNG (DIB→PNG)" bytes) as Hr.
    unfold dib_to_png_via_image_crate. destruct (reencode _ _ _ _); [apply Hi|done..].
  - intros [|f fs]; [done|]. apply Hf.
  - unfold current_text, mbind, ST_bind, gets, sys, printed. destruct (output _ _) as [[e|out] w]; [by eexists _, _|].
    destruct (success (status out)); [|by eexists _, _]. destruct (from_utf8 _); by eexists _, _.
  - unfold current_image, mbind, ST_bind, gets, sys, printed. destruct (output _ _) as [[e|out] w]; [by eexists _, _|].
    destruct (success (status out)); [|by eexists _, _]. destruct (stdout out); by eexists _, _.
  - unfold current_files, mbind, ST_bind, gets, sys, printed. destruct (output _ _) as [[e|out] w]; [by eexists _, _|].
    destruct (success (status out)); [|by eexists _, _]. destruct (stdout out); by eexists _, _.
Qed.

(** A setter that succeeds had its program take everything; the error of one that
    fails says which step did. *)
Lemma set_text_Ok text s s' : set_text text s = (Ok tt, s') ↔
  ∃ w, feed (copy_text (tool s)) (tool_binary_name (tool s)) (as_bytes text) (os s) = (Ok tt, w) ∧
    s' = mkLinux (tool s) (Some text) w.
Proof.
  unfold set_text, mbind, ST_bind, gets, sys. destruct (feed _ _ _ _) as [[[]|e| |] w]; [|naive_solver..].
  split; [intros [= <-]; by exists w|]. by intros (? & [= ->] & ->).
Qed.

(** ** Texts are kept *)

#[export] Instance Linux_texts `{!Selection} : TextLaws S.
Proof.
  refine (Build_TextLaws S _ (λ text _, utf8_valid (as_bytes text) = true)
    (λ text s, utf8_valid (as_bytes text) = true ∧ offers (copy_text (tool s)) (as_bytes text) (os s)) _ _).
  - intros text s s' Hv Hs. cbn in Hs. apply succeeded_true, set_text_Ok in Hs as (w & Hw & ->). split; [done|].
    cbn. eapply (copied (tool s)); [|done]. by left.
  - intros text s [Hv Ho]. split_and!.
    + destruct (text_pasted (tool s) _ _ Ho Hv) as (w' & Hp & Ho'). exists (set_cached text (set_os w' s)). split; [|done].
      apply answered_Ok. unfold current_text, mbind, ST_bind, gets, sys. rewrite Hp. unfold from_utf8. rewrite Hv.
      cbn. by rewrite of_bytes_as_bytes.
    + destruct (not_offered (tool s) (paste_image (tool s)) _ _ (or_introl eq_refl) Ho Hv) as (w' & Hp & Ho').
      exists (set_os w' s). split; [|done]. apply answered_Ok. unfold current_image, mbind, ST_bind, gets, sys. by rewrite Hp.
    + destruct (not_offered (tool s) (paste_files (tool s)) _ _ (or_intror eq_refl) Ho Hv) as (w' & Hp & Ho').
      exists (set_os w' s). split; [|done]. apply answered_Ok. unfold current_files, mbind, ST_bind, gets, sys. by rewrite Hp.
Defined.

(** ** Files are not *)

(** The files of a selection that was put on the clipboard are read back as
    other files: every absolute path becomes a relative one.  So the selection
    has another fingerprint than the one that was remembered when it was put
    there, and the first read of it takes it for a new one. *)
Theorem files_come_back_relative `{!Selection} files s s1 :
  files ≠ [] → Forall (λ f, UriList.plain (as_bytes f)) files → set_files files s = (Ok tt, s1) →
  ∃ s2, current_files s1 = (Ok (Some ((λ f, of_bytes (tail (as_bytes f))) <$> files)), s2).
Proof.
  intros Hne Hp Hs. set (payload := UriList.build_uri_list (as_bytes <$> files)) in *.
  assert (∃ w, feed (copy_files (tool s)) (tool_binary_name (tool s)) payload (os s) = (Ok tt, w) ∧ s1 = set_os w s) as (w & Hw & ->).
  { destruct files as [|f fs]; [done|]. unfold set_files, mbind, ST_bind, gets, sys in Hs. fold payload in Hs.
    destruct (feed _ _ _ _) as [r w]. injection Hs as -> <-. by exists w. }
  eapply (copied (tool s)) in Hw; [|by right; right; left].
  destruct (files_pasted _ _ _ Hw) as (w' & Hpr & _).
  unfold current_files, mbind, ST_bind, gets, sys. cbn [tool set_os os]. rewrite Hpr.
  assert (payload ≠ []) as Hpay by (by destruct files as [|f fs]).
  destruct payload as [|b p] eqn:Ep; [done|]. rewrite <- Ep. subst payload.
  rewrite UriList.root_lost by (by apply Forall_fmap). eexists. rewrite <- !list_fmap_compose. done.
Qed.

(** ** Bitmaps are refused *)

(** A bitmap of Windows is its header without the header of a file; it starts
    with the size of the header, 40, 108 or 124 in four bytes.  None of them is
    ever put on the clipboard of Linux: the library that is to convert it tells
    formats apart by their first bytes and refuses it, whatever comes after. *)
Theorem dib_never_lands `{!ImageLaws} size rest s :
  size ∈ [40; 108; 124]%Z →
  ∃ e, set_dib_image (Bmp.le_bytes 4 size ++ rest) s = (Err (Io ("image::load_from_memory DIB: " +:+ e)), s).
Proof.
  intros Hsize. assert (∃ b l, Bmp.le_bytes 4 size = b :: l ∧ b ∉ MAGIC_BYTES) as (b & l & -> & Hb).
  { rewrite !elem_of_cons, elem_of_nil in Hsize.
    destruct Hsize as [-> |[-> |[-> |[]]]]; eexists _, _; (split; [by vm_compute|]); unfold MAGIC_BYTES; set_solver. }
  destruct (load_unknown b (l ++ rest) Hb) as [e He]. exists e.
  unfold set_dib_image, mbind, ST_bind, pure_call, dib_to_png_via_image_crate, reencode. cbn [app]. by rewrite He.
Qed.
End linux.

(** * Programs that work *)

(** A selection with the kind of what it holds; [wl-copy] without a type looks at
    the contents. *)
Module Demo.
Inductive Kind : Type := KText | KImage | KFiles.
#[export] Instance Kind_eq_dec : EqDecision Kind.
Proof. solve_decision. Defined.
Record World : Type := mkWorld { selection : option (Kind * list byte); input : list byte }.
Definition copy_kind (argv : list string) (bytes : list byte) : option Kind :=
  if decide (argv = copy_text WlPaste) then Some (if utf8_valid bytes then KText else KImage)
  else if decide (argv = copy_text Xclip) then Some KText
  else if decide (argv = copy_image Xclip) then Some KImage
  else if decide (argv = copy_files WlPaste ∨ argv = copy_files Xclip) then Some KFiles
  else None.
Definition paste_kind (argv : list string) : option Kind :=
  if decide (argv = paste_text WlPaste ∨ argv = paste_text Xclip) then Some KText
  else if decide (argv = paste_image WlPaste ∨ argv = paste_image Xclip) then Some KImage
  else if decide (argv = paste_files WlPaste ∨ argv = paste_files Xclip) then Some KFiles
  else None.
Definition done_well : ExitStatus := mkExit true "exit status: 0".
Definition failed : ExitStatus := mkExit false "exit status: 1".
#[export] Instance programs : Processes World := {
  Child := list string;
  output argv w :=
    (inr match paste_kind argv, selection w with
         | Some k, Some (k', bytes) => if decide (k = k') then mkOutput done_well bytes else mkOutput failed []
         | _, _ => mkOutput failed []
         end, w);
  run_status argv w := (inr done_well, w);
  spawn argv w := (inr argv, w);
  write_all argv bytes w := (inr tt, mkWorld (selection w) bytes);
  close_stdin argv w := w;
  wait argv w :=
    match copy_kind argv (input w) with
    | Some k => (inr done_well, mkWorld (Some (k, input w)) [])
    | None => (inr failed, w)
    end
}.
(** A library that knows no format. *)
#[export] Instance no_images : ImageCrate := {
  DynamicImage := Empty_set; load_from_memory bytes := inl "unsupported"; write_to _ i := match i with end
}.
#[export] Instance no_image_laws : ImageLaws.
Proof. intros b bytes _. by exists "unsupported". Defined.

Lemma kind_text t bytes : utf8_valid bytes = true → copy_kind (copy_text t) bytes = Some KText.
Proof.
  intros Hv. destruct t; [|reflexivity].
  change (copy_kind _ _) with (Some (if utf8_valid bytes then KText else KImage)). by rewrite Hv.
Qed.
Lemma kind_files t bytes : copy_kind (copy_files t) bytes = Some KFiles.
Proof. by destruct t. Qed.
Lemma paste_kinds t :
  paste_kind (paste_text t) = Some KText ∧ paste_kind (paste_image t) = Some KImage ∧ paste_kind (paste_files t) = Some KFiles.
Proof. by destruct t. Qed.
Definition holds (argv : list string) (bytes : list byte) (w : World) : Prop :=
  ∃ k, copy_kind argv bytes = Some k ∧ selection w = Some (k, bytes).
#[export] Instance selections : Selection (W := World).
Proof.
  refine {| offers := holds |}.
  - intros t copy bytes name w w' _ (c & w1 & w2 & st & [= <- <-] & [= <-] & Hw & Hok)%feed_Ok. cbn in Hw.
    destruct (copy_kind copy bytes) as [k|] eqn:Ek; injection Hw as <- <-; [by exists k|done].
  - intros t bytes w (k & Hk & Hs) Hv. exists w. split; [|by exists k]. rewrite kind_text in Hk by done. injection Hk as <-.
    unfold printed. cbn [output programs]. destruct (paste_kinds t) as (-> & _ & _). by rewrite Hs.
  - intros t bytes w (k & Hk & Hs). exists w. split; [|by exists k]. rewrite kind_files in Hk. injection Hk as <-.
    unfold printed. cbn [output programs]. destruct (paste_kinds t) as (_ & _ & ->). by rewrite Hs.
  - intros t paste bytes w Hp (k & Hk & Hs) Hv. exists w. split; [|by exists k]. rewrite kind_text in Hk by done. injection Hk as <-.
    unfold printed. cbn [output programs]. destruct (paste_kinds t) as (_ & E1 & E2).
    destruct Hp as [-> | ->]; rewrite ?E1, ?E2, Hs; done.
Defined.
Definition start : LinuxClipboard World := mkLinux WlPaste None (mkWorld None []).
End Demo.
Import (hints) Demo.

Definition with_files : LinuxClipboard Demo.World := snd (set_files ["/tmp/a.bin"] Demo.start).
Lemma files_come_back_relative_witness :
  set_files ["/tmp/a.bin"] Demo.start = (Ok tt, with_files) ∧ ∃ s2, current_files with_files = (Ok (Some ["tmp/a.bin"]), s2).
Proof.
  assert (set_files ["/tmp/a.bin"] Demo.start = (Ok tt, with_files)) as Hs by (vm_compute; reflexivity).
  split; [exact Hs|]. apply (files_come_back_relative ["/tmp/a.bin"] Demo.start with_files); [done| |exact Hs].
  constructor; [|constructor]. split_and!; [reflexivity|reflexivity|vm_compute; repeat constructor; set_solver|].
  exists (as_bytes "/tmp/a.bi"), x6e. split; [reflexivity|]. by vm_compute.
Defined.
Lemma dib_never_lands_witness :
  ∃ e, set_dib_image (Bmp.le_bytes 4 124 ++ [x00]) Demo.start = (Err (Io ("image::load_from_memory DIB: " +:+ e)), Demo.start).
Proof. apply (dib_never_lands 124 [x00] Demo.start). set_solver. Defined.
(** In a Wayland session whose tools answer, they are taken. *)
Example new_wayland : fst (new true (Demo.mkWorld None [])) = Ok (mkLinux WlPaste None (Demo.mkWorld None [])).
Proof. reflexivity. Qed.
