(* ===== verification/MacPasteboard.v ===== *)
(** The clipboard of macOS (src/clipboard/macos.rs): texts through [pbcopy] and
    [pbpaste], images and files through the pasteboard of the system, with the
    last image kept as long as the pasteboard's change count stays the same.
    The pasteboard is a class, and other programs may use it between any two of
    its calls; the header put before a bitmap is Formats.v. *)

From S2P Require Import Prelude Text Clipboard ClipboardOs Formats.

(** * The pasteboard *)

Definition NS_PASTEBOARD_TYPE_PNG : string := "public.png".
Definition NS_PASTEBOARD_TYPE_TIFF : string := "public.tiff".
Definition NS_PASTEBOARD_TYPE_JPEG : string := "public.jpeg".
Definition NS_PASTEBOARD_TYPE_FILENAMES : string := "NSFilenamesPboardType".

(** The calls of [NSPasteboard] that the program makes, of [NSBitmapImageRep], and
    the pool of threads that encodes images: whether the task came back, after
    any time. *)
Class NSPasteboard (W : Type) : Type := {
  changeCount : W → Z * W;
  dataForType : string → W → option (list byte) * W;
  propertyListForType : string → W → option (list string) * W;
  clearContents : W → Z * W;
  setData_forType : list byte → string → W → bool * W;
  writeObjects : list string → W → bool * W;
  bitmap_to_png : list byte → W → (string + list byte) * W;
  spawn_blocking : W → bool * W
}.

(** * The backend *)

Record ImageCacheEntry : Type := mkEntry { change_count : Z; bytes : ImageBytes }.
Record MacOsPasteboard (W : Type) : Type := mkMac { cached : option string; image_cache : option ImageCacheEntry; os : W }.
Arguments mkMac {W}. Arguments cached {W}. Arguments image_cache {W}. Arguments os {W}.

Definition png_image (data : list byte) : ImageBytes := mkImage (mime_str Png) data.

Section mac.
Context {W : Type} {P : Processes W} {N : NSPasteboard W} {I : ImageCrate}.
Abbreviation S := (MacOsPasteboard W).
Abbreviation M A := (ST S ClipboardError A).

Definition set_os (w : W) (s : S) : S := mkMac (cached s) (image_cache s) w.
Definition set_cached (text : string) (s : S) : S := mkMac (Some text) (image_cache s) (os s).
Definition set_image_cache (e : option ImageCacheEntry) (s : S) : S := mkMac (cached s) e (os s).
Definition sys {A} (call : ST W ClipboardError A) : M A := λ s,
  let '(r, w) := call (os s) in (r, set_os w s).
(** A call of the pasteboard. *)
Definition pb {A} (call : W → A * W) : M A := on_os os set_os call.

Definition new : W → outcome ClipboardError S * W := λ w,
  match run_status ["pbpaste"; "--help"] w with
  | (inl e, w) => (Err (ToolMissing ("pbpaste: " +:+ e)), w)
  | (inr st, w) =>
      if success st then (Ok (mkMac None None w), w)
      else (Err (ToolFailed ("pbpaste --help exited " +:+ shown st)), w)
  end.

(** ** Texts *)

Definition current_text : M (option string) :=
  out ← sys (printed ["pbpaste"]);
  match out with
  | None => mret None
  | Some bytes =>
      match from_utf8 bytes with
      | None => mret None
      | Some text => modify_st (set_cached text) ;; mret (Some text)
      end
  end.
Definition set_text (text : string) : M unit :=
  sys (feed ["pbcopy"] "pbcopy" (as_bytes text)) ;;
  modify_st (set_cached text).

(** ** Images *)

Definition nonempty (data : option (list byte)) : option (list byte) :=
  match data with Some [] => None | _ => data end.
Definition read_pasteboard_bytes (type_str : string) : M (option (list byte)) :=
  data ← pb (dataForType type_str);
  mret (nonempty data).
Definition tiff_to_png_normalized (tiff : list byte) : outcome ClipboardError (list byte) :=
  reencode FPng "image::load_from_memory TIFF" "image::write_to PNG" tiff.
Definition jpeg_to_png_normalized (jpeg : list byte) : outcome ClipboardError (list byte) :=
  reencode FPng "image::load_from_memory JPEG" "image::write_to PNG" jpeg.

Definition read_image_bytes_from_pasteboard : M (option ImageBytes) :=
  png ← read_pasteboard_bytes NS_PASTEBOARD_TYPE_PNG;
  match png with
  | Some data => mret (Some (png_image data))
  | None =>
      jpeg ← read_pasteboard_bytes NS_PASTEBOARD_TYPE_JPEG;
      match jpeg_to_png_normalized <$> jpeg with
      | Some (Ok data) => mret (Some (png_image data))
      | _ =>
          tiff ← read_pasteboard_bytes NS_PASTEBOARD_TYPE_TIFF;
          match tiff_to_png_normalized <$> tiff with
          | Some (Ok data) => mret (Some (png_image data))
          | _ => mret None
          end
      end
  end.
(** The entry of the cache, when it is of this change count. *)
Definition cache_hit (count : Z) (e : option ImageCacheEntry) : option ImageBytes :=
  match e with Some e => if decide (change_count e = count) then Some (bytes e) else None | None => None end.
Definition keep_fresh (count : Z) (fresh : option ImageBytes) : M unit :=
  match fresh with Some i => modify_st (set_image_cache (Some (mkEntry count i))) | None => mret tt end.
Definition current_image : M (option ImageBytes) :=
  count ← pb changeCount;
  hit ← gets (λ s, cache_hit count (image_cache s));
  match hit with
  | Some i => mret (Some i)
  | None =>
      fresh ← read_image_bytes_from_pasteboard;
      keep_fresh count fresh ;;
      mret fresh
  end.

(** The task that encodes: all three types were read before it starts. *)
Definition encode_image (png jpeg tiff : option (list byte)) : option ImageBytes :=
  match png with
  | Some data => Some (png_image data)
  | None =>
      match jpeg_to_png_normalized <$> jpeg with
      | Some (Ok data) => Some (png_image data)
      | _ =>
          match tiff_to_png_normalized <$> tiff with
          | Some (Ok data) => Some (png_image data)
          | _ => None
          end
      end
  end.
Definition current_image_async : M (option ImageBytes) :=
  count ← pb changeCount;
  hit ← gets (λ s, cache_hit count (image_cache s));
  match hit with
  | Some i => mret (Some i)
  | None =>
      png ← read_pasteboard_bytes NS_PASTEBOARD_TYPE_PNG;
      jpeg ← read_pasteboard_bytes NS_PASTEBOARD_TYPE_JPEG;
      tiff ← read_pasteboard_bytes NS_PASTEBOARD_TYPE_TIFF;
      joined ← pb spawn_blocking;
      let fresh := if joined : bool then encode_image png jpeg tiff else None in
      keep_fresh count fresh ;;
      mret fresh
  end.

(** Whatever the type of the image is said to be, it is written as a PNG. *)
Definition write_png (what : string) (data : list byte) : M unit :=
  pb clearContents ;;
  ok ← pb (setData_forType data NS_PASTEBOARD_TYPE_PNG);
  modify_st (set_image_cache None) ;;
  if ok : bool then mret tt else raise (Io ("NSPasteboard::setData_forType(public.png) " +:+ what)).
Definition set_image (data : list byte) (mime : Mime) : M unit := write_png "returned false" data.

Definition bmp_error (e : Bmp.BmpError) : ClipboardError :=
  Io match e with
     | Bmp.TooShort _ => "prepend_bmp_file_header: DIB too short to contain biSize"
     | Bmp.NotADib _ => "prepend_bmp_file_header: DIB biSize is below the smallest recognised variant"
     | Bmp.ShorterThanHeader _ _ => "prepend_bmp_file_header: DIB shorter than biSize"
     | Bmp.Overflows _ => "prepend_bmp_file_header: DIB + header overflows u32"
     end.
Definition dib_to_png_via_image_crate (dib_bytes : list byte) : outcome ClipboardError (list byte) :=
  img_bytes ← (if decide (take 2 dib_bytes = BMP_MAGIC) then Ok dib_bytes
               else map_err bmp_error (Bmp.prepend_bmp_file_header dib_bytes));
  reencode FPng "image::load_from_memory DIB" "image::write_to PNG (DIB→PNG)" img_bytes.
(** What the system makes of the bitmap is only logged. *)
Definition dib_round_trip_via_nsimage (dib_bytes : list byte) : M (string + list byte) := pb (bitmap_to_png dib_bytes).
Definition set_dib_image (dib_bytes : list byte) : M unit :=
  dib_round_trip_via_nsimage dib_bytes ;;
  png_bytes ← pure_call (dib_to_png_via_image_crate dib_bytes);
  write_png "failed for DIB→PNG converted bytes" png_bytes.

(** ** Files *)

Definition current_files : M (option (list string)) :=
  plist ← pb (propertyListForType NS_PASTEBOARD_TYPE_FILENAMES);
  match plist with
  | None | Some [] => mret None
  | Some paths => mret (Some paths)
  end.
Definition set_files (files : list string) : M unit :=
  match files with
  | [] => mret tt
  | _ =>
      pb clearContents ;;
      ok ← pb (writeObjects ((λ f, from_utf8_lossy (as_bytes f)) <$> files));
      modify_st (set_image_cache None) ;;
      if ok : bool then mret tt else raise (Io "NSPasteboard::writeObjects returned false")
  end.

(** The task that polls reads images with [current_image_async]. *)
#[export] Instance Mac_backend : Backend S := {
  Clipboard.set_text text := succeeded (set_text text);
  Clipboard.set_image data mime := succeeded (set_image data mime);
  Clipboard.set_dib_image data := succeeded (set_dib_image data);
  Clipboard.set_files l := succeeded (set_files l);
  Clipboard.current_text := answered current_text;
  Clipboard.current_image := answered current_image_async;
  Clipboard.current_files := answered current_files
}.

(** * What the pasteboard promises *)

(** The count of changes and the contents, at an instant.  Other programs may act
    in every call; when they do not raise the count, they did not change anything. *)
Class PasteboardLaws : Type := {
  count : W → Z;
  contents : W → string → option (list byte);
  evolves (w w' : W) : Prop := (count w ≤ count w')%Z ∧ (count w' = count w → ∀ t, contents w' t = contents w t);
  changeCount_read w : fst (changeCount w) = count (snd (changeCount w)) ∧ evolves w (snd (changeCount w));
  data_read t w : fst (dataForType t w) = contents (snd (dataForType t w)) t ∧ evolves w (snd (dataForType t w));
  plist_evolves t w : evolves w (snd (propertyListForType t w));
  bitmap_evolves data w : evolves w (snd (bitmap_to_png data w));
  blocking_evolves w : evolves w (snd (spawn_blocking w));
  printed_evolves argv w : evolves w (snd (printed argv w));
  feed_evolves argv name data w : evolves w (snd (feed argv name data w))
}.

Section laws.
Context {L : PasteboardLaws}.

Lemma evolves_refl w : evolves w w.
Proof. by split. Qed.
Lemma evolves_trans w1 w2 w3 : evolves w1 w2 → evolves w2 w3 → evolves w1 w3.
Proof.
  intros [H1 D1] [H2 D2]. split; [lia|]. intros Hc t. rewrite D2, D1; [done|lia..].
Qed.

(** What a read of the contents makes of them. *)
Definition fresh_image (d : string → option (list byte)) : option ImageBytes :=
  encode_image (nonempty (d NS_PASTEBOARD_TYPE_PNG)) (nonempty (d NS_PASTEBOARD_TYPE_JPEG)) (nonempty (d NS_PASTEBOARD_TYPE_TIFF)).
(** The image that is kept is the one of the contents it was read of. *)
Definition coherent (s : S) : Prop :=
  match image_cache s with
  | None => True
  | Some e => (change_count e ≤ count (os s))%Z ∧
      (change_count e = count (os s) → fresh_image (contents (os s)) = Some (bytes e))
  end.

Lemma fresh_evolves w w' : evolves w w' → count w' = count w → fresh_image (contents w') = fresh_image (contents w).
Proof. intros [_ D] Hc. unfold fresh_image. by rewrite !D. Qed.
Lemma coherent_evolves w s : coherent s → evolves (os s) w → coherent (set_os w s).
Proof.
  unfold coherent. cbn. destruct (image_cache s) as [e|]; [|done]. intros [Hle He] Hev. pose proof Hev as [Hc _].
  split; [lia|]. intros Heq. rewrite (fresh_evolves _ _ Hev) by lia. apply He. lia.
Qed.

(** The reads of the three types between two instants: what they make of the
    contents when these did not change meanwhile. *)
Lemma read_bytes_spec t s : ∃ w, evolves (os s) w ∧
  read_pasteboard_bytes t s = (Ok (nonempty (contents w t)), set_os w s).
Proof.
  exists (snd (dataForType t (os s))). destruct (data_read t (os s)) as [Hd Hev]. split; [done|].
  unfold read_pasteboard_bytes, mbind, ST_bind, pb, on_os. destruct (dataForType t (os s)) as [d w]. cbn in *. by subst d.
Qed.
Lemma contents_at w0 w w' t : evolves w0 w → evolves w w' → count w' = count w0 → contents w t = contents w0 t.
Proof. intros [H1 D1] [H2 _] Hc. apply D1. lia. Qed.

Definition reads_fresh (w0 : W) (r : option ImageBytes) (w : W) : Prop :=
  evolves w0 w ∧ (count w = count w0 → r = fresh_image (contents w0)).

Lemma read_image_spec s : ∃ r w, read_image_bytes_from_pasteboard s = (Ok r, set_os w s) ∧ reads_fresh (os s) r w.
Proof.
  unfold read_image_bytes_from_pasteboard, mbind, ST_bind.
  destruct (read_bytes_spec NS_PASTEBOARD_TYPE_PNG s) as (w1 & E1 & ->).
  destruct (nonempty (contents w1 NS_PASTEBOARD_TYPE_PNG)) as [png|] eqn:Hpng.
  { eexists _, w1. split; [done|]. split; [done|]. intros Hc. unfold fresh_image, encode_image.
    rewrite <- (contents_at _ _ _ _ E1 (evolves_refl w1) Hc), Hpng. done. }
  destruct (read_bytes_spec NS_PASTEBOARD_TYPE_JPEG (set_os w1 s)) as (w2 & E2 & ->). cbn [set_os os] in E2 |- *.
  pose proof (evolves_trans _ _ _ E1 E2) as E12.
  destruct (jpeg_to_png_normalized <$> nonempty (contents w2 NS_PASTEBOARD_TYPE_JPEG)) as [[data|?| |]|] eqn:Hjpeg.
  { eexists _, w2. split; [done|]. split; [done|]. intros Hc. unfold fresh_image, encode_image.
    rewrite <- (contents_at _ _ _ _ E1 E2 Hc), Hpng, <- (contents_at _ _ _ _ E12 (evolves_refl w2) Hc), Hjpeg. done. }
  all: destruct (read_bytes_spec NS_PASTEBOARD_TYPE_TIFF (set_os w2 (set_os w1 s))) as (w3 & E3 & ->); cbn [set_os os] in E3 |- *;
    pose proof (evolves_trans _ _ _ E12 E3) as E13; pose proof (evolves_trans _ _ _ E2 E3) as E23;
    (destruct (tiff_to_png_normalized <$> nonempty (contents w3 NS_PASTEBOARD_TYPE_TIFF)) as [[data|?| |]|] eqn:Htiff;
     (eexists _, w3; split; [done|]; split; [done|]; intros Hc; unfold fresh_image, encode_image;
      rewrite <- (contents_at _ _ _ _ E1 E23 Hc), Hpng, <- (contents_at _ _ _ _ E12 E3 Hc), Hjpeg,
        <- (contents_at _ _ _ _ E13 (evolves_refl w3) Hc), Htiff; done)).
Qed.

(** What a read of the image leaves: nothing but the cache and the pasteboard. *)
Definition image_read (s : S) (r : option ImageBytes) (s' : S) : Prop :=
  coherent s' ∧ evolves (os s) (os s') ∧ (count (os s') = count (os s) → r = fresh_image (contents (os s))).

Lemma cache_hit_fresh s n i w :
  coherent s → evolves (os s) w → n = count w → cache_hit n (image_cache s) = Some i →
  image_read s (Some i) (set_os w s).
Proof.
  intros Hs Hev -> Hh. unfold cache_hit in Hh. destruct (image_cache s) as [e|] eqn:Ee; [|done]. case_decide as Hc; [|done].
  injection Hh as <-. split; [by apply coherent_evolves|]. split; [done|]. cbn. intros Hc'.
  unfold coherent in Hs. rewrite Ee in Hs. destruct Hs as [_ He]. symmetry. apply He. lia.
Qed.
Lemma keep_fresh_spec w0 n r s :
  coherent s → evolves w0 (os s) → (∃ w1, evolves w0 w1 ∧ n = count w1 ∧ evolves w1 (os s) ∧
    (r = None ∨ (count (os s) = count w1 → r = fresh_image (contents w1)))) →
  ∃ s', keep_fresh n r s = (Ok tt, s') ∧ coherent s' ∧ os s' = os s.
Proof.
  intros Hs Hev (w1 & H01 & -> & H1 & Hr). destruct r as [i|]; [|by exists s]. eexists. split; [done|]. split; [|done].
  unfold coherent. cbn. destruct Hr as [|Hr]; [done|]. pose proof H1 as [Hle _]. split; [done|]. intros Hc.
  rewrite (fresh_evolves _ _ H1) by done. symmetry. by apply Hr.
Qed.

Lemma current_image_spec s : coherent s → ∃ r s', current_image s = (Ok r, s') ∧ image_read s r s'.
Proof.
  intros Hs. unfold current_image, mbind, ST_bind, pb at 1, on_os.
  destruct (changeCount_read (os s)) as [Hn Hev]. destruct (changeCount (os s)) as [n w1]. cbn in Hn, Hev. unfold gets.
  cbn [set_os image_cache]. destruct (cache_hit n (image_cache s)) as [i|] eqn:Hh.
  { eexists _, _. split; [done|]. by eapply cache_hit_fresh. }
  destruct (read_image_spec (set_os w1 s)) as (r & w2 & -> & H2 & Hr). cbn in H2, Hr.
  pose proof (evolves_trans _ _ _ Hev H2) as H02.
  destruct (keep_fresh_spec (os s) n r (set_os w2 (set_os w1 s))) as (s' & -> & Hs' & Eo).
  - by apply coherent_evolves; [apply coherent_evolves|].
  - done.
  - exists w1. split_and!; [done|done|done|by right].
  - eexists _, _. split; [done|]. split; [done|]. rewrite Eo. split; [done|]. cbn. intros Hc.
    pose proof Hev as [L1 _]. pose proof H2 as [L2 _].
    rewrite Hr by lia. apply fresh_evolves; [done|lia].
Qed.

Lemma current_image_async_spec s : coherent s → ∃ r s', current_image_async s = (Ok r, s') ∧ coherent s' ∧ evolves (os s) (os s') ∧
  (count (os s') = count (os s) → r = fresh_image (contents (os s)) ∨ r = None).
Proof.
  intros Hs. unfold current_image_async, mbind, ST_bind, pb at 1, on_os.
  destruct (changeCount_read (os s)) as [Hn Hev]. destruct (changeCount (os s)) as [n w1]. cbn in Hn, Hev. unfold gets.
  cbn [set_os image_cache]. destruct (cache_hit n (image_cache s)) as [i|] eqn:Hh.
  { destruct (cache_hit_fresh s n i w1 Hs Hev Hn Hh) as (? & ? & Hr). eexists _, _. split; [done|]. split_and!; [done|done|]. left. by apply Hr. }
  destruct (read_bytes_spec NS_PASTEBOARD_TYPE_PNG (set_os w1 s)) as (w2 & E2 & ->).
  destruct (read_bytes_spec NS_PASTEBOARD_TYPE_JPEG (set_os w2 (set_os w1 s))) as (w3 & E3 & ->).
  destruct (read_bytes_spec NS_PASTEBOARD_TYPE_TIFF (set_os w3 (set_os w2 (set_os w1 s)))) as (w4 & E4 & ->).
  cbn [set_os os] in E2, E3, E4. unfold pb, on_os. cbn [set_os os].
  pose proof (blocking_evolves w4) as E5. destruct (spawn_blocking w4) as [joined w5]. cbn in E5.
  pose proof (evolves_trans _ _ _ E2 (evolves_trans _ _ _ E3 E4)) as E24.
  pose proof (evolves_trans _ _ _ E24 E5) as E25. pose proof (evolves_trans _ _ _ Hev E25) as E05.
  set (fresh := if joined then _ else None).
  assert (fresh = None ∨ (count w5 = count w1 → fresh = fresh_image (contents w1))) as Hf.
  { unfold fresh. destruct joined; [right|by left]. intros Hc. unfold fresh_image. f_equal.
    - by rewrite (contents_at _ _ _ _ E2 (evolves_trans _ _ _ E3 (evolves_trans _ _ _ E4 E5)) Hc).
    - by rewrite (contents_at _ _ _ _ (evolves_trans _ _ _ E2 E3) (evolves_trans _ _ _ E4 E5) Hc).
    - by rewrite (contents_at _ _ _ _ E24 E5 Hc). }
  destruct (keep_fresh_spec (os s) n fresh (set_os w5 (set_os w1 s))) as (s' & Ek & Hs' & Eo).
  - by apply coherent_evolves; [apply coherent_evolves|].
  - done.
  - by exists w1.
  - assert (keep_fresh n fresh (set_os w5 (set_os w4 (set_os w3 (set_os w2 (set_os w1 s))))) = (Ok tt, s')) as -> by done.
    eexists _, _. split; [done|]. split; [done|]. rewrite Eo. split; [done|]. cbn. intros Hc.
    pose proof Hev as [L1 _]. pose proof E25 as [L2 _]. destruct Hf as [->|Hf]; [by right|]. left.
    rewrite Hf by lia. apply fresh_evolves; [done|lia].
Qed.
Lemma set_text_coherent text s : coherent s → coherent (snd (set_text text s)).
Proof.
  intros Hs. unfold set_text, mbind, ST_bind, sys. pose proof (feed_evolves ["pbcopy"] "pbcopy" (as_bytes text) (os s)) as Hf.
  destruct (feed _ _ _ _) as [[] w]; exact (coherent_evolves w s Hs Hf).
Qed.
Lemma write_png_coherent what data s : coherent (snd (write_png what data s)).
Proof.
  unfold write_png, mbind, ST_bind, pb, on_os, modify_st.
  destruct (clearContents _) as [? w1]. destruct (setData_forType _ _ _) as [ok w2]. by destruct ok.
Qed.

(** C20. The image that is kept never shows: with other programs copying at any
    moment, the answer of [current_image] is what a read of the pasteboard
    without a cache gives, as long as nothing changed during the call; the
    version that encodes on another thread gives the same, or nothing when that
    task is lost.  The reads, the setters and the calls about texts and files
    all keep it that way, on every path.  Every change of the contents is taken
    to change the count, as the comments of the source say; Apple ties the count
    to a change of the owner, so a type that the owner adds later is outside of
    this. *)
Theorem image_cache_transparent s :
  coherent s →
  (∃ r s', current_image s = (Ok r, s') ∧ coherent s' ∧
    (count (os s') = count (os s) → r = fresh_image (contents (os s)))) ∧
  (∃ r s', current_image_async s = (Ok r, s') ∧ coherent s' ∧
    (count (os s') = count (os s) → r = fresh_image (contents (os s)) ∨ r = None)) ∧
  (∀ text, coherent (snd (set_text text s))) ∧ (∀ data mime, coherent (snd (set_image data mime s))) ∧
  (∀ data, coherent (snd (set_dib_image data s))) ∧ (∀ files, coherent (snd (set_files files s))) ∧
  coherent (snd (current_text s)) ∧ coherent (snd (current_files s)).
Proof.
  intros Hs. split_and!.
  - destruct (current_image_spec s Hs) as (r & s' & E & Hs' & _ & Hr). by exists r, s'.
  - destruct (current_image_async_spec s Hs) as (r & s' & E & Hs' & _ & Hr). by exists r, s'.
  - intros. by apply set_text_coherent.
  - intros. apply write_png_coherent.
  - intros data. unfold set_dib_image, mbind, ST_bind, dib_round_trip_via_nsimage, pb, on_os.
    pose proof (bitmap_evolves data (os s)) as Hb. destruct (bitmap_to_png data (os s)) as [? w]. cbn in Hb.
    pose proof (coherent_evolves w s Hs Hb) as Hs'. unfold pure_call.
    destruct (dib_to_png_via_image_crate data); [apply write_png_coherent|done..].
  - intros [|f fs]; [done|]. unfold set_files, mbind, ST_bind, pb, on_os, modify_st.
    destruct (clearContents _) as [? w1]. destruct (writeObjects _ _) as [ok w2]. by destruct ok.
  - unfold current_text, mbind, ST_bind, sys. pose proof (printed_evolves ["pbpaste"] (os s)) as Hf.
    destruct (printed _ _) as [[[out|]| | |] w]; try exact (coherent_evolves w s Hs Hf).
    destruct (from_utf8 out); exact (coherent_evolves w s Hs Hf).
  - unfold current_files, mbind, ST_bind, pb, on_os. pose proof (plist_evolves NS_PASTEBOARD_TYPE_FILENAMES (os s)) as Hf.
    destruct (propertyListForType _ _) as [[[|]|] w]; exact (coherent_evolves w s Hs Hf).
Qed.

(** ** Texts are kept *)

Lemma preserves_pb {A} (Q : W → Prop) (call : W → A * W) :
  (∀ w, Q w → Q (snd (call w))) → preserves (λ s, Q (os s)) (pb call).
Proof. intros Hc s HQ. unfold pb, on_os. specialize (Hc _ HQ). by destruct (call (os s)). Qed.
Lemma preserves_sys {A} (Q : W → Prop) (call : ST W ClipboardError A) :
  (∀ w, Q w → Q (snd (call w))) → preserves (λ s, Q (os s)) (sys call).
Proof. intros Hc s HQ. unfold sys. specialize (Hc _ HQ). by destruct (call (os s)). Qed.
Lemma preserves_keep (Q : W → Prop) n r : preserves (λ s, Q (os s)) (keep_fresh n r).
Proof. destruct r; [by apply preserves_modify|apply preserves_ret]. Qed.
(** The image is read without touching the pasteboard. *)
Lemma async_preserves (Q : W → Prop) :
  (∀ w, Q w → Q (snd (changeCount w))) → (∀ t w, Q w → Q (snd (dataForType t w))) →
  (∀ w, Q w → Q (snd (spawn_blocking w))) → preserves (λ s, Q (os s)) current_image_async.
Proof.
  intros H1 H2 H3. assert (∀ t, preserves (λ s, Q (os s)) (read_pasteboard_bytes t)) as Hr.
  { intros t. apply preserves_bind; [apply (preserves_pb Q); auto|]. intros. apply preserves_ret. }
  apply preserves_bind; [apply (preserves_pb Q); auto|]. intros n. apply preserves_bind; [apply preserves_gets|].
  intros [i|]; [apply preserves_ret|]. do 3 (apply preserves_bind; [apply Hr|]; intros ?).
  apply preserves_bind; [apply (preserves_pb Q); auto|]. intros joined.
  apply preserves_bind; [apply preserves_keep|]. intros. apply preserves_ret.
Qed.

(** Nobody else copies: the pasteboard holds a plain text, no image, and the
    names of files if any.  Then reading changes nothing; and a successful
    [pbcopy] leaves a pasteboard of its text.  A pasteboard without a text is one
    of the empty text: [pbpaste] succeeds and prints nothing. *)
Class PlainLaws : Type := {
  plain : list byte → option (list string) → W → Prop;
  no_image text names w : plain text names w → fresh_image (contents w) = None;
  pbpaste text names w : plain text names w → ∃ w', printed ["pbpaste"] w = (Ok (Some text), w') ∧ plain text names w';
  file_names text names w : plain text names w → ∃ w', propertyListForType NS_PASTEBOARD_TYPE_FILENAMES w = (names, w') ∧ plain text names w';
  pbcopied name text w w' : feed ["pbcopy"] name text w = (Ok tt, w') → plain text None w';
  quiet text names n w : plain text names w ∧ count w = n →
    (plain text names (snd (changeCount w)) ∧ count (snd (changeCount w)) = n) ∧
    (∀ t, plain text names (snd (dataForType t w)) ∧ count (snd (dataForType t w)) = n) ∧
    (plain text names (snd (spawn_blocking w)) ∧ count (snd (spawn_blocking w)) = n)
}.
Context {L' : PlainLaws}.

Definition shows (text : list byte) (names : option (list string)) (s : S) : Prop := coherent s ∧ plain text names (os s).

Lemma shows_no_image text names s : shows text names s → ∃ s', current_image_async s = (Ok None, s') ∧ shows text names s'.
Proof.
  intros [Hs Hp]. destruct (current_image_async_spec s Hs) as (r & s' & E & Hs' & _ & Hr).
  assert (plain text names (os s') ∧ count (os s') = count (os s)) as [Hp' Hc].
  { pose proof (async_preserves (λ w, plain text names w ∧ count w = count (os s))) as Hq.
    specialize (Hq (λ w H, proj1 (quiet _ _ _ w H)) (λ t w H, proj1 (proj2 (quiet _ _ _ w H)) t)
      (λ w H, proj2 (proj2 (quiet _ _ _ w H))) s (conj Hp eq_refl)). by rewrite E in Hq. }
  exists s'. split; [|by split]. rewrite E. specialize (Hr Hc). rewrite (no_image _ _ _ Hp) in Hr. by destruct Hr as [-> | ->].
Qed.
Lemma shows_text text names s :
  shows text names s → utf8_valid text = true → ∃ s', current_text s = (Ok (Some (of_bytes text)), s') ∧ shows text names s'.
Proof.
  intros [Hs Hp] Hv. destruct (pbpaste _ _ _ Hp) as (w & E & Hp'). exists (set_cached (of_bytes text) (set_os w s)). split.
  - unfold current_text, mbind, ST_bind, sys. rewrite E. unfold from_utf8. by rewrite Hv.
  - split; [|done]. pose proof (printed_evolves ["pbpaste"] (os s)) as He. rewrite E in He. exact (coherent_evolves w s Hs He).
Qed.
Lemma shows_files text names s : shows text names s → names ≠ Some [] →
  ∃ s', current_files s = (Ok names, s') ∧ shows text names s'.
Proof.
  intros [Hs Hp] Hne. destruct (file_names _ _ _ Hp) as (w & E & Hp'). exists (set_os w s). split.
  - unfold current_files, mbind, ST_bind, pb, on_os. rewrite E. by destruct names as [[|]|].
  - split; [|done]. pose proof (plist_evolves NS_PASTEBOARD_TYPE_FILENAMES (os s)) as He. rewrite E in He. exact (coherent_evolves w s Hs He).
Qed.

#[export] Instance Mac_texts : TextLaws S.
Proof.
  refine (Build_TextLaws S _ (λ text s, utf8_valid (as_bytes text) = true ∧ coherent s)
    (λ text s, utf8_valid (as_bytes text) = true ∧ shows (as_bytes text) None s) _ _).
  - intros text s s' [Hv Hs] E. cbn in E. apply succeeded_true in E. split; [done|]. split.
    + pose proof (set_text_coherent text s Hs) as Ht. by rewrite E in Ht.
    + unfold set_text, mbind, ST_bind, sys in E. destruct (feed _ _ _ _) as [[[]| | |] w] eqn:Ef; try done.
      injection E as <-. by eapply pbcopied.
  - intros text s [Hv Hs]. split_and!.
    + destruct (shows_text _ _ _ Hs Hv) as (s' & E & Hs'). rewrite of_bytes_as_bytes in E. exists s'. split; [by apply answered_Ok|done].
    + destruct (shows_no_image _ _ _ Hs) as (s' & E & Hs'). exists s'. split; [by apply answered_Ok|done].
    + destruct (shows_files _ _ _ Hs) as (s' & E & Hs'); [done|]. exists s'. split; [by apply answered_Ok|done].
Defined.

(** ** Copying files clears the clipboards of the peers *)

(** When files are copied on macOS and the pasteboard has neither an image nor a
    text, the empty text is taken for a text that was copied: it is sent to all
    peers, and a peer that applies it replaces what is on its clipboard by the
    empty text.  The names of the files are waiting in their own channel. *)
Theorem files_clear_peers {D} `{Backend D} (sha256 : list byte → sha) e1 e2 e3 fetch addr files c s (d : Clip D) bk bk' :
  alive (poller c) = true → backend (poller c) = Some s → text_rx (poller c) = [] →
  shows [] (Some files) s → files ≠ [] →
  clipboard_last_text (outbound c) ≠ Some "" → known e2 (sha256_of sha256 "") (clipboard_lru (outbound c)) = false →
  alive (poller d) = true → backend (poller d) = Some bk → Clipboard.set_text "" bk = (true, bk') →
  known e3 (sha256_of sha256 "") (clipboard_lru (outbound d)) = false →
  ∃ c' d', turns sha256 [(e1, TTick); (e2, TText)] c = (Ok tt, c') ∧
    sent c' = sent c ++ to_all e2 (text_event sha256 "") ∧ files_rx (poller c') = files_rx (poller c) ++ [files] ∧
    turn sha256 e3 (TInbound fetch true true addr (text_event sha256 "")) d = (Ok tt, d') ∧ backend (poller d') = Some bk'.
Proof.
  intros Ha Hb Hq Hs Hne Hl Hk Hda Hdb Hset Hdk.
  destruct (shows_no_image _ _ _ Hs) as (s1 & E1 & Hs1). destruct (shows_text _ _ _ Hs1 eq_refl) as (s2 & E2 & Hs2).
  destruct (shows_files _ _ _ Hs2) as (s3 & E3 & Hs3); [congruence|].
  set (c1 := on_poller (λ p, mkPoller (Some s3) true (text_rx p ++ [""]) (image_rx p ++ []) (files_rx p ++ [files])) c).
  assert (turn sha256 e1 TTick c = (Ok tt, c1)) as Ht.
  { change (turn sha256 e1 TTick c) with (Ok (E := Empty_set) tt, clipboard_poller c).
    unfold clipboard_poller. rewrite Ha, Hb. cbn [Clipboard.current_image Clipboard.current_text Clipboard.current_files Mac_backend].
    rewrite (answered_Ok _ _ _ _ E1), (answered_Ok _ _ _ _ E2), (answered_Ok _ _ _ _ E3). done. }
  rewrite turns_cons, Ht, turns_cons, turn_text. unfold c1 at 1. cbn [text_rx poller on_poller]. rewrite Hq. cbn [app].
  destruct (dispatch_text_new sha256 e2 "" (on_poller drop_text c1)) as (c2 & -> & _ & _ & P2 & _ & _ & S2); [done..|].
  eexists _, _. split; [done|]. rewrite S2, P2. split; [done|]. split; [done|]. cbn [turn handle_clipboard_inbound text_event].
  erewrite (inbound_text_applied e3 fetch _ addr [] d bk bk'); [by split|done|by left|done..].
Qed.
End laws.
End mac.

(** * A pasteboard *)

Module Demo.
Record World : Type := mkWorld {
  changes : Z; reps : list (string * list byte); names : option (list string); plain_text : list byte; input : list byte
}.
Definition rep (w : World) (t : string) : option (list byte) := (list_to_map (M := gmap string (list byte)) (reps w)) !! t.
Definition done_well : ExitStatus := mkExit true "exit status: 0".
#[export] Instance programs : Processes World := {
  Child := unit;
  output argv w := (inr (mkOutput done_well (plain_text w)), w);
  run_status argv w := (inr done_well, w);
  spawn argv w := (inr tt, w);
  write_all _ data w := (inr tt, mkWorld (changes w) (reps w) (names w) (plain_text w) data);
  close_stdin _ w := w;
  wait _ w := (inr done_well, mkWorld (changes w + 1) [] None (input w) [])
}.
#[export] Instance pasteboard : NSPasteboard World := {
  changeCount w := (changes w, w);
  dataForType t w := (rep w t, w);
  propertyListForType _ w := (names w, w);
  clearContents w := (changes w + 1, mkWorld (changes w + 1) [] None [] (input w))%Z;
  setData_forType data t w := (true, mkWorld (changes w) ((t, data) :: reps w) (names w) (plain_text w) (input w));
  writeObjects l w := (true, mkWorld (changes w) (reps w) (Some l) (plain_text w) (input w));
  bitmap_to_png _ w := (inl "no image", w);
  spawn_blocking w := (true, w)
}.
(** A library that takes everything for an image and leaves it as it is. *)
#[export] Instance images : ImageCrate := {
  DynamicImage := list byte; load_from_memory data := inr data; write_to _ data := inr data
}.
#[export] Instance laws : PasteboardLaws (W := World).
Proof.
  refine {| count := changes; contents := rep |}; try (intros; split; done); try (intros; split; split; done).
  intros argv name data w. split.
  - change (changes w ≤ changes w + 1)%Z. lia.
  - change ((changes w + 1)%Z = changes w → ∀ t, rep (snd (feed argv name data w)) t = rep w t). lia.
Defined.
#[export] Instance plain_laws : PlainLaws (W := World).
Proof.
  refine {| plain text l w := plain_text w = text ∧ names w = l ∧ reps w = [] |}.
  - intros text l w (_ & _ & Hr). unfold fresh_image, encode_image. cbn [contents laws]. unfold rep. by rewrite Hr.
  - intros text l w H. exists w. split; [|done]. destruct H as [<- _]. done.
  - intros text l w H. exists w. split; [|done]. destruct H as (_ & <- & _). done.
  - intros name text w w' [= <-]. done.
  - intros text l n w ((H1 & H2 & H3) & Hn). by repeat split.
Defined.
Definition with_tiff : MacOsPasteboard World := mkMac None None (mkWorld 7 [(NS_PASTEBOARD_TYPE_TIFF, [x49; x49])] None [] []).
Definition with_files : MacOsPasteboard World := mkMac None None (mkWorld 7 [] (Some ["/Users/me/a.pdf"]) [] []).
End Demo.
Import (hints) Demo.

(** A picture in TIFF is converted once and then taken from the cache, until
    another program copies something. *)
Example cached_until_changed :
  let '(r1, s1) := current_image_async Demo.with_tiff in
  let '(r2, s2) := current_image_async s1 in
  let '(r3, s3) := current_image_async (set_os (Demo.mkWorld 8 [] None [x61] []) s2) in
  r1 = Ok (Some (png_image [x49; x49])) ∧ r2 = r1 ∧ image_cache s2 = Some (mkEntry 7 (png_image [x49; x49])) ∧ r3 = Ok None.
Proof. vm_compute. done. Qed.

Lemma image_cache_transparent_witness :
  let s := snd (current_image_async Demo.with_tiff) in
  coherent s ∧ ∃ r s', current_image s = (Ok r, s') ∧ r = Some (png_image [x49; x49]).
Proof.
  cbv zeta. set (s := snd _). assert (coherent s) as Hs by (vm_compute; split; [discriminate|done]).
  split; [exact Hs|]. destruct (image_cache_transparent s Hs) as ((r & s' & E & _ & Hr) & _).
  exists r, s'. split; [exact E|]. assert (s' = snd (current_image s)) as E' by (by rewrite E).
  apply Hr. by rewrite E'.
Defined.

Definition mac_clip (b : MacOsPasteboard Demo.World) : Clip (MacOsPasteboard Demo.World) :=
  on_poller (λ p, mkPoller (backend p) (alive p) [] [] []) (new_clip (Some b) ∅).
Lemma files_clear_peers_witness :
  ∃ c' d', turns pad32 [(at_time 1, TTick); (at_time 2, TText)] (mac_clip Demo.with_files) = (Ok tt, c') ∧
    sent c' = [(IncomingPeer demo_addr, text_event pad32 "")] ∧ files_rx (poller c') = [["/Users/me/a.pdf"]] ∧
    turn pad32 (at_time 3) (TInbound NoPeer true true demo_addr (text_event pad32 "")) (demo (HasText "important") []) = (Ok tt, d') ∧
    backend (poller d') = Some (HasText "").
Proof.
  destruct (files_clear_peers pad32 (at_time 1) (at_time 2) (at_time 3) NoPeer demo_addr ["/Users/me/a.pdf"]
    (mac_clip Demo.with_files) Demo.with_files (demo (HasText "important") []) (HasText "important") (HasText ""))
    as (c' & d' & E & S & F & E' & Hb); [reflexivity..|by split|done|done|reflexivity|reflexivity|reflexivity|reflexivity|reflexivity|].
  exists c', d'. split_and!; [exact E|exact S|exact F|exact E'|exact Hb].
Defined.
