(* ===== verification/WinClipboard.v ===== *)
(** The clipboard of Windows (src/clipboard/windows.rs): opening, emptying and
    closing it, blocks of memory that are allocated, locked, filled and handed
    over, and the three formats that are used.  The calls of Win32 are a class;
    every one of them may fail at any time.  Formats.v has the list of dropped
    files, Wide.v the conversion of texts. *)

From Stdlib Require Import Strings.Ascii.
From S2P Require Import Prelude Text Clipboard ClipboardOs Formats Wide.

(** * Win32 *)

Definition HGLOBAL : Type := N.
(** A handle that is null is [None]; a call that answers a BOOL a [bool]. *)
Class Win32 (W : Type) : Type := {
  OpenClipboard : W → bool * W;
  CloseClipboard : W → W;
  EmptyClipboard : W → bool * W;
  GetClipboardData : Z → W → option HGLOBAL * W;
  SetClipboardData : Z → HGLOBAL → W → bool * W;
  GlobalAlloc : nat → W → option HGLOBAL * W;
  GlobalLock : HGLOBAL → W → bool * W;
  GlobalUnlock : HGLOBAL → W → W;
  GlobalFree : HGLOBAL → W → W;
  (** the bytes of a locked block, [GlobalSize] of them, and the copy to its start *)
  block : HGLOBAL → W → list byte * W;
  copy_to : HGLOBAL → list byte → W → W;
  (** the number of files, the length of a name, and the name, copied to a buffer *)
  drag_count : HGLOBAL → W → nat * W;
  drag_length : HGLOBAL → nat → W → nat * W;
  drag_name : HGLOBAL → nat → nat → W → list Z * W;
  GetLastError : W → Z
}.

Definition CF_UNICODETEXT : Z := 13.
Definition CF_DIBV5_U32 : Z := 17.
Definition CF_DIB_U32 : Z := 8.
Definition CF_HDROP_U32 : Z := 15.

(** * The backend *)

Record WinClipboard (W : Type) : Type := mkWin { cached : option string; os : W }.
Arguments mkWin {W}. Arguments cached {W}. Arguments os {W}.

(** Decimal, of an error of 32 bits. *)
Definition shown_error (err : Z) : string := pretty.pretty err.
Definition err_to_string (op : string) (err : Z) : string := op +:+ " failed: GetLastError=" +:+ shown_error err.

Section windows.
Context {W : Type} {Win : Win32 W} {I : ImageCrate}.
Abbreviation S := (WinClipboard W).
Abbreviation M A := (ST S ClipboardError A).

Definition set_os (w : W) (s : S) : S := mkWin (cached s) w.
Definition set_cached (text : string) (s : S) : S := mkWin (Some text) (os s).
(** A call that answers, one that does not, and the error of the last one. *)
Definition api {A} (call : W → A * W) : M A := on_os os set_os call.
Definition api_ (call : W → W) : M unit := modify_st (λ s, set_os (call (os s)) s).
Definition last_error : M Z := gets (λ s, GetLastError (os s)).
Definition fails {A} (op : string) (err : Z) : M A := raise (Io (err_to_string op err)).

Definition new (w : W) : outcome ClipboardError S := Ok (mkWin None w).

(** ** Texts *)

(** The units before the first zero are the text.  A block without a zero is read
    beyond its end, which is undefined: [Panic]. *)
Definition current_text : M (option string) :=
  opened ← api OpenClipboard;
  if negb opened then mret None
  else
    handle ← api (GetClipboardData CF_UNICODETEXT);
    match handle with
    | None => api_ CloseClipboard ;; mret None
    | Some handle =>
        locked ← api (GlobalLock handle);
        if negb locked then
          err ← last_error;
          api_ CloseClipboard ;;
          mret (Some (err_to_string "GlobalLock" err))
        else
          bytes ← api (block handle);
          match DropFiles.until_zero (DropFiles.units bytes) with
          | None => panic
          | Some (slice, _) =>
              match from_utf16 slice with
              | None =>
                  api_ (GlobalUnlock handle) ;;
                  api_ CloseClipboard ;;
                  mret (Some (err_to_string "from_utf16 (clipboard text is not valid UTF-16)" 0))
              | Some text =>
                  api_ (GlobalUnlock handle) ;;
                  api_ CloseClipboard ;;
                  modify_st (set_cached text) ;;
                  mret (Some text)
              end
          end
    end.

Definition set_text (text : string) : M unit :=
  let wide := encode_wide text ++ [0%Z] in
  let byte_len := 2 * length wide in
  opened ← api OpenClipboard;
  if negb opened then err ← last_error; fails "OpenClipboard" err
  else
    emptied ← api EmptyClipboard;
    if negb emptied then
      err ← last_error;
      api_ CloseClipboard ;;
      fails "EmptyClipboard (set_text)" err
    else
      handle ← api (GlobalAlloc byte_len);
      match handle with
      | None =>
          err ← last_error;
          api_ CloseClipboard ;;
          fails ("GlobalAlloc(" +:+ pretty.pretty (Z.of_nat byte_len) +:+ " bytes)") err
      | Some handle =>
          locked ← api (GlobalLock handle);
          if negb locked then
            err ← last_error;
            api_ CloseClipboard ;;
            fails "GlobalLock (write path)" err
          else
            api_ (copy_to handle (DropFiles.wide_bytes wide)) ;;
            api_ (GlobalUnlock handle) ;;
            api (SetClipboardData CF_UNICODETEXT handle) ;;
            api_ CloseClipboard ;;
            modify_st (set_cached text)
      end.

(** ** Images *)

Definition current_image : M (option ImageBytes) :=
  opened ← api OpenClipboard;
  if negb opened then mret None
  else
    handle ← api (GetClipboardData CF_DIBV5_U32);
    match handle with
    | None => api_ CloseClipboard ;; mret None
    | Some handle =>
        locked ← api (GlobalLock handle);
        if negb locked then api_ CloseClipboard ;; mret None
        else
          bytes ← api (block handle);
          api_ (GlobalUnlock handle) ;;
          api_ CloseClipboard ;;
          match bytes with
          | [] => mret None
          | _ => mret (Some (mkImage MIME_DIB bytes))
          end
    end.

(** The clipboard is open; on an error it stays so. *)
Definition alloc_dib_handle_and_set (bytes : list byte) (format : Z) : M unit :=
  handle ← api (GlobalAlloc (length bytes));
  match handle with
  | None =>
      err ← last_error;
      fails ("GlobalAlloc(" +:+ pretty.pretty (Z.of_nat (length bytes)) +:+ " bytes, alloc_dib_handle_and_set format=" +:+ pretty.pretty format +:+ ")") err
  | Some handle =>
      locked ← api (GlobalLock handle);
      if negb locked then
        err ← last_error;
        api_ (GlobalFree handle) ;;
        fails ("GlobalLock (alloc_dib_handle_and_set format=" +:+ pretty.pretty format +:+ ")") err
      else
        api_ (copy_to handle bytes) ;;
        api_ (GlobalUnlock handle) ;;
        api (SetClipboardData format handle) ;;
        mret tt
  end.
(** [if let Err(e) = call { CloseClipboard(); return Err(e) }]. *)
Definition or_close (call : M unit) : M unit :=
  res ← attempt call;
  match res with
  | inl e => api_ CloseClipboard ;; raise e
  | inr _ => mret tt
  end.
Definition open_and_empty (what : string) : M unit :=
  opened ← api OpenClipboard;
  if negb opened then err ← last_error; fails ("OpenClipboard (" +:+ what +:+ ")") err
  else
    emptied ← api EmptyClipboard;
    if negb emptied then
      err ← last_error;
      api_ CloseClipboard ;;
      fails ("EmptyClipboard (" +:+ what +:+ ")") err
    else mret tt.
Definition set_dib_image (bytes : list byte) : M unit :=
  match bytes with
  | [] => raise (Io "set_dib_image: empty DIB payload (rejected; minimum is a BITMAPINFOHEADER)")
  | _ =>
      open_and_empty "set_dib_image" ;;
      or_close (alloc_dib_handle_and_set bytes CF_DIBV5_U32) ;;
      or_close (alloc_dib_handle_and_set bytes CF_DIB_U32) ;;
      api_ CloseClipboard
  end.

Definition encode_png_to_dib (png_bytes : list byte) : outcome ClipboardError (list byte) :=
  bmp_file ← reencode FBmp "image::load_from_memory PNG" "image::write_to BMP" png_bytes;
  match Bmp.strip_bmp_file_header bmp_file with
  | None => Err (Io "BMP file too short — cannot strip 14-byte file header")
  | Some dib => Ok dib
  end.
Definition write_dibv5_from_png_helper (png_bytes : list byte) : outcome ClipboardError (list byte) :=
  encode_png_to_dib png_bytes.
Definition write_dibv5_from_png (png_bytes : list byte) : M unit :=
  dib_bytes ← pure_call (write_dibv5_from_png_helper png_bytes);
  set_dib_image dib_bytes.
Definition set_image (bytes : list byte) (mime : Mime) : M unit :=
  match mime with
  | Png => write_dibv5_from_png bytes
  | Jpeg | Bmp =>
      raise (Unsupported ("Windows set_image: mime " +:+ mime_str mime +:+
        " not directly supported; inbound dispatcher normalises to PNG before reaching this method"))
  end.

(** ** Files *)

(** The names that are left when those that cannot be read are passed over. *)
Fixpoint query_names (handle : HGLOBAL) (i n : nat) : M (list string) :=
  match n with
  | O => mret []
  | Datatypes.S n =>
      wchars_needed ← api (drag_length handle i);
      name ← (if decide (wchars_needed = 0) then mret []
              else api (drag_name handle i (wchars_needed + 1)));
      rest ← query_names handle (i + 1) n;
      mret (match name with [] => rest | _ => from_wide name :: rest end)
  end.
Definition current_files : M (option (list string)) :=
  opened ← api OpenClipboard;
  if negb opened then mret None
  else
    handle ← api (GetClipboardData CF_HDROP_U32);
    match handle with
    | None => api_ CloseClipboard ;; mret None
    | Some handle =>
        count ← api (drag_count handle);
        match count with
        | O => api_ CloseClipboard ;; mret None
        | _ =>
            paths ← query_names handle 0 count;
            api_ CloseClipboard ;;
            mret (match paths with [] => None | _ => Some paths end)
        end
    end.
Definition set_files (files : list string) : M unit :=
  match files with
  | [] => mret tt
  | _ =>
      let payload := DropFiles.build_dropfiles_payload (encode_wide <$> files) in
      open_and_empty "set_files" ;;
      or_close (alloc_dib_handle_and_set payload CF_HDROP_U32) ;;
      api_ CloseClipboard
  end.

#[export] Instance Win_backend : Backend S := {
  Clipboard.set_text text := succeeded (set_text text);
  Clipboard.set_image bytes mime := succeeded (set_image bytes mime);
  Clipboard.set_dib_image bytes := succeeded (set_dib_image bytes);
  Clipboard.set_files l := succeeded (set_files l);
  Clipboard.current_text := answered current_text;
  Clipboard.current_image := answered current_image;
  Clipboard.current_files := answered current_files
}.
End windows.

(** * The discipline of the calls *)

(** A monitor of the calls, whatever they answer: the clipboard is opened when it
    is closed, and emptied, read and written only while it is open; a block is
    locked once, read or filled while it is locked, and handed over or freed when
    it is not; what came from the clipboard is used only until it is closed, and
    only what the program allocated is filled, freed or handed over, after the
    clipboard was emptied.  [ghost] is [None] once a call broke a rule. *)
Record Proto : Type := mkProto {
  opened : bool; emptied : bool; lent : list HGLOBAL; owned : list HGLOBAL; locked : option HGLOBAL; refused : list HGLOBAL
}.
Fixpoint remove_one (h : HGLOBAL) (l : list HGLOBAL) : option (list HGLOBAL) :=
  match l with
  | [] => None
  | x :: l => if decide (x = h) then Some l else cons x <$> remove_one h l
  end.
Definition guard_on (b : bool) (p : Proto) : option Proto := if b then Some p else None.
Definition may_use (h : HGLOBAL) (p : Proto) : bool := bool_decide (h ∈ lent p ∨ h ∈ owned p).
Definition is_locked (h : HGLOBAL) (p : Proto) : bool := bool_decide (locked p = Some h).
Definition unlocked (p : Proto) : bool := bool_decide (locked p = None).

Record Monitored (W : Type) : Type := mkMonitored { inner : W; ghost : option Proto }.
Arguments mkMonitored {W}. Arguments inner {W}. Arguments ghost {W}.

Section monitor.
Context {W : Type} `{!Win32 W}.
Definition watch_call {A} (step : A → Proto → option Proto) (call : W → A * W) (m : Monitored W) : A * Monitored W :=
  let '(a, w) := call (inner m) in (a, mkMonitored w (ghost m ≫= step a)).
Definition watch_run (step : Proto → option Proto) (call : W → W) (m : Monitored W) : Monitored W :=
  mkMonitored (call (inner m)) (ghost m ≫= step).

Definition did_open (ok : bool) (p : Proto) : option Proto :=
  if opened p then None else Some (if ok then mkProto true false [] (owned p) (locked p) (refused p) else p).
Definition did_close (p : Proto) : option Proto :=
  if opened p && unlocked p then Some (mkProto false false [] (owned p) None (refused p)) else None.
Definition did_empty (ok : bool) (p : Proto) : option Proto :=
  if opened p then Some (if ok then mkProto true true [] (owned p) (locked p) (refused p) else p) else None.
Definition did_get (h : option HGLOBAL) (p : Proto) : option Proto :=
  if opened p then Some (mkProto true (emptied p) (option_list h ++ lent p) (owned p) (locked p) (refused p)) else None.
Definition did_alloc (h : option HGLOBAL) (p : Proto) : option Proto :=
  Some (mkProto (opened p) (emptied p) (lent p) (option_list h ++ owned p) (locked p) (refused p)).
Definition did_lock (h : HGLOBAL) (ok : bool) (p : Proto) : option Proto :=
  if may_use h p && unlocked p then
    Some (if ok then mkProto (opened p) (emptied p) (lent p) (owned p) (Some h) (refused p) else p)
  else None.
Definition did_unlock (h : HGLOBAL) (p : Proto) : option Proto :=
  if is_locked h p then Some (mkProto (opened p) (emptied p) (lent p) (owned p) None (refused p)) else None.
Definition did_read (h : HGLOBAL) (p : Proto) : option Proto := guard_on (is_locked h p) p.
Definition did_fill (h : HGLOBAL) (p : Proto) : option Proto := guard_on (is_locked h p && bool_decide (h ∈ owned p)) p.
Definition did_free (h : HGLOBAL) (p : Proto) : option Proto :=
  if unlocked p then owned' ← remove_one h (owned p); Some (mkProto (opened p) (emptied p) (lent p) owned' None (refused p)) else None.
(** A block that is taken belongs to the system; one that is refused stays with the
    program, which has to free it. *)
Definition did_set (h : HGLOBAL) (ok : bool) (p : Proto) : option Proto :=
  if opened p && emptied p && unlocked p then
    owned' ← remove_one h (owned p);
    Some (if ok then mkProto true true (lent p) owned' None (refused p)
          else mkProto true true (lent p) (owned p) None (h :: refused p))
  else None.
Definition did_drag (h : HGLOBAL) (p : Proto) : option Proto := guard_on (opened p && bool_decide (h ∈ lent p)) p.

#[export] Instance Monitor : Win32 (Monitored W) := {
  OpenClipboard := watch_call did_open OpenClipboard;
  CloseClipboard := watch_run did_close CloseClipboard;
  EmptyClipboard := watch_call did_empty EmptyClipboard;
  GetClipboardData format := watch_call did_get (GetClipboardData format);
  SetClipboardData format h := watch_call (did_set h) (SetClipboardData format h);
  GlobalAlloc n := watch_call did_alloc (GlobalAlloc n);
  GlobalLock h := watch_call (did_lock h) (GlobalLock h);
  GlobalUnlock h := watch_run (did_unlock h) (GlobalUnlock h);
  GlobalFree h := watch_run (did_free h) (GlobalFree h);
  block h := watch_call (λ _, did_read h) (block h);
  copy_to h bytes := watch_run (did_fill h) (copy_to h bytes);
  drag_count h := watch_call (λ _, did_drag h) (drag_count h);
  drag_length h i := watch_call (λ _, did_drag h) (drag_length h i);
  drag_name h i n := watch_call (λ _, did_drag h) (drag_name h i n);
  GetLastError m := GetLastError (inner m)
}.

(** ** Weakest preconditions of the monitor

    From any state of Windows, whose monitor is at [p]: [Q] holds of the monitor
    after a success, [X] after an error; there is no panic. *)
Context {I : ImageCrate}.
Abbreviation S := (WinClipboard (Monitored W)).
Abbreviation M A := (ST S ClipboardError A).

Definition watched {A} (m : M A) (Q : A → Proto → Prop) (X : Proto → Prop) (p : Proto) : Prop :=
  ∀ k w, match m (mkWin k (mkMonitored w (Some p))) with
         | (Ok a, s) => ∃ p', ghost (os s) = Some p' ∧ Q a p'
         | (Err _, s) => ∃ p', ghost (os s) = Some p' ∧ X p'
         | (Panic, _) | (Diverge, _) => False
         end.





Section calls.
Context (e : bool) (l ow rf : list HGLOBAL).
Let start : Proto := mkProto false e l ow None rf.


End calls.


End monitor.

(** * What Windows keeps *)

(** The formats of one of these groups are converted into each other. *)
Definition FORMAT_GROUPS : list (list Z) := [[1; 7; 13]; [2; 8; 17]; [3; 14]]%Z.
Definition convertible (g f : Z) : Prop := g = f ∨ ∃ group, group ∈ FORMAT_GROUPS ∧ g ∈ group ∧ f ∈ group.

(** [quiet o c w]: nobody else uses the clipboard and there is memory; this program
    has it open when [o] holds, and [c] is what is on it, by format.  A block of
    memory may be longer than what was asked for. *)
Class Win32Laws (W : Type) `{Win32 W} : Type := {
  quiet : bool → gmap Z (list byte) → W → Prop;
  memory : W → HGLOBAL → list byte;
  open_ok c w : quiet false c w → ∃ w', OpenClipboard w = (true, w') ∧ quiet true c w';
  close_ok c w : quiet true c w → quiet false c (CloseClipboard w);
  empty_ok c w : quiet true c w → ∃ w', EmptyClipboard w = (true, w') ∧ quiet true ∅ w';
  alloc_ok o c n w : quiet o c w → ∃ h w', GlobalAlloc n w = (Some h, w') ∧ quiet o c w' ∧ n ≤ length (memory w' h);
  lock_ok o c h w : quiet o c w → ∃ w', GlobalLock h w = (true, w') ∧ quiet o c w' ∧ memory w' h = memory w h;
  copy_ok o c h bytes w : quiet o c w → length bytes ≤ length (memory w h) →
    quiet o c (copy_to h bytes w) ∧ memory (copy_to h bytes w) h = bytes ++ drop (length bytes) (memory w h);
  unlock_ok o c h w : quiet o c w → quiet o c (GlobalUnlock h w) ∧ memory (GlobalUnlock h w) h = memory w h;
  set_ok c format h w : quiet true c w →
    ∃ w', SetClipboardData format h w = (true, w') ∧ quiet true (<[format := memory w h]> c) w';
  get_ok c format bytes w : quiet true c w → c !! format = Some bytes →
    ∃ h w', GetClipboardData format w = (Some h, w') ∧ quiet true c w' ∧ memory w' h = bytes;
  get_absent c format w : quiet true c w → (∀ g, is_Some (c !! g) → ¬ convertible g format) →
    ∃ w', GetClipboardData format w = (None, w') ∧ quiet true c w';
  block_ok o c h w : quiet o c w → ∃ w', block h w = (memory w h, w') ∧ quiet o c w' ∧ memory w' h = memory w h;
  drag_ok c h names w : quiet true c w → DropFiles.drag_query (memory w h) = Some names →
    (∃ w', drag_count h w = (length names, w') ∧ quiet true c w' ∧ memory w' h = memory w h) ∧
    (∀ i name, names !! i = Some name →
      (∃ w', drag_length h i w = (length name, w') ∧ quiet true c w' ∧ memory w' h = memory w h) ∧
      (∀ n, length name < n → ∃ w', drag_name h i n w = (name, w') ∧ quiet true c w' ∧ memory w' h = memory w h))
}.

Section kept.
Context {W : Type} `{L : Win32Laws W} {I : ImageCrate}.
Implicit Types (s : WinClipboard W) (w : W) (c : gmap Z (list byte)).

Definition text_block (text : string) (slack : list byte) : list byte :=
  DropFiles.wide_bytes (encode_wide text ++ [0%Z]) ++ slack.
Definition clean_text (text : string) : Prop := utf8_valid (as_bytes text) = true ∧ no_nul text.

Lemma wp_api {A} (call : W → A * W) (Q : A → WinClipboard W → Prop) s a w :
  call (os s) = (a, w) → Q a (set_os w s) → wp (api call) Q s.
Proof. intros E HQ. unfold wp, api, on_os. by rewrite E. Qed.
Lemma wp_api_ (call : W → W) (Q : unit → WinClipboard W → Prop) s : Q tt (set_os (call (os s)) s) → wp (api_ call) Q s.
Proof. done. Qed.

Lemma length_wide ws : length (DropFiles.wide_bytes ws) = 2 * length ws.
Proof.
  unfold DropFiles.wide_bytes. induction ws as [|w ws IH]; [done|]. cbn [fmap list_fmap concat].
  rewrite length_app, IH, Bmp.length_le. cbn. lia.
Qed.
Lemma read_units ws slack : Forall (λ u, 0 < u < 2 ^ 16)%Z ws →
  ∃ rest, DropFiles.until_zero (DropFiles.units (DropFiles.wide_bytes (ws ++ [0%Z]) ++ slack)) = Some (ws, rest).
Proof.
  intros Hws. rewrite DropFiles.units_wide.
  - rewrite <- app_assoc. eexists. by apply DropFiles.until_zero_path.
  - apply Forall_app. split; [|by repeat constructor]. eapply Forall_impl; [exact Hws|]. cbn. lia.
Qed.

(** ** Writing *)

Lemma set_text_quiet text c s : quiet false c (os s) →
  wp (set_text text) (λ _ s', ∃ slack, quiet false {[CF_UNICODETEXT := text_block text slack]} (os s')) s.
Proof.
  intros Hq. unfold set_text. apply wp_bind. destruct (open_ok _ _ Hq) as (w1 & E1 & Q1). eapply wp_api; [exact E1|]. cbn [negb].
  apply wp_bind. destruct (empty_ok _ _ Q1) as (w2 & E2 & Q2). eapply wp_api; [exact E2|]. cbn [negb].
  apply wp_bind. destruct (alloc_ok _ _ (2 * length (encode_wide text ++ [0%Z])) _ Q2) as (h & w3 & E3 & Q3 & L3). eapply wp_api; [exact E3|].
  apply wp_bind. destruct (lock_ok _ _ h _ Q3) as (w4 & E4 & Q4 & M4). eapply wp_api; [exact E4|]. cbn [negb].
  apply wp_bind, wp_api_. cbn [os set_os].
  destruct (copy_ok _ _ h (DropFiles.wide_bytes (encode_wide text ++ [0%Z])) _ Q4) as [Q5 M5]; [rewrite M4, length_wide; exact L3|].
  apply wp_bind, wp_api_. cbn [os set_os]. destruct (unlock_ok _ _ h _ Q5) as [Q6 M6].
  apply wp_bind. destruct (set_ok _ CF_UNICODETEXT h _ Q6) as (w7 & E7 & Q7). eapply wp_api; [exact E7|].
  apply wp_bind, wp_api_. apply wp_modify. cbn [os set_os set_cached]. eexists.
  rewrite M6, M5 in Q7. apply close_ok in Q7. exact Q7.
Qed.
Lemma alloc_quiet bytes format c s : quiet true c (os s) →
  wp (alloc_dib_handle_and_set bytes format) (λ _ s', ∃ slack, quiet true (<[format := bytes ++ slack]> c) (os s')) s.
Proof.
  intros Hq. unfold alloc_dib_handle_and_set. apply wp_bind.
  destruct (alloc_ok _ _ (length bytes) _ Hq) as (h & w3 & E3 & Q3 & L3). eapply wp_api; [exact E3|].
  apply wp_bind. destruct (lock_ok _ _ h _ Q3) as (w4 & E4 & Q4 & M4). eapply wp_api; [exact E4|]. cbn [negb].
  apply wp_bind, wp_api_. cbn [os set_os]. destruct (copy_ok _ _ h bytes _ Q4) as [Q5 M5]; [rewrite M4; exact L3|].
  apply wp_bind, wp_api_. cbn [os set_os]. destruct (unlock_ok _ _ h _ Q5) as [Q6 M6].
  apply wp_bind. destruct (set_ok _ format h _ Q6) as (w7 & E7 & Q7). eapply wp_api; [exact E7|].
  apply wp_ret. cbn [os set_os]. eexists. rewrite M6, M5 in Q7. exact Q7.
Qed.
Lemma or_close_quiet (m : ST (WinClipboard W) ClipboardError unit) (Q : WinClipboard W → Prop) s :
  wp m (λ _, Q) s → wp (or_close m) (λ _, Q) s.
Proof. intros Hm. unfold or_close. apply wp_bind, wp_attempt. eapply wp_mono; [exact Hm|]. by intros [] s' HQ. Qed.
Lemma open_and_empty_quiet what c s : quiet false c (os s) → wp (open_and_empty what) (λ _ s', quiet true ∅ (os s')) s.
Proof.
  intros Hq. unfold open_and_empty. apply wp_bind. destruct (open_ok _ _ Hq) as (w1 & E1 & Q1). eapply wp_api; [exact E1|]. cbn [negb].
  apply wp_bind. destruct (empty_ok _ _ Q1) as (w2 & E2 & Q2). eapply wp_api; [exact E2|]. by apply wp_ret.
Qed.
Lemma set_files_quiet files c s : files ≠ [] → quiet false c (os s) →
  wp (set_files files) (λ _ s', ∃ slack,
    quiet false {[CF_HDROP_U32 := DropFiles.build_dropfiles_payload (encode_wide <$> files) ++ slack]} (os s')) s.
Proof.
  intros Hne Hq. unfold set_files. destruct files as [|f fs] eqn:Ef; [done|]. rewrite <- Ef. clear Hne.
  apply wp_bind. eapply wp_mono; [by eapply open_and_empty_quiet|]. intros [] s1 Q1.
  apply wp_bind. eapply wp_mono; [apply or_close_quiet, alloc_quiet; exact Q1|]. intros [] s2 [slack Q2].
  apply wp_api_. cbn [os set_os]. exists slack. apply close_ok in Q2. exact Q2.
Qed.
Lemma set_dib_quiet bytes c s : bytes ≠ [] → quiet false c (os s) →
  wp (set_dib_image bytes) (λ _ s', ∃ slack slack',
    quiet false {[CF_DIB_U32 := bytes ++ slack; CF_DIBV5_U32 := bytes ++ slack']} (os s')) s.
Proof.
  intros Hne Hq. unfold set_dib_image. destruct bytes as [|b bs] eqn:Eb; [done|]. rewrite <- Eb. clear Hne.
  apply wp_bind. eapply wp_mono; [by eapply open_and_empty_quiet|]. intros [] s1 Q1.
  apply wp_bind. eapply wp_mono; [apply or_close_quiet, alloc_quiet; exact Q1|]. intros [] s2 [slack Q2].
  apply wp_bind. eapply wp_mono; [apply or_close_quiet, alloc_quiet; exact Q2|]. intros [] s3 [slack' Q3].
  apply wp_api_. cbn [os set_os]. exists slack', slack. apply close_ok in Q3. exact Q3.
Qed.

(** ** Reading *)

Lemma current_text_kept text slack c s :
  quiet false c (os s) → c !! CF_UNICODETEXT = Some (text_block text slack) → clean_text text →
  wp current_text (λ r s', r = Some text ∧ quiet false c (os s')) s.
Proof.
  intros Hq Hc [Hv Hn]. unfold current_text. apply wp_bind. destruct (open_ok _ _ Hq) as (w1 & E1 & Q1). eapply wp_api; [exact E1|]. cbn [negb].
  apply wp_bind. destruct (get_ok _ _ _ _ Q1 Hc) as (h & w2 & E2 & Q2 & M2). eapply wp_api; [exact E2|].
  apply wp_bind. destruct (lock_ok _ _ h _ Q2) as (w3 & E3 & Q3 & M3). eapply wp_api; [exact E3|]. cbn [negb].
  apply wp_bind. destruct (block_ok _ _ h _ Q3) as (w4 & E4 & Q4 & _). eapply wp_api; [exact E4|]. rewrite M3, M2.
  destruct (read_units (encode_wide text) slack) as [rest Er]; [by apply encode_wide_units|].
  unfold text_block. rewrite Er, from_utf16_encode by done.
  apply wp_bind, wp_api_. cbn [os set_os]. destruct (unlock_ok _ _ h _ Q4) as [Q5 _].
  apply wp_bind, wp_api_, wp_bind, wp_modify, wp_ret. cbn [os set_os set_cached]. split; [done|]. by apply close_ok.
Qed.
Lemma current_text_absent c s :
  quiet false c (os s) → (∀ g, is_Some (c !! g) → ¬ convertible g CF_UNICODETEXT) →
  wp current_text (λ r s', r = None ∧ quiet false c (os s')) s.
Proof.
  intros Hq Hc. unfold current_text. apply wp_bind. destruct (open_ok _ _ Hq) as (w1 & E1 & Q1). eapply wp_api; [exact E1|]. cbn [negb].
  apply wp_bind. destruct (get_absent _ _ _ Q1 Hc) as (w2 & E2 & Q2). eapply wp_api; [exact E2|].
  apply wp_bind, wp_api_, wp_ret. split; [done|]. by apply close_ok.
Qed.
Lemma current_image_kept bytes c s :
  quiet false c (os s) → c !! CF_DIBV5_U32 = Some bytes → bytes ≠ [] →
  wp current_image (λ r s', r = Some (mkImage MIME_DIB bytes) ∧ quiet false c (os s')) s.
Proof.
  intros Hq Hc Hne. unfold current_image. apply wp_bind. destruct (open_ok _ _ Hq) as (w1 & E1 & Q1). eapply wp_api; [exact E1|]. cbn [negb].
  apply wp_bind. destruct (get_ok _ _ _ _ Q1 Hc) as (h & w2 & E2 & Q2 & M2). eapply wp_api; [exact E2|].
  apply wp_bind. destruct (lock_ok _ _ h _ Q2) as (w3 & E3 & Q3 & M3). eapply wp_api; [exact E3|]. cbn [negb].
  apply wp_bind. destruct (block_ok _ _ h _ Q3) as (w4 & E4 & Q4 & _). eapply wp_api; [exact E4|]. rewrite M3, M2.
  apply wp_bind, wp_api_. cbn [os set_os]. destruct (unlock_ok _ _ h _ Q4) as [Q5 _].
  apply wp_bind, wp_api_. destruct bytes; [done|]. apply wp_ret. split; [done|]. by apply close_ok.
Qed.
Lemma current_image_absent c s :
  quiet false c (os s) → (∀ g, is_Some (c !! g) → ¬ convertible g CF_DIBV5_U32) →
  wp current_image (λ r s', r = None ∧ quiet false c (os s')) s.
Proof.
  intros Hq Hc. unfold current_image. apply wp_bind. destruct (open_ok _ _ Hq) as (w1 & E1 & Q1). eapply wp_api; [exact E1|]. cbn [negb].
  apply wp_bind. destruct (get_absent _ _ _ Q1 Hc) as (w2 & E2 & Q2). eapply wp_api; [exact E2|].
  apply wp_bind, wp_api_, wp_ret. split; [done|]. by apply close_ok.
Qed.
Lemma current_files_absent c s :
  quiet false c (os s) → (∀ g, is_Some (c !! g) → ¬ convertible g CF_HDROP_U32) →
  wp current_files (λ r s', r = None ∧ quiet false c (os s')) s.
Proof.
  intros Hq Hc. unfold current_files. apply wp_bind. destruct (open_ok _ _ Hq) as (w1 & E1 & Q1). eapply wp_api; [exact E1|]. cbn [negb].
  apply wp_bind. destruct (get_absent _ _ _ Q1 Hc) as (w2 & E2 & Q2). eapply wp_api; [exact E2|].
  apply wp_bind, wp_api_, wp_ret. split; [done|]. by apply close_ok.
Qed.

Lemma query_kept names h c n i s :
  quiet true c (os s) → DropFiles.drag_query (memory (os s) h) = Some names → Forall (λ p, p ≠ []) names → i + n = length names →
  wp (query_names h i n) (λ r s', r = from_wide <$> drop i names ∧ quiet true c (os s')) s.
Proof.
  revert i s. induction n as [|n IH]; intros i s Hq Hd Hne Hi; cbn [query_names].
  { apply wp_ret. rewrite drop_ge by lia. done. }
  destruct (drag_ok _ _ _ _ Hq Hd) as [_ Hname]. destruct (lookup_lt_is_Some_2 names i) as [p Hp]; [lia|].
  destruct (Hname i p Hp) as [(w1 & E1 & Q1 & M1) _]. apply wp_bind. eapply wp_api; [exact E1|].
  assert (p ≠ []) as Hp0 by (by eapply Forall_lookup in Hne; [|exact Hp]).
  rewrite decide_False by (by destruct p).
  rewrite <- M1 in Hd. destruct (drag_ok _ _ _ _ Q1 Hd) as [_ Hname1]. destruct (Hname1 i p Hp) as [_ Hcopy].
  destruct (Hcopy (length p + 1)) as (w2 & E2 & Q2 & M2); [lia|]. apply wp_bind. eapply wp_api; [exact E2|].
  apply wp_bind. eapply wp_mono; [apply (IH (i + 1)); cbn [os set_os]; [done|by rewrite M2|done|lia]|].
  intros r s' [-> Hq']. apply wp_ret. split; [|done]. rewrite (drop_S _ _ _ Hp), Nat.add_1_r. by destruct p.
Qed.
Definition clean_name (f : string) : Prop := clean_text f ∧ f ≠ "".
Lemma current_files_kept files slack c s :
  quiet false c (os s) → c !! CF_HDROP_U32 = Some (DropFiles.build_dropfiles_payload (encode_wide <$> files) ++ slack) →
  files ≠ [] → Forall clean_name files →
  wp current_files (λ r s', r = Some files ∧ quiet false c (os s')) s.
Proof.
  intros Hq Hc Hne Hf. unfold current_files. apply wp_bind. destruct (open_ok _ _ Hq) as (w1 & E1 & Q1). eapply wp_api; [exact E1|]. cbn [negb].
  apply wp_bind. destruct (get_ok _ _ _ _ Q1 Hc) as (h & w2 & E2 & Q2 & M2). eapply wp_api; [exact E2|].
  assert (Forall DropFiles.wide_path (encode_wide <$> files)) as Hw.
  { apply Forall_fmap. eapply Forall_impl; [exact Hf|]. intros f [[Hv Hn] Hf0]. split; [by apply encode_wide_nonempty|by apply encode_wide_units]. }
  assert (DropFiles.drag_query (memory w2 h) = Some (encode_wide <$> files)) as Hd.
  { rewrite M2. apply DropFiles.drag_query_payload; [by destruct files|done]. }
  destruct (drag_ok _ _ _ _ Q2 Hd) as [(w3 & E3 & Q3 & M3) _]. apply wp_bind. eapply wp_api; [exact E3|].
  rewrite length_fmap. destruct (length files) as [|n] eqn:En; [by destruct files|].
  apply wp_bind. eapply wp_mono.
  { apply (query_kept (encode_wide <$> files)); [exact Q3|cbn [os set_os]; by rewrite M3| |by rewrite length_fmap].
    eapply Forall_impl; [exact Hw|]. by intros p [? _]. }
  intros r s' [-> Hq']. apply wp_bind, wp_api_, wp_ret.
  assert (from_wide <$> drop 0 (encode_wide <$> files) = files) as ->.
  { rewrite drop_0. clear -Hf. induction Hf as [|f fs [[Hv _] _] _ IH]; [done|]. rewrite !fmap_cons, IH. f_equal. by apply from_wide_encode. }
  split; [by destruct files|]. by apply close_ok.
Qed.

(** ** What was put on the clipboard is what is read *)

Lemma apart f g (b : list byte) (c : gmap Z (list byte)) :
  ¬ convertible f g → (∀ g', is_Some (c !! g') → ¬ convertible g' g) → ∀ g', is_Some (<[f := b]> c !! g') → ¬ convertible g' g.
Proof.
  intros Hf Hc g' Hg. destruct (decide (g' = f)) as [->|Hne]; [done|]. rewrite lookup_insert_ne in Hg by done. by apply Hc.
Qed.
Lemma apart_empty g : ∀ g', is_Some ((∅ : gmap Z (list byte)) !! g') → ¬ convertible g' g.
Proof. intros g' [? Hg]. by rewrite lookup_empty in Hg. Qed.
Ltac unlike := let H := fresh in intros [H|(? & H & H1 & H2)]; [discriminate H|
  unfold FORMAT_GROUPS in H; rewrite !elem_of_cons, elem_of_nil in H; destruct H as [-> |[-> |[-> |[]]]]; set_solver].
Ltac absent := unfold singletonM, map_singleton; repeat (apply apart; [unlike|]); apply apart_empty.

Definition reads_text (text : option string) s : Prop := ∃ s', current_text s = (Ok text, s').
Definition reads_image (image : option ImageBytes) s : Prop := ∃ s', current_image s = (Ok image, s').
Definition reads_files (files : option (list string)) s : Prop := ∃ s', current_files s = (Ok files, s').
Lemma wp_reads {A} (m : ST (WinClipboard W) ClipboardError A) r P s : wp m (λ r' s', r' = r ∧ P s') s → ∃ s', m s = (Ok r, s').
Proof. intros (a & s' & E & -> & _)%wp_Ok. by exists s'. Qed.

(** C24. On a Windows where no call fails: a text without a NUL, or any list of names of
    files, that is put on the clipboard is exactly what is read from it
    afterwards, and nothing else is; a bitmap is read back byte for byte, up to
    what the system added at the end of its block.  This holds for every
    character of Unicode, across both conversions, and whatever is in the
    blocks of memory beyond what was asked for. *)
Theorem contents_kept c s :
  quiet false c (os s) →
  (∀ text, clean_text text → ∃ s', set_text text s = (Ok tt, s') ∧
     reads_text (Some text) s' ∧ reads_image None s' ∧ reads_files None s') ∧
  (∀ files, files ≠ [] → Forall clean_name files → ∃ s', set_files files s = (Ok tt, s') ∧
     reads_text None s' ∧ reads_image None s' ∧ reads_files (Some files) s') ∧
  (∀ bytes, bytes ≠ [] → ∃ s' slack, set_dib_image bytes s = (Ok tt, s') ∧
     reads_text None s' ∧ reads_image (Some (mkImage MIME_DIB (bytes ++ slack))) s' ∧ reads_files None s').
Proof.
  intros Hq. split_and!.
  - intros text Ht. destruct (proj1 (wp_Ok _ _ _) (set_text_quiet text c s Hq)) as ([] & s' & E & slack & Hq').
    exists s'. split_and!; [done|..]; eapply wp_reads.
    + eapply current_text_kept; [exact Hq'|by rewrite lookup_singleton_eq|done].
    + apply (current_image_absent _ _ Hq'). absent.
    + apply (current_files_absent _ _ Hq'). absent.
  - intros files Hne Hf. destruct (proj1 (wp_Ok _ _ _) (set_files_quiet files c s Hne Hq)) as ([] & s' & E & slack & Hq').
    exists s'. split_and!; [done|..]; eapply wp_reads.
    + apply (current_text_absent _ _ Hq'). absent.
    + apply (current_image_absent _ _ Hq'). absent.
    + eapply current_files_kept; [exact Hq'|by rewrite lookup_singleton_eq|done|done].
  - intros bytes Hne. destruct (proj1 (wp_Ok _ _ _) (set_dib_quiet bytes c s Hne Hq)) as ([] & s' & E & slack & slack' & Hq').
    exists s', slack'. split_and!; [done|..]; eapply wp_reads.
    + apply (current_text_absent _ _ Hq'). absent.
    + eapply current_image_kept; [exact Hq'| |by destruct bytes].
      rewrite lookup_insert_ne by done. by rewrite lookup_singleton_eq.
    + apply (current_files_absent _ _ Hq'). absent.
Qed.
(** A text with a NUL is cut off there: what is read is another text than the one
    that was put on the clipboard. *)
Theorem text_cut_at_nul a b c s :
  quiet false c (os s) → clean_text a →
  ∃ s', set_text (a +:+ String "000" b) s = (Ok tt, s') ∧ reads_text (Some a) s'.
Proof.
  intros Hq [Hv Hn]. set (text := a +:+ _).
  destruct (proj1 (wp_Ok _ _ _) (set_text_quiet text c s Hq)) as ([] & s' & E & slack & Hq').
  exists s'. split; [done|]. eapply wp_reads.
  assert (text_block text slack = text_block a (DropFiles.wide_bytes (encode_wide b ++ [0%Z]) ++ slack)) as Hb.
  { unfold text_block, text. rewrite encode_wide_app by done. change (encode_wide (String "000" b)) with (0%Z :: encode_wide b).
    rewrite app_assoc. f_equal. unfold DropFiles.wide_bytes. rewrite <- concat_app, <- fmap_app. do 2 f_equal. by rewrite <- !app_assoc. }
  rewrite Hb in Hq'. eapply current_text_kept; [exact Hq'|by rewrite lookup_singleton_eq|done].
Qed.

(** When the block of the clipboard cannot be locked, the error message is read as
    the text of the clipboard. *)
Lemma error_is_text s w1 h w2 w3 :
  OpenClipboard (os s) = (true, w1) → GetClipboardData CF_UNICODETEXT w1 = (Some h, w2) → GlobalLock h w2 = (false, w3) →
  reads_text (Some (err_to_string "GlobalLock" (GetLastError w3))) s.
Proof.
  intros E1 E2 E3. eapply (wp_reads _ _ (λ _, True)). unfold current_text.
  apply wp_bind. eapply wp_api; [exact E1|]. cbn [negb]. apply wp_bind. eapply wp_api; [exact E2|].
  apply wp_bind. eapply wp_api; [exact E3|]. cbn [negb]. apply wp_bind, wp_gets, wp_bind, wp_api_, wp_ret. done.
Qed.
(** When the clipboard does not take a block, it is left empty, and the call
    succeeds all the same. *)
Lemma refused_block_ok text s w1 w2 h w3 w4 w7 :
  OpenClipboard (os s) = (true, w1) → EmptyClipboard w1 = (true, w2) →
  GlobalAlloc (2 * length (encode_wide text ++ [0%Z])) w2 = (Some h, w3) → GlobalLock h w3 = (true, w4) →
  SetClipboardData CF_UNICODETEXT h (GlobalUnlock h (copy_to h (DropFiles.wide_bytes (encode_wide text ++ [0%Z])) w4)) = (false, w7) →
  ∃ s', set_text text s = (Ok tt, s') ∧ os s' = CloseClipboard w7.
Proof.
  intros E1 E2 E3 E4 E7.
  assert (wp (set_text text) (λ _ s', os s' = CloseClipboard w7) s) as (a & s' & E & Ho)%wp_Ok; [|destruct a; by exists s'].
  unfold set_text. apply wp_bind. eapply wp_api; [exact E1|]. cbn [negb].
  apply wp_bind. eapply wp_api; [exact E2|]. cbn [negb]. apply wp_bind. eapply wp_api; [exact E3|].
  apply wp_bind. eapply wp_api; [exact E4|]. cbn [negb]. apply wp_bind, wp_api_, wp_bind, wp_api_, wp_bind.
  eapply wp_api; [exact E7|]. apply wp_bind, wp_api_, wp_modify. done.
Qed.

(** ** The laws of the daemon *)

#[export] Instance Win_texts : TextLaws (WinClipboard W).
Proof.
  refine (Build_TextLaws (WinClipboard W) _ (λ text s, clean_text text ∧ ∃ c, quiet false c (os s))
    (λ text s, clean_text text ∧ ∃ slack, quiet false {[CF_UNICODETEXT := text_block text slack]} (os s)) _ _).
  - intros text s s' [Ht [c Hq]] E. cbn in E. apply succeeded_true in E. split; [done|].
    exact (wp_eq _ _ _ _ _ (set_text_quiet text c s Hq) E).
  - intros text s (Ht & slack & Hq). split_and!.
    + destruct (proj1 (wp_Ok _ _ _) (current_text_kept text slack _ s Hq (lookup_singleton_eq _ _) Ht)) as (r & s' & E & -> & Hq').
      exists s'. split; [by apply answered_Ok|]. split; [done|]. by exists slack.
    + destruct (proj1 (wp_Ok _ _ _) (current_image_absent _ s Hq ltac:(absent))) as (r & s' & E & -> & Hq').
      exists s'. split; [by apply answered_Ok|]. split; [done|]. by exists slack.
    + destruct (proj1 (wp_Ok _ _ _) (current_files_absent _ s Hq ltac:(absent))) as (r & s' & E & -> & Hq').
      exists s'. split; [by apply answered_Ok|]. split; [done|]. by exists slack.
Defined.
Definition dropped (files : list string) (slack : list byte) : gmap Z (list byte) :=
  {[CF_HDROP_U32 := DropFiles.build_dropfiles_payload (encode_wide <$> files) ++ slack]}.
#[export] Instance Win_files : FileLaws (WinClipboard W).
Proof.
  refine (Build_FileLaws (WinClipboard W) _ (λ files s, files ≠ [] ∧ Forall clean_name files ∧ ∃ c, quiet false c (os s))
    (λ files s, files ≠ [] ∧ Forall clean_name files ∧ ∃ slack, quiet false (dropped files slack) (os s)) _ _).
  - intros files s s' (Hne & Hf & c & Hq) E. cbn in E. apply succeeded_true in E. split_and!; [done..|].
    exact (wp_eq _ _ _ _ _ (set_files_quiet files c s Hne Hq) E).
  - intros files s (Hne & Hf & slack & Hq). split_and!.
    + destruct (proj1 (wp_Ok _ _ _) (current_text_absent _ s Hq ltac:(unfold dropped; absent))) as (r & s' & E & -> & Hq').
      exists s'. split; [by apply answered_Ok|]. split_and!; [done..|]. by exists slack.
    + destruct (proj1 (wp_Ok _ _ _) (current_image_absent _ s Hq ltac:(unfold dropped; absent))) as (r & s' & E & -> & Hq').
      exists s'. split; [by apply answered_Ok|]. split_and!; [done..|]. by exists slack.
    + destruct (proj1 (wp_Ok _ _ _) (current_files_kept files slack _ s Hq (lookup_singleton_eq _ _) Hne Hf)) as (r & s' & E & -> & Hq').
      exists s', files. split; [by apply answered_Ok|]. split; [done|]. split_and!; [done..|]. by exists slack.
Defined.
End kept.

(** * A Windows where nothing fails *)

(** Its blocks are two bytes longer than what was asked for. *)
Module Demo.
Record World : Type := mkWorld { on_clip : gmap Z (list byte); is_open : bool; heap : gmap N (list byte); fresh : N }.
Definition block_of (w : World) (h : HGLOBAL) : list byte := default [] (heap w !! h).
Definition set_heap (h : HGLOBAL) (bytes : list byte) (w : World) : World :=
  mkWorld (on_clip w) (is_open w) (<[h := bytes]> (heap w)) (fresh w).
Definition new_block (bytes : list byte) (w : World) : option HGLOBAL * World :=
  (Some (fresh w), mkWorld (on_clip w) (is_open w) (<[fresh w := bytes]> (heap w)) (fresh w + 1)%N).
Definition names (w : World) (h : HGLOBAL) : list (list Z) := default [] (DropFiles.drag_query (block_of w h)).
#[export] Instance calm : Win32 World := {
  OpenClipboard w := (true, mkWorld (on_clip w) true (heap w) (fresh w));
  CloseClipboard w := mkWorld (on_clip w) false (heap w) (fresh w);
  EmptyClipboard w := (true, mkWorld ∅ (is_open w) (heap w) (fresh w));
  GetClipboardData f w := match on_clip w !! f with Some bytes => new_block bytes w | None => (None, w) end;
  SetClipboardData f h w := (true, mkWorld (<[f := block_of w h]> (on_clip w)) (is_open w) (heap w) (fresh w));
  GlobalAlloc n w := new_block (replicate n x00 ++ [xff; xff]) w;
  GlobalLock h w := (true, w);
  GlobalUnlock h w := w;
  GlobalFree h w := w;
  block h w := (block_of w h, w);
  copy_to h bytes w := set_heap h (bytes ++ drop (length bytes) (block_of w h)) w;
  drag_count h w := (length (names w h), w);
  drag_length h i w := (length (default [] (names w h !! i)), w);
  drag_name h i n w := (take (n - 1) (default [] (names w h !! i)), w);
  GetLastError w := 0%Z
}.
#[export] Instance laws : Win32Laws World.
Proof.
  refine {| quiet o c w := on_clip w = c ∧ is_open w = o; memory := block_of |}.
  - intros c w [<- _]. by eexists.
  - by intros c w [<- _].
  - intros c w [_ Ho]. by eexists.
  - intros o c n w [<- <-]. eexists _, _. split; [done|]. split; [done|]. unfold block_of. cbn. rewrite lookup_insert_eq. cbn.
    rewrite length_app, length_replicate. cbn. lia.
  - intros o c h w Hq. by exists w.
  - intros o c h bytes w [<- <-] _. split; [done|]. unfold block_of at 1. cbn. by rewrite lookup_insert_eq.
  - by intros o c h w Hq.
  - intros c f h w [<- Ho]. by eexists.
  - intros c f bytes w [<- Ho] Hc. cbn. rewrite Hc. eexists _, _. split; [done|]. split; [done|].
    unfold block_of. cbn. by rewrite lookup_insert_eq.
  - intros c f w [<- Ho] Hc. cbn. destruct (on_clip w !! f) as [bytes|] eqn:Ef; [|by exists w].
    exfalso. apply (Hc f); [by rewrite Ef|by left].
  - intros o c h w Hq. by exists w.
  - intros c h l w Hq Hd. assert (names w h = l) as Hn by (unfold names; by rewrite Hd). cbn [drag_count drag_length drag_name calm]. rewrite Hn.
    split; [by exists w|]. intros i p Hp. rewrite Hp. cbn. split; [by exists w|]. intros n Hl. exists w. split; [|done].
    by rewrite take_ge by lia.
Defined.
#[export] Instance no_images : ImageCrate := {
  DynamicImage := Empty_set; load_from_memory bytes := inl "unsupported"; write_to _ i := match i with end
}.
Definition start : WinClipboard World := mkWin None (mkWorld {[CF_UNICODETEXT := [x61; x00; x00; x00]]} false ∅ 1).
End Demo.
Import (hints) Demo.

(** Where every block is refused, both blocks of a bitmap and that of a text are
    lost, and the calls succeed. *)
Definition refusing : Win32 Demo.World := {|
  OpenClipboard := OpenClipboard; CloseClipboard := CloseClipboard; EmptyClipboard := EmptyClipboard; GetClipboardData := GetClipboardData;
  SetClipboardData _ _ w := (false, w);
  GlobalAlloc := GlobalAlloc; GlobalLock := GlobalLock; GlobalUnlock := GlobalUnlock; GlobalFree := GlobalFree;
  block := block; copy_to := copy_to; drag_count := drag_count; drag_length := drag_length; drag_name := drag_name; GetLastError := GetLastError
|}.
Example refused_blocks_lost :
  let s := mkWin None (mkMonitored (os Demo.start) (Some (mkProto false false [] [] None []))) in
  let watched : Win32 (Monitored Demo.World) := @Monitor _ refusing in
  let after_text := set_text (Win := watched) "hello" s in
  let after_dib := set_dib_image (Win := watched) [x61] s in
  fst after_text = Ok tt ∧ (owned <$> ghost (os (snd after_text))) = Some [1%N] ∧
  fst after_dib = Ok tt ∧ (owned <$> ghost (os (snd after_dib))) = Some [2%N; 1%N].
Proof. vm_compute. done. Qed.
Lemma contents_kept_witness : ∃ s', set_text "aé→🎉" Demo.start = (Ok tt, s') ∧ reads_text (Some "aé→🎉") s'.
Proof.
  destruct (contents_kept {[CF_UNICODETEXT := [x61; x00; x00; x00]]} Demo.start) as (Ht & _); [done|].
  destruct (Ht "aé→🎉") as (s' & E & Hr & _); [split; [by vm_compute|apply (bool_decide_unpack (no_nul "aé→🎉")); vm_compute; exact I]|]. by exists s'.
Defined.
Lemma text_cut_at_nul_witness : ∃ s', set_text (String "a" (String "000" "b")) Demo.start = (Ok tt, s') ∧ reads_text (Some "a") s'.
Proof.
  apply (text_cut_at_nul "a" "b" {[CF_UNICODETEXT := [x61; x00; x00; x00]]} Demo.start); [done|].
  split; [by vm_compute|apply (bool_decide_unpack (no_nul "a")); vm_compute; exact I].
Defined.
