(* ===== verification/Backend.v ===== *)
(** What a capture backend that waits for the peer promises to the capture task
    (the comments of [trait Capture] in input-capture/src/lib.rs), as a
    specification that the backends of macOS and Windows refine: which events
    it may emit, in which order, in answer to which requests.  The file also
    holds the modifier bits that several backends define alike. *)

From S2P Require Import Prelude InputEvent Geometry InputCapture.

(** * The modifier bits of X11/X.h *)

Module XMods.
Open Scope Z_scope.
Definition ShiftMask : Z := 1.
Definition LockMask : Z := 2.
Definition ControlMask : Z := 4.
Definition Mod1Mask : Z := 8.
Definition Mod2Mask : Z := 16.
Definition Mod3Mask : Z := 32.
Definition Mod4Mask : Z := 64.
Definition Mod5Mask : Z := 128.
Definition all : Z := 255.
(** [contains], [from_bits] and [from_bits_truncate] of bitflags. *)
Definition contains (m f : Z) : bool := Z.land m f =? f.
Definition from_bits (b : Z) : option Z := if Z.land b all =? b then Some b else None.
Definition from_bits_truncate (b : Z) : Z := Z.land b all.
Close Scope Z_scope.
End XMods.

(** * The specification *)

Inductive phase : Type := Idle | Waiting (key : BarrierKey) | Capturing (key : BarrierKey).
#[export] Instance phase_eq_dec : EqDecision phase.
Proof. solve_decision. Defined.

(** What the capture task asks for, at the moment the backend handles it. *)
Inductive request : Type :=
| CreateBarrier (key : BarrierKey)
| DestroyBarrier (key : BarrierKey)
| Release
| StartCapture (key : BarrierKey)
| CancelRequest (key : BarrierKey).

Abbreviation emitted := (list (BarrierKey * CaptureEvent)).

Definition at_key (key : BarrierKey) (p : phase) : bool :=
  match p with Idle => false | Waiting k | Capturing k => bool_decide (k = key) end.
Definition inputs (key : BarrierKey) (es : emitted) : Prop := Forall (λ e, ∃ i, e = (key, Input i)) es.

(** One step: the request that is handled, if any, the phases before and after
    it, and what is emitted in it.  A step without a request is one of the
    cursor, of the keys or of the system, which may also take the capture
    away. *)
Inductive step_ok : option request → phase → emitted → phase → Prop :=
| ok_quiet p : step_ok None p [] p
| ok_cross k : step_ok None Idle [(k, BeginPending)] (Waiting k)
| ok_pulled_back k : step_ok None (Waiting k) [(k, CancelPending)] Idle
| ok_switch k k' : k ≠ k' → step_ok None (Waiting k) [(k, CancelPending); (k', BeginPending)] (Waiting k')
| ok_input k es : inputs k es → step_ok None (Capturing k) es (Capturing k)
| ok_lost p : step_ok None p [] Idle
| ok_create k p : step_ok (Some (CreateBarrier k)) p [] p
| ok_destroy k p : step_ok (Some (DestroyBarrier k)) p [] (if at_key k p then Idle else p)
| ok_release p : step_ok (Some Release) p [] Idle
| ok_start k : step_ok (Some (StartCapture k)) (Waiting k) [(k, Begin)] (Capturing k)
| ok_start_other k p : p ≠ Waiting k → step_ok (Some (StartCapture k)) p [] p
| ok_cancel k es : es = [] ∨ es = [(k, CancelPending)] → step_ok (Some (CancelRequest k)) (Waiting k) es Idle
| ok_cancel_other k p : p ≠ Waiting k → step_ok (Some (CancelRequest k)) p [] p.

(** A trace: the steps of a run with what each emitted. *)
Abbreviation trace := (list (option request * emitted)).
Inductive conforms : phase → trace → phase → Prop :=
| conforms_nil p : conforms p [] p
| conforms_cons p q r o es tr : step_ok o p es q → conforms q tr r → conforms p ((o, es) :: tr) r.

Lemma conforms_app p q r tr tr' : conforms p tr q → conforms q tr' r → conforms p (tr ++ tr') r.
Proof. induction 1; cbn; [done|]. intros. by econstructor; [|auto]. Qed.
Lemma conforms_app_inv p r tr tr' : conforms p (tr ++ tr') r → ∃ q, conforms p tr q ∧ conforms q tr' r.
Proof.
  revert p. induction tr as [|[o es] tr IH]; intros p; cbn; [intros H; exists p; split; [constructor|done]|].
  intros H. inversion H as [|? q ? ? ? ? H1 H2]; subst. destruct (IH q H2) as (q' & H3 & H4).
  exists q'. split; [by econstructor|done].
Qed.

(** * What the specification means

    How a phase came about: the crossing, and the grant. *)

(** Nothing of [tr] ended a capture at [k]: no release, no destruction. *)
Definition keeps (k : BarrierKey) (tr : trace) : Prop :=
  Forall (λ '(o, es), o ≠ Some Release ∧ o ≠ Some (DestroyBarrier k) ∧ inputs k es) tr.
(** Nothing of [tr] ended the waiting at [k]. *)
Definition waits (k : BarrierKey) (tr : trace) : Prop :=
  Forall (λ '(o, es), o ≠ Some Release ∧ o ≠ Some (DestroyBarrier k) ∧ o ≠ Some (CancelRequest k) ∧
            es = []) tr.

Definition crossed (k : BarrierKey) (tr : trace) : Prop :=
  ∃ tr1 es tr2, tr = tr1 ++ (None, es ++ [(k, BeginPending)]) :: tr2 ∧ waits k tr2.
Definition granted (k : BarrierKey) (tr : trace) : Prop :=
  ∃ tr1 tr2, tr = tr1 ++ (Some (StartCapture k), [(k, Begin)]) :: tr2 ∧ crossed k tr1 ∧ keeps k tr2.

Definition explained (tr : trace) (p : phase) : Prop :=
  match p with Idle => True | Waiting k => crossed k tr | Capturing k => granted k tr end.

Lemma crossed_snoc k tr o es :
  crossed k tr → o ≠ Some Release → o ≠ Some (DestroyBarrier k) → o ≠ Some (CancelRequest k) → es = [] →
  crossed k (tr ++ [(o, es)]).
Proof.
  intros (t1 & e & t2 & -> & Hw) H1 H2 H3 ->. exists t1, e, (t2 ++ [(o, [])]). split; [by rewrite <- app_assoc|].
  apply Forall_app. split; [done|]. by repeat constructor.
Qed.
Lemma granted_snoc k tr o es :
  granted k tr → o ≠ Some Release → o ≠ Some (DestroyBarrier k) → inputs k es → granted k (tr ++ [(o, es)]).
Proof.
  intros (t1 & t2 & -> & Hc & Hk) H1 H2 H3. exists t1, (t2 ++ [(o, es)]). split; [by rewrite <- app_assoc|].
  split; [done|]. apply Forall_app. split; [done|]. by repeat constructor.
Qed.
Lemma crossed_now k tr es : crossed k (tr ++ [(None, es ++ [(k, BeginPending)])]).
Proof. exists tr, es, []. split; [done|constructor]. Qed.

Lemma explained_kept tr p o :
  explained tr p → o ≠ Some Release → (∀ k, at_key k p = true → o ≠ Some (DestroyBarrier k)) →
  (∀ k, p = Waiting k → o ≠ Some (CancelRequest k)) → explained (tr ++ [(o, [])]) p.
Proof.
  intros Hp H1 H2 H3. destruct p as [|k|k]; cbn in *; [done|apply crossed_snoc|apply granted_snoc]; try done;
    try (apply H2; by apply bool_decide_eq_true); [by apply H3|constructor].
Qed.

Lemma explained_step tr p o es q : explained tr p → step_ok o p es q → explained (tr ++ [(o, es)]) q.
Proof.
  intros Hp Hs. destruct Hs; cbn; try done.
  - by apply explained_kept.
  - apply (crossed_now k tr []).
  - apply (crossed_now k' tr [_]).
  - by apply granted_snoc.
  - by apply explained_kept.
  - destruct (at_key k p) eqn:E; [done|]. apply explained_kept; [done|done| |done].
    intros k' Hk' [= ->]. congruence.
  - exists tr, []. split; [done|]. split; [done|constructor].
  - apply explained_kept; done.
  - apply explained_kept; [done..|]. intros k' -> [= ->]. done.
Qed.

Lemma conforms_explained tr p : conforms Idle tr p → explained tr p.
Proof.
  assert (∀ tr' q r, conforms q tr' r → ∀ tr, explained tr q → explained (tr ++ tr') r) as H.
  { induction 1 as [|q q' r o es tr' Hs _ IH]; intros tr0 Ht; [by rewrite app_nil_r|].
    rewrite cons_middle, app_assoc. apply IH. by eapply explained_step. }
  intros Hc. by apply (H tr Idle p Hc []).
Qed.

(** In every trace of the specification an input is emitted only while a
    capture is on that the capture task granted: after a crossing of that
    barrier that nothing took back, a request to start for it, and no release
    or destruction since. *)
Lemma input_granted tr p k e tr1 o es tr2 :
  conforms Idle tr p → tr = tr1 ++ (o, es) :: tr2 → (k, Input e) ∈ es → granted k tr1.
Proof.
  intros Hc -> Hin. apply conforms_app_inv in Hc as (q & H1 & H2).
  apply conforms_explained in H1. inversion H2 as [|? q' ? ? ? ? Hs _]; subst.
  assert (q = Capturing k) as ->; [|done].
  destruct Hs; try (by apply elem_of_nil in Hin); rewrite ?list_elem_of_In in Hin; cbn in Hin; try naive_solver.
  rewrite <- list_elem_of_In in Hin. unfold inputs in *. rewrite Forall_forall in H. apply H in Hin as [i [= -> ->]]. done.
Qed.

(** * Backends that begin at once

    A backend that does not wait for the peer begins by itself; what it may
    emit is an input at the barrier of the last [Begin]. *)

Definition begins (e : BarrierKey * CaptureEvent) : option BarrierKey :=
  match e with (k, Begin) => Some k | _ => None end.
Definition begun (es : emitted) : option BarrierKey := last (omap begins es).
Definition follows_begin (es : emitted) : Prop :=
  ∀ es1 k i es2, es = es1 ++ (k, Input i) :: es2 → begun es1 = Some k.

Lemma begun_snoc es e : begun (es ++ [e]) = match begins e with Some k => Some k | None => begun es end.
Proof.
  unfold begun. rewrite omap_app. cbn. destruct (begins e); [by rewrite last_snoc|by rewrite app_nil_r].
Qed.
Lemma follows_snoc es e :
  follows_begin es → (∀ k i, e = (k, Input i) → begun es = Some k) → follows_begin (es ++ [e]).
Proof.
  intros Hf He es1 k i es2 E. destruct es2 as [|x es2 _] using rev_ind.
  - apply app_inj_tail in E as [<- ->]. by apply (He k i).
  - rewrite app_comm_cons, app_assoc in E.
    apply app_inj_tail in E as [-> _]. by apply (Hf es1 k i es2).
Qed.
Lemma follows_app es1 es2 : follows_begin es1 → follows_begin es2 → follows_begin (es1 ++ es2).
Proof.
  intros H1. induction es2 as [|e es2 IH] using rev_ind; intros H2; [by rewrite app_nil_r|].
  assert (follows_begin es2) as H2'.
  { intros a k i b ->. apply (H2 a k i (b ++ [e])). by rewrite <- app_assoc. }
  rewrite app_assoc. apply follows_snoc; [auto|]. intros k i ->. specialize (H2 es2 k i [] eq_refl).
  unfold begun in *. rewrite omap_app, last_app, H2. done.
Qed.
Lemma follows_nil : follows_begin [].
Proof. intros [|??] ????; done. Qed.

(** * Refinement

    A backend is a step function with labels; [phase_of] is what the
    specification sees of its state, [inv] what holds of every state. *)

Section refines.
Context {S L : Type} (step : L → S → emitted * S) (asked : L → option request)
  (phase_of : S → phase) (inv : S → Prop) (fair : L → Prop).

Fixpoint run (ls : list L) (s : S) : trace * S :=
  match ls with
  | [] => ([], s)
  | l :: ls =>
      let '(es, s') := step l s in
      let '(tr, s'') := run ls s' in
      ((asked l, es) :: tr, s'')
  end.

Definition refines : Prop :=
  ∀ l s, fair l → inv s → inv (snd (step l s)) ∧
    step_ok (asked l) (phase_of s) (fst (step l s)) (phase_of (snd (step l s))).

Lemma run_inv ls s : refines → Forall fair ls → inv s → inv (snd (run ls s)).
Proof.
  intros Hr Hf. revert s. induction Hf as [|l ls Hl _ IH]; intros s Hs; [done|]. cbn.
  destruct (Hr l s Hl Hs) as [Hi _]. destruct (step l s) as [es s']. specialize (IH s' Hi).
  by destruct (run ls s').
Qed.
Lemma run_conforms ls s :
  refines → Forall fair ls → inv s → conforms (phase_of s) (fst (run ls s)) (phase_of (snd (run ls s))).
Proof.
  intros Hr Hf. revert s. induction Hf as [|l ls Hl _ IH]; intros s Hs; cbn; [constructor|].
  destruct (Hr l s Hl Hs) as [Hi Ho]. destruct (step l s) as [es s']. specialize (IH s' Hi).
  destruct (run ls s') as [tr s'']. by econstructor.
Qed.
End refines.
