(* ===== verification/Pixels.v ===== *)
(** Barrier detection on whole pixels.  Every backend hands the geometry of
    input-capture/src/geometry/mod.rs displays and, on Windows, points whose
    coordinates are integers; on those the arithmetic in doubles is a plain
    definition over integers, given here as the reference. *)

From S2P Require Import Prelude Geometry Doubles.
#[local] Open Scope Z_scope.

(** * The reference *)

Record IRect : Type := mkIRect { ix : Z; iy : Z; iw : Z; ih : Z }.
Abbreviation ipoint := (Z * Z)%type.

Definition ibottom (r : IRect) : Z := iy r + ih r.
Definition iright (r : IRect) : Z := ix r + iw r.
Definition inside (p : ipoint) (r : IRect) : bool :=
  (ix r <=? fst p) && (fst p <? iright r) && (iy r <=? snd p) && (snd p <? ibottom r).
(** The edges of [r] that [p] is past. *)
Definition past (p : ipoint) (r : IRect) : list Position :=
  (if fst p <? ix r then [Edge.Left] else []) ++ (if iright r <=? fst p then [Edge.Right] else []) ++
  (if snd p <? iy r then [Edge.Top] else []) ++ (if ibottom r <=? snd p then [Edge.Bottom] else []).
(** The cursor leaves the displays over one edge of the display it was on. *)
Definition crossing (prev curr : ipoint) (rs : list IRect) : option Position :=
  match find (inside prev) rs with
  | Some r => if existsb (inside curr) rs then None else match past curr r with [pos] => Some pos | _ => None end
  | None => None
  end.
Definition clamp_into (r : IRect) (p : ipoint) : ipoint :=
  (Z.max (ix r) (Z.min (iright r - 1) (fst p)), Z.max (iy r) (Z.min (ibottom r - 1) (snd p))).

(** * Its embedding *)

Definition to_point (p : ipoint) : point := (of_Z (fst p), of_Z (snd p)).
Definition to_rect (r : IRect) : DisplayRect := mkRect (of_Z (ix r)) (of_Z (iy r)) (of_Z (iw r)) (of_Z (ih r)).
Definition small (z : Z) : Prop := - 2 ^ 40 < z < 2 ^ 40.
Definition small_point (p : ipoint) : Prop := small (fst p) ∧ small (snd p).
Definition small_rect (r : IRect) : Prop := small (ix r) ∧ small (iy r) ∧ small (iw r) ∧ small (ih r).

#[local] Ltac range := unfold small_point, small_rect, small, iright, ibottom in *; lia.

Lemma right_exact r : small_rect r → right (to_rect r) = of_Z (iright r).
Proof. intros H. unfold right, to_rect. cbn. apply add_exact; range. Qed.
Lemma bottom_exact r : small_rect r → bottom (to_rect r) = of_Z (ibottom r).
Proof. intros H. unfold bottom, to_rect. cbn. apply add_exact; range. Qed.

Lemma inside_exact p r : small_point p → small_rect r → contains_point (to_point p) (to_rect r) = inside p r.
Proof.
  intros Hp Hr. unfold contains_point, inside. rewrite right_exact, bottom_exact by done. cbn.
  by rewrite !le_exact, !lt_exact by range.
Qed.
Lemma past_exact p r pos :
  small_point p → small_rect r →
  past_edge pos (to_point p) (to_rect r) =
    match pos with
    | Edge.Left => fst p <? ix r | Edge.Right => iright r <=? fst p
    | Edge.Top => snd p <? iy r | Edge.Bottom => ibottom r <=? snd p
    end.
Proof.
  intros Hp Hr. destruct pos; cbn [past_edge]; rewrite ?right_exact, ?bottom_exact by done; cbn;
    rewrite ?le_exact, ?lt_exact by range; done.
Qed.

Lemma find_exact p rs :
  small_point p → Forall small_rect rs → display_containing (to_rect <$> rs) (to_point p) = to_rect <$> find (inside p) rs.
Proof.
  intros Hp. unfold display_containing. induction 1 as [|r rs Hr _ IH]; [done|]. cbn [fmap list_fmap find].
  rewrite inside_exact by done. destruct (inside p r); [done|]. apply IH.
Qed.
Lemma exists_exact p rs :
  small_point p → Forall small_rect rs → in_display_region (to_point p) (to_rect <$> rs) = existsb (inside p) rs.
Proof.
  intros Hp. unfold in_display_region. induction 1 as [|r rs Hr _ IH]; [done|]. cbn [fmap list_fmap existsb].
  by rewrite region_contains, inside_exact, IH by done.
Qed.

(** The list of edges, one by one. *)
Lemma past_single p r pos :
  past p r = [pos] ↔ ∀ pos', (match pos' with
    | Edge.Left => fst p <? ix r | Edge.Right => iright r <=? fst p
    | Edge.Top => snd p <? iy r | Edge.Bottom => ibottom r <=? snd p end) = bool_decide (pos' = pos).
Proof.
  unfold past. destruct (fst p <? ix r) eqn:EL, (iright r <=? fst p) eqn:ER, (snd p <? iy r) eqn:ET, (ibottom r <=? snd p) eqn:EB;
    cbn [app]; (split; [intros [=]; subst; intros []; rewrite ?EL, ?ER, ?ET, ?EB; done|
    intros H; pose proof (H Edge.Left) as HL; pose proof (H Edge.Right) as HR; pose proof (H Edge.Top) as HT;
      pose proof (H Edge.Bottom) as HB; cbn in *; rewrite ?EL, ?ER, ?ET, ?EB in *; destruct pos; done]).
Qed.

(** On whole pixels the detection of crossings in doubles, NaN guards,
    rounding and the final test of the direction included, is the reference:
    the cursor was on a display and is on none, and is past exactly one edge of
    the first display that it was on. *)
Theorem crossing_exact prev curr rs :
  small_point prev → small_point curr → Forall small_rect rs →
  entered_barrier (to_point prev) (to_point curr) (to_rect <$> rs) = crossing prev curr rs.
Proof.
  intros Hp Hc Hr. apply option_eq. intros pos. rewrite entered_barrier_iff.
  rewrite find_exact, exists_exact by done. unfold crossing.
  destruct (find (inside prev) rs) as [r|] eqn:Ef; [|split; [by intros (? & ? & _)|done]].
  assert (small_rect r ∧ inside prev r = true) as [Hsr Hin].
  { apply find_Some in Ef as (i & Hi & Hin & _). split; [|done]. by eapply Forall_lookup_1. }
  assert (only_edge pos (to_point curr) (to_rect r) ↔ past curr r = [pos]) as Ho.
  { rewrite past_single. unfold only_edge. rewrite past_exact by done. split.
    - intros [H1 H2] pos'. rewrite <- past_exact by done. destruct (decide (pos' = pos)) as [->|Hne].
      + by rewrite bool_decide_true, past_exact by done.
      + by rewrite bool_decide_false, H2 by done.
    - intros H. split; [by rewrite H, bool_decide_true|]. intros pos' Hne.
      by rewrite past_exact, H, bool_decide_false by done. }
  assert (past curr r = [pos] → moves_towards pos (to_point prev) (to_point curr) = true) as Hm.
  { intros H. rewrite past_single in H. specialize (H pos). rewrite bool_decide_true in H by done.
    unfold inside in Hin. rewrite !andb_true_iff, !Z.leb_le, !Z.ltb_lt in Hin.
    unfold moves_towards, to_point. cbn [fst snd]. rewrite !sub_exact by range. change f64_zero with (of_Z 0).
    destruct pos; rewrite lt_exact by range; apply Z.ltb_lt; first [apply Z.ltb_lt in H|apply Z.leb_le in H]; lia. }
  destruct (existsb (inside curr) rs); [split; [by intros (? & _ & ? & _)|done]|].
  split.
  - intros (d & [= <-] & _ & H & _). apply Ho in H. by rewrite H.
  - intros H. assert (past curr r = [pos]) as Hpast by (destruct (past curr r) as [|? [|]]; congruence).
    exists (to_rect r). split_and!; [done|done|by apply Ho|by apply Hm].
Qed.
(** Two displays side by side: out over the left edge of the left one, across
    the seam, and out over a corner. *)
Definition two : list IRect := [mkIRect 0 0 1920 1080; mkIRect 1920 0 1280 1024].
Lemma crossing_exact_witness :
  entered_barrier (to_point (0, 500)) (to_point (-3, 501)) (to_rect <$> two) = Some Edge.Left ∧
  entered_barrier (to_point (1919, 500)) (to_point (1922, 500)) (to_rect <$> two) = None ∧
  entered_barrier (to_point (1, 1)) (to_point (-1, -1)) (to_rect <$> two) = None.
Proof.
  split_and!; (etransitivity; [apply crossing_exact|reflexivity]);
    repeat constructor; unfold small; cbn; lia.
Defined.

(** ** Clamping *)

Lemma clamp_exact v lo hi :
  small v → small lo → small hi → lo ≤ hi → f64_clamp (of_Z v) (of_Z lo) (of_Z hi) = Ok (of_Z (Z.max lo (Z.min hi v))).
Proof.
  intros Hv Hl Hh Hle. unfold f64_clamp. rewrite le_exact by range. destruct (Z.leb_spec lo hi); [|lia].
  rewrite lt_exact by range. destruct (Z.ltb_spec v lo).
  - rewrite lt_exact by range. destruct (Z.ltb_spec hi lo); [lia|]. do 2 f_equal. lia.
  - rewrite lt_exact by range. destruct (Z.ltb_spec hi v); do 2 f_equal; lia.
Qed.

Definition smaller (z : Z) : Prop := - 2 ^ 38 < z < 2 ^ 38.
Definition layout (rs : list IRect) : Prop := Forall (λ r, smaller (ix r) ∧ smaller (iy r) ∧ smaller (iw r) ∧ smaller (ih r)) rs.
Lemma layout_small rs : layout rs → Forall small_rect rs.
Proof. intros H. eapply Forall_impl; [exact H|]. cbn. unfold smaller, small_rect, small. lia. Qed.

(** A display that contains a point has an area, so that clamping never panics
    on whole pixels, and the result is a pixel of that display. *)
Lemma clamp_pixels rs prev p :
  layout rs → small_point prev → small_point p →
  clamp_to_display_bounds (to_rect <$> rs) (to_point prev) (to_point p) =
    Ok (to_point (match find (inside prev) rs with Some r => clamp_into r p | None => p end)).
Proof.
  intros Hl Hp Hq. pose proof (layout_small rs Hl) as Hs. unfold clamp_to_display_bounds.
  rewrite find_region, find_exact by done. destruct (find (inside prev) rs) as [r|] eqn:Ef; [|done]. cbn [fmap option_fmap option_map].
  apply find_Some in Ef as (i & Hi & Hin & _).
  assert (small_rect r) as Hr by (by eapply Forall_lookup_1).
  pose proof (Forall_lookup_1 _ _ _ _ Hl Hi) as (H1 & H2 & H3 & H4).
  unfold inside in Hin. rewrite !andb_true_iff, !Z.leb_le, !Z.ltb_lt in Hin.
  rewrite right_exact, bottom_exact by done. change f64_one with (of_Z 1). unfold left, top, to_rect. cbn [rx ry].
  assert (smaller (ix r) ∧ smaller (iw r) ∧ smaller (iy r) ∧ smaller (ih r)) as Hsm by done. unfold smaller in Hsm.
  rewrite !sub_exact by range. unfold to_point at 1 2. cbn [fst snd].
  rewrite !clamp_exact by range. cbn [mbind outcome_bind]. reflexivity.
Qed.
Lemma clamp_into_inside r p q : inside q r = true → inside (clamp_into r p) r = true.
Proof.
  unfold inside, clamp_into. rewrite !andb_true_iff, !Z.leb_le, !Z.ltb_lt. cbn. intros H. split_and!; lia.
Qed.
