(* ===== verification/MacCapture.v ===== *)
(** The capture backend of macOS (input-capture/src/macos.rs): the callback of
    the event tap and the task that handles the requests of the capture task,
    both on one state behind a lock, so that a run is a sequence of their turns.

    What Quartz answers is an argument: [os_ok n] is the success of the [n]th
    call that hides, shows or warps the cursor; [mac_keymap] is the key table of
    the keycode crate; the displays that are enumerated come with the request to
    enumerate them. *)

From S2P Require Import Prelude InputEvent Geometry InputCapture Doubles Monitors Backend.

(** * Data *)

Inductive OsCall : Type := HideCursor | ShowCursor | WarpCursor (p : point).

Record InputCaptureState : Type := mkMac {
  active_clients : gset BarrierKey;
  current_key : option BarrierKey;
  pending_key : option BarrierKey;
  enter_position : option point;
  displays : list DisplayBound;
  modifier_state : Z;
  monitors_tx : list MonitorInfo;
  os_calls : list OsCall
}.

Inductive ProducerEvent : Type :=
| PRelease
| PCreate (key : BarrierKey)
| PDestroy (key : BarrierKey)
| PGrab (key : BarrierKey)
| PStartCapture (key : BarrierKey)
| PCancelPending (key : BarrierKey)
| PEventTapDisabled
| PDisplayReconfigured
| PMonitorsChanged (monitors : list MonitorInfo).

Inductive CGEventType : Type :=
| LeftMouseDown | LeftMouseUp | RightMouseDown | RightMouseUp | OtherMouseDown | OtherMouseUp
| MouseMoved | LeftMouseDragged | RightMouseDragged | OtherMouseDragged
| ScrollWheel | KeyDown | KeyUp | FlagsChanged
| TapDisabledByTimeout | TapDisabledByUserInput.
#[export] Instance CGEventType_eq_dec : EqDecision CGEventType.
Proof. solve_decision. Defined.

(** The modifier flags that the program asks an event for. *)
Record CGEventFlags : Type := mkFlags {
  flag_shift : bool; flag_control : bool; flag_alternate : bool; flag_command : bool; flag_alpha_shift : bool
}.
(** The fields of an event that the program reads. *)
Record CGEvent : Type := mkCG {
  location : point;
  mouse_delta : point;
  keycode : Z;
  flags : CGEventFlags;
  button_number : Z;
  is_continuous : Z;
  point_delta : Z * Z;
  line_delta : Z * Z
}.
Inductive CallbackResult : Type := Keep | Drop.

Definition set_current (k : option BarrierKey) (s : InputCaptureState) : InputCaptureState :=
  mkMac (active_clients s) k (pending_key s) (enter_position s) (displays s) (modifier_state s) (monitors_tx s) (os_calls s).
Definition set_waiting (k : option BarrierKey) (s : InputCaptureState) : InputCaptureState :=
  mkMac (active_clients s) (current_key s) k (enter_position s) (displays s) (modifier_state s) (monitors_tx s) (os_calls s).
Definition set_enter (p : option point) (s : InputCaptureState) : InputCaptureState :=
  mkMac (active_clients s) (current_key s) (pending_key s) p (displays s) (modifier_state s) (monitors_tx s) (os_calls s).
Definition set_clients (c : gset BarrierKey) (s : InputCaptureState) : InputCaptureState :=
  mkMac c (current_key s) (pending_key s) (enter_position s) (displays s) (modifier_state s) (monitors_tx s) (os_calls s).
Definition set_displays (d : list DisplayBound) (s : InputCaptureState) : InputCaptureState :=
  mkMac (active_clients s) (current_key s) (pending_key s) (enter_position s) d (modifier_state s) (monitors_tx s) (os_calls s).
Definition set_modifiers (m : Z) (s : InputCaptureState) : InputCaptureState :=
  mkMac (active_clients s) (current_key s) (pending_key s) (enter_position s) (displays s) m (monitors_tx s) (os_calls s).
Definition send_monitors (m : list MonitorInfo) (s : InputCaptureState) : InputCaptureState :=
  mkMac (active_clients s) (current_key s) (pending_key s) (enter_position s) (displays s) (modifier_state s) m (os_calls s).
Definition log_call (c : OsCall) (s : InputCaptureState) : InputCaptureState :=
  mkMac (active_clients s) (current_key s) (pending_key s) (enter_position s) (displays s) (modifier_state s) (monitors_tx s)
    (os_calls s ++ [c]).

Section mac.
Variable os_ok : nat → bool.
Variable mac_keymap : Z → option Z.
Abbreviation M := (ST InputCaptureState CaptureError).

Definition os_call (c : OsCall) (e : CaptureError) : M unit :=
  n ← gets (λ s, length (os_calls s));
  modify_st (log_call c) ≫= λ _, if os_ok n then mret tt else raise e.
Definition hide_cursor : M unit := os_call HideCursor (Platform "core graphics").
Definition show_cursor : M unit := os_call ShowCursor (Platform "core graphics").

(** * The state *)

Definition crossed (s : InputCaptureState) (prev curr : point) : option BarrierKey :=
  crossed_pure prev curr (displays s) (active_clients s).

Definition edge_offset : double := f64_one.
Definition compute_edge_point (s : InputCaptureState) (prev : point) (pos : Position) : option point :=
  display ← display_containing_bound (displays s) prev;
  let r := rect display in
  Some (match pos with
        | Edge.Left => (f64_add (left r) edge_offset, snd prev)
        | Edge.Right => (f64_sub (right r) edge_offset, snd prev)
        | Edge.Top => (fst prev, f64_add (top r) edge_offset)
        | Edge.Bottom => (fst prev, f64_sub (bottom r) edge_offset)
        end).
Definition nudge (prev : point) (pos : Position) : point :=
  match pos with
  | Edge.Left => (f64_sub (fst prev) f64_one, snd prev)
  | Edge.Right => (f64_add (fst prev) f64_one, snd prev)
  | Edge.Top => (fst prev, f64_sub (snd prev) f64_one)
  | Edge.Bottom => (fst prev, f64_add (snd prev) f64_one)
  end.
(** [expect("capture active")] panics without an entry position. *)
Definition reset_cursor (pos : Position) : M unit :=
  enter ← gets enter_position;
  match enter with
  | None => panic
  | Some prev =>
      edge ← gets (λ s, compute_edge_point s prev pos);
      os_call (WarpCursor (default (nudge prev pos) edge)) (Platform "warp cursor")
  end.

(** [active] is what [CGDisplay::active_displays] answers: nothing on an error. *)
Definition update_bounds (main : N) (active : option (list Mac.Display)) : M unit :=
  match active with
  | None => raise (Platform "active displays")
  | Some ids =>
      modify_st (set_displays (Mac.build_display_bounds (Mac.enumerate_monitors_for_ids main ids)))
  end.

(** [main], [a1] and [a2]: the main display, and what the two enumerations of a
    reconfiguration see. *)
Definition handle_producer_event (main : N) (a1 a2 : option (list Mac.Display)) (e : ProducerEvent)
    : M (option (BarrierKey * CaptureEvent)) :=
  match e with
  | PRelease =>
      s ← get_st;
      when (bool_decide (is_Some (current_key s))) (show_cursor ≫= λ _, modify_st (set_current None)) ≫= λ _,
      modify_st (set_waiting None) ≫= λ _, mret None
  | PGrab key =>
      s ← get_st;
      when (bool_decide (current_key s = None)) (hide_cursor ≫= λ _, modify_st (set_current (Some key))) ≫= λ _,
      mret None
  | PStartCapture key =>
      s ← get_st;
      if decide (pending_key s ≠ Some key) then mret None
      else
        modify_st (set_waiting None) ≫= λ _,
        if decide (current_key s = None) then
          hide_cursor ≫= λ _,
          modify_st (set_current (Some key)) ≫= λ _,
          reset_cursor (key_pos key) ≫= λ _,
          mret (Some (key, Begin))
        else mret None
  | PCancelPending key =>
      s ← get_st;
      if decide (pending_key s = Some key) then
        modify_st (set_waiting None) ≫= λ _, mret (Some (key, CancelPending))
      else mret None
  | PCreate k => modify_st (λ s, set_clients ({[k]} ∪ active_clients s) s) ≫= λ _, mret None
  | PDestroy k =>
      s ← get_st;
      when (bool_decide (current_key s = Some k)) (show_cursor ≫= λ _, modify_st (set_current None)) ≫= λ _,
      when (bool_decide (pending_key s = Some k)) (modify_st (set_waiting None)) ≫= λ _,
      modify_st (λ s, set_clients (active_clients s ∖ {[k]}) s) ≫= λ _, mret None
  | PEventTapDisabled =>
      s ← get_st;
      when (bool_decide (is_Some (current_key s))) (show_cursor ≫= λ _, modify_st (set_current None)) ≫= λ _,
      modify_st (set_waiting None) ≫= λ _, raise (Platform "event tap disabled")
  | PDisplayReconfigured =>
      attempt (update_bounds main a1) ≫= λ _,
      modify_st (send_monitors (Mac.enumerate_monitors main a2)) ≫= λ _, mret None
  | PMonitorsChanged monitors => modify_st (send_monitors monitors) ≫= λ _, mret None
  end.

(** The turn of the task: errors are logged, events go to the channel. *)
Definition producer_turn (main : N) (a1 a2 : option (list Mac.Display)) (e : ProducerEvent)
    (s : InputCaptureState) : outcome Empty_set emitted * InputCaptureState :=
  match handle_producer_event main a1 a2 e s with
  | (Ok (Some ev), s) => (Ok [ev], s)
  | (Ok None, s) | (Err _, s) => (Ok [], s)
  | (Panic, s) => (Panic, s)
  | (Diverge, s) => (Diverge, s)
  end.

(** * Translating events *)

Definition motion (ev : CGEvent) : Event := Pointer (Motion 0 (f64_of (fst (mouse_delta ev))) (f64_of (snd (mouse_delta ev)))).
(** [code as u16]. *)
Definition map_key (ev : CGEvent) : option Z := mac_keymap (wrapU 16 (keycode ev)).
Definition other_button (ev : CGEvent) : Z :=
  if (button_number ev =? 3)%Z then BTN_BACK else if (button_number ev =? 4)%Z then BTN_FORWARD else BTN_MIDDLE.
Definition button (b state : Z) : Event := Pointer (Button 0 b state).

Definition depressed_of (f : CGEventFlags) : Z :=
  let bit (b : bool) (m : Z) := if b then m else 0%Z in
  Z.lor (bit (flag_shift f) XMods.ShiftMask)
    (Z.lor (bit (flag_control f) XMods.ControlMask)
      (Z.lor (bit (flag_alternate f) XMods.Mod1Mask)
        (Z.lor (bit (flag_command f) XMods.Mod4Mask) (bit (flag_alpha_shift f) XMods.LockMask)))).
Definition locked_of (f : CGEventFlags) : Z := if flag_alpha_shift f then XMods.LockMask else 0%Z.

(** 32-bit arithmetic panics when it overflows in a build that checks. *)
Definition checked (z : Z) : outcome Empty_set Z := if decide (inS 32 z) then Ok z else Panic.
Definition V120_STEPS_PER_LINE : Z := 40.
Definition lines (v : Z) : outcome Empty_set Z := checked (V120_STEPS_PER_LINE * wrapS 32 v)%Z.
Definition neg_lines (v : Z) : outcome Empty_set Z := z ← lines v; checked (- z)%Z.

(** The events of [get_events], and the modifier state it leaves.  When a key
    has no translation the function fails before it has pushed anything. *)
Definition get_events (ty : CGEventType) (ev : CGEvent) (mods : Z) : outcome Empty_set (list Event * Z) :=
  match ty with
  | KeyDown => Ok (match map_key ev with Some k => [Keyboard (Key 0 k 1)] | None => [] end, mods)
  | KeyUp => Ok (match map_key ev with Some k => [Keyboard (Key 0 k 0)] | None => [] end, mods)
  | FlagsChanged =>
      let depressed := depressed_of (flags ev) in
      let state := if (mods <? depressed)%Z then 1%Z else 0%Z in
      Ok ((match map_key ev with Some k => [Keyboard (Key 0 k state)] | None => [] end) ++
          [Keyboard (Modifiers depressed 0 (locked_of (flags ev)) 0)], depressed)
  | MouseMoved | LeftMouseDragged | RightMouseDragged | OtherMouseDragged => Ok ([motion ev], mods)
  | LeftMouseDown => Ok ([button BTN_LEFT 1], mods)
  | LeftMouseUp => Ok ([button BTN_LEFT 0], mods)
  | RightMouseDown => Ok ([button BTN_RIGHT 1], mods)
  | RightMouseUp => Ok ([button BTN_RIGHT 0], mods)
  | OtherMouseDown => Ok ([button (other_button ev) 1], mods)
  | OtherMouseUp => Ok ([button (other_button ev) 0], mods)
  | ScrollWheel =>
      if negb (is_continuous ev =? 0)%Z then
        let '(v, h) := point_delta ev in
        Ok ((if (v =? 0)%Z then [] else [Pointer (Axis 0 0 (f64_of (f64_opp (of_Z v))))]) ++
            (if (h =? 0)%Z then [] else [Pointer (Axis 0 1 (f64_of (of_Z h)))]), mods)
      else
        let '(v, h) := line_delta ev in
        vs ← (if (v =? 0)%Z then Ok [] else x ← neg_lines v; Ok [Pointer (AxisDiscrete120 0 x)]);
        hs ← (if (h =? 0)%Z then Ok [] else x ← lines h; Ok [Pointer (AxisDiscrete120 1 x)]);
        Ok (vs ++ hs, mods)
  | TapDisabledByTimeout | TapDisabledByUserInput => Ok ([], mods)
  end.

(** * The callback of the tap *)

Definition is_motion (ty : CGEventType) : bool :=
  match ty with MouseMoved | LeftMouseDragged | RightMouseDragged | OtherMouseDragged => true | _ => false end.
(** On macOS the cursor is clamped to the displays: the samples are the
    location, and where the movement would have led without the clamp. *)
Definition samples (ev : CGEvent) : point * point :=
  let '(x, y) := location ev in
  ((x, y), (f64_add x (fst (mouse_delta ev)), f64_add y (snd (mouse_delta ev)))).

(** An event while a client is entered: translated, and the cursor put back. *)
Definition forward (ty : CGEventType) (ev : CGEvent) (key : BarrierKey) : M emitted :=
  mods ← gets modifier_state;
  match get_events ty ev mods with
  | Ok (es, mods) =>
      modify_st (set_modifiers mods) ≫= λ _,
      when (is_motion ty) (attempt (reset_cursor (key_pos key)) ≫= λ _, mret tt) ≫= λ _,
      mret ((λ e, (key, Input e)) <$> es)
  | _ => panic
  end.

(** A movement while no client is entered. *)
Definition watch (ev : CGEvent) : M (CallbackResult * emitted) :=
  s ← get_st;
  let '(prev, curr) := samples ev in
  match pending_key s, crossed s prev curr with
  | Some pending, None =>
      modify_st (set_waiting None) ≫= λ _, mret (Keep, [(pending, CancelPending)])
  | Some pending, Some other =>
      if decide (other ≠ pending) then
        modify_st (λ s, set_enter (Some prev) (set_waiting (Some other) s)) ≫= λ _,
        mret (Drop, [(pending, CancelPending); (other, BeginPending)])
      else mret (Keep, [])
  | None, Some key =>
      modify_st (λ s, set_enter (Some prev) (set_waiting (Some key) s)) ≫= λ _,
      mret (Drop, [(key, BeginPending)])
  | None, None => mret (Keep, [])
  end.

(** What the callback returns, what it sends on the event channel, and what it
    tells the task. *)
Definition event_tap_callback (ty : CGEventType) (ev : CGEvent) : M (CallbackResult * emitted * list ProducerEvent) :=
  match ty with
  | TapDisabledByTimeout => mret (Keep, [], [])
  | TapDisabledByUserInput =>
      s ← get_st;
      when (bool_decide (is_Some (current_key s)))
        (attempt show_cursor ≫= λ _, modify_st (set_current None)) ≫= λ _,
      mret (Keep, [], [PEventTapDisabled])
  | _ =>
      s ← get_st;
      match current_key s with
      | Some key => es ← forward ty ev key; mret (Drop, es, [])
      | None =>
          if decide (ty = MouseMoved) then '(r, es) ← watch ev; mret (r, es, [])
          else mret (Keep, [], [])
      end
  end.
End mac.

(** * Runs *)

Inductive turn : Type :=
| Tap (ty : CGEventType) (ev : CGEvent)
| Task (main : N) (a1 a2 : option (list Mac.Display)) (e : ProducerEvent).

Definition asked (t : turn) : option request :=
  match t with
  | Task _ _ _ (PCreate k) => Some (CreateBarrier k)
  | Task _ _ _ (PDestroy k) => Some (DestroyBarrier k)
  | Task _ _ _ PRelease => Some Release
  | Task _ _ _ (PStartCapture k) => Some (StartCapture k)
  | Task _ _ _ (PCancelPending k) => Some (CancelRequest k)
  | _ => None
  end.

Definition initial (displays : list DisplayBound) (monitors : list MonitorInfo) : InputCaptureState :=
  mkMac ∅ None None None displays 0 monitors [].

Section turns.
Variable os_ok : nat → bool.
Variable mac_keymap : Z → option Z.

Definition turn_of (t : turn) (s : InputCaptureState) : outcome CaptureError emitted * InputCaptureState :=
  match t with
  | Tap ty ev =>
      match event_tap_callback os_ok mac_keymap ty ev s with
      | (Ok (_, es, _), s) => (Ok es, s)
      | (Err e, s) => (Err e, s)
      | (Panic, s) => (Panic, s)
      | (Diverge, s) => (Diverge, s)
      end
  | Task main a1 a2 e =>
      match producer_turn os_ok main a1 a2 e s with
      | (Ok es, s) => (Ok es, s)
      | (_, s) => (Panic, s)
      end
  end.
Definition step (t : turn) (s : InputCaptureState) : emitted * InputCaptureState :=
  match turn_of t s with (Ok es, s) => (es, s) | (_, s) => ([], s) end.
End turns.

Definition phase_of (s : InputCaptureState) : phase :=
  match current_key s, pending_key s with
  | Some k, _ => Capturing k
  | None, Some k => Waiting k
  | None, None => Idle
  end.
Record inv (s : InputCaptureState) : Prop := {
  exclusive : is_Some (current_key s) → pending_key s = None;
  entered : current_key s ≠ None ∨ pending_key s ≠ None → is_Some (enter_position s)
}.
(** Scrolling by lines stays in 32 bits. *)
Definition scroll_fits (ev : CGEvent) : Prop :=
  (Z.abs (fst (line_delta ev)) < 2 ^ 25 ∧ Z.abs (snd (line_delta ev)) < 2 ^ 25)%Z.
(** Of the requests only [Grab], which nothing sends any more, is left out. *)
Definition fair (t : turn) : Prop :=
  match t with
  | Tap _ ev => scroll_fits ev
  | Task _ _ _ (PGrab _) => False
  | Task _ _ _ _ => True
  end.

Lemma initial_inv ds ms : inv (initial ds ms).
Proof. split; cbn; [by intros []|by intros [|]]. Qed.

Lemma os_call_ok os_ok c e s : (∀ n, os_ok n = true) → os_call os_ok c e s = (Ok tt, log_call c s).
Proof. intros H. unfold os_call, mbind, ST_bind, gets, modify_st. by rewrite H. Qed.

Lemma reset_cursor_ok os_ok pos s prev :
  (∀ n, os_ok n = true) → enter_position s = Some prev →
  ∃ p, reset_cursor os_ok pos s = (Ok tt, log_call (WarpCursor p) s).
Proof.
  intros Hok He. unfold reset_cursor, mbind, ST_bind, gets. rewrite He. eexists. by rewrite os_call_ok.
Qed.
Lemma reset_cursor_logs os_ok pos s prev :
  enter_position s = Some prev →
  ∃ p, snd (reset_cursor os_ok pos s) = log_call (WarpCursor p) s ∧ returns (fst (reset_cursor os_ok pos s)).
Proof.
  intros He. unfold reset_cursor, os_call, mbind, ST_bind, gets, modify_st. rewrite He. eexists. by destruct (os_ok _).
Qed.

Lemma lines_ok v : (Z.abs v < 2 ^ 25)%Z → ∃ x, lines v = Ok x ∧ ∃ y, neg_lines v = Ok y.
Proof.
  intros Hv. assert (wrapS 32 v = v) as E.
  { unfold wrapS. rewrite Z.mod_small; lia. }
  unfold neg_lines, lines, checked, V120_STEPS_PER_LINE. rewrite E.
  rewrite decide_True by (unfold inS; lia). eexists. split; [done|]. cbn. rewrite decide_True by (unfold inS; lia). eauto.
Qed.
Lemma get_events_ok keymap ty ev m : scroll_fits ev → ∃ es m', get_events keymap ty ev m = Ok (es, m').
Proof.
  intros [Hv Hh]. destruct ty; cbn; try by eauto.
  destruct (negb _); [destruct (point_delta ev); by eauto|]. destruct (line_delta ev) as [v h]. cbn in *.
  destruct (lines_ok v Hv) as (? & E1 & ? & E2). destruct (lines_ok h Hh) as (? & E3 & ? & E4).
  rewrite E2, E3. destruct (v =? 0)%Z, (h =? 0)%Z; cbn; by eauto.
Qed.

Ltac unfold_turn := unfold turn_of, producer_turn, handle_producer_event, mbind, ST_bind, get_st, modify_st, when, gets, attempt, raise.

Section lemmas.
Variable os_ok : nat → bool.
Variable mac_keymap : Z → option Z.

Lemma forward_spec ty ev key s :
  scroll_fits ev → is_Some (enter_position s) →
  ∃ es, fst (forward os_ok mac_keymap ty ev key s) = Ok es ∧ inputs key es ∧
    let s' := snd (forward os_ok mac_keymap ty ev key s) in
    current_key s' = current_key s ∧ pending_key s' = pending_key s ∧ enter_position s' = enter_position s.
Proof.
  intros Hf [prev He]. destruct (get_events_ok mac_keymap ty ev (modifier_state s) Hf) as (es & m & E).
  unfold forward, mbind, ST_bind, gets, modify_st. rewrite E.
  assert (inputs key ((λ e, (key, Input e)) <$> es)) as Hi.
  { apply Forall_fmap, Forall_true. intros i. by exists i. }
  destruct (reset_cursor_logs os_ok (key_pos key) (set_modifiers m s) prev He) as (p & Hp & Hr).
  exists ((λ e, (key, Input e)) <$> es). unfold when. destruct (is_motion ty); [|by split_and!].
  unfold mbind, ST_bind, attempt. destruct (reset_cursor _ _ _) as [[[]|e| |] s'] eqn:Er; cbn in Hr, Hp; [| |done..];
    subst s'; cbn; by split_and!.
Qed.

Lemma watch_spec ev s :
  current_key s = None → inv s →
  ∃ r es s', watch ev s = (Ok (r, es), s') ∧ inv s' ∧ current_key s' = None ∧
    step_ok None (phase_of s) es (phase_of s') ∧
    (r = Drop ↔ ∃ k, (k, BeginPending) ∈ es).
Proof.
  intros Hc Hi. pose proof Hi as [Hx He]. unfold watch, mbind, ST_bind, get_st, modify_st. destruct (samples ev) as [prev curr].
  unfold phase_of. rewrite Hc.
  assert (∀ k, inv (set_enter (Some prev) (set_waiting (Some k) s))) as Hset.
  { intros k. split; cbn; [rewrite Hc; by intros []|eauto]. }
  destruct (pending_key s) as [k|] eqn:Ep, (crossed s prev curr) as [k'|] eqn:Ec.
  - case_decide as Hk; do 3 eexists; (split; [done|]).
    + split_and!; [done|done| |].
      * cbn. rewrite Hc. by constructor.
      * split; [|done]. intros _. exists k'. right. by left.
    + split_and!; [done|done|rewrite Hc, Ep; constructor|]. split; [done|]. intros [? Hin]. by apply elem_of_nil in Hin.
  - do 3 eexists. split; [done|]. split_and!.
    + split; cbn; [done|]. rewrite Hc. by intros [|].
    + done.
    + cbn. rewrite Hc. constructor.
    + split; [done|]. intros [k0 Hin]. apply list_elem_of_singleton in Hin. congruence.
  - do 3 eexists. split; [done|]. split_and!; [done|done| |].
    + cbn. rewrite Hc. constructor.
    + split; [|done]. intros _. exists k'. by left.
  - do 3 eexists. split; [done|]. split_and!; [done|done|rewrite Hc, Ep; constructor|].
    split; [done|]. intros [? Hin]. by apply elem_of_nil in Hin.
Qed.

(** What the callback does with an event that is not about the tap itself. *)
Definition ordinary (ty : CGEventType) : Prop := ty ≠ TapDisabledByTimeout ∧ ty ≠ TapDisabledByUserInput.

Lemma callback_entered ty ev key s :
  ordinary ty → current_key s = Some key → scroll_fits ev → inv s →
  ∃ es s', event_tap_callback os_ok mac_keymap ty ev s = (Ok (Drop, es, []), s') ∧ inv s' ∧
    inputs key es ∧ phase_of s' = phase_of s.
Proof.
  intros [H1 H2] Hc Hf [Hx He].
  destruct (forward_spec ty ev key s Hf) as (es & E & Hi & K1 & K2 & K3). { apply He. left. by rewrite Hc. }
  assert (event_tap_callback os_ok mac_keymap ty ev s =
    (es ← forward os_ok mac_keymap ty ev key; mret (Drop, es, [])) s) as ->.
  { unfold event_tap_callback, mbind, ST_bind, get_st. destruct ty; rewrite ?Hc; done. }
  unfold mbind, ST_bind. destruct (forward _ _ _ _ _ _) as [r s']. cbn in *. subst r. exists es, s'.
  split; [done|]. split; [|split; [done|]].
  - split; [rewrite K1, K2; done|rewrite K1, K2, K3; done].
  - unfold phase_of. by rewrite K1, K2.
Qed.
Lemma callback_outside ty ev s :
  ordinary ty → current_key s = None →
  event_tap_callback os_ok mac_keymap ty ev s =
    if decide (ty = MouseMoved) then
      match watch ev s with
      | (Ok (r, es), s) => (Ok (r, es, []), s)
      | (Err e, s) => (Err e, s) | (Panic, s) => (Panic, s) | (Diverge, s) => (Diverge, s)
      end
    else (Ok (Keep, [], []), s).
Proof.
  intros [H1 H2] Hc. unfold event_tap_callback, mbind, ST_bind, get_st.
  destruct ty; rewrite ?Hc; try done. rewrite !decide_True by done. destruct (watch ev s) as [[[r es]|e| |] s'] eqn:E; cbn; reflexivity.
Qed.

(** Whatever the system answers, the callback does not panic and what it sends
    is what the specification allows. *)
Lemma tap_turn ty ev s :
  scroll_fits ev → inv s →
  ∃ es s', turn_of os_ok mac_keymap (Tap ty ev) s = (Ok es, s') ∧ inv s' ∧ step_ok None (phase_of s) es (phase_of s').
Proof.
  intros Hf Hi. cbn [turn_of].
  destruct (decide (ty = TapDisabledByTimeout)) as [->|H1].
  { exists [], s. split; [reflexivity|]. split; [exact Hi|]. apply ok_quiet. }
  destruct (decide (ty = TapDisabledByUserInput)) as [->|H2].
  { unfold event_tap_callback, mbind, ST_bind, get_st. destruct (current_key s) as [k|] eqn:Ec; cbn.
    - unfold mbind, ST_bind, attempt, show_cursor, os_call, modify_st, gets. cbn.
      assert (∀ s', s' = set_current None (log_call ShowCursor s) → inv s' ∧ step_ok None (phase_of s) [] (phase_of s')) as H.
      { intros s' ->. destruct Hi as [Hx He]. split; [split; cbn|].
        - by intros [].
        - intros [|Hp]; [done|]. destruct Hp. apply Hx. by rewrite Ec.
        - unfold phase_of. cbn. rewrite Ec, Hx by (by rewrite Ec). constructor. }
      unfold mbind, ST_bind, gets. destruct (os_ok _); (do 2 eexists; split; [done|by apply H]).
    - exists [], s. split_and!; [done|done|constructor]. }
  destruct (current_key s) as [k|] eqn:Ec.
  - destruct (callback_entered ty ev k s) as (es & s' & -> & Hi' & Hin & Hp); [done..|].
    exists es, s'. split_and!; [done|done|]. rewrite Hp. unfold phase_of. rewrite Ec. by constructor.
  - rewrite callback_outside by done. case_decide as Hm.
    + destruct (watch_spec ev s Ec Hi) as (r & es & s' & -> & Hi' & _ & Hs & _). exists es, s'. by split_and!.
    + exists [], s. split_and!; [done|done|constructor].
Qed.

(** The turns of the task. *)
Lemma os_call_cases c e s : ∃ r, os_call os_ok c e s = (r, log_call c s) ∧ (r = Ok tt ∨ r = Err e).
Proof.
  unfold os_call, mbind, ST_bind, gets, modify_st. destruct (os_ok _); eexists; (split; [done|]); [by left|by right].
Qed.

(** [current_key] is given up only when the cursor is shown again. *)
Definition show_and_release (s : InputCaptureState) : outcome CaptureError unit * InputCaptureState :=
  (show_cursor os_ok ≫= λ _, modify_st (set_current None)) s.
Lemma show_and_release_cases s :
  show_and_release s = (Ok tt, set_current None (log_call ShowCursor s)) ∨
  ∃ e, show_and_release s = (Err e, log_call ShowCursor s).
Proof.
  destruct (os_call_cases ShowCursor (Platform "core graphics") s) as (r & E & Hr).
  unfold show_and_release, show_cursor, mbind, ST_bind. rewrite E. destruct Hr as [-> | ->]; [by left|right; by eexists].
Qed.

Lemma log_inv c s : inv s → inv (log_call c s).
Proof. intros [Hx He]. by split. Qed.
Lemma released_inv c s : inv s → inv (set_waiting None (set_current None (log_call c s))).
Proof. intros [Hx He]. split; cbn; [by intros []|]. by intros [|]. Qed.
Lemma dropped_inv c s : inv s → is_Some (current_key s) → inv (set_current None (log_call c s)).
Proof. intros [Hx He] Hc. split; cbn; [by intros []|]. intros [|Hp]; [done|]. by rewrite Hx in Hp. Qed.
Lemma not_waiting_inv s : inv s → inv (set_waiting None s).
Proof. intros [Hx He]. split; cbn; [done|]. intros [|]; [|done]. apply He. by left. Qed.

Lemma task_returns main a1 a2 e s :
  fair (Task main a1 a2 e) → inv s →
  returns (fst (turn_of os_ok mac_keymap (Task main a1 a2 e) s)) ∧
  inv (snd (turn_of os_ok mac_keymap (Task main a1 a2 e) s)).
Proof.
  intros Hf Hi. destruct e; cbn [fair] in Hf; try done.
  - (* release *)
    unfold_turn. destruct (show_and_release_cases s) as [E|[e E]]; unfold show_and_release, mbind, ST_bind, modify_st in E.
    + case_bool_decide as Hc; rewrite ?E; (split; [done|]); [by apply released_inv|by apply not_waiting_inv].
    + case_bool_decide as Hc; rewrite ?E; (split; [done|]); [by apply log_inv|by apply not_waiting_inv].
  - unfold_turn. split; [done|]. destruct Hi as [Hx He]. by split.
  - (* destroy *)
    unfold_turn. destruct (show_and_release_cases s) as [E|[e E]]; unfold show_and_release, mbind, ST_bind, modify_st in E.
    + case_bool_decide as Hc; rewrite ?E.
      * assert (inv (set_current None (log_call ShowCursor s))) as Hi'.
        { apply dropped_inv; [done|]. by rewrite Hc. }
        case_bool_decide; (split; [done|]); [apply not_waiting_inv in Hi'|]; destruct Hi' as [Hx He]; by split.
      * case_bool_decide; (split; [done|]); [apply not_waiting_inv in Hi|]; destruct Hi as [Hx He]; by split.
    + case_bool_decide as Hc; rewrite ?E; [split; [done|by apply log_inv]|].
      case_bool_decide; (split; [done|]); [apply not_waiting_inv in Hi|]; destruct Hi as [Hx He]; by split.
  - (* start *)
    unfold_turn. case_decide as Hp; [by split|].
    pose proof Hi as [Hx He]. destruct He as [prev Hent]; [right; by rewrite Hp|].
    case_decide as Hc; [|split; [done|by apply not_waiting_inv]].
    cbn in Hc. unfold hide_cursor.
    destruct (os_call_cases HideCursor (Platform "core graphics") (set_waiting None s)) as (r & -> & [-> | ->]);
      [|split; [done|by apply log_inv, not_waiting_inv]].
    destruct (reset_cursor_logs os_ok (key_pos key) (set_current (Some key) (log_call HideCursor (set_waiting None s))) prev Hent)
      as (p & Hp' & Hr).
    destruct (reset_cursor _ _ _) as [[[]|e| |] s']; cbn in Hp', Hr; [| |done..]; subst s'; (split; [done|]); by split; cbn.
  - unfold_turn. case_decide; (split; [done|]); [by apply not_waiting_inv|done].
  - (* the tap is disabled *)
    unfold_turn. destruct (show_and_release_cases s) as [E|[e E]]; unfold show_and_release, mbind, ST_bind, modify_st in E.
    + case_bool_decide as Hc; rewrite ?E; (split; [done|]); [by apply released_inv|by apply not_waiting_inv].
    + case_bool_decide as Hc; rewrite ?E; (split; [done|]); [by apply log_inv|by apply not_waiting_inv].
  - unfold_turn. unfold update_bounds. destruct a1; cbn; (split; [done|]); destruct Hi as [Hx He]; by split.
  - unfold_turn. split; [done|]. destruct Hi as [Hx He]. by split.
Qed.

(** When no call to the system fails, a request does what the specification
    asks for. *)
Lemma task_turn main a1 a2 e s :
  (∀ n, os_ok n = true) → fair (Task main a1 a2 e) → inv s →
  ∃ es s', turn_of os_ok mac_keymap (Task main a1 a2 e) s = (Ok es, s') ∧
    step_ok (asked (Task main a1 a2 e)) (phase_of s) es (phase_of s').
Proof.
  intros Hos Hf Hi. pose proof Hi as [Hx He].
  assert (show_and_release s = (Ok tt, set_current None (log_call ShowCursor s))) as E.
  { unfold show_and_release, show_cursor, mbind, ST_bind. by rewrite os_call_ok. }
  unfold show_and_release, mbind, ST_bind, modify_st in E.
  destruct e; cbn [fair asked] in *; try done.
  - unfold_turn. case_bool_decide as Hc; rewrite ?E; do 2 eexists; (split; [done|]); unfold phase_of; cbn; [constructor|].
    destruct (current_key s); [|constructor]. by destruct Hc.
  - unfold_turn. do 2 eexists. split; [done|]. constructor.
  - unfold_turn. case_bool_decide as Hc; rewrite ?E.
    + assert (bool_decide (pending_key s = Some key) = false) as Ep.
      { apply bool_decide_eq_false. rewrite Hx by (by rewrite Hc). done. }
      case_bool_decide as Hp; [cbn in Hp; rewrite Hx in Hp by (by rewrite Hc); done|].
      do 2 eexists. split; [done|].
      assert (phase_of s = Capturing key) as -> by (unfold phase_of; by rewrite Hc).
      assert (phase_of (set_clients (active_clients (set_current None (log_call ShowCursor s)) ∖ {[key]})
        (set_current None (log_call ShowCursor s))) = if at_key key (Capturing key) then Idle else Capturing key) as ->; [|constructor].
      unfold phase_of. cbn. rewrite bool_decide_true by done. by rewrite Hx by (by rewrite Hc).
    + case_bool_decide as Hp; do 2 eexists; (split; [done|]).
      * assert (current_key s = None) as Hn.
        { destruct (current_key s) eqn:Ec; [|done]. by rewrite Hx in Hp. }
        assert (phase_of s = Waiting key) as -> by (unfold phase_of; by rewrite Hn, Hp).
        unfold phase_of. cbn. rewrite Hn. pose proof (ok_destroy key (Waiting key)) as H. cbn in H.
        by rewrite bool_decide_true in H.
      * assert (at_key key (phase_of s) = false) as Ha.
        { unfold phase_of. destruct (current_key s) as [k|] eqn:Ec; cbn; [apply bool_decide_eq_false; congruence|].
          destruct (pending_key s) as [k|] eqn:Epn; cbn; [apply bool_decide_eq_false; congruence|done]. }
        pose proof (ok_destroy key (phase_of s)) as H. by rewrite Ha in H.
  - unfold_turn. case_decide as Hp.
    + do 2 eexists. split; [done|]. apply ok_start_other. unfold phase_of. destruct (current_key s), (pending_key s); congruence.
    + destruct He as [prev Hent]; [right; by rewrite Hp|].
      assert (current_key s = None) as Hn.
      { destruct (current_key s) eqn:Ec; [|done]. by rewrite Hx in Hp. }
      rewrite decide_True by done. unfold hide_cursor. rewrite os_call_ok by done.
      destruct (reset_cursor_ok os_ok (key_pos key) (set_current (Some key) (log_call HideCursor (set_waiting None s))) prev Hos Hent)
        as (p & ->).
      do 2 eexists. split; [done|]. unfold phase_of. cbn. rewrite Hn, Hp. constructor.
  - unfold_turn. case_decide as Hp; do 2 eexists; (split; [done|]).
    + assert (current_key s = None) as Hn.
      { destruct (current_key s) eqn:Ec; [|done]. by rewrite Hx in Hp. }
      unfold phase_of. cbn. rewrite Hn, Hp. apply ok_cancel. by right.
    + apply ok_cancel_other. unfold phase_of. destruct (current_key s), (pending_key s); congruence.
  - unfold_turn. case_bool_decide as Hc; rewrite ?E; do 2 eexists; (split; [done|]); unfold phase_of; cbn; [constructor|].
    destruct (current_key s); [by destruct Hc|constructor].
  - unfold_turn. unfold update_bounds. destruct a1; do 2 eexists; (split; [done|]); constructor.
  - unfold_turn. do 2 eexists. split; [done|]. constructor.
Qed.

Lemma mac_refines : (∀ n, os_ok n = true) → refines (step os_ok mac_keymap) asked phase_of inv fair.
Proof.
  intros Hos t s Hf Hi. unfold step. destruct t as [ty ev|main a1 a2 e].
  - destruct (tap_turn ty ev s Hf Hi) as (es & s' & -> & Hi' & Hs). done.
  - destruct (task_turn main a1 a2 e s Hos Hf Hi) as (es & s' & E & Hs).
    destruct (task_returns main a1 a2 e s Hf Hi) as [_ Hi']. rewrite E in *. done.
Qed.
End lemmas.

(** C12. The backend of macOS keeps the contract of the capture task.  Over any
    run of the tap and of the requests no turn panics, whatever the calls to the
    system answer.  As long as none of them fails, what is sent is a trace of
    the specification, so that an input is sent only for a crossing that was
    granted and not taken back; and the callback swallows an event only while a
    client is entered, or at the movement of the crossing itself. *)
Theorem mac_contract os_ok keymap ds ms ts :
  Forall fair ts →
  let s := snd (run (step os_ok keymap) asked ts (initial ds ms)) in
  let tr := fst (run (step os_ok keymap) asked ts (initial ds ms)) in
  inv s ∧ (∀ t, fair t → returns (fst (turn_of os_ok keymap t s))) ∧
  ((∀ n, os_ok n = true) → conforms Idle tr (phase_of s) ∧
     ∀ tr1 o es tr2 k e, tr = tr1 ++ (o, es) :: tr2 → (k, Input e) ∈ es → granted k tr1) ∧
  (∀ ty ev r es ps s', ordinary ty → scroll_fits ev → event_tap_callback os_ok keymap ty ev s = (Ok (r, es, ps), s') →
     r = Drop ↔ (is_Some (current_key s) ∨ ∃ k, (k, BeginPending) ∈ es)).
Proof.
  intros Hf s tr.
  assert (inv s) as Hi.
  { unfold s. clear s tr. generalize (initial_inv ds ms). generalize (initial ds ms).
    induction Hf as [|t ts Ht _ IH]; intros s Hs; [done|]. cbn.
    assert (inv (snd (step os_ok keymap t s))) as Hs'.
    { unfold step. destruct t as [ty ev|main a1 a2 e].
      - by destruct (tap_turn os_ok keymap ty ev s Ht Hs) as (es & s' & -> & Hi' & _).
      - pose proof (task_returns os_ok keymap main a1 a2 e s Ht Hs) as [_ H]. by destruct (turn_of _ _ _ _) as [[] ?]. }
    destruct (step os_ok keymap t s) as [es s']. specialize (IH s' Hs'). by destruct (run _ _ ts s'). }
  split; [done|]. split; [|split].
  - intros [ty ev|main a1 a2 e] Ht; [|by apply task_returns].
    by destruct (tap_turn os_ok keymap ty ev s Ht Hi) as (es & s' & -> & _).
  - intros Hos. assert (conforms Idle tr (phase_of s)) as Hc.
    { apply (run_conforms (step os_ok keymap) asked phase_of inv fair ts (initial ds ms)); [by apply mac_refines|done|apply initial_inv]. }
    split; [done|]. intros. by eapply input_granted.
  - intros ty ev r es ps s' Ho Hs E. destruct (current_key s) as [k|] eqn:Ec.
    + destruct (callback_entered os_ok keymap ty ev k s Ho Ec Hs Hi) as (es' & s'' & E' & _). rewrite E in E'.
      injection E' as -> _ _ _. split; [intros _; by left|done].
    + rewrite callback_outside in E by done. case_decide as Hm.
      * destruct (watch_spec ev s Ec Hi) as (r' & es' & s'' & E' & _ & _ & _ & Hd). rewrite E' in E. injection E as -> -> _ _.
        rewrite Hd. split; [by right|]. by intros [[]|].
      * injection E as <- <- _ _. split; [done|]. intros [[]|[k Hin]]; [done|by apply elem_of_nil in Hin].
Qed.

(** ** A run *)

Definition demo_displays : list DisplayBound :=
  [mkBound (mkRect (of_Z 0) (of_Z 0) (of_Z 1920) (of_Z 1080)) (Some "macos:1")].
Definition demo_key : BarrierKey := from_pos Edge.Left.
Definition no_flags : CGEventFlags := mkFlags false false false false false.
Definition move (x y dx dy : Z) : CGEvent :=
  mkCG (of_Z x, of_Z y) (of_Z dx, of_Z dy) 0 no_flags 0 0 (0, 0)%Z (0, 0)%Z.
Definition press (code : Z) (f : CGEventFlags) : CGEvent :=
  mkCG (of_Z 0, of_Z 0) (of_Z 0, of_Z 0) code f 0 0 (0, 0)%Z (0, 0)%Z.
Definition demo_keymap (code : Z) : option Z := if (code =? 0)%Z then Some 30%Z else None.
Definition task (e : ProducerEvent) : turn := Task 0 None None e.

Definition demo_run : list turn :=
  [task (PCreate demo_key); Tap MouseMoved (move 0 500 (-3) 0); task (PStartCapture demo_key);
   Tap MouseMoved (move 1 500 (-7) 2); Tap KeyDown (press 0 no_flags); task PRelease; Tap KeyUp (press 0 no_flags)].

Example demo_trace :
  fst (run (step (λ _, true) demo_keymap) asked demo_run (initial demo_displays [])) =
  [(Some (CreateBarrier demo_key), []);
   (None, [(demo_key, BeginPending)]);
   (Some (StartCapture demo_key), [(demo_key, Begin)]);
   (None, [(demo_key, Input (Pointer (Motion 0 (f64_of (of_Z (-7))) (f64_of (of_Z 2)))))]);
   (None, [(demo_key, Input (Keyboard (Key 0 30 1)))]);
   (Some Release, []);
   (None, [])].
Proof. vm_compute. reflexivity. Qed.

Lemma mac_contract_witness :
  granted demo_key
    [(Some (CreateBarrier demo_key), []); (None, [(demo_key, BeginPending)]); (Some (StartCapture demo_key), [(demo_key, Begin)]);
     (None, [(demo_key, Input (Pointer (Motion 0 (f64_of (of_Z (-7))) (f64_of (of_Z 2)))))])].
Proof.
  assert (Forall fair demo_run) as Hf.
  { repeat constructor; unfold scroll_fits; cbn; lia. }
  pose proof (mac_contract (λ _, true) demo_keymap demo_displays [] demo_run Hf) as (_ & _ & H & _).
  destruct (H (λ _, eq_refl)) as [_ Hin].
  apply (Hin _ None [(demo_key, Input (Keyboard (Key 0 30 1)))] [(Some Release, []); (None, [])] demo_key (Keyboard (Key 0 30 1)));
    [vm_compute; reflexivity|by left].
Defined.

(** ** When the system refuses *)

(** When the cursor cannot be warped after the peer has accepted, the capture
    is on without the capture task being told: no [Begin] is sent, and from then
    on every event is swallowed and sent to the peer; and when the cursor cannot
    be shown again, a release or a destruction does not end the capture. *)
Theorem refused_calls os_ok keymap key s main a1 a2 :
  inv s →
  (pending_key s = Some key → os_ok (length (os_calls s)) = true → os_ok (S (length (os_calls s))) = false →
   let r := turn_of os_ok keymap (Task main a1 a2 (PStartCapture key)) s in
   fst r = Ok [] ∧ phase_of (snd r) = Capturing key ∧
   ∀ ty ev, ordinary ty → scroll_fits ev → ∃ es, fst (event_tap_callback os_ok keymap ty ev (snd r)) = Ok (Drop, es, [])) ∧
  (current_key s = Some key → os_ok (length (os_calls s)) = false →
   ∀ e, e = PRelease ∨ e = PDestroy key ∨ e = PEventTapDisabled →
   let r := turn_of os_ok keymap (Task main a1 a2 e) s in
   fst r = Ok [] ∧ phase_of (snd r) = Capturing key ∧ active_clients (snd r) = active_clients s).
Proof.
  intros Hi. split.
  - intros Hp Ho1 Ho2. pose proof Hi as [Hx He]. destruct He as [prev Hent]; [right; by rewrite Hp|].
    assert (current_key s = None) as Hn.
    { destruct (current_key s) eqn:Ec; [|done]. by rewrite Hx in Hp. }
    destruct (task_returns os_ok keymap main a1 a2 (PStartCapture key) s) as [_ Hi']; [done..|].
    assert (∃ p, turn_of os_ok keymap (Task main a1 a2 (PStartCapture key)) s =
      (Ok [], log_call (WarpCursor p) (set_current (Some key) (log_call HideCursor (set_waiting None s))))) as [p E].
    { unfold_turn. rewrite decide_False by (by intros []). rewrite decide_True by done.
      unfold hide_cursor, os_call, mbind, ST_bind, gets, modify_st. cbn -[reset_cursor]. rewrite Ho1. cbn -[reset_cursor].
      unfold reset_cursor, os_call, mbind, ST_bind, gets, modify_st, raise. cbn. rewrite Hent. cbn.
      replace (length (os_calls s ++ [HideCursor])) with (S (length (os_calls s))) by (rewrite length_app; cbn; lia).
      rewrite Ho2. by eexists. }
    rewrite E in *. split_and!; [done|done|]. intros ty ev Ho Hs.
    destruct (callback_entered os_ok keymap ty ev key (log_call (WarpCursor p)
      (set_current (Some key) (log_call HideCursor (set_waiting None s)))) Ho eq_refl Hs Hi') as (es & s' & E' & _). exists es. cbn [snd] in *. by rewrite E'.
  - intros Hc Ho e He.
    assert (show_and_release os_ok s = (Err (Platform "core graphics"), log_call ShowCursor s)) as E.
    { unfold show_and_release, show_cursor, os_call, mbind, ST_bind, gets, modify_st. by rewrite Ho. }
    unfold show_and_release, mbind, ST_bind, modify_st in E.
    destruct He as [-> |[-> | ->]]; unfold_turn; rewrite bool_decide_true by (by rewrite Hc); rewrite E;
      (split_and!; [done| |done]); unfold phase_of; cbn; by rewrite Hc.
Qed.
Definition active_state : InputCaptureState :=
  snd (run (step (λ _, true) demo_keymap) asked (take 3 demo_run) (initial demo_displays [])).
Lemma refused_calls_witness :
  phase_of (snd (turn_of (λ _, false) demo_keymap (task PRelease) active_state)) = Capturing demo_key.
Proof.
  apply (refused_calls (λ _, false) demo_keymap demo_key active_state 0 None None) with (e := PRelease);
    [|vm_compute; reflexivity|reflexivity|by left].
  split; [intros _; vm_compute; reflexivity|intros _; vm_compute; by eexists].
Defined.

(** ** Modifiers *)

(** A modifier key is reported as pressed exactly when the set of modifiers
    that are down has grown as a number.  A key that does not change it, like
    the second shift key when it goes down while the first is held, is reported
    as released. *)
Theorem modifier_reported keymap ev mods k :
  keymap (wrapU 16 (keycode ev)) = Some k →
  get_events keymap FlagsChanged ev mods =
    Ok ([Keyboard (Key 0 k (if decide (mods < depressed_of (flags ev))%Z then 1 else 0)%Z);
         Keyboard (Modifiers (depressed_of (flags ev)) 0 (locked_of (flags ev)) 0)], depressed_of (flags ev)) ∧
  (mods = depressed_of (flags ev) →
   get_events keymap FlagsChanged ev mods =
     Ok ([Keyboard (Key 0 k 0); Keyboard (Modifiers mods 0 (locked_of (flags ev)) 0)], mods)).
Proof.
  intros Hk. assert (get_events keymap FlagsChanged ev mods =
    Ok ([Keyboard (Key 0 k (if decide (mods < depressed_of (flags ev))%Z then 1 else 0)%Z);
         Keyboard (Modifiers (depressed_of (flags ev)) 0 (locked_of (flags ev)) 0)], depressed_of (flags ev))) as E.
  { unfold get_events, map_key. rewrite Hk. cbn [app]. destruct (Z.ltb_spec mods (depressed_of (flags ev))).
    - by rewrite decide_True.
    - by rewrite decide_False by lia. }
  split; [done|]. intros ->. rewrite E. by rewrite decide_False by lia.
Qed.
Definition shift_flags : CGEventFlags := mkFlags true false false false false.
Lemma modifier_reported_witness :
  get_events (λ _, Some 54%Z) FlagsChanged (press 60 shift_flags) 1 = Ok ([Keyboard (Key 0 54 0); Keyboard (Modifiers 1 0 0 0)], 1%Z).
Proof. apply (modifier_reported (λ _, Some 54%Z) (press 60 shift_flags) 1 54); reflexivity. Defined.

(** ** Waiting *)

(** While the peer has not answered, a movement along the edge takes the
    crossing back, because it does not lead out of the displays: the callback
    does not tell it from one that leads inside. *)
Lemma slide_cancels :
  let s := snd (run (step (λ _, true) demo_keymap) asked (take 2 demo_run) (initial demo_displays [])) in
  phase_of s = Waiting demo_key ∧
  fst (turn_of (λ _, true) demo_keymap (Tap MouseMoved (move 0 500 0 4)) s) = Ok [(demo_key, CancelPending)] ∧
  fst (turn_of (λ _, true) demo_keymap (Tap MouseMoved (move 0 500 (-1) 4)) s) = Ok [].
Proof. split_and!; vm_compute; reflexivity. Qed.
