(* ===== verification/WinCapture.v ===== *)
(** The capture backend of Windows (input-capture/src/windows.rs and
    windows/event_thread.rs): one thread runs the message loop and the hooks,
    the capture task leaves its requests in a buffer and posts messages.

    A run is a sequence of turns: a request of the capture task, a message, a
    hook with what Windows reports, a change of the displays, a poll of the
    channel.  [devices] is what the enumeration of the displays would see at a
    turn.  A send that blocks until there is room appends to the channel. *)

From S2P Require Import Prelude InputEvent Geometry InputCapture Scancode Doubles Monitors Backend Pixels.

(** * Data *)

Inductive ClientUpdate : Type :=
| UCreate (key : BarrierKey)
| UDestroy (key : BarrierKey)
| UStartCapture (key : BarrierKey)
| UCancelPending (key : BarrierKey).

(** The messages posted to the thread, [RequestType]. *)
Inductive RequestType : Type := RClientUpdate | RRelease | RExit.

(** The messages of the hooks, of the keyboard only the four it handles. *)
Inductive MouseMessage : Type :=
| WM_LBUTTONDOWN | WM_LBUTTONUP | WM_RBUTTONDOWN | WM_RBUTTONUP | WM_MBUTTONDOWN | WM_MBUTTONUP
| WM_MOUSEMOVE | WM_MOUSEWHEEL | WM_MOUSEHWHEEL | WM_XBUTTONDOWN | WM_XBUTTONUP | WM_MOUSE_OTHER.
#[export] Instance MouseMessage_eq_dec : EqDecision MouseMessage.
Proof. solve_decision. Defined.
Inductive KeyMessage : Type := WM_KEYDOWN | WM_KEYUP | WM_SYSKEYDOWN | WM_SYSKEYUP | WM_KEY_OTHER.
Record Mouse : Type := mkMouse { pt : ipoint; mouse_data : Z }.
Record Kbd : Type := mkKbd { scan_code : Z; extended : bool }.

(** Whether a hook swallows the event. *)
Inductive hook_result : Type := CallNextHook | Swallow.

(** The thread-local variables, the shared buffer and the two queues. *)
Record Thread : Type := mkThread {
  clients : gset BarrierKey;
  active_client : option BarrierKey;
  pending_client : option BarrierKey;
  pending_entry_point : point;
  entry_point : point;
  prev_pos : option point;
  displays : list DisplayBound;
  generation : Z;
  global_generation : Z;
  monitors_tx : list MonitorInfo;
  request_buffer : list ClientUpdate;
  messages : list RequestType;
  event_tx : emitted
}.

Definition set_clients (c : gset BarrierKey) (s : Thread) : Thread :=
  mkThread c (active_client s) (pending_client s) (pending_entry_point s) (entry_point s) (prev_pos s) (displays s)
    (generation s) (global_generation s) (monitors_tx s) (request_buffer s) (messages s) (event_tx s).
Definition set_active (k : option BarrierKey) (s : Thread) : Thread :=
  mkThread (clients s) k (pending_client s) (pending_entry_point s) (entry_point s) (prev_pos s) (displays s)
    (generation s) (global_generation s) (monitors_tx s) (request_buffer s) (messages s) (event_tx s).
Definition set_waiting (k : option BarrierKey) (s : Thread) : Thread :=
  mkThread (clients s) (active_client s) k (pending_entry_point s) (entry_point s) (prev_pos s) (displays s)
    (generation s) (global_generation s) (monitors_tx s) (request_buffer s) (messages s) (event_tx s).
Definition set_pending_entry (p : point) (s : Thread) : Thread :=
  mkThread (clients s) (active_client s) (pending_client s) p (entry_point s) (prev_pos s) (displays s)
    (generation s) (global_generation s) (monitors_tx s) (request_buffer s) (messages s) (event_tx s).
Definition set_entry (p : point) (s : Thread) : Thread :=
  mkThread (clients s) (active_client s) (pending_client s) (pending_entry_point s) p (prev_pos s) (displays s)
    (generation s) (global_generation s) (monitors_tx s) (request_buffer s) (messages s) (event_tx s).
Definition set_prev (p : option point) (s : Thread) : Thread :=
  mkThread (clients s) (active_client s) (pending_client s) (pending_entry_point s) (entry_point s) p (displays s)
    (generation s) (global_generation s) (monitors_tx s) (request_buffer s) (messages s) (event_tx s).
Definition set_regions (d : list DisplayBound) (g : Z) (m : list MonitorInfo) (s : Thread) : Thread :=
  mkThread (clients s) (active_client s) (pending_client s) (pending_entry_point s) (entry_point s) (prev_pos s) d
    g (global_generation s) m (request_buffer s) (messages s) (event_tx s).
Definition set_global (g : Z) (s : Thread) : Thread :=
  mkThread (clients s) (active_client s) (pending_client s) (pending_entry_point s) (entry_point s) (prev_pos s) (displays s)
    (generation s) g (monitors_tx s) (request_buffer s) (messages s) (event_tx s).
Definition set_queues (b : list ClientUpdate) (m : list RequestType) (s : Thread) : Thread :=
  mkThread (clients s) (active_client s) (pending_client s) (pending_entry_point s) (entry_point s) (prev_pos s) (displays s)
    (generation s) (global_generation s) (monitors_tx s) b m (event_tx s).
Definition set_channel (e : emitted) (s : Thread) : Thread :=
  mkThread (clients s) (active_client s) (pending_client s) (pending_entry_point s) (entry_point s) (prev_pos s) (displays s)
    (generation s) (global_generation s) (monitors_tx s) (request_buffer s) (messages s) e.

(** [channel(10)]. *)
Definition CAPACITY : nat := 10.
Definition blocking_send_event (key : BarrierKey) (e : CaptureEvent) (s : Thread) : Thread :=
  set_channel (event_tx s ++ [(key, e)]) s.
(** [try_send] fails when the channel is full: the event is gone. *)
Definition try_send_event (key : BarrierKey) (e : CaptureEvent) (s : Thread) : Thread :=
  if decide (length (event_tx s) < CAPACITY) then blocking_send_event key e s else s.

(** * The capture task's side *)

Definition signal (r : RequestType) (s : Thread) : Thread := set_queues (request_buffer s) (messages s ++ [r]) s.
Definition client_update (u : ClientUpdate) (s : Thread) : Thread :=
  signal RClientUpdate (set_queues (request_buffer s ++ [u]) (messages s) s).
Definition call (r : request) (s : Thread) : Thread :=
  match r with
  | CreateBarrier k => client_update (UCreate k) s
  | DestroyBarrier k => client_update (UDestroy k) s
  | StartCapture k => client_update (UStartCapture k) s
  | CancelRequest k => client_update (UCancelPending k) s
  | Release => signal RRelease s
  end.

(** * The thread *)

Definition update_clients (u : ClientUpdate) (s : Thread) : Thread :=
  match u with
  | UCreate key => set_clients ({[key]} ∪ clients s) s
  | UDestroy key =>
      let s := if decide (pending_client s = Some key) then set_waiting None s else s in
      let s := if decide (active_client s = Some key) then set_active None s else s in
      set_clients (clients s ∖ {[key]}) s
  | UStartCapture key =>
      if decide (pending_client s = Some key) then
        blocking_send_event key Begin
          (set_entry (pending_entry_point s) (set_active (Some key) (set_waiting None s)))
      else s
  | UCancelPending key => if decide (pending_client s = Some key) then set_waiting None s else s
  end.

(** A turn of the message loop; [None] ends it. *)
Definition message_turn (m : RequestType) (s : Thread) : option Thread :=
  match m with
  | RExit => None
  | RRelease => Some (set_waiting None (set_active None s))
  | RClientUpdate => Some (foldl (λ s u, update_clients u s) (set_queues [] (messages s) s) (request_buffer s))
  end.

(** [window_proc] on WM_DISPLAYCHANGE: an atomic counter of 32 bits. *)
Definition display_change (s : Thread) : Thread := set_global (wrapS 32 (global_generation s + 1)) s.

Definition update_display_regions (devices : list Win.Device) (s : Thread) : Thread :=
  if decide (generation s = global_generation s) then s
  else
    let info := Win.enumerate_displays_inner devices in
    set_regions (Win.display_bounds info) (global_generation s) (Win.build_monitor_info_list info) s.

(** The outcome says whether a client is active; [clamp] may panic. *)
Definition check_client_activation (devices : list Win.Device) (w : MouseMessage) (m : Mouse) (s : Thread)
    : outcome Empty_set bool * Thread :=
  if decide (w ≠ WM_MOUSEMOVE) then (Ok (bool_decide (is_Some (active_client s))), s)
  else
    let curr := to_point (pt m) in
    let prev := default curr (prev_pos s) in
    let s := set_prev (Some curr) s in
    match active_client s, pending_client s with
    | Some _, _ => (Ok true, s)
    | None, Some key =>
        let s := update_display_regions devices s in
        if cursor_within curr (rect <$> displays s) (key_pos key)
        then (Ok false, blocking_send_event key CancelPending (set_waiting None s))
        else (Ok false, s)
    | None, None =>
        let s := update_display_regions devices s in
        match activation_pure prev curr (displays s) (clients s) with
        | None => (Ok false, s)
        | Some key =>
            let s := set_waiting (Some key) s in
            match clamp_to_display_bounds (rect <$> displays s) prev curr with
            | Ok entry => (Ok false, blocking_send_event key BeginPending (set_pending_entry entry s))
            | _ => (Panic, s)
            end
        end
    end.

Definition to_mouse_event (w : MouseMessage) (m : Mouse) (s : Thread) : option PointerEvent :=
  let button b st := Some (Button 0 b st) in
  let wheel := Z.shiftr (wrapS 32 (mouse_data m)) 16 in
  match w with
  | WM_LBUTTONDOWN => button BTN_LEFT 1%Z
  | WM_MBUTTONDOWN => button BTN_MIDDLE 1%Z
  | WM_RBUTTONDOWN => button BTN_RIGHT 1%Z
  | WM_LBUTTONUP => button BTN_LEFT 0%Z
  | WM_MBUTTONUP => button BTN_MIDDLE 0%Z
  | WM_RBUTTONUP => button BTN_RIGHT 0%Z
  | WM_MOUSEMOVE =>
      let '(x, y) := to_point (pt m) in
      let '(ex, ey) := entry_point s in
      Some (Motion 0 (f64_of (f64_sub x ex)) (f64_of (f64_sub y ey)))
  | WM_MOUSEWHEEL => Some (AxisDiscrete120 0 (- wheel))
  | WM_XBUTTONDOWN | WM_XBUTTONUP =>
      let hb := Z.shiftr (mouse_data m) 16 in
      let st := if decide (w = WM_XBUTTONDOWN) then 1%Z else 0%Z in
      if (hb =? 1)%Z then button BTN_BACK st else if (hb =? 2)%Z then button BTN_FORWARD st else None
  | WM_MOUSEHWHEEL => Some (AxisDiscrete120 1 wheel)
  | WM_MOUSE_OTHER => None
  end.

Definition mouse_proc (devices : list Win.Device) (w : MouseMessage) (m : Mouse) (s : Thread)
    : outcome Empty_set hook_result * Thread :=
  match check_client_activation devices w m s with
  | (Ok false, s) => (Ok CallNextHook, s)
  | (Ok true, s) =>
      match active_client s with
      | None => (Ok Swallow, s)
      | Some key =>
          match to_mouse_event w m s with
          | None => (Ok Swallow, s)
          | Some e => (Ok Swallow, try_send_event key (Input (Pointer e)) s)
          end
      end
  | (_, s) => (Panic, s)
  end.

Definition to_key_event (w : KeyMessage) (k : Kbd) : option KeyboardEvent :=
  let code := if extended k then Z.lor (scan_code k) 0xE000 else scan_code k in
  win ← Windows.try_from_u32 code;
  linux ← linux_of_windows win;
  match w with
  | WM_KEYDOWN | WM_SYSKEYDOWN => Some (Key 0 (Linux.to_u32 linux) 1)
  | WM_KEYUP | WM_SYSKEYUP => Some (Key 0 (Linux.to_u32 linux) 0)
  | WM_KEY_OTHER => None
  end.
Definition kybrd_proc (w : KeyMessage) (k : Kbd) (s : Thread) : hook_result * Thread :=
  match active_client s with
  | None => (CallNextHook, s)
  | Some key =>
      match to_key_event w k with
      | None => (Swallow, s)
      | Some e => (Swallow, try_send_event key (Input (Keyboard e)) s)
      end
  end.

(** * Runs *)

Inductive turn : Type :=
| Call (r : request)
| Message
| MouseHook (devices : list Win.Device) (w : MouseMessage) (m : Mouse)
| KeyHook (w : KeyMessage) (k : Kbd)
| DisplayChange
| PollChannel.

Definition asked (u : ClientUpdate) : request :=
  match u with
  | UCreate k => CreateBarrier k
  | UDestroy k => DestroyBarrier k
  | UStartCapture k => StartCapture k
  | UCancelPending k => CancelRequest k
  end.
(** What a turn put into the channel. *)
Definition sent (s s' : Thread) : emitted := drop (length (event_tx s)) (event_tx s').

Fixpoint drain (us : list ClientUpdate) (s : Thread) : trace * Thread :=
  match us with
  | [] => ([], s)
  | u :: us =>
      let s' := update_clients u s in
      let '(tr, s'') := drain us s' in
      ((Some (asked u), sent s s') :: tr, s'')
  end.

Definition step (t : turn) (s : Thread) : outcome Empty_set trace * Thread :=
  match t with
  | Call r => (Ok [], call r s)
  | Message =>
      match messages s with
      | [] => (Ok [], s)
      | m :: rest =>
          let s := set_queues (request_buffer s) rest s in
          match m with
          | RExit => (Ok [], s)
          | RRelease => (Ok [(Some Release, [])], set_waiting None (set_active None s))
          | RClientUpdate =>
              let '(tr, s') := drain (request_buffer s) (set_queues [] rest s) in (Ok tr, s')
          end
      end
  | MouseHook devices w m =>
      match mouse_proc devices w m s with
      | (Ok _, s') => (Ok [(None, sent s s')], s')
      | (_, s') => (Panic, s')
      end
  | KeyHook w k => let '(_, s') := kybrd_proc w k s in (Ok [(None, sent s s')], s')
  | DisplayChange => (Ok [], display_change s)
  | PollChannel => (Ok [], set_channel (tail (event_tx s)) s)
  end.

(** The drained requests are the loop of [message_turn]. *)
Lemma drain_fold us s : snd (drain us s) = foldl (λ s u, update_clients u s) s us.
Proof.
  revert s. induction us as [|u us IH]; intros s; [done|]. cbn. rewrite <- IH. by destruct (drain us _).
Qed.
Lemma step_message s m rest :
  messages s = m :: rest → m ≠ RExit →
  message_turn m (set_queues (request_buffer s) rest s) = Some (snd (step Message s)).
Proof.
  intros Hm He. unfold step. rewrite Hm. destruct m; [|done|done]. cbn. rewrite <- drain_fold.
  by destruct (drain _ _).
Qed.

Fixpoint run (ts : list turn) (s : Thread) : outcome Empty_set trace * Thread :=
  match ts with
  | [] => (Ok [], s)
  | t :: ts =>
      match step t s with
      | (Ok tr, s) =>
          match run ts s with
          | (Ok tr', s) => (Ok (tr ++ tr'), s)
          | (_, s) => (Panic, s)
          end
      | (_, s) => (Panic, s)
      end
  end.

Definition phase_of (s : Thread) : phase :=
  match active_client s, pending_client s with
  | Some k, _ => Capturing k
  | None, Some k => Waiting k
  | None, None => Idle
  end.

(** The coordinates that Windows reports have 32 bits. *)
Definition pixel (p : ipoint) : Prop := inS 32 (fst p) ∧ inS 32 (snd p).
Definition device_fits (d : Win.Device) : Prop :=
  match Win.mode d with
  | Some m => pixel (Win.dm_position m) ∧ inU 32 (fst (Win.dm_size m)) ∧ inU 32 (snd (Win.dm_size m))
  | None => True
  end.
Definition fair (t : turn) : Prop :=
  match t with MouseHook devices _ m => Forall device_fits devices ∧ pixel (pt m) | _ => True end.

Record inv (s : Thread) : Prop := {
  exclusive : is_Some (active_client s) → pending_client s = None;
  on_pixels : ∃ rs, rect <$> displays s = to_rect <$> rs ∧ layout rs;
  prev_pixel : ∀ p, prev_pos s = Some p → ∃ q, p = to_point q ∧ pixel q
}.
Definition initial (monitors : list MonitorInfo) : Thread :=
  mkThread ∅ None None (f64_zero, f64_zero) (f64_zero, f64_zero) None [] 0 1 monitors [] [] [].

Lemma thread_start_inv ms : inv (initial ms).
Proof. split; cbn; [by intros []|exists []; split; [done|constructor]|done]. Qed.

(** A state that differs in nothing the invariant speaks of. *)
Lemma inv_ext s s' :
  active_client s' = active_client s → pending_client s' = pending_client s → displays s' = displays s →
  prev_pos s' = prev_pos s → inv s → inv s'.
Proof. intros E1 E2 E3 E4 [H1 H2 H3]. split; rewrite ?E1, ?E2, ?E3, ?E4; done. Qed.
Lemma phase_ext s s' : active_client s' = active_client s → pending_client s' = pending_client s → phase_of s' = phase_of s.
Proof. intros E1 E2. unfold phase_of. by rewrite E1, E2. Qed.

Lemma sent_app s s' es : event_tx s' = event_tx s ++ es → sent s s' = es.
Proof. intros E. unfold sent. by rewrite E, drop_app_length. Qed.
Lemma sent_none s s' : event_tx s' = event_tx s → sent s s' = [].
Proof. intros E. apply sent_app. by rewrite E, app_nil_r. Qed.

Lemma waiting_phase s k : inv s → pending_client s = Some k → active_client s = None ∧ phase_of s = Waiting k.
Proof.
  intros Hi Hp. destruct (active_client s) eqn:E.
  - rewrite (exclusive s Hi) in Hp; [done|by rewrite E].
  - split; [done|]. unfold phase_of. by rewrite E, Hp.
Qed.
Lemma not_waiting s k : inv s → pending_client s ≠ Some k → phase_of s ≠ Waiting k.
Proof. intros Hi Hp. unfold phase_of. destruct (active_client s), (pending_client s); congruence. Qed.

Lemma update_clients_ok u s :
  inv s → inv (update_clients u s) ∧
    step_ok (Some (asked u)) (phase_of s) (sent s (update_clients u s)) (phase_of (update_clients u s)).
Proof.
  intros Hi. destruct u as [k|k|k|k]; cbn [asked update_clients].
  - split; [by eapply inv_ext; [..|exact Hi]|]. rewrite sent_none by done. constructor.
  - destruct (decide (pending_client s = Some k)) as [Hp|Hp].
    + destruct (waiting_phase s k Hi Hp) as [Ha Hph]. rewrite decide_False by (cbn; by rewrite Ha).
      split; [destruct Hi; split; cbn; done|]. rewrite sent_none, Hph by done.
      pose proof (ok_destroy k (Waiting k)) as H. cbn [at_key] in H. rewrite bool_decide_true in H by done.
      unfold phase_of. cbn. by rewrite Ha.
    + destruct (decide (active_client s = Some k)) as [Ha|Ha].
      * assert (phase_of s = Capturing k) as -> by (unfold phase_of; by rewrite Ha).
        pose proof (exclusive s Hi ltac:(by rewrite Ha)) as Hn.
        split; [destruct Hi; split; cbn; [by intros []|done|done]|]. rewrite sent_none by done.
        pose proof (ok_destroy k (Capturing k)) as H. cbn [at_key] in H. rewrite bool_decide_true in H by done.
        unfold phase_of. cbn. by rewrite Hn.
      * split; [by eapply inv_ext; [..|exact Hi]|]. rewrite sent_none by done.
        assert (at_key k (phase_of s) = false) as E.
        { unfold phase_of. destruct (active_client s), (pending_client s); cbn; try apply bool_decide_eq_false; congruence. }
        pose proof (ok_destroy k (phase_of s)) as H. by rewrite E in H.
  - destruct (decide (pending_client s = Some k)) as [Hp|Hp].
    + destruct (waiting_phase s k Hi Hp) as [Ha ->]. split; [destruct Hi; split; cbn; done|].
      rewrite (sent_app _ _ [(k, Begin)]) by done. constructor.
    + split; [done|]. rewrite sent_none by done. apply ok_start_other. by apply not_waiting.
  - destruct (decide (pending_client s = Some k)) as [Hp|Hp].
    + destruct (waiting_phase s k Hi Hp) as [Ha ->]. split; [destruct Hi; split; cbn; done|].
      rewrite sent_none by done. unfold phase_of. cbn. rewrite Ha. apply ok_cancel. by left.
    + split; [done|]. rewrite sent_none by done. apply ok_cancel_other. by apply not_waiting.
Qed.

Lemma drain_ok us s :
  inv s → inv (snd (drain us s)) ∧ conforms (phase_of s) (fst (drain us s)) (phase_of (snd (drain us s))).
Proof.
  revert s. induction us as [|u us IH]; intros s Hi; cbn; [split; [done|constructor]|].
  destruct (update_clients_ok u s Hi) as [Hi' Hs]. destruct (IH _ Hi') as [Hi'' Hc].
  destruct (drain us _) as [tr s'']. split; [done|]. by econstructor.
Qed.

(** * The hooks *)

Lemma pixel_small p : pixel p → small_point p.
Proof. unfold pixel, small_point, small, inS. lia. Qed.

Definition rect_of (d : Win.WinDisplayInfo) : IRect :=
  mkIRect (fst (Win.wposition d)) (snd (Win.wposition d)) (fst (Win.wsize d)) (snd (Win.wsize d)).
Lemma bounds_layout devices :
  Forall device_fits devices →
  let info := Win.enumerate_displays_inner devices in
  rect <$> Win.display_bounds info = to_rect <$> (rect_of <$> info) ∧ layout (rect_of <$> info).
Proof.
  intros Hd info. split.
  - unfold Win.display_bounds. rewrite <- !list_fmap_compose. apply list_fmap_ext. done.
  - unfold layout, info, Win.enumerate_displays_inner. apply Forall_fmap. clear info.
    induction Hd as [|d ds Hd _ IH]; [constructor|]. cbn [omap list_omap].
    destruct (Win.attached d); [|exact IH]. unfold device_fits in Hd. destruct (Win.mode d) as [m|]; [|exact IH].
    constructor; [|exact IH]. cbn. unfold pixel, smaller, inS, inU in *. lia.
Qed.

Lemma update_regions_ok devices s :
  Forall device_fits devices → inv s →
  inv (update_display_regions devices s) ∧ phase_of (update_display_regions devices s) = phase_of s ∧
  event_tx (update_display_regions devices s) = event_tx s ∧
  active_client (update_display_regions devices s) = active_client s ∧
  pending_client (update_display_regions devices s) = pending_client s ∧
  clients (update_display_regions devices s) = clients s ∧
  messages (update_display_regions devices s) = messages s ∧
  request_buffer (update_display_regions devices s) = request_buffer s.
Proof.
  intros Hd Hi. unfold update_display_regions. case_decide; [done|]. cbn. split_and!; try done.
  destruct Hi as [H1 _ H3]. split; cbn; [done| |done].
  destruct (bounds_layout devices Hd) as [E1 E2]. eauto.
Qed.

Lemma set_prev_ok q s : pixel q → inv s → inv (set_prev (Some (to_point q)) s).
Proof. intros Hq [H1 H2 H3]. split; cbn; [done|done|]. intros p [= <-]. by exists q. Qed.

(** With a client active the check only notes where the cursor is. *)
Lemma check_active devices w m s :
  pixel (pt m) → is_Some (active_client s) → inv s →
  ∃ s', check_client_activation devices w m s = (Ok true, s') ∧ inv s' ∧ event_tx s' = event_tx s ∧
    phase_of s' = phase_of s ∧ active_client s' = active_client s ∧ entry_point s' = entry_point s.
Proof.
  intros Hq [k Ha] Hi. unfold check_client_activation. rewrite Ha. case_decide.
  - rewrite bool_decide_true by (by eexists). by eexists.
  - cbn zeta. change (active_client (set_prev ?q s)) with (active_client s). rewrite Ha.
    eexists. split; [done|]. split_and!; [by apply set_prev_ok|done| |exact Ha|done]. unfold phase_of. cbn. by rewrite Ha.
Qed.

(** Without one it moves between idle and waiting. *)
Lemma check_inactive devices w m s :
  Forall device_fits devices → pixel (pt m) → active_client s = None → inv s →
  ∃ s', check_client_activation devices w m s = (Ok false, s') ∧ inv s' ∧ active_client s' = None ∧
    step_ok None (phase_of s) (sent s s') (phase_of s').
Proof.
  intros Hd Hq Ea Hi. unfold check_client_activation. rewrite Ea. case_decide as Hw.
  { rewrite bool_decide_false by (by intros []). eexists. split; [done|]. split_and!; [done..|].
    rewrite sent_none by done. constructor. }
  set (curr := to_point (pt m)). set (s1 := set_prev (Some curr) s).
  cbn zeta. change (active_client s1) with (active_client s). change (pending_client s1) with (pending_client s). rewrite Ea.
  assert (inv s1) as Hi1 by by apply set_prev_ok.
  destruct (update_regions_ok devices s1 Hd Hi1) as (Hi2 & Hph & Hev & Hact & Hpen & Hcl & _).
  set (s2 := update_display_regions devices s1) in *.
  assert (active_client s2 = None) as Ha2 by (rewrite Hact; exact Ea).
  assert (∀ k, inv (set_waiting k s2)) as Hi3.
  { intros k. destruct Hi2. split; cbn; [rewrite Ha2; by intros []|done|done]. }
  assert (phase_of s2 = phase_of s) as Hph2 by exact Hph.
  destruct (pending_client s) as [k|] eqn:Ep.
  - assert (phase_of s = Waiting k) as Hs by (unfold phase_of; by rewrite Ea, Ep).
    destruct (cursor_within curr (rect <$> displays s2) (key_pos k)); (eexists; split; [done|]; split_and!).
    + apply (inv_ext (set_waiting None s2)); [done..|apply Hi3].
    + exact Ha2.
    + rewrite (sent_app _ _ [(k, CancelPending)]) by (cbn; by rewrite Hev). rewrite Hs.
      unfold phase_of. cbn. rewrite Ha2. constructor.
    + exact Hi2.
    + exact Ha2.
    + rewrite sent_none by exact Hev. rewrite Hph2. constructor.
  - assert (phase_of s = Idle) as Hs by (unfold phase_of; by rewrite Ea, Ep).
    destruct (activation_pure _ curr (displays s2) (clients s2)) as [k|] eqn:Ec.
    + assert (∃ prev, default curr (prev_pos s) = to_point prev ∧ pixel prev) as (prev & Eprev & Hprev).
      { destruct (prev_pos s) as [p|] eqn:Epp; [|by exists (pt m)]. by apply (prev_pixel s Hi). }
      destruct (on_pixels _ Hi2) as (rs & Ers & Hl).
      assert (∃ e, clamp_to_display_bounds (rect <$> displays s2) (default curr (prev_pos s)) curr = Ok e) as [e He].
      { rewrite Ers, Eprev. unfold curr. rewrite clamp_pixels; [by eexists|done|by apply pixel_small..]. }
      change (displays (set_waiting (Some k) s2)) with (displays s2). rewrite He.
      eexists. split; [done|]. split_and!; [|exact Ha2|].
      { apply (inv_ext (set_waiting (Some k) s2)); [done..|apply Hi3]. }
      rewrite (sent_app _ _ [(k, BeginPending)]) by (cbn; by rewrite Hev). rewrite Hs.
      unfold phase_of. cbn. rewrite Ha2. constructor.
    + eexists. split; [done|]. split_and!; [exact Hi2|exact Ha2|].
      rewrite sent_none by exact Hev. rewrite Hph2. constructor.
Qed.

Lemma try_send_ok k e s : ∃ es, event_tx (try_send_event k (Input e) s) = event_tx s ++ es ∧ inputs k es ∧
  phase_of (try_send_event k (Input e) s) = phase_of s.
Proof.
  unfold try_send_event. case_decide.
  - exists [(k, Input e)]. split_and!; [done| |done]. constructor; [by eexists|constructor].
  - exists []. split_and!; [by rewrite app_nil_r|constructor|done].
Qed.
Lemma try_send_inv k e s : inv s → inv (try_send_event k e s).
Proof. unfold try_send_event. case_decide; [by apply inv_ext|done]. Qed.
Lemma input_ok k e s s' :
  active_client s = Some k → phase_of s' = phase_of s → event_tx s' = event_tx s →
  step_ok None (phase_of s) (sent s (try_send_event k (Input e) s')) (phase_of (try_send_event k (Input e) s')).
Proof.
  intros Ha Hp He. destruct (try_send_ok k e s') as (es & Ees & Hin & ->). rewrite Hp.
  rewrite (sent_app _ _ es) by (by rewrite Ees, He). unfold phase_of. rewrite Ha. by constructor.
Qed.

Lemma mouse_ok devices w m s :
  Forall device_fits devices → pixel (pt m) → inv s →
  ∃ r s', mouse_proc devices w m s = (Ok r, s') ∧ inv s' ∧ (r = Swallow ↔ is_Some (active_client s)) ∧
    step_ok None (phase_of s) (sent s s') (phase_of s').
Proof.
  intros Hd Hq Hi. unfold mouse_proc. destruct (active_client s) as [k|] eqn:Ea.
  - destruct (check_active devices w m s Hq) as (s' & -> & Hi' & He & Hp & Ha & _); [by rewrite Ea|done|].
    rewrite Ha, Ea. destruct (to_mouse_event w m s') as [e|].
    + do 2 eexists. split; [done|]. split_and!; [by apply try_send_inv|by split|by apply input_ok].
    + do 2 eexists. split; [done|]. split_and!; [done|by split|]. rewrite sent_none, Hp by done. constructor.
  - destruct (check_inactive devices w m s Hd Hq Ea Hi) as (s' & -> & Hi' & _ & Hs).
    do 2 eexists. split; [done|]. split_and!; [done|by split; [|intros []]|done].
Qed.
Lemma key_ok w k s :
  inv s → ∃ r s', kybrd_proc w k s = (r, s') ∧ inv s' ∧ (r = Swallow ↔ is_Some (active_client s)) ∧
    step_ok None (phase_of s) (sent s s') (phase_of s').
Proof.
  intros Hi. unfold kybrd_proc. destruct (active_client s) as [key|] eqn:Ea; [destruct (to_key_event w k) as [e|]|].
  - do 2 eexists. split; [done|]. split_and!; [by apply try_send_inv|by split|by apply input_ok].
  - do 2 eexists. split; [done|]. split_and!; [done|by split|]. rewrite sent_none by done. constructor.
  - do 2 eexists. split; [done|]. split_and!; [done|by split; [|intros []]|]. rewrite sent_none by done. constructor.
Qed.

Lemma idle_ok s : inv s → inv (set_waiting None (set_active None s)).
Proof. intros [H1 H2 H3]. by split; cbn; [intros []|..]. Qed.

Lemma step_fine t s :
  fair t → inv s → ∃ tr s', step t s = (Ok tr, s') ∧ inv s' ∧ conforms (phase_of s) tr (phase_of s').
Proof.
  intros Hf Hi. destruct t as [r| |devices w m|w k| |]; cbn [step].
  - do 2 eexists. split; [done|]. split; [destruct r; by apply (inv_ext s)|]. destruct r; constructor.
  - destruct (messages s) as [|[| |] rest]; cbn.
    + do 2 eexists. by split; [|split; [|constructor]].
    + destruct (drain_ok (request_buffer s) (set_queues [] rest s)) as [Hi' Hc]; [by apply (inv_ext s)|].
      cbn. destruct (drain _ _) as [tr s']. do 2 eexists. by split.
    + do 2 eexists. split; [done|]. split; [by apply idle_ok, (inv_ext s)|].
      econstructor; [apply ok_release|constructor].
    + do 2 eexists. split; [done|]. split; [by apply (inv_ext s)|constructor].
  - destruct Hf as [Hd Hq]. destruct (mouse_ok devices w m s Hd Hq Hi) as (r & s' & -> & Hi' & _ & Hs).
    do 2 eexists. split; [done|]. split; [done|]. econstructor; [done|constructor].
  - destruct (key_ok w k s Hi) as (r & s' & -> & Hi' & _ & Hs).
    do 2 eexists. split; [done|]. split; [done|]. econstructor; [done|constructor].
  - do 2 eexists. split; [done|]. split; [by apply (inv_ext s)|constructor].
  - do 2 eexists. split; [done|]. split; [by apply (inv_ext s)|constructor].
Qed.
Lemma run_fine ts s :
  Forall fair ts → inv s → ∃ tr s', run ts s = (Ok tr, s') ∧ inv s' ∧ conforms (phase_of s) tr (phase_of s').
Proof.
  intros Hf. revert s. induction Hf as [|t ts Ht _ IH]; intros s Hi; cbn [run].
  { do 2 eexists. by split; [|split; [|constructor]]. }
  destruct (step_fine t s Ht Hi) as (tr & s1 & -> & Hi1 & Hc).
  destruct (IH s1 Hi1) as (tr' & s2 & -> & Hi2 & Hc'). do 2 eexists. split; [done|]. split; [done|].
  by eapply conforms_app.
Qed.

(** * The contract *)

(** C13. Windows: over every run of requests, messages, hooks and display
    changes with the coordinates Windows reports, the thread never panics, what
    it emits conforms to the specification of a capture backend, an input is
    emitted only under a capture the task granted, and a hook swallows what
    happens exactly while a client is active, so a crossing that still waits
    for the peer never swallows anything. *)
Theorem win_contract ms ts :
  Forall fair ts →
  ∃ tr s, run ts (initial ms) = (Ok tr, s) ∧ inv s ∧ conforms Idle tr (phase_of s) ∧
    (∀ tr1 o es tr2 k e, tr = tr1 ++ (o, es) :: tr2 → (k, Input e) ∈ es → granted k tr1) ∧
    (∀ devices w m, Forall device_fits devices → pixel (pt m) →
       ∃ r s', mouse_proc devices w m s = (Ok r, s') ∧ (r = Swallow ↔ ∃ k, phase_of s = Capturing k)) ∧
    (∀ w kb, fst (kybrd_proc w kb s) = Swallow ↔ ∃ k, phase_of s = Capturing k).
Proof.
  intros Hf. destruct (run_fine ts (initial ms) Hf (thread_start_inv ms)) as (tr & s & E & Hi & Hc).
  exists tr, s. assert (is_Some (active_client s) ↔ ∃ k, phase_of s = Capturing k) as Hp.
  { unfold phase_of. destruct (active_client s) as [k|].
    - split; intros _; by exists k.
    - split; [by intros []|]. intros [k Hk]. by destruct (pending_client s). }
  split_and!; [done|done|done|by intros; eapply input_granted|..].
  - intros devices w m Hd Hq. destruct (mouse_ok devices w m s Hd Hq Hi) as (r & s' & E' & _ & Hr & _).
    exists r, s'. by rewrite <- Hp.
  - intros w kb. destruct (key_ok w kb s Hi) as (r & s' & E' & _ & Hr & _). rewrite E'. cbn. by rewrite <- Hp.
Qed.

Definition demo_devices : list Win.Device :=
  [Win.mkDevice [100%Z; 0%Z] [] [] true true (Some (Win.mkMode (0, 0)%Z (1920, 1080)%Z 96))].
Definition demo_key : BarrierKey := from_pos Edge.Left.
Definition demo_move (x y : Z) : turn := MouseHook demo_devices WM_MOUSEMOVE (mkMouse (x, y) 0).
(** A crossing over the left edge, granted while the cursor has slid down. *)
Definition demo_run : list turn :=
  [Call (CreateBarrier demo_key); Message; demo_move 3 500; demo_move (-2) 500; demo_move (-1) 600;
   Call (StartCapture demo_key); Message; demo_move (-4) 601; KeyHook WM_KEYDOWN (mkKbd 30 false); Call Release; Message].
Lemma demo_fair : Forall fair demo_run.
Proof. repeat constructor; done. Qed.
Lemma win_contract_witness :
  granted demo_key
    [(Some (CreateBarrier demo_key), []); (None, []); (None, [(demo_key, BeginPending)]); (None, []);
     (Some (StartCapture demo_key), [(demo_key, Begin)]);
     (None, [(demo_key, Input (Pointer (Motion 0 (f64_of (of_Z (-4))) (f64_of (of_Z 101)))))])].
Proof.
  destruct (win_contract [] demo_run demo_fair) as (tr & s & E & _ & _ & H & _).
  vm_compute in E. injection E as Etr _. symmetry in Etr.
  apply (H _ None [(demo_key, Input (Keyboard (Key 0 30 1)))] [(Some Release, [])] demo_key (Keyboard (Key 0 30 1)));
    [rewrite Etr; vm_compute; reflexivity|by left].
Defined.

(** * The entry point *)

(** Only a crossing records an entry point, and it reports itself. *)
Definition no_crossing (tr : trace) : Prop := Forall (λ oe, ∀ k, (k, BeginPending) ∉ oe.2) tr.

Lemma regions_entry devices s :
  pending_entry_point (update_display_regions devices s) = pending_entry_point s ∧
  event_tx (update_display_regions devices s) = event_tx s.
Proof. unfold update_display_regions. by case_decide. Qed.
Lemma check_entry devices w m s :
  let s' := snd (check_client_activation devices w m s) in
  pending_entry_point s' = pending_entry_point s ∨ ∃ k, event_tx s' = event_tx s ++ [(k, BeginPending)] ∨
    fst (check_client_activation devices w m s) = Panic.
Proof.
  unfold check_client_activation. case_decide; [by left|]. cbn zeta.
  set (s1 := set_prev (Some _) s). destruct (regions_entry devices s1) as [H1 H2].
  destruct (active_client s1); [by left|]. destruct (pending_client s1) as [k|].
  - left. by destruct (cursor_within _ _ _).
  - destruct (activation_pure _ _ _ _) as [k|]; [|by left]. right. exists k.
    destruct (clamp_to_display_bounds _ _ _); [left; cbn; by rewrite H2|by right..].
Qed.
Lemma update_clients_entry u s : pending_entry_point (update_clients u s) = pending_entry_point s.
Proof. destruct u; cbn; by repeat case_decide. Qed.
Lemma drain_entry us s : pending_entry_point (snd (drain us s)) = pending_entry_point s.
Proof.
  rewrite drain_fold. revert s. induction us as [|u us IH]; intros s; [done|]. cbn. by rewrite IH, update_clients_entry.
Qed.
Lemma try_send_more k e s :
  pending_entry_point (try_send_event k e s) = pending_entry_point s ∧ ∃ es, event_tx (try_send_event k e s) = event_tx s ++ es.
Proof.
  unfold try_send_event. case_decide; (split; [done|]); [by exists [(k, e)]|exists []; by rewrite app_nil_r].
Qed.

Lemma step_entry t s tr s' :
  step t s = (Ok tr, s') → no_crossing tr → pending_entry_point s' = pending_entry_point s.
Proof.
  intros E Hn. destruct t as [r| |devices w m|w kb| |]; cbn [step] in E.
  - injection E as _ <-. by destruct r.
  - destruct (messages s) as [|[| |] rest]; [by injection E as _ <-| |by injection E as _ <-..].
    pose proof (drain_entry (request_buffer s) (set_queues [] rest s)) as H. cbn in E. destruct (drain _ _) as [tr' s2].
    by injection E as _ <-.
  - unfold mouse_proc in E. pose proof (check_entry devices w m s) as H.
    destruct (check_client_activation devices w m s) as [r s1]. cbn [fst snd] in H.
    destruct H as [H|(k & [H| ->])]; [| |done].
    + rewrite <- H. destruct r as [[]| | |]; [|by injection E as _ <-|done..].
      destruct (active_client s1); [|by injection E as _ <-]. destruct (to_mouse_event w m s1); [|by injection E as _ <-].
      injection E as _ <-. apply try_send_more.
    + exfalso. assert (∃ es, event_tx s' = event_tx s1 ++ es ∧ tr = [(None, sent s s')]) as (es & H' & ->).
      { destruct r as [[]| | |]; [|by injection E as <- <-; exists []; rewrite app_nil_r|done..].
        destruct (active_client s1); [|by injection E as <- <-; exists []; rewrite app_nil_r].
        destruct (to_mouse_event w m s1); [|by injection E as <- <-; exists []; rewrite app_nil_r].
        injection E as <- <-. destruct (try_send_more b (Input (Pointer p)) s1) as [_ [es He]]. by exists es. }
      inversion Hn as [|? ? Hk _]; subst. apply (Hk k). cbn.
      rewrite (sent_app s s' ([(k, BeginPending)] ++ es)) by (by rewrite H', H, <- app_assoc). by left.
  - unfold kybrd_proc in E. destruct (active_client s); [|by injection E as _ <-].
    destruct (to_key_event w kb); injection E as _ <-; [apply try_send_more|done].
  - by injection E as _ <-.
  - by injection E as _ <-.
Qed.
Lemma run_entry ts s tr s' : run ts s = (Ok tr, s') → no_crossing tr → pending_entry_point s' = pending_entry_point s.
Proof.
  revert s tr. induction ts as [|t ts IH]; intros s tr; cbn; [by intros [= _ <-]|].
  destruct (step t s) as [[tr1| | |] s1] eqn:E1; [|done..]. destruct (run ts s1) as [[tr2| | |] s2] eqn:E2; [|done..].
  intros [= <- <-] [H1 H2]%Forall_app. rewrite (IH _ _ E2 H2). by eapply step_entry.
Qed.

(** The moves of the cursor, held at [c], while a client is active. *)
Definition moved (devices : list Win.Device) (c : ipoint) (d : ipoint) : turn :=
  MouseHook devices WM_MOUSEMOVE (mkMouse ((fst c + fst d)%Z, (snd c + snd d)%Z) 0).
Definition reported (e c d : ipoint) : CaptureEvent :=
  Input (Pointer (Motion 0 (f64_of (of_Z (fst c - fst e + fst d))) (f64_of (of_Z (snd c - snd e + snd d))))).

Lemma move_reported devices k e c d s :
  active_client s = Some k → entry_point s = to_point e → small_point e → small_point c → small_point d →
  length (event_tx s) < CAPACITY →
  ∃ s', step (moved devices c d) s = (Ok [(None, [(k, reported e c d)])], s') ∧ active_client s' = Some k ∧
    entry_point s' = to_point e ∧ event_tx s' = event_tx s ++ [(k, reported e c d)].
Proof.
  intros Ha He Hse Hsc Hsd Hl. unfold moved. cbn [step]. unfold mouse_proc, check_client_activation.
  rewrite decide_False by (by intros H; apply H). cbn zeta. change (active_client (set_prev ?q s)) with (active_client s).
  rewrite Ha. cbn [active_client set_prev]. rewrite Ha. unfold to_mouse_event. cbn [pt entry_point set_prev]. rewrite He.
  unfold to_point. cbn [fst snd]. unfold small_point, small in *. rewrite !sub_exact by lia.
  unfold try_send_event. rewrite decide_True by exact Hl.
  assert (reported e c d = Input (Pointer (Motion 0 (f64_of (of_Z (fst c + fst d - fst e))) (f64_of (of_Z (snd c + snd d - snd e)))))) as ->.
  { unfold reported. replace (fst c - fst e + fst d)%Z with (fst c + fst d - fst e)%Z by lia.
    by replace (snd c - snd e + snd d)%Z with (snd c + snd d - snd e)%Z by lia. }
  eexists. split; [unfold sent; cbn; by rewrite drop_app_length|].
  split_and!; [exact Ha|exact He|reflexivity].
Qed.

Lemma moves_reported devices k e c ds s :
  active_client s = Some k → entry_point s = to_point e → small_point e → small_point c → Forall small_point ds →
  length (event_tx s) + length ds ≤ CAPACITY →
  ∃ s', run (map (moved devices c) ds) s = (Ok (map (λ d, (None, [(k, reported e c d)])) ds), s').
Proof.
  intros Ha He Hse Hsc Hd. revert s Ha He. induction Hd as [|d ds Hd _ IH]; intros s Ha He Hl; [by eexists|].
  cbn [length] in Hl.
  destruct (move_reported devices k e c d s Ha He Hse Hsc Hd ltac:(lia)) as (s1 & E1 & Ha1 & He1 & Ht).
  destruct (IH s1 Ha1 He1) as [s2 E2]; [rewrite Ht, length_app; cbn; lia|].
  exists s2. cbn [map run]. by rewrite E1, E2.
Qed.

(** The motion sent to the peer is measured from the point where the barrier
    was crossed, whatever the cursor did while the peer was asked: when the
    capture starts with the cursor at [c] after a crossing at [e], every move
    by [d] is reported as [c - e + d], exactly, so a cursor that slid along the
    edge in between adds the same error to each of them. *)
Theorem motion_from_crossing s k e c ds devices ts tr s1 :
  small_point e → small_point c → Forall small_point ds →
  pending_entry_point s = to_point e → run ts s = (Ok tr, s1) → no_crossing tr → pending_client s1 = Some k →
  length (event_tx s1) + length ds < CAPACITY →
  ∃ s2, run (map (moved devices c) ds) (update_clients (UStartCapture k) s1) =
    (Ok (map (λ d, (None, [(k, reported e c d)])) ds), s2).
Proof.
  intros He Hc Hd Hp Hr Hn Hk Hl. apply moves_reported; try done; cbn; rewrite decide_True by done.
  - done.
  - cbn. by rewrite (run_entry ts s tr s1).
  - cbn. rewrite length_app. cbn. lia.
Qed.
(** The cursor crosses at (0, 500) and slides 100 down before the answer; then
    every move by one to the left is reported with a drift of 100. *)
Definition crossed_state : Thread := snd (run (firstn 4 demo_run) (initial [])).
Lemma motion_from_crossing_witness :
  pending_client crossed_state = Some demo_key ∧
  fst (run [moved demo_devices (0, 600)%Z (-1, 0)%Z; moved demo_devices (0, 600)%Z (-1, 0)%Z]
         (update_clients (UStartCapture demo_key) (snd (run [demo_move (-1) 600] crossed_state)))) =
    Ok [(None, [(demo_key, Input (Pointer (Motion 0 (f64_of (of_Z (-1))) (f64_of (of_Z 100)))))]);
        (None, [(demo_key, Input (Pointer (Motion 0 (f64_of (of_Z (-1))) (f64_of (of_Z 100)))))])].
Proof.
  split; [reflexivity|].
  destruct (motion_from_crossing crossed_state demo_key (0, 500)%Z (0, 600)%Z [(-1, 0)%Z; (-1, 0)%Z] demo_devices
    [demo_move (-1) 600] [(None, [])] (snd (run [demo_move (-1) 600] crossed_state))) as [s2 E];
    [split; unfold small; cbn; lia|split; unfold small; cbn; lia|repeat constructor; unfold small; cbn; lia|
     vm_compute; reflexivity|vm_compute; reflexivity| |vm_compute; reflexivity|vm_compute; lia|].
  - repeat constructor. intros k H. by apply elem_of_nil in H.
  - cbn [map] in E. by rewrite E.
Defined.

(** * Orders and losses *)

(** The requests of the task go through a buffer that a message drains
    whole, a release through a message of its own: while a message for an
    earlier request has not been handled, a request to start overtakes a release
    that was made before it, so the task gets [Begin] and the capture is over. *)
Theorem start_overtakes s k u :
  pending_client s = Some k → messages s = [RClientUpdate] → request_buffer s = [u] → asked u ≠ DestroyBarrier k →
  asked u ≠ CancelRequest k → asked u ≠ StartCapture k →
  ∃ tr s', run [Call Release; Call (StartCapture k); Message; Message] s = (Ok tr, s') ∧
    tr = [(Some (asked u), []); (Some (StartCapture k), [(k, Begin)]); (Some Release, [])] ∧ phase_of s' = Idle.
Proof.
  intros Hp Hm Hb H1 H2 H3.
  assert (∀ s0, pending_client s0 = Some k → event_tx (update_clients u s0) = event_tx s0 ∧
            pending_client (update_clients u s0) = Some k ∧ messages (update_clients u s0) = messages s0) as Hu.
  { intros s0 H0. destruct u as [k'|k'|k'|k']; cbn in *; [done|..];
      (rewrite (decide_False (P:=pending_client s0 = Some k')) by (rewrite H0; congruence)); [case_decide|..]; done. }
  set (s0 := set_queues [] [RRelease; RClientUpdate] (call (StartCapture k) (call Release s))).
  destruct (Hu s0 Hp) as (E1 & E2 & E3).
  assert (step Message (call (StartCapture k) (call Release s)) =
    (Ok [(Some (asked u), []); (Some (StartCapture k), [(k, Begin)])], update_clients (UStartCapture k) (update_clients u s0))) as E.
  { unfold step, call, client_update, signal. cbn [messages set_queues request_buffer]. rewrite Hm, Hb. cbn [app drain].
    change (set_queues [] [RRelease; RClientUpdate] _) with s0 at 1. fold s0.
    rewrite (sent_none s0) by exact E1. cbn [asked]. rewrite (sent_app _ _ [(k, Begin)]); [done|].
    cbn. by rewrite decide_True. }
  assert (∀ r x, step (Call r) x = (Ok [], call r x)) as Hc by done.
  cbn [run]. rewrite Hc. cbn beta iota. rewrite Hc. cbn beta iota. rewrite E. cbn beta iota.
  unfold step. cbn [update_clients]. rewrite decide_True by done. cbn [messages set_channel set_entry set_active set_waiting blocking_send_event].
  rewrite E3. cbn. do 2 eexists. by split.
Qed.
Definition late_state : Thread :=
  set_queues [UCreate (from_pos Edge.Top)] [RClientUpdate] (snd (run (firstn 4 demo_run) (initial []))).
Lemma start_overtakes_witness :
  ∃ tr s', run [Call Release; Call (StartCapture demo_key); Message; Message] late_state = (Ok tr, s') ∧
    tr = [(Some (CreateBarrier (from_pos Edge.Top)), []); (Some (StartCapture demo_key), [(demo_key, Begin)]); (Some Release, [])] ∧
    phase_of s' = Idle.
Proof. apply (start_overtakes late_state demo_key (UCreate (from_pos Edge.Top))); done. Defined.

(** While the channel to the task is full a hook still swallows what
    happens, and it is gone: the release of a key that the peer holds down, too. *)
Theorem full_channel_loses s k :
  active_client s = Some k → CAPACITY ≤ length (event_tx s) →
  (∀ w kb, kybrd_proc w kb s = (Swallow, s)) ∧
  (∀ devices w m, ∃ s', mouse_proc devices w m s = (Ok Swallow, s') ∧ event_tx s' = event_tx s).
Proof.
  intros Ha Hl. assert (∀ e s', event_tx s' = event_tx s → try_send_event k e s' = s') as Ht.
  { intros e s' E. unfold try_send_event. by rewrite decide_False by (rewrite E; lia). }
  split.
  - intros w kb. unfold kybrd_proc. rewrite Ha. destruct (to_key_event w kb); [by rewrite Ht|done].
  - intros devices w m. unfold mouse_proc, check_client_activation. case_decide.
    + rewrite bool_decide_true by (by rewrite Ha). rewrite Ha. eexists.
      destruct (to_mouse_event w m s); rewrite ?Ht by done; by split.
    + cbn zeta. change (active_client (set_prev ?q s)) with (active_client s). rewrite Ha.
      change (active_client (set_prev ?q s)) with (active_client s). rewrite Ha.
      destruct (to_mouse_event w m _); rewrite ?Ht by done; by eexists.
Qed.
Lemma full_channel_loses_witness :
  kybrd_proc WM_KEYUP (mkKbd 30 false)
    (set_channel (repeat (demo_key, Begin) 10) (set_active (Some demo_key) (initial []))) =
  (Swallow, set_channel (repeat (demo_key, Begin) 10) (set_active (Some demo_key) (initial []))).
Proof.
  refine (proj1 (full_channel_loses (set_channel (repeat (demo_key, Begin) 10) (set_active (Some demo_key) (initial []))) demo_key _ _) _ _);
    [reflexivity|vm_compute; lia].
Defined.
