(* ===== verification/LayerShell.v ===== *)
(** The capture backend of Wayland compositors with layer-shell
    (input-capture/src/layer_shell.rs): windows of one pixel along the edges of
    the outputs, grabbed when the pointer enters one of them.

    The objects of the protocol are numbers; what the backend asks of the
    compositor is a log.  The events of the compositor are dispatched one after
    the other, a request of the capture task comes between two of them.  The
    order in which a set of keys is walked is [elements]. *)

From S2P Require Import Prelude InputEvent Geometry InputCapture Doubles Monitors Backend.
Import Wl.
#[local] Open Scope Z_scope.

(** * Data *)

Record Output : Type := mkOutput {
  global_of : N;
  info : option OutputInfo;
  pending_info : OutputInfo;
  has_xdg_info : bool
}.

(** A window: its surface with its layer surface and its buffer, the key, the
    output and the size of the buffer. *)
Record Window : Type := mkWindow { surface : N; wkey : BarrierKey; on_output : N; wsize : Z * Z }.
#[export] Instance Window_eq_dec : EqDecision Window.
Proof. solve_decision. Defined.

Inductive WlRequest : Type :=
| BindOutput (name : N) | ReleaseOutput (name : N)
| CreateWindow (w : Window)
| HideCursor
| SetKeyboardInteractivity (surface : N) (exclusive : bool)
| LockPointer (surface : N) | DestroyLock
| GetRelativePointer | DestroyRelativePointer
| InhibitShortcuts (surface : N) | DestroyInhibitor
| GetPointer | ReleasePointer | GetKeyboard | ReleaseKeyboard
| Attach (surface : N).

Record State : Type := mkState {
  active_positions : gset BarrierKey;
  pointer : bool;
  keyboard : bool;
  pointer_lock : option N;
  rel_pointer : bool;
  shortcut_inhibitor : option N;
  active_windows : list Window;
  focused : option Window;
  can_inhibit : bool;
  pending_events : emitted;
  outputs : list Output;
  scroll_discrete_pending : bool;
  monitors_tx : option (list MonitorInfo);
  next_object : N;
  requests : list WlRequest
}.

Inductive WlEvent : Type :=
| SeatCapabilities (has_pointer has_keyboard : bool)
| PointerEnter (surface : N)
| PointerLeave
| PointerButton (time button state : Z)
| PointerAxis (time axis : Z) (value : double)
| PointerAxisValue120 (axis value120 : Z)
| PointerFrame
| KeyboardKey (time key state : Z)
| KeyboardModifiers (depressed latched locked group : Z)
| RelativeMotion (utime_hi utime_lo : Z) (dx dy : double)
| SurfaceConfigure (layer_surface : N)
| RegistryGlobal (name : N) (interface : string)
| RegistryGlobalRemove (name : N)
| XdgLogicalPosition (output : N) (p : Z * Z)
| XdgLogicalSize (output : N) (p : Z * Z)
| XdgName (output : N) (name : string)
| XdgDescription (output : N) (description : string)
| XdgDone (output : N)
| OutputScale (output : N) (factor : Z)
| OutputDone (output : N)
| OtherEvent.

Definition set_positions (p : gset BarrierKey) (s : State) : State :=
  mkState p (pointer s) (keyboard s) (pointer_lock s) (rel_pointer s) (shortcut_inhibitor s) (active_windows s) (focused s)
    (can_inhibit s) (pending_events s) (outputs s) (scroll_discrete_pending s) (monitors_tx s) (next_object s) (requests s).
Definition set_seat (p k : bool) (s : State) : State :=
  mkState (active_positions s) p k (pointer_lock s) (rel_pointer s) (shortcut_inhibitor s) (active_windows s) (focused s)
    (can_inhibit s) (pending_events s) (outputs s) (scroll_discrete_pending s) (monitors_tx s) (next_object s) (requests s).
Definition set_grab (l : option N) (r : bool) (i : option N) (s : State) : State :=
  mkState (active_positions s) (pointer s) (keyboard s) l r i (active_windows s) (focused s)
    (can_inhibit s) (pending_events s) (outputs s) (scroll_discrete_pending s) (monitors_tx s) (next_object s) (requests s).
Definition set_windows (w : list Window) (s : State) : State :=
  mkState (active_positions s) (pointer s) (keyboard s) (pointer_lock s) (rel_pointer s) (shortcut_inhibitor s) w (focused s)
    (can_inhibit s) (pending_events s) (outputs s) (scroll_discrete_pending s) (monitors_tx s) (next_object s) (requests s).
Definition set_focused (w : option Window) (s : State) : State :=
  mkState (active_positions s) (pointer s) (keyboard s) (pointer_lock s) (rel_pointer s) (shortcut_inhibitor s) (active_windows s) w
    (can_inhibit s) (pending_events s) (outputs s) (scroll_discrete_pending s) (monitors_tx s) (next_object s) (requests s).
Definition set_events (e : emitted) (s : State) : State :=
  mkState (active_positions s) (pointer s) (keyboard s) (pointer_lock s) (rel_pointer s) (shortcut_inhibitor s) (active_windows s) (focused s)
    (can_inhibit s) e (outputs s) (scroll_discrete_pending s) (monitors_tx s) (next_object s) (requests s).
Definition set_outputs (o : list Output) (s : State) : State :=
  mkState (active_positions s) (pointer s) (keyboard s) (pointer_lock s) (rel_pointer s) (shortcut_inhibitor s) (active_windows s) (focused s)
    (can_inhibit s) (pending_events s) o (scroll_discrete_pending s) (monitors_tx s) (next_object s) (requests s).
Definition set_discrete (b : bool) (s : State) : State :=
  mkState (active_positions s) (pointer s) (keyboard s) (pointer_lock s) (rel_pointer s) (shortcut_inhibitor s) (active_windows s) (focused s)
    (can_inhibit s) (pending_events s) (outputs s) b (monitors_tx s) (next_object s) (requests s).
Definition set_monitors (m : option (list MonitorInfo)) (s : State) : State :=
  mkState (active_positions s) (pointer s) (keyboard s) (pointer_lock s) (rel_pointer s) (shortcut_inhibitor s) (active_windows s) (focused s)
    (can_inhibit s) (pending_events s) (outputs s) (scroll_discrete_pending s) m (next_object s) (requests s).
Definition set_next (n : N) (s : State) : State :=
  mkState (active_positions s) (pointer s) (keyboard s) (pointer_lock s) (rel_pointer s) (shortcut_inhibitor s) (active_windows s) (focused s)
    (can_inhibit s) (pending_events s) (outputs s) (scroll_discrete_pending s) (monitors_tx s) n (requests s).
Definition set_requests (r : list WlRequest) (s : State) : State :=
  mkState (active_positions s) (pointer s) (keyboard s) (pointer_lock s) (rel_pointer s) (shortcut_inhibitor s) (active_windows s) (focused s)
    (can_inhibit s) (pending_events s) (outputs s) (scroll_discrete_pending s) (monitors_tx s) (next_object s) r.

Abbreviation M := (ST State Empty_set).
Definition ask (r : WlRequest) : M unit := modify_st (λ s, set_requests (requests s ++ [r]) s).
Definition push (key : BarrierKey) (e : CaptureEvent) : M unit :=
  modify_st (λ s, set_events (pending_events s ++ [(key, e)]) s).
(** [expect] and [unwrap]. *)
Definition expect {A} (o : option A) : M A := match o with Some a => mret a | None => panic end.
(** Arithmetic of 32 bits that panics when it overflows in a build that
    checks. *)
Definition checked_i32 (z : Z) : M Z := if decide (inS 32 z) then mret z else panic.
Definition checked_u32 (z : Z) : M Z := if decide (inU 32 z) then mret z else panic.

(** * Outputs and edges *)

Definition from_output (o : Output) : option LayerShellOutputInfo :=
  i ← info o; Some (mkLs i (global_of o)).
Definition enumerate_monitors (os : list Output) : list MonitorInfo :=
  build_monitor_info_list (omap from_output os).

Definition edge_of (pos : Position) (i : OutputInfo) : M Z :=
  match pos with
  | Edge.Left => mret (fst (oposition i))
  | Edge.Right => checked_i32 (fst (oposition i) + fst (osize i))
  | Edge.Top => mret (snd (oposition i))
  | Edge.Bottom => checked_i32 (snd (oposition i) + snd (osize i))
  end.
Fixpoint get_edges (os : list Output) (pos : Position) : M (list (Output * Z)) :=
  match os with
  | [] => mret []
  | o :: os =>
      match info o with
      | None => get_edges os pos
      | Some i => e ← edge_of pos i; rest ← get_edges os pos; mret ((o, e) :: rest)
      end
  end.
Definition get_output_configuration (pos : Position) : M (list Output) :=
  os ← gets outputs;
  edges ← get_edges os pos;
  opposite ← get_edges os (Edge.opposite pos);
  mret (fst <$> filter (λ e, snd e ∉ (snd <$> opposite)) edges).

(** * Windows *)

(** [Window::new]: a buffer of one pixel by the length of the edge. *)
Definition new_window (output : N) (key : BarrierKey) (size : Z * Z) : M Window :=
  let '(width, height) :=
    match key_pos key with
    | Edge.Left | Edge.Right => (1, wrapU 32 (snd size))
    | Edge.Top | Edge.Bottom => (wrapU 32 (fst size), 1)
    end in
  pixels ← checked_u32 (width * height);
  checked_u32 (pixels * 4) ≫= λ _,
  id ← gets next_object;
  let w := mkWindow id key output (width, height) in
  modify_st (set_next (id + 1)%N) ≫= λ _, ask (CreateWindow w) ≫= λ _, mret w.

Definition record_active_position (p : gset BarrierKey) (key : BarrierKey) : gset BarrierKey := {[key]} ∪ p.

Definition add_window (key : BarrierKey) (o : Output) : M unit :=
  match info o with
  | None => mret tt
  | Some i =>
      w ← new_window (global_of o) key (osize i);
      modify_st (λ s, set_windows (active_windows s ++ [w]) s)
  end.
Definition add_client (key : BarrierKey) : M unit :=
  modify_st (λ s, set_positions (record_active_position (active_positions s) key) s) ≫= λ _,
  os ← get_output_configuration (key_pos key);
  for_each (add_window key) os.

(** The loop removes the windows of the key one by one. *)
Definition delete_client (key : BarrierKey) : M unit :=
  modify_st (λ s, set_positions (active_positions s ∖ {[key]}) s) ≫= λ _,
  modify_st (λ s,
    if decide (Exists (λ w, wkey w = key) (active_windows s))
    then set_focused None (set_windows (filter (λ w, wkey w ≠ key) (active_windows s)) s) else s).

Definition update_windows : M unit :=
  modify_st (set_windows []) ≫= λ _,
  ps ← gets active_positions;
  for_each add_client (elements ps).

Definition publish_monitors : M unit :=
  modify_st (λ s, match monitors_tx s with
                  | Some _ => set_monitors (Some (enumerate_monitors (outputs s))) s
                  | None => s
                  end).

(** [iter_mut().find(|o| o.global.name == name)]: the first one is changed. *)
Fixpoint change_output (name : N) (f : Output → Output) (os : list Output) : option (list Output) :=
  match os with
  | [] => None
  | o :: os =>
      if decide (global_of o = name) then Some (f o :: os)
      else (λ os, o :: os) <$> change_output name f os
  end.
Definition find_output (name : N) (os : list Output) : option Output :=
  find (λ o, bool_decide (global_of o = name)) os.

Definition update_output_info (name : N) : M unit :=
  os ← gets outputs;
  output ← expect (find_output name os);
  if has_xdg_info output then
    os ← expect (change_output name
      (λ o, mkOutput (global_of o) (Some (pending_info o)) (pending_info o) (has_xdg_info o)) os);
    modify_st (set_outputs os) ≫= λ _, update_windows ≫= λ _, publish_monitors
  else mret tt.

Definition register_global (name : N) (interface : string) : M unit :=
  if decide (interface = "wl_output") then
    ask (BindOutput name) ≫= λ _,
    modify_st (λ s, set_outputs (outputs s ++ [mkOutput name None default_info false]) s)
  else mret tt.
Definition deregister_global (name : N) : M unit :=
  s ← get_st;
  for_each (λ o, ask (ReleaseOutput (global_of o))) (filter (λ o, global_of o = name) (outputs s)) ≫= λ _,
  modify_st (set_outputs (filter (λ o, global_of o ≠ name) (outputs s))) ≫= λ _,
  publish_monitors.

(** * Grabbing the pointer *)

Definition grab (surf : N) : M unit :=
  f ← gets focused;
  window ← expect f;
  ask HideCursor ≫= λ _,
  ask (SetKeyboardInteractivity (surface window) true) ≫= λ _,
  s ← get_st;
  when (bool_decide (pointer_lock s = None))
    (ask (LockPointer surf) ≫= λ _, modify_st (λ s, set_grab (Some surf) (rel_pointer s) (shortcut_inhibitor s) s)) ≫= λ _,
  when (negb (rel_pointer s))
    (ask GetRelativePointer ≫= λ _, modify_st (λ s, set_grab (pointer_lock s) true (shortcut_inhibitor s) s)) ≫= λ _,
  when (can_inhibit s && bool_decide (shortcut_inhibitor s = None))
    (ask (InhibitShortcuts surf) ≫= λ _, modify_st (λ s, set_grab (pointer_lock s) (rel_pointer s) (Some surf) s)).

Definition ungrab : M unit :=
  s ← get_st;
  match focused s with
  | None => mret tt
  | Some window =>
      ask (SetKeyboardInteractivity (surface window) false) ≫= λ _,
      when (bool_decide (is_Some (pointer_lock s))) (ask DestroyLock) ≫= λ _,
      when (rel_pointer s) (ask DestroyRelativePointer) ≫= λ _,
      when (bool_decide (is_Some (shortcut_inhibitor s))) (ask DestroyInhibitor) ≫= λ _,
      modify_st (set_grab None false None)
  end.

(** * The dispatch of the events *)

Definition on_output_event (name : N) (f : OutputInfo → OutputInfo) : M unit :=
  os ← gets outputs;
  os ← expect (change_output name
    (λ o, mkOutput (global_of o) (info o) (f (pending_info o)) true) os);
  modify_st (set_outputs os).

Definition with_focus (e : Event) : M unit :=
  f ← gets focused;
  match f with Some w => push (wkey w) (Input e) | None => mret tt end.

Definition dispatch (e : WlEvent) : M unit :=
  match e with
  | SeatCapabilities has_pointer has_keyboard =>
      s ← get_st;
      when has_pointer
        (when (pointer s) (ask ReleasePointer) ≫= λ _, ask GetPointer ≫= λ _,
         modify_st (λ s, set_seat true (keyboard s) s)) ≫= λ _,
      when has_keyboard
        (when (keyboard s) (ask ReleaseKeyboard) ≫= λ _, modify_st (λ s, set_seat (pointer s) false s) ≫= λ _,
         ask GetKeyboard)
  | PointerEnter surf =>
      ws ← gets active_windows;
      match find (λ w, bool_decide (surface w = surf)) ws with
      | None => mret tt
      | Some window =>
          modify_st (set_focused (Some window)) ≫= λ _, grab surf ≫= λ _,
          ws ← gets active_windows;
          w ← expect (find (λ w, bool_decide (surface w = surf)) ws);
          push (wkey w) Begin
      end
  | PointerLeave => ungrab
  | PointerButton time button state =>
      f ← gets focused; window ← expect f;
      push (wkey window) (Input (Pointer (Button time button state)))
  | PointerAxis time axis value =>
      f ← gets focused; window ← expect f;
      d ← gets scroll_discrete_pending;
      if d : bool then modify_st (set_discrete false)
      else push (wkey window) (Input (Pointer (Axis time (wrapU 8 axis) (f64_of value))))
  | PointerAxisValue120 axis value120 =>
      f ← gets focused; window ← expect f;
      modify_st (set_discrete true) ≫= λ _,
      push (wkey window) (Input (Pointer (AxisDiscrete120 (wrapU 8 axis) value120)))
  | PointerFrame => mret tt
  | KeyboardKey time key state => with_focus (Keyboard (Key time key (wrapU 8 state)))
  | KeyboardModifiers depressed latched locked group => with_focus (Keyboard (Modifiers depressed latched locked group))
  | RelativeMotion hi lo dx dy =>
      with_focus (Pointer (Motion (wrapU 32 (Z.lor (Z.shiftl hi 32) lo / 1000)) (f64_of dx) (f64_of dy)))
  | SurfaceConfigure surf =>
      ws ← gets active_windows;
      match find (λ w, bool_decide (surface w = surf)) ws with Some w => ask (Attach (surface w)) | None => mret tt end
  | RegistryGlobal name interface => register_global name interface
  | RegistryGlobalRemove name => deregister_global name
  | XdgLogicalPosition o p => on_output_event o (λ i, mkOutInfo (description i) (oname i) p (osize i) (oscale i))
  | XdgLogicalSize o p => on_output_event o (λ i, mkOutInfo (description i) (oname i) (oposition i) p (oscale i))
  | XdgName o n => on_output_event o (λ i, mkOutInfo (description i) n (oposition i) (osize i) (oscale i))
  | XdgDescription o d => on_output_event o (λ i, mkOutInfo d (oname i) (oposition i) (osize i) (oscale i))
  | XdgDone o =>
      os ← gets outputs; expect (find_output o os) ≫= λ _, update_output_info o
  | OutputScale o factor =>
      modify_st (λ s, set_outputs (default (outputs s) (change_output o
        (λ o, mkOutput (global_of o) (info o)
                (mkOutInfo (description (pending_info o)) (oname (pending_info o)) (oposition (pending_info o))
                   (osize (pending_info o)) factor) (has_xdg_info o)) (outputs s))) s)
  | OutputDone o => update_output_info o
  | OtherEvent => mret tt
  end.

(** * Runs *)

Inductive turn : Type := Dispatch (e : WlEvent) | Create (key : BarrierKey) | Destroy (key : BarrierKey) | ReleaseReq.
Definition turn_of (t : turn) : M unit :=
  match t with
  | Dispatch e => dispatch e
  | Create key => add_client key
  | Destroy key => delete_client key
  | ReleaseReq => ungrab
  end.
Definition run (ts : list turn) : M unit := for_each turn_of ts.

(** [poll_next]: the first event, or the first of what the next batches that
    arrive leave. *)
Fixpoint poll_next (batches : list (list WlEvent)) : M (option (BarrierKey * CaptureEvent) * list (list WlEvent)) :=
  es ← gets pending_events;
  match es with
  | e :: rest => modify_st (set_events rest) ≫= λ _, mret (Some e, batches)
  | [] =>
      match batches with
      | [] => mret (None, [])
      | b :: bs => for_each dispatch b ≫= λ _, poll_next bs
      end
  end.

Definition initial (inhibit : bool) : State :=
  mkState ∅ false false None false None [] None inhibit [] [] false None 0 [].

(** * The outputs at an edge *)

(** What of an output the windows depend on: its name and its information. *)
Definition known (os : list Output) : list (N * OutputInfo) := omap (λ o, (λ i, (global_of o, i)) <$> info o) os.

Definition edge (pos : Position) (i : OutputInfo) : Z :=
  match pos with
  | Edge.Left => fst (oposition i)
  | Edge.Right => fst (oposition i) + fst (osize i)
  | Edge.Top => snd (oposition i)
  | Edge.Bottom => snd (oposition i) + snd (osize i)
  end.
(** Some output begins where this one ends. *)
Definition covered (pos : Position) (l : list (N * OutputInfo)) (i : OutputInfo) : Prop :=
  edge pos i ∈ (λ x, edge (Edge.opposite pos) (snd x)) <$> l.
#[export] Instance covered_dec pos l i : Decision (covered pos l i).
Proof. unfold covered. apply _. Defined.
Definition config (pos : Position) (l : list (N * OutputInfo)) : list (N * OutputInfo) :=
  filter (λ x, ¬ covered pos l (snd x)) l.

(** Coordinates of real screens. *)
Definition sane (i : OutputInfo) : Prop :=
  - 2 ^ 30 < fst (oposition i) < 2 ^ 30 ∧ - 2 ^ 30 < snd (oposition i) < 2 ^ 30 ∧
  0 < fst (osize i) < 2 ^ 30 ∧ 0 < snd (osize i) < 2 ^ 30.
Definition sane_output (o : Output) : Prop := ∀ i, info o = Some i → sane i.

Lemma known_cons o os :
  known (o :: os) = match info o with Some i => (global_of o, i) :: known os | None => known os end.
Proof. unfold known. cbn. by destruct (info o). Qed.

Lemma edge_of_ok pos i s : sane i → edge_of pos i s = (Ok (edge pos i), s).
Proof.
  unfold sane. intros H. destruct pos; cbn; [done| |done|]; unfold checked_i32; rewrite decide_True; try done;
    unfold inS; lia.
Qed.
Lemma get_edges_ok os pos s :
  Forall sane_output os → ∃ es, get_edges os pos s = (Ok es, s) ∧
    Forall (λ e, ∃ i, info e.1 = Some i) es ∧
    (λ e, (global_of e.1, info e.1, e.2)) <$> es = (λ x, (x.1, Some x.2, edge pos x.2)) <$> known os.
Proof.
  induction 1 as [|o os Ho _ IH]; [by exists []|]. destruct IH as (es & E & Hf & Hes).
  cbn [get_edges]. rewrite known_cons. destruct (info o) as [i|] eqn:Ei; [|by exists es].
  exists ((o, edge pos i) :: es). unfold mbind, ST_bind. rewrite edge_of_ok by (by apply Ho). rewrite E.
  split; [done|]. split; [constructor; [by exists i|done]|]. cbn. rewrite Ei, Hes. done.
Qed.

Lemma filter_same {A B C} (f : A → C) (g : B → C) (P : A → Prop) (Q : B → Prop)
    `{∀ x, Decision (P x)} `{∀ x, Decision (Q x)} (la : list A) (lb : list B) :
  f <$> la = g <$> lb → (∀ a b, f a = g b → P a ↔ Q b) → f <$> filter P la = g <$> filter Q lb.
Proof.
  intros E HPQ. revert lb E. induction la as [|a la IH]; intros [|b lb] E; try done. cbn in E. injection E as E1 E2.
  rewrite !filter_cons. specialize (HPQ a b E1) as Hab.
  destruct (decide (P a)), (decide (Q b)); try tauto; cbn; [f_equal; auto|auto].
Qed.

Lemma configuration_ok pos s :
  Forall sane_output (outputs s) →
  ∃ os, get_output_configuration pos s = (Ok os, s) ∧
    (λ o, (global_of o, info o)) <$> os = (λ x, (x.1, Some x.2)) <$> config pos (known (outputs s)).
Proof.
  intros Hs. unfold get_output_configuration, mbind, ST_bind, gets.
  destruct (get_edges_ok (outputs s) pos s Hs) as (es & E & _ & Hes). rewrite E.
  destruct (get_edges_ok (outputs s) (Edge.opposite pos) s Hs) as (op & E' & _ & Hop). rewrite E'.
  eexists. split; [done|]. rewrite <- list_fmap_compose. unfold compose.
  assert ((λ e : Output * Z, e.2) <$> op = (λ x, edge (Edge.opposite pos) x.2) <$> known (outputs s)) as Hopp.
  { apply (f_equal (fmap (λ t, t.2))) in Hop. rewrite <- !list_fmap_compose in Hop. exact Hop. }
  pose proof (filter_same (λ e : Output * Z, (global_of e.1, info e.1, e.2)) (λ x, (x.1, Some x.2, edge pos x.2))
    (λ e, snd e ∉ (snd <$> op)) (λ x, ¬ covered pos (known (outputs s)) x.2) es (known (outputs s)) Hes) as H.
  apply (f_equal (fmap fst)) in H.
  - rewrite <- !list_fmap_compose in H. exact H.
  - intros [o e] [g i] [= _ _ ->]. cbn. unfold covered. by rewrite <- Hopp.
Qed.

(** How far out an edge lies. *)
Definition outward (pos : Position) (z : Z) : Z :=
  match pos with Edge.Left | Edge.Top => - z | Edge.Right | Edge.Bottom => z end.

Lemma inner_edge pos i : sane i → outward pos (edge (Edge.opposite pos) i) < outward pos (edge pos i).
Proof. unfold sane. destruct pos; cbn; lia. Qed.

(** The extreme edge is an edge of the desktop. *)
Lemma extreme_in_config pos l x :
  Forall (λ y, sane (snd y)) l → x ∈ l → (∀ y, y ∈ l → outward pos (edge pos (snd y)) ≤ outward pos (edge pos (snd x))) →
  x ∈ config pos l.
Proof.
  intros Hs Hx Hmax. apply list_elem_of_filter. split; [|done]. unfold covered.
  intros (y & E & Hy)%list_elem_of_fmap. rewrite Forall_forall in Hs.
  pose proof (inner_edge pos (snd y) (Hs y Hy)). specialize (Hmax y Hy). rewrite E in *. lia.
Qed.
Lemma extreme_exists pos (l : list (N * OutputInfo)) :
  l ≠ [] → ∃ x, x ∈ l ∧ ∀ y, y ∈ l → outward pos (edge pos (snd y)) ≤ outward pos (edge pos (snd x)).
Proof.
  induction l as [|a [|b l] IH]; [done|..]; intros _.
  - exists a. split; [by left|]. intros y Hy. apply list_elem_of_singleton in Hy as ->. done.
  - destruct (IH ltac:(done)) as (x & Hx & Hm).
    destruct (Z.le_gt_cases (outward pos (edge pos (snd x))) (outward pos (edge pos (snd a)))).
    + exists a. split; [by left|]. intros y [->|Hy]%elem_of_cons; [lia|]. specialize (Hm y Hy). lia.
    + exists x. split; [by right|]. intros y [->|Hy]%elem_of_cons; [lia|]. by apply Hm.
Qed.

(** The outputs that get a window for a side: those that are known and end
    there without another one beginning where they end; the output that reaches
    farthest to that side is always one of them, so no side of the desktop is
    without a barrier. *)
Theorem configuration_spec pos s :
  Forall sane_output (outputs s) →
  ∃ os, get_output_configuration pos s = (Ok os, s) ∧
    (λ o, (global_of o, info o)) <$> os = (λ x, (x.1, Some x.2)) <$> config pos (known (outputs s)) ∧
    (known (outputs s) ≠ [] → ∃ o i, o ∈ os ∧ info o = Some i ∧
       ∀ x, x ∈ known (outputs s) → outward pos (edge pos (snd x)) ≤ outward pos (edge pos i)).
Proof.
  intros Hs. destruct (configuration_ok pos s Hs) as (os & E & Hos). exists os. split; [done|]. split; [done|].
  intros Hne. destruct (extreme_exists pos _ Hne) as (x & Hx & Hm).
  assert (Forall (λ y, sane (snd y)) (known (outputs s))) as Hk.
  { clear -Hs. induction Hs as [|o os Ho _ IH]; [constructor|]. rewrite known_cons. destruct (info o) eqn:Ei; [|done].
    constructor; [by apply Ho|done]. }
  pose proof (extreme_in_config pos _ x Hk Hx Hm) as Hc.
  assert ((x.1, Some x.2) ∈ (λ o, (global_of o, info o)) <$> os) as (o & [= Eg Ei] & Ho)%list_elem_of_fmap.
  { rewrite Hos. by apply (list_elem_of_fmap_2 (λ x : N * OutputInfo, (x.1, Some x.2))). }
  exists o, x.2. done.
Qed.
(** Two screens side by side, the right one lower. *)
Definition screen (x y w h : Z) : OutputInfo := mkOutInfo "" "" (x, y) (w, h) 1.
Definition two_outputs : list Output :=
  [mkOutput 7 (Some (screen 0 0 1920 1080)) (screen 0 0 1920 1080) true;
   mkOutput 8 (Some (screen 1920 300 1280 1024)) (screen 1920 300 1280 1024) true].
Lemma configuration_spec_witness :
  ∃ os, get_output_configuration Edge.Left (set_outputs two_outputs (initial false)) =
          (Ok os, set_outputs two_outputs (initial false)) ∧ global_of <$> os = [7%N].
Proof.
  destruct (configuration_spec Edge.Left (set_outputs two_outputs (initial false))) as (os & E & H & _).
  - cbn. apply Forall_cons_2; [|apply Forall_cons_2; [|apply Forall_nil_2]]; intros i Hi; injection Hi as <-; unfold sane; cbn; lia.
  - exists os. split; [done|]. apply (f_equal (fmap fst)) in H. rewrite <- !list_fmap_compose in H. exact H.
Defined.

(** * The windows in step with the outputs *)

Definition shape (w : Window) : BarrierKey * N := (wkey w, on_output w).
Definition at_edge (l : list (N * OutputInfo)) (key : BarrierKey) : list (BarrierKey * N) :=
  (λ x, (key, x.1)) <$> config (key_pos key) l.
Definition expected (ps : gset BarrierKey) (l : list (N * OutputInfo)) : list (BarrierKey * N) :=
  elements ps ≫= at_edge l.
(** One window for every key and every output that ends the desktop on its
    side. *)
Definition in_step (s : State) : Prop :=
  shape <$> active_windows s ≡ₚ expected (active_positions s) (known (outputs s)).

Definition distinct (s : State) : Prop :=
  NoDup (surface <$> active_windows s) ∧ Forall (λ w, surface w < next_object s)%N (active_windows s).

(** What adding windows leaves alone. *)
Record frame (s s' : State) : Prop := {
  fr_outputs : outputs s' = outputs s;
  fr_focused : focused s' = focused s;
  fr_events : pending_events s' = pending_events s;
  fr_lock : pointer_lock s' = pointer_lock s;
  fr_next : (next_object s ≤ next_object s')%N
}.
Lemma frame_refl s : frame s s.
Proof. by split. Qed.
Lemma frame_trans s s' s'' : frame s s' → frame s' s'' → frame s s''.
Proof. intros [] []. split; [congruence..|lia]. Qed.

Lemma distinct_grow s s' w :
  distinct s → active_windows s' = active_windows s ++ [w] → surface w = next_object s → next_object s' = (next_object s + 1)%N →
  distinct s'.
Proof.
  intros [H1 H2] Hws Hw Hn. unfold distinct. rewrite Hws. split.
  - rewrite fmap_app. apply NoDup_app. split_and!; [done| |apply NoDup_singleton].
    intros x (w' & -> & Hw')%list_elem_of_fmap [Hx|[]%elem_of_nil]%elem_of_cons.
    rewrite Forall_forall in H2. specialize (H2 w' Hw'). lia.
  - rewrite Hn. apply Forall_app. split; [|repeat constructor; lia]. eapply Forall_impl; [exact H2|]. cbn. lia.
Qed.

Lemma wrap_size z : 0 < z < 2 ^ 30 → wrapU 32 z = z ∧ inU 32 (z * 4) ∧ inU 32 z.
Proof. intros. unfold wrapU, inU. split; [apply Z.mod_small|]; lia. Qed.
Lemma new_window_ok output key size s :
  0 < fst size < 2 ^ 30 → 0 < snd size < 2 ^ 30 →
  ∃ sz, new_window output key size s =
    (Ok (mkWindow (next_object s) key output sz),
     set_requests (requests s ++ [CreateWindow (mkWindow (next_object s) key output sz)]) (set_next (next_object s + 1)%N s)).
Proof.
  intros H1 H2. destruct (wrap_size _ H1) as (E1 & F1 & G1), (wrap_size _ H2) as (E2 & F2 & G2).
  unfold new_window, checked_u32. destruct (key_pos key); rewrite ?E1, ?E2, ?Z.mul_1_l, ?Z.mul_1_r;
    (unfold mbind, ST_bind; rewrite decide_True by done; unfold mret, ST_ret; cbn beta iota;
     rewrite decide_True by done; eexists; reflexivity).
Qed.

Lemma add_window_ok key o s i :
  info o = Some i → sane i → distinct s →
  wp (add_window key o) (λ _ s', frame s s' ∧ distinct s' ∧ active_positions s' = active_positions s ∧
    shape <$> active_windows s' = (shape <$> active_windows s) ++ [(key, global_of o)]) s.
Proof.
  intros Hi (_ & _ & H1 & H2) Hd. unfold add_window. rewrite Hi. wp.
  destruct (new_window_ok (global_of o) key (osize i) s H1 H2) as [sz E]. unfold wp at 1. rewrite E. wp.
  split_and!; [split; cbn; try done; lia|by eapply distinct_grow|done|]. cbn. by rewrite fmap_app.
Qed.
Lemma add_windows_ok key os s :
  Forall (λ o, ∃ i, info o = Some i ∧ sane i) os → distinct s →
  wp (for_each (add_window key) os) (λ _ s', frame s s' ∧ distinct s' ∧ active_positions s' = active_positions s ∧
    shape <$> active_windows s' = (shape <$> active_windows s) ++ ((λ o, (key, global_of o)) <$> os)) s.
Proof.
  intros Hos. revert s. induction Hos as [|o os (i & Hi & Hs) _ IH]; intros s Hd; cbn [for_each].
  - wp. split_and!; [apply frame_refl|done|done|by rewrite app_nil_r].
  - wp. eapply wp_mono; [by eapply add_window_ok|]. intros _ s1 (Hf & Hd1 & Hp & Hw).
    eapply wp_mono; [by apply IH|]. intros _ s2 (Hf2 & Hd2 & Hp2 & Hw2).
    split_and!; [by eapply frame_trans|done|congruence|]. by rewrite Hw2, Hw, <- app_assoc.
Qed.

Lemma add_client_ok key s :
  Forall sane_output (outputs s) → distinct s →
  wp (add_client key) (λ _ s', frame s s' ∧ distinct s' ∧ active_positions s' = {[key]} ∪ active_positions s ∧
    shape <$> active_windows s' = (shape <$> active_windows s) ++ at_edge (known (outputs s)) key) s.
Proof.
  intros Hs Hd. unfold add_client. wp. set (s1 := set_positions _ s).
  destruct (configuration_ok (key_pos key) s1 Hs) as (os & E & Hos). unfold wp at 1. rewrite E.
  eapply wp_mono; [apply add_windows_ok|].
  - apply Forall_forall. intros o Ho. assert (o ∈ outputs s → ∀ i, info o = Some i → sane i) as Hsane.
    { rewrite Forall_forall in Hs. intros Ho'. by apply Hs. }
    assert ((global_of o, info o) ∈ (λ x, (x.1, Some x.2)) <$> config (key_pos key) (known (outputs s1))) as Hx.
    { rewrite <- Hos. by apply (list_elem_of_fmap_2 (λ o, (global_of o, info o))). }
    apply list_elem_of_fmap in Hx as (x & [= _ Hi] & Hx). exists x.2. split; [done|].
    apply list_elem_of_filter in Hx as [_ Hx]. unfold known in Hx. apply list_elem_of_omap in Hx as (o' & Ho' & Hx).
    rewrite Forall_forall in Hs. destruct (info o') as [i'|] eqn:Ei'; [|done]. injection Hx as <-. by apply (Hs o').
  - exact Hd.
  - intros _ s' (Hf & Hd' & Hp & Hw). split_and!; [by destruct Hf|done|done|]. rewrite Hw. f_equal. unfold at_edge.
    apply (f_equal (fmap (λ x, (key, x.1)))) in Hos. rewrite <- !list_fmap_compose in Hos. exact Hos.
Qed.

Lemma union_idemp_elem (key : BarrierKey) (ps : gset BarrierKey) : key ∈ ps → {[key]} ∪ ps = ps.
Proof. set_solver. Qed.

Lemma update_windows_ok s :
  Forall sane_output (outputs s) →
  wp update_windows (λ _ s', frame s s' ∧ distinct s' ∧ active_positions s' = active_positions s ∧ in_step s') s.
Proof.
  intros Hs. unfold update_windows. wp. set (ps := active_positions s). set (s0 := set_windows [] s).
  set (I := λ (rest : list BarrierKey) s', ∃ before, elements ps = before ++ rest ∧ frame s0 s' ∧ distinct s' ∧
    active_positions s' = ps ∧ shape <$> active_windows s' = before ≫= at_edge (known (outputs s))).
  eapply wp_mono; [apply (wp_for_each _ I)|].
  - intros key rest s1 (before & Eb & Hf & Hd & Hp & Hw). assert (outputs s1 = outputs s) as Eo by (by destruct Hf).
    eapply wp_mono; [apply add_client_ok; [by rewrite Eo|done]|]. intros _ s2 (Hf2 & Hd2 & Hp2 & Hw2).
    exists (before ++ [key]). split_and!; [by rewrite <- app_assoc|by eapply frame_trans|done|..].
    + rewrite Hp2, Hp. apply union_idemp_elem. rewrite <- elem_of_elements, Eb. set_solver.
    + rewrite Hw2, Hw, Eo, bind_app. cbn. by rewrite app_nil_r.
  - exists []. split_and!; [done|apply frame_refl| |done|done]. split; [constructor|constructor].
  - intros _ s' (before & Eb & Hf & Hd & Hp & Hw). rewrite app_nil_r in Eb. subst before.
    split_and!; [by destruct Hf; split|done|done|]. unfold in_step, expected. by rewrite Hw, Hp, (fr_outputs _ _ Hf).
Qed.

(** Changing one output. *)
Lemma change_known name f os os' :
  change_output name f os = Some os' → (∀ o, global_of (f o) = global_of o ∧ info (f o) = info o) →
  known os' = known os.
Proof.
  intros E Hf. revert os' E. induction os as [|o os IH]; cbn [change_output]; intros os' E; [done|]. case_decide.
  - injection E as <-. rewrite !known_cons. destruct (Hf o) as [-> ->]. done.
  - destruct (change_output name f os) as [os2|] eqn:E2; [|done]. injection E as <-. rewrite !known_cons.
    by rewrite (IH _ eq_refl).
Qed.
Lemma change_sane name f os os' :
  change_output name f os = Some os' → Forall sane_output os →
  (∀ o, find_output name os = Some o → sane_output (f o)) → Forall sane_output os'.
Proof.
  intros E Hs. revert os' E. unfold find_output. induction Hs as [|o os Ho Hs IH]; cbn [change_output list_find find]; intros os' E Hf; [done|].
  case_decide as Hn.
  - injection E as <-. constructor; [|done]. apply Hf. by rewrite bool_decide_true.
  - destruct (change_output name f os) as [os2|] eqn:E2; [|done]. injection E as <-. constructor; [done|].
    apply IH; [done|]. intros o' Ho'. apply Hf. by rewrite bool_decide_false.
Qed.
Lemma change_found name f os : is_Some (find_output name os) ↔ is_Some (change_output name f os).
Proof.
  unfold find_output. induction os as [|o os IH]; cbn; [by split; intros []|]. case_decide as Hn.
  - rewrite bool_decide_true by done. by split; eexists.
  - rewrite bool_decide_false by done. rewrite IH. by destruct (change_output name f os); split; intros [].
Qed.

(** * The invariant *)

Lemma sane_known os : Forall sane_output os ↔ Forall (λ x, sane (snd x)) (known os).
Proof.
  induction os as [|o os IH]; [done|]. rewrite known_cons, Forall_cons, IH. unfold sane_output.
  destruct (info o) as [i|] eqn:Ei.
  - rewrite Forall_cons. cbn. naive_solver.
  - naive_solver.
Qed.

Record good (s : State) : Prop := {
  g_sane : Forall (λ x, sane (snd x)) (known (outputs s));
  g_distinct : distinct s;
  g_keys : Forall (λ w, wkey w ∈ active_positions s) (active_windows s);
  g_focus : ∀ w, focused s = Some w → begun (pending_events s) = Some (wkey w);
  g_follows : follows_begin (pending_events s)
}.
Lemma initial_good b : good (initial b).
Proof. split; cbn; [constructor|split; constructor|constructor|done|apply follows_nil]. Qed.

(** Nothing changes but what is pushed for the focused window. *)
Record quiet (s s' : State) : Prop := {
  q_windows : active_windows s' = active_windows s;
  q_positions : active_positions s' = active_positions s;
  q_next : next_object s' = next_object s;
  q_known : known (outputs s') = known (outputs s);
  q_focused : focused s' = focused s;
  q_events : pending_events s' = pending_events s ∨
    ∃ w i, focused s = Some w ∧ pending_events s' = pending_events s ++ [(wkey w, Input i)]
}.
Lemma quiet_good s s' : quiet s s' → good s → good s' ∧ (in_step s → in_step s').
Proof.
  intros [E1 E2 E3 E4 E5 E6] [H1 H2 H3 H4 H5]. split.
  - split; rewrite ?E4, ?E1, ?E2, ?E5; try done.
    + unfold distinct. by rewrite E1, E3.
    + intros w Hw. destruct E6 as [->|(w' & i & _ & ->)]; [by apply H4|]. rewrite begun_snoc. by apply H4.
    + destruct E6 as [->|(w' & i & Hw & ->)]; [done|]. apply follows_snoc; [done|].
      intros k j [= <- _]. by apply H4.
  - unfold in_step. by rewrite E1, E2, E4.
Qed.
Lemma quiet_refl s : quiet s s.
Proof. split; auto. Qed.

#[local] Ltac compute_call :=
  unfold with_focus, push, ask, expect, mbind, ST_bind, gets, modify_st, get_st, when, mret, ST_ret, panic in *;
  cbn in *; repeat (case_match; cbn in *); simplify_eq; try done.

Lemma grab_quiet surf s s' : grab surf s = (Ok tt, s') → quiet s s' ∧ pending_events s' = pending_events s.
Proof. unfold grab. intros E. compute_call; (split; [split; cbn; auto|done]). Qed.
Lemma ungrab_quiet s s' : ungrab s = (Ok tt, s') → quiet s s'.
Proof. unfold ungrab. intros E. compute_call; try (split; cbn; auto). Qed.

Lemma find_surface surf (ws : list Window) w :
  find (λ w, bool_decide (surface w = surf)) ws = Some w → w ∈ ws ∧ surface w = surf.
Proof.
  intros (i & Hi & Hs & _)%find_Some. apply bool_decide_eq_true in Hs.
  split; [by eapply list_elem_of_lookup_2|done].
Qed.

(** Who enters what: the pointer on a window of the backend. *)
Lemma enter_spec surf s s' :
  dispatch (PointerEnter surf) s = (Ok tt, s') →
  quiet s s' ∨ ∃ w, w ∈ active_windows s ∧ surface w = surf ∧ focused s' = Some w ∧
    pending_events s' = pending_events s ++ [(wkey w, Begin)] ∧
    active_windows s' = active_windows s ∧ active_positions s' = active_positions s ∧ next_object s' = next_object s ∧
    outputs s' = outputs s.
Proof.
  cbn [dispatch]. unfold mbind at 1, ST_bind at 1, gets at 1. cbn beta iota.
  destruct (find _ (active_windows s)) as [w|] eqn:Ef; [|intros [= <-]; left; apply quiet_refl].
  destruct (find_surface _ _ _ Ef) as [Hw Hsurf]. intros E. right. exists w. split; [done|]. split; [done|].
  unfold modify_st at 1, mbind at 1, ST_bind at 1 in E. cbn beta iota in E. set (s1 := set_focused (Some w) s) in *.
  unfold mbind at 1, ST_bind at 1 in E. destruct (grab surf s1) as [[[]| | |] s2] eqn:Eg; try done.
  destruct (grab_quiet _ _ _ Eg) as [[Q1 Q2 Q3 Q4 Q5 _] Q6].
  unfold mbind, ST_bind, gets in E. rewrite Q1 in E. cbn [active_windows s1 set_focused] in E. rewrite Ef in E.
  unfold expect, mret, ST_ret, push, modify_st in E. injection E as <-. cbn. rewrite Q1, Q2, Q3, Q5, Q6. split_and!; try done.
  unfold grab in Eg. clear -Eg. compute_call.
Qed.

Lemma publish_spec s : ∃ s', publish_monitors s = (Ok tt, s') ∧ quiet s s' ∧ in_step s' = in_step s.
Proof.
  unfold publish_monitors, modify_st. destruct (monitors_tx s); eexists; (split; [reflexivity|]).
  - split; [split; cbn; auto|done].
  - split; [apply quiet_refl|done].
Qed.

(** Updating an output puts the windows in step, whatever they were. *)
Lemma rewindow s0 s :
  frame s0 s → distinct s → active_positions s = active_positions s0 → in_step s → good s0 → good s.
Proof.
  intros [E1 E2 E3 E4 E5] Hd Hp Hi [H1 H2 H3 H4 H5]. split; rewrite ?E1, ?E2, ?E3; try done.
  apply Forall_forall. intros w Hw.
  assert (shape w ∈ expected (active_positions s) (known (outputs s))) as He.
  { unfold in_step in Hi. rewrite <- Hi. by apply list_elem_of_fmap_2. }
  unfold expected in He. apply list_elem_of_bind in He as (k & Hs & Hk). apply list_elem_of_fmap in Hs as (x & [= -> _] & _).
  by apply elem_of_elements.
Qed.
Definition complete (name : N) (s : State) : Prop :=
  ∀ x, find_output name (outputs s) = Some x → has_xdg_info x = true → sane (pending_info x).
Lemma update_output_spec name s x :
  complete name s → good s → find_output name (outputs s) = Some x →
  ∃ s', update_output_info name s = (Ok tt, s') ∧ good s' ∧ (in_step s → in_step s') ∧ (has_xdg_info x = true → in_step s').
Proof.
  intros Hc Hg Hx. unfold update_output_info, mbind, ST_bind, gets. rewrite Hx. cbn [expect]. unfold mret, ST_ret.
  destruct (has_xdg_info x) eqn:Ex; [|by exists s].
  set (f := λ o, mkOutput (global_of o) (Some (pending_info o)) (pending_info o) (has_xdg_info o)).
  destruct (proj1 (change_found name f (outputs s))) as [os' Eos]; [by rewrite Hx|]. rewrite Eos. cbn [expect].
  unfold mret, ST_ret, modify_st. set (s1 := set_outputs os' s).
  assert (Forall sane_output os') as Hs.
  { eapply change_sane; [exact Eos|by apply sane_known, Hg|]. intros o Ho i [= <-]. rewrite Hx in Ho. injection Ho as <-. by apply Hc. }
  pose proof (update_windows_ok s1 Hs) as Hu. apply wp_Ok in Hu as ([] & s2 & E2 & Hf & Hd & Hp & Hi). rewrite E2.
  destruct (publish_spec s2) as (s3 & -> & Hq & Ein). exists s3. split; [done|].
  assert (good s2) as Hg2.
  { eapply (rewindow s1); [done..|]. destruct Hg as [H1 H2 H3 H4 H5]. split; try done. by apply sane_known. }
  destruct (quiet_good _ _ Hq Hg2) as [Hg3 Hi3]. auto.
Qed.

Lemma add_client_good key s :
  good s → ∃ s', add_client key s = (Ok tt, s') ∧ good s' ∧ (key ∉ active_positions s → in_step s → in_step s').
Proof.
  intros Hg. pose proof (add_client_ok key s) as Ha. rewrite sane_known in Ha. specialize (Ha (g_sane s Hg) (g_distinct s Hg)).
  apply wp_Ok in Ha as ([] & s' & E & Hf & Hd & Hp & Hw). exists s'. split; [done|].
  destruct Hf as [E1 E2 E3 E4 E5], Hg as [H1 H2 H3 H4 H5]. split.
  - split; rewrite ?E1, ?E2, ?E3; try done. rewrite Hp. apply Forall_forall. intros w Hin.
    assert (shape w ∈ (shape <$> active_windows s) ++ at_edge (known (outputs s)) key) as Hs.
    { rewrite <- Hw. by apply list_elem_of_fmap_2. }
    apply elem_of_app in Hs as [(w' & Es & Hw')%list_elem_of_fmap|(x & Es & _)%list_elem_of_fmap].
    + rewrite Forall_forall in H3. specialize (H3 w' Hw'). unfold shape in Es. injection Es as -> _. set_solver.
    + unfold shape in Es. injection Es as -> _. set_solver.
  - intros Hn Hi. unfold in_step, expected in *. rewrite Hw, E1, Hp, Hi.
    rewrite elements_union_singleton by done. cbn. by rewrite (Permutation_app_comm (at_edge _ _)).
Qed.

Lemma filter_shape (key : BarrierKey) (ws : list Window) :
  shape <$> filter (λ w, wkey w ≠ key) ws = filter (λ x, fst x ≠ key) (shape <$> ws).
Proof. induction ws as [|w ws IH]; [done|]. rewrite fmap_cons, !filter_cons. cbn. case_decide; cbn; by rewrite IH. Qed.
Lemma filter_at_edge (key k : BarrierKey) l :
  filter (λ x, fst x ≠ key) (at_edge l k) = if decide (k = key) then [] else at_edge l k.
Proof.
  unfold at_edge. induction (config (key_pos k) l) as [|x xs IH]; [by case_decide|].
  rewrite fmap_cons, filter_cons, IH. cbn. repeat case_decide; naive_solver.
Qed.
Lemma filter_expected (key : BarrierKey) (ks : list BarrierKey) l :
  filter (λ x, fst x ≠ key) (ks ≫= at_edge l) = filter (λ k, k ≠ key) ks ≫= at_edge l.
Proof.
  induction ks as [|k ks IH]; [done|]. rewrite bind_cons, filter_app, IH, filter_at_edge, filter_cons.
  repeat case_decide; naive_solver.
Qed.
Lemma elements_difference (key : BarrierKey) (ps : gset BarrierKey) :
  elements (ps ∖ {[key]}) ≡ₚ filter (λ k, k ≠ key) (elements ps).
Proof.
  apply NoDup_Permutation; [apply NoDup_elements|apply NoDup_filter, NoDup_elements|].
  intros k. rewrite list_elem_of_filter, !elem_of_elements. set_solver.
Qed.

Lemma Forall_filtered {A} (P Q : A → Prop) `{∀ x, Decision (Q x)} (l : list A) : Forall P l → Forall P (filter Q l).
Proof. rewrite !Forall_forall. intros Hl x [_ Hx]%list_elem_of_filter. by apply Hl. Qed.
Lemma filter_all (key : BarrierKey) (ws : list Window) :
  (∀ w, w ∈ ws → wkey w ≠ key) → filter (λ w, wkey w ≠ key) ws = ws.
Proof.
  induction ws as [|w ws IH]; [done|]. intros H. rewrite filter_cons, decide_True by (apply H; by left).
  f_equal. apply IH. intros. apply H. by right.
Qed.

Lemma delete_client_good key s :
  good s → ∃ s', delete_client key s = (Ok tt, s') ∧ good s' ∧ (in_step s → in_step s').
Proof.
  intros [H1 H2 H3 H4 H5]. unfold delete_client, mbind, ST_bind, modify_st. eexists. split; [reflexivity|].
  set (s1 := set_positions _ s). assert (∀ ws, shape <$> ws = shape <$> filter (λ w, wkey w ≠ key) (active_windows s) →
    in_step s → in_step (set_windows ws s1)) as Hstep.
  { unfold in_step. cbn. intros ws -> Hi. rewrite filter_shape, Hi. unfold expected. rewrite filter_expected.
    by rewrite elements_difference. }
  rewrite Forall_forall in H3. case_decide as Hx.
  - split; [|by intros; apply (Hstep _ eq_refl)]. split; cbn; try done.
    + destruct H2 as [Hn Hl]. split; cbn.
      * eapply sublist_NoDup; [exact Hn|]. apply fmap_sublist, sublist_filter.
      * by apply Forall_filtered.
    + apply Forall_forall. intros w [Hw Hin]%list_elem_of_filter. specialize (H3 w Hin). set_solver.
  - assert (∀ w, w ∈ active_windows s → wkey w ≠ key) as Hne.
    { intros w Hw E. apply Hx, Exists_exists. by exists w. }
    split.
    + split; cbn; try done. apply Forall_forall. intros w Hin. specialize (H3 w Hin). specialize (Hne w Hin). set_solver.
    + intros Hi. apply (Hstep (active_windows s)); [|done]. f_equal. symmetry. by apply filter_all.
Qed.

Lemma deregister_good name s : good s → ∃ s', deregister_global name s = (Ok tt, s') ∧ good s'.
Proof.
  intros Hg. unfold deregister_global.
  assert (∀ l s0, ∃ r, for_each (λ o, ask (ReleaseOutput (global_of o))) l s0 = (Ok tt, set_requests r s0)) as Hr.
  { induction l as [|o l IH]; intros s0; [exists (requests s0); by destruct s0|].
    destruct (IH (set_requests (requests s0 ++ [ReleaseOutput (global_of o)]) s0)) as [r Er]. exists r. exact Er. }
  unfold mbind at 1, ST_bind at 1, get_st at 1. cbn beta iota. unfold mbind at 1, ST_bind at 1.
  edestruct Hr as [r ->]. unfold mbind, ST_bind, modify_st.
  set (s1 := set_outputs _ _). destruct (publish_spec s1) as (s2 & -> & Hq & _). exists s2. split; [done|].
  eapply quiet_good; [exact Hq|]. destruct Hg as [H1 H2 H3 H4 H5]. split; try done.
  apply sane_known. apply sane_known in H1. by apply Forall_filtered.
Qed.

(** What a turn may be: the sizes are those of real screens; a barrier is
    created once. *)
Definition allowed (t : turn) (s : State) : Prop :=
  match t with
  | Dispatch (OutputDone name) | Dispatch (XdgDone name) => complete name s
  | Create key => key ∉ active_positions s
  | _ => True
  end.
Definition removes (t : turn) : bool := match t with Dispatch (RegistryGlobalRemove _) => true | _ => false end.

Lemma on_output_quiet name f s s' : on_output_event name f s = (Ok tt, s') → quiet s s'.
Proof.
  unfold on_output_event, mbind, ST_bind, gets, expect. set (g := λ o : Output, _).
  destruct (change_output name g (outputs s)) as [os|] eqn:E; [|done]. unfold mret, ST_ret, modify_st. intros [= <-].
  split; cbn; auto. by eapply change_known.
Qed.

Lemma dispatch_quiet e s s' :
  match e with PointerEnter _ | OutputDone _ | XdgDone _ | RegistryGlobalRemove _ => False | _ => True end →
  dispatch e s = (Ok tt, s') → quiet s s'.
Proof.
  intros He E. destruct e; try done; cbn [dispatch] in E; try (by apply ungrab_quiet in E); try (by apply on_output_quiet in E);
    try (unfold register_global in E; compute_call; split; cbn; eauto 10; done).
  - unfold register_global in E. case_decide; [|injection E as <-; apply quiet_refl].
    injection E as <-. split; cbn; auto. unfold known. by rewrite omap_app, app_nil_r.
  - injection E as <-. split; cbn; auto. destruct (change_output _ _ (outputs s)) as [os|] eqn:Eo; [|done].
    by eapply change_known.
Qed.

(** Every turn that does not panic keeps the invariant, and all but the removal
    of an output keep the windows in step. *)
Lemma turn_good t s s' :
  allowed t s → good s → turn_of t s = (Ok tt, s') →
  good s' ∧ (removes t = false → in_step s → in_step s').
Proof.
  intros Ha Hg E. destruct t as [e|key|key|]; cbn [turn_of allowed removes] in *.
  - destruct e; try (apply dispatch_quiet in E; [|done]; destruct (quiet_good _ _ E Hg); by auto).
    + destruct (enter_spec _ _ _ E) as [Hq|(w & Hw & _ & Hf & He & Hws & Hps & Hn & Ho)].
      { destruct (quiet_good _ _ Hq Hg). auto. }
      destruct Hg as [H1 H2 H3 H4 H5]. split.
      * split; rewrite ?Ho, ?Hws, ?Hps; try done.
        -- unfold distinct. by rewrite Hws, Hn.
        -- rewrite Hf, He. intros w' [= <-]. by rewrite begun_snoc.
        -- rewrite He. apply follows_snoc; [done|]. by intros k i [=].
      * unfold in_step. by rewrite Hws, Hps, Ho.
    + cbn [dispatch] in E. destruct (deregister_good name s Hg) as (s2 & E2 & Hg2). rewrite E in E2. by injection E2 as ->.
    + cbn [dispatch] in E. unfold mbind, ST_bind, gets, expect in E. destruct (find_output output (outputs s)) as [x|] eqn:Ex; [|done].
      destruct (update_output_spec output s x Ha Hg Ex) as (s2 & E2 & Hg2 & Hi & _). unfold mret, ST_ret in E.
      rewrite E in E2. injection E2 as ->. auto.
    + cbn [dispatch] in E. destruct (find_output output (outputs s)) as [x|] eqn:Ex.
      * destruct (update_output_spec output s x Ha Hg Ex) as (s2 & E2 & Hg2 & Hi & _).
        rewrite E in E2. injection E2 as ->. auto.
      * unfold update_output_info, mbind, ST_bind, gets, expect in E. by rewrite Ex in E.
  - destruct (add_client_good key s Hg) as (s2 & E2 & Hg2 & Hi). rewrite E in E2. injection E2 as ->. auto.
  - destruct (delete_client_good key s Hg) as (s2 & E2 & Hg2 & Hi). rewrite E in E2. injection E2 as ->. auto.
  - apply ungrab_quiet in E. destruct (quiet_good _ _ E Hg). auto.
Qed.

(** * What holds of every run *)

(** An output that tells its whole information. *)
Definition completes (t : turn) (s : State) : bool :=
  match t with
  | Dispatch (OutputDone name) | Dispatch (XdgDone name) =>
      match find_output name (outputs s) with Some x => has_xdg_info x | None => false end
  | _ => false
  end.
(** The states of a run in which no handler panicked; the flag says that no
    output was removed since the last update of one. *)
Inductive reachable : bool → State → Prop :=
| reach_start b : reachable true (initial b)
| reach_turn settled s t s' :
    reachable settled s → allowed t s → turn_of t s = (Ok tt, s') →
    reachable (completes t s || (settled && negb (removes t))) s'.

Lemma reachable_good b s : reachable b s → good s ∧ (b = true → in_step s).
Proof.
  induction 1 as [|settled s t s' _ [Hg Hi] Ha E]; [split; [apply initial_good|]|].
  { intros _. unfold in_step, expected. cbn. by rewrite elements_empty. }
  destruct (turn_good t s s' Ha Hg E) as [Hg' Hi']. split; [done|].
  intros [Hc|[Hb Hr%negb_true_iff]%andb_true_iff]%orb_true_iff; [|auto].
  destruct t as [e| | |]; try done. destruct e; try done; cbn [completes allowed turn_of dispatch] in *.
  - destruct (find_output output (outputs s)) as [x|] eqn:Ex; [|done].
    destruct (update_output_spec output s x Ha Hg Ex) as (s2 & E2 & _ & _ & Hs).
    unfold mbind, ST_bind, gets, expect in E. rewrite Ex in E. unfold mret, ST_ret in E. rewrite E in E2. injection E2 as ->. auto.
  - destruct (find_output output (outputs s)) as [x|] eqn:Ex; [|done].
    destruct (update_output_spec output s x Ha Hg Ex) as (s2 & E2 & _ & _ & Hs).
    rewrite E in E2. injection E2 as ->. auto.
Qed.

(** C14. Over every run of events of the compositor and requests in which no
    handler panics: there is one window for every barrier and every output that
    ends the desktop on its side, until an output is removed, and again after
    the next update of one; no two windows share a surface and none belongs to
    a destroyed barrier; and every input is emitted at the barrier of the last
    [Begin]. *)
Theorem windows_in_step b s :
  reachable b s →
  (b = true → shape <$> active_windows s ≡ₚ expected (active_positions s) (known (outputs s))) ∧
  NoDup (surface <$> active_windows s) ∧ (∀ w, w ∈ active_windows s → wkey w ∈ active_positions s) ∧
  follows_begin (pending_events s).
Proof.
  intros Hr. destruct (reachable_good b s Hr) as [[_ [Hd _] Hk _ Hf] Hi]. rewrite Forall_forall in Hk. auto.
Qed.

Definition demo_key : BarrierKey := mkKey Edge.Left (Some "wl-output:other") 0 10000.
Definition setup : list turn :=
  [Dispatch (RegistryGlobal 7 "wl_output"); Dispatch (XdgLogicalPosition 7 (0, 0)); Dispatch (XdgLogicalSize 7 (1920, 1080));
   Dispatch (OutputDone 7); Create demo_key; Dispatch (PointerEnter 0); Dispatch (RelativeMotion 0 5000 f64_one f64_zero)].
Fixpoint allowed_run (ts : list turn) (settled : bool) (s : State) : Prop :=
  match ts with
  | [] => True
  | t :: ts =>
      allowed t s ∧ fst (turn_of t s) = Ok tt ∧
      allowed_run ts (completes t s || (settled && negb (removes t))) (snd (turn_of t s))
  end.
Fixpoint play (ts : list turn) (settled : bool) (s : State) : bool * State :=
  match ts with
  | [] => (settled, s)
  | t :: ts => play ts (completes t s || (settled && negb (removes t))) (snd (turn_of t s))
  end.
Lemma play_reachable ts settled s :
  reachable settled s → allowed_run ts settled s → reachable (fst (play ts settled s)) (snd (play ts settled s)).
Proof.
  revert settled s. induction ts as [|t ts IH]; intros settled s Hr Ha; [done|]. destruct Ha as (Ha & E & Hrest).
  cbn. apply IH; [|done]. apply (reach_turn settled s t); [done..|]. destruct (turn_of t s) as [r s']. cbn in *. by subst.
Qed.
Lemma setup_reachable : reachable true (snd (play setup true (initial true))).
Proof.
  apply (play_reachable setup true (initial true)); [constructor|].
  cbn [allowed_run setup]. repeat match goal with |- _ ∧ _ => split end;
    lazymatch goal with |- _ = _ => vm_compute; reflexivity | |- _ => idtac end; try exact I.
  - cbn [allowed]. intros x Hx _.
    assert (Some x = Some (mkOutput 7 None (mkOutInfo "" "" (0, 0) (1920, 1080) 0) true)) as [= ->] by (rewrite <- Hx; vm_compute; reflexivity).
    unfold sane. cbn. lia.
  - cbn [allowed]. apply (bool_decide_unpack _). vm_compute. exact I.
Qed.
Lemma windows_in_step_witness :
  shape <$> active_windows (snd (play setup true (initial true))) ≡ₚ [(demo_key, 7%N)] ∧
  follows_begin [(demo_key, Begin); (demo_key, Input (Pointer (Motion 5 (f64_of f64_one) (f64_of f64_zero))))].
Proof.
  destruct (windows_in_step true (snd (play setup true (initial true))) setup_reachable) as (H & _ & _ & Hf).
  split; [|exact Hf]. etransitivity; [by apply H|]. reflexivity.
Defined.

(** * Removed outputs *)

(** When an output is removed its windows stay, and no other output takes
    its place, until some output is updated; and an update of the removed
    output that is still under way panics. *)
Theorem removed_output s w n :
  reachable true s → w ∈ active_windows s → on_output w = n →
  ∃ s', dispatch (RegistryGlobalRemove n) s = (Ok tt, s') ∧ active_windows s' = active_windows s ∧
    ¬ in_step s' ∧ fst (dispatch (OutputDone n) s') = Panic ∧ fst (dispatch (XdgDone n) s') = Panic.
Proof.
  intros Hr Hw Hn. destruct (reachable_good _ _ Hr) as [Hg Hi]. specialize (Hi eq_refl).
  destruct (deregister_good n s Hg) as (s' & E & Hg').
  assert (outputs s' = filter (λ o, global_of o ≠ n) (outputs s) ∧ active_windows s' = active_windows s) as [Eo Ew].
  { unfold deregister_global, mbind, ST_bind, get_st in E.
    assert (∀ l s0 s1, for_each (λ o, ask (ReleaseOutput (global_of o))) l s0 = (Ok tt, s1) →
      outputs s1 = outputs s0 ∧ active_windows s1 = active_windows s0) as Hl.
    { induction l as [|o l IH]; intros s0 s1 E0; [by injection E0 as <-|]. apply IH in E0. exact E0. }
    destruct (for_each _ _ s) as [[[]| | |] s1] eqn:E1; try done. destruct (Hl _ _ _ E1) as [H1 H2].
    unfold modify_st in E. destruct (publish_spec (set_outputs (filter (λ o, global_of o ≠ n) (outputs s)) s1)) as (s2 & E2 & Hq & _).
    rewrite E2 in E. injection E as <-. split; [|by rewrite (q_windows _ _ Hq)].
    clear -E2. unfold publish_monitors, modify_st in E2. destruct (monitors_tx _); injection E2 as <-; done. }
  assert (find_output n (outputs s') = None) as Hnone.
  { unfold find_output. destruct (find _ (outputs s')) as [o|] eqn:Ef; [|done]. apply find_Some in Ef as (i & Hi' & Hb & _).
    apply bool_decide_eq_true in Hb. apply list_elem_of_lookup_2 in Hi'. rewrite Eo in Hi'.
    by apply list_elem_of_filter in Hi' as [? _]. }
  exists s'. split; [exact E|]. split; [done|]. split_and!.
  - intros Hs. assert (shape w ∈ expected (active_positions s') (known (outputs s'))) as Hin.
    { unfold in_step in Hs. rewrite <- Hs, Ew. by apply list_elem_of_fmap_2. }
    apply list_elem_of_bind in Hin as (k & Hin & _). apply list_elem_of_fmap in Hin as (x & [= _ Hx] & Hin).
    apply list_elem_of_filter in Hin as [_ Hin]. apply list_elem_of_omap in Hin as (o & Ho & Hx').
    destruct (info o); [|done]. injection Hx' as <-. cbn in Hx. rewrite Eo in Ho. apply list_elem_of_filter in Ho as [Ho _]. congruence.
  - cbn [dispatch]. unfold update_output_info, mbind, ST_bind, gets, expect. by rewrite Hnone.
  - cbn [dispatch]. unfold mbind, ST_bind, gets, expect. by rewrite Hnone.
Qed.
Lemma removed_output_witness :
  ∃ s', dispatch (RegistryGlobalRemove 7) (snd (play setup true (initial true))) = (Ok tt, s') ∧
    length (active_windows s') = 1%nat ∧ fst (dispatch (OutputDone 7) s') = Panic.
Proof.
  destruct (removed_output (snd (play setup true (initial true))) (mkWindow 0 demo_key 7 (1, 1080)) 7 setup_reachable) as (s' & E & Ew & _ & Hp & _).
  - assert (active_windows (snd (play setup true (initial true))) = [mkWindow 0 demo_key 7 (1, 1080)]) as -> by (vm_compute; reflexivity). by left.
  - done.
  - exists s'. split; [done|]. split; [|done]. rewrite Ew. vm_compute. reflexivity.
Defined.

(** * The grab *)

Definition unlocked (s : State) : Prop := pointer_lock s = None ∧ rel_pointer s = false ∧ shortcut_inhibitor s = None.

(** The pointer on a window of the backend: the window is focused, the
    pointer locked, the keys asked for and [Begin] emitted at the barrier; when
    the pointer leaves, or when the task releases, everything is given back. *)
Theorem grab_and_release s w e :
  unlocked s → w ∈ active_windows s → NoDup (surface <$> active_windows s) → e = Dispatch PointerLeave ∨ e = ReleaseReq →
  ∃ s1 s2, turn_of (Dispatch (PointerEnter (surface w))) s = (Ok tt, s1) ∧
    focused s1 = Some w ∧ pointer_lock s1 = Some (surface w) ∧ rel_pointer s1 = true ∧
    pending_events s1 = pending_events s ++ [(wkey w, Begin)] ∧
    requests s1 = requests s ++ [HideCursor; SetKeyboardInteractivity (surface w) true; LockPointer (surface w); GetRelativePointer]
      ++ (if can_inhibit s then [InhibitShortcuts (surface w)] else []) ∧
    turn_of e s1 = (Ok tt, s2) ∧ unlocked s2 ∧ pending_events s2 = pending_events s1 ∧
    requests s2 = requests s1 ++ [SetKeyboardInteractivity (surface w) false; DestroyLock; DestroyRelativePointer]
      ++ (if can_inhibit s then [DestroyInhibitor] else []).
Proof.
  intros (H1 & H2 & H3) Hw Hnd He.
  assert (find (λ w', bool_decide (surface w' = surface w)) (active_windows s) = Some w) as Hf.
  { apply find_Some. apply list_elem_of_lookup in Hw as [i Hi]. exists i. split; [done|]. split; [by apply bool_decide_true|].
    intros j y Hj Hy. apply bool_decide_false. intros Es.
    assert (j = i); [|lia]. eapply (NoDup_lookup _ _ _ (surface w) Hnd); rewrite list_lookup_fmap; [by rewrite Hy, <- Es|by rewrite Hi]. }
  assert (∃ s1 s2, turn_of (Dispatch (PointerEnter (surface w))) s = (Ok tt, s1) ∧
    focused s1 = Some w ∧ pointer_lock s1 = Some (surface w) ∧ rel_pointer s1 = true ∧
    pending_events s1 = pending_events s ++ [(wkey w, Begin)] ∧
    requests s1 = requests s ++ [HideCursor; SetKeyboardInteractivity (surface w) true; LockPointer (surface w); GetRelativePointer]
      ++ (if can_inhibit s then [InhibitShortcuts (surface w)] else []) ∧
    ungrab s1 = (Ok tt, s2) ∧ unlocked s2 ∧ pending_events s2 = pending_events s1 ∧
    requests s2 = requests s1 ++ [SetKeyboardInteractivity (surface w) false; DestroyLock; DestroyRelativePointer]
      ++ (if can_inhibit s then [DestroyInhibitor] else [])) as H; [|by destruct He as [->| ->]].
  clear Hw Hnd He. destruct s as [ps p k l r i ws f [] es os d ms n rq]; cbn in H1, H2, H3, Hf; subst;
    cbn [turn_of dispatch]; unfold grab, ungrab, mbind, ST_bind, gets, get_st, expect, ask, push, modify_st, mret, ST_ret, when;
    cbn; rewrite Hf; cbn; rewrite Hf; cbn;
    (do 2 eexists; split; [reflexivity|]; split_and!; cbn; rewrite <- ?app_assoc; try reflexivity; split_and!; reflexivity).
Qed.
Definition screen_state : State := snd (play (take 5 setup) true (initial true)).
Lemma grab_and_release_witness :
  ∃ s1 s2, turn_of (Dispatch (PointerEnter 0)) screen_state = (Ok tt, s1) ∧ turn_of ReleaseReq s1 = (Ok tt, s2) ∧ unlocked s2.
Proof.
  destruct (grab_and_release screen_state (mkWindow 0 demo_key 7 (1, 1080)) ReleaseReq) as (s1 & s2 & E1 & _ & _ & _ & _ & _ & E2 & Hu & _).
  - split_and!; vm_compute; reflexivity.
  - assert (active_windows screen_state = [mkWindow 0 demo_key 7 (1, 1080)]) as -> by (vm_compute; reflexivity). by left.
  - assert (active_windows screen_state = [mkWindow 0 demo_key 7 (1, 1080)]) as -> by (vm_compute; reflexivity). apply NoDup_singleton.
  - by right.
  - by exists s1, s2.
Defined.

(** A barrier that is destroyed while the pointer is on its window takes
    the focus away but not the lock: a release then gives nothing back, the
    next window that is entered gets no lock of its own, and a button or a
    scroll event that was under way panics. *)
Theorem destroyed_while_grabbed s w :
  focused s = Some w → pointer_lock s = Some (surface w) → w ∈ active_windows s → NoDup (surface <$> active_windows s) →
  ∃ s1, turn_of (Destroy (wkey w)) s = (Ok tt, s1) ∧ focused s1 = None ∧ (w ∉ active_windows s1) ∧
    turn_of ReleaseReq s1 = (Ok tt, s1) ∧ pointer_lock s1 = Some (surface w) ∧
    (∀ time b st, fst (turn_of (Dispatch (PointerButton time b st)) s1) = Panic) ∧
    (∀ time a v, fst (turn_of (Dispatch (PointerAxis time a v)) s1) = Panic) ∧
    (∀ w2, w2 ∈ active_windows s1 → ∃ s2 rq, turn_of (Dispatch (PointerEnter (surface w2))) s1 = (Ok tt, s2) ∧
       pending_events s2 = pending_events s1 ++ [(wkey w2, Begin)] ∧ pointer_lock s2 = Some (surface w) ∧
       requests s2 = requests s1 ++ rq ∧ (∀ x, LockPointer x ∉ rq)).
Proof.
  intros Hf Hl Hw Hnd. cbn [turn_of]. unfold delete_client, mbind, ST_bind, modify_st. eexists. split; [reflexivity|].
  rewrite decide_True by (apply Exists_exists; by exists w). split_and!; try done.
  - cbn. by intros [? _]%list_elem_of_filter.
  - intros w2 Hw2. cbn in Hw2. apply list_elem_of_filter in Hw2 as [Hk Hw2].
    set (ws := filter (λ w', wkey w' ≠ wkey w) (active_windows s)).
    assert (∃ w3, find (λ w', bool_decide (surface w' = surface w2)) ws = Some w3 ∧ wkey w3 = wkey w2) as (w3 & Hfind & Hk3).
    { destruct (find _ ws) as [w3|] eqn:Ef.
      - exists w3. split; [done|]. destruct (find_surface _ _ _ Ef) as [Hw3 Hs3]. apply list_elem_of_filter in Hw3 as [_ Hw3].
        f_equal. cbn in Hw3. apply list_elem_of_lookup in Hw3 as [i Hi], Hw2 as [j Hj].
        assert (i = j) as ->; [|congruence].
        eapply (NoDup_lookup _ _ _ (surface w2) Hnd); rewrite list_lookup_fmap; [by rewrite Hi; cbn; rewrite Hs3|by rewrite Hj].
      - exfalso. assert (w2 ∈ ws) as Hin by (apply list_elem_of_filter; done). clearbody ws. clear -Ef Hin.
        induction ws as [|w' ws IH]; [by apply elem_of_nil in Hin|]. cbn in Ef. case_bool_decide; [done|].
        apply elem_of_cons in Hin as [->|Hin]; auto. }
    destruct s as [ps p k l r i ws0 f inh es os d ms n rq]; cbn in Hf, Hl; subst l f.
    cbn [turn_of dispatch]. unfold grab, mbind, ST_bind, gets, get_st, expect, ask, push, modify_st, mret, ST_ret, when.
    cbn in ws. cbn. fold ws. rewrite Hfind. cbn. rewrite <- Hk3.
    destruct r, inh, i; cbn; rewrite Hfind; cbn; do 2 eexists; (split; [reflexivity|]); cbn; rewrite <- ?app_assoc;
      (split_and!; [done..|]); intros x; rewrite ?elem_of_app, ?list_elem_of_singleton; set_solver.
Qed.
Definition grabbed_state : State := snd (play (take 6 setup) true (initial true)).
Lemma destroyed_while_grabbed_witness :
  ∃ s1, turn_of (Destroy demo_key) grabbed_state = (Ok tt, s1) ∧ pointer_lock s1 = Some 0%N ∧
    fst (turn_of (Dispatch (PointerButton 0 BTN_LEFT 0)) s1) = Panic.
Proof.
  assert (active_windows grabbed_state = [mkWindow 0 demo_key 7 (1, 1080)]) as Ew by (vm_compute; reflexivity).
  destruct (destroyed_while_grabbed grabbed_state (mkWindow 0 demo_key 7 (1, 1080))) as (s1 & E & _ & _ & _ & Hl & Hb & _).
  - vm_compute. reflexivity.
  - vm_compute. reflexivity.
  - rewrite Ew. by left.
  - rewrite Ew. apply NoDup_singleton.
  - exists s1. split; [exact E|]. split; [exact Hl|apply Hb].
Defined.

(** * Scrolling *)

(** What a device does: a click of a wheel is sent as its steps and again as a
    distance, a smooth movement as a distance. *)
Inductive scroll : Type := Wheel (axis value120 time : Z) (value : double) | Smooth (axis time : Z) (value : double).
Definition wire (x : scroll) : list turn :=
  match x with
  | Wheel axis v time value => [Dispatch (PointerAxisValue120 axis v); Dispatch (PointerAxis time axis value)]
  | Smooth axis time value => [Dispatch (PointerAxis time axis value)]
  end.
Definition scrolled (key : BarrierKey) (x : scroll) : BarrierKey * CaptureEvent :=
  match x with
  | Wheel axis v _ _ => (key, Input (Pointer (AxisDiscrete120 (wrapU 8 axis) v)))
  | Smooth axis time value => (key, Input (Pointer (Axis time (wrapU 8 axis) (f64_of value))))
  end.

(** Whatever wheels and touchpads do one after the other, the peer gets one
    event for each: the distance that comes with the steps of a wheel is left
    out. *)
Theorem scrolled_once s w l :
  focused s = Some w → scroll_discrete_pending s = false →
  ∃ s', run (l ≫= wire) s = (Ok tt, s') ∧ pending_events s' = pending_events s ++ (scrolled (wkey w) <$> l) ∧
    focused s' = Some w ∧ scroll_discrete_pending s' = false.
Proof.
  revert s. induction l as [|x l IH]; intros s Hf Hd; [exists s; by rewrite app_nil_r|].
  destruct s as [ps p k lk r i ws f inh es os d ms n rq]; cbn in Hf, Hd; subst. destruct x as [a v t val|a t val].
  - destruct (IH (mkState ps p k lk r i ws (Some w) inh (es ++ [scrolled (wkey w) (Wheel a v t val)]) os false ms n rq) eq_refl eq_refl)
      as (s' & E & He & Hf & Hd). cbn in He. exists s'. split; [exact E|]. rewrite He. by rewrite <- app_assoc.
  - destruct (IH (mkState ps p k lk r i ws (Some w) inh (es ++ [scrolled (wkey w) (Smooth a t val)]) os false ms n rq) eq_refl eq_refl)
      as (s' & E & He & Hf & Hd). cbn in He. exists s'. split; [exact E|]. rewrite He. by rewrite <- app_assoc.
Qed.
Lemma scrolled_once_witness :
  ∃ s', run [Dispatch (PointerAxisValue120 0 120); Dispatch (PointerAxis 5 0 f64_one); Dispatch (PointerAxis 6 1 f64_one)] grabbed_state = (Ok tt, s') ∧
    pending_events s' = [(demo_key, Begin); (demo_key, Input (Pointer (AxisDiscrete120 0 120)));
                         (demo_key, Input (Pointer (Axis 6 1 (f64_of f64_one))))].
Proof.
  destruct (scrolled_once grabbed_state (mkWindow 0 demo_key 7 (1, 1080)) [Wheel 0 120 5 f64_one; Smooth 1 6 f64_one])
    as (s' & E & He & _); [vm_compute; reflexivity|vm_compute; reflexivity|].
  exists s'. split; [exact E|]. rewrite He. reflexivity.
Defined.
(** With the steps of both axes before both distances, one distance is sent as
    well. *)
Lemma scrolled_twice key :
  ∃ s', run [Dispatch (PointerAxisValue120 0 120); Dispatch (PointerAxisValue120 1 120);
             Dispatch (PointerAxis 5 0 f64_one); Dispatch (PointerAxis 5 1 f64_one)]
          (set_focused (Some (mkWindow 0 key 7 (1, 1))) (initial true)) = (Ok tt, s') ∧
    pending_events s' = [(key, Input (Pointer (AxisDiscrete120 0 120))); (key, Input (Pointer (AxisDiscrete120 1 120)));
                         (key, Input (Pointer (Axis 5 1 (f64_of f64_one))))].
Proof. eexists. split; reflexivity. Qed.

(** * Two more behaviours *)

(** The keyboard is asked for whenever the capabilities of the seat change, and
    never stored, so that it is never released: its events come once more with
    every change. *)
Lemma keyboards_pile_up n s :
  keyboard s = false →
  ∃ s', run (repeat (Dispatch (SeatCapabilities false true)) n) s = (Ok tt, s') ∧
    requests s' = requests s ++ repeat GetKeyboard n ∧ keyboard s' = false.
Proof.
  revert s. induction n as [|n IH]; intros s Hk; [exists s; by rewrite app_nil_r|].
  destruct s as [ps p k lk r i ws f inh es os d ms nx rq]; cbn in Hk; subst.
  destruct (IH (mkState ps p false lk r i ws f inh es os d ms nx (rq ++ [GetKeyboard])) eq_refl) as (s' & E & Hr & Hk).
  cbn in Hr. exists s'. split; [exact E|]. rewrite Hr, <- app_assoc. done.
Qed.
(** The monitor of a barrier plays no part in where its windows are. *)
Lemma monitor_ignored (key : BarrierKey) (m : option MonitorId) l :
  snd <$> at_edge l key = snd <$> at_edge l (mkKey (key_pos key) m (key_offset key) (key_span key)).
Proof. unfold at_edge. by rewrite <- !list_fmap_compose. Qed.
