(* ===== verification/LibeiCapture.v ===== *)
(** The capture backend of the input capture portal (input-capture/src/libei.rs)
    with the translation of the events of libei (input-event/src/libei.rs): the
    loop that makes a new session whenever the clients or the zones change, the
    barriers of a session, and the session itself.

    What the portal and the compositor answer are arguments; which of the
    futures of a [select!] is ready is a sequence of picks.  [powf] of 32-bit
    floats, whose precision the standard library leaves open, is a parameter. *)

From Stdlib Require Import Floats.SpecFloat.
From S2P Require Import Prelude InputEvent Geometry InputCapture Doubles Monitors Backend.
#[local] Open Scope Z_scope.

(** * Events of libei *)

Abbreviation f32 := spec_float.
(** [x as f64] of a 32-bit float is exact. *)
Definition widen (x : f32) : double :=
  match x with S754_finite s m e => binary_normalize 53 1024 (cond_Zopp s (Z.pos m)) e s | _ => x end.

Inductive EiEvent : Type :=
| SeatAdded | SeatRemoved | DeviceAdded | DeviceRemoved | DevicePaused | DeviceResumed
| DeviceStartEmulating | DeviceStopEmulating | Disconnected (reason : string)
| KeyboardModifiers (depressed latched locked group : Z)
| EiFrame
| PointerMotion (time : Z) (dx dy : f32)
| PointerMotionAbsolute
| EiButton (time button : Z) (pressed : bool)
| ScrollDelta (dx dy : f32)
| ScrollStop | ScrollCancel
| ScrollDiscrete (dx dy : Z)
| KeyboardKey (time key : Z) (pressed : bool)
| TouchDown | TouchUp | TouchMotion.

Definition is_zero (x : f32) : bool := match x with S754_zero _ => true | _ => false end.
(** The iterator over none, one or two events. *)
Definition to_input_events (e : EiEvent) : list Event :=
  match e with
  | KeyboardModifiers d la lo g => [Keyboard (Modifiers d la lo g)]
  | PointerMotion t dx dy => [Pointer (Motion (wrapU 32 t) (f64_of (widen dx)) (f64_of (widen dy)))]
  | EiButton t b p => [Pointer (Button (wrapU 32 t) b (if p then 1 else 0))]
  | ScrollDelta x y =>
      let dy := Pointer (Axis 0 0 (f64_of (widen y))) in
      let dx := Pointer (Axis 0 1 (f64_of (widen x))) in
      if negb (is_zero y) && negb (is_zero x) then [dy; dx]
      else if negb (is_zero y) then [dy]
      else if negb (is_zero x) then [dx]
      else []
  | ScrollDiscrete x y =>
      let dy := Pointer (AxisDiscrete120 0 y) in
      let dx := Pointer (AxisDiscrete120 1 x) in
      if negb (y =? 0) && negb (x =? 0) then [dy; dx]
      else if negb (y =? 0) then [dy]
      else if negb (x =? 0) then [dx]
      else []
  | KeyboardKey t k p => [Keyboard (Key (wrapU 32 t) k (if p then 1 else 0))]
  | _ => []
  end.

(** * Barriers *)

Abbreviation region := (Z * Z * Z * Z)%type.
Record ICBarrier : Type := mkBarrier { barrier_id : N; position : Z * Z * Z * Z }.

Definition checked_i32 (z : Z) : outcome CaptureError Z := if decide (inS 32 z) then Ok z else Panic.
(** The edge of a region, [(width, height, x, y)]. *)
Definition barrier_position (pos : Position) (r : region) : outcome CaptureError (Z * Z * Z * Z) :=
  let '(w, h, x, y) := r in
  let w_i := wrapS 32 w in
  let h_i := wrapS 32 h in
  match pos with
  | Edge.Left => b ← checked_i32 (y + h_i); b1 ← checked_i32 (b - 1); Ok (x, y, x, b1)
  | Edge.Right =>
      r ← checked_i32 (x + w_i); b ← checked_i32 (y + h_i); b1 ← checked_i32 (b - 1); Ok (r, y, r, b1)
  | Edge.Top => r ← checked_i32 (x + w_i); r1 ← checked_i32 (r - 1); Ok (x, y, r1, y)
  | Edge.Bottom =>
      b ← checked_i32 (y + h_i); r ← checked_i32 (x + w_i); r1 ← checked_i32 (r - 1); Ok (x, b, r1, b)
  end.

(** Barriers, the keys by id, and the next id. *)
Abbreviation selection := (list ICBarrier * gmap N BarrierKey * N)%type.
Definition select_barrier (key : BarrierKey) (r : region) (acc : selection) : outcome CaptureError selection :=
  let '(barriers, keys, next) := acc in
  if decide (next + 1 < 2 ^ 32)%N then
    p ← barrier_position (key_pos key) r;
    Ok (barriers ++ [mkBarrier next p], <[next := key]> keys, (next + 1)%N)
  else Panic.
Fixpoint select_regions (key : BarrierKey) (rs : list region) (acc : selection) : outcome CaptureError selection :=
  match rs with
  | [] => Ok acc
  | r :: rs => acc ← select_barrier key r acc; select_regions key rs acc
  end.
Fixpoint select_clients (regions : list region) (clients : list BarrierKey) (acc : selection) : outcome CaptureError selection :=
  match clients with
  | [] => Ok acc
  | key :: clients => acc ← select_regions key regions acc; select_clients regions clients acc
  end.
Definition select_barriers (regions : list region) (clients : list BarrierKey) (next : N) : outcome CaptureError selection :=
  select_clients regions clients ([], ∅, next).

(** * Which barrier was crossed *)

Definition f32_of (z : Z) : f32 := binary_normalize 24 128 z 0 false.
Definition f32_sub := SFsub 24 128.
Definition f32_add := SFadd 24 128.
Definition f32_mul := SFmul 24 128.

Section distance.
Variable powf : f32 → f32 → f32.
Definition distance_to_line (line : (f32 * f32) * (f32 * f32)) (p : f32 * f32) : f32 :=
  let '((x1, y1), (x2, y2)) := line in
  let '(x0, y0) := p in
  let double_triangle_area :=
    SFabs (f32_sub (f32_add (f32_sub (f32_mul (f32_sub y2 y1) x0) (f32_mul (f32_sub x2 x1) y0)) (f32_mul x2 y1)) (f32_mul y2 x1)) in
  let line_length :=
    SFsqrt 24 128 (f32_add (powf (f32_sub y2 y1) (f32_of 2)) (powf (f32_sub x2 x1) (f32_of 2))) in
  SFdiv 24 128 double_triangle_area line_length.

Definition barrier_key (pos : f32 * f32) (b : ICBarrier) : Z :=
  let '(x1, y1, x2, y2) := position b in
  as_signed 32 (distance_to_line ((f32_of x1, f32_of y1), (f32_of x2, f32_of y2)) pos).
(** [min_by_key]: the first of the least ones. *)
Fixpoint min_by_key (f : ICBarrier → Z) (best : ICBarrier) (bs : list ICBarrier) : ICBarrier :=
  match bs with
  | [] => best
  | b :: bs => min_by_key f (if f b <? f best then b else best) bs
  end.
Definition find_corresponding_client (barriers : list ICBarrier) (pos : f32 * f32) : outcome CaptureError N :=
  match barriers with
  | [] => Panic
  | b :: bs => Ok (barrier_id (min_by_key (barrier_key pos) b bs))
  end.

(** * A session *)

Inductive ActivatedBarrier : Type := Barrier (id : N) | UnknownBarrier.
Record Activated : Type := mkActivated {
  act_barrier : option ActivatedBarrier;
  cursor_position : option (f32 * f32);
  activation_id : option N
}.
(** A call on the portal: the release with the activation and the cursor. *)
Record Release : Type := mkRelease { release_id : option N; release_at : double * double }.

Record Session : Type := mkSession {
  current_key : option BarrierKey;
  captured : option (Activated * BarrierKey);
  release_session : bool;
  cancel_session : bool;
  ei_done : bool;
  event_tx : emitted;
  released : list Release
}.
Definition set_current (k : option BarrierKey) (s : Session) : Session :=
  mkSession k (captured s) (release_session s) (cancel_session s) (ei_done s) (event_tx s) (released s).
Definition set_captured (c : option (Activated * BarrierKey)) (s : Session) : Session :=
  mkSession (current_key s) c (release_session s) (cancel_session s) (ei_done s) (event_tx s) (released s).
Definition set_release (b : bool) (s : Session) : Session :=
  mkSession (current_key s) (captured s) b (cancel_session s) (ei_done s) (event_tx s) (released s).
Definition cancel (s : Session) : Session :=
  mkSession (current_key s) (captured s) (release_session s) true (ei_done s) (event_tx s) (released s).
Definition end_ei (s : Session) : Session :=
  mkSession (current_key s) (captured s) (release_session s) true true (event_tx s) (released s).
Definition send (es : emitted) (s : Session) : Session :=
  mkSession (current_key s) (captured s) (release_session s) (cancel_session s) (ei_done s) (event_tx s ++ es) (released s).
Definition log_release (r : Release) (s : Session) : Session :=
  mkSession (current_key s) (captured s) (release_session s) (cancel_session s) (ei_done s) (event_tx s) (released s ++ [r]).

Abbreviation M := (ST Session CaptureError).

(** The handler of the events, and what its error does to the session.
    [flushed] is the success of the flush after a seat is bound. *)
Definition handle_ei_event (flushed : bool) (e : EiEvent) (current : option BarrierKey) : M unit :=
  match e with
  | SeatAdded => if flushed then mret tt else raise Io
  | SeatRemoved | DeviceRemoved => modify_st (set_release true)
  | DevicePaused | DeviceResumed | DeviceStartEmulating | DeviceStopEmulating => mret tt
  | Disconnected reason => raise (Platform reason)
  | _ =>
      match current with
      | Some key => modify_st (send ((λ i, (key, Input i)) <$> to_input_events e))
      | None => mret tt
      end
  end.
(** [libei_event_handler] in its task: an error or the end of the stream
    ends it and cancels the session. *)
Definition ei_task (flushed : bool) (e : option EiEvent) : M unit :=
  done ← gets ei_done;
  if done : bool then mret tt
  else
    match e with
    | None => modify_st end_ei
    | Some e =>
        current ← gets current_key;
        r ← attempt (handle_ei_event flushed e current);
        match r with inl _ => modify_st end_ei | inr _ => mret tt end
    end.

Definition release_capture (released_ok : bool) (a : Activated) (key : BarrierKey) : M unit :=
  match cursor_position a with
  | None => panic
  | Some (x, y) =>
      let '(dx, dy) :=
        match key_pos key with
        | Edge.Left => (of_Z 1, of_Z 0)
        | Edge.Right => (of_Z (-1), of_Z 0)
        | Edge.Top => (of_Z 0, of_Z 1)
        | Edge.Bottom => (of_Z 0, of_Z (-1))
        end in
      modify_st (log_release (mkRelease (activation_id a) (f64_add (widen x) dx, f64_add (widen y) dy))) ≫= λ _,
      if released_ok then mret tt else raise (Platform "portal")
  end.

(** The client of an activation: by the id of the barrier, by the position of
    the cursor when the id is not reported or not known. *)
Definition by_cursor (barriers : list ICBarrier) (a : Activated) : outcome CaptureError N :=
  match cursor_position a with Some p => find_corresponding_client barriers p | None => Panic end.
Definition activated_key (barriers : list ICBarrier) (keys : gmap N BarrierKey) (a : Activated) : outcome CaptureError BarrierKey :=
  id ← match act_barrier a with Some (Barrier id) => Ok id | _ => by_cursor barriers a end;
  match keys !! id with
  | Some k => Ok k
  | None =>
      id ← by_cursor barriers a;
      match keys !! id with Some k => Ok k | None => Panic end
  end.

(** Which future is ready: a signal or the end of their stream, a release, the
    two notifications inside the session, an event of libei, a request from
    outside to end the session. *)
Inductive pick : Type :=
| Activation (a : Activated)
| ActivationsEnded
| NotifyRelease (ok : bool)
| ReleaseSession (ok : bool)
| CancelSession
| Ei (flushed : bool) (e : option EiEvent)
| UpdateRequest.

(** One pick: whether the session goes on.  Signals are not looked at while a
    capture is on; notifications that were not given are not ready. *)
Definition session_turn (barriers : list ICBarrier) (keys : gmap N BarrierKey) (p : pick) : M bool :=
  s ← get_st;
  match p, captured s with
  | Ei flushed e, _ => ei_task flushed e ≫= λ _, mret true
  | UpdateRequest, _ => modify_st cancel ≫= λ _, mret true
  | Activation a, None =>
      match activated_key barriers keys a with
      | Ok key =>
          modify_st (set_current (Some key)) ≫= λ _,
          modify_st (send [(key, Begin)]) ≫= λ _,
          modify_st (set_captured (Some (a, key))) ≫= λ _, mret true
      | Err e => raise e
      | _ => panic
      end
  | ActivationsEnded, None => raise ActivationClosed
  | NotifyRelease _, None => mret true
  | NotifyRelease ok, Some (a, key) =>
      release_capture ok a key ≫= λ _, modify_st (set_captured None) ≫= λ _, mret true
  | ReleaseSession ok, c =>
      if release_session s then
        match c with
        | Some (a, key) => release_capture ok a key ≫= λ _, modify_st (set_captured None)
        | None => mret tt
        end ≫= λ _, mret false
      else mret true
  | CancelSession, _ => mret (negb (cancel_session s))
  | Activation _, Some _ | ActivationsEnded, Some _ => mret true
  end.

(** The two tasks are joined.  The one of the signals tells the other one to
    end when it breaks, not when it fails: then the events of libei go on until
    they end by themselves.  Without further picks the session is still on. *)
Fixpoint session_failed (e : CaptureError) (ps : list pick) : M unit :=
  match ps with
  | [] => λ s, (Diverge, s)
  | Ei flushed ev :: ps =>
      ei_task flushed ev ≫= λ _,
      done ← gets ei_done; if done : bool then raise e else session_failed e ps
  | _ :: ps => session_failed e ps
  end.
Fixpoint session_run (barriers : list ICBarrier) (keys : gmap N BarrierKey) (ps : list pick) : M unit :=
  match ps with
  | [] => λ s, (Diverge, s)
  | p :: ps =>
      r ← attempt (session_turn barriers keys p);
      match r with
      | inr true => session_run barriers keys ps
      | inr false => mret tt
      | inl e => done ← gets ei_done; if done : bool then raise e else session_failed e ps
      end
  end.
End distance.

Definition new_session (tx : emitted) : Session := mkSession None None false false false tx [].

(** * The loop over the sessions *)

Inductive LibeiNotifyEvent : Type := Create (key : BarrierKey) | Destroy (key : BarrierKey).

(** What ends an iteration: [handle_session_update_request]. *)
Inductive wake : Type := ExitRequested | SessionEnded | ZonesChanged | ClientsChanged (e : option LibeiNotifyEvent).

Record Loop : Type := mkLoop {
  active_clients : list BarrierKey;
  next_barrier_id : N;
  monitors_tx : list MonitorInfo;
  has_session : bool;
  cancelled : bool;
  sent : emitted
}.

(** The answers of an iteration: the error of a new session, of the connection
    and of the barriers, if any; the regions of its zones, the picks, what wakes
    it, the zones when they are fetched again. *)
Record iteration : Type := mkIteration {
  created : option CaptureError;
  connected : option CaptureError;
  enabled : option CaptureError;
  regions : list region;
  picks : list pick;
  woken : wake;
  fetched : option (list region)
}.

Definition publish_monitors_if_changed (zones_have_changed : bool) (fetched : option (list region)) (tx : list MonitorInfo)
    : list MonitorInfo :=
  if zones_have_changed then match fetched with Some rs => Ei.enumerate_zones rs | None => tx end else tx.

Definition update_active (e : option LibeiNotifyEvent) (clients : list BarrierKey) : list BarrierKey :=
  match e with
  | Some (Create k) => clients ++ [k]
  | Some (Destroy k) => filter (λ x, x ≠ k) clients
  | None => clients
  end.
Definition zones_changed (w : wake) : bool := match w with ZonesChanged => true | _ => false end.
Definition clients_event (w : wake) : option LibeiNotifyEvent := match w with ClientsChanged e => e | _ => None end.
Definition exits (w : wake) : bool := match w with ExitRequested => true | _ => false end.

Section do_capture.
Variable powf : f32 → f32 → f32.

(** [do_capture_session]: the barriers, then the session until it breaks; its
    result, what it sent and the next id. *)
Definition do_capture_session (clients : list BarrierKey) (next : N) (tx : emitted) (it : iteration)
    : outcome CaptureError unit * (emitted * N) :=
  match connected it with
  | Some e => (Err e, (tx, next))
  | None =>
      match select_barriers (regions it) clients next with
      | Ok (barriers, keys, next) =>
          match enabled it with
          | Some e => (Err e, (tx, next))
          | None => let '(r, s) := session_run powf barriers keys (picks it) (new_session tx) in (r, (event_tx s, next))
          end
      | _ => (Panic, (tx, next))
      end
  end.

(** An iteration: whether the loop goes on. *)
Definition active_turn (it : iteration) : ST Loop CaptureError unit :=
  l ← get_st;
  when (negb (has_session l)) (match created it with Some e => raise e | None => mret tt end) ≫= λ _,
  let '(r, (tx, next)) := do_capture_session (active_clients l) (next_barrier_id l) (sent l) it in
  match r with
  | Diverge => λ l, (Diverge, mkLoop (active_clients l) next (monitors_tx l) false (cancelled l) tx)
  | _ =>
      modify_st (λ l, mkLoop (active_clients l) next
        (publish_monitors_if_changed (zones_changed (woken it)) (fetched it) (monitors_tx l)) false (cancelled l) tx) ≫= λ _,
      match r with Ok _ => mret tt | Err e => raise e | _ => panic end
  end.
Definition do_capture_turn (it : iteration) : ST Loop CaptureError bool :=
  l ← get_st;
  when (bool_decide (active_clients l ≠ [])) (active_turn it) ≫= λ _,
  modify_st (λ l, mkLoop (update_active (clients_event (woken it)) (active_clients l)) (next_barrier_id l)
    (monitors_tx l) (has_session l) (cancelled l || exits (woken it)) (sent l)) ≫= λ _,
  gets (λ l, negb (cancelled l)).
Fixpoint do_capture (its : list iteration) : ST Loop CaptureError unit :=
  match its with
  | [] => λ l, (Diverge, l)
  | it :: its => go ← do_capture_turn it; if go : bool then do_capture its else mret tt
  end.
End do_capture.

Definition initial (monitors : list MonitorInfo) : Loop := mkLoop [] 1 monitors true false [].

(** * The barriers *)

(** The edge of a region, as a line between two pixels. *)
Definition line (pos : Position) (r : region) : Z * Z * Z * Z :=
  let '(w, h, x, y) := r in
  match pos with
  | Edge.Left => (x, y, x, y + h - 1)
  | Edge.Right => (x + w, y, x + w, y + h - 1)
  | Edge.Top => (x, y, x + w - 1, y)
  | Edge.Bottom => (x, y + h, x + w - 1, y + h)
  end.
(** Coordinates of real screens. *)
Definition sane (r : region) : Prop :=
  let '(w, h, x, y) := r in 0 < w < 2 ^ 30 ∧ 0 < h < 2 ^ 30 ∧ - 2 ^ 29 < x < 2 ^ 29 ∧ - 2 ^ 29 < y < 2 ^ 29.

Lemma position_ok pos r : sane r → barrier_position pos r = Ok (line pos r).
Proof.
  destruct r as [[[w h] x] y]. unfold sane, barrier_position, line, checked_i32. intros (Hw & Hh & Hx & Hy).
  assert (wrapS 32 w = w ∧ wrapS 32 h = h) as [-> ->].
  { unfold wrapS. rewrite !Z.mod_small by lia. lia. }
  destruct pos; cbn [mbind outcome_bind]; rewrite !decide_True by (unfold inS; lia); cbn [mbind outcome_bind];
    rewrite ?decide_True by (unfold inS; lia); cbn [mbind outcome_bind]; rewrite ?decide_True by (unfold inS; lia); done.
Qed.

(** Every client with every region. *)
Definition pairs (clients : list BarrierKey) (regions : list region) : list (BarrierKey * region) :=
  clients ≫= λ k, (λ r, (k, r)) <$> regions.
Fixpoint select_all (l : list (BarrierKey * region)) (acc : selection) : outcome CaptureError selection :=
  match l with
  | [] => Ok acc
  | (k, r) :: l => acc ← select_barrier k r acc; select_all l acc
  end.
Lemma select_all_app l1 l2 acc : select_all (l1 ++ l2) acc = acc ← select_all l1 acc; select_all l2 acc.
Proof.
  revert acc. induction l1 as [|[k r] l1 IH]; intros acc; [done|]. cbn. destruct (select_barrier k r acc); cbn; [apply IH|done..].
Qed.
Lemma select_regions_all key rs acc : select_regions key rs acc = select_all ((λ r, (key, r)) <$> rs) acc.
Proof. revert acc. induction rs as [|r rs IH]; intros acc; [done|]. cbn. destruct (select_barrier key r acc); cbn; [apply IH|done..]. Qed.
Lemma select_barriers_all regions clients next : select_barriers regions clients next = select_all (pairs clients regions) ([], ∅, next).
Proof.
  unfold select_barriers. generalize (([], ∅, next) : selection). induction clients as [|k clients IH]; intros acc; [done|].
  unfold pairs in *. cbn [select_clients]. rewrite bind_cons, select_all_app, <- select_regions_all.
  destruct (select_regions k regions acc); cbn; [apply IH|done..].
Qed.

Lemma select_all_ok l bs keys next :
  Forall (λ kr, sane kr.2) l → (next + N.of_nat (length l) < 2 ^ 32)%N →
  ∃ bs' keys', select_all l (bs, keys, next) = Ok (bs ++ bs', keys', (next + N.of_nat (length l))%N) ∧
    bs' = imap (λ i kr, mkBarrier (next + N.of_nat i) (line (key_pos kr.1) kr.2)) l ∧
    (∀ i kr, l !! i = Some kr → keys' !! (next + N.of_nat i)%N = Some kr.1) ∧
    (∀ id, (id < next ∨ next + N.of_nat (length l) ≤ id)%N → keys' !! id = keys !! id).
Proof.
  intros Hs. revert bs keys next. induction Hs as [|[k r] l Hr _ IH]; intros bs keys next Hn.
  - exists [], keys. split_and!; [by rewrite app_nil_r, N.add_0_r|done|done|done].
  - cbn [length] in Hn. cbn [select_all select_barrier]. rewrite decide_True by lia. rewrite position_ok by exact Hr. cbn [mbind outcome_bind].
    destruct (IH (bs ++ [mkBarrier next (line (key_pos k) r)]) (<[next := k]> keys) (next + 1)%N ltac:(lia))
      as (bs' & keys' & E & Eb & Hin & Hout).
    exists (mkBarrier next (line (key_pos k) r) :: bs'), keys'. split_and!.
    + rewrite E, <- app_assoc. cbn [app length]. do 2 f_equal. lia.
    + rewrite Eb. cbn [imap]. f_equal; [f_equal; lia|]. apply imap_ext. intros i kr _. cbn. f_equal. lia.
    + intros [|i] kr Hi; cbn in Hi.
      * injection Hi as <-. rewrite Hout by lia. replace (next + N.of_nat 0)%N with next by lia. by rewrite lookup_insert_eq.
      * replace (next + N.of_nat (S i))%N with (next + 1 + N.of_nat i)%N by lia. by apply Hin.
    + intros id Hid. cbn [length] in Hid. rewrite Hout by lia. rewrite lookup_insert_ne by lia. done.
Qed.

(** The barriers of a session: one for every client and every region, along
    the edge of the region on the side of the client, with ids that count on
    from the last session, each of which leads back to its client; and a panic
    once the ids run out. *)
Theorem select_barriers_spec regions clients next :
  Forall sane regions →
  let n := N.of_nat (length (pairs clients regions)) in
  ((next + n < 2 ^ 32)%N → ∃ bs keys, select_barriers regions clients next = Ok (bs, keys, (next + n)%N) ∧
     bs = imap (λ i kr, mkBarrier (next + N.of_nat i) (line (key_pos kr.1) kr.2)) (pairs clients regions) ∧
     (∀ i kr, pairs clients regions !! i = Some kr → keys !! (next + N.of_nat i)%N = Some kr.1) ∧
     (∀ id k, keys !! id = Some k → k ∈ clients ∧ (next ≤ id < next + n)%N)) ∧
  ((2 ^ 32 ≤ next + n)%N → (next < 2 ^ 32)%N → select_barriers regions clients next = Panic).
Proof.
  intros Hs n.
  assert (Forall (λ kr, sane kr.2) (pairs clients regions)) as Hp.
  { apply Forall_forall. intros [k r] Hin. unfold pairs in Hin. apply list_elem_of_bind in Hin as (k' & Hin & _).
    apply list_elem_of_fmap in Hin as (r' & [= -> ->] & Hin). rewrite Forall_forall in Hs. by apply Hs. }
  rewrite select_barriers_all. split.
  - intros Hn. destruct (select_all_ok _ [] ∅ next Hp Hn) as (bs & keys & E & Eb & Hin & Hout).
    exists bs, keys. split_and!; [exact E|done|done|]. intros id k Hk.
    destruct (decide (id < next ∨ next + n ≤ id)%N) as [Hd|Hd]; [by rewrite Hout in Hk|].
    split; [|lia]. destruct (lookup_lt_is_Some_2 (pairs clients regions) (N.to_nat (id - next))) as [[k' r] Hi]; [lia|].
    pose proof (Hin _ _ Hi) as Hk'. replace (next + N.of_nat (N.to_nat (id - next)))%N with id in Hk' by lia.
    rewrite Hk in Hk'. injection Hk' as ->. apply list_elem_of_lookup_2 in Hi. unfold pairs in Hi.
    apply list_elem_of_bind in Hi as (k'' & Hi & Hc). by apply list_elem_of_fmap in Hi as (r' & [= -> ->] & _).
  - intros Hn Hlt. unfold n in Hn. clear n Hs. revert Hn Hlt. generalize (([] : list ICBarrier)), (∅ : gmap N BarrierKey). revert next.
    induction Hp as [|[k r] l Hr _ IH]; intros next bs keys Hn Hlt; cbn [length] in Hn; [lia|]. cbn [select_all select_barrier].
    case_decide; [|done]. rewrite position_ok by exact Hr. cbn [mbind outcome_bind]. apply IH; lia.
Qed.
Definition left_key : BarrierKey := from_pos Edge.Left.
Definition top_key : BarrierKey := from_pos Edge.Top.
Lemma select_barriers_spec_witness :
  ∃ keys, select_barriers [(1920, 1080, 0, 0); (1280, 1024, 1920, 0)] [left_key; top_key] 1 =
    Ok ([mkBarrier 1 (0, 0, 0, 1079); mkBarrier 2 (1920, 0, 1920, 1023); mkBarrier 3 (0, 0, 1919, 0); mkBarrier 4 (1920, 0, 3199, 0)], keys, 5%N).
Proof.
  destruct (select_barriers_spec [(1920, 1080, 0, 0); (1280, 1024, 1920, 0)] [left_key; top_key] 1) as [H _].
  - repeat constructor; lia.
  - destruct H as (bs & keys & E & Eb & _); [vm_compute; reflexivity|]. exists keys. rewrite E, Eb. reflexivity.
Defined.

(** * What a session keeps *)

Section session.
Variable powf : f32 → f32 → f32.
Variable clients : list BarrierKey.
Variable barriers : list ICBarrier.
Variable keys : gmap N BarrierKey.
(** What [select_barriers_spec] gives. *)
Hypothesis known_barriers : ∀ b, b ∈ barriers → is_Some (keys !! barrier_id b).
Hypothesis known_clients : ∀ id k, keys !! id = Some k → k ∈ clients.
Hypothesis some_barrier : barriers ≠ [].

Lemma min_by_key_in f best bs : min_by_key f best bs ∈ best :: bs.
Proof.
  revert best. induction bs as [|b bs IH]; intros best; cbn; [by left|].
  pose proof (IH (if f b <? f best then b else best)) as H. apply elem_of_cons in H as [->|H]; [|by do 2 right].
  destruct (f b <? f best); [right; by left|by left].
Qed.
Lemma by_cursor_known a : is_Some (cursor_position a) → ∃ id, by_cursor powf barriers a = Ok id ∧ is_Some (keys !! id).
Proof.
  intros [p Hp]. unfold by_cursor, find_corresponding_client. rewrite Hp. destruct barriers as [|b bs]; [done|].
  eexists. split; [done|]. apply known_barriers, min_by_key_in.
Qed.
Lemma activated_known a : is_Some (cursor_position a) → ∃ k, activated_key powf barriers keys a = Ok k ∧ k ∈ clients.
Proof.
  intros Ha. destruct (by_cursor_known a Ha) as (id & E & k & Hk). unfold activated_key.
  assert (∃ id', (match act_barrier a with Some (Barrier id) => Ok id | _ => by_cursor powf barriers a end) = Ok id') as [id' ->].
  { destruct (act_barrier a) as [[i|]|]; eauto. }
  cbn [mbind outcome_bind]. destruct (keys !! id') as [k'|] eqn:Ek; [exists k'; eauto|].
  rewrite E. cbn [mbind outcome_bind]. rewrite Hk. exists k. eauto.
Qed.

(** The compositor reports where the cursor is. *)
Definition reported (p : pick) : Prop := match p with Activation a => is_Some (cursor_position a) | _ => True end.

Record fine (tx : emitted) (s : Session) : Prop := {
  f_events : ∃ es, event_tx s = tx ++ es ∧ follows_begin es ∧ Forall (λ e, e.1 ∈ clients) es ∧
    ∀ k, current_key s = Some k → begun es = Some k;
  f_current : ∀ k, current_key s = Some k → k ∈ clients;
  f_captured : ∀ a k, captured s = Some (a, k) → is_Some (cursor_position a)
}.
Lemma fine_ext tx s s' :
  event_tx s' = event_tx s → current_key s' = current_key s → captured s' = captured s ∨ captured s' = None → fine tx s → fine tx s'.
Proof.
  intros E1 E2 E3 [H1 H2 H3]. split; rewrite ?E1, ?E2; [done..|]. destruct E3 as [->| ->]; [done|by intros].
Qed.

Lemma inputs_follow es k (l : list Event) :
  follows_begin es → begun es = Some k →
  follows_begin (es ++ ((λ i, (k, Input i)) <$> l)) ∧ begun (es ++ ((λ i, (k, Input i)) <$> l)) = Some k.
Proof.
  revert es. induction l as [|i l IH]; intros es Hf Hb; [by rewrite app_nil_r|]. cbn.
  rewrite cons_middle, app_assoc. apply IH; [|by rewrite begun_snoc]. apply follows_snoc; [done|]. by intros ? ? [= <- _].
Qed.

Lemma ei_task_spec tx flushed e s :
  fine tx s → ∃ s', ei_task flushed e s = (Ok tt, s') ∧ fine tx s'.
Proof.
  intros Hf. unfold ei_task, mbind, ST_bind, gets, modify_st, attempt.
  destruct (ei_done s); [by exists s|]. destruct e as [e|]; [|eexists; split; [done|by apply (fine_ext tx s); auto]].
  assert (∃ r s1, handle_ei_event flushed e (current_key s) s = (r, s1) ∧ fine tx s1 ∧ (r = Ok tt ∨ ∃ err, r = Err err)) as (r & s1 & E & Hf1 & Hr).
  { assert (∀ l, ∃ s1, (match current_key s with
        | Some key => modify_st (send ((λ i, (key, Input i)) <$> l))
        | None => mret tt end : ST Session CaptureError unit) s = (Ok tt, s1) ∧ fine tx s1) as Hsend.
    { intros l. destruct (current_key s) as [k|] eqn:Ek; [|by exists s]. eexists. split; [done|].
      destruct Hf as [(es & E1 & H1 & H2 & H3) H4 H5]. destruct (inputs_follow es k l H1 (H3 k Ek)) as [Hfo Hbe]. split; cbn.
      - exists (es ++ ((λ i, (k, Input i)) <$> l)). rewrite E1, app_assoc. split_and!; [done|done| |].
        + apply Forall_app. split; [done|]. apply Forall_fmap, Forall_forall. intros. cbn. by apply H4.
        + rewrite Ek. intros k' [= <-]. done.
      - done.
      - done. }
    destruct e; cbn [handle_ei_event]; 
      try (match goal with |- context [to_input_events ?e] => destruct (Hsend (to_input_events e)) as (s1 & E1 & Hf1) end;
           do 2 eexists; split; [exact E1|by auto]);
      try (do 2 eexists; split; [done|]; split; [by apply (fine_ext tx s); auto|by auto]).
    - destruct flushed; do 2 eexists; (split; [done|]); eauto.
    - do 2 eexists. split; [done|]. eauto. }
  rewrite E. destruct Hr as [->|[err ->]]; cbn; eexists; (split; [done|]); [done|by apply (fine_ext tx s1); auto].
Qed.

Lemma portal_release_spec tx ok a key s :
  is_Some (cursor_position a) → fine tx s →
  ∃ r s', release_capture ok a key s = (r, s') ∧ fine tx s' ∧ captured s' = captured s ∧ (r = Ok tt ∨ ∃ err, r = Err err).
Proof.
  intros [[x y] Ha] Hf. unfold release_capture. rewrite Ha.
  destruct (key_pos key); destruct ok; unfold mbind, ST_bind, modify_st; do 2 eexists; (split; [done|]);
    (split; [by apply (fine_ext tx s); auto|]); eauto.
Qed.

Lemma session_turn_spec tx p s :
  reported p → fine tx s →
  ∃ r s', session_turn powf barriers keys p s = (r, s') ∧ fine tx s' ∧ ((∃ b, r = Ok b) ∨ ∃ err, r = Err err).
Proof.
  intros Hp Hf. unfold session_turn, mbind at 1, ST_bind at 1, get_st. cbn beta iota.
  destruct p as [a| |ok|ok| |flushed e|]; cbn [reported] in Hp.
  - destruct (captured s) as [[a' k']|]; [do 2 eexists; split; [done|]; eauto|].
    destruct (activated_known a Hp) as (k & E & Hk). rewrite E. unfold mbind, ST_bind, modify_st.
    do 2 eexists. split; [done|]. split; [|eauto]. destruct Hf as [(es & E1 & H1 & H2 & H3) H4 H5]. split; cbn.
    + exists (es ++ [(k, Begin)]). rewrite E1, app_assoc. split_and!; [done| | |].
      * apply follows_snoc; [done|]. by intros.
      * apply Forall_app. by repeat constructor.
      * intros k' [= <-]. by rewrite begun_snoc.
    + by intros k' [= <-].
    + by intros a' k' [= <- <-].
  - destruct (captured s) as [[a' k']|]; do 2 eexists; (split; [done|]); eauto.
  - destruct (captured s) as [[a' k']|] eqn:Ec; [|do 2 eexists; split; [done|]; eauto].
    destruct (portal_release_spec tx ok a' k' s (f_captured _ _ Hf _ _ Ec) Hf) as (r & s1 & E & Hf1 & _ & Hr).
    unfold mbind, ST_bind, modify_st. rewrite E. destruct Hr as [->|[err ->]]; do 2 eexists; (split; [done|]); [|by eauto].
    split; [by apply (fine_ext tx s1); auto|eauto].
  - destruct (release_session s); [|do 2 eexists; split; [done|]; eauto].
    destruct (captured s) as [[a' k']|] eqn:Ec; [|do 2 eexists; split; [done|]; eauto].
    destruct (portal_release_spec tx ok a' k' s (f_captured _ _ Hf _ _ Ec) Hf) as (r & s1 & E & Hf1 & _ & Hr).
    unfold mbind, ST_bind, modify_st. rewrite E. destruct Hr as [->|[err ->]]; do 2 eexists; (split; [done|]); [|by eauto].
    split; [by apply (fine_ext tx s1); auto|eauto].
  - do 2 eexists. split; [done|]. eauto.
  - destruct (ei_task_spec tx flushed e s Hf) as (s1 & E & Hf1). unfold mbind, ST_bind. rewrite E. do 2 eexists. split; [done|]. eauto.
  - do 2 eexists. split; [done|]. split; [by apply (fine_ext tx s); auto|eauto].
Qed.

Lemma session_failed_spec tx err ps s :
  fine tx s → ∃ r s', session_failed err ps s = (r, s') ∧ fine tx s' ∧ (r = Diverge ∨ r = Err err).
Proof.
  revert s. induction ps as [|p ps IH]; intros s Hf; [do 2 eexists; split; [done|]; eauto|].
  destruct p; cbn [session_failed]; try (by apply IH).
  destruct (ei_task_spec tx flushed e s Hf) as (s1 & E & Hf1). unfold mbind, ST_bind, gets. rewrite E.
  destruct (ei_done s1); [do 2 eexists; split; [done|]; eauto|by apply IH].
Qed.
Lemma session_run_spec tx ps s :
  Forall reported ps → fine tx s →
  ∃ r s', session_run powf barriers keys ps s = (r, s') ∧ fine tx s' ∧ (r = Diverge ∨ r = Ok tt ∨ ∃ err, r = Err err).
Proof.
  intros Hp. revert s. induction Hp as [|p ps Hp _ IH]; intros s Hf; [do 2 eexists; split; [done|]; eauto|].
  cbn [session_run]. destruct (session_turn_spec tx p s Hp Hf) as (r & s1 & E & Hf1 & Hr).
  unfold mbind, ST_bind, attempt. rewrite E. destruct Hr as [[[] ->]|[err ->]].
  - by apply IH.
  - do 2 eexists. split; [done|]. eauto.
  - unfold gets. destruct (ei_done s1); [do 2 eexists; split; [done|]; eauto|].
    destruct (session_failed_spec tx err ps s1 Hf1) as (r & s2 & E2 & Hf2 & [-> | ->]); do 2 eexists; (split; [exact E2|]); eauto.
Qed.
End session.

(** * Every run of the loop *)

Definition fair (r : nat) (it : iteration) : Prop :=
  Forall sane (regions it) ∧ regions it ≠ [] ∧ (length (regions it) ≤ r)%nat ∧ Forall reported (picks it).

Lemma length_pairs clients rs : length (pairs clients rs) = (length clients * length rs)%nat.
Proof. unfold pairs. induction clients as [|k cs IH]; [done|]. rewrite bind_cons, length_app, length_fmap, IH. cbn. lia. Qed.

Section run.
Variable powf : f32 → f32 → f32.

Lemma session_spec r clients next tx it :
  fair r it → clients ≠ [] → (next + N.of_nat (length clients * r) < 2 ^ 32)%N →
  ∃ res tx' next', do_capture_session powf clients next tx it = (res, (tx', next')) ∧ res ≠ Panic ∧
    (∃ es, tx' = tx ++ es ∧ follows_begin es ∧ Forall (λ e, e.1 ∈ clients) es) ∧
    (next ≤ next' ≤ next + N.of_nat (length clients * r))%N.
Proof.
  intros (Hs & Hne & Hlen & Hp) Hc Hn. unfold do_capture_session.
  assert (∃ es : emitted, tx = tx ++ es ∧ follows_begin es ∧ Forall (λ e, e.1 ∈ clients) es) as Hnil.
  { exists []. split_and!; [by rewrite app_nil_r|apply follows_nil|constructor]. }
  destruct (connected it) as [e|]; [do 3 eexists; split; [done|]; split_and!; [done|done|lia|lia]|].
  assert (length (pairs clients (regions it)) ≤ length clients * r)%nat as Hle by (rewrite length_pairs; nia).
  destruct (select_barriers_spec (regions it) clients next Hs) as [H _].
  destruct H as (bs & keys & -> & Eb & Hin & Hdom); [lia|].
  destruct (enabled it) as [e|]; [do 3 eexists; split; [done|]; split_and!; [done|done|lia|lia]|].
  destruct (session_run_spec powf clients bs keys) with (tx := tx) (ps := picks it) (s := new_session tx) as (res & s & E & Hf & Hr).
  - intros b Hb. rewrite Eb in Hb. apply list_elem_of_lookup in Hb as [i Hi]. rewrite list_lookup_imap in Hi.
    destruct (pairs clients (regions it) !! i) as [kr|] eqn:Ei; [|done]. injection Hi as <-. cbn. rewrite (Hin i kr Ei). by eexists.
  - intros id k Hk. by apply Hdom in Hk as [? _].
  - rewrite Eb. destruct (pairs clients (regions it)) eqn:Ep; [|done].
    apply (f_equal length) in Ep. rewrite length_pairs in Ep. destruct clients, (regions it); done.
  - done.
  - split; [|done|done]. exists []. split_and!; [by rewrite app_nil_r|apply follows_nil|constructor|done].
  - rewrite E. do 3 eexists. split; [done|]. split_and!; [by destruct Hr as [->|[->|[? ->]]]| |lia|lia].
    destruct Hf as [(es & Ees & H1 & H2 & _) _ _]. eauto.
Qed.

Lemma update_active_length e cs : (length (update_active e cs) ≤ S (length cs))%nat.
Proof.
  destruct e as [[k|k]|]; cbn; [rewrite length_app; cbn; lia| |lia]. pose proof (length_filter (λ x, x ≠ k) cs). lia.
Qed.

(** Who was created. *)
Definition created_by (its : list iteration) (k : BarrierKey) : Prop :=
  Exists (λ it, woken it = ClientsChanged (Some (Create k))) its.
Record sound (its : list iteration) (l : Loop) : Prop := {
  so_events : follows_begin (sent l);
  so_keys : Forall (λ e, created_by its e.1) (sent l);
  so_clients : ∀ k, k ∈ active_clients l → created_by its k
}.

Lemma turn_spec r before it l :
  fair r it → sound before l → (next_barrier_id l + N.of_nat (length (active_clients l) * r) < 2 ^ 32)%N →
  ∃ res l', do_capture_turn powf it l = (res, l') ∧ res ≠ Panic ∧ sound (before ++ [it]) l' ∧
    (next_barrier_id l' ≤ next_barrier_id l + N.of_nat (length (active_clients l) * r))%N ∧
    (length (active_clients l') ≤ S (length (active_clients l)))%nat.
Proof.
  intros Hf [H1 H2 H3] Hn.
  assert (∀ k, created_by before k → created_by (before ++ [it]) k) as Hmono.
  { intros k Hk. apply Exists_app. by left. }
  assert (∀ l1, active_clients l1 = active_clients l → sound (before ++ [it]) l1 →
    sound (before ++ [it]) (mkLoop (update_active (clients_event (woken it)) (active_clients l1)) (next_barrier_id l1)
      (monitors_tx l1) (has_session l1) (cancelled l1 || exits (woken it)) (sent l1))) as Hup.
  { intros l1 Ea [S1 S2 S3]. split; cbn; [done|done|]. intros k Hk.
    destruct (clients_event (woken it)) as [[k'|k']|] eqn:Ew; cbn in Hk.
    - apply elem_of_app in Hk as [Hk|Hk%list_elem_of_singleton]; [by apply S3|]. subst k'. apply Exists_app. right. constructor.
      destruct (woken it); try done. cbn in Ew. by subst.
    - apply list_elem_of_filter in Hk as [_ Hk]. by apply S3.
    - by apply S3. }
  assert (sound (before ++ [it]) l) as Hl.
  { split; [done| |auto]. eapply Forall_impl; [exact H2|]. cbn. auto. }
  unfold do_capture_turn. unfold mbind at 1, ST_bind at 1, get_st. cbn beta iota.
  destruct (decide (active_clients l = [])) as [Hnil|Hne].
  { rewrite bool_decide_false by tauto. unfold when, mbind, ST_bind, mret, ST_ret, modify_st, gets.
    do 2 eexists. split; [done|]. split_and!; [done|by apply Hup|cbn; lia|cbn; apply update_active_length]. }
  rewrite bool_decide_true by done. unfold when at 1, active_turn, mbind, ST_bind, get_st. cbn beta iota.
  assert ((∃ e, when (negb (has_session l)) (match created it with Some e => raise e | None => mret tt end) l = (Err e, l)) ∨
    when (negb (has_session l)) (match created it with Some e => raise e | None => mret tt end : ST Loop CaptureError unit) l = (Ok tt, l)) as Hc.
  { destruct (has_session l); [by right|]. destruct (created it); [left; by eexists|by right]. }
  destruct Hc as [[e ->]| ->].
  { do 2 eexists. split; [done|]. split_and!; [done|done|lia|lia]. }
  destruct (session_spec r (active_clients l) (next_barrier_id l) (sent l) it Hf Hne Hn) as (res & tx & next & -> & Hres & (es & -> & He1 & He2) & Hnx).
  assert (∀ m b, sound (before ++ [it]) (mkLoop (active_clients l) next m b (cancelled l) (sent l ++ es))) as Hsnd.
  { intros m b. split; cbn; [by apply follows_app| |auto]. apply Forall_app. split; [by destruct Hl|].
    eapply Forall_impl; [exact He2|]. cbn. auto. }
  destruct res as [[]|e| |]; [| |done|].
  - unfold mbind, ST_bind, modify_st, mret, ST_ret, gets. do 2 eexists. split; [done|].
    split_and!; [done|by apply Hup|cbn; lia|cbn; apply update_active_length].
  - unfold mbind, ST_bind, modify_st, raise. do 2 eexists. split; [done|]. split_and!; [done|by apply Hsnd|cbn; lia|cbn; lia].
  - do 2 eexists. split; [done|]. split_and!; [done|by apply Hsnd|cbn; lia|cbn; lia].
Qed.
End run.

Lemma run_spec powf r its before l :
  Forall (fair r) its → sound before l →
  (next_barrier_id l + N.of_nat (length its * ((length (active_clients l) + length its) * r)) < 2 ^ 32)%N →
  ∃ res l', do_capture powf its l = (res, l') ∧ res ≠ Panic ∧ sound (before ++ its) l'.
Proof.
  intros Hf. revert before l. induction Hf as [|it its Hit Hf IH]; intros before l Hs Hn.
  { do 2 eexists. split; [done|]. by rewrite app_nil_r. }
  cbn [length] in Hn.
  destruct (turn_spec powf r before it l Hit Hs) as (res & l1 & E & Hres & Hs1 & Hnx & Hlen); [nia|].
  assert (sound (before ++ it :: its) l1) as Hall.
  { destruct Hs1 as [S1 S2 S3]. rewrite cons_middle, app_assoc. split; [done| |].
    - eapply Forall_impl; [exact S2|]. intros e He. apply Exists_app. by left.
    - intros k Hk. apply Exists_app. left. by apply S3. }
  cbn [do_capture]. unfold mbind, ST_bind. rewrite E. destruct res as [[]|e| |]; try (do 2 eexists; split; [done|]; by split).
  destruct (IH (before ++ [it]) l1 Hs1) as (res & l2 & E2 & Hr2 & Hs2); [nia|].
  do 2 eexists. split; [exact E2|]. split; [done|]. by rewrite <- app_assoc in Hs2.
Qed.

(** C21. The portal: over every run of sessions, signals, releases and events in
    which the compositor has a zone and reports where the cursor is, the task
    never panics while the ids last, every input it emits is at the barrier of
    the last [Begin], and every barrier at which it emits was created. *)
Theorem portal_contract powf ms r its :
  Forall (fair r) its → (1 + N.of_nat (length its * (length its * r)) < 2 ^ 32)%N →
  let l := snd (do_capture powf its (initial ms)) in
  fst (do_capture powf its (initial ms)) ≠ Panic ∧ follows_begin (sent l) ∧ Forall (λ e, created_by its e.1) (sent l).
Proof.
  intros Hf Hn. destruct (run_spec powf r its [] (initial ms) Hf) as (res & l' & -> & Hr & [H1 H2 _]).
  - split; cbn; [apply follows_nil|constructor|]. intros k Hk. by apply elem_of_nil in Hk.
  - cbn. lia.
  - done.
Qed.
Definition zero_powf (x y : f32) : f32 := f32_mul x x.
Definition cross : Activated := mkActivated None (Some (f32_of (-1), f32_of 500)) (Some 7%N).
(** A client is created, its barrier is crossed, the pointer moves, the task
    releases, and a second client ends the session. *)
Definition demo : list iteration :=
  [mkIteration None None None [(1920, 1080, 0, 0)] [] (ClientsChanged (Some (Create left_key))) None;
   mkIteration None None None [(1920, 1080, 0, 0)]
     [Activation cross; Ei true (Some (PointerMotion 5000 (f32_of (-3)) (f32_of 0))); NotifyRelease true; UpdateRequest; CancelSession]
     (ClientsChanged (Some (Create top_key))) None].
Lemma portal_contract_witness :
  follows_begin [(left_key, Begin); (left_key, Input (Pointer (Motion 5000 (f64_of (of_Z (-3))) (f64_of (of_Z 0)))))].
Proof.
  assert (Forall (fair 1) demo) as Hf.
  { repeat constructor; cbn; try done; lia. }
  pose proof (portal_contract zero_powf [] 1 demo Hf eq_refl) as (_ & H & _). vm_compute in H. vm_compute. exact H.
Defined.

(** * Where it fails *)

(** The events of libei that leave their task running. *)
Definition goes_on (p : pick) : Prop :=
  match p with
  | Ei flushed (Some e) => match e with Disconnected _ => False | SeatAdded => flushed = true | _ => True end
  | Ei _ None => False
  | _ => True
  end.
Definition inputs_of (key : BarrierKey) (p : pick) : emitted :=
  match p with
  | Ei _ (Some e) =>
      match e with
      | SeatAdded | SeatRemoved | DeviceRemoved | DevicePaused | DeviceResumed | DeviceStartEmulating | DeviceStopEmulating
      | Disconnected _ => []
      | _ => (λ i, (key, Input i)) <$> to_input_events e
      end
  | _ => []
  end.

Lemma failed_goes_on err ps key s :
  Forall goes_on ps → current_key s = Some key → ei_done s = false →
  ∃ s', session_failed err ps s = (Diverge, s') ∧ event_tx s' = event_tx s ++ (ps ≫= inputs_of key).
Proof.
  intros Hp. revert s. induction Hp as [|p ps Hp _ IH]; intros s Hk Hd; [exists s; by rewrite app_nil_r|].
  destruct p as [a| |ok|ok| |flushed e|]; cbn [session_failed]; try (by apply IH).
  destruct e as [e|]; [|done]. rewrite bind_cons.
  assert (∃ s1, ei_task flushed (Some e) s = (Ok tt, s1) ∧ current_key s1 = Some key ∧ ei_done s1 = false ∧
    event_tx s1 = event_tx s ++ inputs_of key (Ei flushed (Some e))) as (s1 & E & Hk1 & Hd1 & He1).
  { unfold ei_task, mbind, ST_bind, gets, attempt. rewrite Hd, Hk.
    destruct e; cbn in Hp |- *; try done; try subst flushed; eexists; (split; [reflexivity|]); cbn; rewrite ?app_nil_r; done. }
  unfold mbind at 1, ST_bind at 1. rewrite E. unfold mbind at 1, ST_bind at 1, gets. rewrite Hd1.
  destruct (IH s1 Hk1 Hd1) as (s2 & E2 & He2). exists s2. split; [exact E2|]. by rewrite He2, He1, app_assoc.
Qed.

(** When the portal refuses a release, the session neither ends nor is it
    made anew: whatever is asked of it afterwards, it goes on sending the inputs
    of the user to the peer until the compositor closes the connection. *)
Theorem refused_release powf barriers keys a key ps s :
  captured s = Some (a, key) → current_key s = Some key → is_Some (cursor_position a) → ei_done s = false →
  Forall goes_on ps →
  ∃ s', session_run powf barriers keys (NotifyRelease false :: ps) s = (Diverge, s') ∧
    event_tx s' = event_tx s ++ (ps ≫= inputs_of key).
Proof.
  intros Hc Hk [[x y] Ha] Hd Hp. cbn [session_run]. unfold session_turn, mbind, ST_bind, get_st, attempt. rewrite Hc.
  unfold release_capture. rewrite Ha.
  destruct (key_pos key); unfold mbind, ST_bind, modify_st, raise, gets; cbn [ei_done log_release]; rewrite Hd;
    match goal with |- ∃ s', session_failed _ _ ?s1 = _ ∧ _ =>
      destruct (failed_goes_on (Platform "portal") ps key s1 Hp Hk Hd) as (s' & E & He) end;
    exists s'; (split; [exact E|exact He]).
Qed.
Definition entered : Session := mkSession (Some left_key) (Some (cross, left_key)) false false false [(left_key, Begin)] [].
Lemma refused_release_witness :
  ∃ s', session_run zero_powf [] ∅ [NotifyRelease false; UpdateRequest; CancelSession; Ei true (Some (KeyboardKey 0 30 true))] entered = (Diverge, s') ∧
    event_tx s' = [(left_key, Begin); (left_key, Input (Keyboard (Key 0 30 1)))].
Proof.
  destruct (refused_release zero_powf [] ∅ cross left_key [UpdateRequest; CancelSession; Ei true (Some (KeyboardKey 0 30 true))] entered)
    as (s' & E & He); [done|done|by eexists|done|by repeat constructor|].
  exists s'. split; [exact E|exact He].
Defined.

Lemma turn_monitors powf it l :
  monitors_tx (snd (do_capture_turn powf it l)) = monitors_tx l ∨ (active_clients l ≠ [] ∧ woken it = ZonesChanged).
Proof.
  unfold do_capture_turn, mbind, ST_bind, get_st. cbn beta iota.
  destruct (decide (active_clients l = [])) as [Hn|Hne]; [left; by rewrite bool_decide_false by tauto|].
  rewrite bool_decide_true by done. unfold when at 1, active_turn, mbind, ST_bind, get_st. cbn beta iota.
  assert (∃ r, when (negb (has_session l)) (match created it with Some e => raise e | None => mret tt end : ST Loop CaptureError unit) l = (r, l)) as [r ->].
  { destruct (has_session l), (created it); eexists; reflexivity. }
  destruct r; [|by left..]. destruct (do_capture_session _ _ _ _ _) as [res [tx next]].
  destruct (woken it) eqn:Ew; destruct res; auto.
Qed.

(** The published monitors change only in an iteration that has a session
    and is woken by the change of the zones itself: a change while no client is
    active is used up without a trace, and stays unpublished through all
    sessions that end for another reason. *)
Theorem zones_missed powf it its l :
  (monitors_tx (snd (do_capture_turn powf it l)) ≠ monitors_tx l → active_clients l ≠ [] ∧ woken it = ZonesChanged) ∧
  (Forall (λ it, woken it ≠ ZonesChanged) its → monitors_tx (snd (do_capture powf its l)) = monitors_tx l).
Proof.
  split; [intros H; by destruct (turn_monitors powf it l)|].
  intros Hf. revert l. induction Hf as [|it' its Hw _ IH]; intros l; [done|].
  cbn [do_capture]. unfold mbind, ST_bind.
  assert (monitors_tx (snd (do_capture_turn powf it' l)) = monitors_tx l) as E by (by destruct (turn_monitors powf it' l) as [|[]]).
  destruct (do_capture_turn powf it' l) as [[[]|e| |] l']; cbn in E; [|done..]. by rewrite IH.
Qed.
Definition left_client : Loop := mkLoop [left_key] 1 [] true false [].
Definition plugged : iteration :=
  mkIteration None None None [(1920, 1080, 0, 0)] [UpdateRequest; CancelSession] ZonesChanged (Some [(1920, 1080, 0, 0)]).
Lemma zones_missed_witness :
  monitors_tx (snd (do_capture_turn zero_powf plugged left_client)) ≠ [] ∧ woken plugged = ZonesChanged ∧
  monitors_tx (snd (do_capture zero_powf demo (snd (do_capture_turn zero_powf plugged (initial []))))) = [].
Proof.
  destruct (zones_missed zero_powf plugged [] left_client) as [H _].
  split; [vm_compute; discriminate|]. split; [apply H; vm_compute; discriminate|].
  destruct (zones_missed zero_powf plugged demo (snd (do_capture_turn zero_powf plugged (initial [])))) as [_ H'].
  rewrite H'; [reflexivity|]. by repeat constructor.
Defined.
