(* ===== verification/WinEmulation.v ===== *)
(** The emulation backend of Windows (input-emulation/src/windows.rs), and what
    becomes of input that the capture backend of Windows took on the way to
    it.

    The inputs handed to the system are a log; [SendInput n] is what the
    [n]-th call returns.  The task that repeats a key is its key: when it is
    due, a turn [Repeat] runs it, and an aborted task does not run again. *)

From S2P Require Import Prelude InputEvent Geometry Scancode Doubles.
From S2P Require WinCapture.
#[local] Open Scope Z_scope.

(** * Inputs *)

Definition MOUSEEVENTF_MOVE : Z := 0x1.
Definition MOUSEEVENTF_LEFTDOWN : Z := 0x2.
Definition MOUSEEVENTF_LEFTUP : Z := 0x4.
Definition MOUSEEVENTF_RIGHTDOWN : Z := 0x8.
Definition MOUSEEVENTF_RIGHTUP : Z := 0x10.
Definition MOUSEEVENTF_MIDDLEDOWN : Z := 0x20.
Definition MOUSEEVENTF_MIDDLEUP : Z := 0x40.
Definition MOUSEEVENTF_XDOWN : Z := 0x80.
Definition MOUSEEVENTF_XUP : Z := 0x100.
Definition MOUSEEVENTF_WHEEL : Z := 0x800.
Definition MOUSEEVENTF_HWHEEL : Z := 0x1000.
Definition XBUTTON1 : Z := 1.
Definition XBUTTON2 : Z := 2.
Definition KEYEVENTF_EXTENDEDKEY : Z := 0x1.
Definition KEYEVENTF_KEYUP : Z := 0x2.
Definition KEYEVENTF_SCANCODE : Z := 0x8.

(** The fields that the backend sets to something else than zero. *)
Record MOUSEINPUT : Type := mkMi { dx : Z; dy : Z; mouseData : Z; mi_flags : Z }.
Record KEYBDINPUT : Type := mkKi { wScan : Z; ki_flags : Z }.
Inductive INPUT : Type := Mouse (mi : MOUSEINPUT) | Keybd (ki : KEYBDINPUT).

Record WindowsEmulation : Type := mkWin {
  repeat_task : option Z;
  calls : nat;
  inserted : list INPUT
}.
Definition new : WindowsEmulation := mkWin None 0 [].

Definition set_task (k : option Z) (s : WindowsEmulation) : WindowsEmulation := mkWin k (calls s) (inserted s).
Definition called (ok : bool) (i : INPUT) (s : WindowsEmulation) : WindowsEmulation :=
  mkWin (repeat_task s) (S (calls s)) (if ok then inserted s ++ [i] else inserted s).

(** * The backend *)

Definition linux_keycode_to_windows_scancode (linux_keycode : Z) : option Z :=
  linux ← Linux.try_from_u32 linux_keycode;
  win ← windows_of_linux linux;
  Some (wrapU 16 (Windows.to_u32 win)).

Section windows.
Variable SendInput : nat → Z.
(** How often a call is made again before the model gives up. *)
Variable retries : nat.
Abbreviation M := (ST WindowsEmulation Empty_set).

(** The loop ends when an input was submitted. *)
Fixpoint send_loop (fuel : nat) (i : INPUT) : M unit :=
  match fuel with
  | O => λ s, (Diverge, s)
  | S fuel =>
      n ← gets calls;
      if 0 <? SendInput n then modify_st (called true i)
      else modify_st (called false i) ≫= λ _, send_loop fuel i
  end.
Definition send_input_safe (i : INPUT) : M unit := send_loop (S retries) i.
Definition send_mouse_input (mi : MOUSEINPUT) : M unit := send_input_safe (Mouse mi).
Definition send_keyboard_input (ki : KEYBDINPUT) : M unit := send_input_safe (Keybd ki).

Definition rel_mouse (x y : Z) : M unit := send_mouse_input (mkMi x y 0 MOUSEEVENTF_MOVE).

Definition mouse_button (button state : Z) : M unit :=
  let is_ b := button =? b in
  let dw_flags :=
    if state =? 0 then
      if is_ BTN_LEFT then Some MOUSEEVENTF_LEFTUP
      else if is_ BTN_RIGHT then Some MOUSEEVENTF_RIGHTUP
      else if is_ BTN_MIDDLE then Some MOUSEEVENTF_MIDDLEUP
      else if is_ BTN_BACK then Some MOUSEEVENTF_XUP
      else if is_ BTN_FORWARD then Some MOUSEEVENTF_XUP else None
    else if state =? 1 then
      if is_ BTN_LEFT then Some MOUSEEVENTF_LEFTDOWN
      else if is_ BTN_RIGHT then Some MOUSEEVENTF_RIGHTDOWN
      else if is_ BTN_MIDDLE then Some MOUSEEVENTF_MIDDLEDOWN
      else if is_ BTN_BACK then Some MOUSEEVENTF_XDOWN
      else if is_ BTN_FORWARD then Some MOUSEEVENTF_XDOWN else None
    else None in
  let mouse_data := if is_ BTN_BACK then XBUTTON1 else if is_ BTN_FORWARD then XBUTTON2 else 0 in
  match dw_flags with
  | None => mret tt
  | Some dw_flags => send_mouse_input (mkMi 0 0 mouse_data dw_flags)
  end.

(** The negation panics when it overflows in a build that checks. *)
Definition scroll (axis value : Z) : M unit :=
  match (if axis =? 0 then Some MOUSEEVENTF_WHEEL else if axis =? 1 then Some MOUSEEVENTF_HWHEEL else None) with
  | None => mret tt
  | Some event_type =>
      if decide (inS 32 (- value)) then send_mouse_input (mkMi 0 0 (wrapU 32 (- value)) event_type) else panic
  end.

Definition key_event (key state : Z) : M unit :=
  match linux_keycode_to_windows_scancode key with
  | None => mret tt
  | Some scancode =>
      let extended := 0xff <? scancode in
      let flags := KEYEVENTF_SCANCODE in
      let flags := if extended then Z.lor flags KEYEVENTF_EXTENDEDKEY else flags in
      let flags := if state =? 0 then Z.lor flags KEYEVENTF_KEYUP else flags in
      send_keyboard_input (mkKi (Z.land scancode 0xff) flags)
  end.

Definition kill_repeat_task : M unit := modify_st (set_task None).
Definition spawn_repeat_task (key : Z) : M unit := kill_repeat_task ≫= λ _, modify_st (set_task (Some key)).

Definition consume (event : Event) : M unit :=
  match event with
  | Pointer (Motion _ x y) => rel_mouse (as_signed 32 (double_of x)) (as_signed 32 (double_of y))
  | Pointer (Button _ button state) => mouse_button button state
  | Pointer (Axis _ axis value) => scroll axis (as_signed 32 (double_of value))
  | Pointer (AxisDiscrete120 axis value) => scroll axis value
  | Keyboard (Key _ key state) =>
      (if state =? 0 then kill_repeat_task else if state =? 1 then spawn_repeat_task key else mret tt) ≫= λ _,
      key_event key state
  | Keyboard (Modifiers _ _ _ _) => mret tt
  end.

(** * Runs *)

Inductive turn : Type := Consume (e : Event) | Repeat.
Definition step (t : turn) : M unit :=
  match t with
  | Consume e => consume e
  | Repeat => k ← gets repeat_task; match k with None => mret tt | Some key => key_event key 1 end
  end.
Definition run (ts : list turn) : M unit := for_each step ts.
End windows.

(** * What it promises

    Every event is to become at most one input; a table of the five buttons
    with their flags for up and down and the number of an extra button. *)

Definition buttons : list (Z * (Z * Z * Z)) :=
  [(BTN_LEFT, (0x4, 0x2, 0)); (BTN_RIGHT, (0x10, 0x8, 0)); (BTN_MIDDLE, (0x40, 0x20, 0));
   (BTN_BACK, (0x100, 0x80, 1)); (BTN_FORWARD, (0x100, 0x80, 2))].
Definition lookup_button (b : Z) : option (Z * Z * Z) := snd <$> find (λ r, fst r =? b) buttons.

Definition wheel (axis value : Z) : list INPUT :=
  if axis =? 0 then [Mouse (mkMi 0 0 (wrapU 32 (- value)) 0x800)]
  else if axis =? 1 then [Mouse (mkMi 0 0 (wrapU 32 (- value)) 0x1000)] else [].
(** A key that Windows has: the low byte of its scan code, with the flags of
    an extended code and of a release. *)
Definition key_inputs (key state : Z) : list INPUT :=
  match Linux.try_from_u32 key ≫= windows_of_linux with
  | None => []
  | Some win =>
      let code := Windows.to_u32 win mod 2 ^ 16 in
      [Keybd (mkKi (code mod 2 ^ 8) (8 + (if 2 ^ 8 <=? code then 1 else 0) + (if state =? 0 then 2 else 0)))]
  end.
Definition inputs_of (e : Event) : list INPUT :=
  match e with
  | Pointer (Motion _ x y) => [Mouse (mkMi (as_signed 32 (double_of x)) (as_signed 32 (double_of y)) 0 1)]
  | Pointer (Button _ b state) =>
      match lookup_button b with
      | Some (up, down, data) =>
          if state =? 0 then [Mouse (mkMi 0 0 data up)] else if state =? 1 then [Mouse (mkMi 0 0 data down)] else []
      | None => []
      end
  | Pointer (Axis _ axis value) => wheel axis (as_signed 32 (double_of value))
  | Pointer (AxisDiscrete120 axis value) => wheel axis value
  | Keyboard (Key _ key state) => key_inputs key state
  | Keyboard (Modifiers _ _ _ _) => []
  end.
Definition repeating (r : option Z) (e : Event) : option Z :=
  match e with
  | Keyboard (Key _ key state) => if state =? 0 then None else if state =? 1 then Some key else r
  | _ => r
  end.
Fixpoint expected (r : option Z) (ts : list turn) : list INPUT * option Z :=
  match ts with
  | [] => ([], r)
  | Consume e :: ts => let '(ins, r') := expected (repeating r e) ts in (inputs_of e ++ ins, r')
  | Repeat :: ts => let '(ins, r') := expected r ts in (from_option (λ k, key_inputs k 1) [] r ++ ins, r')
  end.

(** The one value whose negation overflows. *)
Definition negatable (t : turn) : Prop :=
  match t with
  | Consume (Pointer (Axis _ axis v)) => (axis = 0 ∨ axis = 1) → as_signed 32 (double_of v) ≠ - 2 ^ 31
  | Consume (Pointer (AxisDiscrete120 axis v)) => (axis = 0 ∨ axis = 1) → v ≠ - 2 ^ 31
  | _ => True
  end.
Definition turn_wf (t : turn) : Prop := match t with Consume e => event_wf e | Repeat => True end.

(** The system takes an input at the latest after [n] refusals. *)
Definition accepts (SendInput : nat → Z) (n : nat) : Prop := ∀ m, ∃ k, (k ≤ n)%nat ∧ 0 < SendInput (m + k)%nat.
(** It never does: the desktop is locked, or another process blocks input. *)
Definition refuses (SendInput : nat → Z) : Prop := ∀ m, SendInput m ≤ 0.

(** The flags of a key as sums of distinct bits. *)
Lemma key_flags (code state : Z) :
  let flags := if 255 <? code then Z.lor 8 1 else 8 in
  (if state =? 0 then Z.lor flags 2 else flags) =
  8 + (if 2 ^ 8 <=? code then 1 else 0) + (if state =? 0 then 2 else 0).
Proof.
  cbn zeta. change (2 ^ 8) with 256. destruct (Z.ltb_spec 255 code), (Z.leb_spec 256 code); try lia;
    by destruct (state =? 0).
Qed.

Section windows_laws.
Context (SendInput : nat → Z) (retries : nat).
Abbreviation M := (ST WindowsEmulation Empty_set).

(** The call injects [ins] and leaves [r] repeating. *)
Definition injects (ins : list INPUT) (r : option Z) (m : M unit) : Prop := ∀ s,
  wp m (λ _ s', inserted s' = inserted s ++ ins ∧ repeat_task s' = r) s.
Definition keeps_task (ins : list INPUT) (m : M unit) : Prop := ∀ s,
  wp m (λ _ s', inserted s' = inserted s ++ ins ∧ repeat_task s' = repeat_task s) s.

Lemma send_loop_ok i k fuel s :
  (k < fuel)%nat → 0 < SendInput (calls s + k)%nat →
  wp (send_loop SendInput fuel i) (λ _ s', inserted s' = inserted s ++ [i] ∧ repeat_task s' = repeat_task s) s.
Proof.
  revert k s. induction fuel as [|fuel IH]; intros k s Hk H; [lia|]. cbn. wp.
  destruct (Z.ltb_spec 0 (SendInput (calls s))) as [H0|H0]; [done|]. wp.
  destruct k as [|k]; [rewrite Nat.add_0_r in H; lia|].
  refine (IH k (called false i s) _ _); [lia|]. cbn. by replace (S (calls s + k)) with (calls s + S k)%nat by lia.
Qed.
Lemma send_ok i : accepts SendInput retries → keeps_task [i] (send_input_safe SendInput retries i).
Proof. intros Ha s. destruct (Ha (calls s)) as (k & Hk & H). apply (send_loop_ok i k); [lia|done]. Qed.
Lemma nothing_ok : keeps_task [] (mret tt).
Proof. intros s. wp. by rewrite app_nil_r. Qed.

Lemma send_loop_refused i fuel s : refuses SendInput → ∃ s', send_loop SendInput fuel i s = (Diverge, s') ∧ inserted s' = inserted s.
Proof.
  intros Hr. revert s. induction fuel as [|fuel IH]; intros s; [by eexists|]. cbn. unfold mbind, ST_bind, gets. cbn.
  destruct (Z.ltb_spec 0 (SendInput (calls s))) as [H|_]; [specialize (Hr (calls s)); lia|]. cbn.
  destruct (IH (called false i s)) as (s' & E & Hi). by exists s'.
Qed.

(** The translations of the code and of the table agree: [m] sends exactly
    the inputs of the table, whatever sending one does. *)
Definition sends (ins : list INPUT) : M unit :=
  match ins with [] => mret tt | i :: _ => send_input_safe SendInput retries i end.

Lemma mouse_button_eq b st : mouse_button SendInput retries b st = sends (inputs_of (Pointer (Button 0 b st))).
Proof.
  unfold mouse_button, inputs_of, lookup_button, buttons. cbn [find fst].
  repeat match goal with |- context [BTN_LEFT =? b] => rewrite (Z.eqb_sym _ b) end.
  rewrite (Z.eqb_sym BTN_RIGHT b), (Z.eqb_sym BTN_MIDDLE b), (Z.eqb_sym BTN_BACK b), (Z.eqb_sym BTN_FORWARD b).
  destruct (Z.eqb_spec b BTN_LEFT) as [->|?]; [by destruct (st =? 0), (st =? 1)|].
  destruct (Z.eqb_spec b BTN_RIGHT) as [->|?]; [by destruct (st =? 0), (st =? 1)|].
  destruct (Z.eqb_spec b BTN_MIDDLE) as [->|?]; [by destruct (st =? 0), (st =? 1)|].
  destruct (Z.eqb_spec b BTN_BACK) as [->|?]; [by destruct (st =? 0), (st =? 1)|].
  destruct (Z.eqb_spec b BTN_FORWARD) as [->|?]; by destruct (st =? 0), (st =? 1).
Qed.
Lemma key_event_eq key st : key_event SendInput retries key st = sends (key_inputs key st).
Proof.
  unfold key_event, linux_keycode_to_windows_scancode, key_inputs.
  destruct (Linux.try_from_u32 key) as [l|]; [|done]. cbn. destruct (windows_of_linux l) as [w|]; [|done]. cbn.
  unfold send_keyboard_input, KEYEVENTF_SCANCODE, KEYEVENTF_EXTENDEDKEY, KEYEVENTF_KEYUP.
  rewrite key_flags. change 0xff with (Z.ones 8). by rewrite Z.land_ones by lia.
Qed.
Lemma scroll_eq axis v :
  inS 32 v → ((axis = 0 ∨ axis = 1) → v ≠ - 2 ^ 31) → scroll SendInput retries axis v = sends (wheel axis v).
Proof.
  intros Hv Hn. assert (axis = 0 ∨ axis = 1 → inS 32 (- v)) as Hs.
  { intros Ha. specialize (Hn Ha). unfold inS in *. change (2 ^ (32 - 1)) with (2 ^ 31) in *. lia. }
  unfold scroll, wheel. destruct (Z.eqb_spec axis 0) as [->|H0]; [by rewrite decide_True by auto|].
  destruct (Z.eqb_spec axis 1) as [->|H1]; [by rewrite decide_True by auto|done].
Qed.

Lemma sends_ok ins : accepts SendInput retries → (length ins ≤ 1)%nat → keeps_task ins (sends ins).
Proof. intros Ha Hl. destruct ins as [|i []]; [apply nothing_ok|by apply send_ok|cbn in Hl; lia]. Qed.
Lemma wheel_short axis v : (length (wheel axis v) ≤ 1)%nat.
Proof. unfold wheel. repeat case_match; cbn; lia. Qed.
Lemma key_short key st : (length (key_inputs key st) ≤ 1)%nat.
Proof. unfold key_inputs. case_match; cbn; lia. Qed.
Lemma button_short t b st : (length (inputs_of (Pointer (Button t b st))) ≤ 1)%nat.
Proof. cbn [inputs_of]. repeat case_match; cbn; lia. Qed.

Lemma inject_event e s :
  accepts SendInput retries → event_wf e → negatable (Consume e) →
  wp (consume SendInput retries e)
    (λ _ s', inserted s' = inserted s ++ inputs_of e ∧ repeat_task s' = repeating (repeat_task s) e) s.
Proof.
  intros Ha Hw Hn. destruct e as [[t x y|t b st|t axis v|axis v]|[t key st|]]; cbn [consume repeating].
  - by apply send_ok.
  - rewrite mouse_button_eq. by apply sends_ok; [|apply (button_short 0)].
  - rewrite scroll_eq; [by apply sends_ok; [|apply wheel_short]| |done].
    by apply as_signed_range.
  - rewrite scroll_eq; [by apply sends_ok; [|apply wheel_short]|by destruct Hw|done].
  - wp. rewrite key_event_eq.
    assert (∀ s0, inserted s0 = inserted s → wp (sends (key_inputs key st)) (λ _ s', inserted s' = inserted s ++ key_inputs key st ∧ repeat_task s' = repeat_task s0) s0) as Hk.
    { intros s0 <-. apply sends_ok; [done|apply key_short]. }
    destruct (st =? 0); [by apply (Hk (set_task None s))|].
    destruct (st =? 1); [by apply (Hk (set_task (Some key) s))|by apply Hk].
  - apply nothing_ok.
Qed.

Lemma inject_run ts s :
  accepts SendInput retries → Forall turn_wf ts → Forall negatable ts →
  wp (run SendInput retries ts)
    (λ _ s', inserted s' = inserted s ++ fst (expected (repeat_task s) ts) ∧
             repeat_task s' = snd (expected (repeat_task s) ts)) s.
Proof.
  intros Ha Hw Hn. revert s. induction ts as [|t ts IH]; intros s; [by cbn; wp; rewrite app_nil_r|].
  inversion_clear Hw. inversion_clear Hn. cbn [run for_each expected]. wp.
  set (now := match t with Consume e => inputs_of e | Repeat => from_option (λ k, key_inputs k 1) [] (repeat_task s) end).
  set (r := match t with Consume e => repeating (repeat_task s) e | Repeat => repeat_task s end).
  apply (wp_mono _ (λ _ s', inserted s' = inserted s ++ now ∧ repeat_task s' = r)).
  - destruct t as [e|]; [by apply inject_event|]. cbn. wp. subst now r. destruct (repeat_task s) as [k|] eqn:E; [|by wp; rewrite app_nil_r].
    rewrite key_event_eq. pose proof (sends_ok _ Ha (key_short k 1) s) as Hs. by rewrite E in Hs.
  - intros [] s1 [E1 E2]. eapply wp_mono; [by apply (IH H0 H2)|]. cbn beta. intros [] s2 [E3 E4]. rewrite E2 in *.
    rewrite E3, E1, <- app_assoc. subst now r. by destruct t; cbn; destruct (expected _ ts).
Qed.
End windows_laws.

(** ** The repeating key *)

(** No key is pressed or released in [ts]. *)
Definition quiet (ts : list turn) : Prop := ∀ t k st, Consume (Keyboard (Key t k st)) ∈ ts → st ≠ 0 ∧ st ≠ 1.
(** [k] is pressed in [ts], and then no key is pressed or released. *)
Definition last_pressed (k : Z) (ts : list turn) : Prop :=
  ∃ ts1 t ts2, ts = ts1 ++ Consume (Keyboard (Key t k 1)) :: ts2 ∧ quiet ts2.

Definition next (r : option Z) (t : turn) : option Z := match t with Consume e => repeating r e | Repeat => r end.
Lemma expected_next r t ts : snd (expected r (t :: ts)) = snd (expected (next r t) ts).
Proof. destruct t; cbn; by destruct (expected _ ts). Qed.

Lemma quiet_cons t ts : quiet (t :: ts) ↔ (∀ u k st, t = Consume (Keyboard (Key u k st)) → st ≠ 0 ∧ st ≠ 1) ∧ quiet ts.
Proof.
  unfold quiet. split.
  - intros H. split; [intros u k st ->; eapply H; by left|intros u k st Hin; eapply H; by right].
  - intros [H1 H2] u k st [E|Hin]%elem_of_cons; [by eapply H1|by eapply H2].
Qed.
Lemma last_pressed_cons k t ts :
  last_pressed k (t :: ts) ↔ last_pressed k ts ∨ ((∃ u, t = Consume (Keyboard (Key u k 1))) ∧ quiet ts).
Proof.
  split.
  - intros (ts1 & u & ts2 & E & Hq). destruct ts1 as [|t1 ts1]; injection E as -> ->; [by right; eauto|left].
    by exists ts1, u, ts2.
  - intros [(ts1 & u & ts2 & -> & Hq)|[[u ->] Hq]]; [by exists (t :: ts1), u, ts2|by exists [], u, ts].
Qed.

Lemma expected_last r k ts : snd (expected r ts) = Some k ↔ last_pressed k ts ∨ (r = Some k ∧ quiet ts).
Proof.
  revert r. induction ts as [|t ts IH]; intros r.
  - cbn. split; [intros ->; right; split; [done|intros ??? []%elem_of_nil]|].
    intros [(ts1 & u & ts2 & E & _)|[-> _]]; [by destruct ts1|done].
  - rewrite expected_next, IH, last_pressed_cons, quiet_cons.
    destruct t as [[p|[u key st|]]|]; cbn [next repeating]; try naive_solver.
    destruct (Z.eqb_spec st 0) as [->|H0]; [naive_solver lia|].
    destruct (Z.eqb_spec st 1) as [->|H1]; [|naive_solver]. split.
    + intros [Hl|[Ek Hq]]; [by do 2 left|]. injection Ek as ->. left. right. by eauto.
    + intros [[Hl|[[u' Ek] Hq]]|[_ [Hq _]]]; [by left| |by destruct (Hq u key 1 eq_refl)].
      injection Ek as _ ->. by right.
Qed.

(** ** Scan codes *)

Definition fits (l : Linux.Linux) : bool :=
  match windows_of_linux l with
  | None => true
  | Some w =>
      let code := Windows.to_u32 w in
      ((0 <=? code) && (code <? 2 ^ 8)) || ((2 ^ 8 <=? code) && (code <? 2 ^ 16) && (code =? 0xE000 + code mod 2 ^ 8))
      || bool_decide (l = Linux.KeyPause)
  end.
Lemma all_fit l : fits l = true.
Proof. revert l. apply (linux_forall _). lazymatch goal with |- _ = _ => vm_compute; reflexivity end. Qed.
Lemma code_fits l w :
  windows_of_linux l = Some w → l ≠ Linux.KeyPause →
  let code := Windows.to_u32 w in
  0 ≤ code < 2 ^ 8 ∨ 2 ^ 8 ≤ code < 2 ^ 16 ∧ code = 0xE000 + code mod 2 ^ 8.
Proof.
  intros E Hl. pose proof (all_fit l) as H. unfold fits in H. rewrite E in H. cbn zeta.
  rewrite (bool_decide_false _ Hl), orb_false_r in H.
  apply orb_true_iff in H as [[Ha%Z.leb_le Hb%Z.ltb_lt]%andb_true_iff|[[H1%Z.leb_le H2%Z.ltb_lt]%andb_true_iff H3%Z.eqb_eq]%andb_true_iff]; [left; lia|].
  right. split; [by split|exact H3].
Qed.

(** What the capture of Windows makes of a scan code of one byte comes back
    as that scan code, but for the two below. *)
Definition same_key (scan : Z) (ext : bool) : bool :=
  match WinCapture.to_key_event WinCapture.WM_KEYDOWN (WinCapture.mkKbd scan ext) with
  | Some (Key _ key _) =>
      match Linux.try_from_u32 key ≫= windows_of_linux with
      | Some w => let code := Windows.to_u32 w mod 2 ^ 16 in (code mod 2 ^ 8 =? scan) && Bool.eqb (2 ^ 8 <=? code) ext
      | None => false
      end
  | _ => true
  end.
Definition excepted (scan : Z) (ext : bool) : bool := (scan =? 0xff) || ((scan =? 0x36) && ext).
Lemma all_same_key : forallb (λ scan, forallb (λ ext, same_key scan ext || excepted scan ext) [true; false]) (seqZ 0 256) = true.
Proof. vm_compute. reflexivity. Qed.
Lemma same_key_ok scan ext : inU 8 scan → excepted scan ext = false → same_key scan ext = true.
Proof.
  intros Hs He. pose proof (proj1 (forallb_forall _ _) all_same_key scan) as H.
  rewrite <- list_elem_of_In in H. specialize (H (proj2 (elem_of_seqZ 0 256 scan) Hs)).
  pose proof (proj1 (forallb_forall _ _) H ext) as H'. cbn beta in H'. rewrite He, orb_false_r in H'.
  apply H', list_elem_of_In. destruct ext; rewrite !elem_of_cons; auto.
Qed.

(** The code of a key does not depend on whether it goes up or down. *)
Definition is_up (w : WinCapture.KeyMessage) : bool :=
  match w with WinCapture.WM_KEYUP | WinCapture.WM_SYSKEYUP => true | _ => false end.
Lemma captured_key w kb e :
  WinCapture.to_key_event w kb = Some e →
  ∃ key, e = Key 0 key (if is_up w then 0 else 1) ∧ WinCapture.to_key_event WinCapture.WM_KEYDOWN kb = Some (Key 0 key 1).
Proof.
  unfold WinCapture.to_key_event. destruct (Windows.try_from_u32 _) as [win|]; [|done]. cbn.
  destruct (linux_of_windows win) as [l|]; [|done]. cbn. destruct w; intros [= <-]; by eexists.
Qed.
Lemma relayed_key w kb e :
  WinCapture.to_key_event w kb = Some e → inU 8 (WinCapture.scan_code kb) →
  excepted (WinCapture.scan_code kb) (WinCapture.extended kb) = false →
  inputs_of (Keyboard e) =
    [Keybd (mkKi (WinCapture.scan_code kb) (8 + (if WinCapture.extended kb then 1 else 0) + (if is_up w then 2 else 0)))].
Proof.
  intros (key & -> & Hd)%captured_key Hs He. apply (same_key_ok _ _ Hs) in He. destruct kb as [scan ext].
  cbn [WinCapture.scan_code WinCapture.extended] in *. unfold same_key in He. rewrite Hd in He. cbn [inputs_of]. unfold key_inputs.
  destruct (_ ≫= _) as [win|]; [|done]. apply andb_true_iff in He as [->%Z.eqb_eq Hx%Bool.eqb_prop]. rewrite Hx.
  by destruct (is_up w).
Qed.

(** * Properties *)

(** As long as the system takes an input after at most [n] refusals, any
    sequence of events and wake-ups of the repeating task ends, and the inputs
    handed over are, in order, those of the table; the key that repeats is the
    last one pressed, as long as no key was released since. *)
Theorem injects_inputs SendInput n ts :
  accepts SendInput n → Forall turn_wf ts → Forall negatable ts →
  ∃ s, run SendInput n ts new = (Ok tt, s) ∧ inserted s = fst (expected None ts) ∧
    ∀ k, repeat_task s = Some k ↔ last_pressed k ts.
Proof.
  intros Ha Hw Hn. pose proof (inject_run SendInput n ts new Ha Hw Hn) as H.
  apply wp_Ok in H as ([] & s & E & Ei & Er). exists s. split_and!; [done|by rewrite Ei|].
  intros k. rewrite Er, expected_last. cbn. naive_solver.
Qed.
Definition typed : list turn :=
  [Consume (Keyboard (Key 0 30 1)); Repeat; Consume (Pointer (Button 0 BTN_BACK 1)); Consume (Keyboard (Key 0 48 0)); Repeat].
Lemma injects_inputs_witness :
  ∃ s, run (λ n, if Nat.even n then 0 else 1) 1 typed new = (Ok tt, s) ∧
    inserted s = [Keybd (mkKi 30 8); Keybd (mkKi 30 8); Mouse (mkMi 0 0 1 0x80); Keybd (mkKi 48 10)].
Proof.
  destruct (injects_inputs (λ n, if Nat.even n then 0 else 1) 1 typed) as (s & E & Ei & _).
  - intros m. destruct (Nat.even m) eqn:Em; [exists 1%nat|exists 0%nat].
    + rewrite Nat.even_add, Em. split; [lia|done].
    + rewrite Nat.add_0_r, Em. split; [lia|done].
  - unfold typed. repeat (apply Forall_cons; split; [cbn; unfold inU, BTN_BACK; try lia; done|]). by apply Forall_nil.
  - unfold typed. by repeat (apply Forall_cons; split).
  - exists s. split; [done|]. by rewrite Ei.
Defined.

(** While the system refuses input (a locked desktop, a process with
    more rights in front), the first event that becomes an input never
    returns: the loop tries again at once, for ever. *)
Theorem refused_forever SendInput n e s :
  refuses SendInput → event_wf e → negatable (Consume e) → inputs_of e ≠ [] →
  ∃ s', consume SendInput n e s = (Diverge, s') ∧ inserted s' = inserted s.
Proof.
  intros Hr Hw Hn Hne.
  assert (∀ ins s0, ins ≠ [] → inserted s0 = inserted s → ∃ s', sends SendInput n ins s0 = (Diverge, s') ∧ inserted s' = inserted s) as Hd.
  { intros [|i ins] s0 Hi <-; [done|]. by apply (send_loop_refused SendInput i (S n)). }
  destruct e as [[t x y|t b st|t axis v|axis v]|[t key st|]]; cbn [consume].
  - by apply (Hd (inputs_of (Pointer (Motion t x y)))).
  - rewrite mouse_button_eq. by apply Hd.
  - rewrite scroll_eq; [by apply Hd| |done]. by apply as_signed_range.
  - rewrite scroll_eq; [by apply Hd|by destruct Hw|done].
  - unfold kill_repeat_task, spawn_repeat_task.
    destruct (st =? 0); [|destruct (st =? 1)]; cbn; unfold mbind, ST_bind; cbn; rewrite key_event_eq; by apply Hd.
  - done.
Qed.
Lemma refused_forever_witness :
  ∃ s', consume (λ _, 0) 1000 (Pointer (Motion 0 (F64 0) (F64 0))) new = (Diverge, s') ∧ inserted s' = [].
Proof. apply refused_forever; [done|cbn; unfold inU; cbn; lia|done|done]. Defined.


(** ** Between two Windows machines *)

Definition injected (SendInput : nat → Z) (n : nat) (e : Event) (ins : list INPUT) : Prop :=
  ∃ s, consume SendInput n e new = (Ok tt, s) ∧ inserted s = ins.
Lemma injected_ok SendInput n e :
  accepts SendInput n → event_wf e → negatable (Consume e) → injected SendInput n e (inputs_of e).
Proof.
  intros Ha Hw Hn. apply (inject_event _ _ e new Ha Hw) in Hn. apply wp_Ok in Hn as ([] & s & E & Hi & _). by exists s.
Qed.

(** The turn of a wheel, in the upper half of the word. *)
Definition delta (m : WinCapture.Mouse) : Z := Z.shiftr (wrapS 32 (WinCapture.mouse_data m)) 16.
Lemma delta_range m : - 2 ^ 15 ≤ delta m < 2 ^ 15.
Proof.
  unfold delta. assert (- 2 ^ 31 ≤ wrapS 32 (WinCapture.mouse_data m) < 2 ^ 31) as H.
  { unfold wrapS. change (2 ^ (32 - 1)) with (2 ^ 31).
    pose proof (Z.mod_pos_bound (WinCapture.mouse_data m + 2 ^ 31) (2 ^ 32) ltac:(lia)). lia. }
  rewrite Z.shiftr_div_pow2 by lia. change (2 ^ 31) with (2 ^ 15 * 2 ^ 16) in H. split.
  - apply Z.div_le_lower_bound; lia.
  - apply Z.div_lt_upper_bound; lia.
Qed.

(** The flag of the same button in an input, and the number it carries. *)
Definition button_flag (w : WinCapture.MouseMessage) (m : WinCapture.Mouse) : option (Z * Z) :=
  let x := Z.shiftr (WinCapture.mouse_data m) 16 in
  match w with
  | WinCapture.WM_LBUTTONDOWN => Some (0, MOUSEEVENTF_LEFTDOWN) | WinCapture.WM_LBUTTONUP => Some (0, MOUSEEVENTF_LEFTUP)
  | WinCapture.WM_RBUTTONDOWN => Some (0, MOUSEEVENTF_RIGHTDOWN) | WinCapture.WM_RBUTTONUP => Some (0, MOUSEEVENTF_RIGHTUP)
  | WinCapture.WM_MBUTTONDOWN => Some (0, MOUSEEVENTF_MIDDLEDOWN) | WinCapture.WM_MBUTTONUP => Some (0, MOUSEEVENTF_MIDDLEUP)
  | WinCapture.WM_XBUTTONDOWN => Some (x, MOUSEEVENTF_XDOWN) | WinCapture.WM_XBUTTONUP => Some (x, MOUSEEVENTF_XUP)
  | _ => None
  end.
Lemma relayed_button w m s e data flag :
  WinCapture.to_mouse_event w m s = Some e → button_flag w m = Some (data, flag) →
  inputs_of (Pointer e) = [Mouse (mkMi 0 0 data flag)] ∧ event_wf (Pointer e) ∧ negatable (Consume (Pointer e)).
Proof.
  intros He Hf. destruct w; try discriminate; cbn [WinCapture.to_mouse_event button_flag] in *;
    [by injection He as <-; injection Hf as <- <-..| |];
    (destruct (Z.eqb_spec (Z.shiftr (WinCapture.mouse_data m) 16) 1) as [E|_];
      [|destruct (Z.eqb_spec (Z.shiftr (WinCapture.mouse_data m) 16) 2) as [E|_]; [|discriminate]]);
    rewrite E in Hf; injection He as <-; by injection Hf as <- <-.
Qed.

(** What one Windows machine captures the other injects again: a key with
    its scan code, its extended flag and its direction, a button with its flags,
    and the vertical wheel by the same amount.  The horizontal wheel turns by
    the opposite amount: only the vertical one is negated on the way out, both
    are on the way in. *)
Theorem relayed SendInput n s :
  accepts SendInput n →
  (∀ w kb e, WinCapture.to_key_event w kb = Some e → inU 8 (WinCapture.scan_code kb) →
     excepted (WinCapture.scan_code kb) (WinCapture.extended kb) = false →
     injected SendInput n (Keyboard e)
       [Keybd (mkKi (WinCapture.scan_code kb) (8 + (if WinCapture.extended kb then 1 else 0) + (if is_up w then 2 else 0)))]) ∧
  (∀ w m e data flag, WinCapture.to_mouse_event w m s = Some e → button_flag w m = Some (data, flag) →
     injected SendInput n (Pointer e) [Mouse (mkMi 0 0 data flag)]) ∧
  (∀ m e, WinCapture.to_mouse_event WinCapture.WM_MOUSEWHEEL m s = Some e →
     injected SendInput n (Pointer e) [Mouse (mkMi 0 0 (wrapU 32 (delta m)) MOUSEEVENTF_WHEEL)]) ∧
  (∀ m e, WinCapture.to_mouse_event WinCapture.WM_MOUSEHWHEEL m s = Some e →
     injected SendInput n (Pointer e) [Mouse (mkMi 0 0 (wrapU 32 (- delta m)) MOUSEEVENTF_HWHEEL)]).
Proof.
  intros Ha. split_and!.
  - intros w kb e Hk Hs He. rewrite <- (relayed_key w kb e Hk Hs He). apply injected_ok; [done| |done].
    apply captured_key in Hk as (key & -> & Hd). unfold WinCapture.to_key_event in Hd.
    destruct (Windows.try_from_u32 _) as [win|]; [|done]. cbn in Hd. destruct (linux_of_windows win) as [l|]; [|done]. injection Hd as <-.
    cbn. unfold inU. split_and!; try lia; [by destruct l..| |]; destruct (is_up w); lia.
  - intros w m e data flag He Hf. destruct (relayed_button w m s e data flag He Hf) as (<- & Hw & Hn). by apply injected_ok.
  - intros m e [= <-]. pose proof (delta_range m). fold (delta m).
    replace (delta m) with (- - delta m) at 2 by lia.
    apply (injected_ok _ _ (Pointer (AxisDiscrete120 0 (- delta m))) Ha); cbn; unfold inU, inS; lia.
  - intros m e [= <-]. pose proof (delta_range m). fold (delta m).
    apply (injected_ok _ _ (Pointer (AxisDiscrete120 1 (delta m))) Ha); cbn; unfold inU, inS; lia.
Qed.
Lemma relayed_witness :
  injected (λ _, 1) 0 (Pointer (AxisDiscrete120 0 (-120))) [Mouse (mkMi 0 0 120 MOUSEEVENTF_WHEEL)] ∧
  injected (λ _, 1) 0 (Pointer (AxisDiscrete120 1 120)) [Mouse (mkMi 0 0 (2 ^ 32 - 120) MOUSEEVENTF_HWHEEL)].
Proof.
  destruct (relayed (λ _, 1) 0 (WinCapture.initial [])) as (_ & _ & H1 & H2); [by intros m; exists 0%nat|].
  split; [apply (H1 (WinCapture.mkMouse (0, 0) (120 * 2 ^ 16)))|apply (H2 (WinCapture.mkMouse (0, 0) (120 * 2 ^ 16)))]; done.
Defined.

(** A key that Windows has is injected with the scan code of the table, but
    for Pause: of its code of three bytes only the last one is sent, with the
    flag of another prefix. *)
Theorem scan_codes_injected SendInput n l w st :
  accepts SendInput n → windows_of_linux l = Some w → inU 8 st →
  ∃ scan flags, injected SendInput n (Keyboard (Key 0 (Linux.to_u32 l) st)) [Keybd (mkKi scan flags)] ∧ inU 8 scan ∧
    (Z.testbit flags 1 = (st =? 0)) ∧
    (l ≠ Linux.KeyPause → Windows.to_u32 w = if Z.testbit flags 0 then 0xE000 + scan else scan) ∧
    (l = Linux.KeyPause → scan = 0x45 ∧ Z.testbit flags 0 = true).
Proof.
  intros Ha E Hst. set (code := Windows.to_u32 w mod 2 ^ 16).
  exists (code mod 2 ^ 8), (8 + (if 2 ^ 8 <=? code then 1 else 0) + (if st =? 0 then 2 else 0)).
  assert (Z.testbit (8 + (if 2 ^ 8 <=? code then 1 else 0) + (if st =? 0 then 2 else 0)) 0 = (2 ^ 8 <=? code)) as E0
    by (by destruct (2 ^ 8 <=? code), (st =? 0)).
  rewrite E0. split_and!.
  - assert ([Keybd (mkKi (code mod 2 ^ 8) (8 + (if 2 ^ 8 <=? code then 1 else 0) + (if st =? 0 then 2 else 0)))] =
      inputs_of (Keyboard (Key 0 (Linux.to_u32 l) st))) as ->.
    { cbn [inputs_of]. unfold key_inputs. rewrite Linux.try_from_to. cbn. by rewrite E. }
    apply injected_ok; [done| |done]. cbn. unfold inU in *. split_and!; try lia; by destruct l.
  - unfold inU. apply Z.mod_pos_bound. lia.
  - by destruct (2 ^ 8 <=? code), (st =? 0).
  - intros Hl. destruct (code_fits l w E Hl) as [H|[H1 H2]]; cbn zeta in *; subst code.
    + rewrite (Z.mod_small (Windows.to_u32 w) (2 ^ 16)), (Z.mod_small _ (2 ^ 8)) by lia. destruct (Z.leb_spec (2 ^ 8) (Windows.to_u32 w)); lia.
    + rewrite (Z.mod_small (Windows.to_u32 w) (2 ^ 16)) by lia. destruct (Z.leb_spec (2 ^ 8) (Windows.to_u32 w)); lia.
  - intros ->. injection E as <-. by subst code.
Qed.
Lemma scan_codes_injected_witness :
  ∃ scan flags, injected (λ _, 1) 0 (Keyboard (Key 0 119 1)) [Keybd (mkKi scan flags)] ∧ scan = 0x45 ∧ Z.testbit flags 0 = true.
Proof.
  destruct (scan_codes_injected (λ _, 1) 0 Linux.KeyPause Windows.KeyPause 1) as (scan & flags & H & _ & _ & _ & Hp);
    [by intros m; exists 0%nat|reflexivity|unfold inU; lia|]. exists scan, flags. by split; [exact H|apply Hp].
Defined.
