(* ===== verification/MacEmulation.v ===== *)
(** The emulation backend of macOS (input-emulation/src/macos.rs).

    The events posted to the system are a log.  Core Graphics is an argument:
    [creates n] says whether the [n]-th creation of an event succeeds, [cursor
    n] where the cursor is then, and the displays are what it answers about a
    point and an identifier.  The key map of the keycode crate is an argument,
    as is the order in which a hash set is walked.

    A run is a sequence of turns: an event of the emulation task at a time, the
    first poll of the task that repeats a key, and the end of one of its
    sleeps.  [Notify::notify_waiters] wakes the futures of [notified()] that
    exist, and those only: the task has one from its first poll on.  In a
    [select!] whose branches are both ready either may be taken: [raced] says
    that the end of a sleep was, and the notification dropped. *)

From S2P Require Import Prelude InputEvent Geometry Scancode Doubles Backend.
From S2P Require MacCapture.
#[local] Open Scope Z_scope.

(** * Data *)

(** The flags the program sets. *)
Record Flags : Type := mkFlags { modifiers_of : MacCapture.CGEventFlags; numeric_pad : bool; secondary_fn : bool }.
Definition no_flags : MacCapture.CGEventFlags := MacCapture.mkFlags false false false false false.

Inductive CGMouseButton : Type := BLeft | BRight | BCenter.
Inductive ScrollEventUnit : Type := PIXEL | LINE.

(** An event posted, with the fields that were set. *)
Inductive post : Type :=
| KeyPost (key : Z) (down : bool) (f : Flags)
| FlagsPost (f : MacCapture.CGEventFlags)
| MovePost (ty : MacCapture.CGEventType) (at_ : point) (dx dy : Z)
| ButtonPost (ty : MacCapture.CGEventType) (at_ : point) (b : CGMouseButton) (click_state : Z) (number : option Z)
| ScrollPost (u : ScrollEventUnit) (count wheel1 wheel2 wheel3 : Z).

(** A repeating task that was spawned and not polled yet, or one that is in a
    [select!] of a sleep and the notification. *)
Inductive stage : Type := Spawned | Selecting.

(** The fields, the events posted, how many were created, and whether a call
    of [cancel_repeat_task] awaits a task that was not notified. *)
Record MacOSEmulation : Type := mkMac {
  repeat_task : option (Z * stage);
  pressed_buttons : gset Z;
  previous_button : option Z;
  previous_button_click : option Z;
  button_click_state : Z;
  modifier_state : Z;
  posted : list post;
  created : nat;
  joining : bool
}.
Definition new : MacOSEmulation := mkMac None ∅ None None 0 0 [] 0 false.

Definition set_task (t : option (Z * stage)) (s : MacOSEmulation) : MacOSEmulation :=
  mkMac t (pressed_buttons s) (previous_button s) (previous_button_click s) (button_click_state s) (modifier_state s)
    (posted s) (created s) (joining s).
Definition set_pressed (b : gset Z) (s : MacOSEmulation) : MacOSEmulation :=
  mkMac (repeat_task s) b (previous_button s) (previous_button_click s) (button_click_state s) (modifier_state s)
    (posted s) (created s) (joining s).
Definition set_click (b : Z) (now : Z) (n : Z) (s : MacOSEmulation) : MacOSEmulation :=
  mkMac (repeat_task s) (pressed_buttons s) (Some b) (Some now) n (modifier_state s) (posted s) (created s) (joining s).
Definition set_click_state (n : Z) (s : MacOSEmulation) : MacOSEmulation :=
  mkMac (repeat_task s) (pressed_buttons s) (previous_button s) (previous_button_click s) n (modifier_state s)
    (posted s) (created s) (joining s).
Definition set_mods (m : Z) (s : MacOSEmulation) : MacOSEmulation :=
  mkMac (repeat_task s) (pressed_buttons s) (previous_button s) (previous_button_click s) (button_click_state s) m
    (posted s) (created s) (joining s).
Definition add_post (p : post) (s : MacOSEmulation) : MacOSEmulation :=
  mkMac (repeat_task s) (pressed_buttons s) (previous_button s) (previous_button_click s) (button_click_state s)
    (modifier_state s) (posted s ++ [p]) (created s) (joining s).
Definition one_created (s : MacOSEmulation) : MacOSEmulation :=
  mkMac (repeat_task s) (pressed_buttons s) (previous_button s) (previous_button_click s) (button_click_state s)
    (modifier_state s) (posted s) (S (created s)) (joining s).
Definition set_joining (s : MacOSEmulation) : MacOSEmulation :=
  mkMac (repeat_task s) (pressed_buttons s) (previous_button s) (previous_button_click s) (button_click_state s)
    (modifier_state s) (posted s) (created s) true.

(** * Modifiers *)

Definition to_cgevent_flags (depressed : Z) : MacCapture.CGEventFlags :=
  MacCapture.mkFlags (XMods.contains depressed XMods.ShiftMask) (XMods.contains depressed XMods.ControlMask)
    (XMods.contains depressed XMods.Mod1Mask) (XMods.contains depressed XMods.Mod4Mask)
    (XMods.contains depressed XMods.LockMask).

Definition mask_of (key : Linux.Linux) : Z :=
  match key with
  | Linux.KeyLeftShift | Linux.KeyRightShift => XMods.ShiftMask
  | Linux.KeyCapsLock => XMods.LockMask
  | Linux.KeyLeftCtrl | Linux.KeyRightCtrl => XMods.ControlMask
  | Linux.KeyLeftAlt | Linux.KeyRightalt => XMods.Mod1Mask
  | Linux.KeyLeftMeta | Linux.KeyRightmeta => XMods.Mod4Mask
  | _ => 0
  end.
(** The new modifiers, if the key is one. *)
Definition update_modifiers (mods key state : Z) : option Z :=
  k ← Linux.try_from_u32 key;
  let mask := mask_of k in
  if mask =? 0 then None
  else Some (if state =? 1 then Z.lor mods mask else Z.ldiff mods mask).
Definition set_modifiers (depressed latched locked group : Z) : Z := default 0 (XMods.from_bits depressed).

(** * Displays *)

Section mac.
Variable creates : nat → bool.
Variable cursor : nat → point.
(** [CGGetDisplaysWithRect] with room for one display: the error code and
    the displays at a point; [CGDisplayBounds]. *)
Variable CGGetDisplaysWithRect : point → Z * list Z.
Variable CGDisplayBounds : Z → DisplayRect.
Variable mac_of_evdev : Z → option Z.
Variable order : gset Z → list Z.
Abbreviation M := (ST MacOSEmulation Empty_set).

Definition get_display_at_point (x y : double) : option Z :=
  let '(error, displays) := CGGetDisplaysWithRect (x, y) in
  if negb (error =? 0) then None else head displays.
Definition get_display_bounds (display : Z) : double * double * double * double :=
  let b := CGDisplayBounds display in
  (rx b, ry b, f64_add (rx b) (rw b), f64_add (ry b) (rh b)).

Definition clamp_to_screen_space (current_x current_y dx dy : double) : outcome Empty_set point :=
  match get_display_at_point current_x current_y with
  | None => Ok (current_x, current_y)
  | Some current_display =>
      let new_x := f64_add current_x dx in
      let new_y := f64_add current_y dy in
      let final_display := default current_display (get_display_at_point new_x new_y) in
      let '(min_x, min_y, max_x, max_y) := get_display_bounds final_display in
      x ← f64_clamp new_x min_x (f64_sub max_x f64_one);
      y ← f64_clamp new_y min_y (f64_sub max_y f64_one);
      Ok (x, y)
  end.

(** * Posting *)

(** A creation of an event; [None] when it fails. *)
Definition create_event : M (option nat) :=
  n ← gets created;
  modify_st one_created ≫= λ _, mret (if creates n then Some n else None).
Definition post_event (p : post) : M unit := modify_st (add_post p).
(** Creates an event and posts it, or logs that it could not. *)
Definition create_and_post (p : post) : M bool :=
  o ← create_event;
  match o with Some _ => post_event p ≫= λ _, mret true | None => mret false end.

Definition get_mouse_location : M (option point) :=
  o ← create_event; mret (cursor <$> o).

Definition is_arrow_key (key : Z) : bool := (key =? 0x7B) || (key =? 0x7C) || (key =? 0x7D) || (key =? 0x7E).
Definition key_event (key state : Z) (modifiers : Z) : M unit :=
  let arrow := is_arrow_key key in
  create_and_post (KeyPost key (negb (state =? 0)) (mkFlags (to_cgevent_flags modifiers) arrow arrow)) ≫= λ _, mret tt.
Definition modifier_event (depressed : Z) : M unit :=
  create_and_post (FlagsPost (to_cgevent_flags depressed)) ≫= λ _, mret tt.

(** * The repeating task *)

(** What the task does when it was notified: the key goes up, and it ends. *)
Definition finish_task (key : Z) : M unit :=
  mods ← gets modifier_state; key_event key 0 mods ≫= λ _, modify_st (set_task None).
(** The end of a sleep. *)
Definition wake_task : M unit :=
  t ← gets repeat_task;
  match t with
  | Some (key, Selecting) => mods ← gets modifier_state; key_event key 1 mods
  | _ => mret tt
  end.
Definition poll_task : M unit :=
  t ← gets repeat_task;
  match t with Some (key, Spawned) => modify_st (set_task (Some (key, Selecting))) | _ => mret tt end.

Definition hang {A} : M A := λ s, (Diverge, s).
(** The call awaits the task after notifying it. *)
Definition cancel_repeat_task (raced : bool) : M unit :=
  t ← gets repeat_task;
  match t with
  | None => mret tt
  | Some (key, Selecting) =>
      if raced then wake_task ≫= λ _, modify_st set_joining ≫= λ _, hang else finish_task key
  | Some (key, Spawned) => modify_st set_joining ≫= λ _, hang
  end.
Definition spawn_repeat_task (raced : bool) (key : Z) : M unit :=
  cancel_repeat_task raced ≫= λ _,
  mods ← gets modifier_state;
  key_event key 1 mods ≫= λ _,
  modify_st (set_task (Some (key, Spawned))).

(** * Events *)

Definition drag_event_type (button : Z) : MacCapture.CGEventType :=
  if button =? BTN_LEFT then MacCapture.LeftMouseDragged
  else if button =? BTN_RIGHT then MacCapture.RightMouseDragged
  else MacCapture.OtherMouseDragged.

Definition on_motion (dx dy : double) : M unit :=
  l ← get_mouse_location;
  match l with
  | None => mret tt
  | Some (x, y) =>
      match clamp_to_screen_space x y dx dy with
      | Ok at_ =>
          held ← gets pressed_buttons;
          let event_type := from_option drag_event_type MacCapture.MouseMoved (head (order held)) in
          ok ← create_and_post (MovePost event_type at_ (as_signed 64 dx) (as_signed 64 dy));
          when ok (modify_st (set_click_state 0))
      | _ => panic
      end
  end.

Definition DOUBLE_CLICK_INTERVAL : Z := 500 * 1000000.
(** The event and the button of Core Graphics, of a button that it has. *)
Definition button_event (button state : Z) : option (MacCapture.CGEventType * CGMouseButton) :=
  let other := (button =? BTN_MIDDLE) || (button =? BTN_BACK) || (button =? BTN_FORWARD) in
  if state =? 1 then
    if button =? BTN_LEFT then Some (MacCapture.LeftMouseDown, BLeft)
    else if button =? BTN_RIGHT then Some (MacCapture.RightMouseDown, BRight)
    else if other then Some (MacCapture.OtherMouseDown, BCenter) else None
  else if state =? 0 then
    if button =? BTN_LEFT then Some (MacCapture.LeftMouseUp, BLeft)
    else if button =? BTN_RIGHT then Some (MacCapture.RightMouseUp, BRight)
    else if other then Some (MacCapture.OtherMouseUp, BCenter) else None
  else None.

Definition count_click (now button : Z) : M unit :=
  s ← get_st;
  let again := bool_decide (previous_button s = Some button) &&
    from_option (λ i, now - i <? DOUBLE_CLICK_INTERVAL) false (previous_button_click s) in
  let n := if again then button_click_state s + 1 else 1 in
  if decide (inS 64 n) then modify_st (set_click button now n) else panic.

Definition on_button (now button state : Z) : M unit :=
  let number := if button =? BTN_BACK then Some 3 else if button =? BTN_FORWARD then Some 4 else None in
  match button_event button state with
  | None => mret tt
  | Some (event_type, mouse_button) =>
      modify_st (λ s, set_pressed (if state =? 1 then {[button]} ∪ pressed_buttons s else pressed_buttons s ∖ {[button]}) s)
      ≫= λ _, when (state =? 1) (count_click now button) ≫= λ _,
      location ← get_mouse_location;
      match location with
      | None => panic
      | Some location =>
          n ← gets button_click_state;
          create_and_post (ButtonPost event_type location mouse_button n number) ≫= λ _, mret tt
      end
  end.

(** The wheels of an axis; the negation may overflow. *)
Definition on_scroll (u : ScrollEventUnit) (divisor axis value : Z) : M unit :=
  let scrolled (w : outcome Empty_set (Z * Z * Z)) : M unit :=
    match w with
    | Ok (count, wheel1, wheel2) =>
        ok ← create_and_post (ScrollPost u count wheel1 wheel2 0); when ok (modify_st (set_click_state 0))
    | _ => panic
    end in
  if axis =? 0 then scrolled (v ← MacCapture.checked (- value); Ok (1, Z.quot v divisor, 0))
  else if axis =? 1 then scrolled (Ok (2, 0, Z.quot value divisor))
  else mret tt.

Definition LINES_PER_STEP : Z := 3.

Definition on_key (raced : bool) (key state : Z) : M unit :=
  match mac_of_evdev (wrapU 16 key) with
  | None => mret tt
  | Some code =>
      mods ← gets modifier_state;
      match update_modifiers mods key state with
      | Some mods => modify_st (set_mods mods) ≫= λ _, modifier_event mods
      | None => mret tt
      end ≫= λ _,
      if state =? 1 then spawn_repeat_task raced (wrapU 16 code) else cancel_repeat_task raced
  end.

Definition consume (now : Z) (raced : bool) (event : Event) : M unit :=
  match event with
  | Pointer (Motion _ dx dy) => on_motion (double_of dx) (double_of dy)
  | Pointer (Button _ button state) => on_button now button state
  | Pointer (Axis _ axis value) => on_scroll PIXEL 1 axis (as_signed 32 (double_of value))
  | Pointer (AxisDiscrete120 axis value) => on_scroll LINE (Z.quot 120 LINES_PER_STEP) axis value
  | Keyboard (Key _ key state) => on_key raced key state
  | Keyboard (Modifiers depressed latched locked group) =>
      modify_st (set_mods (set_modifiers depressed latched locked group)) ≫= λ _,
      mods ← gets modifier_state; modifier_event mods
  end.

(** * Runs

    While a call awaits the repeating task, the emulation task takes no event. *)

Inductive turn : Type := Consume (now : Z) (raced : bool) (e : Event) | PollTask | WakeTask.
Definition step (t : turn) : M unit :=
  match t with
  | Consume now raced e => j ← gets joining; if j : bool then mret tt else consume now raced e
  | PollTask => poll_task
  | WakeTask => wake_task
  end.
(** A call that hangs leaves the others their turns. *)
Fixpoint run (ts : list turn) (s : MacOSEmulation) : outcome Empty_set MacOSEmulation :=
  match ts with
  | [] => Ok s
  | t :: ts =>
      match step t s with
      | (Ok _, s) | (Diverge, s) => run ts s
      | _ => Panic
      end
  end.
End mac.

(** * Nothing panics *)

Lemma clamp_ok x lo hi : f64_le lo hi = true → ∃ r, f64_clamp x lo hi = Ok r.
Proof. intros H. unfold f64_clamp. rewrite H. by eexists. Qed.

(** A display is at least a pixel wide and high. *)
Definition usable (b : DisplayRect) : Prop :=
  f64_le (rx b) (f64_sub (f64_add (rx b) (rw b)) f64_one) = true ∧
  f64_le (ry b) (f64_sub (f64_add (ry b) (rh b)) f64_one) = true.
#[export] Instance usable_dec b : Decision (usable b).
Proof. unfold usable. apply _. Defined.
(** The one value whose negation overflows. *)
Definition negatable (e : Event) : Prop :=
  match e with
  | Pointer (Axis _ axis v) => axis = 0 → as_signed 32 (double_of v) ≠ - 2 ^ 31
  | Pointer (AxisDiscrete120 axis v) => axis = 0 → v ≠ - 2 ^ 31
  | _ => True
  end.
Definition turn_ok (t : turn) : Prop := match t with Consume _ _ e => event_wf e ∧ negatable e | _ => True end.

(** The keys that are down by what was posted. *)
Definition down_step (d : gset Z) (p : post) : gset Z :=
  match p with KeyPost k true _ => {[k]} ∪ d | KeyPost k false _ => d ∖ {[k]} | _ => d end.
Definition keys_down (ps : list post) : gset Z := foldl down_step ∅ ps.
Definition task_key (t : option (Z * stage)) : gset Z := from_option (λ kt, {[kt.1]}) ∅ t.
#[local] Arguments keys_down : simpl never.
#[local] Arguments update_modifiers : simpl never.

Lemma keys_down_snoc ps p : keys_down (ps ++ [p]) = down_step (keys_down ps) p.
Proof. unfold keys_down. by rewrite foldl_app. Qed.

Section mac_laws.
Context (creates : nat → bool) (cursor : nat → point) (at_point : point → Z * list Z) (bounds : Z → DisplayRect).
Context (mac_of_evdev : Z → option Z) (order : gset Z → list Z).
Hypothesis Hcreates : ∀ n, creates n = true.
Hypothesis Hbounds : ∀ d, usable (bounds d).
Abbreviation M := (ST MacOSEmulation Empty_set).
Abbreviation consume := (consume creates cursor at_point bounds mac_of_evdev order).
Abbreviation step := (step creates cursor at_point bounds mac_of_evdev order).
Abbreviation run := (run creates cursor at_point bounds mac_of_evdev order).

(** What every call keeps: at most the repeating key is down, and clicks are
    counted one by one. *)
Record fine (n : nat) (s : MacOSEmulation) : Prop := {
  one_key : keys_down (posted s) = task_key (repeat_task s);
  few_clicks : 0 ≤ button_click_state s ≤ Z.of_nat n;
  joins_task : joining s = true → is_Some (repeat_task s)
}.
Lemma new_fine : fine 0 new.
Proof. by split. Qed.
Lemma fine_mono n m s : (n ≤ m)%nat → fine n s → fine m s.
Proof. intros Hl [H1 H2 H3]. split; [done|lia|done]. Qed.

(** The call returns, and then [Q], or it hangs, and then [R]. *)
Definition ends {A} (m : M A) (Q : A → MacOSEmulation → Prop) (R : MacOSEmulation → Prop) (s : MacOSEmulation) : Prop :=
  match m s with (Ok a, s') => Q a s' | (Diverge, s') => R s' | _ => False end.
Lemma ends_bind {A B} (m : M A) (f : A → M B) Q R s :
  ends (m ≫= f) Q R s ↔ ends m (λ a, ends (f a) Q R) R s.
Proof. unfold ends, mbind, ST_bind. by destruct (m s) as [[] ?]. Qed.
Lemma ends_wp {A} (m : M A) Q R s : wp m Q s → ends m Q R s.
Proof. unfold ends, wp. by destruct (m s) as [[] ?]. Qed.

Lemma create_and_post_ok p s : create_and_post creates p s = (Ok true, add_post p (one_created s)).
Proof. unfold create_and_post, create_event, mbind, ST_bind, gets, modify_st. cbn. by rewrite Hcreates. Qed.
Lemma key_event_ok k st mods s :
  key_event creates k st mods s =
    (Ok tt, add_post (KeyPost k (negb (st =? 0)) (mkFlags (to_cgevent_flags mods) (is_arrow_key k) (is_arrow_key k))) (one_created s)).
Proof. unfold key_event, mbind, ST_bind. by rewrite create_and_post_ok. Qed.
Lemma modifier_event_ok mods s :
  modifier_event creates mods s = (Ok tt, add_post (FlagsPost (to_cgevent_flags mods)) (one_created s)).
Proof. unfold modifier_event, mbind, ST_bind. by rewrite create_and_post_ok. Qed.
Lemma get_mouse_location_ok s : get_mouse_location creates cursor s = (Ok (Some (cursor (created s))), one_created s).
Proof. unfold get_mouse_location, create_event, mbind, ST_bind, gets, modify_st. cbn. by rewrite Hcreates. Qed.

(** ** The repeating task *)

Lemma wake_fine n s : fine n s → wp (wake_task creates) (λ _ s', fine n s' ∧ repeat_task s' = repeat_task s ∧ joining s' = joining s) s.
Proof.
  intros Hf. pose proof Hf as [H1 H2 H3]. unfold wake_task. wp.
  destruct (repeat_task s) as [[k []]|] eqn:E; cbn; wp; [by rewrite E| |by rewrite E].
  unfold wp. rewrite key_event_ok. split; [|by rewrite <- E]. split; [|done|cbn; rewrite E; eauto].
  cbn. rewrite keys_down_snoc, H1, ?E. cbn. set_solver.
Qed.
Lemma poll_fine n s : fine n s → wp poll_task (λ _ s', fine n s' ∧ joining s' = joining s) s.
Proof.
  intros Hf. pose proof Hf as [H1 H2 H3]. unfold poll_task. wp.
  destruct (repeat_task s) as [[k []]|] eqn:E; cbn; wp; [|done..].
  split; [|done]. split; cbn; [done|done|eauto].
Qed.

Lemma cancel_ends n raced s :
  fine n s → joining s = false →
  ends (cancel_repeat_task creates raced) (λ _ s', fine n s' ∧ repeat_task s' = None ∧ joining s' = false)
    (λ s', fine n s' ∧ joining s' = true) s.
Proof.
  intros Hf Hj. pose proof Hf as [H1 H2 H3]. unfold cancel_repeat_task. apply ends_bind. cbn.
  destruct (repeat_task s) as [[k []]|] eqn:E; cbn.
  - split; [|done]. split; cbn; [by rewrite H1, ?E|done|rewrite ?E; eauto].
  - destruct raced.
    + apply ends_bind, ends_wp. eapply wp_mono; [by apply (wake_fine n)|]. intros _ s' ([A B C] & Et & _).
      cbn. split; [|done]. split; [done|done|]. cbn. rewrite Et. eauto.
    + unfold finish_task. apply ends_bind. cbn. apply ends_bind. unfold ends at 1. rewrite key_event_ok. cbn.
      split; [|done]. split; [|done|by cbn; rewrite Hj].
      cbn. rewrite keys_down_snoc, H1, ?E. cbn. set_solver.
  - done.
Qed.

Lemma spawn_ends n raced k s :
  fine n s → joining s = false →
  ends (spawn_repeat_task creates raced k) (λ _ s', fine n s' ∧ repeat_task s' = Some (k, Spawned) ∧ joining s' = false)
    (λ s', fine n s' ∧ joining s' = true) s.
Proof.
  intros Hf Hj. unfold spawn_repeat_task. apply ends_bind. pose proof (cancel_ends n raced s Hf Hj) as Hc.
  unfold ends in *. destruct (cancel_repeat_task creates raced s) as [[[]| | |] s1]; try done.
  destruct Hc as ([A B C] & Et & Hj1). unfold mbind, ST_bind. cbn. rewrite key_event_ok. cbn. split; [|done].
  split; cbn; [|done|eauto]. rewrite keys_down_snoc, A, Et. cbn. set_solver.
Qed.

(** ** Events *)

Definition is_key (p : post) : bool := match p with KeyPost _ _ _ => true | _ => false end.
(** A call of the pointer or the modifiers: no key is posted, the task is left
    alone, and at most one click is counted. *)
Definition apart (s s' : MacOSEmulation) : Prop :=
  repeat_task s' = repeat_task s ∧ joining s' = joining s ∧ keys_down (posted s') = keys_down (posted s) ∧
  0 ≤ button_click_state s' ≤ Z.max (button_click_state s) 0 + 1.
Lemma apart_fine n s s' : fine n s → apart s s' → fine (S n) s'.
Proof. intros [H1 H2 H3] (E1 & E2 & E3 & H). split; [by rewrite E3, E1|lia|by rewrite E1, E2]. Qed.
Lemma keys_down_other ps p : is_key p = false → keys_down (ps ++ [p]) = keys_down ps.
Proof. intros H. rewrite keys_down_snoc. by destruct p. Qed.

Lemma scroll_apart u d axis v s :
  0 ≤ button_click_state s → inS 32 v → (axis = 0 → v ≠ - 2 ^ 31) →
  wp (on_scroll creates u d axis v) (λ _, apart s) s.
Proof.
  intros Hc Hv Hn. unfold on_scroll.
  assert (∀ a b c, wp (ok ← create_and_post creates (ScrollPost u a b c 0); when ok (modify_st (set_click_state 0))) (λ _, apart s) s) as Hs.
  { intros a b c. wp. unfold wp. rewrite create_and_post_ok. cbn. split_and!; [done|done| |cbn; lia..]. cbn. by apply keys_down_other. }
  destruct (Z.eqb_spec axis 0) as [->|_].
  - specialize (Hn eq_refl). assert (inS 32 (- v)).
    { unfold inS in *. change (2 ^ (32 - 1)) with (2 ^ 31) in *. lia. }
    unfold MacCapture.checked. rewrite decide_True by done. apply Hs.
  - destruct (axis =? 1); [apply Hs|]. wp. split_and!; [done|done|done|lia..].
Qed.

Lemma clamp_total x y dx dy : ∃ p, clamp_to_screen_space at_point bounds x y dx dy = Ok p.
Proof.
  unfold clamp_to_screen_space. destruct (get_display_at_point _ x y) as [d|]; [|by eexists].
  cbn. destruct (Hbounds (default d (get_display_at_point at_point (f64_add x dx) (f64_add y dy)))) as [Hx Hy].
  destruct (clamp_ok (f64_add x dx) _ _ Hx) as [a ->]. destruct (clamp_ok (f64_add y dy) _ _ Hy) as [b ->]. by eexists.
Qed.
Lemma motion_apart dx dy s :
  0 ≤ button_click_state s → wp (on_motion creates cursor at_point bounds order dx dy) (λ _, apart s) s.
Proof.
  intros Hc. unfold on_motion. wp. unfold wp at 1. rewrite get_mouse_location_ok. destruct (cursor _) as [x y].
  destruct (clamp_total x y dx dy) as [p ->]. wp. unfold wp. rewrite create_and_post_ok. cbn.
  split_and!; [done|done| |cbn; lia..]. cbn. by apply keys_down_other.
Qed.

Lemma button_apart now b st s :
  0 ≤ button_click_state s < 2 ^ 63 - 1 → wp (on_button creates cursor now b st) (λ _, apart s) s.
Proof.
  intros Hc. unfold on_button. destruct (button_event b st) as [[ty mb]|]; [|wp; split_and!; [done|done|done|lia..]].
  apply wp_bind, wp_modify. set (s1 := set_pressed _ s). apply wp_bind.
  apply (wp_mono _ (λ _ s', apart s s' ∧ posted s' = posted s)).
  - assert (apart s s1) as H1 by (split_and!; [done|done|done|cbn; lia..]).
    destruct (st =? 1); wp; [|done]. unfold count_click. wp. cbn zeta.
    set (n := if _ && _ then _ else _). assert (0 ≤ n ≤ button_click_state s + 1) as Hn by (subst n; cbn; case_match; lia).
    rewrite decide_True. 2: { unfold inS. change (2 ^ (64 - 1)) with (2 ^ 63). lia. }
    wp. split; [|done]. split_and!; [done|done|done|cbn; lia..].
  - intros [] s2 [(E1 & E2 & E3 & H) Ep]. wp. unfold wp at 1. rewrite get_mouse_location_ok. wp.
    unfold wp. rewrite create_and_post_ok. cbn. split_and!; [done|done| |cbn; lia..]. cbn. rewrite keys_down_other by done. by rewrite Ep.
Qed.

Lemma key_ends n raced key st s :
  fine n s → joining s = false →
  ends (on_key creates mac_of_evdev raced key st) (λ _ s', fine n s' ∧ joining s' = false) (λ s', fine n s' ∧ joining s' = true) s.
Proof.
  intros Hf Hj. unfold on_key. destruct (mac_of_evdev _) as [code|]; [|done]. apply ends_bind. cbn. apply ends_bind, ends_wp.
  apply (wp_mono _ (λ _ s', fine n s' ∧ joining s' = false)).
  - destruct (update_modifiers (modifier_state s) key st) as [m|]; wp; [|done]. unfold wp. rewrite modifier_event_ok.
    split; [|done]. destruct Hf as [H1 H2 H3]. split; [|done|done]. cbn. by rewrite keys_down_other.
  - intros [] s1 [Hf1 Hj1]. destruct (st =? 1).
    + pose proof (spawn_ends n raced (wrapU 16 code) s1 Hf1 Hj1) as H. unfold ends in *. destruct (spawn_repeat_task _ _ _ _) as [[] ?]; naive_solver.
    + pose proof (cancel_ends n raced s1 Hf1 Hj1) as H. unfold ends in *. destruct (cancel_repeat_task _ _ _) as [[] ?]; naive_solver.
Qed.

(** The mapped key of an event. *)
Definition mapped (e : Event) : option (Z * Z) :=
  match e with Keyboard (Key _ key st) => code ← mac_of_evdev (wrapU 16 key); Some (wrapU 16 code, st) | _ => None end.
Lemma plain_apart now raced e s :
  mapped e = None → event_wf e → negatable e → 0 ≤ button_click_state s < 2 ^ 63 - 1 →
  wp (consume now raced e) (λ _, apart s) s.
Proof.
  intros Hm Hw Hn Hc. destruct e as [[t x y|t b st|t axis v|axis v]|[t key st|d la lo g]]; cbn [MacEmulation.consume].
  - apply motion_apart. lia.
  - by apply button_apart.
  - apply scroll_apart; [lia|by apply as_signed_range|done].
  - apply scroll_apart; [lia|by destruct Hw|done].
  - cbn in Hm. unfold on_key. destruct (mac_of_evdev _); [done|]. wp. split_and!; [done..|lia|lia].
  - wp. unfold wp. rewrite modifier_event_ok. split_and!; [done|done| |cbn; lia..]. cbn. by rewrite keys_down_other.
Qed.

Lemma step_ends n t s :
  fine n s → turn_ok t → Z.of_nat n < 2 ^ 63 - 1 →
  ends (step t) (λ _ s', fine (S n) s' ∧ joining s' = joining s) (λ s', fine (S n) s' ∧ joining s' = true) s.
Proof.
  intros Hf Ht Hn. assert (∀ s', fine n s' → fine (S n) s') as Hm by (intros s' H; by apply (fine_mono n); [lia|]).
  destruct t as [now raced e| |]; cbn [MacEmulation.step].
  - apply ends_bind. cbn. destruct (joining s) eqn:Hj; [by split; [apply Hm|]|].
    destruct Ht as [Hw Hg]. destruct (mapped e) eqn:Em.
    + destruct e as [|[t key st|]]; try done.
      pose proof (key_ends n raced key st s Hf Hj) as H. unfold ends in *. cbn [MacEmulation.consume].
      destruct (on_key _ _ _ _ _ _) as [[] ?]; naive_solver.
    + pose proof (few_clicks n s Hf) as Hc. apply ends_wp. eapply wp_mono; [apply (plain_apart now raced e s Em Hw Hg); lia|].
      intros [] s' Hs. split; [by apply (apart_fine n s)|]. destruct Hs as (_ & Hs & _). by rewrite Hs.
  - apply ends_wp. eapply wp_mono; [by apply (poll_fine n)|]. intros _ s' [H1 H2]. auto.
  - apply ends_wp. eapply wp_mono; [by apply (wake_fine n)|]. intros _ s' (H1 & _ & H2). auto.
Qed.

Lemma run_keeps_fine ts n s :
  fine n s → Forall turn_ok ts → Z.of_nat (n + length ts) < 2 ^ 63 →
  ∃ s', run ts s = Ok s' ∧ fine (n + length ts) s'.
Proof.
  revert n s. induction ts as [|t ts IH]; intros n s Hf Ht Hn; [rewrite Nat.add_0_r; by eexists|].
  inversion_clear Ht. cbn [length] in Hn. pose proof (step_ends n t s Hf H ltac:(lia)) as Hs. cbn [MacEmulation.run]. unfold ends in Hs.
  replace (n + length (t :: ts))%nat with (S n + length ts)%nat by (cbn; lia).
  destruct (step t s) as [[[]|[]| |] s1]; [|done|]; (destruct Hs as [Hf1 _]; apply (IH (S n) s1 Hf1 H0); lia).
Qed.

(** ** Keys in time *)

(** Every event of a key finds the task of the one before polled, and no sleep
    ends at the moment it is cancelled; [fresh] is whether a task was spawned
    since the last poll. *)
Fixpoint in_time (fresh : bool) (ts : list turn) : Prop :=
  match ts with
  | [] => True
  | Consume _ raced e :: ts =>
      match mapped e with
      | Some (_, st) => raced = false ∧ fresh = false ∧ in_time (st =? 1) ts
      | None => in_time fresh ts
      end
  | PollTask :: ts => in_time false ts
  | WakeTask :: ts => in_time fresh ts
  end.
(** The key that the last event of a key pressed. *)
Definition next_key (k : option Z) (t : turn) : option Z :=
  match t with
  | Consume _ _ e => match mapped e with Some (code, st) => if st =? 1 then Some code else None | None => k end
  | _ => k
  end.
Definition last_key (ts : list turn) : option Z := foldl next_key None ts.

(** The task is the one of [k], and polled unless it is [fresh]. *)
Definition at_work (fresh : bool) (k : option Z) (s : MacOSEmulation) : Prop :=
  joining s = false ∧ fst <$> repeat_task s = k ∧ (fresh = false → ∀ k, repeat_task s ≠ Some (k, Spawned)).

Lemma cancel_works n s :
  fine n s → at_work false (fst <$> repeat_task s) s →
  ∃ s', cancel_repeat_task creates false s = (Ok tt, s') ∧ fine n s' ∧ repeat_task s' = None ∧ joining s' = false.
Proof.
  intros Hf (Hj & _ & Hs). pose proof (cancel_ends n false s Hf Hj) as H. unfold ends in H.
  destruct (cancel_repeat_task creates false s) as [[[]|[]| |] s'] eqn:E; try done; [by exists s'|]. exfalso.
  revert E. unfold cancel_repeat_task, mbind, ST_bind, gets. cbn. destruct (repeat_task s) as [[k []]|] eqn:Et.
  - by destruct (Hs eq_refl k).
  - unfold finish_task, mbind, ST_bind, gets. by rewrite key_event_ok.
  - done.
Qed.

Lemma key_works n s key st code now t :
  fine n s → at_work false (fst <$> repeat_task s) s → mapped (Keyboard (Key t key st)) = Some (code, st) →
  ∃ s', step (Consume now false (Keyboard (Key t key st))) s = (Ok tt, s') ∧ fine n s' ∧
    at_work (st =? 1) (if st =? 1 then Some code else None) s'.
Proof.
  intros Hf (Hj & E & Hs) Hm. cbn [MacEmulation.step]. unfold mbind at 1, ST_bind at 1, gets. cbn beta iota. rewrite Hj.
  cbn [MacEmulation.consume]. unfold on_key. cbn [mapped] in Hm.
  destruct (mac_of_evdev (wrapU 16 key)) as [c|]; [|done]. injection Hm as <-.
  assert (∃ s1, match update_modifiers (modifier_state s) key st with
                | Some mods => modify_st (set_mods mods) ≫= λ _, modifier_event creates mods
                | None => mret tt end s = (Ok tt, s1) ∧ fine n s1 ∧ at_work false (fst <$> repeat_task s1) s1) as (s1 & E1 & Hf1 & Hw1).
  { destruct (update_modifiers _ _ _) as [m|]; [|exists s; by split_and!].
    unfold mbind, ST_bind, modify_st. rewrite modifier_event_ok. eexists. split; [done|]. split; [|done].
    destruct Hf as [H1 H2 H3]. split; [|done|done]. cbn. by rewrite keys_down_other. }
  unfold mbind at 1, ST_bind at 1, gets. cbn beta iota. unfold mbind at 1, ST_bind at 1. rewrite E1.
  destruct (cancel_works n s1 Hf1 Hw1) as (s2 & E2 & Hf2 & Et & Hj2).
  destruct (st =? 1).
  - unfold spawn_repeat_task, mbind, ST_bind, gets. rewrite E2, key_event_ok. eexists. split; [done|]. split; [|by split_and!].
    destruct Hf2 as [A B C]. split; cbn; [|done|eauto]. rewrite keys_down_snoc, A, Et. cbn. set_solver.
  - rewrite E2. exists s2. split; [done|]. split; [done|]. split_and!; [done|by rewrite Et|]. intros _ k. by rewrite Et.
Qed.

(** The other turns leave the key. *)
Lemma other_works n s fresh k t :
  fine n s → turn_ok t → Z.of_nat n < 2 ^ 63 - 1 → at_work fresh k s →
  (∀ now raced e, t = Consume now raced e → mapped e = None) →
  ∃ s', step t s = (Ok tt, s') ∧ fine (S n) s' ∧ at_work (match t with PollTask => false | _ => fresh end) k s'.
Proof.
  intros Hf Ht Hn (Hj & Ek & Hs) Hu. pose proof (few_clicks n s Hf) as Hc.
  assert (∀ s', fine n s' → fine (S n) s') as Hm by (intros s' H; by apply (fine_mono n); [lia|]).
  destruct t as [now raced e| |]; cbn [MacEmulation.step].
  - unfold mbind at 1, ST_bind at 1, gets. cbn beta iota. rewrite Hj. destruct Ht as [Hw Hg].
    pose proof (plain_apart now raced e s (Hu _ _ _ eq_refl) Hw Hg ltac:(lia)) as H. apply wp_Ok in H as ([] & s' & -> & Ha).
    exists s'. split; [done|]. split; [by apply (apart_fine n s)|]. destruct Ha as (E1 & E2 & _). unfold at_work. by rewrite E1, E2.
  - pose proof (poll_fine n s Hf) as H. apply wp_Ok in H as ([] & s' & E & Hf' & Hj'). exists s'. split; [done|]. split; [by apply Hm|].
    revert E. unfold poll_task, mbind, ST_bind, gets. cbn. destruct (repeat_task s) as [[k' []]|] eqn:Et; intros [= <-];
      (split_and!; [done|cbn; by rewrite ?Et|intros _ k''; cbn; by rewrite ?Et]).
  - pose proof (wake_fine n s Hf) as H. apply wp_Ok in H as ([] & s' & E & Hf' & E1 & E2). exists s'. split; [done|].
    split; [by apply Hm|]. unfold at_work. by rewrite E1, E2.
Qed.

Lemma run_works ts n fresh k s :
  fine n s → at_work fresh k s → Forall turn_ok ts → in_time fresh ts → Z.of_nat (n + length ts) < 2 ^ 63 →
  ∃ s' fresh', run ts s = Ok s' ∧ fine (n + length ts) s' ∧ at_work fresh' (foldl next_key k ts) s'.
Proof.
  revert n fresh k s. induction ts as [|t ts IH]; intros n fresh k s Hf Hw Ht Hi Hn.
  { rewrite Nat.add_0_r. by exists s, fresh. }
  inversion_clear Ht. cbn [length] in Hn. replace (n + length (t :: ts))%nat with (S n + length ts)%nat by (cbn; lia).
  assert (∀ now raced e, t = Consume now raced e → mapped e = None ∨ ∃ u key st code, e = Keyboard (Key u key st) ∧ mapped e = Some (code, st)) as Hc.
  { intros now raced e _. destruct e as [|[u key st|]]; cbn; [by left| |by left]. destruct (mac_of_evdev _) as [c|]; [|by left]. right. by exists u, key, st, (wrapU 16 c). }
  assert ((∀ now raced e, t = Consume now raced e → mapped e = None) ∨
          ∃ now raced u key st code, t = Consume now raced (Keyboard (Key u key st)) ∧ mapped (Keyboard (Key u key st)) = Some (code, st)) as [Hu|(now & raced & u & key & st & code & -> & Hm)].
  { destruct t as [now raced e| |]; [|by left|by left]. destruct (Hc _ _ _ eq_refl) as [E|(u & key & st & code & -> & E)].
    - left. by intros ??? [= _ _ <-].
    - right. by exists now, raced, u, key, st, code. }
  - destruct (other_works n s fresh k t Hf H ltac:(lia) Hw Hu) as (s1 & E1 & Hf1 & Hw1).
    cbn [MacEmulation.run]. rewrite E1. cbn [foldl].
    assert (next_key k t = k) as -> by (destruct t as [now raced e| |]; cbn; [by rewrite (Hu _ _ _ eq_refl)|done|done]).
    eapply IH; [done|done|done| |lia]. destruct t as [now raced e| |]; cbn in Hi; [by rewrite (Hu _ _ _ eq_refl) in Hi|done|done].
  - cbn [in_time] in Hi. rewrite Hm in Hi. destruct Hi as (-> & -> & Hi).
    assert (at_work false (fst <$> repeat_task s) s) as Hw' by (destruct Hw as (A & B & C); by split_and!).
    destruct (key_works n s key st code now u Hf Hw' Hm) as (s1 & E1 & Hf1 & Hw1).
    cbn [MacEmulation.run]. rewrite E1. cbn [foldl next_key]. rewrite Hm.
    eapply IH; [|done|done|done|lia]. by apply (fine_mono n); [lia|].
Qed.
(** ** A call that hangs *)

(** How often the task wakes up once it is polled. *)
Fixpoint wakes (polled : bool) (ts : list turn) : nat :=
  match ts with
  | [] => 0
  | PollTask :: ts => wakes true ts
  | WakeTask :: ts => (if polled then 1 else 0) + wakes polled ts
  | Consume _ _ _ :: ts => wakes polled ts
  end.
(** The event that a repetition of [key] posts. *)
Definition repetition (key mods : Z) : post :=
  KeyPost key true (mkFlags (to_cgevent_flags mods) (is_arrow_key key) (is_arrow_key key)).
Definition polled (st : stage) : bool := match st with Selecting => true | Spawned => false end.

Lemma stuck_run key ts st s :
  joining s = true → repeat_task s = Some (key, st) →
  ∃ s', run ts s = Ok s' ∧ joining s' = true ∧
    posted s' = posted s ++ replicate (wakes (polled st) ts) (repetition key (modifier_state s)).
Proof.
  revert st s. induction ts as [|t ts IH]; intros st s Hj Et; [exists s; by rewrite app_nil_r|].
  destruct t as [now raced e| |]; cbn [MacEmulation.run MacEmulation.step wakes].
  - unfold mbind, ST_bind, gets. cbn beta iota. rewrite Hj. cbn. by apply IH.
  - unfold poll_task, mbind, ST_bind, gets. cbn beta iota. rewrite Et. destruct st; cbn; [|by apply (IH Selecting)].
    by destruct (IH Selecting (set_task (Some (key, Selecting)) s) Hj eq_refl) as (s' & E & Hj' & Ep); exists s'.
  - unfold wake_task, mbind, ST_bind, gets. cbn beta iota. rewrite Et. destruct st; cbn; [by apply (IH Spawned)|].
    rewrite key_event_ok. destruct (IH Selecting (add_post (repetition key (modifier_state s)) (one_created s)) Hj Et) as (s' & E & Hj' & Ep).
    exists s'. split; [done|]. split; [done|]. rewrite Ep. cbn. by rewrite <- app_assoc.
Qed.

(** The event of a key that finds a task that was not polled. *)
Lemma unpolled_hangs now raced t key st code c s :
  joining s = false → repeat_task s = Some (code, Spawned) → mapped (Keyboard (Key t key st)) = Some c →
  ∃ s', step (Consume now raced (Keyboard (Key t key st))) s = (Diverge, s') ∧ joining s' = true ∧
    repeat_task s' = Some (code, Spawned) ∧ keys_down (posted s') = keys_down (posted s).
Proof.
  intros Hj Et Hm. cbn [MacEmulation.step]. unfold mbind at 1, ST_bind at 1, gets. cbn beta iota. rewrite Hj.
  cbn [MacEmulation.consume]. unfold on_key. cbn [mapped] in Hm. destruct (mac_of_evdev (wrapU 16 key)); [|done].
  unfold mbind at 1, ST_bind at 1, gets. cbn beta iota. unfold mbind at 1, ST_bind at 1.
  destruct (update_modifiers _ _ _) as [m|].
  - unfold mbind at 1, ST_bind at 1, modify_st. rewrite modifier_event_ok.
    exists (set_joining (add_post (FlagsPost (to_cgevent_flags m)) (one_created (set_mods m s)))).
    split; [|by split_and!; [|cbn|cbn; apply keys_down_other]].
    destruct (st =? 1); unfold spawn_repeat_task, cancel_repeat_task, mbind, ST_bind, gets; cbn; by rewrite Et.
  - exists (set_joining s). split; [|done]. cbn.
    destruct (st =? 1); unfold spawn_repeat_task, cancel_repeat_task, mbind, ST_bind, gets; cbn; by rewrite Et.
Qed.
End mac_laws.

(** * Properties *)

(** One display of 1920 by 1080; key codes are kept. *)
Definition demo_bounds (d : Z) : DisplayRect := mkRect f64_zero f64_zero (of_Z 1920) (of_Z 1080).
Definition demo_at (p : point) : Z * list Z :=
  (0, if f64_le f64_zero (fst p) && f64_lt (fst p) (of_Z 1920) && f64_le f64_zero (snd p) && f64_lt (snd p) (of_Z 1080) then [1] else []).
Definition demo_run : list turn → MacOSEmulation → outcome Empty_set MacOSEmulation :=
  run (λ _, true) (λ _, (of_Z 1900, of_Z 500)) demo_at demo_bounds Some elements.
Definition key (k st : Z) : turn := Consume 0 false (Keyboard (Key 0 k st)).
Lemma demo_usable d : usable (demo_bounds d).
Proof. split; vm_compute; reflexivity. Qed.

(** Whatever the events and however the repeating task is scheduled, as long as
    events can be created, displays have a pixel and no wheel turns by the
    least integer, nothing panics, and by what was posted at most one key is
    down: the one that repeats. *)
Theorem one_key_down creates cursor at_point bounds mac_of_evdev order ts :
  (∀ n, creates n = true) → (∀ d, usable (bounds d)) → Forall turn_ok ts → Z.of_nat (length ts) < 2 ^ 63 →
  ∃ s, run creates cursor at_point bounds mac_of_evdev order ts new = Ok s ∧
    keys_down (posted s) = task_key (repeat_task s) ∧ (joining s = true → is_Some (repeat_task s)).
Proof.
  intros Hc Hb Ht Hn. destruct (run_keeps_fine creates cursor at_point bounds mac_of_evdev order Hc Hb ts 0 new new_fine Ht Hn) as (s & E & [H1 _ H3]).
  by exists s.
Qed.

Lemma one_key_down_witness :
  ∃ s, demo_run [key 30 1; PollTask; key 48 1; key 30 0; WakeTask; PollTask; WakeTask] new = Ok s ∧ keys_down (posted s) = {[48]}.
Proof.
  destruct (one_key_down (λ _, true) (λ _, (of_Z 1900, of_Z 500)) demo_at demo_bounds Some elements
    [key 30 1; PollTask; key 48 1; key 30 0; WakeTask; PollTask; WakeTask]) as (s & E & Hk & _);
    [done|apply demo_usable| |cbn; lia|].
  - unfold key. repeat (apply Forall_cons; split; [cbn; unfold inU; try lia; done|]). by apply Forall_nil.
  - exists s. split; [exact E|]. rewrite Hk. vm_compute in E. by injection E as <-.
Defined.

(** C15. When every event of a key finds the task of the one before at work and
    no sleep ends as it is cancelled, no call hangs, and the key that is down
    is the one that the last event of a key pressed: a second key releases
    the first one, and the release of either releases both. *)
Theorem keys_follow creates cursor at_point bounds mac_of_evdev order ts :
  (∀ n, creates n = true) → (∀ d, usable (bounds d)) → Forall turn_ok ts → Z.of_nat (length ts) < 2 ^ 63 →
  in_time mac_of_evdev false ts →
  ∃ s, run creates cursor at_point bounds mac_of_evdev order ts new = Ok s ∧ joining s = false ∧
    keys_down (posted s) = from_option singleton ∅ (last_key mac_of_evdev ts).
Proof.
  intros Hc Hb Ht Hn Hi.
  destruct (run_works creates cursor at_point bounds mac_of_evdev order Hc Hb ts 0 false None new new_fine) as (s & fr & E & [H1 _ _] & (Hj & Ek & _)); [by split_and!|done..|].
  exists s. split; [done|]. split; [done|]. rewrite H1. unfold last_key. rewrite <- Ek. by destruct (repeat_task s).
Qed.

(** The first key is held all the time, and yet nothing is down in the end. *)
Lemma keys_follow_witness :
  ∃ s, demo_run [key 17 1; PollTask; key 57 1; PollTask; WakeTask; key 57 0] new = Ok s ∧ joining s = false ∧ keys_down (posted s) = ∅.
Proof.
  destruct (keys_follow (λ _, true) (λ _, (of_Z 1900, of_Z 500)) demo_at demo_bounds Some elements
    [key 17 1; PollTask; key 57 1; PollTask; WakeTask; key 57 0]) as (s & E & Hj & Hk);
    [done|apply demo_usable| |cbn; lia|by cbn|].
  - unfold key. repeat (apply Forall_cons; split; [cbn; unfold inU; try lia; done|]). by apply Forall_nil.
  - exists s. split; [exact E|]. split; [exact Hj|]. by rewrite Hk.
Defined.

(** C16. When two events of keys are taken one after the other, before the task
    that the first one spawned has run, the second one notifies nobody: it
    hangs, no later event is taken, and the key repeats for as long as its task
    is scheduled. *)
Theorem burst_hangs creates cursor at_point bounds mac_of_evdev order s now1 now2 raced1 raced2 t1 t2 key1 key2 code st2 c2 ts :
  (∀ n, creates n = true) → joining s = false → repeat_task s = None →
  mapped mac_of_evdev (Keyboard (Key t1 key1 1)) = Some (code, 1) →
  mapped mac_of_evdev (Keyboard (Key t2 key2 st2)) = Some c2 →
  let run := run creates cursor at_point bounds mac_of_evdev order in
  let burst := [Consume now1 raced1 (Keyboard (Key t1 key1 1)); Consume now2 raced2 (Keyboard (Key t2 key2 st2))] in
  ∃ s2 s', run burst s = Ok s2 ∧ code ∈ keys_down (posted s2) ∧
    run (burst ++ ts) s = Ok s' ∧ joining s' = true ∧
    posted s' = posted s2 ++ replicate (wakes false ts) (repetition code (modifier_state s2)).
Proof.
  intros Hc Hj Et Hm1 Hm2. cbn zeta.
  assert (∃ s1, step creates cursor at_point bounds mac_of_evdev order (Consume now1 raced1 (Keyboard (Key t1 key1 1))) s = (Ok tt, s1) ∧
    joining s1 = false ∧ repeat_task s1 = Some (code, Spawned) ∧ code ∈ keys_down (posted s1)) as (s1 & E1 & Hj1 & Et1 & Hd1).
  { cbn [step]. unfold mbind at 1, ST_bind at 1, gets. cbn beta iota. rewrite Hj. cbn [consume]. unfold on_key. cbn [mapped] in Hm1.
    destruct (mac_of_evdev (wrapU 16 key1)) as [c|]; [|done]. injection Hm1 as <-.
    unfold mbind at 1, ST_bind at 1, gets. cbn beta iota. unfold mbind at 1, ST_bind at 1.
    destruct (update_modifiers _ _ _) as [m|]; [unfold mbind at 1, ST_bind at 1, modify_st; rewrite modifier_event_ok by done|];
      cbn; unfold spawn_repeat_task, cancel_repeat_task, mbind, ST_bind, gets; cbn; rewrite Et; cbn; rewrite key_event_ok by done;
      (eexists; split; [done|]; split; [done|]; split; [done|]; cbn; rewrite keys_down_snoc; cbn; set_solver). }
  destruct (unpolled_hangs creates cursor at_point bounds mac_of_evdev order Hc now2 raced2 t2 key2 st2 code c2 s1 Hj1 Et1 Hm2) as (s2 & E2 & Hj2 & Et2 & Hd2).
  destruct (stuck_run creates cursor at_point bounds mac_of_evdev order Hc code ts Spawned s2 Hj2 Et2) as (s' & E & Hj' & Ep).
  exists s2, s'. cbn [run app]. rewrite E1, E2. split_and!; [done|by rewrite Hd2|done|done|done].
Qed.
(** A key pressed and released in one go, and released again much later. *)
Lemma burst_hangs_witness :
  ∃ s2 s', demo_run [key 30 1; key 30 0] new = Ok s2 ∧ 30 ∈ keys_down (posted s2) ∧
    demo_run [key 30 1; key 30 0; PollTask; WakeTask; WakeTask; key 30 0; WakeTask] new = Ok s' ∧ joining s' = true ∧
    posted s' = posted s2 ++ replicate 3 (repetition 30 (modifier_state s2)).
Proof.
  apply (burst_hangs (λ _, true) (λ _, (of_Z 1900, of_Z 500)) demo_at demo_bounds Some elements new 0 0 false false 0 0 30 30 30 0 (30, 0)
    [PollTask; WakeTask; WakeTask; key 30 0; WakeTask]); done.
Defined.

(** ** The cursor *)

Definition inside (b : DisplayRect) (x y : double) : Prop :=
  f64_le (rx b) x = true ∧ f64_le x (f64_sub (f64_add (rx b) (rw b)) f64_one) = true ∧
  f64_le (ry b) y = true ∧ f64_le y (f64_sub (f64_add (ry b) (rh b)) f64_one) = true.
(** The display that a movement ends on: the one at its target, or the one it
    starts on. *)
Definition target_display (at_point : point → Z * list Z) (x y x' y' : double) : option Z :=
  d ← get_display_at_point at_point x y; Some (default d (get_display_at_point at_point x' y')).

Lemma motion_posts creates cursor at_point bounds order dx dy x y s :
  creates (created s) = true → creates (S (created s)) = true → cursor (created s) = (x, y) →
  match clamp_to_screen_space at_point bounds x y dx dy with
  | Ok p => ∃ ty s', on_motion creates cursor at_point bounds order dx dy s = (Ok tt, s') ∧
      posted s' = posted s ++ [MovePost ty p (as_signed 64 dx) (as_signed 64 dy)]
  | _ => ∃ s', on_motion creates cursor at_point bounds order dx dy s = (Panic, s') ∧ posted s' = posted s
  end.
Proof.
  intros Hc1 Hc2 Hp.
  assert (get_mouse_location creates cursor s = (Ok (Some (x, y)), one_created s)) as El.
  { unfold get_mouse_location, create_event, mbind, ST_bind, gets, modify_st. cbn. by rewrite Hc1, <- Hp. }
  destruct (clamp_to_screen_space at_point bounds x y dx dy) as [p| | |] eqn:Ec;
    unfold on_motion, mbind at 1, ST_bind at 1; rewrite El, Ec; [|by exists (one_created s)..].
  unfold create_and_post, create_event, mbind, ST_bind, gets, modify_st. cbn. rewrite Hc2. do 2 eexists. by split.
Qed.

(** C38. A movement leaves the cursor on a display: the one where it leads, or else
    the one it comes from; it ends exactly where it leads if that is inside.  A
    cursor on no display stays, and a display less than a pixel wide or high
    panics. *)
Theorem cursor_stays creates cursor at_point bounds mac_of_evdev order now raced t dx dy s x y :
  creates (created s) = true → creates (S (created s)) = true → cursor (created s) = (x, y) → joining s = false →
  let x' := f64_add x (double_of dx) in
  let y' := f64_add y (double_of dy) in
  is_nan x' = false → is_nan y' = false →
  let r := step creates cursor at_point bounds mac_of_evdev order (Consume now raced (Pointer (Motion t dx dy))) s in
  match target_display at_point x y x' y' with
  | None => ∃ ty s', r = (Ok tt, s') ∧ posted s' = posted s ++ [MovePost ty (x, y) (as_signed 64 (double_of dx)) (as_signed 64 (double_of dy))]
  | Some d =>
      if decide (usable (bounds d)) then
        ∃ ty px py s', r = (Ok tt, s') ∧
          posted s' = posted s ++ [MovePost ty (px, py) (as_signed 64 (double_of dx)) (as_signed 64 (double_of dy))] ∧
          inside (bounds d) px py ∧ (inside (bounds d) x' y' → (px, py) = (x', y'))
      else ∃ s', r = (Panic, s') ∧ posted s' = posted s
  end.
Proof.
  intros Hc1 Hc2 Hp Hj x' y' Hx Hy. cbn zeta. cbn [step]. unfold mbind, ST_bind, gets. cbn beta iota. rewrite Hj. cbn [consume].
  pose proof (motion_posts creates cursor at_point bounds order (double_of dx) (double_of dy) x y s Hc1 Hc2 Hp) as H.
  unfold target_display. unfold clamp_to_screen_space in H. fold x' y' in H.
  destruct (get_display_at_point at_point x y) as [d0|]; cbn; [|exact H].
  set (d := default d0 (get_display_at_point at_point x' y')) in *. cbn in H.
  case_decide as Hu.
  - destruct Hu as [Hux Huy]. destruct (clamp_ok x' _ _ Hux) as [px Ex]. destruct (clamp_ok y' _ _ Huy) as [py Ey].
    rewrite Ex, Ey in H. cbn in H. destruct H as (ty & s' & E & Ep). exists ty, px, py, s'. split; [done|]. split; [done|].
    apply f64_clamp_bounds in Ex as (A1 & A2 & A3); [|done]. apply f64_clamp_bounds in Ey as (B1 & B2 & B3); [|done].
    split; [done|]. intros (C1 & C2 & C3 & C4). by rewrite A3, B3.
  - destruct (f64_le (rx (bounds d)) (f64_sub (f64_add (rx (bounds d)) (rw (bounds d))) f64_one)) eqn:Hux.
    + destruct (clamp_ok x' _ _ Hux) as [px Ex]. rewrite Ex in H. cbn in H.
      destruct (f64_le (ry (bounds d)) (f64_sub (f64_add (ry (bounds d)) (rh (bounds d))) f64_one)) eqn:Huy; [by destruct Hu|]. by rewrite (f64_clamp_panics _ _ _ Huy) in H.
    + by rewrite (f64_clamp_panics _ _ _ Hux) in H.
Qed.
Lemma cursor_stays_witness :
  ∃ ty px py s', step (λ _, true) (λ _, (of_Z 1900, of_Z 500)) demo_at demo_bounds Some elements
      (Consume 0 false (Pointer (Motion 0 (f64_of (of_Z 50)) (f64_of (of_Z 1))))) new = (Ok tt, s') ∧
    posted s' = [MovePost ty (px, py) 50 1] ∧ inside (demo_bounds 1) px py.
Proof.
  destruct (cursor_stays (λ _, true) (λ _, (of_Z 1900, of_Z 500)) demo_at demo_bounds Some elements 0 false 0
    (f64_of (of_Z 50)) (f64_of (of_Z 1)) new (of_Z 1900) (of_Z 500) eq_refl eq_refl eq_refl eq_refl eq_refl eq_refl)
    as (ty & px & py & s' & E & Ep & Hi & _).
  exists ty, px, py, s'. split; [exact E|]. split; [exact Ep|exact Hi].
Defined.

(** ** Between two Macs *)


Definition wheel_posts (u : ScrollEventUnit) (vh : Z * Z) : list post :=
  (if fst vh =? 0 then [] else [ScrollPost u 1 (fst vh) 0 0]) ++ (if snd vh =? 0 then [] else [ScrollPost u 2 0 (snd vh) 0]).

Lemma flags_roundtrip f : to_cgevent_flags (set_modifiers (MacCapture.depressed_of f) 0 (MacCapture.locked_of f) 0) = f.
Proof. by destruct f as [[] [] [] [] []]. Qed.

(** What the capture backend makes of a wheel and of a trackpad. *)
Definition line_events (vh : Z * Z) : list Event :=
  (if fst vh =? 0 then [] else [Pointer (AxisDiscrete120 0 (- (40 * fst vh)))]) ++
  (if snd vh =? 0 then [] else [Pointer (AxisDiscrete120 1 (40 * snd vh))]).
Definition pixel_events (vh : Z * Z) : list Event :=
  (if fst vh =? 0 then [] else [Pointer (Axis 0 0 (f64_of (f64_opp (of_Z (fst vh)))))]) ++
  (if snd vh =? 0 then [] else [Pointer (Axis 0 1 (f64_of (of_Z (snd vh))))]).
Definition lines_fit (vh : Z * Z) : Prop := ∀ x, x = fst vh ∨ x = snd vh → inS 32 x ∧ inS 32 (40 * x).
Definition pixels_fit (vh : Z * Z) : Prop := ∀ x, x = fst vh ∨ x = snd vh → - 2 ^ 31 < x < 2 ^ 31.

Lemma captured_lines kmap ev mods :
  MacCapture.is_continuous ev = 0 → lines_fit (MacCapture.line_delta ev) →
  fst <$> MacCapture.get_events kmap MacCapture.ScrollWheel ev mods = Ok (line_events (MacCapture.line_delta ev)).
Proof.
  intros Hi Hr. unfold MacCapture.get_events. rewrite Hi. cbn [negb Z.eqb].
  destruct (MacCapture.line_delta ev) as [v h]. destruct (Hr v (or_introl eq_refl)) as [Hv1 Hv2]. destruct (Hr h (or_intror eq_refl)) as [Hh1 Hh2].
  assert (∀ x, inS 32 (40 * x) → inS 32 (- (40 * x))) as Hneg by (unfold inS; change (2 ^ (32 - 1)) with (2 ^ 31); intros; lia).
  unfold MacCapture.neg_lines, MacCapture.lines, MacCapture.V120_STEPS_PER_LINE. rewrite !wrapS_id by (done || lia).
  unfold MacCapture.checked. rewrite !(decide_True (P:=inS 32 (40 * _))) by done. cbn. rewrite decide_True by auto.
  unfold line_events. cbn. by destruct (v =? 0), (h =? 0).
Qed.
Lemma captured_pixels kmap ev mods :
  MacCapture.is_continuous ev ≠ 0 →
  fst <$> MacCapture.get_events kmap MacCapture.ScrollWheel ev mods = Ok (pixel_events (MacCapture.point_delta ev)).
Proof.
  intros Hi. unfold MacCapture.get_events. apply Z.eqb_neq in Hi. rewrite Hi. cbn. by destruct (MacCapture.point_delta ev).
Qed.

Section relay.
Context (creates : nat → bool) (cursor : nat → point) (at_point : point → Z * list Z) (bounds : Z → DisplayRect).
Context (mac_of_evdev : Z → option Z) (order : gset Z → list Z) (mac_keymap : Z → option Z).
Hypothesis Hcreates : ∀ n, creates n = true.
Abbreviation step := (step creates cursor at_point bounds mac_of_evdev order).
Abbreviation run := (run creates cursor at_point bounds mac_of_evdev order).
Definition relay (es : list Event) : list turn := Consume 0 false <$> es.

(** A scroll posts its wheels and lets no other event wait. *)
Definition posts (e : Event) (p : post) : Prop := ∀ s, joining s = false →
  ∃ s', step (Consume 0 false e) s = (Ok tt, s') ∧ posted s' = posted s ++ [p] ∧ joining s' = false.

Lemma scroll_posts u d axis v s :
  axis = 0 ∨ axis = 1 → inS 32 (- v) →
  ∃ s', on_scroll creates u d axis v s = (Ok tt, s') ∧ joining s' = joining s ∧
    posted s' = posted s ++ [if axis =? 0 then ScrollPost u 1 (Z.quot (- v) d) 0 0 else ScrollPost u 2 0 (Z.quot v d) 0].
Proof.
  intros Ha Hv. unfold on_scroll, MacCapture.checked. rewrite decide_True by done.
  destruct Ha as [-> | ->]; cbn; unfold mbind, ST_bind; rewrite create_and_post_ok by done; cbn; by eexists.
Qed.
Lemma lines_post axis v :
  axis = 0 ∨ axis = 1 → inS 32 (- (40 * v)) →
  posts (Pointer (AxisDiscrete120 axis (if axis =? 0 then - (40 * v) else 40 * v)))
    (if axis =? 0 then ScrollPost LINE 1 v 0 0 else ScrollPost LINE 2 0 v 0).
Proof.
  intros Ha Hv s Hj. cbn [MacEmulation.step]. unfold mbind, ST_bind, gets. cbn beta iota. rewrite Hj. cbn [consume].
  assert (∃ s', on_scroll creates LINE (Z.quot 120 LINES_PER_STEP) axis (if axis =? 0 then - (40 * v) else 40 * v) s = (Ok tt, s') ∧ joining s' = joining s ∧
    posted s' = posted s ++ [if axis =? 0 then ScrollPost LINE 1 v 0 0 else ScrollPost LINE 2 0 v 0]) as (s' & E & E1 & E2).
  { destruct (scroll_posts LINE (Z.quot 120 LINES_PER_STEP) axis (if axis =? 0 then - (40 * v) else 40 * v) s Ha) as (s' & E & E1 & E2).
    - unfold inS in *. change (2 ^ (32 - 1)) with (2 ^ 31) in *. destruct Ha as [-> | ->]; cbn; lia.
    - exists s'. split; [done|]. split; [done|]. rewrite E2. change (120 ÷ LINES_PER_STEP) with 40.
      destruct Ha as [-> | ->]; cbn; do 3 f_equal; rewrite ?Z.opp_involutive, Z.mul_comm, Z.quot_mul; lia. }
  exists s'. by rewrite E1.
Qed.

Lemma pixels_post axis v :
  axis = 0 ∨ axis = 1 → v ≠ 0 → - 2 ^ 31 < v < 2 ^ 31 →
  posts (Pointer (Axis 0 axis (f64_of (if axis =? 0 then f64_opp (of_Z v) else of_Z v))))
    (if axis =? 0 then ScrollPost PIXEL 1 v 0 0 else ScrollPost PIXEL 2 0 v 0).
Proof.
  intros Ha Hz Hv s Hj. cbn [MacEmulation.step]. unfold mbind, ST_bind, gets. cbn beta iota. rewrite Hj. cbn [consume].
  set (w := if axis =? 0 then - v else v).
  assert (- 2 ^ 31 < w < 2 ^ 31) as Hw by (subst w; destruct (axis =? 0); lia).
  assert (double_of (f64_of (if axis =? 0 then f64_opp (of_Z v) else of_Z v)) = of_Z w) as ->.
  { assert ((if axis =? 0 then f64_opp (of_Z v) else of_Z v) = of_Z w) as ->
      by (subst w; destruct (axis =? 0); [by rewrite of_Z_opp|done]).
    unfold double_of, f64_of. cbn. apply from_to_bits, of_Z_valid. lia. }
  assert (inS 32 w ∧ inS 32 (- w)) as [Hw1 Hw2].
  { unfold inS. change (2 ^ (32 - 1)) with (2 ^ 31). lia. }
  rewrite as_of_i32 by done.
  destruct (scroll_posts PIXEL 1 axis w s Ha Hw2) as (s' & E & E1 & E2). exists s'. rewrite E1. split; [done|]. split; [|done].
  rewrite E2. subst w. destruct Ha as [-> | ->]; cbn; by rewrite Z.quot_1_r, ?Z.opp_involutive.
Qed.

Lemma lines_posted vh : lines_fit vh → Forall2 posts (line_events vh) (wheel_posts LINE vh).
Proof.
  destruct vh as [v h]. intros Hr. destruct (Hr v (or_introl eq_refl)) as [_ Hv]. destruct (Hr h (or_intror eq_refl)) as [_ Hh].
  assert (∀ x, inS 32 (40 * x) → inS 32 (- (40 * x))) as Hneg by (unfold inS; change (2 ^ (32 - 1)) with (2 ^ 31); intros; lia).
  unfold line_events, wheel_posts. cbn. apply Forall2_app.
  - destruct (v =? 0); repeat constructor. apply (lines_post 0); auto.
  - destruct (h =? 0); repeat constructor. apply (lines_post 1); auto.
Qed.
Lemma pixels_posted vh : pixels_fit vh → Forall2 posts (pixel_events vh) (wheel_posts PIXEL vh).
Proof.
  destruct vh as [v h]. intros Hr. pose proof (Hr v (or_introl eq_refl)) as Hv. pose proof (Hr h (or_intror eq_refl)) as Hh.
  unfold pixel_events, wheel_posts. cbn. apply Forall2_app.
  - destruct (Z.eqb_spec v 0); repeat constructor. apply (pixels_post 0); auto.
  - destruct (Z.eqb_spec h 0); repeat constructor. apply (pixels_post 1); auto.
Qed.

Lemma relay_posts es ps s :
  Forall2 posts es ps → joining s = false → ∃ s', run (relay es) s = Ok s' ∧ posted s' = posted s ++ ps ∧ joining s' = false.
Proof.
  intros H. revert s. induction H as [|e p es ps He _ IH]; intros s Hj; [exists s; by rewrite app_nil_r|].
  destruct (He s Hj) as (s1 & E1 & Ep & Hj1). destruct (IH s1 Hj1) as (s2 & E2 & Ep2 & Hj2). exists s2.
  cbn [relay fmap list_fmap MacEmulation.run]. rewrite E1. split; [done|]. split; [|done]. by rewrite Ep2, Ep, <- app_assoc.
Qed.
End relay.

(** What one Mac captures the other posts again: the modifiers with the same
    flags, a wheel with the same number of lines, a trackpad with the same number
    of pixels, both with the signs they came with. *)
Theorem mac_relays creates cursor at_point bounds mac_of_evdev order mac_keymap ev mods s :
  (∀ n, creates n = true) → joining s = false →
  let relayed es ps := ∃ s', run creates cursor at_point bounds mac_of_evdev order (relay es) s = Ok s' ∧ posted s' = posted s ++ ps in
  let captured ty := fst <$> MacCapture.get_events mac_keymap ty ev mods in
  (∀ es, captured MacCapture.FlagsChanged = Ok es →
     ∃ es' e, es = es' ++ [e] ∧ relayed [e] [FlagsPost (MacCapture.flags ev)]) ∧
  (MacCapture.is_continuous ev = 0 → lines_fit (MacCapture.line_delta ev) →
     ∃ es, captured MacCapture.ScrollWheel = Ok es ∧ relayed es (wheel_posts LINE (MacCapture.line_delta ev))) ∧
  (MacCapture.is_continuous ev ≠ 0 → pixels_fit (MacCapture.point_delta ev) →
     ∃ es, captured MacCapture.ScrollWheel = Ok es ∧ relayed es (wheel_posts PIXEL (MacCapture.point_delta ev))).
Proof.
  intros Hc Hj relayed captured. split_and!.
  - intros es [= <-]. eexists _, _. split; [done|]. eexists. cbn. unfold mbind, ST_bind, gets, modify_st. rewrite Hj. cbn.
    rewrite modifier_event_ok by done. split; [done|]. cbn. by rewrite flags_roundtrip.
  - intros Hi Hr. exists (line_events (MacCapture.line_delta ev)). split; [by apply captured_lines|].
    destruct (relay_posts creates cursor at_point bounds mac_of_evdev order _ _ s (lines_posted creates cursor at_point bounds mac_of_evdev order Hc _ Hr) Hj)
      as (s' & E & Ep & _). by exists s'.
  - intros Hi Hr. exists (pixel_events (MacCapture.point_delta ev)). split; [by apply captured_pixels|].
    destruct (relay_posts creates cursor at_point bounds mac_of_evdev order _ _ s (pixels_posted creates cursor at_point bounds mac_of_evdev order Hc _ Hr) Hj)
      as (s' & E & Ep & _). by exists s'.
Qed.
Definition demo_ev : MacCapture.CGEvent :=
  MacCapture.mkCG (f64_zero, f64_zero) (f64_zero, f64_zero) 0 (MacCapture.mkFlags true false false true false) 0 0 (0, 0) (3, -2).
Lemma mac_relays_witness :
  ∃ s', demo_run (relay [Pointer (AxisDiscrete120 0 (-120)); Pointer (AxisDiscrete120 1 (-80))]) new = Ok s' ∧
    posted s' = [ScrollPost LINE 1 3 0 0; ScrollPost LINE 2 0 (-2) 0].
Proof.
  destruct (mac_relays (λ _, true) (λ _, (of_Z 1900, of_Z 500)) demo_at demo_bounds Some elements Some demo_ev 0 new) as (_ & H & _); [done..|].
  destruct (H eq_refl) as (es & E & s' & Er & Ep).
  - unfold lines_fit, inS. cbn. intros x [-> | ->]; lia.
  - vm_compute in E. injection E as <-. by exists s'.
Defined.
