(* ===== verification/LinuxEmulation.v ===== *)
(** The emulation backends of Linux (input-emulation/src/wlroots.rs, x11.rs,
    xdg_desktop_portal.rs and libei.rs) and the dummy one (dummy.rs), a module
    for each.

    What a backend asks of its display server is a log in its state.  The
    answers are arguments: whether a flush of the Wayland connection succeeds,
    whether the portal answers a call, what the devices of libei report. *)

From Stdlib Require Import Floats.SpecFloat.
From S2P Require Import Prelude InputEvent Geometry Scancode Doubles Backend Emulation.
From S2P Require Proto Codec Wire.
#[local] Open Scope Z_scope.

(** * wlroots *)

Module Wlroots.

(** [XMods], with the operations of bitflags on it. *)
Definition toggle (m f : Z) : Z := Z.lxor m f.

Definition pressed_mask (key : Linux.Linux) : Z :=
  match key with
  | Linux.KeyLeftShift | Linux.KeyRightShift => XMods.ShiftMask
  | Linux.KeyLeftCtrl | Linux.KeyRightCtrl => XMods.ControlMask
  | Linux.KeyLeftAlt | Linux.KeyRightalt => XMods.Mod1Mask
  | Linux.KeyLeftMeta | Linux.KeyRightmeta => XMods.Mod4Mask
  | _ => 0
  end.
Definition locked_mask (key : Linux.Linux) : Z :=
  match key with
  | Linux.KeyCapsLock => XMods.LockMask
  | Linux.KeyNumlock => XMods.Mod2Mask
  | Linux.KeyScrollLock => XMods.Mod3Mask
  | _ => 0
  end.
(** The new modifiers, if the key is one. *)
Definition update_by_key_event (mods key state : Z) : option Z :=
  k ← Linux.try_from_u32 key;
  if (pressed_mask k =? 0) && (locked_mask k =? 0) then None
  else Some (if state =? 1 then Z.lor mods (pressed_mask k)
             else toggle (Z.ldiff mods (pressed_mask k)) (locked_mask k)).
Definition update_by_mods_event (depressed locked : Z) : Z :=
  Z.lor (XMods.from_bits_truncate depressed) (XMods.from_bits_truncate locked).
Definition mask_locks (mods : Z) : Z := Z.land mods (Z.lor XMods.LockMask (Z.lor XMods.Mod2Mask XMods.Mod3Mask)).
Definition mask_pressed (mods : Z) : Z :=
  Z.land mods (Z.lor XMods.ShiftMask (Z.lor XMods.ControlMask (Z.lor XMods.Mod1Mask XMods.Mod4Mask))).

(** Requests on a virtual pointer or keyboard, named by the number that their
    creation gave them. *)
Inductive request : Type :=
| CreatePointer (id : nat) | CreateKeyboard (id : nat) | SetKeymap (id : nat) (keymap : Z)
| DestroyPointer (id : nat) | DestroyKeyboard (id : nat)
| PMotion (id : nat) (time : Z) (dx dy : f64)
| PButton (id : nat) (time button state : Z)
| PAxis (id : nat) (time axis : Z) (value : f64)
| PAxisDiscrete (id : nat) (time axis : Z) (value : double) (discrete : Z)
| PAxisSource (id : nat)
| PFrame (id : nat)
| KKey (id : nat) (time key state : Z)
| KModifiers (id : nat) (depressed latched locked group : Z).

Record VirtualInput : Type := mkInput { object : nat; modifiers : Z }.
Record State : Type := mkState {
  keymap : option Z;
  input_for_client : gmap EmulationHandle VirtualInput;
  last_flush_failed : bool;
  requests : list request;
  next_object : nat;
  flushes : nat
}.

Inductive flush_result : Type := Flushed | WouldBlock | ProtocolError | OtherError.
#[export] Instance flush_result_eq_dec : EqDecision flush_result.
Proof. solve_decision. Defined.

Definition set_keymap (k : option Z) (s : State) : State :=
  mkState k (input_for_client s) (last_flush_failed s) (requests s) (next_object s) (flushes s).
Definition set_inputs (m : gmap EmulationHandle VirtualInput) (s : State) : State :=
  mkState (keymap s) m (last_flush_failed s) (requests s) (next_object s) (flushes s).
Definition set_failed (b : bool) (s : State) : State :=
  mkState (keymap s) (input_for_client s) b (requests s) (next_object s) (flushes s).
Definition ask (rs : list request) (s : State) : State :=
  mkState (keymap s) (input_for_client s) (last_flush_failed s) (requests s ++ rs) (next_object s) (flushes s).
Definition one_object (s : State) : State :=
  mkState (keymap s) (input_for_client s) (last_flush_failed s) (requests s) (S (next_object s)) (flushes s).
Definition one_flush (s : State) : State :=
  mkState (keymap s) (input_for_client s) (last_flush_failed s) (requests s) (next_object s) (S (flushes s)).

(** The conversions of the generated enumerations: [Axis] and [ButtonState]
    have the values 0 and 1. *)
Definition try_enum (z : Z) : option Z := if (z =? 0) || (z =? 1) then Some z else None.

Section wlroots.
(** The time of the system in milliseconds, and the answer to a flush. *)
Variable now : Z.
Variable flush : nat → flush_result.
Abbreviation M := (ST State EmulationError).

Definition do_flush : M flush_result := n ← gets flushes; modify_st one_flush ≫= λ _, mret (flush n).

(** [None] when a value has no counterpart in Wayland. *)
Definition consume_event (vi : VirtualInput) (event : Event) : option (list request * VirtualInput) :=
  let id := object vi in
  match event with
  | Pointer (Motion time dx dy) => Some ([PMotion id time dx dy; PFrame id], vi)
  | Pointer (Button time button state) => state ← try_enum state; Some ([PButton id time button state; PFrame id], vi)
  | Pointer (Axis time axis value) => axis ← try_enum axis; Some ([PAxis id time axis value; PFrame id; PFrame id], vi)
  | Pointer (AxisDiscrete120 axis value) =>
      axis ← try_enum axis;
      Some ([PAxisDiscrete id (wrapU 32 now) axis (f64_div (of_Z value) (of_Z 8)) (Z.quot value 120); PAxisSource id; PFrame id; PFrame id], vi)
  | Keyboard (Key time key state) =>
      match update_by_key_event (modifiers vi) key state with
      | Some m => Some ([KKey id time key state; KModifiers id (mask_pressed m) 0 (mask_locks m) 0], mkInput id m)
      | None => Some ([KKey id time key state], vi)
      end
  | Keyboard (Modifiers depressed latched locked group) =>
      Some ([KModifiers id depressed latched locked group], mkInput id (update_by_mods_event depressed locked))
  end.

Definition consume (event : Event) (handle : EmulationHandle) : M unit :=
  inputs ← gets input_for_client;
  match inputs !! handle with
  | None => mret tt
  | Some virtual_input =>
      failed ← gets last_flush_failed;
      blocked ← (if failed : bool then r ← do_flush; mret (bool_decide (r = WouldBlock)) else mret false);
      if blocked : bool then mret tt
      else
        match consume_event virtual_input event with
        | None => panic
        | Some (rs, virtual_input) =>
            modify_st (λ s, ask rs (set_inputs (<[handle := virtual_input]> (input_for_client s)) s)) ≫= λ _,
            r ← do_flush;
            match r with
            | WouldBlock => modify_st (set_failed true)
            | ProtocolError => panic
            | Flushed => modify_st (set_failed false)
            | OtherError => raise Wayland
            end
        end
  end.

Definition add_client (client : EmulationHandle) : M unit :=
  id ← gets next_object;
  modify_st (λ s, ask [CreatePointer id; CreateKeyboard id] (one_object s)) ≫= λ _,
  k ← gets keymap;
  match k with
  | None => panic
  | Some k =>
      modify_st (λ s, ask [SetKeymap id k] (set_inputs (<[client := mkInput id 0]> (input_for_client s)) s))
  end.
Definition destroy_client (handle : EmulationHandle) : M unit :=
  inputs ← gets input_for_client;
  match inputs !! handle with
  | None => mret tt
  | Some input =>
      modify_st (λ s, ask [DestroyPointer (object input); DestroyKeyboard (object input)] (set_inputs (delete handle inputs) s))
  end.
Definition create (handle : EmulationHandle) : M unit := add_client handle ≫= λ _, do_flush ≫= λ _, mret tt.
Definition destroy (handle : EmulationHandle) : M unit := destroy_client handle ≫= λ _, do_flush ≫= λ _, mret tt.

(** [new] dispatches until the keyboard of the seat has sent a keymap: a
    list of what the dispatches bring, [None] for the end of the connection. *)
Definition blocked_forever : M unit := λ s, (Diverge, s).
Fixpoint await_keymap (batches : list (option (option Z))) : M unit :=
  k ← gets keymap;
  match k, batches with
  | Some _, _ => mret tt
  | None, [] => blocked_forever
  | None, None :: _ => raise Wayland
  | None, Some k :: batches => modify_st (λ s, match k with Some k => set_keymap (Some k) s | None => s end) ≫= λ _, await_keymap batches
  end.
End wlroots.
Definition new : State := mkState None ∅ false [] 0 0.
End Wlroots.

(** * X11 *)

Module X11.

(** The calls of the XTest extension. *)
Inductive call : Type :=
| RelativeMotion (dx dy : Z)
| FakeButton (button : Z) (state : Z)
| FakeKey (key : Z) (state : Z)
| Flush.
Abbreviation M := (ST (list call) EmulationError).
Definition fake (c : call) : M unit := modify_st (λ l, l ++ [c]).

Definition relative_motion (dx dy : Z) : M unit := fake (RelativeMotion dx dy).
Definition emulate_mouse_button (button state : Z) : M unit :=
  let x11_button :=
    if button =? BTN_RIGHT then 3 else if button =? BTN_MIDDLE then 2 else if button =? BTN_BACK then 8
    else if button =? BTN_FORWARD then 9 else if button =? BTN_LEFT then 1 else 1 in
  fake (FakeButton x11_button (wrapS 32 state)).

Definition SCROLL_UP : Z := 4.
Definition SCROLL_DOWN : Z := 5.
Definition SCROLL_LEFT : Z := 6.
Definition SCROLL_RIGHT : Z := 7.
Definition emulate_scroll (axis : Z) (value : double) : M unit :=
  let direction :=
    if axis =? 1 then if f64_lt value f64_zero then SCROLL_LEFT else SCROLL_RIGHT
    else if f64_lt value f64_zero then SCROLL_UP else SCROLL_DOWN in
  fake (FakeButton direction 1) ≫= λ _, fake (FakeButton direction 0).
(** The addition panics when it overflows in a build that checks. *)
Definition emulate_key (key state : Z) : M unit :=
  if decide (inU 32 (key + 8)) then fake (FakeKey (key + 8) state) else panic.

Definition consume (event : Event) : M unit :=
  match event with
  | Pointer (Motion _ dx dy) => relative_motion (as_signed 32 (double_of dx)) (as_signed 32 (double_of dy))
  | Pointer (Button _ button state) => emulate_mouse_button button state
  | Pointer (Axis _ axis value) => emulate_scroll axis (double_of value)
  | Pointer (AxisDiscrete120 axis value) => emulate_scroll axis (of_Z value)
  | Keyboard (Key _ key state) => emulate_key key state
  | Keyboard (Modifiers _ _ _ _) => mret tt
  end ≫= λ _, fake Flush.
End X11.

(** * The remote desktop portal *)

Module Portal.

Inductive PortalAxis : Type := Vertical | Horizontal.
Inductive KeyState : Type := Released | Pressed.
(** The calls on the portal. *)
Inductive call : Type :=
| NotifyMotion (dx dy : f64)
| NotifyButton (button : Z) (state : KeyState)
| NotifyAxisDiscrete (axis : PortalAxis) (steps : Z)
| NotifyAxis (dx dy : double)
| NotifyKeycode (key : Z) (state : KeyState)
| CloseSession
| ReceiveClosed.
Section portal.
Variable answers : nat → bool.
Abbreviation M := (ST (list call) EmulationError).
Definition notify (c : call) : M unit :=
  n ← gets length; modify_st (λ l, l ++ [c]) ≫= λ _, if answers n then mret tt else raise Ashpd.

Definition key_state (state : Z) : KeyState := if state =? 0 then Released else Pressed.
Definition axis_of (axis : Z) : PortalAxis := if axis =? 0 then Vertical else Horizontal.
Definition consume (event : Event) : M unit :=
  match event with
  | Pointer (Motion _ dx dy) => notify (NotifyMotion dx dy)
  | Pointer (Button _ button state) => notify (NotifyButton (wrapS 32 button) (key_state state))
  | Pointer (AxisDiscrete120 axis value) => notify (NotifyAxisDiscrete (axis_of axis) (Z.quot value 120))
  | Pointer (Axis _ axis value) =>
      match axis_of axis with
      | Vertical => notify (NotifyAxis f64_zero (double_of value))
      | Horizontal => notify (NotifyAxis (double_of value) f64_zero)
      end
  | Keyboard (Key _ key state) => notify (NotifyKeycode (wrapS 32 key) (key_state state))
  | Keyboard (Modifiers _ _ _ _) => mret tt
  end.
Definition terminate : M unit := attempt (notify CloseSession) ≫= λ _, attempt (notify ReceiveClosed) ≫= λ _, mret tt.
End portal.
End Portal.

(** * libei *)

Module Libei.

Definition as_f32 (x : double) : double := match x with S754_finite s m e => binary_round 24 128 s m e | x => x end.

(** Requests on the devices of the connection, named by numbers. *)
Inductive request : Type :=
| MotionRelative (device : Z) (dx dy : double)
| ButtonState (device : Z) (button : Z) (pressed : bool)
| Scroll (device : Z) (dx dy : double)
| ScrollDiscrete (device : Z) (dx dy : Z)
| KeyState (device : Z) (key : Z) (pressed : bool)
| DeviceFrame (device : Z)
| BindCapabilities (seat : Z)
| StartEmulating (device : Z).

Record Devices : Type := mkDevices {
  pointer : option Z; scroll : option Z; button : option Z; keyboard : option Z
}.
Record LibeiEmulation : Type := mkLibei {
  devices : Devices;
  libei_error : bool;
  error : option EmulationError;
  requests : list request;
  flushes : nat
}.
Definition new : LibeiEmulation := mkLibei (mkDevices None None None None) false None [] 0.
Definition set_devices (d : Devices) (s : LibeiEmulation) : LibeiEmulation :=
  mkLibei d (libei_error s) (error s) (requests s) (flushes s).
Definition set_error (b : bool) (e : option EmulationError) (s : LibeiEmulation) : LibeiEmulation :=
  mkLibei (devices s) b e (requests s) (flushes s).
Definition ask (rs : list request) (s : LibeiEmulation) : LibeiEmulation :=
  mkLibei (devices s) (libei_error s) (error s) (requests s ++ rs) (flushes s).
Definition one_flush (s : LibeiEmulation) : LibeiEmulation :=
  mkLibei (devices s) (libei_error s) (error s) (requests s) (S (flushes s)).

(** What the connection reports; a device comes with its interfaces. *)
Inductive EiReport : Type :=
| Disconnected
| SeatAdded (seat : Z)
| SeatRemoved
| DeviceAdded (device : Z) (has_pointer has_keyboard has_scroll has_button : bool)
| DeviceRemoved (device : Z)
| DevicePaused (device : Z)
| DeviceResumed (device : Z)
| KeyboardModifiers
| OtherEvent.

Section libei.
Variable flushed : nat → bool.
Abbreviation M := (ST LibeiEmulation EmulationError).
Definition flush : M unit :=
  n ← gets flushes; modify_st one_flush ≫= λ _, if flushed n then mret tt else raise Io.

(** A request on a device that is there, with its frame. *)
Definition on_device (d : option Z) (r : Z → request) : M unit :=
  match d with Some d => modify_st (ask [r d; DeviceFrame d]) | None => mret tt end.
Definition pressed (state : Z) : bool := negb (state =? 0).

(** An error that the task of the connection left is taken once. *)
Definition check_error : M unit :=
  s ← get_st;
  if libei_error s then
    match error s with
    | Some e => modify_st (set_error (libei_error s) None) ≫= λ _, raise e
    | None => mret tt
    end
  else mret tt.

Definition consume (event : Event) : M unit :=
  check_error ≫= λ _,
  ds ← gets devices;
  match event with
  | Pointer (Motion _ dx dy) => on_device (pointer ds) (λ d, MotionRelative d (as_f32 (double_of dx)) (as_f32 (double_of dy)))
  | Pointer (Button _ b state) => on_device (button ds) (λ d, ButtonState d b (pressed state))
  | Pointer (Axis _ axis value) =>
      on_device (scroll ds) (λ d, if axis =? 0 then Scroll d f64_zero (as_f32 (double_of value)) else Scroll d (as_f32 (double_of value)) f64_zero)
  | Pointer (AxisDiscrete120 axis value) =>
      on_device (scroll ds) (λ d, if axis =? 0 then ScrollDiscrete d 0 value else ScrollDiscrete d value 0)
  | Keyboard (Key _ key state) => on_device (keyboard ds) (λ d, KeyState d key (pressed state))
  | Keyboard (Modifiers _ _ _ _) => mret tt
  end ≫= λ _,
  flush.

(** [e.device().interface::<T>()] replaces the device of a kind. *)
Definition add_device (d : Z) (p k s b : bool) (ds : Devices) : Devices :=
  mkDevices (if p then Some d else pointer ds) (if s then Some d else scroll ds)
    (if b then Some d else button ds) (if k then Some d else keyboard ds).

(** A turn of [ei_event_handler]: [None] is the end of the stream, an error
    what the stream reports. *)
Definition ei_event_turn (event : option (EmulationError + EiReport)) : M unit :=
  match event with
  | None => raise EndOfStream
  | Some (inl e) => raise e
  | Some (inr event) =>
      match event with
      | Disconnected => raise EndOfStream
      | SeatAdded seat => modify_st (ask [BindCapabilities seat])
      | DeviceAdded d p k s b => modify_st (λ st, set_devices (add_device d p k s b (devices st)) st)
      | DeviceResumed d => modify_st (ask [StartEmulating d])
      | SeatRemoved | DeviceRemoved _ | DevicePaused _ | KeyboardModifiers => mret tt
      | OtherEvent => panic
      end ≫= λ _, flush
  end.
(** The task: an error is left for the next event, and ends it. *)
Definition ei_task_turn (event : option (EmulationError + EiReport)) : M bool :=
  r ← attempt (ei_event_turn event);
  match r with
  | inr _ => mret true
  | inl e => modify_st (set_error true (Some e)) ≫= λ _, mret false
  end.

(** The turns of the two tasks; [running] is whether the one of the
    connection still listens. *)
Inductive turn : Type := Consume (e : Event) | Report (e : option (EmulationError + EiReport)).
Definition step (running : bool) (t : turn) : M bool :=
  match t with
  | Consume e => attempt (consume e) ≫= λ _, mret running
  | Report e => if running then ei_task_turn e else mret false
  end.
Fixpoint run (running : bool) (ts : list turn) : M bool :=
  match ts with [] => mret running | t :: ts => running ← step running t; run running ts end.
End libei.
End Libei.

(** * The dummy backend *)

Module Dummy.
Definition consume (event : Event) (handle : EmulationHandle) : ST (list (Event * EmulationHandle)) EmulationError unit :=
  modify_st (λ l, l ++ [(event, handle)]).
End Dummy.

(** * wlroots: what a peer can do *)

Module WlrootsLaws.
Import Wlroots.
#[local] Arguments update_by_key_event : simpl never.
#[local] Arguments pressed_mask : simpl never.
#[local] Arguments locked_mask : simpl never.

(** The values that Wayland has. *)
Definition representable (e : Event) : bool :=
  match e with
  | Pointer (Button _ _ st) => (st =? 0) || (st =? 1)
  | Pointer (Axis _ axis _) | Pointer (AxisDiscrete120 axis _) => (axis =? 0) || (axis =? 1)
  | _ => true
  end.
(** A flush that was refused is refused again. *)
Definition congested (flush : nat → flush_result) (s : State) : bool :=
  last_flush_failed s && bool_decide (flush (flushes s) = WouldBlock).

Lemma consume_event_representable now vi e : is_Some (consume_event now vi e) ↔ representable e = true.
Proof.
  assert (∀ z A (f : Z → A), is_Some (x ← try_enum z; Some (f x)) ↔ (z =? 0) || (z =? 1) = true) as Ht.
  { intros z A f. unfold try_enum. destruct ((z =? 0) || (z =? 1)); cbn; split; [done|by eexists|by intros [? [=]]|done]. }
  destruct e as [[t x y|t b st|t axis v|axis v]|[t key st|d la lo g]]; unfold consume_event, representable; cbn zeta.
  - split; [done|by eexists].
  - apply (Ht st _ (λ st, ([PButton _ t b st; PFrame _], vi))).
  - apply (Ht axis _ (λ axis, ([PAxis _ t axis v; PFrame _; PFrame _], vi))).
  - apply (Ht axis _ (λ axis, ([PAxisDiscrete _ _ axis _ _; PAxisSource _; PFrame _; PFrame _], vi))).
  - destruct (update_by_key_event (modifiers vi) key st); (split; [done|by eexists]).
  - split; [done|by eexists].
Qed.

(** The state before the event is converted, if it is not discarded. *)
Definition before (s : State) : State := if last_flush_failed s then one_flush s else s.
Lemma do_flush_eq flush s : do_flush flush s = (Ok (flush (flushes s)), one_flush s).
Proof. done. Qed.
Lemma consume_eq now flush e h s vi :
  input_for_client s !! h = Some vi → congested flush s = false →
  consume now flush e h s =
    match consume_event now vi e with
    | None => (Panic, before s)
    | Some (rs, vi) =>
        let s := one_flush (ask rs (set_inputs (<[h := vi]> (input_for_client s)) (before s))) in
        match flush (pred (flushes s)) with
        | WouldBlock => (Ok tt, set_failed true s)
        | ProtocolError => (Panic, s)
        | Flushed => (Ok tt, set_failed false s)
        | OtherError => (Err Wayland, s)
        end
    end.
Proof.
  intros Hh Hc. unfold consume, congested, before in *. unfold mbind, ST_bind, gets, modify_st. rewrite Hh.
  destruct (last_flush_failed s); rewrite ?do_flush_eq; cbn [andb] in Hc; cbn [mret ST_ret]; rewrite ?Hc;
    (destruct (consume_event now vi e) as [[rs vi']|]; [|done]); rewrite do_flush_eq; cbn; match goal with |- context [flush ?n] => by destruct (flush n) end.
Qed.

(** C19. A peer whose input is emulated by this backend can make it panic: an axis
    above 1, or a button state above 1, goes through the decoder of the wire
    and has no counterpart in Wayland.  Every other event passes, unless the
    compositor reports a violation of the protocol. *)
Theorem remote_panic now flush e h s vi :
  event_wf e → input_for_client s !! h = Some vi → congested flush s = false →
  (∃ bytes, Codec.decode_slice bytes = Ok (Proto.ProtoEvent.Input e)) ∧
  (representable e = false → fst (consume now flush e h s) = Panic) ∧
  (representable e = true → (∀ n, flush n ≠ ProtocolError) → fst (consume now flush e h s) ≠ Panic).
Proof.
  intros Hw Hh Hc. split_and!.
  - eexists. by apply (Wire.decode_slice_ok (Proto.ProtoEvent.Input e)).
  - intros Hr. rewrite (consume_eq now flush e h s vi Hh Hc).
    destruct (consume_event now vi e) as [[]|] eqn:E; [|done]. exfalso.
    by rewrite (proj1 (consume_event_representable now vi e)) in Hr by (by rewrite E; eauto).
  - intros Hr Hp. rewrite (consume_eq now flush e h s vi Hh Hc).
    destruct (proj2 (consume_event_representable now vi e) Hr) as [[rs vi'] ->]. cbn zeta.
    specialize (Hp (pred (flushes (one_flush (ask rs (set_inputs (<[h := vi']> (input_for_client s)) (before s))))))).
    by destruct (flush _).
Qed.
Definition one_client : State := mkState (Some 0) {[5%N := mkInput 0 0]} false [CreatePointer 0; CreateKeyboard 0; SetKeymap 0 0] 1 0.
Lemma remote_panic_witness :
  (∃ bytes, Codec.decode_slice bytes = Ok (Proto.ProtoEvent.Input (Pointer (AxisDiscrete120 2 120)))) ∧
  fst (consume 0 (λ _, Flushed) (Pointer (AxisDiscrete120 2 120)) 5%N one_client) = Panic.
Proof.
  destruct (remote_panic 0 (λ _, Flushed) (Pointer (AxisDiscrete120 2 120)) 5%N one_client (mkInput 0 0)) as (H1 & H2 & _);
    [cbn; unfold inU, inS; cbn; lia|reflexivity|reflexivity|]. split; [exact H1|by apply H2].
Defined.

(** While the connection stays congested every event is discarded, the release
    of a key among them, which the caller takes for delivered. *)
Theorem congested_loses now flush es h s :
  last_flush_failed s = true → (∀ n, flush n = WouldBlock) →
  ∃ s', for_each (λ e, consume now flush e h) es s = (Ok tt, s') ∧ requests s' = requests s ∧ last_flush_failed s' = true.
Proof.
  intros Hl Hf. revert s Hl. induction es as [|e es IH]; intros s Hl; [by exists s|]. cbn.
  assert (∃ s1, consume now flush e h s = (Ok tt, s1) ∧ requests s1 = requests s ∧ last_flush_failed s1 = true) as (s1 & E & Er & Hl1).
  { unfold consume, mbind, ST_bind, gets. destruct (input_for_client s !! h); [|by exists s].
    rewrite Hl, do_flush_eq, Hf. cbn. by eexists. }
  destruct (IH s1 Hl1) as (s2 & E2 & Er2 & Hl2). exists s2. unfold mbind, ST_bind. rewrite E. split; [done|]. by rewrite Er2.
Qed.
Lemma congested_loses_witness :
  ∃ s', for_each (λ e, consume 0 (λ _, WouldBlock) e 5%N) [key_up 30; mods_zero] (set_failed true one_client) = (Ok tt, s') ∧
    requests s' = requests one_client ∧ last_flush_failed s' = true.
Proof. by apply (congested_loses 0 (λ _, WouldBlock) [key_up 30; mods_zero] 5%N (set_failed true one_client)). Defined.

(** ** Objects

    Every input has a pointer and a keyboard; a request is an error of the
    protocol when its object was not created or was destroyed. *)

Definition target (r : request) : nat * bool :=
  match r with
  | CreatePointer id | DestroyPointer id | PMotion id _ _ _ | PButton id _ _ _ | PAxis id _ _ _
  | PAxisDiscrete id _ _ _ _ | PAxisSource id | PFrame id => (id, false)
  | CreateKeyboard id | SetKeymap id _ | DestroyKeyboard id | KKey id _ _ _ | KModifiers id _ _ _ _ => (id, true)
  end.
Definition live_step (L : gset (nat * bool)) (r : request) : option (gset (nat * bool)) :=
  match r with
  | CreatePointer _ | CreateKeyboard _ => if decide (target r ∈ L) then None else Some ({[target r]} ∪ L)
  | DestroyPointer _ | DestroyKeyboard _ => if decide (target r ∈ L) then Some (L ∖ {[target r]}) else None
  | _ => if decide (target r ∈ L) then Some L else None
  end.
(** The objects that are alive after the requests, if each of them was legal. *)
Fixpoint live (L : gset (nat * bool)) (rs : list request) : option (gset (nat * bool)) :=
  match rs with [] => Some L | r :: rs => L ← live_step L r; live L rs end.
Lemma live_app L l1 l2 : live L (l1 ++ l2) = live L l1 ≫= λ L, live L l2.
Proof. revert L. induction l1 as [|r l1 IH]; intros L; [done|]. cbn. destruct (live_step L r); [apply IH|done]. Qed.

Definition owned (m : gmap EmulationHandle VirtualInput) (id : nat) : Prop := ∃ h vi, m !! h = Some vi ∧ object vi = id.
Record sound (s : State) : Prop := {
  has_keymap : is_Some (keymap s);
  legal : ∃ L, live ∅ (requests s) = Some L ∧ ∀ id b, (id, b) ∈ L ↔ owned (input_for_client s) id;
  own_object : ∀ h1 h2 v1 v2, input_for_client s !! h1 = Some v1 → input_for_client s !! h2 = Some v2 → object v1 = object v2 → h1 = h2;
  objects_made : ∀ id, owned (input_for_client s) id → (id < next_object s)%nat
}.

Lemma consume_event_uses now vi e rs vi' L :
  consume_event now vi e = Some (rs, vi') → (∀ b, (object vi, b) ∈ L) → object vi' = object vi ∧ live L rs = Some L.
Proof.
  intros E HL.
  destruct e as [[t x y|t b st|t axis v|axis v]|[t key st|d la lo g]]; unfold consume_event in E; cbn zeta in E.
  5: destruct (update_by_key_event (modifiers vi) key st) in E.
  all: repeat match goal with H : (_ ← try_enum ?z; _) = Some _ |- _ => destruct (try_enum z); [cbn in H|done] end.
  all: injection E as <- <-; cbn; repeat (rewrite decide_True by apply HL; cbn); done.
Qed.

(** Fields that have nothing to do with the objects. *)
Lemma sound_ext s s' :
  keymap s' = keymap s → input_for_client s' = input_for_client s → requests s' = requests s → next_object s' = next_object s →
  sound s → sound s'.
Proof. intros E1 E2 E3 E4 [A B C D]. split; rewrite ?E1, ?E2, ?E3, ?E4; done. Qed.
Lemma sound_flush s : sound s → sound (one_flush s).
Proof. by apply sound_ext. Qed.
Lemma sound_failed b s : sound s → sound (set_failed b s).
Proof. by apply sound_ext. Qed.

Lemma create_sound flush h s :
  sound s → input_for_client s !! h = None → ∃ s', create flush h s = (Ok tt, s') ∧ sound s' ∧ is_Some (input_for_client s' !! h).
Proof.
  intros [[k Hk] (L & HL & Hown) Hinj Hid] Hh. unfold create, add_client, mbind, ST_bind, gets, modify_st. cbn. rewrite Hk. cbn.
  eexists. split; [done|]. set (id := next_object s).
  assert (∀ b, (id, b) ∉ L) as Hnew by (intros b Hin; apply Hown, Hid in Hin; unfold id in Hin; lia).
  assert (∀ i, owned (<[h := mkInput id 0]> (input_for_client s)) i ↔ i = id ∨ owned (input_for_client s) i) as Ho.
  { intros i. unfold owned. split.
    - intros (h' & vi & [[<- <-]|[_ E]]%lookup_insert_Some & Eo); [by left|right; by exists h', vi].
    - intros [->|(h' & vi & E & Eo)]; [exists h, (mkInput id 0); by rewrite lookup_insert_eq|].
      exists h', vi. rewrite lookup_insert_ne; [done|]. intros ->. congruence. }
  split; [apply sound_flush|cbn; by rewrite lookup_insert_eq].
  split; cbn; [by eexists| | |].
  - rewrite <- app_assoc. rewrite live_app, HL. cbn.
    rewrite decide_False by apply Hnew. cbn. rewrite decide_False. 2: { rewrite elem_of_union, elem_of_singleton. intros [[=]|Hin]. by apply (Hnew true). }
    cbn. rewrite decide_True by set_solver. eexists. split; [done|]. intros i b. rewrite Ho, <- Hown, !elem_of_union, !elem_of_singleton.
    destruct b; naive_solver.
  - intros h1 h2 v1 v2 [[<- <-]|[N1 E1]]%lookup_insert_Some [[<- <-]|[N2 E2]]%lookup_insert_Some; cbn; intros E; try done.
    + exfalso. assert (owned (input_for_client s) id) as H by (by exists h2, v2). apply Hid in H. unfold id in H. lia.
    + exfalso. assert (owned (input_for_client s) id) as H by (by exists h1, v1). apply Hid in H. unfold id in H. lia.
    + by eapply Hinj.
  - intros i [->|Hi]%Ho; [unfold id; lia|]. apply Hid in Hi. lia.
Qed.

Lemma destroy_sound flush h s :
  sound s → ∃ s', destroy flush h s = (Ok tt, s') ∧ sound s' ∧ input_for_client s' = delete h (input_for_client s).
Proof.
  intros Hs. pose proof Hs as [[k Hk] (L & HL & Hown) Hinj Hid]. unfold destroy, destroy_client, mbind, ST_bind, gets, modify_st.
  destruct (input_for_client s !! h) as [vi|] eqn:Hh; cbn; (eexists; split; [done|]); (split; [apply sound_flush|]); [|done| |].
  2: done. 2: by rewrite delete_id.
  assert (∀ b, (object vi, b) ∈ L) as Hin by (intros b; apply Hown; by exists h, vi).
  assert (∀ i, owned (delete h (input_for_client s)) i ↔ owned (input_for_client s) i ∧ i ≠ object vi) as Ho.
  { intros i. unfold owned. split.
    - intros (h' & v' & [Hne E]%lookup_delete_Some & Eo). split; [by exists h', v'|]. intros ->. by apply Hne, (Hinj h h' vi v').
    - intros [(h' & v' & E & Eo) Hne]. exists h', v'. rewrite lookup_delete_ne; [done|]. intros ->. congruence. }
  split; cbn; [by eexists| | |].
  - rewrite live_app, HL. cbn. rewrite decide_True by apply Hin. cbn. rewrite decide_True.
    2: { apply elem_of_difference. split; [apply Hin|]. by rewrite elem_of_singleton. }
    eexists. split; [done|]. intros i b. rewrite Ho, <- (Hown i b), !elem_of_difference, !elem_of_singleton.
    destruct b; naive_solver.
  - intros h1 h2 v1 v2 [_ E1]%lookup_delete_Some [_ E2]%lookup_delete_Some. by eapply Hinj.
  - intros i [Hi _]%Ho. by apply Hid.
Qed.

Lemma consume_sound now flush e h s : sound s → sound (snd (consume now flush e h s)).
Proof.
  intros Hs. destruct (input_for_client s !! h) as [vi|] eqn:Hh; [|unfold consume, mbind, ST_bind, gets; by rewrite Hh].
  destruct (congested flush s) eqn:Hc.
  { apply andb_true_iff in Hc as [Hl Hf%bool_decide_eq_true]. unfold consume, mbind, ST_bind, gets.
    rewrite Hh, Hl, do_flush_eq, Hf. cbn. by apply sound_flush. }
  rewrite (consume_eq now flush e h s vi Hh Hc).
  assert (sound (before s)) as Hb by (unfold before; destruct (last_flush_failed s); [by apply sound_flush|done]).
  destruct (consume_event now vi e) as [[rs vi']|] eqn:E; [|done].
  assert (sound (ask rs (set_inputs (<[h:=vi']> (input_for_client s)) (before s)))) as H.
  { pose proof Hs as [[k Hk] (L & HL & Hown) Hinj Hid]. assert (∀ b, (object vi, b) ∈ L) as Hin by (intros b; apply Hown; by exists h, vi).
    destruct (consume_event_uses now vi e rs vi' L E Hin) as [Eo Hl].
    assert (∀ i, owned (<[h:=vi']> (input_for_client s)) i ↔ owned (input_for_client s) i) as Ho.
    { intros i. unfold owned. split.
      - intros (h' & v & [[<- <-]|[_ El]]%lookup_insert_Some & Ei); [exists h, vi; by rewrite <- Eo|by exists h', v].
      - intros (h' & v & El & Ei). destruct (decide (h' = h)) as [->|Hne]; [exists h, vi'; rewrite lookup_insert_eq; split; [done|congruence]|].
        exists h', v. by rewrite lookup_insert_ne. }
    assert (keymap (before s) = keymap s ∧ requests (before s) = requests s ∧ next_object (before s) = next_object s) as (K1 & K2 & K3)
      by (unfold before; by destruct (last_flush_failed s)).
    split; cbn; [by rewrite K1, Hk|exists L|..].
    - rewrite K2, live_app, HL. split; [exact Hl|]. intros i b. by rewrite Ho.
    - intros h1 h2 v1 v2 [[<- <-]|[N1 E1]]%lookup_insert_Some [[<- <-]|[N2 E2]]%lookup_insert_Some; try done.
      + rewrite Eo. by apply Hinj.
      + rewrite Eo. by apply Hinj.
      + by apply Hinj.
    - intros i Hi%Ho. rewrite K3. by apply Hid. }
  cbn zeta. destruct (flush _); cbn; by repeat first [apply sound_failed|apply sound_flush].
Qed.

(** What the emulation lib asks of the backend: it creates a handle only when it
    has none. *)
Inductive op : Type := OCreate (h : EmulationHandle) | ODestroy (h : EmulationHandle) | OConsume (e : Event) (h : EmulationHandle).
Definition op_step (now : Z) (flush : nat → flush_result) (s : State) (o : op) : State :=
  snd (match o with OCreate h => create flush h s | ODestroy h => destroy flush h s | OConsume e h => consume now flush e h s end).
Fixpoint guarded (now : Z) (flush : nat → flush_result) (s : State) (os : list op) : Prop :=
  match os with
  | [] => True
  | o :: os => match o with OCreate h => input_for_client s !! h = None | _ => True end ∧ guarded now flush (op_step now flush s o) os
  end.

(** C18. Whatever the compositor answers, every request goes to an object that was
    created and not destroyed, and the pointers and keyboards that are alive
    are those of the handles: destroying a handle leaves none behind. *)
Theorem objects_live now flush k os :
  guarded now flush (set_keymap (Some k) new) os →
  let s := foldl (op_step now flush) (set_keymap (Some k) new) os in
  ∃ L, live ∅ (requests s) = Some L ∧ (∀ id b, (id, b) ∈ L ↔ owned (input_for_client s) id) ∧
    (input_for_client s = ∅ → L = ∅).
Proof.
  intros Hg. assert (sound (set_keymap (Some k) new)) as Hs.
  { split; [by eexists|exists ∅; split; [done|]|done|]; cbn.
    - intros id b. split; [done|]. intros (h & vi & E & _). by rewrite lookup_empty in E.
    - intros id (h & vi & E & _). by rewrite lookup_empty in E. }
  revert Hg Hs. generalize (set_keymap (Some k) new) as s. induction os as [|o os IH]; intros s Hg Hs; cbn zeta.
  - destruct Hs as [_ (L & HL & Ho) _ _]. exists L. split; [done|]. split; [done|]. cbn. intros E.
    apply set_eq. intros [id b]. rewrite Ho, E. split; [|done]. intros (h & vi & El & _). by rewrite lookup_empty in El.
  - destruct Hg as [H1 H2]. apply IH; [done|]. unfold op_step. destruct o as [h|h|e h].
    + destruct (create_sound flush h s Hs H1) as (s' & -> & Hs' & _). done.
    + destruct (destroy_sound flush h s Hs) as (s' & -> & Hs' & _). done.
    + by apply consume_sound.
Qed.
Lemma objects_live_witness :
  let s := foldl (op_step 0 (λ _, WouldBlock)) (set_keymap (Some 7) new)
    [OCreate 3%N; OConsume (key_up 30) 3%N; OCreate 4%N; OConsume (key_up 31) 9%N; ODestroy 3%N; ODestroy 4%N] in
  live ∅ (requests s) = Some ∅.
Proof.
  destruct (objects_live 0 (λ _, WouldBlock) 7 [OCreate 3%N; OConsume (key_up 30) 3%N; OCreate 4%N; OConsume (key_up 31) 9%N; ODestroy 3%N; ODestroy 4%N])
    as (L & HL & _ & He); [by vm_compute|].
  cbn zeta. rewrite HL. f_equal. apply He. vm_compute. reflexivity.
Defined.

(** ** Modifiers *)

(** A modifier key is held from its press to its release, and a lock
    changes when its key is released; the two kinds share no bit, so what
    [modifiers] is told adds up to the state. *)
Theorem modifier_keys mods k :
  let key := Linux.to_u32 k in
  Z.land (mask_pressed mods) (mask_locks mods) = 0 ∧
  (pressed_mask k ≠ 0 →
     update_by_key_event mods key 1 = Some (Z.lor mods (pressed_mask k)) ∧
     update_by_key_event mods key 0 = Some (Z.ldiff mods (pressed_mask k))) ∧
  (locked_mask k ≠ 0 →
     update_by_key_event mods key 1 = Some mods ∧
     update_by_key_event mods key 0 = Some (Z.lxor mods (locked_mask k))) ∧
  (pressed_mask k = 0 → locked_mask k = 0 → ∀ st, update_by_key_event mods key st = None).
Proof.
  cbn zeta. split_and!.
  - unfold mask_pressed, mask_locks. apply Z.bits_inj'. intros n Hn. rewrite !Z.land_spec, Z.bits_0.
    assert (Z.testbit (Z.lor XMods.ShiftMask (Z.lor XMods.ControlMask (Z.lor XMods.Mod1Mask XMods.Mod4Mask))) n &&
            Z.testbit (Z.lor XMods.LockMask (Z.lor XMods.Mod2Mask XMods.Mod3Mask)) n = false) as E
      by (rewrite <- Z.land_spec; apply Z.bits_0).
    destruct (Z.testbit mods n); [|done]. by rewrite !andb_true_l.
  - intros Hp. unfold update_by_key_event. rewrite Linux.try_from_to. cbn. rewrite (proj2 (Z.eqb_neq _ _) Hp). cbn.
    split; [done|]. assert (locked_mask k = 0) as -> by (by destruct k). unfold toggle. by rewrite Z.lxor_0_r.
  - intros Hp. unfold update_by_key_event. rewrite Linux.try_from_to. cbn. rewrite (proj2 (Z.eqb_neq _ _) Hp), andb_false_r. cbn.
    assert (pressed_mask k = 0) as -> by (by destruct k). by rewrite Z.lor_0_r, Z.ldiff_0_r.
  - intros Hp Hl st. unfold update_by_key_event. rewrite Linux.try_from_to. cbn. by rewrite Hp, Hl.
Qed.
End WlrootsLaws.

(** * The backends agree on buttons and keys *)

Inductive act : Type := AButton (b : Z) (down : bool) | AKey (k : Z) (down : bool).
(** What a request or call presses or releases, in the numbers of each system. *)
Definition wlroots_act (r : Wlroots.request) : option act :=
  match r with
  | Wlroots.PButton _ _ b st => Some (AButton b (st =? 1))
  | Wlroots.KKey _ _ k st => Some (AKey k (negb (st =? 0)))
  | _ => None
  end.
Definition x11_act (c : X11.call) : option act :=
  match c with
  | X11.FakeButton b st => (λ b, AButton b (negb (st =? 0))) <$>
      (if b =? 1 then Some BTN_LEFT else if b =? 2 then Some BTN_MIDDLE else if b =? 3 then Some BTN_RIGHT
       else if b =? 8 then Some BTN_BACK else if b =? 9 then Some BTN_FORWARD else None)
  | X11.FakeKey k st => Some (AKey (k - 8) (negb (st =? 0)))
  | _ => None
  end.
Definition portal_act (c : Portal.call) : option act :=
  match c with
  | Portal.NotifyButton b st => Some (AButton b (match st with Portal.Pressed => true | _ => false end))
  | Portal.NotifyKeycode k st => Some (AKey k (match st with Portal.Pressed => true | _ => false end))
  | _ => None
  end.
Definition libei_act (r : Libei.request) : option act :=
  match r with
  | Libei.ButtonState _ b down => Some (AButton b down)
  | Libei.KeyState _ k down => Some (AKey k down)
  | _ => None
  end.

(** An event that every system has, and what it is to do. *)
Inductive plain : Event → option act → Prop :=
| plain_button t b st : b ∈ [BTN_LEFT; BTN_RIGHT; BTN_MIDDLE; BTN_BACK; BTN_FORWARD] → st = 0 ∨ st = 1 →
    plain (Pointer (Button t b st)) (Some (AButton b (st =? 1)))
| plain_key t k st : 0 ≤ k < 2 ^ 31 → inU 8 st → plain (Keyboard (Key t k st)) (Some (AKey k (negb (st =? 0))))
| plain_motion t dx dy : plain (Pointer (Motion t dx dy)) None
| plain_modifiers d la lo g : plain (Keyboard (Modifiers d la lo g)) None.

Lemma acts_app {A} (f : A → option act) l rs a : omap f rs = option_list a → omap f (l ++ rs) = omap f l ++ option_list a.
Proof. intros E. by rewrite omap_app, E. Qed.

Lemma wlroots_acts e a now flush h s vi :
  plain e a → Wlroots.input_for_client s !! h = Some vi → WlrootsLaws.congested flush s = false →
  omap wlroots_act (Wlroots.requests (snd (Wlroots.consume now flush e h s))) = omap wlroots_act (Wlroots.requests s) ++ option_list a.
Proof.
  intros Hp Hh Hc. rewrite (WlrootsLaws.consume_eq now flush e h s vi Hh Hc).
  assert (∃ rs vi', Wlroots.consume_event now vi e = Some (rs, vi') ∧ omap wlroots_act rs = option_list a) as (rs & vi' & -> & Ea).
  { destruct Hp as [t b st _ Hst|t k st _ _| |]; unfold Wlroots.consume_event; cbn zeta.
    - unfold Wlroots.try_enum. destruct Hst as [-> | ->]; cbn; by do 2 eexists.
    - destruct (Wlroots.update_by_key_event (Wlroots.modifiers vi) k st); by do 2 eexists.
    - by do 2 eexists.
    - by do 2 eexists. }
  assert (Wlroots.requests (WlrootsLaws.before s) = Wlroots.requests s) as Er
    by (unfold WlrootsLaws.before; by destruct (Wlroots.last_flush_failed s)).
  cbn zeta. rewrite <- (acts_app wlroots_act (Wlroots.requests s) rs a Ea), <- Er. by destruct (flush _).
Qed.
Lemma x11_acts e a calls : plain e a → omap x11_act (snd (X11.consume e calls)) = omap x11_act calls ++ option_list a.
Proof.
  assert (∀ c, snd ((X11.fake c ≫= λ _, X11.fake X11.Flush) calls) = calls ++ [c; X11.Flush]) as Hf
    by (intros c; unfold mbind, ST_bind; cbn; by rewrite <- app_assoc).
  destruct 1 as [t b st Hb Hst|t k st Hk Hs| |]; unfold X11.consume.
  - unfold X11.emulate_mouse_button. rewrite Hf. apply acts_app. rewrite !elem_of_cons, elem_of_nil in Hb.
    destruct Hb as [->|[->|[->|[->|[->|[]]]]]], Hst as [-> | ->]; reflexivity.
  - unfold X11.emulate_key. unfold inU in *. rewrite decide_True by (change (2 ^ 32) with (2 * 2 ^ 31); lia).
    rewrite Hf. apply acts_app. cbn. do 2 f_equal. lia.
  - unfold X11.relative_motion. rewrite Hf. by apply acts_app.
  - by apply acts_app.
Qed.
Lemma portal_acts e a answers calls :
  plain e a → omap portal_act (snd (Portal.consume answers e calls)) = omap portal_act calls ++ option_list a.
Proof.
  assert (∀ c, snd (Portal.notify answers c calls) = calls ++ [c]) as Hn.
  { intros c. unfold Portal.notify, mbind, ST_bind, gets, modify_st. cbn. by destruct (answers _). }
  destruct 1 as [t b st Hb Hst|t k st Hk Hs| |]; cbn [Portal.consume]; rewrite ?Hn; try apply acts_app; cbn.
  - rewrite !elem_of_cons, elem_of_nil in Hb.
    destruct Hb as [->|[->|[->|[->|[->|[]]]]]], Hst as [-> | ->]; reflexivity.
  - rewrite wrapS_id; [|lia|unfold inS; change (2 ^ (32 - 1)) with (2 ^ 31); lia]. unfold Portal.key_state. by destruct (st =? 0).
  - done.
  - by rewrite app_nil_r.
Qed.
Lemma libei_acts e a flushed ls :
  plain e a → Libei.libei_error ls = false → is_Some (Libei.button (Libei.devices ls)) → is_Some (Libei.keyboard (Libei.devices ls)) →
  omap libei_act (Libei.requests (snd (Libei.consume flushed e ls))) = omap libei_act (Libei.requests ls) ++ option_list a.
Proof.
  intros Hp He [db Hb] [dk Hk].
  assert (∀ s, Libei.requests (snd (Libei.flush flushed s)) = Libei.requests s) as Hf.
  { intros s. unfold Libei.flush, mbind, ST_bind, gets, modify_st. cbn. by destruct (flushed _). }
  unfold Libei.consume, Libei.check_error, mbind, ST_bind, gets, get_st. rewrite He. cbn.
  destruct Hp as [t b st Hb' Hst|t k st Hk' Hs| |]; cbn.
  - rewrite Hb. cbn. rewrite Hf. cbn. apply (acts_app _ _ _ (Some _)). by destruct Hst as [-> | ->].
  - rewrite Hk. cbn. rewrite Hf. cbn. by apply (acts_app _ _ _ (Some _)).
  - destruct (Libei.pointer _); cbn; rewrite Hf; cbn; [by apply (acts_app _ _ _ None)|by rewrite app_nil_r].
  - rewrite Hf. by rewrite app_nil_r.
Qed.

(** C17. On the five buttons and on keys the four backends do the same: the event
    appears once, as the same button or key pressed or released; a motion and a
    report of the modifiers press nothing. *)
Theorem presses_agree e a now flush h s vi calls answers pcalls flushed ls :
  plain e a →
  Wlroots.input_for_client s !! h = Some vi → WlrootsLaws.congested flush s = false →
  Libei.libei_error ls = false → is_Some (Libei.button (Libei.devices ls)) → is_Some (Libei.keyboard (Libei.devices ls)) →
  omap wlroots_act (Wlroots.requests (snd (Wlroots.consume now flush e h s))) = omap wlroots_act (Wlroots.requests s) ++ option_list a ∧
  omap x11_act (snd (X11.consume e calls)) = omap x11_act calls ++ option_list a ∧
  omap portal_act (snd (Portal.consume answers e pcalls)) = omap portal_act pcalls ++ option_list a ∧
  omap libei_act (Libei.requests (snd (Libei.consume flushed e ls))) = omap libei_act (Libei.requests ls) ++ option_list a.
Proof.
  intros Hp Hh Hc He Hb Hk. split_and!; [by eapply wlroots_acts|by apply x11_acts|by apply portal_acts|by apply libei_acts].
Qed.
Definition ready : Libei.LibeiEmulation := Libei.set_devices (Libei.mkDevices (Some 1) (Some 1) (Some 1) (Some 2)) Libei.new.
Lemma presses_agree_witness :
  omap wlroots_act (Wlroots.requests (snd (Wlroots.consume 0 (λ _, Wlroots.Flushed) (Pointer (Button 0 BTN_BACK 1)) 5%N WlrootsLaws.one_client))) = [AButton BTN_BACK true] ∧
  omap x11_act (snd (X11.consume (Pointer (Button 0 BTN_BACK 1)) [])) = [AButton BTN_BACK true].
Proof.
  destruct (presses_agree (Pointer (Button 0 BTN_BACK 1)) (Some (AButton BTN_BACK true)) 0 (λ _, Wlroots.Flushed) 5%N WlrootsLaws.one_client
    (Wlroots.mkInput 0 0) [] (λ _, true) [] (λ _, true) ready) as (H1 & H2 & _).
  - apply (plain_button 0 BTN_BACK 1); [rewrite !elem_of_cons; auto|by right].
  - reflexivity.
  - reflexivity.
  - reflexivity.
  - by eexists.
  - by eexists.
  - split; [exact H1|exact H2].
Defined.

(** A wheel that turns by less than a notch: X11 turns a whole notch for every
    event, one of zero included; the portal is told zero notches, so that it does
    not move however often it turns; wlroots is told zero notches and the
    exact distance; libei the amount itself. *)
Theorem fine_wheel axis v now vi answers calls pcalls flushed ls d :
  axis = 0 ∨ axis = 1 → - 120 < v < 120 →
  Libei.libei_error ls = false → Libei.scroll (Libei.devices ls) = Some d →
  let e := Pointer (AxisDiscrete120 axis v) in
  (∃ dir, snd (X11.consume e calls) = calls ++ [X11.FakeButton dir 1; X11.FakeButton dir 0; X11.Flush] ∧
     dir = if axis =? 0 then if v <? 0 then X11.SCROLL_UP else X11.SCROLL_DOWN else if v <? 0 then X11.SCROLL_LEFT else X11.SCROLL_RIGHT) ∧
  snd (Portal.consume answers e pcalls) = pcalls ++ [Portal.NotifyAxisDiscrete (Portal.axis_of axis) 0] ∧
  (∃ rs, Wlroots.consume_event now vi e =
     Some (Wlroots.PAxisDiscrete (Wlroots.object vi) (wrapU 32 now) axis (f64_div (of_Z v) (of_Z 8)) 0 :: rs, vi)) ∧
  Libei.requests (snd (Libei.consume flushed e ls)) =
    Libei.requests ls ++ [if axis =? 0 then Libei.ScrollDiscrete d 0 v else Libei.ScrollDiscrete d v 0; Libei.DeviceFrame d].
Proof.
  intros Ha Hv He Hd. assert (Z.quot v 120 = 0) as Hq by (apply Z.quot_small_iff; lia). cbn zeta. split_and!.
  - unfold X11.consume, X11.emulate_scroll. change f64_zero with (of_Z 0). rewrite lt_exact by lia.
    destruct Ha as [-> | ->]; eexists; (split; [|reflexivity]); unfold mbind, ST_bind; cbn; by rewrite <- !app_assoc.
  - unfold Portal.consume, Portal.notify, mbind, ST_bind, gets, modify_st. rewrite Hq. cbn. by destruct (answers _).
  - unfold Wlroots.consume_event, Wlroots.try_enum. cbn zeta. rewrite Hq. destruct Ha as [-> | ->]; cbn; by eexists.
  - unfold Libei.consume, Libei.check_error, Libei.flush, mbind, ST_bind, gets, get_st, modify_st. rewrite He. cbn. rewrite Hd. cbn.
    by destruct (flushed _).
Qed.
Lemma fine_wheel_witness :
  snd (Portal.consume (λ _, true) (Pointer (AxisDiscrete120 0 30)) []) = [Portal.NotifyAxisDiscrete Portal.Vertical 0].
Proof.
  destruct (fine_wheel 0 30 0 (Wlroots.mkInput 0 0) (λ _, true) [] [] (λ _, true) ready 1) as (_ & H & _);
    [by left|lia|reflexivity|reflexivity|exact H].
Defined.

(** * libei: errors and devices *)

(** What ends the task of the connection, and with which error. *)
Definition fatal (r : option (EmulationError + Libei.EiReport)) : option EmulationError :=
  match r with
  | None | Some (inr Libei.Disconnected) => Some EndOfStream
  | Some (inl e) => Some e
  | _ => None
  end.

(** An error of the connection is reported by the next event, which is not
    emulated, and by that one only: every later event is sent as if nothing had
    happened, and nothing the connection reports is heard again. *)
Theorem error_once flushed r err e1 s :
  fatal r = Some err →
  ∃ s1 s2, Libei.step flushed true (Libei.Report r) s = (Ok false, s1) ∧
    Libei.consume flushed e1 s1 = (Err err, s2) ∧ Libei.requests s2 = Libei.requests s ∧
    (∀ e2, ∃ o s3 s3', Libei.consume flushed e2 s2 = (o, s3) ∧ Libei.consume flushed e2 (Libei.set_error false None s) = (o, s3') ∧
       Libei.requests s3 = Libei.requests s3') ∧
    (∀ r' s', Libei.step flushed false (Libei.Report r') s' = (Ok false, s')).
Proof.
  intros Hr. set (s1 := Libei.set_error true (Some err) s). exists s1, (Libei.set_error true None s).
  split_and!.
  - destruct r as [[e|[]]|]; cbn in Hr; try done; injection Hr as <-; by cbn.
  - done.
  - done.
  - intros e2. unfold Libei.consume, Libei.check_error, mbind, ST_bind, gets, get_st. cbn.
    destruct e2 as [[t x y|t b st|t axis v|axis v]|[t k st|]]; try match goal with |- context [Libei.on_device ?d] => destruct d end.
    all: unfold Libei.on_device, Libei.flush, mbind, ST_bind, gets, modify_st; cbn; destruct (flushed (Libei.flushes s));
      do 3 eexists; (split_and!; reflexivity).
  - done.
Qed.
Lemma error_once_witness :
  ∃ s1 s2, Libei.step (λ _, true) true (Libei.Report None) ready = (Ok false, s1) ∧
    Libei.consume (λ _, true) (key_up 30) s1 = (Err EndOfStream, s2).
Proof.
  destruct (error_once (λ _, true) None EndOfStream (key_up 30) ready eq_refl) as (s1 & s2 & H1 & H2 & _). by exists s1, s2.
Defined.

(** Until a device was added events of its kind are dropped; once one was it
    is used until another one with the same interface is added, also after it
    was removed or paused. *)
Theorem removed_device_used flushed d k t st s :
  (∀ n, flushed n = true) → Libei.libei_error s = false →
  (Libei.keyboard (Libei.devices s) = None → Libei.requests (snd (Libei.consume flushed (Keyboard (Key t k st)) s)) = Libei.requests s) ∧
  (Libei.keyboard (Libei.devices s) = Some d →
    ∃ s', Libei.run flushed true [Libei.Report (Some (inr (Libei.DevicePaused d))); Libei.Report (Some (inr (Libei.DeviceRemoved d)));
        Libei.Consume (Keyboard (Key t k st))] s = (Ok true, s') ∧
      Libei.requests s' = Libei.requests s ++ [Libei.KeyState d k (Libei.pressed st); Libei.DeviceFrame d]).
Proof.
  intros Hf He. split; intros Hk.
  - unfold Libei.consume, Libei.check_error, Libei.flush, mbind, ST_bind, gets, get_st, modify_st. rewrite He. cbn. rewrite Hk. cbn. by rewrite Hf.
  - unfold Libei.run, Libei.step, Libei.ei_task_turn, Libei.ei_event_turn, Libei.consume, Libei.check_error, Libei.flush, attempt, mbind, ST_bind, gets, get_st, modify_st.
    cbn. rewrite !Hf. cbn. rewrite !Hf. cbn. rewrite He. cbn. rewrite Hk. cbn. rewrite !Hf. cbn. by eexists.
Qed.
Lemma removed_device_used_witness :
  ∃ s', Libei.run (λ _, true) true [Libei.Report (Some (inr (Libei.DevicePaused 2))); Libei.Report (Some (inr (Libei.DeviceRemoved 2)));
      Libei.Consume (key_up 30)] ready = (Ok true, s') ∧
    Libei.requests s' = [Libei.KeyState 2 30 false; Libei.DeviceFrame 2].
Proof. by apply (removed_device_used (λ _, true) 2 30 0 0 ready). Defined.
