(* ===== verification/IpcSocket.v ===== *)
(** The socket between the daemon and its frontends (lan-mouse-ipc/src/
    listen.rs, connect_async.rs and connect.rs): one JSON object per line in
    both directions.

    The JSON of serde is a class: a text of one line that is read back.  A
    connection is a number; the bytes on their way to the daemon are in its
    stream, those the daemon wrote are in [written].  [order] is the order in
    which the select of the streams polls them, [write] how many bytes the
    system takes of a write, if it does not fail. *)

From S2P Require Import Prelude Text InputCapture.

(** * JSON, a line each *)

Class Json (A : Type) := { to_json : A → string; from_json : string → option A }.
Definition newline : byte := x0a.
Definition carriage_return : byte := x0d.
(** serde reads back what it writes, escapes every control character, and
    writes no more than the Rust string is. *)
Class JsonLaws (A : Type) `{Json A} : Prop := {
  from_to_json a : from_json (to_json a) = Some a;
  json_one_line a b : b ∈ as_bytes (to_json a) → b ≠ newline ∧ b ≠ carriage_return;
  json_utf8 a : utf8_valid (as_bytes (to_json a)) = true
}.

Inductive IpcError : Type := IoError | JsonError | Timeout.

(** ** Lines *)

(** The bytes up to a newline, and what follows it. *)
Fixpoint take_line (bs : list byte) : option (list byte * list byte) :=
  match bs with
  | [] => None
  | b :: bs => if decide (b = newline) then Some ([], bs) else '(l, rest) ← take_line bs; Some (b :: l, rest)
  end.
Definition strip_cr (l : list byte) : list byte :=
  match last l with Some b => if decide (b = carriage_return) then removelast l else l | None => l end.
Definition text (l : list byte) : outcome IpcError string :=
  match from_utf8 l with Some s => Ok s | None => Err IoError end.
(** [LinesStream]: a line, the end with what is left, or nothing yet. *)
Definition next_line (eof : bool) (bs : list byte) : poll (option (outcome IpcError string)) * list byte :=
  match take_line bs with
  | Some (l, rest) => (Ready (Some (text (strip_cr l))), rest)
  | None =>
      if eof then match bs with [] => (Ready None, []) | _ => (Ready (Some (text bs)), []) end
      else (Pending, bs)
  end.

Section ipc.
Context {Req Ev : Type} `{Json Req} `{Json Ev}.
(** [FrontendRequest::Sync]. *)
Variable Sync : Req.

Definition parse {A} `{Json A} (line : string) : outcome IpcError A :=
  match from_json line with Some a => Ok a | None => Err JsonError end.
(** What a writer sends: the object and a newline. *)
Definition frame {A} `{Json A} (a : A) : list byte := as_bytes (to_json a) ++ [newline].

(** * The daemon's side *)

Record LineStream : Type := mkStream { client : nat; inbox : list byte; eof : bool }.
(** The fields, the connections that wait to be accepted with what they have
    sent, what was written to each client, and, for the proofs, the lines read
    with their clients. *)
Record AsyncFrontendListener : Type := mkListener {
  line_streams : list LineStream;
  tx_streams : list nat;
  backlog : list LineStream;
  written : gmap nat (list byte);
  read_lines : list (nat * outcome IpcError string)
}.
Definition new : AsyncFrontendListener := mkListener [] [] [] ∅ [].

(** [SelectAll]: the streams are polled in turn; one that has ended is
    dropped, one that gave an item goes to the end. *)
Fixpoint select_all (ss : list LineStream) : option (nat * outcome IpcError string) * list LineStream :=
  match ss with
  | [] => (None, [])
  | c :: rest =>
      match next_line (eof c) (inbox c) with
      | (Ready (Some l), bs) => (Some (client c, l), rest ++ [mkStream (client c) bs (eof c)])
      | (Ready None, _) => select_all rest
      | (Pending, _) => let '(r, rest) := select_all rest in (r, c :: rest)
      end
  end.

Variable order : list LineStream → list LineStream.
Definition poll_next (s : AsyncFrontendListener) : poll (outcome IpcError Req) * AsyncFrontendListener :=
  let '(r, streams) := select_all (order (line_streams s)) in
  let lines := read_lines s ++ option_list r in
  match r with
  | Some (_, Ok l) => (Ready (parse l), mkListener streams (tx_streams s) (backlog s) (written s) lines)
  | _ =>
      let s' := mkListener (streams ++ backlog s) (tx_streams s ++ (client <$> backlog s)) [] (written s) lines in
      (match backlog s with [] => Pending | _ => Ready (Ok Sync) end, s')
  end.

Variable write : nat → list byte → option nat.
(** One write of a line to a client: the bytes the system took, or an error. *)
Definition write_to (bs : list byte) (acc : gmap nat (list byte)) (tx : nat) : gmap nat (list byte) :=
  match write tx bs with
  | Some n => <[tx := default [] (acc !! tx) ++ take n bs]> acc
  | None => acc
  end.
Definition broadcast (notify : Ev) (s : AsyncFrontendListener) : AsyncFrontendListener :=
  let json := frame notify in
  mkListener (line_streams s) (filter (λ tx, is_Some (write tx json)) (tx_streams s)) (backlog s)
    (foldl (write_to json) (written s) (tx_streams s)) (read_lines s).

(** ** Turns: what the other end does, and what the daemon does *)

Inductive turn : Type :=
| Connect (id : nat)
| Send (id : nat) (bs : list byte)
| Hangup (id : nat)
| Poll
| Broadcast (e : Ev).
Definition on_stream (id : nat) (f : LineStream → LineStream) (ss : list LineStream) : list LineStream :=
  (λ c, if decide (client c = id) then f c else c) <$> ss.
Definition receive (bs : list byte) (c : LineStream) : LineStream := mkStream (client c) (inbox c ++ bs) (eof c).
Definition hangup (c : LineStream) : LineStream := mkStream (client c) (inbox c) true.
Definition step (t : turn) (s : AsyncFrontendListener) : AsyncFrontendListener :=
  match t with
  | Connect id => mkListener (line_streams s) (tx_streams s) (backlog s ++ [mkStream id [] false]) (written s) (read_lines s)
  | Send id bs =>
      mkListener (on_stream id (receive bs) (line_streams s)) (tx_streams s) (on_stream id (receive bs) (backlog s)) (written s) (read_lines s)
  | Hangup id =>
      mkListener (on_stream id hangup (line_streams s)) (tx_streams s) (on_stream id hangup (backlog s)) (written s) (read_lines s)
  | Poll => snd (poll_next s)
  | Broadcast e => broadcast e s
  end.
Definition run (ts : list turn) (s : AsyncFrontendListener) : AsyncFrontendListener := foldl (λ s t, step t s) s ts.

(** * The frontend's side *)

(** [AsyncFrontendEventReader::poll_next] and [FrontendEventReader::next_event]. *)
Definition next_event (eof : bool) (bs : list byte) : poll (option (outcome IpcError Ev)) * list byte :=
  match next_line eof bs with
  | (Ready (Some (Ok l)), rest) => (Ready (Some (parse l)), rest)
  | (Ready (Some (Err e)), rest) => (Ready (Some (Err e)), rest)
  | (Ready (Some _), rest) => (Ready None, rest)
  | (Ready None, rest) => (Ready None, rest)
  | (Pending, rest) => (Pending, rest)
  end.
(** [request]: the bytes it writes. *)
Definition request (r : Req) : list byte := frame r.
End ipc.

(** ** Waiting for the daemon *)

(** In milliseconds. *)
Definition exponential_back_off (duration : N) : N := N.min (2 * duration) 1000.
(** Attempts to connect, [up n] at the [n]-th; the time that passed when one
    succeeds. *)
Fixpoint wait_for_service (fuel : nat) (up : nat → bool) (n : nat) (duration elapsed : N) : option N :=
  match fuel with
  | O => None
  | S fuel =>
      if up n then Some elapsed
      else let duration := exponential_back_off duration in wait_for_service fuel up (S n) duration (elapsed + duration)
  end.
(** With a timeout the first of the two futures that is ready wins. *)
Definition connect_async (fuel : nat) (up : nat → bool) (timeout : option N) : outcome IpcError N :=
  match wait_for_service fuel up 0 10 0, timeout with
  | Some t, Some d => if decide (t < d)%N then Ok t else Err Timeout
  | Some t, None => Ok t
  | None, Some _ => Err Timeout
  | None, None => Diverge
  end.

(** * Lines *)

Definition no_newline (l : list byte) : Prop := newline ∉ l.
Lemma take_line_Some bs l rest : take_line bs = Some (l, rest) ↔ bs = l ++ newline :: rest ∧ no_newline l.
Proof.
  unfold no_newline. revert l rest. induction bs as [|b bs IH]; intros l rest; cbn.
  - split; [done|]. intros [E _]. by destruct l.
  - case_decide as Hb.
    + subst. split; [intros [= <- <-]; split; [done|set_solver]|].
      intros [E Hl]. destruct l as [|b' l]; [by injection E as ->|]. injection E as <- _. set_solver.
    + split.
      * destruct (take_line bs) as [[l' rest']|] eqn:E; [|done]. cbn. intros [= <- <-].
        destruct (proj1 (IH l' rest') eq_refl) as [-> Hl]. split; [done|set_solver].
      * intros [E Hl]. destruct l as [|b' l]; [by injection E as -> _|]. injection E as -> ->.
        rewrite (proj2 (IH l rest)); [done|]. split; [done|set_solver].
Qed.
Lemma take_line_app l rest : no_newline l → take_line (l ++ newline :: rest) = Some (l, rest).
Proof. intros Hl. by apply take_line_Some. Qed.
Lemma strip_cr_id l : carriage_return ∉ l → strip_cr l = l.
Proof.
  intros Hl. unfold strip_cr. destruct (last l) as [b|] eqn:E; [|done]. case_decide; [|done]. subst.
  exfalso. apply Hl. by apply last_Some_elem_of.
Qed.

Section json_lines.
Context {A : Type} `{JsonLaws A}.
Lemma json_no_newline (a : A) : no_newline (as_bytes (to_json a)).
Proof. intros Hin. by apply (json_one_line a) in Hin as [? _]. Qed.
Lemma json_text (a : A) : text (strip_cr (as_bytes (to_json a))) = Ok (to_json a).
Proof.
  rewrite strip_cr_id by (intros Hin; by apply (json_one_line a) in Hin as [_ ?]).
  unfold text, from_utf8. by rewrite json_utf8, of_bytes_as_bytes.
Qed.

(** Lines that were split off frames are those of the first frames. *)
Lemma frames_split (raw : list (list byte)) rest (xs : list A) :
  Forall no_newline raw → concat ((λ l, l ++ [newline]) <$> raw) ++ rest = concat (frame <$> xs) →
  raw = (λ x, as_bytes (to_json x)) <$> take (length raw) xs ∧ rest = concat (frame <$> drop (length raw) xs).
Proof.
  intros Hr. revert xs. induction Hr as [|l raw Hl _ IH]; intros xs E; [done|].
  cbn in E. rewrite <- !app_assoc in E. destruct xs as [|x xs]; [by destruct l|]. cbn in E. unfold frame in E. rewrite <- !app_assoc in E. cbn in E.
  pose proof (take_line_app l (concat ((λ l, l ++ [newline]) <$> raw) ++ rest) Hl) as E1. rewrite E in E1.
  rewrite take_line_app in E1 by apply json_no_newline. injection E1 as <- E1.
  destruct (IH xs (eq_sym E1)) as [Er Ed]. cbn. by rewrite <- Er.
Qed.
End json_lines.

(** * Requests *)

Section listener.
Context {Req Ev : Type} `{JsonLaws Req} `{JsonLaws Ev}.
Context (Sync : Req) (order : list LineStream → list LineStream) (write : nat → list byte → option nat).
Hypothesis order_perm : ∀ l, order l ≡ₚ l.
Abbreviation step := (step Sync order write).
Abbreviation run := (run Sync order write).

Definition mine (id : nat) (ss : list LineStream) : list LineStream := filter (λ c, client c = id) ss.
#[local] Arguments mine : simpl never.
(** The lines read from a client, in order. *)
Definition lines_of (id : nat) (s : AsyncFrontendListener) : list (outcome IpcError string) :=
  omap (λ il : nat * outcome IpcError string, if decide (il.1 = id) then Some il.2 else None) (read_lines s).

Lemma next_line_open bs : fst (next_line false bs) ≠ Ready None.
Proof. unfold next_line. by destruct (take_line bs) as [[]|]. Qed.

Lemma select_none id ss r rest :
  mine id ss = [] → select_all ss = (r, rest) → (∀ l, r ≠ Some (id, l)) ∧ mine id rest = [].
Proof.
  revert r rest. induction ss as [|c1 ss IH]; intros r rest Hm Er; [by injection Er as <- <-|].
  cbn in Er. unfold mine in Hm. rewrite filter_cons in Hm. case_decide as Hc1; [done|].
  destruct (next_line (eof c1) (inbox c1)) as [[[l1|]|] bs1].
  - injection Er as <- <-. split; [congruence|]. unfold mine. rewrite filter_app, Hm. by rewrite filter_cons, decide_False.
  - by apply IH.
  - destruct (select_all ss) as [r1 rest1] eqn:Er1. injection Er as <- <-. destruct (IH r1 rest1 Hm eq_refl) as [Hx Hy].
    split; [done|]. unfold mine. by rewrite filter_cons, decide_False.
Qed.
Lemma select_mine id ss c r ss' :
  mine id ss = [c] → eof c = false → select_all ss = (r, ss') →
  match r with
  | Some (i, l) =>
      if decide (i = id) then ∃ bs, next_line false (inbox c) = (Ready (Some l), bs) ∧ mine id ss' = [mkStream id bs false]
      else mine id ss' = [c]
  | None => mine id ss' = [c] ∧ fst (next_line false (inbox c)) = Pending
  end.
Proof.
  intros Hm He. revert r ss' Hm. induction ss as [|c0 ss IH]; intros r ss' Hm E; [done|]. cbn in E.
  unfold mine in Hm. rewrite filter_cons in Hm. case_decide as Hc.
  - injection Hm as -> Hm. rewrite He in E. destruct (next_line false (inbox c)) as [[[l|]|] bs] eqn:En.
    + injection E as <- <-. cbn. rewrite decide_True by done. exists bs. split; [done|].
      unfold mine. rewrite filter_app, Hm, filter_cons, decide_True by done. by rewrite Hc.
    + pose proof (next_line_open (inbox c)) as Hn. by rewrite En in Hn.
    + destruct (select_all ss) as [r0 rest] eqn:Er. injection E as <- <-.
      destruct (select_none id ss r0 rest Hm Er) as [Hx Hy]. unfold mine. rewrite filter_cons, decide_True by done. fold (mine id rest). rewrite Hy.
      destruct r0 as [[i l]|]; [|done]. case_decide as Hi; [|done]. subst i. by destruct (Hx l).
  - destruct (next_line (eof c0) (inbox c0)) as [[[l|]|] bs] eqn:En.
    + injection E as <- <-. cbn. rewrite decide_False by done. unfold mine. rewrite filter_app, Hm.
      by rewrite filter_cons, decide_False.
    + by apply IH.
    + destruct (select_all ss) as [r0 rest] eqn:Er. injection E as <- <-.
      assert (mine id (c0 :: rest) = mine id rest) as -> by (unfold mine; by rewrite filter_cons, decide_False).
      by apply IH.
Qed.

Lemma mine_perm id l : mine id (order l) ≡ₚ mine id l.
Proof. unfold mine. by rewrite order_perm. Qed.
Lemma mine_app id l1 l2 : mine id (l1 ++ l2) = mine id l1 ++ mine id l2.
Proof. apply filter_app. Qed.
Lemma mine_on id id' f l : (∀ c, client (f c) = client c) → mine id (on_stream id' f l) = (if decide (id' = id) then f <$> mine id l else mine id l).
Proof.
  intros Hf. unfold mine, on_stream. induction l as [|c l IH]; [by case_decide|].
  rewrite fmap_cons, !filter_cons, IH. destruct (decide (client c = id')) as [E1|E1], (decide (id' = id)) as [E2|E2];
    rewrite ?Hf; repeat case_decide; subst; try done; congruence.
Qed.

(** The state of a connection that stays open: the lines read so far, and what
    is in its stream. *)
Definition open (id : nat) (sent : list byte) (s : AsyncFrontendListener) : Prop :=
  ∃ c raw, mine id (line_streams s ++ backlog s) = [c] ∧ eof c = false ∧
    sent = concat ((λ l, l ++ [newline]) <$> raw) ++ inbox c ∧ Forall no_newline raw ∧
    lines_of id s = (λ l, text (strip_cr l)) <$> raw.
Definition sent_by (id : nat) (t : turn (Ev:=Ev)) : list byte :=
  match t with Send i bs => if decide (i = id) then bs else [] | _ => [] end.
Definition stays (id : nat) (t : turn (Ev:=Ev)) : Prop :=
  match t with Connect i | Hangup i => i ≠ id | _ => True end.

Lemma lines_of_app id s s' l :
  read_lines s' = read_lines s ++ l →
  lines_of id s' = lines_of id s ++ omap (λ il : nat * outcome IpcError string, if decide (il.1 = id) then Some il.2 else None) l.
Proof. intros E. unfold lines_of. by rewrite E, omap_app. Qed.

(** A poll takes at most the next line of a client. *)
Lemma poll_open id sent s : open id sent s → open id sent (snd (poll_next Sync order s)).
Proof.
  intros (c & raw & Hm & He & Es & Hr & El). unfold poll_next. destruct (select_all (order (line_streams s))) as [r streams] eqn:Er.
  rewrite mine_app in Hm.
  assert (∀ s', read_lines s' = read_lines s ++ option_list r → mine id (line_streams s' ++ backlog s') = mine id streams ++ mine id (backlog s) →
    open id sent s') as Hgo.
  { intros s' Hl Hs. apply app_eq_unit in Hm as [[Ha Hb]|[Ha Hb]].
    - pose proof (mine_perm id (line_streams s)) as Hp. rewrite Ha in Hp. apply Permutation_sym, Permutation_nil in Hp.
      destruct (select_none id _ _ _ Hp Er) as [Hx Hy]. exists c, raw. rewrite Hs, Hy, Hb. split_and!; try done.
      rewrite (lines_of_app id s s' _ Hl), El. destruct r as [[i l]|]; cbn; [|by rewrite app_nil_r].
      case_decide as Hi; [subst; by destruct (Hx l)|by rewrite app_nil_r].
    - pose proof (mine_perm id (line_streams s)) as Hp. rewrite Ha in Hp. apply Permutation_singleton_r in Hp.
      pose proof (select_mine id _ c r streams Hp He Er) as Hsel. rewrite Hb, app_nil_r in Hs.
      destruct r as [[i l]|].
      + case_decide as Hi.
        * destruct Hsel as (bs & En & Hst). unfold next_line in En. destruct (take_line (inbox c)) as [[l0 rest]|] eqn:Et; [|done].
          injection En as <- <-. apply take_line_Some in Et as [Et Hn].
          exists (mkStream id rest false), (raw ++ [l0]). rewrite Hs, Hst. split_and!; [done|done| |by apply Forall_app_2; [|apply Forall_singleton]|].
          -- rewrite Es, Et, fmap_app, concat_app. cbn. by rewrite app_nil_r, <- !app_assoc.
          -- rewrite (lines_of_app id s s' _ Hl), El, fmap_app. cbn. by rewrite decide_True.
        * exists c, raw. rewrite Hs. split_and!; try done.
          rewrite (lines_of_app id s s' _ Hl), El. cbn. rewrite decide_False by done. by rewrite app_nil_r.
      + destruct Hsel as [Hst _]. exists c, raw. rewrite Hs. split_and!; try done.
        rewrite (lines_of_app id s s' _ Hl), El. by rewrite app_nil_r. }
  destruct r as [[i [l|e| |]]|]; (apply Hgo; [done|]); cbn [snd line_streams backlog]; rewrite ?app_nil_r; apply mine_app.
Qed.

Lemma step_open id sent t s : open id sent s → stays id t → open id (sent ++ sent_by id t) (step t s).
Proof.
  intros Ho Hs. destruct t as [i|i bs|i| |e]; cbn [sent_by IpcSocket.step].
  2: { destruct Ho as (c & raw & Hm & He & Es & Hr & El). rewrite mine_app in Hm. case_decide as Hi.
       - subst i. exists (receive bs c), raw. cbn. rewrite mine_app, !mine_on, !decide_True, <- fmap_app, Hm by done.
         split_and!; [done|done|by rewrite Es, <- app_assoc|done|done].
       - exists c, raw. cbn. rewrite mine_app, !mine_on, !decide_False by done. by rewrite app_nil_r. }
  all: rewrite app_nil_r.
  - destruct Ho as (c & raw & Hm & He & Es & Hr & El). exists c, raw. cbn. rewrite app_assoc, mine_app, Hm.
    unfold mine. rewrite filter_cons, decide_False by done. done.
  - destruct Ho as (c & raw & Hm & He & Es & Hr & El). rewrite mine_app in Hm. exists c, raw. cbn.
    rewrite mine_app, !mine_on, !decide_False by done. done.
  - by apply poll_open.
  - done.
Qed.
Lemma run_open id ts sent s :
  open id sent s → Forall (stays id) ts → open id (sent ++ (ts ≫= sent_by id)) (run ts s).
Proof.
  revert sent s. induction ts as [|t ts IH]; intros sent s Ho Hs; [by rewrite app_nil_r|].
  inversion_clear Hs. cbn. rewrite app_assoc. apply IH; [|done]. by apply step_open.
Qed.

(** Before it connects a client has no stream and no lines. *)
Definition absent (id : nat) (s : AsyncFrontendListener) : Prop :=
  mine id (line_streams s) = [] ∧ mine id (backlog s) = [] ∧ lines_of id s = [].
Lemma step_absent id t s : absent id s → t ≠ Connect id → absent id (step t s).
Proof.
  intros (Ha & Hb & Hl) Ht. destruct t as [i|i bs|i| |e]; cbn [IpcSocket.step].
  - split_and!; [done| |done]. cbn. rewrite mine_app, Hb. unfold mine. rewrite filter_cons, decide_False by (cbn; intros ->; by apply Ht). done.
  - split_and!; [..|done]; cbn; rewrite mine_on by done; case_decide; by rewrite ?Ha, ?Hb.
  - split_and!; [..|done]; cbn; rewrite mine_on by done; case_decide; by rewrite ?Ha, ?Hb.
  - unfold poll_next. destruct (select_all (order (line_streams s))) as [r streams] eqn:Er.
    pose proof (mine_perm id (line_streams s)) as Hp. rewrite Ha in Hp. apply Permutation_sym, Permutation_nil in Hp.
    destruct (select_none id _ _ _ Hp Er) as [Hx Hy].
    assert (∀ s', read_lines s' = read_lines s ++ option_list r → lines_of id s' = []) as Hgo.
    { intros s' E. rewrite (lines_of_app id s s' _ E), Hl. destruct r as [[i l]|]; [|done]. cbn. case_decide; [subst; by destruct (Hx l)|done]. }
    unfold absent. destruct r as [[i [l|e| |]]|]; cbn [snd line_streams backlog]; rewrite ?mine_app, ?Hy, ?Hb; (split_and!; [done|done|by apply Hgo]).
  - done.
Qed.
Lemma run_absent id ts s : absent id s → Connect id ∉ ts → absent id (run ts s).
Proof.
  revert s. induction ts as [|t ts IH]; intros s Ha Hn; [done|]. apply not_elem_of_cons in Hn as [Ht Hn].
  cbn. apply IH; [|done]. apply step_absent; congruence.
Qed.
Lemma connect_open id s : absent id s → open id [] (step (Connect id) s).
Proof.
  intros (Ha & Hb & Hl). exists (mkStream id [] false), []. cbn. rewrite app_assoc, !mine_app, Ha, Hb.
  unfold mine. rewrite filter_cons, decide_True by done. by split_and!.
Qed.

(** What the daemon makes of the lines of a client. *)
Definition requests_of (id : nat) (s : AsyncFrontendListener) : list (outcome IpcError Req) :=
  (λ l, l ≫= parse) <$> lines_of id s.

Lemma open_requests id sent rest (reqs : list Req) s :
  open id sent s → sent ++ rest = concat (frame <$> reqs) →
  ∃ k, (k ≤ length reqs)%nat ∧ requests_of id s = Ok <$> take k reqs ∧
    (rest = [] → fst (select_all (order (line_streams s))) = None → backlog s = [] → k = length reqs).
Proof.
  intros (c & raw & Hm & He & -> & Hr & El) E. rewrite <- app_assoc in E.
  destruct (frames_split raw _ reqs Hr E) as [Er Ed]. exists (length raw).
  assert (length raw ≤ length reqs)%nat as Hk.
  { pose proof (f_equal length Er) as Hlen. rewrite length_fmap, length_take in Hlen. lia. }
  split; [done|]. split.
  - unfold requests_of. rewrite El, Er at 1. rewrite <- !list_fmap_compose. apply list_fmap_ext. intros i x _. cbn.
    rewrite json_text. unfold parse. cbn. by rewrite from_to_json.
  - intros -> Hn Hb. rewrite app_nil_r in Ed. rewrite mine_app, Hb, app_nil_r in Hm.
    destruct (select_all (order (line_streams s))) as [r ss'] eqn:Es. cbn in Hn. subst r.
    pose proof (mine_perm id (line_streams s)) as Hp. rewrite Hm in Hp. apply Permutation_singleton_r in Hp.
    destruct (select_mine id _ c None ss' Hp He Es) as [_ Hpend]. unfold next_line in Hpend.
    destruct (take_line (inbox c)) as [[]|] eqn:Et; [done|].
    destruct (drop (length raw) reqs) as [|x xs] eqn:Edr.
    + pose proof (f_equal length Edr) as Hlen. rewrite length_drop in Hlen. cbn in Hlen. lia.
    + exfalso. rewrite Ed in Et. cbn in Et. unfold frame in Et. rewrite <- app_assoc in Et. cbn in Et.
      by rewrite take_line_app in Et by apply json_no_newline.
Qed.
End listener.

(** * Properties *)

(** C26. However many frontends there are, however their bytes arrive and in
    whatever order the streams are polled: the requests the daemon reads from
    a frontend that stays connected are those it sent, whole, once and in
    order; and when a poll finds no line, all of them. *)
Theorem requests_in_order {Req Ev} `{JsonLaws Req} `{JsonLaws Ev} (Sync : Req) order write id (ts1 ts2 : list (turn (Ev:=Ev))) (reqs : list Req) rest :
  (∀ l, order l ≡ₚ l) → Connect id ∉ ts1 → Forall (stays id) ts2 → (ts2 ≫= sent_by id) ++ rest = concat (frame <$> reqs) →
  let s := run Sync order write (ts1 ++ Connect id :: ts2) new in
  ∃ k, requests_of id s = Ok <$> take k reqs ∧
    (rest = [] → fst (select_all (order (line_streams s))) = None → backlog s = [] → requests_of id s = Ok <$> reqs).
Proof.
  intros Ho Hn Hs E. cbn zeta. unfold run. rewrite foldl_app. cbn.
  assert (absent id (run Sync order write ts1 new)) as Ha by (apply run_absent; done).
  pose proof (connect_open (Ev:=Ev) Sync order write id _ Ha) as Hc.
  pose proof (run_open Sync order write Ho id ts2 [] _ Hc Hs) as Hr.
  destruct (open_requests (Req:=Req) order Ho id _ rest reqs _ Hr E) as (k & Hk & Er & Hall).
  exists k. split; [exact Er|]. intros H1' H2' H3'. rewrite (Hall H1' H2' H3') in Er. unfold run in Er. by rewrite firstn_all in Er.
Qed.

(** ** A concrete protocol: a bit, whose texts are those of JSON *)

Module Bit.
Definition bit_text (b : bool) : string := if b then "true" else "false".
Definition text_bit (s : string) : option bool :=
  if decide (s = bit_text true) then Some true else if decide (s = bit_text false) then Some false else None.
#[local] Instance bit_json : Json bool := {| to_json := bit_text; from_json := text_bit |}.
#[local] Instance bit_laws : JsonLaws bool.
Proof.
  split.
  - by intros [].
  - intros [] b Hin; split; intros ->; vm_compute in Hin; set_unfold in Hin; naive_solver.
  - by intros [].
Qed.
Definition whole (_ : nat) (bs : list byte) : option nat := Some (length bs).

Definition sent : list (turn (Ev:=bool)) :=
  [Send 1 (take 2 (frame true)); Poll; Send 0 (frame false); Broadcast true; Send 1 (drop 2 (frame true)); Send 1 (frame false); Poll; Hangup 0; Poll; Poll].
Lemma requests_in_order_witness :
  requests_of 1 (run false id whole ([Connect 0] ++ Connect 1 :: sent) new) = [Ok true; Ok false].
Proof.
  destruct (requests_in_order (Req:=bool) (Ev:=bool) false id whole 1 [Connect 0] sent [true; false] []) as (k & _ & Hall).
  - done.
  - set_solver.
  - repeat constructor; cbn; done.
  - vm_compute. done.
  - apply Hall; vm_compute; done.
Defined.
End Bit.

(** * Events *)

Section events.
Context {Req Ev : Type} `{JsonLaws Req} `{JsonLaws Ev}.
Context (Sync : Req) (order : list LineStream → list LineStream) (write : nat → list byte → option nat).
Hypothesis whole : ∀ tx bs, write tx bs = Some (length bs).
Abbreviation step := (step Sync order write).
Abbreviation run := (run Sync order write).

(** What a frontend reads from the bytes it got. *)
Fixpoint events_read (fuel : nat) (bs : list byte) : list (outcome IpcError Ev) :=
  match fuel with
  | O => []
  | S fuel => match next_event false bs with (Ready (Some e), rest) => e :: events_read fuel rest | _ => [] end
  end.
Definition events_of (id : nat) (s : AsyncFrontendListener) : list (outcome IpcError Ev) :=
  events_read (length (default [] (written s !! id))) (default [] (written s !! id)).
Definition broadcasts (ts : list (turn (Ev:=Ev))) : list Ev :=
  omap (λ t, match t with Broadcast e => Some e | _ => None end) ts.
Definition connects (ts : list (turn (Ev:=Ev))) : list nat :=
  omap (λ t, match t with Connect i => Some i | _ => None end) ts.

Lemma next_event_frame (e : Ev) rest : next_event false (frame e ++ rest) = (Ready (Some (Ok e)), rest).
Proof.
  unfold next_event, next_line, frame. rewrite <- app_assoc. cbn.
  rewrite take_line_app by apply json_no_newline. rewrite json_text. unfold parse. by rewrite from_to_json.
Qed.
Lemma frame_length (e : Ev) : (1 ≤ length (frame e))%nat.
Proof. unfold frame. rewrite length_app. cbn. lia. Qed.
Lemma events_read_frames (es : list Ev) fuel :
  (length (concat (frame <$> es)) ≤ fuel)%nat → events_read fuel (concat (frame <$> es)) = Ok <$> es.
Proof.
  revert fuel. induction es as [|e es IH]; intros fuel Hf; [by destruct fuel|].
  cbn in Hf. rewrite length_app in Hf. pose proof (frame_length e). destruct fuel as [|fuel]; [lia|].
  cbn. rewrite next_event_frame, IH by lia. done.
Qed.

(** The connections are those that were made, and each client that was accepted
    got the events since. *)
Definition streams_ok (ids : list nat) (all : list Ev) (s : AsyncFrontendListener) : Prop :=
  tx_streams s ++ (client <$> backlog s) = ids ∧
  (∀ id, id ∉ tx_streams s → written s !! id = None) ∧
  ∀ id, id ∈ tx_streams s → ∃ k, (k ≤ length all)%nat ∧ default [] (written s !! id) = concat (frame <$> drop k all).
(** A client that has been accepted misses nothing more. *)
Definition receives (id k : nat) (all : list Ev) (s : AsyncFrontendListener) : Prop :=
  id ∈ tx_streams s ∧ (k ≤ length all)%nat ∧ default [] (written s !! id) = concat (frame <$> drop k all).

Lemma written_other bs txs acc id : id ∉ txs → foldl (write_to write bs) acc txs !! id = acc !! id.
Proof.
  revert acc. induction txs as [|tx txs IH]; intros acc Hn; [done|]. apply not_elem_of_cons in Hn as [Hi Hn].
  cbn. rewrite IH by done. unfold write_to. rewrite whole. by rewrite lookup_insert_ne.
Qed.
Lemma written_once bs txs acc id :
  NoDup txs → id ∈ txs → default [] (foldl (write_to write bs) acc txs !! id) = default [] (acc !! id) ++ bs.
Proof.
  revert acc. induction txs as [|tx txs IH]; intros acc Hd Hin; [set_solver|].
  inversion_clear Hd as [|? ? Hn Hd']. cbn. destruct (decide (id = tx)) as [->|Hi].
  - rewrite written_other by done. unfold write_to. rewrite whole, firstn_all. by rewrite lookup_insert_eq.
  - rewrite IH by set_solver. unfold write_to. rewrite whole. by rewrite lookup_insert_ne.
Qed.
Lemma broadcast_keeps (e : Ev) s : tx_streams (broadcast write e s) = tx_streams s.
Proof.
  cbn. induction (tx_streams s) as [|tx txs IH]; [done|]. rewrite filter_cons, decide_True by (by rewrite whole).
  by rewrite IH.
Qed.
Lemma drop_snoc {A} k (l : list A) x : (k ≤ length l)%nat → drop k (l ++ [x]) = drop k l ++ [x].
Proof. intros Hk. rewrite drop_app_le by done. done. Qed.
Lemma frames_snoc k (all : list Ev) e :
  (k ≤ length all)%nat → concat (frame <$> drop k (all ++ [e])) = concat (frame <$> drop k all) ++ frame e.
Proof. intros Hk. rewrite drop_snoc, fmap_app, concat_app by done. cbn. by rewrite app_nil_r. Qed.

Lemma poll_streams (s : AsyncFrontendListener) :
  let s' := snd (poll_next Sync order s) in
  written s' = written s ∧
  ((tx_streams s' = tx_streams s ∧ backlog s' = backlog s) ∨
   (tx_streams s' = tx_streams s ++ (client <$> backlog s) ∧ backlog s' = [])).
Proof. unfold poll_next. destruct (select_all _) as [[[i [l|e| |]]|] ss]; cbn; eauto. Qed.
Lemma step_poll (s : AsyncFrontendListener) : step Poll s = snd (poll_next Sync order s).
Proof. done. Qed.
Lemma on_clients id f ss : (∀ c, client (f c) = client c) → client <$> on_stream id f ss = client <$> ss.
Proof. intros Hf. unfold on_stream. rewrite <- list_fmap_compose. apply list_fmap_ext. intros i c _. cbn. case_decide; [apply Hf|done]. Qed.

Lemma streams_step ids all t s :
  streams_ok ids all s → NoDup (ids ++ connects [t]) → streams_ok (ids ++ connects [t]) (all ++ broadcasts [t]) (step t s).
Proof.
  intros (Hi & Hn & Hw) Hd. destruct t as [i|i bs|i| |e]; cbn [connects broadcasts omap list_omap] in *; rewrite ?app_nil_r in *.
  - split_and!; [|done|done]. cbn. by rewrite fmap_app, app_assoc, Hi.
  - split_and!; [|done|done]. cbn. by rewrite on_clients.
  - split_and!; [|done|done]. cbn. by rewrite on_clients.
  - rewrite step_poll. destruct (poll_streams s) as [Ew [[Et Eb]|[Et Eb]]]; unfold streams_ok; rewrite Ew, Et, Eb.
    + split_and!; done.
    + split_and!; [by rewrite app_nil_r| |].
      * intros id Hid. apply Hn. set_solver.
      * intros id Hid. destruct (decide (id ∈ tx_streams s)) as [Hin|Hin]; [by apply Hw|].
        exists (length all). rewrite (Hn id Hin), drop_all. done.
  - assert (NoDup (tx_streams s)) as Hd' by (rewrite <- Hi in Hd; by apply NoDup_app in Hd as [? _]).
    unfold streams_ok. cbn [IpcSocket.step]. rewrite !broadcast_keeps. split_and!; [done| |]; cbn [broadcast written].
    + intros id Hid. rewrite written_other by done. by apply Hn.
    + intros id Hid. destruct (Hw id Hid) as (k & Hk & Ek). exists k. rewrite length_app. split; [lia|].
      by rewrite written_once, Ek, frames_snoc.
Qed.
Lemma step_receives id k all t s ids :
  streams_ok ids all s → NoDup ids → receives id k all s → receives id k (all ++ broadcasts [t]) (step t s).
Proof.
  intros (Hi & _) Hd (Hin & Hk & Ek). destruct t as [i|i bs|i| |e]; cbn [broadcasts omap list_omap]; rewrite ?app_nil_r; try done.
  - rewrite step_poll. unfold receives. destruct (poll_streams s) as [-> [[-> _]|[-> _]]]; split_and!; set_solver.
  - assert (NoDup (tx_streams s)) as Hd' by (rewrite <- Hi in Hd; by apply NoDup_app in Hd as [? _]).
    unfold receives. cbn [IpcSocket.step]. rewrite broadcast_keeps. cbn [broadcast written]. rewrite length_app.
    split_and!; [done|lia|]. by rewrite written_once, Ek, frames_snoc.
Qed.
Lemma streams_run ts ids all s :
  streams_ok ids all s → NoDup (ids ++ connects ts) → streams_ok (ids ++ connects ts) (all ++ broadcasts ts) (run ts s).
Proof.
  revert ids all s. induction ts as [|t ts IH]; intros ids all s Hs Hd; [by rewrite !app_nil_r|].
  change (t :: ts) with ([t] ++ ts) in *. unfold connects, broadcasts in *. rewrite !omap_app, !app_assoc in *.
  apply IH; [|done]. apply streams_step; [done|]. by apply NoDup_app in Hd as [? _].
Qed.
Lemma run_receives ts ids all s id k :
  streams_ok ids all s → NoDup (ids ++ connects ts) → receives id k all s → receives id k (all ++ broadcasts ts) (run ts s).
Proof.
  revert ids all s. induction ts as [|t ts IH]; intros ids all s Hs Hd Hr; [by rewrite !app_nil_r|].
  change (t :: ts) with ([t] ++ ts) in *. unfold connects, broadcasts in *. rewrite !omap_app, !app_assoc in *.
  assert (NoDup (ids ++ connects [t])) as Hd1 by (by apply NoDup_app in Hd as [? _]).
  apply (IH (ids ++ connects [t])); [by apply streams_step|done|].
  eapply step_receives; [done| |done]. by apply NoDup_app in Hd1 as [? _].
Qed.
Lemma receives_events id k all s : receives id k all s → events_of id s = Ok <$> drop k all.
Proof. intros (_ & _ & E). unfold events_of. rewrite E. by apply events_read_frames. Qed.
Lemma new_ok : streams_ok [] [] new.
Proof. split_and!; try done. cbn. set_solver. Qed.
End events.

(** When the system takes the writes whole, a frontend reads every event
    that is broadcast once the daemon has accepted it, each once and in order;
    those before are not sent to it (the daemon accepts a connection at the
    first poll that finds no request, and answers with [Sync]). *)
Theorem events_in_order {Req Ev} `{JsonLaws Req} `{JsonLaws Ev} (Sync : Req) order write id (ts1 ts2 : list (turn (Ev:=Ev))) :
  (∀ tx bs, write tx bs = Some (length bs)) → NoDup (connects (ts1 ++ ts2)) →
  id ∈ tx_streams (run Sync order write ts1 new) →
  ∃ k, (k ≤ length (broadcasts ts1))%nat ∧
    events_of id (run Sync order write (ts1 ++ ts2) new) = Ok <$> (drop k (broadcasts ts1) ++ broadcasts ts2).
Proof.
  intros Hw Hd Hin. unfold connects in Hd. rewrite omap_app in Hd. fold (connects ts1) (connects ts2) in Hd.
  pose proof (streams_run Sync order write Hw ts1 [] [] new (new_ok write Hw)) as Hok. cbn [app] in Hok.
  specialize (Hok (proj1 (proj1 (NoDup_app _ _) Hd))). destruct (proj2 (proj2 Hok) id Hin) as (k & Hk & Ek).
  exists k. split; [done|]. unfold run. rewrite foldl_app. rewrite <- drop_app_le by done. apply receives_events.
  by eapply run_receives; [..|split_and!].
Qed.

Module Bits.
#[local] Existing Instance Bit.bit_json.
#[local] Existing Instance Bit.bit_laws.
Lemma events_in_order_witness :
  let ts1 := [Connect 0; Broadcast false; Poll] in let ts2 := [Broadcast true; Connect 1; Broadcast false] in
  ∃ k, (k ≤ 1)%nat ∧ events_of 0 (run true id Bit.whole (ts1 ++ ts2) new) = Ok <$> (drop k [false] ++ [true; false]).
Proof.
  refine (events_in_order (Req:=bool) (Ev:=bool) true id Bit.whole 0 [Connect 0; Broadcast false; Poll] [Broadcast true; Connect 1; Broadcast false] _ _ _).
  - done.
  - vm_compute. repeat (constructor; [set_solver|]). constructor.
  - vm_compute. set_solver.
Defined.

(** [broadcast] writes once and ignores how much was taken: an event that was
    cut is glued to the next one, and both are lost. *)
Lemma torn_event :
  let short (_ : nat) (bs : list byte) := Some (length bs `min` 3)%nat in
  let ts := [Connect 0; Poll; Broadcast true] in
  let s := run true id Bit.whole [Broadcast false; Broadcast true] (run true id short ts new) in
  events_of 0 s = [Err JsonError; Ok true : outcome IpcError bool].
Proof. vm_compute. reflexivity. Qed.

(** After a line that is not UTF-8, or a client that has gone with half a one,
    [poll_next] says that there is nothing, while a request of another client
    waits: nothing wakes the daemon until the sockets move again. *)
Lemma bad_line_stalls :
  let s := run true id Bit.whole [Connect 0; Connect 1; Poll; Send 0 [xff; newline]; Send 1 (frame false)] new in
  fst (poll_next true id s) = Pending ∧ fst (poll_next true id (snd (poll_next true id s))) = Ready (Ok false).
Proof. vm_compute. done. Qed.
End Bits.

(** * Connecting *)

Lemma back_off_bounds d : (10 ≤ d ≤ 1000)%N → (20 ≤ exponential_back_off d ≤ 1000)%N.
Proof. unfold exponential_back_off. lia. Qed.
Lemma wait_first fuel up n d t k :
  up (n + k)%nat = true → (∀ j, (j < k)%nat → up (n + j)%nat = false) → (k < fuel)%nat →
  ∃ t', wait_for_service fuel up n d t = Some t' ∧ (t' ≤ t + 1000 * N.of_nat k)%N.
Proof.
  revert n d t k. induction fuel as [|fuel IH]; intros n d t k Hk Hj Hf; [lia|]. cbn. destruct k as [|k].
  - rewrite Nat.add_0_r in Hk. rewrite Hk. exists t. split; [done|lia].
  - pose proof (Hj 0%nat) as H0. rewrite Nat.add_0_r in H0. rewrite H0 by lia.
    destruct (IH (S n) (exponential_back_off d) (t + exponential_back_off d)%N k) as (t' & E & Ht').
    + by rewrite Nat.add_succ_comm.
    + intros j Hjk. rewrite Nat.add_succ_comm. apply Hj. lia.
    + lia.
    + exists t'. split; [done|]. unfold exponential_back_off in *. lia.
Qed.
Lemma wait_elapsed fuel up n d t t' : wait_for_service fuel up n d t = Some t' → (t ≤ t')%N.
Proof.
  revert n d t. induction fuel as [|fuel IH]; intros n d t E; [done|]. cbn in E.
  destruct (up n); [injection E; lia|]. apply IH in E. lia.
Qed.

(** A frontend that waits without a timeout connects at the first attempt
    that finds the daemon, at most a second for each attempt before; with the
    500 ms of the command line the attempts are at 0, 20, 60, 140 and 300 ms,
    and nothing that comes up later is found. *)
Theorem connect_async_spec fuel up :
  (∀ k, up k = true → (∀ j, (j < k)%nat → up j = false) → (k < fuel)%nat →
     ∃ t, connect_async fuel up None = Ok t ∧ (t ≤ 1000 * N.of_nat k)%N) ∧
  ((5 ≤ fuel)%nat → connect_async fuel up (Some 500%N) =
     match list_find (λ n, up n = true) (seq 0 5) with
     | Some (n, _) => Ok (default 0%N ([0; 20; 60; 140; 300]%N !! n))
     | None => Err Timeout
     end).
Proof.
  split.
  - intros k Hk Hj Hf. destruct (wait_first fuel up 0 10 0 k Hk Hj Hf) as (t & E & Ht).
    exists t. unfold connect_async. rewrite E. split; [done|lia].
  - intros Hf. do 5 (destruct fuel as [|fuel]; [lia|]). unfold connect_async. cbn -[exponential_back_off N.add].
    change (exponential_back_off 10) with 20%N. change (exponential_back_off 20) with 40%N.
    change (exponential_back_off 40) with 80%N. change (exponential_back_off 80) with 160%N. change (exponential_back_off 160) with 320%N.
    change (0 + 20)%N with 20%N. change (20 + 40)%N with 60%N. change (60 + 80)%N with 140%N. change (140 + 160)%N with 300%N. change (300 + 320)%N with 620%N.
    repeat (case_decide as Hc || match goal with |- context [up ?n] => destruct (up n) eqn:? end; try done; cbn).
    destruct (wait_for_service fuel up 5 320 620) as [t|] eqn:E; [|done].
    apply wait_elapsed in E. by rewrite decide_False by lia.
Qed.
Lemma connect_async_spec_witness :
  connect_async 5 (λ n, bool_decide (3 ≤ n)%nat) (Some 500%N) = Ok 140%N ∧ connect_async 5 (λ n, bool_decide (5 ≤ n)%nat) (Some 500%N) = Err Timeout.
Proof. split; rewrite (proj2 (connect_async_spec 5 _)) by lia; reflexivity. Defined.
