(* ===== verification/Cli.v ===== *)
(** The command line (lan-mouse-cli/src/lib.rs): what each command asks of the
    daemon, and a client that is added end to end, through the handlers of the
    service.

    The commands come parsed.  [write_ok n] says whether the [n]-th request can
    be written; the events that the daemon sends are a list, whose end is the
    end of the stream. *)

From S2P Require Import Prelude Transport Net Clients Toml Service IpcSocket.
From S2P Require Config Sync.

Definition MIB : Z := 1024 * 1024.

(** * Commands *)

Record Client : Type := mkClient {
  cl_hostname : option string;
  cl_port : option Z;
  cl_ips : option (list IpAddr);
  cl_enter_hook : option string
}.
Record SetClipboardConfigArgs : Type := mkArgs {
  a_enabled : bool;
  a_accept_dir : string;
  a_ignore_text : bool;
  a_ignore_images : bool;
  a_ignore_files : bool;
  a_max_file_size : Z;
  a_keep_partial : bool;
  a_inject_to_clipboard : bool
}.
Inductive CliSubcommand : Type :=
| CmdAddClient (c : Client)
| CmdRemoveClient (id : ClientHandle)
| CmdActivate (id : ClientHandle)
| CmdDeactivate (id : ClientHandle)
| CmdList
| CmdSetHost (id : ClientHandle) (host : option string)
| CmdSetPort (id : ClientHandle) (port : Z)
| CmdSetPosition (id : ClientHandle) (pos : Ipc.Position)
| CmdSetMonitor (id : ClientHandle) (monitor : string)
| CmdSetIps (id : ClientHandle) (ips : list IpAddr)
| CmdSetClipboardConfig (args : SetClipboardConfigArgs)
| CmdSetEnableClipboardTo (id : ClientHandle) (enable : bool)
| CmdEnableCapture
| CmdEnableEmulation
| CmdAuthorizeKey (description sha256_fingerprint : string)
| CmdRemoveAuthorizedKey (sha256_fingerprint : string)
| CmdSaveConfig.

(** [saturating_mul] of u64. *)
Definition build_clipboard_config (args : SetClipboardConfigArgs) : Config.ClipboardConfig :=
  Config.mkClipboard (a_enabled args) (a_accept_dir args) (a_ignore_text args) (a_ignore_images args)
    (a_ignore_files args) (Z.min (a_max_file_size args * MIB) (2 ^ 64 - 1)) (a_keep_partial args)
    (a_inject_to_clipboard args).

(** * Running one *)

(** The two ends of the socket, and the rows that [List] prints, without their
    text. *)
Definition row : Type := ClientHandle * string * Z * Ipc.Position * bool * gset IpAddr.
Record Cli : Type := mkCli {
  sent : list FrontendRequest;
  rx : list (outcome IpcError FrontendEvent);
  printed : list row
}.

Section cli.
Variable write_ok : nat → bool.
Abbreviation M := (ST Cli IpcError).

Definition tx_request (r : FrontendRequest) : M unit :=
  l ← gets sent;
  if write_ok (length l) then modify_st (λ s, mkCli (sent s ++ [r]) (rx s) (printed s)) else raise IoError.

(** [while let Some(e) = rx.next().await]: the first event that is looked for,
    [None] at the end of the stream. *)
Fixpoint first_event {A} (pick : FrontendEvent → option A) (l : list (outcome IpcError FrontendEvent)) :
    outcome IpcError (option A) * list (outcome IpcError FrontendEvent) :=
  match l with
  | [] => (Ok None, [])
  | Ok e :: l => match pick e with Some a => (Ok (Some a), l) | None => first_event pick l end
  | Err e :: l => (Err e, l)
  | Panic :: l => (Panic, l)
  | Diverge :: l => (Diverge, l)
  end.
Definition await {A} (pick : FrontendEvent → option A) : M (option A) := λ s,
  let '(r, l) := first_event pick (rx s) in (r, mkCli (sent s) l (printed s)).
Definition created (e : FrontendEvent) : option ClientHandle :=
  match e with Created h _ _ => Some h | _ => None end.
Definition enumerated (e : FrontendEvent) : option (list (ClientHandle * ClientConfig * ClientState)) :=
  match e with Enumerate l => Some l | _ => None end.

Definition when_some {A} (o : option A) (f : A → FrontendRequest) : M unit :=
  match o with Some a => tx_request (f a) | None => mret tt end.
Definition print_row (e : ClientHandle * ClientConfig * ClientState) : row :=
  let '(h, c, s) := e in (h, default "unknown" (hostname c), port c, pos c, active s, ips s).

Definition execute (cmd : CliSubcommand) : M unit :=
  match cmd with
  | CmdAddClient c =>
      tx_request CreateClient ≫= λ _,
      handle ← await created;
      match handle with
      | Some h =>
          when_some (cl_hostname c) (λ n, UpdateHostname h (Some n)) ≫= λ _,
          when_some (cl_port c) (UpdatePort h) ≫= λ _,
          when_some (cl_ips c) (UpdateFixIps h) ≫= λ _,
          when_some (cl_enter_hook c) (λ k, UpdateEnterHook h (Some k))
      | None => mret tt
      end
  | CmdRemoveClient id => tx_request (DeleteClient id)
  | CmdActivate id => tx_request (Activate id true)
  | CmdDeactivate id => tx_request (Activate id false)
  | CmdList =>
      tx_request RequestEnumerate ≫= λ _,
      clients ← await enumerated;
      modify_st (λ s, mkCli (sent s) (rx s) (printed s ++ (print_row <$> default [] clients)))
  | CmdSetHost id host => tx_request (UpdateHostname id host)
  | CmdSetPort id port => tx_request (UpdatePort id port)
  | CmdSetPosition id pos => tx_request (UpdatePosition id pos)
  | CmdSetMonitor id monitor =>
      tx_request (UpdateMonitor id (if decide (monitor = "") then None else Some monitor))
  | CmdSetIps id ips => tx_request (UpdateFixIps id ips)
  | CmdSetClipboardConfig args => tx_request (SetClipboardConfig (build_clipboard_config args))
  | CmdSetEnableClipboardTo id enable => tx_request (SetEnableClipboard id enable)
  | CmdEnableCapture => tx_request EnableCapture
  | CmdEnableEmulation => tx_request EnableEmulation
  | CmdAuthorizeKey description fp => tx_request (AuthorizeKey description fp)
  | CmdRemoveAuthorizedKey fp => tx_request (RemoveAuthorizedKey fp)
  | CmdSaveConfig => tx_request SaveConfiguration
  end.
End cli.
(** [run] on a socket whose other end sends [events]. *)
Definition run (write_ok : nat → bool) (cmd : CliSubcommand) (events : list (outcome IpcError FrontendEvent)) :
    outcome IpcError unit * Cli := execute write_ok cmd (mkCli [] events []).

(** * Adding a client *)

Definition option_requests (h : ClientHandle) (c : Client) : list FrontendRequest :=
  option_list ((λ n, UpdateHostname h (Some n)) <$> cl_hostname c) ++
  option_list (UpdatePort h <$> cl_port c) ++ option_list (UpdateFixIps h <$> cl_ips c) ++
  option_list ((λ k, UpdateEnterHook h (Some k)) <$> cl_enter_hook c).
(** What the command asks for. *)
Definition configured (c : Client) : ClientConfig :=
  mkConfig (cl_hostname c) (default [] (cl_ips c)) (default DEFAULT_PORT (cl_port c)) Ipc.default
    (cl_enter_hook c) default_channels None true.

Definition always (_ : nat) : bool := true.
Lemma first_created es e h cfg st rest :
  Forall (λ e, created e = None) es → e = Created h cfg st →
  first_event created ((Ok <$> es) ++ Ok e :: rest) = (Ok (Some h), rest).
Proof. intros Hes ->. induction Hes as [|x es Hx _ IH]; [done|]. cbn. by rewrite Hx. Qed.

Lemma run_add_client c h cfg st es rest :
  Forall (λ e, created e = None) es →
  run always (CmdAddClient c) ((Ok <$> es) ++ Ok (Created h cfg st) :: rest) =
    (Ok tt, mkCli (CreateClient :: option_requests h c) rest []).
Proof.
  intros Hes. unfold run, execute, tx_request, await, mbind, ST_bind, gets, modify_st. cbn.
  rewrite (first_created es _ h cfg st rest Hes eq_refl). cbn.
  destruct c as [[] [] [] []]; reflexivity.
Qed.

Section daemon.
Context {S : Type} `{SlabLaws S} {TT : TomlText} {TL : TomlLaws}.
Variables public_key_fingerprint default_accept_dir : string.
Abbreviation handle := (handle_frontend_request public_key_fingerprint default_accept_dir).
(** The requests of one frontend, one after the other. *)
Definition serve_all (rs : list FrontendRequest) : ST (Service S) Empty_set unit := for_each handle rs.

(** The client [h] is [e], the others and the capture task are as in [s0], and the
    configuration can be saved. *)
Definition only (h : ClientHandle) (e : entry) (s0 s : Service S) : Prop :=
  slab_get h (manager s) = Some e ∧ (∀ k, k ≠ h → slab_get k (manager s) = slab_get k (manager s0)) ∧
  requests s = requests s0 ∧ Sync.storable s.
(** The file holds the clients of the table. *)
Definition saved (m : S) (s : Service S) : Prop := Config.clients (config s) = to_config_client <$> Clients.clients m.

Lemma clients_nonempty h e (m : S) : slab_get h m = Some e → to_config_client <$> Clients.clients m ≠ [].
Proof.
  intros E. apply (iter_get (S:=S)) in E. unfold Clients.clients. destruct (slab_iter m); [by apply not_elem_of_nil in E|done].
Qed.
Lemma save_config_spec h e s0 s :
  only h e s0 s → wp save_config (λ _ s', only h e s0 s' ∧ manager s' = manager s ∧ saved (manager s') s') s.
Proof.
  intros (He & Hk & Hr & Hst). unfold save_config, cm. wp. set (s1 := set_config _ s).
  assert (Sync.storable s1) as Hst1 by (revert Hst; unfold Sync.storable, s1, stored_tree; cbn; by destruct (to_config_client <$> _)).
  eapply wp_mono; [by apply Sync.wp_write_back|]. intros [] s2 ->. split; [by split_and!|]. split; [done|]. unfold saved. cbn.
  pose proof (clients_nonempty h e (manager s) He) as Hne.
  etrans; [|apply (Config.clients_set _ (config s) Hne)]. by destruct (to_config_client <$> _).
Qed.
Lemma only_log h e s0 s f r k l p : only h e s0 s → only h e s0 (log [] f r k l p s).
Proof. intros (He & Hk & Hr & Hst). split_and!; [done|done| |done]. cbn. by rewrite app_nil_r. Qed.
Lemma broadcast_spec h e s0 s k : only h e s0 s → wp (broadcast_client k) (λ _ s', only h e s0 s' ∧ config s' = config s ∧ manager s' = manager s) s.
Proof. intros Ho. unfold broadcast_client, cm, notify_frontend. wp. split_and!; [by apply only_log|done..]. Qed.

(** A change of the client [h] and of no other, that leaves the rest alone. *)
Lemma only_change h e e' s0 s m :
  only h e s0 s → (∀ k, slab_get k m = if decide (k = h) then Some e' else slab_get k (manager s)) →
  only h e' s0 (set_manager m s).
Proof.
  intros (He & Hk & Hr & Hst) Hm. split_and!; [by cbn; rewrite Hm, decide_True|..|done|done].
  intros k Hne. cbn. rewrite Hm, decide_False by done. by apply Hk.
Qed.

(** What the setters make of the client. *)
Definition becomes (h : ClientHandle) (e' : entry) (m m' : S) : Prop :=
  ∀ k, slab_get k m' = if decide (k = h) then Some e' else slab_get k m.
Lemma hostname_at h c st n m :
  slab_get h m = Some (c, st) → hostname c = None →
  ∃ st' m', set_hostname h (Some n) m = (true, m') ∧ becomes h (with_hostname (Some n) c, st') m m' ∧ active st' = active st.
Proof.
  intros E Hn.
  set (p := λ e : entry, negb (bool_decide (hostname (fst e) = Some n))).
  set (f := λ e : entry, (with_hostname (Some n) (fst e), with_dns_ips [] (with_active_addr None (snd e)))).
  pose proof (λ k, get_modify_if k h p f m) as Hm. pose proof (modify_if_result h p f m) as Hb.
  unfold set_hostname. fold p f. destruct (modify_if h p f m) as [b m1]. cbn in Hm, Hb. rewrite E in Hb, Hm. unfold p in Hb, Hm. cbn in Hb, Hm.
  rewrite bool_decide_eq_false_2 in Hb, Hm by congruence. cbn in Hb, Hm. subst b.
  do 2 eexists. split; [done|]. split.
  - intros k. unfold update_ips. rewrite get_modify, !Hm, (decide_True _ _ (eq_refl h)). cbn. by case_decide.
  - done.
Qed.
Lemma port_at h c st p m :
  slab_get h m = Some (c, st) → ∃ st', becomes h (with_port p c, st') m (set_port h p m) ∧ active st' = active st.
Proof.
  intros E. unfold set_port. pose proof (λ k, get_modify_if k h (λ e, negb (bool_decide (port (fst e) = p)))
    (λ e, (with_port p (fst e), with_active_addr ((λ a, socket_addr (sa_ip a) p) <$> active_addr (snd e)) (snd e))) m) as Hm.
  rewrite E in Hm. cbn in Hm. destruct (bool_decide (port c = p)) eqn:Eb; cbn in Hm.
  - apply bool_decide_eq_true in Eb. exists st. split; [|done]. intros k. rewrite Hm. case_decide; [|done].
    do 2 f_equal. destruct c. cbn in *. by subst.
  - eexists. split; [intros k; by rewrite Hm|done].
Qed.
Lemma fix_ips_at h c st l m :
  slab_get h m = Some (c, st) → ∃ st', becomes h (with_fix_ips l c, st') m (set_fix_ips h l m) ∧ active st' = active st.
Proof.
  intros E. eexists. split.
  - intros k. unfold set_fix_ips, update_ips. rewrite !get_modify, (decide_True _ _ (eq_refl h)), E. by case_decide.
  - done.
Qed.
Lemma hook_at h c st k m :
  slab_get h m = Some (c, st) → becomes h (with_cmd k c, st) m (set_enter_hook h k m).
Proof. intros E x. unfold set_enter_hook. rewrite get_modify, E. by case_decide. Qed.

(** One request of the command, but for the hook, is done and saved. *)
Definition done_and_saved (h : ClientHandle) (c : ClientConfig) (s0 s : Service S) : Prop :=
  ∃ st, only h (c, st) s0 s ∧ active st = false ∧ saved (manager s) s.
Lemma updated h c st c' st' s0 s m b :
  only h (c, st) s0 s → becomes h (c', st') (manager s) m → active st' = false →
  wp (and_save (when b (resolve h) ≫= λ _, broadcast_client h)) (λ _ s', done_and_saved h c' s0 s') (set_manager m s).
Proof.
  intros Ho Hb Ha. pose proof (only_change _ _ _ _ _ _ Ho Hb) as H1. unfold and_save. rewrite wp_bind, wp_bind, wp_when.
  assert (∀ s1, only h (c', st') s0 s1 → wp (broadcast_client h) (λ _, wp save_config (λ _ s', done_and_saved h c' s0 s')) s1) as Hgo.
  { intros s1 H2. eapply wp_mono; [by apply broadcast_spec|]. intros [] s2 (H3 & _). eapply wp_mono; [by apply save_config_spec|].
    intros [] s3 (H4 & _ & H5). by exists st'. }
  destruct b; [|by apply Hgo]. unfold resolve, cm. wp.
  match goal with |- context [match ?o with Some _ => _ | None => _ end] => destruct o end; wp; apply Hgo; [by apply only_log|done].
Qed.

Lemma serve_hostname h c n s0 s :
  done_and_saved h c s0 s → hostname c = None →
  wp (handle (UpdateHostname h (Some n))) (λ _ s', done_and_saved h (with_hostname (Some n) c) s0 s') s.
Proof.
  intros (st & Ho & Ha & _) Hn. destruct (hostname_at h c st n (manager s)) as (st' & m & E & Hb & Ha'); [apply Ho|done|].
  cbn. unfold update_hostname, and_save, cm_call. rewrite !wp_bind. unfold wp at 1. rewrite E.
  pose proof (updated h c st _ st' s0 s m true Ho Hb) as H1. unfold and_save in H1. rewrite wp_bind in H1. apply H1. by rewrite Ha'.
Qed.
Lemma serve_port h c p s0 s :
  done_and_saved h c s0 s → wp (handle (UpdatePort h p)) (λ _ s', done_and_saved h (with_port p c) s0 s') s.
Proof.
  intros (st & Ho & Ha & _). destruct (port_at h c st p (manager s)) as (st' & Hb & Ha'); [apply Ho|].
  pose proof (updated h c st _ st' s0 s _ false Ho Hb) as H1. cbn. unfold update_port, cm_do. unfold and_save in *.
  rewrite !wp_bind, wp_modify in *. rewrite wp_when in H1. apply H1. by rewrite Ha'.
Qed.
Lemma serve_fix_ips h c l s0 s :
  done_and_saved h c s0 s → wp (handle (UpdateFixIps h l)) (λ _ s', done_and_saved h (with_fix_ips l c) s0 s') s.
Proof.
  intros (st & Ho & Ha & _). destruct (fix_ips_at h c st l (manager s)) as (st' & Hb & Ha'); [apply Ho|].
  pose proof (updated h c st _ st' s0 s _ false Ho Hb) as H1. cbn. unfold update_fix_ips, cm_do. unfold and_save in *.
  rewrite !wp_bind, wp_modify in *. rewrite wp_when in H1. apply H1. by rewrite Ha'.
Qed.
(** The hook is done, and the file stays as it was. *)
Lemma serve_hook h c k s0 s :
  done_and_saved h c s0 s →
  wp (handle (UpdateEnterHook h (Some k)))
    (λ _ s', ∃ st, only h (with_cmd (Some k) c, st) s0 s' ∧ active st = false ∧ saved (manager s) s') s.
Proof.
  intros (st & Ho & Ha & Hs). pose proof (hook_at h c st (Some k) (manager s) (proj1 Ho)) as Hb.
  cbn. unfold update_enter_hook, cm_do. rewrite wp_bind, wp_modify.
  eapply wp_mono; [eapply broadcast_spec, only_change; done|]. intros [] s1 (H1 & Hc & _). exists st. split_and!; [done|done|].
  unfold saved. by rewrite Hc.
Qed.
Lemma serve_create s :
  (N.of_nat (length (slab_iter (manager s))) < 2 ^ 63)%N → Sync.storable s →
  ∃ h, slab_get h (manager s) = None ∧
    wp (handle CreateClient) (λ _ s', done_and_saved h default_config s s' ∧ frontend s' = frontend s ++ [Created h default_config default_state]) s.
Proof.
  intros Hl Hst. destruct (insert_fresh (default_config, default_state) (manager s) Hl) as [Hn _].
  exists (fst (slab_insert (default_config, default_state) (manager s))). split; [done|].
  pose proof (λ k, get_insert k (default_config, default_state) (manager s)) as Hi.
  cbn. unfold and_save, add_client, cm_call, cm, Clients.add_client, get_state. rewrite !wp_bind. unfold wp at 1.
  destruct (slab_insert _ _) as [h m]. cbn in Hn, Hi |- *. wp. cbn. rewrite Hi, decide_True by done. unfold notify_frontend. wp.
  assert (only h (default_config, default_state) s (log [] [Created h default_config default_state] [] [] [] [] (set_manager m s))) as H1.
  { apply only_log. split_and!; [by cbn; rewrite Hi, decide_True|..|done|done]. intros k Hk. cbn. by rewrite Hi, decide_False. }
  pose proof (save_config_spec _ _ _ _ H1) as Hs.
  assert (wp save_config (λ _ s', frontend s' = frontend s ++ [Created h default_config default_state]) (log [] [Created h default_config default_state] [] [] [] [] (set_manager m s))) as Hf.
  { unfold save_config, cm. wp. eapply wp_mono; [apply Sync.wp_write_back|by intros ? ? ->].
    revert Hst. unfold Sync.storable, stored_tree. cbn. by destruct (to_config_client <$> _). }
  eapply wp_mono; [apply (wp_conj _ _ _ _ Hs Hf)|]. intros [] s' [(H2 & _ & H3) H4]. split; [|done]. by exists default_state.
Qed.

(** The requests that follow the creation. *)
Lemma serve_option {A} (o : option A) (f : A → FrontendRequest) rs (P P' Q : Service S → Prop) s :
  P s → (o = None → ∀ s, P s → P' s) → (∀ a s, o = Some a → P s → wp (handle (f a)) (λ _, P') s) →
  (∀ s, P' s → wp (serve_all rs) (λ _, Q) s) → wp (serve_all (option_list (f <$> o) ++ rs)) (λ _, Q) s.
Proof.
  intros Hs Hn Ha Hr. destruct o as [a|]; cbn; [|by apply Hr, Hn].
  rewrite wp_bind. eapply wp_mono; [by apply Ha|]. intros [] s' Hs'. by apply Hr.
Qed.
Definition without_hook (h : ClientHandle) (c : Client) (s0 : Service S) (m : S) : Prop :=
  (∃ st, slab_get h m = Some (with_cmd None (configured c), st)) ∧ ∀ k, k ≠ h → slab_get k m = slab_get k (manager s0).
Lemma no_hook h c st s0 s :
  only h (with_cmd None (configured c), st) s0 s → without_hook h c s0 (manager s).
Proof. intros (H1 & H2 & _). split; [by exists st|done]. Qed.
Lemma serve_options h c s0 s :
  done_and_saved h default_config s0 s →
  wp (serve_all (option_requests h c)) (λ _ s', ∃ st m, only h (configured c, st) s0 s' ∧ active st = false ∧ saved m s' ∧ without_hook h c s0 m) s.
Proof.
  intros Hd. unfold option_requests. rewrite <- (app_nil_r (option_list ((λ k, UpdateEnterHook h (Some k)) <$> cl_enter_hook c))).
  set (c1 := with_hostname (cl_hostname c) default_config).
  set (c2 := with_port (default DEFAULT_PORT (cl_port c)) c1). set (c3 := with_fix_ips (default [] (cl_ips c)) c2).
  apply (serve_option _ _ _ (done_and_saved h default_config s0) (done_and_saved h c1 s0)); [exact Hd|..].
  { intros E s1 Hs. unfold c1. by rewrite E. }
  { intros a s1 E Hs. unfold c1. rewrite E. by apply serve_hostname. }
  intros s1 H1. apply (serve_option _ _ _ (done_and_saved h c1 s0) (done_and_saved h c2 s0)); [exact H1|..].
  { intros E s2 Hs. unfold c2. by rewrite E. }
  { intros a s2 E Hs. unfold c2. rewrite E. by apply serve_port. }
  intros s2 H2. apply (serve_option _ _ _ (done_and_saved h c2 s0) (done_and_saved h c3 s0)); [exact H2|..].
  { intros E s3 Hs. unfold c3. by rewrite E. }
  { intros a s3 E Hs. unfold c3. rewrite E. by apply serve_fix_ips. }
  intros s3 H3. match goal with |- wp _ (λ _, ?Q) _ => apply (serve_option _ _ [] (done_and_saved h c3 s0) Q Q) end; [exact H3|..].
  3: { intros s4 H4. exact H4. }
  - intros E s4 (st & Ho & Ha & Hs). exists st, (manager s4). split_and!; [|done|done|by eapply no_hook].
    unfold configured. rewrite E. exact Ho.
  - intros k s4 E Hs4. pose proof Hs4 as (st0 & Ho & _). eapply wp_mono; [by apply serve_hook|].
    intros [] s5 (st & Ho5 & Ha & Hs). exists st, (manager s4). split_and!; [|done|done|by eapply no_hook].
    unfold configured. rewrite E. exact Ho5.
Qed.
End daemon.

(** * Properties *)

(** A client that is added from the command line, to a daemon whose configuration
    can be saved.  The command waits for the
    first creation that the daemon reports; when that is its own, the daemon,
    once it has handled the requests, has one client more, with the name, the
    port, the addresses and the hook that were asked for and the defaults
    else, inactive; the other clients and the capture task hear nothing.  The
    file then holds every client, but the new one without its hook. *)
Theorem add_client_spec {S} `{SlabLaws S} `{TomlLaws} fingerprint dir c (s : Service S) es rest :
  (N.of_nat (length (slab_iter (manager s))) < 2 ^ 63)%N → Sync.storable s → Forall (λ e, created e = None) es →
  ∃ h, slab_get h (manager s) = None ∧
    let '(r, cli) := run always (CmdAddClient c) ((Ok <$> es) ++ Ok (Created h default_config default_state) :: rest) in
    r = Ok tt ∧ sent cli = CreateClient :: option_requests h c ∧
    wp (handle_frontend_request fingerprint dir CreateClient)
      (λ _ s1, frontend s1 = frontend s ++ [Created h default_config default_state] ∧
         wp (serve_all fingerprint dir (option_requests h c))
           (λ _ s2, ∃ st m, only h (configured c, st) s s2 ∧ active st = false ∧ saved m s2 ∧
              without_hook h c s m) s1) s.
Proof.
  intros Hl Hst Hes. destruct (serve_create fingerprint dir s Hl Hst) as (h & Hn & Hw). exists h. split; [done|].
  rewrite run_add_client by done. split_and!; [done|done|].
  eapply wp_mono; [exact Hw|]. intros [] s1 [Hd Hf]. split; [done|]. by apply serve_options.
Qed.

(** ** Instances *)

#[local] Existing Instance TomlDemo.demo_toml.
#[local] Existing Instance TomlDemo.demo_laws.

Module Sample.
Definition service : Service VecSlab.t :=
  mkService (slab_new (S := VecSlab.t)) (Config.mkConfigFile Config.no_args None) ∅ ∅ ∅ ∅ 0%N None 4242 5 Disabled Disabled [] [] [] [] [] [].
Definition desk : Client := mkClient (Some "desk") (Some 4711%Z) None (Some "notify").
Abbreviation serve_all := (serve_all "fp" "/tmp").

Lemma add_client_spec_witness :
  ∃ h st m s, serve_all (CreateClient :: option_requests h desk) service = (Ok tt, s) ∧
    slab_get h (manager s) = Some (configured desk, st) ∧ saved m s ∧ without_hook h desk service m.
Proof.
  destruct (add_client_spec (S := VecSlab.t) "fp" "/tmp" desk service [CaptureStatus Enabled] []) as (h & _ & _ & _ & Hw); [done|done|by repeat constructor|].
  unfold wp at 1 in Hw. destruct (handle_frontend_request "fp" "/tmp" CreateClient service) as [[[]|?| |] s1] eqn:E1; try done.
  destruct Hw as [_ Hw]. unfold wp in Hw. destruct (Cli.serve_all _ _ _ s1) as [[[]|?| |] s2] eqn:E2; try done.
  destruct Hw as (st & m & Ho & _ & Hs & Hm). exists h, st, m, s2. split_and!; [|apply Ho|done|done].
  unfold Cli.serve_all in *. cbn [for_each]. unfold mbind, ST_bind. by rewrite E1.
Defined.

(** Two commands at once take the first creation for their own: both set up the
    same client, and the other one stays as it was made. *)
Lemma wrong_client :
  let created_both := frontend (snd (serve_all [CreateClient; CreateClient] service)) in
  let first := mkClient (Some "one") None None None in let second := mkClient (Some "two") None None None in
  let asks c := tl (sent (snd (run always (CmdAddClient c) (Ok <$> created_both)))) in
  let s := snd (serve_all ([CreateClient; CreateClient] ++ asks first ++ asks second) service) in
  hostname ∘ fst <$> Clients.clients (manager s) = [Some "two"; None].
Proof. vm_compute. reflexivity. Qed.

(** When the daemon goes away before it reports the client, the command ends
    without an error. *)
Lemma nothing_added c es :
  Forall (λ e, created e = None) es → fst (run always (CmdAddClient c) (Ok <$> es)) = Ok tt.
Proof.
  intros Hes. unfold run, execute, tx_request, await, mbind, ST_bind, gets, modify_st. cbn.
  assert (first_event created (Ok <$> es : list (outcome IpcError FrontendEvent)) = (Ok None, [])) as -> by (induction Hes as [|e es He _ IH]; cbn; [done|by rewrite He]).
  done.
Qed.
End Sample.
