(* ===== verification/Dns.v ===== *)
(** Name resolution (src/dns.rs): the task that runs one lookup for every
    request and aborts the one before for the same client, and what the service
    makes of its events.

    A lookup is a number, its answer an argument of the turn that ends it; an
    aborted task is not polled again. *)

From S2P Require Import Prelude Net Clients Toml Service.
From S2P Require Config.

Inductive status : Type := Running | Finished | Aborted.
#[export] Instance status_eq_dec : EqDecision status.
Proof. solve_decision. Defined.
(** A spawned task with the request that it serves. *)
Record lookup_task : Type := mkLookup { for_handle : ClientHandle; for_name : string; is_ : status }.

(** [DnsTask], with the tasks it spawned and the events they and it sent. *)
Record DnsTask : Type := mkDns {
  request_rx : list (ClientHandle * string);
  active_tasks : gmap ClientHandle nat;
  spawned : list lookup_task;
  event_tx : list DnsEvent;
  cancelled : bool;
  over : bool
}.
Definition new_dns : DnsTask := mkDns [] ∅ [] [] false false.

Definition set_status (x : status) (t : lookup_task) : lookup_task := mkLookup (for_handle t) (for_name t) x.
(** [abort] of a task that is not finished. *)
Definition abort (ts : list lookup_task) (id : nat) : list lookup_task :=
  alter (λ t, if decide (is_ t = Finished) then t else set_status Aborted t) id ts.

Definition resolve (h : ClientHandle) (name : string) (s : DnsTask) : DnsTask :=
  mkDns (request_rx s ++ [(h, name)]) (active_tasks s) (spawned s) (event_tx s) (cancelled s) (over s).
(** One request of the loop [do_dns]. *)
Definition do_dns (s : DnsTask) : DnsTask :=
  match over s, request_rx s with
  | false, (h, name) :: rest =>
      let ts := match active_tasks s !! h with Some id => abort (spawned s) id | None => spawned s end in
      mkDns rest (<[h := length ts]> (active_tasks s)) (ts ++ [mkLookup h name Running])
        (event_tx s ++ [Resolving h]) (cancelled s) (over s)
  | _, _ => s
  end.
(** A lookup ends, with its addresses or an error. *)
Definition lookup_ends (id : nat) (result : option (list IpAddr)) (s : DnsTask) : DnsTask :=
  match spawned s !! id with
  | Some (mkLookup h name Running) =>
      mkDns (request_rx s) (active_tasks s) (<[id := mkLookup h name Finished]> (spawned s))
        (event_tx s ++ [Resolved h name result]) (cancelled s) (over s)
  | _ => s
  end.
(** The token is cancelled; the loop and each lookup see it when they are next
    polled. *)
Definition terminate (s : DnsTask) : DnsTask :=
  mkDns (request_rx s) (active_tasks s) (spawned s) (event_tx s) true (over s).
Definition loop_cancelled (s : DnsTask) : DnsTask :=
  mkDns (request_rx s) (active_tasks s) (spawned s) (event_tx s) (cancelled s) (over s || cancelled s).
Definition lookup_cancelled (id : nat) (s : DnsTask) : DnsTask :=
  if cancelled s then mkDns (request_rx s) (active_tasks s) (abort (spawned s) id) (event_tx s) (cancelled s) (over s) else s.

Inductive turn : Type :=
| Ask (h : ClientHandle) (name : string)
| Serve
| Answer (id : nat) (result : option (list IpAddr))
| Terminate
| StopLoop
| StopLookup (id : nat).
Definition step (t : turn) (s : DnsTask) : DnsTask :=
  match t with
  | Ask h name => resolve h name s
  | Serve => do_dns s
  | Answer id result => lookup_ends id result s
  | Terminate => terminate s
  | StopLoop => loop_cancelled s
  | StopLookup id => lookup_cancelled id s
  end.
Definition run (ts : list turn) (s : DnsTask) : DnsTask := foldl (λ s t, step t s) s ts.

(** * The events of a client *)

Definition event_handle (e : DnsEvent) : ClientHandle := match e with Resolving h | Resolved h _ _ => h end.
Definition events_for (h : ClientHandle) (s : DnsTask) : list DnsEvent := filter (λ e, event_handle e = h) (event_tx s).
Definition names_of (h : ClientHandle) (l : list (ClientHandle * string)) : list string :=
  omap (λ r, if decide (r.1 = h) then Some r.2 else None) l.
Definition asked (ts : list turn) : list (ClientHandle * string) :=
  omap (λ t, match t with Ask h name => Some (h, name) | _ => None end) ts.
(** A request with the answer it got. *)
Definition report (h : ClientHandle) (r : string * option (option (list IpAddr))) : list DnsEvent :=
  Resolving h :: option_list (Resolved h r.1 <$> r.2).
Definition reports (h : ClientHandle) (rs : list (string * option (option (list IpAddr)))) : list DnsEvent := rs ≫= report h.

(** The requests for [h] that were served with their answers, of which only the
    last one may be open; the others wait. *)
Record history (h : ClientHandle) (rs : list (string * option (option (list IpAddr)))) (names : list string) (s : DnsTask) : Prop := {
  hi_events : events_for h s = reports h rs;
  hi_names : names = (fst <$> rs) ++ names_of h (request_rx s);
  hi_active : match last rs with
    | None => active_tasks s !! h = None
    | Some (name, answer) => ∃ id x, active_tasks s !! h = Some id ∧ spawned s !! id = Some (mkLookup h name x) ∧
        (x = Running → answer = None)
    end;
  hi_running id name : spawned s !! id = Some (mkLookup h name Running) → active_tasks s !! h = Some id
}.

Lemma abort_lookup ts i j : abort ts i !! j = (λ t, if decide (i = j ∧ is_ t ≠ Finished) then set_status Aborted t else t) <$> ts !! j.
Proof.
  unfold abort. destruct (decide (i = j)) as [<-|Hne].
  - rewrite list_lookup_alter_eq. destruct (ts !! i) as [t|]; [|done]. cbn. f_equal. repeat case_decide; tauto.
  - rewrite list_lookup_alter_ne by done. destruct (ts !! j) as [t|]; [|done]. cbn. by rewrite decide_False by tauto.
Qed.
(** Aborting a task keeps what it was for, and starts nothing. *)
Lemma abort_same ts i j h name x :
  ts !! j = Some (mkLookup h name x) → ∃ x', abort ts i !! j = Some (mkLookup h name x') ∧ (x' = Running → x = Running).
Proof. intros E. rewrite abort_lookup, E. cbn. case_decide; eexists; by split. Qed.
Lemma abort_running ts i j h name :
  abort ts i !! j = Some (mkLookup h name Running) → ts !! j = Some (mkLookup h name Running) ∧ i ≠ j.
Proof.
  rewrite abort_lookup. intros ([h' n' x] & Ej & E)%fmap_Some. case_decide as Hd; cbn in E; [done|]. injection E as -> -> <-.
  split; [done|]. cbn in Hd. naive_solver.
Qed.
Lemma abort_length ts i : length (abort ts i) = length ts.
Proof. apply length_alter. Qed.

Lemma reports_snoc h rs r : reports h (rs ++ [r]) = reports h rs ++ report h r.
Proof. unfold reports. rewrite bind_app. cbn. by rewrite app_nil_r. Qed.
Lemma events_snoc h e s r a sp c o :
  events_for h (mkDns r a sp (event_tx s ++ [e]) c o) = events_for h s ++ if decide (event_handle e = h) then [e] else [].
Proof. unfold events_for. cbn. rewrite filter_app, filter_cons. by case_decide. Qed.

(** What does not touch the tasks that run. *)
Lemma history_same h rs names s s' :
  history h rs names s → event_tx s' = event_tx s → request_rx s' = request_rx s → active_tasks s' = active_tasks s →
  (spawned s' = spawned s ∨ ∃ i, spawned s' = abort (spawned s) i) → history h rs names s'.
Proof.
  intros [He Hn Ha Hr] Ee Eq Ea Es. split.
  - unfold events_for in *. by rewrite Ee.
  - by rewrite Eq.
  - rewrite Ea. destruct (last rs) as [[name answer]|]; [|done]. destruct Ha as (id & x & Hi & Hs & Hx).
    destruct Es as [->|[i ->]]; [by exists id, x|]. destruct (abort_same _ i id h name x Hs) as (x' & Hs' & Hx').
    exists id, x'. split_and!; [done|done|by auto].
  - intros id name. rewrite Ea. destruct Es as [->|[i ->]]; [apply Hr|]. intros [H1 _]%abort_running. by eapply Hr.
Qed.

Lemma serve_history h rs names s : history h rs names s → ∃ rs', history h rs' names (do_dns s).
Proof.
  intros Hh. unfold do_dns. destruct (over s); [by exists rs|]. destruct (request_rx s) as [|[h' name] rest] eqn:Eq; [by exists rs|].
  set (ts := match active_tasks s !! h' with Some id => abort (spawned s) id | None => spawned s end).
  assert (spawned s = ts ∨ ∃ i, ts = abort (spawned s) i) as Hts by (unfold ts; destruct (active_tasks s !! h'); eauto).
  assert (length ts = length (spawned s)) as Hlen by (destruct Hts as [->|[i ->]]; [done|apply abort_length]).
  destruct Hh as [He Hn Ha Hr]. rewrite Eq in Hn. cbn in Hn. destruct (decide (h' = h)) as [->|Hne].
  - exists (rs ++ [(name, None)]). split.
    + rewrite events_snoc, He, reports_snoc. cbn. by rewrite decide_True.
    + cbn. rewrite Hn, fmap_app, <- app_assoc. done.
    + rewrite last_snoc. exists (length ts), Running. cbn. rewrite lookup_insert_eq. split_and!; [done| |done].
      by apply list_lookup_middle.
    + intros id name' [Hid|[Hid _]]%lookup_snoc_Some.
      2: { cbn. by rewrite Hid, lookup_insert_eq. }
      destruct Hid as [_ Hid]. exfalso. unfold ts in Hid. destruct (active_tasks s !! h) as [i|] eqn:Ei.
      * apply abort_running in Hid as [Hid Hni]. apply Hr in Hid. congruence.
      * apply Hr in Hid. congruence.
  - exists rs. split.
    + rewrite events_snoc, He. cbn. by rewrite decide_False, app_nil_r.
    + done.
    + cbn. rewrite lookup_insert_ne by done. destruct (last rs) as [[name' answer]|]; [|done]. destruct Ha as (id & x & Hi & Hs & Hx).
      assert (∃ x', ts !! id = Some (mkLookup h name' x') ∧ (x' = Running → x = Running)) as (x' & Hs' & Hx').
      { destruct Hts as [<-|[i ->]]; [by exists x|by apply abort_same]. }
      exists id, x'. split_and!; [done|by apply lookup_app_l_Some|auto].
    + cbn. intros id name'. rewrite lookup_insert_ne by done. intros [[_ Hid]|[_ [= E _]]]%lookup_snoc_Some; [|done].
      destruct Hts as [Ets|[i Ets]]; rewrite <- ?Ets in Hid; [by eapply Hr|]. rewrite Ets in Hid. apply abort_running in Hid as [Hid _]. by eapply Hr.
Qed.
Lemma answer_history h rs names id result s : history h rs names s → ∃ rs', history h rs' names (lookup_ends id result s).
Proof.
  intros Hh. unfold lookup_ends. destruct (spawned s !! id) as [[h' name []]|] eqn:Ei; try by exists rs.
  pose proof Hh as [He Hn Ha Hr]. destruct (decide (h' = h)) as [->|Hne].
  - pose proof (Hr id name Ei) as Hact. destruct rs as [|[n0 a0] rs _] using rev_ind; [by rewrite Hact in Ha|].
    rewrite last_snoc in Ha. destruct Ha as (id' & x & Hi' & Hs' & Hx). rewrite Hact in Hi'. injection Hi' as <-.
    rewrite Ei in Hs'. injection Hs' as <- <-. rewrite (Hx eq_refl) in *.
    exists (rs ++ [(name, Some result)]). split.
    + rewrite events_snoc, He, !reports_snoc, <- app_assoc. cbn. by rewrite decide_True.
    + rewrite Hn, !fmap_app. done.
    + rewrite last_snoc. exists id, Finished. cbn. split_and!; [done| |done]. by apply list_lookup_insert_eq, lookup_lt_Some in Ei || (apply list_lookup_insert_eq; by eapply lookup_lt_Some).
    + cbn. intros j n Hj. apply list_lookup_insert_Some in Hj as [(_ & E & _)|[_ Hj]]; [done|]. by eapply Hr.
  - exists rs. split.
    + rewrite events_snoc, He. cbn. by rewrite decide_False, app_nil_r.
    + done.
    + cbn. destruct (last rs) as [[n0 a0]|]; [|done]. destruct Ha as (id' & x & Hi' & Hs' & Hx). exists id', x. split_and!; [done| |done].
      rewrite list_lookup_insert_ne; [done|]. intros <-. congruence.
    + cbn. intros j n Hj. apply list_lookup_insert_Some in Hj as [(_ & E & _)|[_ Hj]]; [done|]. by eapply Hr.
Qed.

Lemma names_of_app h l l' : names_of h (l ++ l') = names_of h l ++ names_of h l'.
Proof. apply omap_app. Qed.
Lemma step_history h rs names t s :
  history h rs names s → ∃ rs', history h rs' (names ++ names_of h (asked [t])) (step t s).
Proof.
  intros Hh. destruct t as [h' name| |id result| | |id]; cbn [asked omap list_omap]; rewrite ?app_nil_r.
  - exists rs. destruct Hh as [He Hn Ha Hr]. split; [done| |done|done]. cbn [step resolve request_rx]. by rewrite Hn, names_of_app, app_assoc.
  - by apply (serve_history h rs).
  - by apply (answer_history h rs).
  - exists rs. eapply history_same; eauto.
  - exists rs. eapply history_same; eauto.
  - exists rs. cbn. unfold lookup_cancelled. destruct (cancelled s); [|done]. eapply history_same; eauto.
Qed.
Lemma run_history h ts rs names s :
  history h rs names s → ∃ rs', history h rs' (names ++ names_of h (asked ts)) (run ts s).
Proof.
  revert rs names s. induction ts as [|t ts IH]; intros rs names s Hh; [exists rs; by rewrite app_nil_r|].
  destruct (step_history h rs names t s Hh) as [rs1 H1]. destruct (IH _ _ _ H1) as [rs2 H2]. exists rs2.
  change (t :: ts) with ([t] ++ ts). unfold asked in *. rewrite omap_app, names_of_app, app_assoc. exact H2.
Qed.
Lemma new_history h : history h [] [] new_dns.
Proof. by split. Qed.

(** * What the service makes of them *)

Section service.
Context {S : Type} `{SlabLaws S}.
(** The client after an event. *)
Definition heard (e : DnsEvent) (c : entry) : entry :=
  match e with
  | Resolving _ => on_state (with_resolving true) c
  | Resolved _ _ ips =>
      let c := on_state (with_dns_ips (default [] ips)) (on_state (with_resolving false) c) in
      on_state (with_ips (list_to_set (fix_ips (fst c) ++ dns_ips (snd c)))) c
  end.
Definition heard_all (es : list DnsEvent) (c : entry) : entry := foldl (λ c e, heard e c) c es.

Lemma handle_heard e (s : Service S) :
  wp (handle_resolver_event e)
    (λ _ s', ∀ h, slab_get h (manager s') = if decide (event_handle e = h) then heard e <$> slab_get h (manager s) else slab_get h (manager s)) s.
Proof.
  destruct e as [h|h name ips]; cbn; unfold cm_do, broadcast_client, cm, notify_frontend; wp; intros k; cbn.
  - unfold set_resolving. rewrite get_modify. repeat case_decide; subst; try done.
  - unfold set_dns_ips, set_resolving, update_ips. rewrite !get_modify. rewrite !(decide_True _ _ (eq_refl h)).
    destruct (decide (k = h)) as [->|Hk]; [|by rewrite decide_False by congruence]. rewrite decide_True by done.
    rewrite <- !option_fmap_compose. by destruct (slab_get h (manager s)).
Qed.
Lemma handle_all es (s : Service S) :
  wp (for_each handle_resolver_event es)
    (λ _ s', ∀ h, slab_get h (manager s') = heard_all (filter (λ e, event_handle e = h) es) <$> slab_get h (manager s)) s.
Proof.
  revert s. induction es as [|e es IH]; intros s; cbn [for_each].
  - wp. intros h. by destruct (slab_get h (manager s)).
  - wp. eapply wp_mono; [apply handle_heard|]. intros [] s1 H1. eapply wp_mono; [apply IH|]. intros [] s2 H2 h.
    rewrite H2, H1, filter_cons. case_decide; [|done]. by destruct (slab_get h (manager s)).
Qed.

(** After the reports of requests, the last of them answered. *)
Lemma heard_reports h rs name ips c st :
  ∃ st', heard_all (reports h (rs ++ [(name, Some ips)])) (c, st) = (c, st') ∧
    resolving st' = false ∧ dns_ips st' = default [] ips ∧ Clients.ips st' = list_to_set (fix_ips c ++ default [] ips).
Proof.
  rewrite reports_snoc. unfold heard_all. rewrite foldl_app.
  assert (∀ es st, ∃ st', foldl (λ c e, heard e c) (c, st) es = (c, st')) as Hc.
  { intros es. induction es as [|e es IH]; intros st0; cbn; [by exists st0|]. destruct e; cbn; apply IH. }
  destruct (Hc (reports h rs) st) as [st1 ->]. cbn. by eexists.
Qed.
End service.

(** * Properties *)

(** C33. Names of clients, from the request to the table.  However requests,
    lookups and a termination interleave: for every client the events are those
    of its requests in the order in which they were made, each with at most one
    answer, that of its own name, and none after the next request was served;
    so once the service has handled them, a client whose last served request was
    answered has exactly the addresses of that name, next to its fixed ones, and
    is not waiting. *)
Theorem latest_name_wins {S} `{SlabLaws S} ts (s : Service S) h c st :
  slab_get h (manager s) = Some (c, st) →
  ∃ rs, (fst <$> rs) `prefix_of` names_of h (asked ts) ∧ events_for h (run ts new_dns) = reports h rs ∧
    ∀ name ips, last rs = Some (name, Some ips) →
      wp (for_each handle_resolver_event (event_tx (run ts new_dns)))
        (λ _ s', ∃ st', slab_get h (manager s') = Some (c, st') ∧ resolving st' = false ∧ dns_ips st' = default [] ips ∧
           Clients.ips st' = list_to_set (fix_ips c ++ default [] ips)) s.
Proof.
  intros Hc. destruct (run_history h ts [] [] new_dns (new_history h)) as [rs [He Hn _ _]]. exists rs.
  split; [by exists (names_of h (request_rx (run ts new_dns)))|]. split; [done|].
  intros name ips Hl. eapply wp_mono; [apply handle_all|]. intros [] s' Hs. rewrite Hs, Hc. fold (events_for h (run ts new_dns)). rewrite He.
  apply last_Some in Hl as [rs' ->]. destruct (heard_reports h rs' name ips c st) as (st' & E & ?). exists st'. cbn. by rewrite E.
Qed.

(** ** Instances *)

#[local] Existing Instance TomlDemo.demo_toml.

Module Sample.
Definition empty : Service VecSlab.t :=
  mkService (slab_new (S := VecSlab.t)) (Config.mkConfigFile Config.no_args None) ∅ ∅ ∅ ∅ 0%N None 4242 5 Disabled Disabled [] [] [] [] [] [].
Definition frontend (rs : list FrontendRequest) : Service VecSlab.t → Service VecSlab.t :=
  λ s, snd (for_each (handle_frontend_request "fp" "/tmp") rs s).
Definition hears (es : list DnsEvent) (s : Service VecSlab.t) : Service VecSlab.t := snd (for_each handle_resolver_event es s).
(** The requests of the service, each served at once. *)
Definition served (s : Service VecSlab.t) : list turn := resolves s ≫= λ r, [Ask r.1 r.2; Serve].
Definition ip1 : IpAddr := V4 1.
Definition ip2 : IpAddr := V4 2.

(** The name changes while the first lookup runs: its answer is not heard. *)
Definition renamed : Service VecSlab.t := frontend [CreateClient; UpdateHostname 0 (Some "a"); UpdateHostname 0 (Some "b")] empty.
Lemma latest_name_wins_witness :
  let d := run (served renamed ++ [Answer 0 (Some [ip1]); Answer 1 (Some [ip2])]) new_dns in
  event_tx d = [Resolving 0; Resolving 0; Resolved 0 "b" (Some [ip2])] ∧
  ∃ st, slab_get 0 (manager (hears (event_tx d) renamed)) = Some (with_hostname (Some "b") default_config, st) ∧ dns_ips st = [ip2].
Proof.
  split; [vm_compute; reflexivity|].
  destruct (latest_name_wins (S := VecSlab.t) (served renamed ++ [Answer 0 (Some [ip1]); Answer 1 (Some [ip2])]) renamed 0
    (with_hostname (Some "b") default_config) default_state) as (rs & Hp & He & Hw); [vm_compute; reflexivity|].
  assert (events_for 0 (run (served renamed ++ [Answer 0 (Some [ip1]); Answer 1 (Some [ip2])]) new_dns) =
    [Resolving 0; Resolving 0; Resolved 0 "b" (Some [ip2])]) as E by (vm_compute; reflexivity).
  rewrite E in He. assert (last rs = Some ("b", Some (Some [ip2]))) as Hl.
  { destruct rs as [|[n1 [r1|]] [|[n2 [r2|]] [|r3 rs]]]; cbn in He; try done.
    by injection He as <- <-. }
  specialize (Hw _ _ Hl). unfold hears. unfold wp in Hw.
  destruct (for_each handle_resolver_event _ renamed) as [[[]|?| |] s'] eqn:E'; try done.
  destruct Hw as (st' & Hs & _ & Hd & _). exists st'. split; [exact Hs|exact Hd].
Defined.

(** Taking the name away aborts nothing: the addresses of the old name arrive
    all the same, and the client that has no name is dialled at them. *)
Lemma cleared_name_resolved :
  let s := frontend [CreateClient; UpdateHostname 0 (Some "a"); UpdateHostname 0 None] empty in
  let d := run (served s ++ [Answer 0 (Some [ip1])]) new_dns in
  (λ e : entry, (hostname e.1, elements (Clients.ips e.2))) <$> slab_get 0 (manager (hears (event_tx d) s)) = Some (None, [ip1]).
Proof. vm_compute. reflexivity. Qed.

(** So does removing the client: one that is made next gets its handle, and the
    addresses of its predecessor. *)
Lemma successor_resolved :
  let s := frontend [CreateClient; UpdateHostname 0 (Some "a"); DeleteClient 0; CreateClient] empty in
  let d := run (served s ++ [Answer 0 (Some [ip1])]) new_dns in
  (λ e : entry, (hostname e.1, elements (Clients.ips e.2))) <$> slab_get 0 (manager (hears (event_tx d) s)) = Some (None, [ip1]).
Proof. vm_compute. reflexivity. Qed.
End Sample.
