(* ===== verification/Power.v ===== *)
(** The power observer of macOS (src/macos_power.rs): a thread that waits in a run
    loop for the messages of the system about sleep, and its owner, who stops it.

    The steps of the thread, of the owner and of the system interleave.  Of the
    system is modelled what its documentation says: messages arrive in order at a
    registered notifier and are handed to the callback by the thread that runs
    the run loop, and [CFRunLoopStop] ends the activation of a run loop, so it
    does nothing to one that was not started yet.  Using or freeing what is not
    there any more is a panic. *)

From S2P Require Import Prelude.

(** * State *)

Definition K_IO_MESSAGE_CAN_SYSTEM_SLEEP : Z := 0xE0000270.
Definition K_IO_MESSAGE_SYSTEM_WILL_SLEEP : Z := 0xE0000280.
Definition K_IO_MESSAGE_SYSTEM_HAS_POWERED_ON : Z := 0xE0000300.

(** [PowerCtx], of which the sender of wakes is the count of what it sent. *)
Record PowerCtx : Type := mkCtx { wake_tx : nat; root_port : Z }.
(** Where the thread is in [run]. *)
Inductive Pc : Type := Started | Registered | Rooted | Sourced | Announced | Looping | Returned | Finished.
#[export] Instance Pc_eq_dec : EqDecision Pc.
Proof. solve_decision. Defined.
(** The channel of the run loop: nothing yet, a run loop, or closed. *)
Inductive RlChannel : Type := NotSent | Sent (run_loop : Z) | Closed.
(** A message: its type, and its argument, which names a change of power. *)
Record PowerMessage : Type := mkPowerMessage { msg_type : Z; msg_arg : Z }.

(** The owner is waiting in [spawn], has an observer, waits in [drop], or is done. *)
Inductive Owner : Type := Spawning | Holds (run_loop : Z) | Joining | Dropped.
Record World : Type := mkWorld {
  pc : Pc;
  ctx : option PowerCtx;
  root : Z;
  notifier : bool;
  notification_port : bool;
  queue : list PowerMessage;
  rl : RlChannel;
  stopped : bool;
  owner : Owner;
  allowed : list (Z * Z);
  woken : nat;
  (** what the callback was called with *)
  delivered : list PowerMessage
}.
Abbreviation M A := (ST World unit A).

Definition set_pc (p : Pc) (w : World) : World :=
  mkWorld p (ctx w) (root w) (notifier w) (notification_port w) (queue w) (rl w) (stopped w) (owner w) (allowed w) (woken w) (delivered w).
Definition set_ctx (c : option PowerCtx) (w : World) : World :=
  mkWorld (pc w) c (root w) (notifier w) (notification_port w) (queue w) (rl w) (stopped w) (owner w) (allowed w) (woken w) (delivered w).
Definition set_kernel (r : Z) (n p : bool) (w : World) : World :=
  mkWorld (pc w) (ctx w) r n p (queue w) (rl w) (stopped w) (owner w) (allowed w) (woken w) (delivered w).
Definition set_queue (q : list PowerMessage) (w : World) : World :=
  mkWorld (pc w) (ctx w) (root w) (notifier w) (notification_port w) q (rl w) (stopped w) (owner w) (allowed w) (woken w) (delivered w).
Definition set_rl (c : RlChannel) (w : World) : World :=
  mkWorld (pc w) (ctx w) (root w) (notifier w) (notification_port w) (queue w) c (stopped w) (owner w) (allowed w) (woken w) (delivered w).
Definition set_owner (o : Owner) (s : bool) (w : World) : World :=
  mkWorld (pc w) (ctx w) (root w) (notifier w) (notification_port w) (queue w) (rl w) s o (allowed w) (woken w) (delivered w).
Definition set_log (a : list (Z * Z)) (n : nat) (d : list PowerMessage) (w : World) : World :=
  mkWorld (pc w) (ctx w) (root w) (notifier w) (notification_port w) (queue w) (rl w) (stopped w) (owner w) a n d.

Definition init : World := mkWorld Started None 0 false false [] NotSent false Spawning [] 0 [].

(** * The calls of the system *)

(** The handle of the run loop of this thread. *)
Definition RUN_LOOP : Z := 1.

Definition box_free : M unit :=
  c ← gets ctx;
  match c with Some _ => modify_st (set_ctx None) | None => panic end.
Definition IODeregisterForSystemPower : M unit :=
  w ← get_st;
  if notifier w then modify_st (set_kernel (root w) false (notification_port w)) else panic.
Definition IONotificationPortDestroy : M unit :=
  w ← get_st;
  if notification_port w then modify_st (λ w, set_queue [] (set_kernel (root w) (notifier w) false w)) else panic.
Definition IOAllowPowerChange (port id : Z) : M unit :=
  modify_st (λ w, set_log (allowed w ++ [(port, id)]) (woken w) (delivered w) w).
Definition CFRunLoopStop : M unit :=
  modify_st (λ w, set_owner (owner w) (bool_decide (pc w = Looping) || stopped w) w).

(** * The thread *)

Definition power_callback (m : PowerMessage) : M unit :=
  c ← gets ctx;
  match c with
  | None => panic
  | Some c =>
      if (msg_type m =? K_IO_MESSAGE_CAN_SYSTEM_SLEEP)%Z || (msg_type m =? K_IO_MESSAGE_SYSTEM_WILL_SLEEP)%Z
      then IOAllowPowerChange (root_port c) (msg_arg m)
      else if (msg_type m =? K_IO_MESSAGE_SYSTEM_HAS_POWERED_ON)%Z
      then modify_st (λ w, set_log (allowed w) (S (woken w)) (delivered w) (set_ctx (Some (mkCtx (S (wake_tx c)) (root_port c))) w))
      else mret tt
  end.

(** The three ways out of [run]. *)
Definition leave (frees : M unit) : M unit :=
  frees ;; modify_st (λ w, set_pc Finished (match rl w with NotSent => set_rl Closed w | _ => w end)).
Definition release_all : M unit := IODeregisterForSystemPower ;; IONotificationPortDestroy ;; box_free.

(** One step of [run], with what the system answers: the root port and whether
    there is a notification port; whether there is a source. *)
Definition run_step (registered : Z * bool) (source : bool) (p : Pc) : M unit :=
  match p with
  | Started =>
      let '(root_port, port) := registered in
      modify_st (λ w, set_kernel root_port (bool_decide (root_port ≠ 0%Z)) port (set_ctx (Some (mkCtx 0 0)) w)) ;;
      if (root_port =? 0)%Z || negb port then leave box_free else modify_st (set_pc Registered)
  | Registered =>
      r ← gets root;
      c ← gets ctx;
      match c with
      | Some c => modify_st (λ w, set_pc Rooted (set_ctx (Some (mkCtx (wake_tx c) r)) w))
      | None => panic
      end
  | Rooted => if source then modify_st (set_pc Sourced) else leave release_all
  | Sourced => modify_st (λ w, set_pc Announced (set_rl (Sent RUN_LOOP) w))
  | Announced => modify_st (set_pc Looping)
  | Looping => modify_st (set_pc Returned)
  | Returned => leave release_all
  | Finished => mret tt
  end.

(** * Steps *)

Inductive Step : Type :=
| Thread (registered : Z * bool) (source : bool)
| Deliver
| Post (m : PowerMessage)
| SpawnReturns
| DropBegins
| DropReturns.

(** Whether it can happen: the run loop only returns when it was stopped, and
    messages are delivered while it runs. *)
Definition enabled (st : Step) (w : World) : bool :=
  match st with
  | Thread _ _ => match pc w with Looping => stopped w | Finished => false | _ => true end
  | Deliver => bool_decide (pc w = Looping) && bool_decide (queue w ≠ [])
  | Post _ => notifier w
  | SpawnReturns => match owner w, rl w with Spawning, NotSent => false | Spawning, _ => true | _, _ => false end
  | DropBegins => match owner w with Holds _ => true | _ => false end
  | DropReturns => match owner w, pc w with Joining, Finished => true | _, _ => false end
  end.
Definition step (st : Step) : M unit :=
  match st with
  | Thread registered source => gets pc ≫= run_step registered source
  | Deliver =>
      q ← gets queue;
      match q with
      | [] => mret tt
      | m :: q => modify_st (λ w, set_log (allowed w) (woken w) (delivered w ++ [m]) (set_queue q w)) ;; power_callback m
      end
  | Post m => modify_st (λ w, set_queue (queue w ++ [m]) w)
  (** [rl_rx.await.unwrap_or(0)] *)
  | SpawnReturns => modify_st (λ w, set_owner (Holds (match rl w with Sent r => r | _ => 0 end)) (stopped w) w)
  | DropBegins =>
      o ← gets owner;
      (match o with Holds r => if (r =? 0)%Z then mret tt else CFRunLoopStop | _ => mret tt end) ;;
      modify_st (λ w, set_owner Joining (stopped w) w)
  | DropReturns => modify_st (λ w, set_owner Dropped (stopped w) w)
  end.

(** A run: a step that cannot happen does not. *)
Fixpoint trace (l : list Step) : M unit :=
  match l with
  | [] => mret tt
  | st :: l =>
      can ← gets (enabled st);
      when can (step st) ;;
      trace l
  end.

(** * What holds *)

(** The answers of the system are as documented: there is a notification port
    exactly with a root port. *)
Definition documented (st : Step) : Prop := match st with Thread (r, p) _ => p = bool_decide (r ≠ 0%Z) | _ => True end.
Definition is_sleep (m : PowerMessage) : bool :=
  (msg_type m =? K_IO_MESSAGE_CAN_SYSTEM_SLEEP)%Z || (msg_type m =? K_IO_MESSAGE_SYSTEM_WILL_SLEEP)%Z.
Definition is_wake (m : PowerMessage) : bool := negb (is_sleep m) && (msg_type m =? K_IO_MESSAGE_SYSTEM_HAS_POWERED_ON)%Z.

Definition logged (w : World) : Prop :=
  allowed w = (λ m, (root w, msg_arg m)) <$> filter (λ m, is_sleep m = true) (delivered w) ∧
  woken w = length (filter (λ m, is_wake m = true) (delivered w)).
(** What the thread holds, and what was sent, at each place. *)
Definition held (w : World) : Prop := notifier w = true ∧ notification_port w = true ∧ root w ≠ 0%Z.
Definition nothing_held (w : World) : Prop := ctx w = None ∧ notifier w = false ∧ notification_port w = false.
Definition at_pc (w : World) : Prop :=
  match pc w with
  | Started => nothing_held w ∧ rl w = NotSent ∧ delivered w = [] ∧ stopped w = false
  | Registered => held w ∧ (∃ c, ctx w = Some c) ∧ rl w = NotSent ∧ delivered w = [] ∧ stopped w = false
  | Rooted | Sourced => held w ∧ (∃ c, ctx w = Some c ∧ root_port c = root w) ∧ rl w = NotSent ∧ delivered w = [] ∧ stopped w = false
  | Announced => held w ∧ (∃ c, ctx w = Some c ∧ root_port c = root w) ∧ rl w = Sent RUN_LOOP ∧ delivered w = [] ∧ stopped w = false
  | Looping => held w ∧ (∃ c, ctx w = Some c ∧ root_port c = root w) ∧ rl w = Sent RUN_LOOP
  | Returned => held w ∧ (∃ c, ctx w = Some c ∧ root_port c = root w) ∧ rl w = Sent RUN_LOOP
  | Finished => nothing_held w ∧ rl w ≠ NotSent ∧ (delivered w ≠ [] → root w ≠ 0%Z) ∧ (rl w = Closed ∨ rl w = Sent RUN_LOOP)
  end.
Definition owner_ok (w : World) : Prop :=
  match owner w with Holds r => (r = RUN_LOOP ∧ rl w = Sent RUN_LOOP) ∨ (r = 0%Z ∧ rl w = Closed) | _ => True end.
Definition good (w : World) : Prop := logged w ∧ at_pc w ∧ owner_ok w.

Ltac parts := repeat match goal with H : _ ∧ _ |- _ => destruct H | H : ∃ _, _ |- _ => destruct H end.
Lemma good_thread registered source w : documented (Thread registered source) → good w → enabled (Thread registered source) w = true →
  ∃ w', step (Thread registered source) w = (Ok tt, w') ∧ good w'.
Proof.
  destruct registered as [r p]. intros Hd ([Ha Hk] & Hp & Ho) He. unfold good, logged, at_pc, owner_ok, nothing_held, held in *.
  destruct w as [pcw c rt nt np q rlw st ow al wk dl]. cbn in *. unfold mbind, ST_bind, gets.
  destruct pcw; cbn in *; parts; subst; cbn; try done.
  all: unfold leave, release_all, IODeregisterForSystemPower, IONotificationPortDestroy, box_free, mbind, ST_bind, gets, get_st, modify_st, panic; cbn.
  - destruct (Z.eqb_spec r 0) as [->|Hr]; [rewrite bool_decide_eq_false_2 by congruence|rewrite bool_decide_eq_true_2 by done]; cbn.
    + eexists; split; [reflexivity|]. cbn. destruct ow; naive_solver.
    + cbn. eexists; split; [reflexivity|]. cbn. naive_solver.
  - eexists; split; [reflexivity|]. cbn. naive_solver.
  - destruct source; cbn; (eexists; split; [reflexivity|]); cbn; destruct ow; naive_solver.
  - eexists; split; [reflexivity|]. cbn. destruct ow; naive_solver.
  - eexists; split; [reflexivity|]. cbn. naive_solver.
  - eexists; split; [reflexivity|]. cbn. naive_solver.
  - eexists; split; [reflexivity|]. cbn. naive_solver.
Qed.
Lemma good_step st w : documented st → good w → enabled st w = true → ∃ w', step st w = (Ok tt, w') ∧ good w'.
Proof.
  intros Hd Hg He. destruct st as [registered source| |m| | |]; [by apply good_thread|..]; clear Hd; destruct Hg as ([Ha Hk] & Hp & Ho);
    unfold good, logged, at_pc, owner_ok, nothing_held, held in *; destruct w as [pcw c rt nt np q rlw st ow al wk dl]; cbn in *;
    unfold mbind, ST_bind, gets, modify_st.
  - destruct (bool_decide_reflect (pcw = Looping)) as [->|]; [|done]. parts. subst. destruct q as [|m q]; [done|].
    unfold power_callback, IOAllowPowerChange, mbind, ST_bind, gets, modify_st. cbn.
    destruct ((msg_type m =? K_IO_MESSAGE_CAN_SYSTEM_SLEEP)%Z || (msg_type m =? K_IO_MESSAGE_SYSTEM_WILL_SLEEP)%Z) eqn:E1;
      [|destruct (msg_type m =? K_IO_MESSAGE_SYSTEM_HAS_POWERED_ON)%Z eqn:E2]; cbn; (eexists; split; [reflexivity|]); cbn;
      rewrite !filter_app, !fmap_app, !length_app; unfold is_wake, is_sleep; cbn [filter list_filter]; rewrite E1, ?E2; cbn;
      rewrite ?app_nil_r, ?Nat.add_0_r, ?Nat.add_1_r; split_and!; eauto 6.
  - eexists; split; [reflexivity|]. cbn. done.
  - destruct ow; try done. destruct rlw; try done; eexists; (split; [reflexivity|]); cbn; destruct pcw; naive_solver.
  - destruct ow; try done. unfold CFRunLoopStop, modify_st. cbn. destruct (run_loop =? 0)%Z; (eexists; split; [reflexivity|]); cbn; destruct pcw; naive_solver.
  - destruct ow; try done. destruct pcw; try done. eexists; (split; [reflexivity|]); cbn. naive_solver.
Qed.

Lemma good_trace l w : Forall documented l → good w → ∃ w', trace l w = (Ok tt, w') ∧ good w'.
Proof.
  intros Hl. revert w. induction Hl as [|st l Hd _ IH]; intros w Hg; cbn [trace]; [by exists w|].
  unfold mbind, ST_bind, gets, when. destruct (enabled st w) eqn:He; [|by apply IH].
  destruct (good_step st w Hd Hg He) as (w' & -> & Hg'). by apply IH.
Qed.
Lemma good_init : good init.
Proof. unfold good, logged, at_pc, owner_ok, nothing_held. cbn. split_and!; done. Qed.

(** ** Properties *)

(** Over any order of the steps of the thread, of its owner and of the system:
    nothing is used or freed that is not there; every message about going to
    sleep that the run loop handed over was allowed once, in order, through the
    root port that was registered; every message that the system is awake became
    one signal; and when the thread has ended, it has given everything back. *)
Theorem observer_spec l : Forall documented l → ∃ w, trace l init = (Ok tt, w) ∧
  allowed w = (λ m, (root w, msg_arg m)) <$> filter (λ m, is_sleep m = true) (delivered w) ∧
  (delivered w ≠ [] → root w ≠ 0%Z) ∧
  woken w = length (filter (λ m, is_wake m = true) (delivered w)) ∧
  (pc w = Finished → ctx w = None ∧ notifier w = false ∧ notification_port w = false).
Proof.
  intros Hl. destruct (good_trace l init Hl good_init) as (w & E & [Ha Hk] & Hp & _). exists w. split_and!; [done..| |done|].
  - unfold at_pc, held in Hp. destruct (pc w); naive_solver.
  - intros Hf. unfold at_pc in Hp. rewrite Hf in Hp. apply Hp.
Qed.

(** Dropping the observer ends its thread, unless the thread has sent its run loop
    and not started it yet: then the stop is lost, and the owner waits for ever. *)
Definition thread_goes : Step := Thread (0%Z, false) false.
Theorem drop_spec l w r : Forall documented l → trace l init = (Ok tt, w) → owner w = Holds r →
  let w' := snd (step DropBegins w) in
  (pc w ≠ Announced → owner (snd (trace [thread_goes; thread_goes; DropReturns] w')) = Dropped) ∧
  (pc w = Announced → ∀ l', owner (snd (trace l' w')) = Joining).
Proof.
  intros Hl E Ho w'. destruct (good_trace l init Hl good_init) as (w1 & E1 & _ & Hp & Hw). rewrite E in E1. injection E1 as <-.
  unfold owner_ok in Hw. rewrite Ho in Hw. split.
  - intros Hn. unfold w'. clear w' E Hl. unfold at_pc, held, nothing_held in *. destruct w as [pcw c rt nt np q rlw st ow al wk dl]. cbn in *. subst ow.
    destruct pcw; cbn in *; parts; subst; try (destruct Hw; parts; congruence).
    + destruct Hw as [[-> _]|[_ ?]]; [|congruence]. by cbn.
    + destruct Hw as [[-> _]|[_ ?]]; [|congruence]. by cbn.
    + unfold step, mbind, ST_bind, gets. cbn. by destruct (r =? 0)%Z.
  - intros Ha. assert (owner w' = Joining ∧ stopped w' = false ∧ pc w' = Announced) as (H1 & H2 & H3).
    { unfold w'. clear w' E. unfold at_pc in Hp. rewrite Ha in Hp. parts. destruct w as [pcw c rt nt np q rlw st ow al wk dl]. cbn in *. subst.
      destruct Hw as [[-> _]|[_ ?]]; [|congruence]. by cbn. }
    intros l'. assert (pc w' = Announced ∨ pc w' = Looping) as Hpc by auto. clear Ha H3 Hp Hw E Ho. clearbody w'. revert w' H1 H2 Hpc.
    induction l' as [|st l' IH]; intros w1 H1 H2 Hpc; [done|]. cbn [trace]. unfold mbind at 1, ST_bind at 1, gets at 1, when.
    destruct (enabled st w1) eqn:He; [|by apply IH]. unfold mbind, ST_bind.
    assert (owner (snd (step st w1)) = Joining ∧ stopped (snd (step st w1)) = false ∧ (pc (snd (step st w1)) = Announced ∨ pc (snd (step st w1)) = Looping)) as (K1 & K2 & K3).
    { destruct w1 as [pcw c rt nt np q rlw s ow al wk dl]. cbn in *. subst. destruct st as [rg source| |m| | |]; cbn in *; try done.
      - unfold mbind, ST_bind, gets. destruct Hpc; subst pcw; cbn in *; [auto|done].
      - unfold mbind, ST_bind, gets. cbn. destruct q as [|m q]; [done|]. unfold modify_st, power_callback, mbind, ST_bind, gets. cbn. destruct c as [c|]; [|auto].
        destruct (_ || _); [auto|]. by destruct (_ =? _)%Z.
      - by destruct Hpc; subst pcw. }
    destruct (step st w1) as [[[]| | |] w2]; cbn in K1, K2, K3 |- *; [by apply IH|done..].
Qed.

(** * An observer *)

Definition sleeps_and_wakes : list Step :=
  [Thread (7%Z, true) true; Post (mkPowerMessage K_IO_MESSAGE_SYSTEM_WILL_SLEEP 3); thread_goes; Thread (0%Z, false) true; thread_goes; thread_goes;
   SpawnReturns; Deliver; Post (mkPowerMessage K_IO_MESSAGE_SYSTEM_HAS_POWERED_ON 0); Deliver].
Definition awake : World := snd (trace sleeps_and_wakes init).
Lemma observer_spec_witness : allowed awake = [(7, 3)]%Z ∧ woken awake = 1.
Proof.
  destruct (observer_spec sleeps_and_wakes) as (w & E & Ha & _ & Hk & _); [repeat constructor|].
  assert (awake = w) as <- by (unfold awake; by rewrite E). rewrite Ha, Hk. by vm_compute.
Defined.
Definition too_soon : list Step := take 5 sleeps_and_wakes ++ [SpawnReturns].
Lemma drop_spec_witness : owner (snd (trace [thread_goes; thread_goes; DropReturns] (snd (step DropBegins awake)))) = Dropped ∧
  ∀ l', owner (snd (trace l' (snd (step DropBegins (snd (trace too_soon init)))))) = Joining.
Proof.
  split.
  - apply (drop_spec sleeps_and_wakes awake RUN_LOOP); [repeat constructor|by vm_compute..].
  - apply (drop_spec too_soon (snd (trace too_soon init)) RUN_LOOP); [repeat constructor|by vm_compute..].
Defined.
