(* ===== verification/Choice.v ===== *)
(** The choice of a backend (input-capture/src/lib.rs and error.rs,
    input-emulation/src/lib.rs and error.rs), and the dummy backend of the
    capture (input-capture/src/dummy.rs), an instance of the class [Capture].

    A build has an operating system and features, from which the build scripts of
    the two crates derive the backends that are compiled in.  Making a backend is
    a call on the system [W] and gives a [B], or the error of that backend. *)

From Stdlib Require Import Floats.SpecFloat.
From S2P Require Import Prelude InputEvent Geometry InputCapture Doubles.
From S2P Require Config.

(** * Builds *)

Inductive Os : Type := Linux | OtherUnix | MacOs | Windows.
#[export] Instance Os_eq_dec : EqDecision Os.
Proof. solve_decision. Defined.
Record Build : Type := mkBuild {
  target_os : Os;
  feature_libei : bool; feature_layer_shell : bool; feature_x11 : bool; feature_wlroots : bool; feature_remote_desktop_portal : bool
}.
(** [unix && !macos && feature] of both build scripts. *)
Definition unix (b : Build) : bool := bool_decide (target_os b ≠ Windows).
Definition macos (b : Build) : bool := bool_decide (target_os b = MacOs).
Definition free_desktop (b : Build) (feature : bool) : bool := unix b && negb (macos b) && feature.

(** * Errors of the portals *)

Inductive ResponseError : Type := Cancelled | Other.
Inductive Ashpd : Type := Response (r : ResponseError) | AshpdError (what : string).

(** * The first that can be made *)

Definition map_error {S E F A} (f : E → F) (m : ST S E A) : ST S F A := λ s, let (r, s) := m s in (map_err f r, s).

Section choice.
Context {K W E B : Type} (make : K → ST W E B) (cancelled_by_user : E → bool) (none_left : E).
Fixpoint first_of (ks : list K) : ST W E B :=
  match ks with
  | [] => raise none_left
  | k :: ks =>
      r ← attempt (make k);
      match r with inr b => mret b | inl e => if cancelled_by_user e then raise e else first_of ks end
  end.

(** Each one was tried in turn, and none can be made. *)
Fixpoint refused (ks : list K) (w w' : W) : Prop :=
  match ks with
  | [] => w' = w
  | k :: ks => ∃ e w1, make k w = (Err e, w1) ∧ cancelled_by_user e = false ∧ refused ks w1 w'
  end.
(** The outcome is that of the first whose making is no error, or was cancelled;
    what comes after it is not tried. *)
Lemma first_of_cases ks w :
  (∃ w', refused ks w w' ∧ first_of ks w = (Err none_left, w')) ∨
  ∃ pre k post w1, ks = pre ++ k :: post ∧ refused pre w w1 ∧ first_of ks w = make k w1 ∧
    ∀ e, fst (make k w1) = Err e → cancelled_by_user e = true.
Proof.
  revert w. induction ks as [|k ks IH]; intros w; [left; by exists w|].
  assert (fst (make k w) ≠ Diverge ∧ fst (make k w) ≠ Panic ∧ (∀ e, fst (make k w) = Err e → cancelled_by_user e = true) ∨
    (∃ e w1, make k w = (Err e, w1) ∧ cancelled_by_user e = false) ∨ fst (make k w) = Panic ∨ fst (make k w) = Diverge) as Hc.
  { destruct (make k w) as [[b|e| |] w1]; cbn; [left|destruct (cancelled_by_user e) eqn:Ec|auto..]; [by split_and!|left; split_and!; try done; congruence|right; left; eauto]. }
  destruct Hc as [(_ & _ & Hc)|[(e & w1 & Em & Ec)|Hc]].
  - right. exists [], k, ks, w. split_and!; [done|done| |done]. cbn. unfold attempt, mbind, ST_bind.
    destruct (make k w) as [[b|e| |] w1]; [done| |done..]. by rewrite (Hc e).
  - assert (first_of (k :: ks) w = first_of ks w1) as ->.
    { cbn. unfold attempt, mbind, ST_bind. by rewrite Em, Ec. }
    destruct (IH w1) as [(w' & Hr & E1)|(pre & k' & post & w2 & -> & Hr & E1 & Hk)].
    + left. exists w'. split; [|done]. by exists e, w1.
    + right. exists (k :: pre), k', post, w2. split_and!; [done| |done|done]. by exists e, w1.
  - right. exists [], k, ks, w. split_and!; [done|done| |intros e He; destruct Hc; congruence]. cbn. unfold attempt, mbind, ST_bind.
    destruct (make k w) as [[b|e| |] w1]; by destruct Hc.
Qed.
End choice.

(** * Capture *)

Module CaptureChoice.
Inductive Backend : Type := InputCapturePortal | LayerShell | X11 | Windows | MacOs | Dummy.
#[global] Instance Backend_eq_dec : EqDecision Backend.
Proof. solve_decision. Defined.
(** The [cfg] of a backend. *)
Definition compiled (b : Build) (k : Backend) : bool :=
  match k with
  | InputCapturePortal => free_desktop b (feature_libei b)
  | LayerShell => free_desktop b (feature_layer_shell b)
  | X11 => free_desktop b (feature_x11 b)
  | Windows => bool_decide (target_os b = Choice.Windows)
  | MacOs => macos b
  | Dummy => true
  end.
Definition of_config (k : Config.CaptureBackend.CaptureBackend) : Backend :=
  match k with
  | Config.CaptureBackend.InputCapturePortal => InputCapturePortal
  | Config.CaptureBackend.LayerShell => LayerShell
  | Config.CaptureBackend.X11 => X11
  | Config.CaptureBackend.Windows => Windows
  | Config.CaptureBackend.MacOs => MacOs
  | Config.CaptureBackend.Dummy => Dummy
  end.

Inductive LibeiCaptureCreationError : Type := LibeiAshpd (e : Ashpd).
Inductive LayerShellCaptureCreationError : Type :=
| Connect (what : string) | Global (what : string) | Wayland (what : string)
| Bind (inner protocol : string) | Dispatch (what : string) | Io (what : string).
Inductive X11InputCaptureCreationError : Type := NotImplemented.
Inductive MacosCaptureCreationError : Type :=
| EventSourceCreation | EventTapCreation | AccessibilityPermission | InputMonitoringPermission | CGCursorProperty
| ActiveDisplays (code : Z).
Inductive CaptureCreationError : Type :=
| NoAvailableBackend
| ELibei (e : LibeiCaptureCreationError)
| ELayerShell (e : LayerShellCaptureCreationError)
| EX11 (e : X11InputCaptureCreationError)
| EWindows
| EMacOS (e : MacosCaptureCreationError).
Definition cancelled_by_user (e : CaptureCreationError) : bool :=
  match e with ELibei (LibeiAshpd (Response Cancelled)) => true | _ => false end.

(** The [new] of each backend. *)
Class Constructors (W B : Type) : Type := {
  libei_new : ST W LibeiCaptureCreationError B;
  layer_shell_new : ST W LayerShellCaptureCreationError B;
  windows_new : W → B * W;
  macos_new : ST W MacosCaptureCreationError B;
  dummy_new : W → B * W
}.
Section create.
Context {W B : Type} `{Constructors W B} (build : Build).
Definition infallible {E} (f : W → B * W) : ST W E B := λ w, let (b, w) := f w in (Ok b, w).
Definition x11_new : ST W X11InputCaptureCreationError B := raise NotImplemented.
Definition create_backend (k : Backend) : ST W CaptureCreationError B :=
  match k with
  | InputCapturePortal => map_error ELibei libei_new
  | LayerShell => map_error ELayerShell layer_shell_new
  | X11 => map_error EX11 x11_new
  | Windows => infallible windows_new
  | MacOs => map_error EMacOS macos_new
  | Dummy => infallible dummy_new
  end.
Definition in_order : list Backend := filter (λ k, compiled build k = true) [InputCapturePortal; LayerShell; X11; Windows; MacOs].
Definition create (backend : option Backend) : ST W CaptureCreationError B :=
  match backend with
  | Some k => create_backend k
  | None => first_of create_backend cancelled_by_user NoAvailableBackend in_order
  end.
End create.
End CaptureChoice.

(** * Emulation *)

Module EmulationChoice.
Inductive Backend : Type := Wlroots | Libei | Xdp | X11 | Windows | MacOs | Dummy.
#[global] Instance Backend_eq_dec : EqDecision Backend.
Proof. solve_decision. Defined.
Definition compiled (b : Build) (k : Backend) : bool :=
  match k with
  | Wlroots => free_desktop b (feature_wlroots b)
  | Libei => free_desktop b (feature_libei b)
  | Xdp => free_desktop b (feature_remote_desktop_portal b)
  | X11 => free_desktop b (feature_x11 b)
  | Windows => bool_decide (target_os b = Choice.Windows)
  | MacOs => macos b
  | Dummy => true
  end.
Definition of_config (k : Config.EmulationBackend.EmulationBackend) : Backend :=
  match k with
  | Config.EmulationBackend.Wlroots => Wlroots
  | Config.EmulationBackend.Libei => Libei
  | Config.EmulationBackend.Xdp => Xdp
  | Config.EmulationBackend.X11 => X11
  | Config.EmulationBackend.Windows => Windows
  | Config.EmulationBackend.MacOs => MacOs
  | Config.EmulationBackend.Dummy => Dummy
  end.

Inductive WlrootsEmulationCreationError : Type :=
| Connect (what : string) | Global (what : string) | Wayland (what : string)
| Bind (inner protocol : string) | Dispatch (what : string) | Io (what : string).
Inductive LibeiEmulationCreationError : Type := LibeiAshpd (e : Ashpd) | LibeiIo (what : string) | LibeiReis (what : string).
Inductive XdpEmulationCreationError : Type := XdpAshpd (e : Ashpd).
Inductive X11EmulationCreationError : Type := OpenDisplay.
Inductive MacOSEmulationCreationError : Type := EventSourceCreation | AccessibilityPermission | InputControlPermission.
Inductive EmulationCreationError : Type :=
| EWlroots (e : WlrootsEmulationCreationError)
| ELibei (e : LibeiEmulationCreationError)
| EXdp (e : XdpEmulationCreationError)
| EX11 (e : X11EmulationCreationError)
| EMacOs (e : MacOSEmulationCreationError)
| EWindows (e : Empty_set)
| NoAvailableBackend.
Definition cancelled_by_user (e : EmulationCreationError) : bool :=
  match e with
  | ELibei (LibeiAshpd (Response Cancelled)) | EXdp (XdpAshpd (Response Cancelled)) => true
  | _ => false
  end.

Class Constructors (W B : Type) : Type := {
  wlroots_new : ST W WlrootsEmulationCreationError B;
  libei_new : ST W LibeiEmulationCreationError B;
  xdp_new : ST W XdpEmulationCreationError B;
  x11_new : ST W X11EmulationCreationError B;
  windows_new : ST W Empty_set B;
  macos_new : ST W MacOSEmulationCreationError B;
  dummy_new : W → B * W
}.
Section new.
Context {W B : Type} `{Constructors W B} (build : Build).
(** The emulation is the backend with empty tables. *)
Definition with_backend (k : Backend) : ST W EmulationCreationError B :=
  match k with
  | Wlroots => map_error EWlroots wlroots_new
  | Libei => map_error ELibei libei_new
  | X11 => map_error EX11 x11_new
  | Xdp => map_error EXdp xdp_new
  | Windows => map_error EWindows windows_new
  | MacOs => map_error EMacOs macos_new
  | Dummy => λ w, let (b, w) := dummy_new w in (Ok b, w)
  end.
Definition in_order : list Backend := filter (λ k, compiled build k = true) [Wlroots; Libei; Xdp; X11; Windows; MacOs; Dummy].
Definition new (backend : option Backend) : ST W EmulationCreationError B :=
  match backend with
  | Some k => with_backend k
  | None => first_of with_backend cancelled_by_user NoAvailableBackend in_order
  end.
End new.
End EmulationChoice.

(** * What is chosen *)

Section found.
Import EmulationChoice.
Context {W B : Type} `{Constructors W B} (build : Build).
Lemma cancelled_portal k w e : fst (with_backend k w) = Err e → cancelled_by_user e = true → k = Libei ∨ k = Xdp.
Proof.
  assert (∀ (F : Type) (f : F → EmulationCreationError) (m : ST W F B), (∀ x, cancelled_by_user (f x) = false) →
    fst (map_error f m w) = Err e → cancelled_by_user e = true → False) as Hno.
  { intros F f m Hf. unfold map_error. destruct (m w) as [[b|x| |] w']; try done. intros [= <-]. by rewrite Hf. }
  destruct k; cbn [with_backend]; try (by auto); [intros H1 H2; exfalso; by eapply Hno; [|exact H1|exact H2]..|].
  by destruct (dummy_new w).
Qed.
(** The dummy backend can always be made. *)
Lemma refused_dummy ks w w' : refused with_backend cancelled_by_user ks w w' → Dummy ∉ ks.
Proof.
  revert w. induction ks as [|k ks IH]; intros w Hr; [apply not_elem_of_nil|]. destruct Hr as (e & w1 & E & _ & Hr).
  apply not_elem_of_cons. split; [|by eapply IH]. intros <-. cbn in E. by destruct (dummy_new w).
Qed.

(** Without a setting the emulation always has a backend, the dummy one when no
    other can be made: [NoAvailableBackend] is never the answer.  There is none
    exactly when the user declined the dialog of a portal, and then nothing after
    that portal is tried, not even the backends that need no permission. *)
Theorem emulation_found w : (∀ k w, returns (fst (with_backend k w))) →
  ∃ pre k post w1, in_order build = pre ++ k :: post ∧ refused with_backend cancelled_by_user pre w w1 ∧
    new build None w = with_backend k w1 ∧
    ((∃ b, fst (new build None w) = Ok b) ∨
     ∃ e, fst (new build None w) = Err e ∧ cancelled_by_user e = true ∧ (k = Libei ∨ k = Xdp) ∧ Dummy ∈ post).
Proof.
  intros Hret. cbn [new].
  assert (Dummy ∈ in_order build) as Hin by (apply list_elem_of_filter; split; [done|set_solver]).
  destruct (first_of_cases with_backend cancelled_by_user NoAvailableBackend (in_order build) w)
    as [(w' & Hr & _)|(pre & k & post & w1 & E & Hr & E1 & Hk)]; [by destruct (refused_dummy _ _ _ Hr)|].
  exists pre, k, post, w1. split_and!; [done|done|done|]. rewrite E1. pose proof (Hret k w1) as Hrk.
  destruct (fst (with_backend k w1)) as [b|e| |] eqn:Ef; try done; [left; by eexists|right]. exists e.
  pose proof (Hk e eq_refl) as Hc. pose proof (cancelled_portal k w1 e Ef Hc) as Hp. split_and!; [done|done|done|].
  pose proof (refused_dummy _ _ _ Hr). rewrite E in Hin. destruct Hp as [->| ->]; set_solver.
Qed.
End found.

Section captured.
Import CaptureChoice.
Context {W B : Type} `{Constructors W B} (build : Build).
Lemma cancelled_capture k w e : fst (create_backend k w) = Err e → cancelled_by_user e = true → k = InputCapturePortal.
Proof.
  assert (∀ (F : Type) (f : F → CaptureCreationError) (m : ST W F B), (∀ x, cancelled_by_user (f x) = false) →
    fst (map_error f m w) = Err e → cancelled_by_user e = true → False) as Hno.
  { intros F f m Hf. unfold map_error. destruct (m w) as [[b|x| |] w']; try done. intros [= <-]. by rewrite Hf. }
  destruct k; cbn [create_backend]; try done; try (intros H1 H2; exfalso; by eapply Hno; [|exact H1|exact H2]).
  - unfold infallible. by destruct (windows_new w).
  - unfold infallible. by destruct (dummy_new w).
Qed.

(** Without a setting the capture takes the first backend that can be made, but
    never the dummy one, and never X11, which is not written yet: a build that
    has nothing else cannot capture at all. *)
Theorem capture_found w : (∀ k w, returns (fst (create_backend k w))) →
  (∃ w', refused create_backend cancelled_by_user (in_order build) w w' ∧ create build None w = (Err NoAvailableBackend, w')) ∨
  ∃ pre k post w1, in_order build = pre ++ k :: post ∧ refused create_backend cancelled_by_user pre w w1 ∧
    create build None w = create_backend k w1 ∧ k ≠ Dummy ∧ k ≠ X11 ∧
    ((∃ b, fst (create build None w) = Ok b) ∨ (∃ e, fst (create build None w) = Err e ∧ cancelled_by_user e = true ∧ k = InputCapturePortal)).
Proof.
  intros Hret. destruct (first_of_cases create_backend cancelled_by_user NoAvailableBackend (in_order build) w)
    as [(w' & Hr & E1)|(pre & k & post & w1 & E & Hr & E1 & Hk)]; [left; by exists w'|right].
  exists pre, k, post, w1. split_and!; [done|done|done|..].
  - intros ->. assert (Dummy ∈ in_order build) as [_ Hin]%list_elem_of_filter by (rewrite E; set_solver). set_solver.
  - intros ->. by specialize (Hk _ eq_refl).
  - cbn [create]. rewrite E1. pose proof (Hret k w1) as Hrk. destruct (fst (create_backend k w1)) as [b|e| |] eqn:Ef; try done; [left; by eexists|right].
    exists e. pose proof (Hk e eq_refl) as Hc. split_and!; [done|done|]. by apply (cancelled_capture k w1 e).
Qed.
Theorem x11_alone w : in_order build ⊆ [X11] → fst (create build None w) = Err NoAvailableBackend.
Proof.
  intros Hs. assert (in_order build = [] ∨ in_order build = [X11]) as [E|E].
  { assert (∀ k, k ∈ [InputCapturePortal; LayerShell; Windows; MacOs] → compiled build k ≠ true) as Hno.
    { intros k Hk Hc. assert (k ∈ [X11]) as ->%list_elem_of_singleton by (apply Hs, list_elem_of_filter; split; [done|set_solver]). set_solver. }
    unfold in_order. rewrite !filter_cons. rewrite !(decide_False (P := compiled build InputCapturePortal = true)), (decide_False (P := compiled build LayerShell = true)),
      (decide_False (P := compiled build Windows = true)), (decide_False (P := compiled build MacOs = true)) by (apply Hno; set_solver).
    case_decide; [by right|by left]. }
  - cbn [create]. by rewrite E.
  - cbn [create]. by rewrite E.
Qed.
End captured.

(** A desktop with everything compiled in, whose user declines the first portal,
    and a build for X11 only. *)
Module Sample.
Definition desktop : Build := mkBuild Linux true true true true true.
Definition x11_only : Build := mkBuild Linux false false true false false.
(** The system counts the calls. *)
#[local] Instance declined : EmulationChoice.Constructors nat string := {|
  EmulationChoice.wlroots_new := λ n, (Err (EmulationChoice.Connect "no compositor"), S n);
  EmulationChoice.libei_new := λ n, (Err (EmulationChoice.LibeiAshpd (Response Cancelled)), S n);
  EmulationChoice.xdp_new := λ n, (Ok "xdp", S n);
  EmulationChoice.x11_new := λ n, (Ok "x11", S n);
  EmulationChoice.windows_new := λ n, (Ok "windows", S n);
  EmulationChoice.macos_new := λ n, (Ok "macos", S n);
  EmulationChoice.dummy_new := λ n, ("dummy", S n)
|}%string.
#[local] Instance headless : CaptureChoice.Constructors nat string := {|
  CaptureChoice.libei_new := λ n, (Err (CaptureChoice.LibeiAshpd (AshpdError "no portal")), S n);
  CaptureChoice.layer_shell_new := λ n, (Ok "layer-shell", S n);
  CaptureChoice.windows_new := λ n, ("windows", S n);
  CaptureChoice.macos_new := λ n, (Ok "macos", S n);
  CaptureChoice.dummy_new := λ n, ("dummy", S n)
|}%string.
Lemma emulation_found_witness :
  EmulationChoice.new desktop None 0 = (Err (EmulationChoice.ELibei (EmulationChoice.LibeiAshpd (Response Cancelled))), 2) ∧
  ∃ e, fst (EmulationChoice.new desktop None 0) = Err e ∧ EmulationChoice.cancelled_by_user e = true.
Proof.
  split; [reflexivity|]. destruct (emulation_found desktop 0) as (pre & k & post & w1 & _ & _ & _ & [[b Hb]|(e & He & Hc & _)]);
    [by intros []|by vm_compute in Hb|by exists e].
Defined.
Lemma capture_found_witness : ∃ b, fst (CaptureChoice.create desktop None 0) = Ok b.
Proof.
  destruct (capture_found desktop 0) as [(w' & _ & E)|(pre & k & post & w1 & _ & _ & _ & _ & _ & [[b Hb]|(e & He & _)])];
    [by intros []|by vm_compute in E|by exists b|by vm_compute in He].
Defined.
Lemma x11_alone_witness : fst (CaptureChoice.create x11_only None 0) = Err CaptureChoice.NoAvailableBackend.
Proof. apply (x11_alone x11_only). vm_compute. set_solver. Defined.
End Sample.

(** * The dummy capture *)

Module DummyCapture.
Record DummyInputCapture : Type := mkDummy {
  start : option Z;
  offset : Z * Z;
  keys : list BarrierKey;
  next_key_idx : Z;
  (** The ticks of the interval to come, each with the instant, in nanoseconds, at
      which the time since the start is read. *)
  interval : list (Z * Z)
}.
Definition with_keys (ks : list BarrierKey) (ticks : list (Z * Z)) : DummyInputCapture :=
  mkDummy None (0, 0)%Z (match ks with [] => [from_pos Edge.Left] | _ => ks end) 0 ticks.
Definition new (ticks : list (Z * Z)) : DummyInputCapture := with_keys [from_pos Edge.Left] ticks.

Definition f64_mul : double → double → double := SFmul 53 1024.
Definition PI : double := S754_finite false 7074237752028440 (-51).
Definition FREQUENCY_HZ : double := of_Z 1.
Definition RADIUS : double := of_Z 100.
(** [Duration::as_secs_f64]. *)
Definition as_secs_f64 (nanos : Z) : double :=
  f64_add (of_Z (nanos / 1000000000)) (f64_div (of_Z (nanos mod 1000000000)) (of_Z 1000000000)).

Section dummy.
(** Their precision is not specified. *)
Variables cos sin : double → double.
Definition place (elapsed : Z) : Z * Z :=
  let elapsed_sec := as_secs_f64 elapsed in
  let second_fraction := f64_sub elapsed_sec (of_Z (as_unsigned 64 elapsed_sec)) in
  let radians := f64_mul (f64_mul (f64_mul second_fraction (of_Z 2)) PI) FREQUENCY_HZ in
  (as_signed 32 (f64_mul (f64_mul (cos radians) RADIUS) (of_Z 2)), as_signed 32 (f64_mul (sin (f64_mul radians (of_Z 2))) RADIUS)).
(** The difference of two places; a release build wraps. *)
Definition relative (p q : Z * Z) : Z * Z := (wrapS 32 (fst p - fst q), wrapS 32 (snd p - snd q)).
Definition motion (d : Z * Z) : CaptureEvent := Input (Pointer (Motion 0 (f64_of (of_Z (fst d))) (f64_of (of_Z (snd d))))).
(** What is sent at a tick, and where the pointer is then. *)
Definition at_tick (current now : Z) (s : DummyInputCapture) : CaptureEvent * option Z * (Z * Z) :=
  match start s with
  | None => (Begin, Some current, offset s)
  | Some t0 => let p := place (Z.max 0 (now - t0)) in (motion (relative p (offset s)), Some t0, p)
  end.
Definition poll_next (s : DummyInputCapture) : poll (option (outcome CaptureError (BarrierKey * CaptureEvent))) * DummyInputCapture :=
  match interval s with
  | [] => (Pending, s)
  | (current, now) :: ticks =>
      let '(event, t0, p) := at_tick current now s in
      match keys s !! Z.to_nat (next_key_idx s mod Z.of_nat (length (keys s))) with
      | Some key => (Ready (Some (Ok (key, event))), mkDummy t0 p (keys s) ((next_key_idx s + 1) mod 2 ^ 64) ticks)
      | None => (Ready (Some Panic), mkDummy t0 p (keys s) (next_key_idx s) ticks)
      end
  end.
#[local] Instance dummy_capture : Capture DummyInputCapture := {
  bk_poll := poll_next;
  bk_create _ := mret tt;
  bk_destroy _ := mret tt;
  bk_release := mret tt;
  bk_terminate := mret tt;
  bk_start_capture _ := mret tt;
  bk_cancel_pending _ := mret tt;
  bk_monitors _ := []
}.

(** What the stream gives as long as there are ticks. *)
Fixpoint stream (ticks : list (Z * Z)) (s : DummyInputCapture) : list (BarrierKey * CaptureEvent) * DummyInputCapture :=
  match ticks with
  | [] => ([], s)
  | _ :: ticks =>
      match bk_poll s with
      | (Ready (Some (Ok e)), s) => let (es, s) := stream ticks s in (e :: es, s)
      | (_, s) => ([], s)
      end
  end.

Lemma poll_next_eq current now ticks s : interval s = (current, now) :: ticks → keys s ≠ [] → (0 ≤ next_key_idx s)%Z →
  ∃ key, keys s !! Z.to_nat (next_key_idx s mod Z.of_nat (length (keys s))) = Some key ∧
    poll_next s = (Ready (Some (Ok (key, fst (fst (at_tick current now s))))),
      mkDummy (snd (fst (at_tick current now s))) (snd (at_tick current now s)) (keys s) ((next_key_idx s + 1) mod 2 ^ 64) ticks).
Proof.
  intros Hi Hk Hn. assert (Z.to_nat (next_key_idx s mod Z.of_nat (length (keys s))) < length (keys s)) as [key Ekey]%lookup_lt_is_Some.
  { destruct (keys s) as [|k ks]; [done|]. pose proof (Z.mod_pos_bound (next_key_idx s) (Z.of_nat (length (k :: ks)))) as Hb. cbn [length] in *. lia. }
  exists key. split; [done|]. unfold poll_next. rewrite Hi. destruct (at_tick current now s) as [[ev t0] p]. by rewrite Ekey.
Qed.
Definition plus (p d : Z * Z) : Z * Z := (wrapS 32 (fst p + fst d), wrapS 32 (snd p + snd d)).
Lemma wrapS_add a b : wrapS 32 (a + wrapS 32 b) = wrapS 32 (a + b).
Proof.
  unfold wrapS. f_equal. replace (a + _ + _)%Z with (a + (b + 2 ^ (32 - 1)) mod 2 ^ 32)%Z by lia. rewrite Zplus_mod_idemp_r. f_equal. lia.
Qed.
Lemma as_signed_in x : inS 32 (as_signed 32 x).
Proof. unfold as_signed, saturate, inS. destruct x as [|[]| |]; cbn -[Z.max Z.min cond_Zopp trunc]; lia. Qed.
Lemma plus_relative elapsed q : plus q (relative (place elapsed) q) = place elapsed.
Proof.
  unfold plus, relative. destruct (place elapsed) as [x y] eqn:E, q as [u v]. cbn [fst snd]. rewrite !wrapS_add, !Zplus_minus.
  unfold place in E. injection E as <- <-. by rewrite !wrapS_id by (done || apply as_signed_in).
Qed.

Lemma stream_cons current now ticks s : interval s = (current, now) :: ticks → keys s ≠ [] → (0 ≤ next_key_idx s)%Z →
  ∃ key, keys s !! Z.to_nat (next_key_idx s mod Z.of_nat (length (keys s))) = Some key ∧
    let s1 := mkDummy (snd (fst (at_tick current now s))) (snd (at_tick current now s)) (keys s) ((next_key_idx s + 1) mod 2 ^ 64) ticks in
    stream ((current, now) :: ticks) s = ((key, fst (fst (at_tick current now s))) :: fst (stream ticks s1), snd (stream ticks s1)).
Proof.
  intros Hi Hk Hn. destruct (poll_next_eq current now ticks s Hi Hk Hn) as (key & E & Ep). exists key. split; [done|].
  cbn [stream bk_poll dummy_capture]. rewrite Ep. by destruct (stream _ _).
Qed.
(** The keys come in turn, and the motions add up to the place of the pointer. *)
Lemma stream_moves ticks s : interval s = ticks → keys s ≠ [] → (0 ≤ next_key_idx s)%Z → (next_key_idx s + Z.of_nat (length ticks) < 2 ^ 64)%Z →
  length (fst (stream ticks s)) = length ticks ∧
  (∀ i key ev, fst (stream ticks s) !! i = Some (key, ev) →
     keys s !! Z.to_nat ((next_key_idx s + Z.of_nat i) mod Z.of_nat (length (keys s))) = Some key) ∧
  (is_Some (start s) → ∃ ds, snd <$> fst (stream ticks s) = motion <$> ds ∧ offset (snd (stream ticks s)) = foldl plus (offset s) ds).
Proof.
  revert s. induction ticks as [|[current now] ticks IH]; intros s Hi Hk Hn Hlt.
  { split_and!; [done|by intros|]. intros _. by exists []. }
  destruct (stream_cons current now ticks s Hi Hk Hn) as (key & Ekey & E). rewrite E. cbn [fst snd length] in *.
  assert ((next_key_idx s + 1) mod 2 ^ 64 = next_key_idx s + 1)%Z as Em by (apply Z.mod_small; lia).
  edestruct (IH (mkDummy (snd (fst (at_tick current now s))) (snd (at_tick current now s)) (keys s) ((next_key_idx s + 1) mod 2 ^ 64) ticks))
    as (H1 & H2 & H3); cbn [keys next_key_idx interval]; [done|done|lia|lia|]. cbn [start offset keys next_key_idx] in *. split_and!.
  - by rewrite H1.
  - intros [|i] k ev; cbn [lookup list_lookup]; [intros [= <- <-]; by rewrite Z.add_0_r|]. intros Hl. apply H2 in Hl.
    rewrite <- Hl. do 3 f_equal. lia.
  - intros [t0 Et]. destruct H3 as (ds & Eds & Eo); [unfold at_tick; by rewrite Et|].
    exists (relative (snd (at_tick current now s)) (offset s) :: ds). cbn [fmap list_fmap foldl]. rewrite Eds, Eo. split.
    + f_equal. unfold at_tick. by rewrite Et.
    + f_equal. unfold at_tick. rewrite Et. cbn [snd]. by rewrite plus_relative.
Qed.
(** The dummy backend announces itself once and then only moves the pointer; its
    barriers come in turn, the one on the left when it was given none; and its
    motions, added up in 32 bits, lead from the origin to where the pointer is on
    its curve. *)
Theorem dummy_rounds ks ticks : (Z.of_nat (length ticks) < 2 ^ 64)%Z →
  let s := with_keys ks ticks in
  let es := fst (stream ticks s) in
  keys s ≠ [] ∧ length es = length ticks ∧
  (∀ i key ev, es !! i = Some (key, ev) → keys s !! (i mod length (keys s)) = Some key) ∧
  (ticks = [] ∨ ∃ ds, snd <$> es = Begin :: (motion <$> ds) ∧ offset (snd (stream ticks s)) = foldl plus (0, 0)%Z ds).
Proof.
  intros Hlt s es. assert (keys s ≠ []) as Hk by (unfold s; by destruct ks).
  destruct (stream_moves ticks s eq_refl Hk (Z.le_refl 0) Hlt) as (H1 & H2 & _). split_and!; [done|done|..].
  - intros i key ev Hi. rewrite <- (H2 i key ev Hi). cbn [next_key_idx s with_keys]. f_equal. change (0 + Z.of_nat i)%Z with (Z.of_nat i).
    by rewrite <- Nat2Z.inj_mod, Nat2Z.id.
  - destruct ticks as [|[current now] ticks]; [by left|right]. destruct (stream_cons current now ticks s eq_refl Hk (Z.le_refl 0)) as (key & _ & E).
    unfold es. rewrite E. cbn [at_tick start s with_keys fst snd offset].
    edestruct (stream_moves ticks (mkDummy (Some current) (0, 0)%Z (keys s) ((next_key_idx s + 1) mod 2 ^ 64) ticks)) as (_ & _ & H3);
      [done|done|done|cbn [next_key_idx s with_keys length] in *; change ((0 + 1) mod 2 ^ 64)%Z with 1%Z; lia|].
    destruct H3 as (ds & Eds & Eo); [by eexists|]. exists ds. cbn [fmap list_fmap]. by rewrite Eds, Eo.
Qed.
End dummy.
End DummyCapture.

Lemma dummy_rounds_witness :
  let right : BarrierKey := from_pos Edge.Right in let left : BarrierKey := from_pos Edge.Left in
  let ticks := [(0, 0); (1000000, 1000000); (2000000, 2000000)]%Z in
  let es := fst (DummyCapture.stream (λ x, x) (λ x, x) ticks (DummyCapture.with_keys [left; right] ticks)) in
  fst <$> es = [left; right; left] ∧ length es = 3 ∧ fst <$> es !! 2 = Some left.
Proof.
  intros right left ticks es. destruct (DummyCapture.dummy_rounds (λ x, x) (λ x, x) [left; right] ticks) as (_ & Hl & Hk & _); [done|].
  fold es in Hl, Hk. split; [vm_compute; reflexivity|]. split; [exact Hl|].
  destruct (es !! 2) as [[key ev]|] eqn:E; [|by apply lookup_ge_None in E; rewrite Hl in E; cbn in E; lia].
  specialize (Hk 2 key ev E). cbn. symmetry. exact Hk.
Defined.
