(* ===== verification/Web.v ===== *)
(** The frontend in the browser (src/web.rs): the bridge to the daemon's socket,
    the bus that fans its events out, a WebSocket, the assets, and what the page
    is told about the machine.

    The bus is tokio's broadcast channel: the log of the events, of which a
    receiver that is more than the capacity behind is moved to the oldest one
    that is kept.  A run is a sequence of turns of the tasks; the answers of the
    sockets are arguments.  What a browser got is in it, for the proofs. *)

From Stdlib Require Import Strings.Ascii.
From S2P Require Import Prelude Net Text IpcSocket.

Definition DEFAULT_WEB_PORT : Z := 3939.
Definition EVENT_BUS_CAPACITY : nat := 256.
(** Of the channel from the browsers to the bridge. *)
Definition REQUEST_CAPACITY : nat := 64.

(** [str::parse] to a u16. *)
Definition parse_u16 (s : string) : option Z :=
  n ← Text.Str.parse_usize s; if decide (n < 65536)%N then Some (Z.of_N n) else None.
(** [env] is the value of LAN_MOUSE_WEB_PORT. *)
Definition resolve_port (arg : option Z) (env : option string) (config_port : option Z) : Z :=
  match arg with
  | Some p => p
  | None =>
      match env ≫= parse_u16 with
      | Some p => p
      | None => default DEFAULT_WEB_PORT config_port
      end
  end.

(** * The bus and the sockets *)

Inductive Message : Type := MText (text : string) | MClose | MOther.

Section web.
Context {Req Ev : Type} `{Json Req} `{Json Ev}.

(** A WebSocket: what came from the browser, the place of its receiver in the
    log and where that was made, its two loops, the events it sent, the requests
    that it passed on, and whether the receiver was ever moved. *)
Record Browser : Type := mkBrowser {
  inbox : list (option Message);
  pos : nat;
  since : nat;
  reading : bool;
  writing : bool;
  got : list Ev;
  asked : list Req;
  lagged : bool
}.
Record Web : Type := mkWeb {
  bus : list Ev;
  pumping : bool;
  request_rx : list Req;
  forwarded : list Req;
  browsers : list Browser
}.
Definition new_web : Web := mkWeb [] true [] [] [].

Definition set_bus (l : list Ev) (s : Web) : Web := mkWeb l (pumping s) (request_rx s) (forwarded s) (browsers s).
Definition set_pumping (b : bool) (s : Web) : Web := mkWeb (bus s) b (request_rx s) (forwarded s) (browsers s).
Definition set_requests (q f : list Req) (s : Web) : Web := mkWeb (bus s) (pumping s) q f (browsers s).
Definition set_browsers (l : list Browser) (s : Web) : Web := mkWeb (bus s) (pumping s) (request_rx s) (forwarded s) l.

(** The event pump of [spawn_ipc_bridge]: an event, an error, or the end. *)
Definition event_pump (r : option (outcome IpcError Ev)) (s : Web) : Web :=
  if pumping s then
    match r with
    | Some (Ok e) => set_bus (bus s ++ [e]) s
    | _ => set_pumping false s
    end
  else s.
(** The task that writes the requests: one that cannot be written is dropped. *)
Definition forward (ok : bool) (s : Web) : Web :=
  match request_rx s with
  | [] => s
  | r :: q => set_requests q (if ok then forwarded s ++ [r] else forwarded s) s
  end.

(** [handle_socket]. *)
Definition subscribe (s : Web) : Web :=
  set_browsers (browsers s ++ [mkBrowser [] (length (bus s)) (length (bus s)) true true [] [] false]) s.
(** The loop that reads, with its channel; [None] waits for room. *)
Definition read_socket (q : list Req) (b : Browser) : option (list Req * Browser) :=
  match reading b, inbox b with
  | true, m :: rest =>
      let rest_of reading writing asked := mkBrowser rest (pos b) (since b) reading writing (got b) asked (lagged b) in
      match m with
      | Some (MText text) =>
          match from_json text with
          | Some r => if decide (length q < REQUEST_CAPACITY)%nat then Some (q ++ [r], rest_of true (writing b) (asked b ++ [r])) else None
          | None => Some (q, rest_of true (writing b) (asked b))
          end
      | Some MOther => Some (q, rest_of true (writing b) (asked b))
      | Some MClose | None => Some (q, rest_of false false (asked b))
      end
  | _, _ => None
  end.
(** The task that writes: [ok] is whether the browser takes the message. *)
Definition write_socket (log : list Ev) (ok : bool) (b : Browser) : Browser :=
  if writing b then
    if decide (pos b + EVENT_BUS_CAPACITY < length log)%nat then
      mkBrowser (inbox b) (length log - EVENT_BUS_CAPACITY)%nat (since b) (reading b) true (got b) (asked b) true
    else
      match log !! pos b with
      | Some e =>
          mkBrowser (inbox b) (S (pos b)) (since b) (reading b) ok (if ok then got b ++ [e] else got b) (asked b) (lagged b)
      | None => b
      end
  else b.

Inductive turn : Type :=
| Event (r : option (outcome IpcError Ev))
| Forward (ok : bool)
| Open
| Arrives (i : nat) (m : option Message)
| Read (i : nat)
| Write (i : nat) (ok : bool).
Definition step (t : turn) (s : Web) : Web :=
  match t with
  | Event r => event_pump r s
  | Forward ok => forward ok s
  | Open => subscribe s
  | Arrives i m =>
      set_browsers (alter (λ b, mkBrowser (inbox b ++ [m]) (pos b) (since b) (reading b) (writing b) (got b) (asked b) (lagged b)) i (browsers s)) s
  | Read i =>
      match browsers s !! i with
      | Some b =>
          match read_socket (request_rx s) b with
          | Some (q, b') => set_browsers (<[i := b']> (browsers s)) (set_requests q (forwarded s) s)
          | None => s
          end
      | None => s
      end
  | Write i ok => set_browsers (alter (write_socket (bus s) ok) i (browsers s)) s
  end.
Definition run (ts : list turn) (s : Web) : Web := foldl (λ s t, step t s) s ts.
End web.

(** * The assets *)

Fixpoint trim_start_matches (c : ascii) (s : string) : string :=
  match s with
  | String.String c' s' => if decide (c' = c) then trim_start_matches c s' else s
  | String.EmptyString => s
  end.
Section assets.
(** The bundle, and the table of media types. *)
Variable asset : string → option (list byte).
Variable mime : string → string.
Inductive Response : Type := Found (content_type : string) (body : list byte) | NotFound.
Definition static_handler (uri_path : string) : Response :=
  let path := trim_start_matches "/"%char uri_path in
  let path := if decide (path = "") then "index.html" else path in
  match asset path with
  | Some body => Found (mime path) body
  | None => match asset "index.html" with Some body => Found (mime "index.html") body | None => NotFound end
  end.
End assets.

(** * The addresses of the machine *)

Definition is_ipv4 (ip : IpAddr) : bool := match ip with V4 _ => true | V6 _ => false end.
Definition is_loopback (ip : IpAddr) : bool :=
  match ip with V4 a => bool_decide (a / 2 ^ 24 = 127)%N | V6 a => bool_decide (a = 1)%N end.
(** [probed] are the local addresses that the sockets towards the probes have,
    [listed] those of the interfaces. *)
Definition collect_local_ips (probed : list (option IpAddr)) (listed : option (list IpAddr)) : string * list string :=
  let all := filter (λ ip, is_loopback ip = false) (default [] listed) in
  let all_ips := ip_to_string <$> (filter (λ ip, is_ipv4 ip = true) all ++ filter (λ ip, is_ipv4 ip = false) all) in
  match omap id probed with
  | ip :: _ => (ip_to_string ip, all_ips)
  | [] =>
      (match list_find (λ s, "."%char ∈ String.list_ascii_of_string s) all_ips with Some (_, s) => s | None => "" end, all_ips)
  end.

(** * What a browser sees *)

Section proofs.
Context {Req Ev : Type} `{Json Req} `{Json Ev}.
Implicit Types (s : Web (Req:=Req) (Ev:=Ev)) (b : Browser (Req:=Req) (Ev:=Ev)) (log : list Ev).

(** What it got is a part of the events since it subscribed; the beginning of
    them, and as far as its receiver is, unless it lagged. *)
Record browser_ok log b : Prop := {
  bo_pos : since b ≤ pos b ≤ length log;
  bo_part : got b `sublist_of` drop (since b) (take (pos b) log);
  bo_all : lagged b = false → got b `prefix_of` drop (since b) (take (pos b) log) ∧ (writing b = true → got b = drop (since b) (take (pos b) log))
}.

Lemma browser_grows log b e : browser_ok log b → browser_ok (log ++ [e]) b.
Proof.
  intros [Hp Hg Ha]. split; rewrite ?length_app, ?take_app_le by lia; [lia|done|done].
Qed.
Lemma write_ok log ok b : browser_ok log b → browser_ok log (write_socket log ok b).
Proof.
  intros Hb. pose proof Hb as [Hp Hg Ha]. unfold write_socket. destruct (writing b) eqn:Ew; [|done]. case_decide as Hl.
  - split; cbn; [lia| |done]. etrans; [exact Hg|].
    rewrite <- (take_drop (pos b) (take (length log - EVENT_BUS_CAPACITY) log)), take_take, Nat.min_l by (unfold EVENT_BUS_CAPACITY in *; lia).
    rewrite drop_app_le by (rewrite length_take; lia). apply sublist_inserts_r. done.
  - destruct (log !! pos b) as [e|] eqn:El; [|done].
    assert (drop (since b) (take (S (pos b)) log) = drop (since b) (take (pos b) log) ++ [e]) as E.
    { rewrite (take_S_r _ _ _ El), drop_app_le; [done|]. rewrite length_take. lia. }
    apply lookup_lt_Some in El. split; cbn; rewrite ?E; [lia|..].
    + destruct ok; [by apply sublist_app|by apply sublist_inserts_r].
    + intros Hlag. destruct (Ha Hlag) as [Hpre Heq]. rewrite (Heq eq_refl). destruct ok; [done|].
      split; [by apply prefix_app_r|done].
Qed.
Lemma read_keeps q b q' b' :
  read_socket q b = Some (q', b') →
  since b' = since b ∧ pos b' = pos b ∧ got b' = got b ∧ lagged b' = lagged b ∧ (writing b' = true → writing b = true) ∧
  ∃ rs, q' = q ++ rs ∧ asked b' = asked b ++ rs ∧ (rs = [] ∨ length q < REQUEST_CAPACITY ∧ length rs = 1).
Proof.
  unfold read_socket. destruct (reading b), (inbox b) as [|m rest]; try done.
  destruct m as [[text| |]|]; [destruct (from_json text); [case_decide; [|done]|]|..]; intros [= <- <-]; cbn; split_and!; try done.
  all: first [exists []; rewrite ?app_nil_r; by auto|eexists; split_and!; [done|done|by right]].
Qed.

(** The requests on their way are those of the browsers, in the order of each. *)
Record web_ok s : Prop := {
  wo_browsers : Forall (browser_ok (bus s)) (browsers s);
  wo_room : length (request_rx s) ≤ REQUEST_CAPACITY;
  wo_asked b : b ∈ browsers s → asked b `sublist_of` forwarded s ++ request_rx s;
  wo_all : forwarded s ++ request_rx s ≡ₚ concat (asked <$> browsers s)
}.

Lemma asked_alter f i (l : list (Browser (Req:=Req) (Ev:=Ev))) : (∀ b, asked (f b) = asked b) → asked <$> alter f i l = asked <$> l.
Proof. intros Hf. revert i. induction l as [|b l IH]; intros [|i]; cbn; [done|done|by rewrite Hf|by rewrite IH]. Qed.
Lemma elem_of_alter {A} (f : A → A) (i : nat) (l : list A) x : x ∈ alter f i l → x ∈ l ∨ ∃ y, y ∈ l ∧ x = f y.
Proof.
  revert i. induction l as [|y l IH]; intros [|i]; cbn; try set_solver.
Qed.
Lemma write_asked log ok b : asked (write_socket log ok b) = asked b.
Proof. unfold write_socket. destruct (writing b); [|done]. case_decide; [done|]. by destruct (log !! pos b). Qed.

Lemma altered f i s :
  web_ok s → (∀ b, browser_ok (bus s) b → browser_ok (bus s) (f b)) → (∀ b, asked (f b) = asked b) → web_ok (set_browsers (alter f i (browsers s)) s).
Proof.
  intros [Hb Hr Ha Hp] Hf Hk. split; cbn.
  - rewrite Forall_forall in *. intros b [?|(y & ? & ->)]%elem_of_alter; auto.
  - done.
  - intros b [?|(y & ? & ->)]%elem_of_alter; rewrite ?Hk; auto.
  - by rewrite asked_alter.
Qed.

Lemma asked_insert i (l : list (Browser (Req:=Req) (Ev:=Ev))) b b' rs :
  l !! i = Some b → asked b' = asked b ++ rs → concat (asked <$> <[i:=b']> l) ≡ₚ concat (asked <$> l) ++ rs.
Proof.
  intros Ei E. revert i Ei. induction l as [|x l IH]; intros [|i] Ei; cbn in *; [done|done| |].
  - injection Ei as ->. rewrite E, <- !app_assoc. f_equiv. apply Permutation_app_comm.
  - by rewrite (IH i Ei), app_assoc.
Qed.

(** Every turn but a request that cannot be written. *)
Definition written (t : turn (Ev:=Ev)) : Prop := match t with Forward ok => ok = true | _ => True end.
Lemma step_web t s : web_ok s → written t → web_ok (step t s).
Proof.
  intros Hs Ht. pose proof Hs as [Hb Hr Ha Hp]. destruct t as [r|ok| |i m|i|i ok]; cbn [step].
  - unfold event_pump. destruct (pumping s); [|done]. destruct r as [[e|e| |]|]; try by split. split; cbn; [|done|done|done].
    eapply Forall_impl; [exact Hb|]. intros b. apply browser_grows.
  - unfold forward. destruct (request_rx s) as [|r q] eqn:E; [done|]. cbn in Ht. subst ok. cbn in Hr.
    split; cbn; [done|lia|intros b Hin|]; rewrite <- app_assoc; [by apply Ha|done].
  - unfold subscribe. split; cbn.
    + apply Forall_app_2; [done|]. apply Forall_singleton. split; cbn; [lia|apply sublist_nil_l|]. intros _.
      rewrite firstn_all, drop_all. done.
    + done.
    + intros b [Hin|Hin]%elem_of_app; [by apply Ha|]. apply list_elem_of_singleton in Hin as ->. apply sublist_nil_l.
    + rewrite fmap_app, concat_app. cbn. by rewrite app_nil_r.
  - apply altered; [done|by intros b []|done].
  - destruct (browsers s !! i) as [b|] eqn:Ei; [|done]. destruct (read_socket (request_rx s) b) as [[q b']|] eqn:Er; [|done].
    apply read_keeps in Er as (E1 & E2 & E3 & E4 & Hw & rs & -> & Ek & Hroom). split; cbn.
    + apply Forall_insert; [done|]. rewrite Forall_forall in Hb. destruct (Hb b) as [Hpos Hg Hall]; [by eapply list_elem_of_lookup_2|].
      split; rewrite ?E1, ?E2, ?E3; [done|done|]. rewrite E4. intros Hl. destruct (Hall Hl). auto.
    + rewrite length_app. destruct Hroom as [->|[? ?]]; cbn; lia.
    + intros x Hx. rewrite app_assoc. apply list_elem_of_lookup_1 in Hx as [j Hj]. apply list_lookup_insert_Some in Hj as [(_ & <- & _)|[_ Hj]].
      * rewrite Ek. apply sublist_app; [|done]. apply Ha. by eapply list_elem_of_lookup_2.
      * apply sublist_inserts_r. apply Ha. by eapply list_elem_of_lookup_2.
    + by rewrite app_assoc, Hp, (asked_insert _ _ _ _ _ Ei Ek).
  - apply altered; [done|intros b; apply write_ok|intros b; apply write_asked].
Qed.
End proofs.

(** * Properties *)

(** The browsers and the daemon, as long as the requests can be written.
    What a browser got is a part of what the daemon broadcast since it
    connected, in order and without repetition, and all of it up to its place as
    long as it was never more than 256 events behind; the requests that reach
    the daemon or wait, at most 64, are those of the browsers, those of each in
    its order. *)
Theorem browsers_served {Req Ev} `{Json Req} `{Json Ev} (ts : list (turn (Ev:=Ev))) :
  Forall written ts →
  let s := run (Req:=Req) ts new_web in
  (∀ b, b ∈ browsers s →
     got b `sublist_of` drop (since b) (bus s) ∧
     (lagged b = false → writing b = true → got b = drop (since b) (take (pos b) (bus s))) ∧
     asked b `sublist_of` forwarded s ++ request_rx s) ∧
  forwarded s ++ request_rx s ≡ₚ concat (asked <$> browsers s) ∧ length (request_rx s) ≤ REQUEST_CAPACITY.
Proof.
  intros Hts s. assert (web_ok s) as [Hb Hr Ha Hp].
  { subst s. assert (web_ok (Req:=Req) (Ev:=Ev) new_web) as Hs by (split; [done|cbn; lia|by intros b Hb%not_elem_of_nil|done]).
    revert Hs. generalize (new_web (Req:=Req) (Ev:=Ev)). induction Hts as [|t ts Ht _ IH]; intros s Hs; [done|]. cbn. by apply IH, step_web. }
  split_and!; [|done|done]. intros b Hin. rewrite Forall_forall in Hb. destruct (Hb b Hin) as [Hpos Hg Hall]. split_and!.
  - etrans; [exact Hg|]. rewrite <- (take_drop (pos b) (bus s)) at 2. rewrite drop_app_le by (rewrite length_take; lia). by apply sublist_inserts_r.
  - intros Hl Hw. by apply Hall.
  - by apply Ha.
Qed.

(** The port, in the order of precedence; the page, which answers every path
    once the bundle has an index; and the addresses: all but the loopback ones,
    those of version 4 first. *)
Theorem page_spec asset mime arg env config_port path probed listed index :
  resolve_port arg env config_port =
    default DEFAULT_WEB_PORT (match arg with Some p => Some p | None => match env ≫= parse_u16 with Some p => Some p | None => config_port end end) ∧
  (asset "index.html" = Some index →
     static_handler asset mime path = match asset (trim_start_matches "/"%char path) with
       | Some body => if decide (trim_start_matches "/"%char path = "") then Found (mime "index.html") index else Found (mime (trim_start_matches "/"%char path)) body
       | None => Found (mime "index.html") index
       end) ∧
  (∃ v4 v6, v4 ++ v6 ≡ₚ filter (λ ip, is_loopback ip = false) (default [] listed) ∧ Forall (λ ip, is_ipv4 ip = true) v4 ∧ Forall (λ ip, is_ipv4 ip = false) v6 ∧
     snd (collect_local_ips probed listed) = ip_to_string <$> (v4 ++ v6)).
Proof.
  split_and!.
  - unfold resolve_port. destruct arg; [done|]. by destruct (env ≫= parse_u16).
  - intros Hi. unfold static_handler. case_decide as Hp; [rewrite Hi; by destruct (asset (trim_start_matches _ path))|].
    rewrite Hi. by destruct (asset (trim_start_matches _ path)).
  - eexists _, _. split_and!; [..|by unfold collect_local_ips; destruct (omap id probed)].
    + set (l := filter (λ ip, is_loopback ip = false) (default [] listed)). clearbody l.
      induction l as [|ip l IH]; [done|]. rewrite !filter_cons. destruct (is_ipv4 ip) eqn:E; [rewrite decide_True, decide_False by done|rewrite decide_False, decide_True by done].
      * by apply perm_skip.
      * rewrite <- Permutation_middle. by apply perm_skip.
    + apply Forall_forall. intros ip Hin. by apply list_elem_of_filter in Hin as [? _].
    + apply Forall_forall. intros ip Hin. by apply list_elem_of_filter in Hin as [? _].
Qed.

(** ** Instances *)

Module Page.
#[local] Existing Instance Bit.bit_json.
#[local] Existing Instance Bit.bit_laws.
Definition event (e : bool) : turn := Event (Some (Ok e)).
Definition turns : list turn :=
  [event true; Open; event false; event true; Write 0 true; Arrives 0 (Some (MText "false")); Arrives 0 (Some (MText "yes")); Read 0; Read 0; Forward true; Write 0 true].
Lemma browsers_served_witness :
  let s := run (Req:=bool) turns new_web in
  (∃ b, browsers s = [b] ∧ got b = [false; true] ∧ since b = 1) ∧ forwarded s ++ request_rx s ≡ₚ [false].
Proof.
  destruct (browsers_served (Req:=bool) (Ev:=bool) turns) as (_ & Hp & _); [by repeat constructor|].
  split; [eexists; split; [vm_compute; reflexivity|by split]|]. exact Hp.
Defined.

Lemma page_spec_witness :
  let asset p := if decide (p = "index.html") then Some [x2a] else None in
  static_handler asset id "/devices" = Found "index.html" [x2a] ∧ resolve_port None (Some "80x") None = 3939%Z.
Proof.
  destruct (page_spec (λ p, if decide (p = "index.html") then Some [x2a] else None) id None (Some "80x") None "/devices" [] None [x2a]) as (H1 & H2 & _).
  split; [rewrite H2 by reflexivity; vm_compute; reflexivity|rewrite H1; vm_compute; reflexivity].
Defined.

(** An event that the socket tore ends the pump: the pages stay open, and none
    of them hears of the daemon again. *)
Lemma torn_event_freezes :
  let short (_ : nat) (bs : list byte) := Some (length bs `min` 3)%nat in
  let accepted := IpcSocket.run true id Bit.whole [Connect 0; Poll] IpcSocket.new in
  let s := IpcSocket.run true id Bit.whole [Broadcast false; Broadcast true] (IpcSocket.run true id short [Broadcast true] accepted) in
  let w := run (Req:=bool) (Open :: ((λ e, Event (Some e)) <$> events_of 0 s)) new_web in
  pumping w = false ∧ bus w = [].
Proof. vm_compute. done. Qed.
Lemma stopped_pump ts s :
  pumping s = false → pumping (run (Req:=bool) (Ev:=bool) ts s) = false ∧ bus (run (Req:=bool) (Ev:=bool) ts s) = bus s.
Proof.
  revert s. induction ts as [|t ts IH]; intros s Hs; [done|]. cbn.
  assert (pumping (step t s) = false ∧ bus (step t s) = bus s) as [E1 E2].
  { destruct t as [r|ok| |i m|i|i ok]; cbn; unfold event_pump, forward; rewrite ?Hs; try done.
    - by destruct (request_rx s).
    - destruct (browsers s !! i); [|done]. by destruct (read_socket _ _) as [[]|]. }
  rewrite <- E2. by apply IH.
Qed.
End Page.
